(* ===== verification/_CoqProject ===== *)
-Q . S2P
Prelude.v
Wp.v
BTree.v
Sums.v
Text.v
Hashing.v
Float64.v
BudgetCascade.v
GraphModel.v
ControlOps.v
Validate.v
GraphOps.v
GraphLineage.v
GraphTree.v
Reserve.v
Ledger.v
GraphInv.v
LocalUpdate.v
PreserveLocal.v
StopCascade.v
Spend.v
Receipts.v
Growth.v
Delegation.v
Insertion.v
Reach.v
Reports.v
Persisted.v
GraphFacts.v
OperationFacts.v
LifecycleFacts.v
ReportFacts.v
Protocol.v
OutcomeSignals.v
OutcomeEvaluator.v
OutcomeFacts.v
Workflow.v
Hex.v
TaskModel.v
TaskAuthority.v
TaskAuthorityFacts.v
TaskStore.v
TaskControl.v
TaskFacts.v
TaskStoreFacts.v
TaskControlFacts.v
CircuitBreaker.v
CircuitFacts.v
Relay.v
RelayFacts.v
TaskResponse.v
TaskReceive.v
TaskResponseFacts.v
TaskReceiveFacts.v
SecurityEvents.v
Json.v
AuditTrail.v
AuditFacts.v
AuditResumeFacts.v
AuditAppendFacts.v
AuditWitness.v
SecurityRecord.v
HiveError.v
HiveErrorFacts.v
HiveState.v
HiveOutbox.v
HiveThrottle.v
HiveThrottleFacts.v
HiveThrottlePaths.v
HiveOutboxFacts.v
HiveWaitFacts.v
AgentLease.v
AgentLeaseFacts.v
AgentLeaseWait.v
AgentLeasePaths.v
AgentBudget.v
RateLimiter.v
ShellLexer.v
ShellLexerFacts.v
ShellScripts.v
