(* ===== verification/Prelude.v ===== *)
(** * A verification library for LeanCTX

    LeanCTX keeps the context an AI agent works with and bounds what agents may
    do with it.  This library models the parts of its Rust code in which a wrong
    decision costs money, leaks or duplicates work: how work is delegated and
    paid for, how its results are judged, which agent of another machine may
    start or stop a task here, and what gates calls between them.

    ** Parts of the program and the files that model them

    - _Results, integers, effects._  [Prelude] (this file): results of code that
      may fail, panic or loop ([exec]), [u64] arithmetic, methods on a mutable
      receiver ([op], [ask], [field]) and their notations.  [Wp]: weakest
      preconditions for methods.  [BTree], [Sums], [Text], [Hashing], [Hex],
      [Float64]: ordered maps, totals, strings as UTF-8 bytes, hash functions,
      [hex_encode] and [hex_decode] of [rust/src/core/agent_identity.rs], and
      [f64] as the Standard Library's [SpecFloat].
    - _Budgets and work graphs_, [rust/crates/lean-ctx-workgraph/src].
      [BudgetCascade]: [budget_cascade.rs].  [GraphModel]: types and checks of
      [work_graph.rs].  [ControlOps], [Validate], [GraphOps]: every method of
      [work_graph/control_ops.rs] and [graph_ops.rs].  A graph is the record
      [BoundedWorkGraph], with a map where the code has one; a method is a
      function from the graph to a graph and a result.
    - _Outcomes_, the same crate and [rust/crates/lean-ctx-protocol/src].
      [Protocol]: [common.rs], [evidence.rs], [outcome.rs].  [OutcomeSignals]:
      [outcome/signals.rs], [contracts.rs], [fingerprint.rs].
      [OutcomeEvaluator]: [outcome/evaluator.rs].
    - _Workflows_, [rust/src/core/workflow].  [Workflow]: [types.rs],
      [engine.rs], [gate.rs] and the stand-in of [store.rs].
    - _Agent-to-agent tasks_, [rust/src/core/a2a].  [TaskModel]: [task/model.rs],
      the state machine of a task.  [TaskAuthority]: [task/authority.rs], who may
      ask for what.  [TaskStore]: [task/store.rs], the file of tasks and its
      ledger of deliveries.  [TaskControl]: [task_control.rs].  [TaskResponse]:
      [task_response.rs].  [TaskReceive]: the endpoint that composes them, of
      [rust/crates/lean-ctx/src/http_server/handlers.rs] and [task_control.rs].
    - _Relay records_.  [Relay]: [rust/src/core/a2a/relay.rs].
    - _Circuit breaker_.  [CircuitBreaker]: [circuit_breaker.rs] of
      [lean-ctx-protocol].
    - _Audit trail_, [rust/src/core/audit_trail.rs] with [segments.rs] and
      [checkpoint.rs].  [AuditTrail]: entries, chain, appending, sealing,
      verification from checkpoints; a trail is its sealed segments and its
      active file, each the bytes it holds.  [SecurityEvents],
      [SecurityRecord]: [rust/src/core/security_events.rs], what the protections
      of a call counted, and how it becomes entries.
    - _Hive client_, [rust/crates/lean-ctx-hive/src], which sends work to a
      service.  [HiveError]: [error.rs] and the error body of the protocol.
      [HiveState]: the state files of [state.rs]; a directory is a map from names
      to files.  [HiveOutbox]: [outbox.rs].  [HiveThrottle]: [throttle.rs], whose
      [policy_changed] joins throttles and outbox.
    - _Agent leases_, [rust/src/core/agent_lease.rs]: who may write a path or a
      symbol.  [AgentLease]: the registry of leases and waiters, its calls, and
      the two files through which the processes of a machine share it; a call
      takes the lock, loads, changes and saves, and each of these may fail.
      [AgentLeasePaths]: how a path of a project is named as a resource.
    - _Agent budgets_, [rust/src/core/agent_budget.rs]: [AgentBudget].
    - _Shell gate_, [lexer.rs] and [heredoc.rs] under
      [rust/src/core/shell_allowlist]: what of a command line the shell runs.
      [ShellLexer]: the one pass over the text, and what is stripped by it.
    - _Rate limits_, [rust/src/core/a2a/rate_limiter.rs]: [RateLimiter], over the
      floats of [Float64].
    - _Shared data_: [Json], with a serializer on which statements about files are
      evaluated.

    A definition has the name of the Rust item it translates, with a prefix
    where two items share one; a field has its own name behind the prefix of its
    record.  What the crates outside the repository do ([serde_json], [chrono],
    [ed25519_dalek], [sha2], [blake3], [hmac], the file system) is a parameter:
    a class of operations such as [CanonicalJson], [Ed25519], [StoreFile], and a
    class of their documented laws such as [Ed25519Laws], [StoreFileLaws],
    [RelayCodecLaws].  Each theorem that relies on laws has a witness with an
    instance that satisfies them.

    ** What is proved

    - _Every reachable graph is well formed_ ([GraphInv], [LocalUpdate],
      [PreserveLocal], [StopCascade], [Spend], [Receipts], [Growth],
      [Delegation], [Insertion]; collected by [Reach] and [GraphFacts]).  A graph
      built by any calls in any order, of callers that keep the rules of
      [callable] (below), satisfies [graph_inv] and the program's own
      [validate_invariants]; a failed call of anybody leaves it as it was; what a node's
      descendants claim is covered by what the node was given; the chain's record
      is the sum over the chain.  [GraphTree], [GraphLineage], [Reserve] and
      [Ledger] say what the walks over a graph compute.
    - _Each operation_ ([OperationFacts], [LifecycleFacts], [ReportFacts]): when
      it succeeds and what it changes; delegation, spending, receipts, stop
      cascades, the life of one execution, reports.  [Persisted]: the validator
      terminates on any graph at all and what it accepts is a forest.
    - _Outcomes_ ([OutcomeFacts]): the verdict as a function of the signals, and
      that every evaluation passes the protocol's validation.
    - _Workflows_ ([Workflow]): which tool calls the gate lets through.
    - _Tasks_ ([TaskFacts], [TaskAuthorityFacts], [TaskStoreFacts],
      [TaskControlFacts], [TaskResponseFacts], [TaskReceiveFacts]): a task makes
      finitely many transitions and can be ended while it is open; an operation
      is authorized exactly when a live peer with a live grant signed it; the
      file changes whole or not at all and reads back as written; a delivery
      makes one task while its key is retained; a reply answers one request.
      The last file composes these over every request an endpoint serves, and says
      what each of them may write: one delivered task, or one task of the sender's
      own, cancelled.
    - _Relays_ ([RelayFacts]): a record passes each peer once, at most sixteen,
      and its origin stays verifiable wherever it arrives.
    - _Breaker_ ([CircuitFacts]): each pair of task class and provider refines a
      machine with three states of its own.
    - _Audit trail_ ([AuditFacts], [AuditResumeFacts],
      [AuditAppendFacts], [SecurityRecord]; [AuditWitness] has the
      concrete inputs).  A head binds every entry before it, up to a collision of
      the hash; a pass resumed from checkpoints decides what a full pass decides;
      whatever the system answers, short of a torn write or a lost public key, an
      append leaves a trail that verifies; what is counted is what a verified trail proves; a drift stays reported until
      exactly it is acknowledged.
    - _Hive client_.  [HiveErrorFacts]: no answer reaches a terminal with a
      control character.  [HiveState]: damaged state is moved aside, never
      lost.  [HiveThrottleFacts], [HiveThrottlePaths]: a refused path waits,
      within bounds, with one probe an hour, and is freed by a call that passes,
      as far as [throttles.json] could be written, which the code does not report.
      [HiveOutboxFacts], [HiveWaitFacts]: the outbox stays within its limits and
      drops only metrics; waits are bounded; a newer policy frees what waited for
      one, as far as it could be written.
    - _Agent leases_.  [AgentLeaseFacts]: whatever calls were made and whatever
      failed in them, no two leases of the store overlap, and a lease is kept
      until it ends, is given back or is revoked.  [AgentLeaseWait]: a waiter is
      passed at most once by each wait that was asked for no later, and is served
      when it is first; the two files are the registry in memory.
      [AgentLeasePaths]: leases of paths exclude each other exactly when one path
      lies in the other, or, for names past 256 bytes, which are hashed, when they
      are one path.
    - _Agent budgets_ ([AgentBudget]): the reads of an agent that asks first never add up
      to more than its limits.
    - _Rate limits_ ([RateLimiter]): whatever the rounding of the floats, a limit
      holds in every period up to one call, the time a refused caller is told is
      right to the millisecond, and dropping idle buckets changes no answer.
      [Float64.Rounding] has the error of each operation.
    - _Shell gate_.  [ShellLexerFacts]: every text is lexed, and what is reported
      of it lies in it.  [ShellScripts]: of a script of words, quoted texts and
      nested substitutions exactly the substitutions are found; and two commands
      of which a line is hidden.

    ** Bounds

    A loop whose length the code does not bound by a list takes fuel, and
    running out is [Hang], which the theorems exclude.  Walks up parent links and
    the worklist of [reserved_child_budget] take one step per node of the graph
    ([S (size nodes)]), enough because they never meet a node twice on a forest
    and, on any other graph, a repetition is what the code loops on.  Stop
    cascades take one level of recursion per key of the child index
    ([stop_fuel]).  The graph's theorems are about callers that keep to
    [callable], what the code leaves to them: a root's budget is at most
    [MODEST_BUDGET], 2^55-1 of each kind, so that the totals of 256 nodes fit a
    [u64]; budgets arrive unspent; a root takes no identifier that is reserved
    for a child; the graph's identifier is bound before executions are claimed,
    and a root's context before its children have one.  The operations check none
    of these; the tool [ctx_work_graph] keeps all but the bound, and the examples
    of [GraphFacts] show what a caller that breaks one gets.  A task has at most [MAX_HISTORY], 2048, entries; a relay at
    most [RELAY_MAX_HOPS], 16, hops.  An instant is a number of nanoseconds, and
    is assumed to stay within what [chrono] represents when the code adds seconds
    or minutes to it.

    An append reads the last [TAIL], 64 KiB, of a file and tries three times
    ([SNAPSHOT_ATTEMPTS]); the theorems about it ask that the last line fits.

    A state file of the Hive client is one process's: the lock that orders
    processes is a call that succeeds or fails.  Its clock is read back to the
    second (throttles) or millisecond (outbox) before the year 10000.

    Leases are at most 1024, for at most an hour each; the time of a call is an
    argument.  A waiter keeps its place two minutes from its last call.

    The readings of the clock that a rate limit takes are below 2^64 nanoseconds
    and do not go back; a period of which the calls are counted is a day at most.

    The lexer of the shell gate follows 64 levels, the fuel of [shell_scan]; the
    fuel of each loop is the bytes left, and each turn takes at least one.  The
    depth of parentheses that [balanced_paren_at] counts is not limited to 32
    bits.

    ** What is not modelled

    The text of JSON, which is the interface [JsonText]; locks and temporary
    files (a lock or a write is a step that succeeds or fails); logging, and the gateway that admits free
    text, which is the interface [Gateway].  The process-wide caches and the
    clock are arguments.  Of the repository, the model leaves out the context
    kernel and its caches, compression heuristics over command output, document
    and syntax parsing, the proxy, server and command line around the core, and
    the packages in other languages: they are storage, text heuristics or I/O,
    and the manifest lists them.  Peer configuration of relays (URL and address
    parsing), delivery delegation, how a caller's path is made relative to its project, and
    which commands the shell gate allows are not modelled either. *)
From stdpp Require Export base tactics list gmap strings pretty.
From Stdlib Require Export ZArith Lia.

(** ** Results of modelled code

    A Rust computation of type [Result<A, E>] either returns a value, returns
    an error, panics (an [expect] or an index that fails), or never returns.
    [Hang] is what a [while] loop of the source that follows parent links does
    on a cyclic store: the model bounds the loop by the number of distinct
    nodes it can visit, and the bound is exceeded only by a loop that visits a
    node twice, hence forever. *)
Inductive exec (E A : Type) : Type :=
| Ok (a : A)
| Err (e : E)
| Panic
| Hang.
Arguments Ok {E A} a.
Arguments Err {E A} e.
Arguments Panic {E A}.
Arguments Hang {E A}.

Definition exec_bind {E A B : Type} (f : A → exec E B) (x : exec E A) : exec E B :=
  match x with
  | Ok a => f a
  | Err e => Err e
  | Panic => Panic
  | Hang => Hang
  end.

#[export] Instance exec_mret (E : Type) : MRet (exec E) := λ A a, Ok a.
#[export] Instance exec_mbind (E : Type) : MBind (exec E) := λ A B f x, exec_bind f x.

(** [if cond { return Err(e) }] *)
Definition reject_if {E : Type} (cond : bool) (e : E) : exec E () :=
  if cond then Err e else Ok ().

(** [o.ok_or(e)?] *)
Definition ok_or {E A : Type} (o : option A) (e : E) : exec E A :=
  match o with Some a => Ok a | None => Err e end.

(** [o.expect("...")] and [map[&key]] *)
Definition expect {E A : Type} (o : option A) : exec E A :=
  match o with Some a => Ok a | None => Panic end.

(** [for x in xs { ... }] over an accumulator, with early exits. *)
Fixpoint foldM {E S X : Type} (f : S → X → exec E S) (s : S) (xs : list X) : exec E S :=
  match xs with
  | [] => Ok s
  | x :: xs => exec_bind (λ s', foldM f s' xs) (f s x)
  end.

(** [for x in xs { check(x)?; }] *)
Fixpoint forM_ {E X : Type} (f : X → exec E ()) (xs : list X) : exec E () :=
  match xs with
  | [] => Ok ()
  | x :: xs => exec_bind (λ _, forM_ f xs) (f x)
  end.

(** ** Machine integers

    A [w]-bit unsigned integer is a [Z] kept in its range by the operation the
    source uses: [checked_add], [saturating_add], [saturating_sub], or the
    plain [+] of a release build, which wraps. *)
Definition u8_max : Z := 255.
Definition u16_max : Z := 65535.
Definition u32_max : Z := 4294967295.
Definition u64_max : Z := 18446744073709551615.

Definition in_range (max x : Z) : Prop := (0 ≤ x ≤ max)%Z.
#[export] Instance in_range_dec max x : Decision (in_range max x).
Proof. unfold in_range. apply _. Defined.

Definition checked_add (max x y : Z) : option Z :=
  if (x + y <=? max)%Z then Some (x + y)%Z else None.
Definition saturating_add (max x y : Z) : Z := Z.min max (x + y).
Definition saturating_sub (x y : Z) : Z := Z.max 0 (x - y).
Definition wrapping_add (max x y : Z) : Z := ((x + y) mod (max + 1))%Z.

(** [x.clamp(lo, hi)] *)
Definition clamp (x lo hi : Z) : Z :=
  if (x <? lo)%Z then lo else if (hi <? x)%Z then hi else x.

(** ** Lemmas on results *)
Lemma exec_bind_ret {E A B : Type} (f : A → exec E B) (a : A) : Ok a ≫= f = f a.
Proof. done. Qed.

Lemma exec_bind_Ok {E A B : Type} (f : A → exec E B) (x : exec E A) (b : B) :
  x ≫= f = Ok b ↔ ∃ a, x = Ok a ∧ f a = Ok b.
Proof. destruct x; cbn; naive_solver. Qed.

Lemma reject_if_Ok {E : Type} (cond : bool) (e : E) u :
  reject_if cond e = Ok u ↔ cond = false.
Proof. destruct cond, u; cbn; naive_solver. Qed.

Lemma reject_if_false {E A} b (e : E) (k : () → exec E A) :
  b = false → (reject_if b e ≫= k) = k ().
Proof. by intros ->. Qed.

Lemma ok_or_Ok {E A : Type} (o : option A) (e : E) (a : A) :
  ok_or o e = Ok a ↔ o = Some a.
Proof. destruct o; cbn; naive_solver. Qed.

Lemma expect_Ok {E A : Type} (o : option A) (a : A) :
  expect (E := E) o = Ok a ↔ o = Some a.
Proof. destruct o; cbn; naive_solver. Qed.

Lemma checked_add_Some max x y z :
  checked_add max x y = Some z ↔ z = (x + y)%Z ∧ (x + y ≤ max)%Z.
Proof. unfold checked_add. destruct (Z.leb_spec (x + y) max); naive_solver lia. Qed.

Lemma forM__Ok {E X : Type} (f : X → exec E ()) xs u :
  forM_ f xs = Ok u ↔ ∀ x, x ∈ xs → f x = Ok ().
Proof.
  destruct u. induction xs as [|x xs IH]; cbn; [set_solver|].
  change (exec_bind ?k ?y) with (y ≫= k). rewrite exec_bind_Ok. split.
  - intros ([] & Hx & Hxs) y [->|Hy]%elem_of_cons; [done|]. by apply IH.
  - intros H. exists (). split; [apply H; set_solver|]. apply IH. set_solver.
Qed.

(** ** Lemmas on lists *)
Lemma NoDup_fmap_inj {A B : Type} (f : A → B) l x y :
  NoDup (f <$> l) → x ∈ l → y ∈ l → f x = f y → x = y.
Proof.
  induction l as [|z l IH]; cbn; [by intros _ ?%elem_of_nil|].
  intros [Hz Hl]%NoDup_cons. intros [->|Hx]%elem_of_cons [->|Hy]%elem_of_cons E; auto.
  - destruct Hz. rewrite E. by apply list_elem_of_fmap_2.
  - destruct Hz. rewrite <-E. by apply list_elem_of_fmap_2.
Qed.

(** ** State and errors

    A method taking [&mut self] and returning [Result] maps the receiver to its
    next value and a result.  The state is returned on every path, since Rust
    keeps what a method wrote before it failed. *)
Definition op (S E A : Type) : Type := S → S * exec E A.

Definition op_bind {S E A B : Type} (f : A → op S E B) (m : op S E A) : op S E B :=
  λ s, match m s with
       | (s', Ok a) => f a s'
       | (s', Err e) => (s', Err e)
       | (s', Panic) => (s', Panic)
       | (s', Hang) => (s', Hang)
       end.

#[export] Instance op_mret (S E : Type) : MRet (op S E) := λ A a s, (s, Ok a).
#[export] Instance op_mbind (S E : Type) : MBind (op S E) := λ A B f m, op_bind f m.

(** The receiver, read. *)
Definition get {S E : Type} : op S E S := λ s, (s, Ok s).
(** An expression that only reads the receiver. *)
Definition lift {S E A : Type} (x : exec E A) : op S E A := λ s, (s, x).
(** An assignment to the receiver. *)
Definition modify {S E : Type} (f : S → S) : op S E () := λ s, (f s, Ok ()).

Lemma op_bind_Ok {S E A B : Type} (f : A → op S E B) (m : op S E A) s s' b :
  (m ≫= f) s = (s', Ok b) ↔ ∃ s1 a, m s = (s1, Ok a) ∧ f a s1 = (s', Ok b).
Proof.
  unfold mbind, op_mbind, op_bind. destruct (m s) as [s1 []]; naive_solver.
Qed.

Lemma op_bind_run {S E A B : Type} (f : A → op S E B) (m : op S E A) s s' a :
  m s = (s', Ok a) → (m ≫= f) s = f a s'.
Proof. unfold mbind, op_mbind, op_bind. by intros ->. Qed.

Lemma op_bind_err {S E A B : Type} (f : A → op S E B) (m : op S E A) s s' e :
  m s = (s', Err e) → (m ≫= f) s = (s', Err e).
Proof. unfold mbind, op_mbind, op_bind. by intros ->. Qed.

Lemma get_Ok {S E : Type} (s s' a : S) :
  get (E := E) s = (s', Ok a) ↔ s' = s ∧ a = s.
Proof. unfold get. naive_solver. Qed.

Lemma lift_Ok {S E A : Type} (x : exec E A) (s s' : S) a :
  lift x s = (s', Ok a) ↔ s' = s ∧ x = Ok a.
Proof. unfold lift. naive_solver. Qed.

Lemma modify_Ok {S E : Type} (f : S → S) s s' u :
  modify (E := E) f s = (s', Ok u) ↔ s' = f s.
Proof. unfold modify. destruct u. naive_solver. Qed.

Lemma mret_Ok {S E A : Type} (a b : A) (s s' : S) :
  mret (M := op S E) a s = (s', Ok b) ↔ s' = s ∧ b = a.
Proof. unfold mret, op_mret. naive_solver. Qed.

Lemma exec_mret_Ok {E A : Type} (a b : A) :
  mret (M := exec E) a = Ok b ↔ b = a.
Proof. unfold mret, exec_mret. naive_solver. Qed.

(** Take a successful run apart into the checks it passed. *)
Ltac inv_step H :=
  lazymatch type of H with
  | (_ ≫= _) _ = (_, Ok _) =>
      let s1 := fresh "s" in let a := fresh "a" in
      let H1 := fresh "Hrun" in let H2 := fresh "Hrun" in
      apply op_bind_Ok in H as (s1 & a & H1 & H2); inv_step H1; inv_step H2
  | _ ≫= _ = Ok _ =>
      let a := fresh "a" in let H1 := fresh "Hrun" in let H2 := fresh "Hrun" in
      apply exec_bind_Ok in H as (a & H1 & H2); inv_step H1; inv_step H2
  | get _ = (_, Ok _) => apply get_Ok in H as [-> ->]
  | lift _ _ = (_, Ok _) =>
      let H1 := fresh "Hrun" in apply lift_Ok in H as [-> H1]; inv_step H1
  | modify _ _ = (_, Ok _) => apply modify_Ok in H as ->
  | mret _ _ = (_, Ok _) => apply mret_Ok in H as [-> ->]
  | mret _ = Ok _ => apply exec_mret_Ok in H as ->
  | reject_if _ _ = Ok _ => apply reject_if_Ok in H
  | ok_or _ _ = Ok _ => apply ok_or_Ok in H
  | expect _ = Ok _ => apply expect_Ok in H
  | Ok _ = Ok _ => injection H as H
  | Err _ = Ok _ => discriminate H
  | Panic = Ok _ => discriminate H
  | Hang = Ok _ => discriminate H
  | (_, Ok _) = (_, Ok _) => injection H as H
  | (_, Err _) = (_, Ok _) => discriminate H
  | _ => idtac
  end.

Ltac inv_op H := inv_step H; simplify_eq.

(** [for x in xs { ... }] in a method. *)
Fixpoint fold_op {S E A X : Type} (f : A → X → op S E A) (a : A) (xs : list X) : op S E A :=
  match xs with
  | [] => mret a
  | x :: xs => op_bind (λ a', fold_op f a' xs) (f a x)
  end.
