(* ===== verification/Wp.v ===== *)
(** * Weakest preconditions

    What a method guarantees: [wp m Q E s] says that run in state [s] the method
    [m] does not panic and does not loop, ends in a state and value satisfying
    [Q] when it succeeds, and in a state satisfying [E] when it returns an
    error.  [ewp] is the same for an expression that only reads. *)
From S2P Require Import Prelude.

Definition ewp {E A : Type} (x : exec E A) (Q : A → Prop) : Prop :=
  match x with Ok a => Q a | Err _ => True | Panic | Hang => False end.

Definition wp {S E A : Type} (m : op S E A) (Q : A → S → Prop) (F : S → Prop) (s : S) : Prop :=
  match m s with
  | (s', Ok a) => Q a s'
  | (s', Err _) => F s'
  | (_, Panic) | (_, Hang) => False
  end.

Section ewp.
Context {E : Type}.

Lemma ewp_bind {A B} (f : A → exec E B) (x : exec E A) Q :
  ewp x (λ a, ewp (f a) Q) → ewp (x ≫= f) Q.
Proof. by destruct x. Qed.

Lemma ewp_mono {A} (x : exec E A) (P Q : A → Prop) : (∀ a, P a → Q a) → ewp x P → ewp x Q.
Proof. destruct x; cbn; auto. Qed.

Lemma ewp_ok {A} (a : A) (Q : A → Prop) : Q a → ewp (E := E) (Ok a) Q.
Proof. done. Qed.

Lemma ewp_reject b (e : E) (Q : () → Prop) : (b = false → Q ()) → ewp (reject_if b e) Q.
Proof. destruct b; cbn; auto. Qed.

Lemma ewp_ok_or {A} (o : option A) (e : E) Q : (∀ a, o = Some a → Q a) → ewp (ok_or o e) Q.
Proof. destruct o; cbn; auto. Qed.

Lemma ewp_expect {A} (o : option A) a Q : o = Some a → Q a → ewp (E := E) (expect o) Q.
Proof. by intros ->. Qed.

Lemma ewp_Ok_inv {A} (x : exec E A) (a : A) (Q : A → Prop) : x = Ok a → ewp x Q → Q a.
Proof. by intros ->. Qed.

(** An expression without panics and loops. *)
Lemma ewp_True {A} (x : exec E A) Q : ewp x (λ _, True) → (∀ a, x = Ok a → Q a) → ewp x Q.
Proof. destruct x; cbn; auto. Qed.

Lemma ewp_forM {X} (f : X → exec E ()) xs (Q : () → Prop) :
  (∀ x, ewp (f x) (λ _, True)) → ((∀ x, x ∈ xs → f x = Ok ()) → Q ()) → ewp (forM_ f xs) Q.
Proof.
  intros Hf HQ. apply ewp_True.
  - clear HQ. induction xs as [|x xs IH]; cbn; [done|]. specialize (Hf x).
    destruct (f x) as [[]|e| |]; cbn in *; auto.
  - intros [] H. apply HQ. by eapply forM__Ok.
Qed.

Lemma ewp_foldM {St X} (f : St → X → exec E St) (P : list X → St → Prop) xs s Q :
  P xs s → (∀ x ys s, P (x :: ys) s → ewp (f s x) (P ys)) → (∀ s, P [] s → Q s) →
  ewp (foldM f s xs) Q.
Proof.
  intros HP Hstep HQ. revert s HP. induction xs as [|x xs IH]; intros s HP; cbn; [auto|].
  specialize (Hstep _ _ _ HP). destruct (f s x); cbn in *; auto.
Qed.
End ewp.

Section wp.
Context {S E : Type}.
Implicit Types (F : S → Prop) (s : S).

Lemma wp_bind {A B} (f : A → op S E B) (m : op S E A) Q F s :
  wp m (λ a, wp (f a) Q F) F s → wp (m ≫= f) Q F s.
Proof. unfold wp, mbind, op_mbind, op_bind. destruct (m s) as [s' []]; auto. Qed.

Lemma wp_mono {A} (m : op S E A) (P Q : A → S → Prop) (F G : S → Prop) s :
  wp m P F s → (∀ a s', P a s' → Q a s') → (∀ s', F s' → G s') → wp m Q G s.
Proof. unfold wp. destruct (m s) as [s' []]; auto. Qed.

Lemma wp_ret {A} (a : A) Q F s : Q a s → wp (mret (M := op S E) a) Q F s.
Proof. done. Qed.

Lemma wp_get Q F s : Q s s → wp (E := E) get Q F s.
Proof. done. Qed.

Lemma wp_modify f Q F s : Q () (f s) → wp (E := E) (modify f) Q F s.
Proof. done. Qed.

Lemma wp_lift {A} (x : exec E A) Q F s : F s → ewp x (λ a, Q a s) → wp (lift x) Q F s.
Proof. unfold wp, lift. destruct x; auto. Qed.

(** The error postcondition is only needed when the expression fails. *)
Lemma wp_lift_err {A} (x : exec E A) Q F s :
  (∀ e, x = Err e → F s) → ewp x (λ a, Q a s) → wp (lift x) Q F s.
Proof. unfold wp, lift. destruct x; eauto. Qed.

Lemma wp_lift_ok {A} (a : A) Q F s : Q a s → wp (E := E) (lift (Ok a)) Q F s.
Proof. done. Qed.

Lemma wp_expect {A} (o : option A) a Q F s :
  o = Some a → Q a s → wp (E := E) (lift (expect o)) Q F s.
Proof. by intros ->. Qed.

Lemma wp_fold {A X} (f : A → X → op S E A) (P : list X → A → S → Prop) xs a Q F s :
  P xs a s → (∀ x ys a s, P (x :: ys) a s → wp (f a x) (P ys) F s) → (∀ a s, P [] a s → Q a s) →
  wp (fold_op f a xs) Q F s.
Proof.
  intros HP Hstep HQ. revert a s HP. induction xs as [|x xs IH]; intros a s HP; cbn; [by apply HQ|].
  apply wp_bind. eapply wp_mono; [by apply Hstep|intros; by apply IH|done].
Qed.
End wp.

(** Reads off one run. *)
Lemma wp_Ok {S E A} (m : op S E A) Q F s s' a : wp m Q F s → m s = (s', Ok a) → Q a s'.
Proof. intros H Hm. unfold wp in H. by rewrite Hm in H. Qed.

Lemma wp_Err {S E A} (m : op S E A) Q F s s' e : wp m Q F s → m s = (s', Err e) → F s'.
Proof. intros H Hm. unfold wp in H. by rewrite Hm in H. Qed.

Lemma wp_no_panic {S E A} (m : op S E A) Q F s :
  wp m Q F s → (m s).2 ≠ Panic ∧ (m s).2 ≠ Hang.
Proof. unfold wp. destruct (m s) as [s' []]; done. Qed.

(** Symbolic execution of one statement; conditions are named by the caller. *)
Ltac wp_step :=
  lazymatch goal with
  | |- wp (_ ≫= _) _ _ _ => apply wp_bind; wp_step
  | |- wp get _ _ _ => apply wp_get
  | |- wp (modify _) _ _ _ => apply wp_modify
  | |- wp (mret _) _ _ _ => apply wp_ret
  | |- wp (lift _) _ _ _ => apply wp_lift; [try done|]; wp_step
  | |- ewp (_ ≫= _) _ => apply ewp_bind; wp_step
  | |- ewp (reject_if _ _) _ => apply ewp_reject; intros ?
  | |- ewp (ok_or _ _) _ => apply ewp_ok_or; intros ? ?
  | |- ewp (Ok _) _ => apply ewp_ok
  | |- ewp (Err _) _ => exact I
  | |- ewp (mret _) _ => apply ewp_ok
  | _ => idtac
  end.

Tactic Notation "wp_reject" simple_intropattern(p) :=
  apply wp_bind, wp_lift; [done|]; apply ewp_reject; intros p.
Tactic Notation "wp_some" simple_intropattern(x) simple_intropattern(p) :=
  apply wp_bind, wp_lift; [done|]; apply ewp_ok_or; intros x p.
Ltac wp_get := apply wp_bind, wp_get.
Ltac wp_modify := first [apply wp_bind, wp_modify | apply wp_modify].

(** ** Expressions that never panic and never loop *)
Notation total x := (ewp x (λ _, True)).

Lemma total_bind {E A B} (f : A → exec E B) (x : exec E A) :
  total x → (∀ a, total (f a)) → total (x ≫= f).
Proof. destruct x; cbn; auto. Qed.

Lemma total_reject {E} b (e : E) : total (reject_if b e).
Proof. by destruct b. Qed.

Lemma total_ok_or {E A} (o : option A) (e : E) : total (ok_or o e).
Proof. by destruct o. Qed.

Lemma total_forM {E X} (f : X → exec E ()) xs : (∀ x, total (f x)) → total (forM_ f xs).
Proof. intros. by apply ewp_forM. Qed.

Lemma total_foldM {E S X} (f : S → X → exec E S) s xs :
  (∀ s x, total (f s x)) → total (foldM f s xs).
Proof. intros Hf. by apply (ewp_foldM f (λ _ _, True)). Qed.

Create HintDb total.
#[export] Hint Resolve total_reject total_ok_or : total.

(** Walk through the statements of an expression, keeping what the checks
    established; what is left is looked up. *)
Ltac total :=
  repeat lazymatch goal with
  | |- ewp (reject_if _ _ ≫= _) _ => apply ewp_bind, ewp_reject; intros ?
  | |- ewp (ok_or _ _ ≫= _) _ => apply ewp_bind, ewp_ok_or; intros ? ?
  | |- ewp (_ ≫= _) _ => apply total_bind; [|intros ?]
  | |- ewp (Ok _) _ => exact I
  | |- ewp (Err _) _ => exact I
  | |- ewp (forM_ _ _) _ => apply total_forM; intros ?
  | |- ewp (foldM _ _ _) _ => apply total_foldM; intros ? ?
  | |- ewp (if _ then _ else _) _ => case_match
  | |- ewp (match _ with _ => _ end) _ => case_match
  | _ => fail
  end; eauto with total.
