(* ===== verification/BTree.v ===== *)
(** * Ordered maps

    [BTreeMap<String, V>] and [BTreeSet<String>] are stdpp's [gmap string V]
    and [gset string], iterated in key order.  The order is that of [str], byte
    by byte, which is stdpp's [String.le]. *)
From stdpp Require Import sorting.
From S2P Require Import Prelude.

Definition key_le {V : Type} (p q : string * V) : Prop := String.le p.1 q.1.
#[export] Instance key_le_dec {V} : RelDecision (@key_le V).
Proof. intros p q. unfold key_le. apply _. Defined.
#[export] Instance key_le_total {V} : Total (@key_le V).
Proof. intros p q. apply (String.le_total p.1 q.1). Qed.
#[export] Instance key_le_trans {V} : Transitive (@key_le V).
Proof. intros p q r. unfold key_le. by apply transitivity. Qed.

(** [map.iter()] *)
Definition bt_iter {V : Type} (m : gmap string V) : list (string * V) :=
  merge_sort key_le (map_to_list m).
(** [map.values()] *)
Definition bt_values {V : Type} (m : gmap string V) : list V := (bt_iter m).*2.
(** [map.keys()] *)
Definition bt_keys {V : Type} (m : gmap string V) : list string := (bt_iter m).*1.
(** [set.iter()] *)
Definition bs_iter (s : gset string) : list string := merge_sort String.le (elements s).

(** [iter().any(p)] *)
Definition any {A : Type} (p : A → bool) (l : list A) : bool := existsb p l.
(** [iter().find(p)] *)
Definition find_first {A : Type} (p : A → bool) (l : list A) : option A := List.find p l.

(** [vec.sort()] on strings *)
Definition sort_strings (l : list string) : list string := merge_sort String.le l.

(** [vec.dedup()]: drop each element equal to the one before it. *)
Fixpoint dedup (l : list string) : list string :=
  match l with
  | x :: ((y :: _) as tl) => if bool_decide (x = y) then dedup tl else x :: dedup tl
  | _ => l
  end.

Lemma bt_iter_perm {V} (m : gmap string V) : bt_iter m ≡ₚ map_to_list m.
Proof. apply merge_sort_Permutation. Qed.

Lemma elem_of_bt_iter {V} (m : gmap string V) k v : (k, v) ∈ bt_iter m ↔ m !! k = Some v.
Proof. rewrite bt_iter_perm. apply elem_of_map_to_list. Qed.

Lemma elem_of_bt_values {V} (m : gmap string V) v :
  v ∈ bt_values m ↔ ∃ k, m !! k = Some v.
Proof.
  unfold bt_values. rewrite list_elem_of_fmap. split.
  - intros ([k v'] & -> & H%elem_of_bt_iter). eauto.
  - intros [k H]. exists (k, v). by rewrite elem_of_bt_iter.
Qed.

Lemma elem_of_bt_keys {V} (m : gmap string V) k : k ∈ bt_keys m ↔ is_Some (m !! k).
Proof.
  unfold bt_keys. rewrite list_elem_of_fmap. split.
  - intros ([k' v] & -> & H%elem_of_bt_iter). eauto.
  - intros [v H]. exists (k, v). by rewrite elem_of_bt_iter.
Qed.

Lemma NoDup_bt_keys {V} (m : gmap string V) : NoDup (bt_keys m).
Proof. unfold bt_keys. rewrite bt_iter_perm. apply NoDup_fst_map_to_list. Qed.

Lemma length_bt_values {V} (m : gmap string V) : length (bt_values m) = size m.
Proof. unfold bt_values. by rewrite length_fmap, bt_iter_perm, length_map_to_list. Qed.

Lemma elem_of_bs_iter s x : x ∈ bs_iter s ↔ x ∈ s.
Proof. unfold bs_iter. by rewrite merge_sort_Permutation, elem_of_elements. Qed.

Lemma elem_of_sort_strings l x : x ∈ sort_strings l ↔ x ∈ l.
Proof. unfold sort_strings. by rewrite merge_sort_Permutation. Qed.

Lemma Sorted_sort_strings l : Sorted String.le (sort_strings l).
Proof. apply (Sorted_merge_sort _). Qed.

Lemma length_sort_strings l : length (sort_strings l) = length l.
Proof. unfold sort_strings. by rewrite merge_sort_Permutation. Qed.

Lemma any_true {A} (p : A → bool) l : any p l = true ↔ ∃ x, x ∈ l ∧ p x = true.
Proof.
  unfold any. rewrite existsb_exists. by setoid_rewrite list_elem_of_In.
Qed.

Lemma forallb_true {A} (p : A → bool) l : forallb p l = true ↔ ∀ x, x ∈ l → p x = true.
Proof. rewrite List.forallb_forall. by setoid_rewrite list_elem_of_In. Qed.

Lemma elem_of_filter_list {A} (p : A → bool) l x : x ∈ List.filter p l ↔ x ∈ l ∧ p x = true.
Proof. rewrite !list_elem_of_In. apply List.filter_In. Qed.

Lemma filter_list_perm {A} (p : A → bool) l l' : l ≡ₚ l' → List.filter p l ≡ₚ List.filter p l'.
Proof.
  induction 1 as [|x l l' _ IH|x y l|l l' l'' _ IH _ IH']; cbn; [done| | |by etrans].
  - destruct (p x); [by rewrite IH|done].
  - destruct (p x), (p y); done || apply Permutation_swap.
Qed.

Lemma any_false {A} (p : A → bool) l : any p l = false ↔ ∀ x, x ∈ l → p x = false.
Proof.
  rewrite <-not_true_iff_false, any_true. split.
  - intros H x Hx. apply not_true_iff_false. naive_solver.
  - intros H (x & Hx & Hp). rewrite H in Hp; naive_solver.
Qed.

Lemma any_bt_values {V} (p : V → bool) (m : gmap string V) :
  any p (bt_values m) = true ↔ ∃ k v, m !! k = Some v ∧ p v = true.
Proof. rewrite any_true. setoid_rewrite elem_of_bt_values. naive_solver. Qed.

Lemma find_first_Some {A} (p : A → bool) l x :
  find_first p l = Some x → x ∈ l ∧ p x = true.
Proof. unfold find_first. intros H%find_some. by rewrite list_elem_of_In. Qed.

Lemma find_first_None {A} (p : A → bool) l :
  find_first p l = None ↔ ∀ x, x ∈ l → p x = false.
Proof.
  unfold find_first. split.
  - intros H x Hx%list_elem_of_In. by apply (find_none p l).
  - induction l as [|y l IH]; cbn; [done|]. intros H.
    rewrite (H y) by set_solver. apply IH. set_solver.
Qed.

(** ** Sorted and duplicate-free lists *)
Lemma elem_of_dedup l x : x ∈ dedup l ↔ x ∈ l.
Proof.
  induction l as [|a [|b l] IH]; [done..|].
  cbn [dedup] in *. case_bool_decide; subst; rewrite ?elem_of_cons, IH, ?elem_of_cons; naive_solver.
Qed.

Lemma length_dedup l : (length (dedup l) ≤ length l)%nat.
Proof.
  induction l as [|x [|y l] IH]; [done..|]. cbn [dedup] in *.
  case_bool_decide; cbn [length] in *; lia.
Qed.

Lemma Sorted_dedup_NoDup l : StronglySorted String.le l → NoDup (dedup l).
Proof.
  induction l as [|a [|b l] IH]; intros Hs; [constructor|by repeat constructor; set_solver|].
  cbn [dedup] in *. apply StronglySorted_inv in Hs as [Hs Ha].
  case_bool_decide as Hab; [by apply IH|]. apply NoDup_cons; split; [|by apply IH].
  change (a ∉ dedup (b :: l)). rewrite elem_of_dedup, elem_of_cons. intros [->|Hin]; [done|].
  apply Hab. apply (anti_symm String.le).
  - rewrite Forall_forall in Ha. apply Ha. set_solver.
  - apply StronglySorted_inv in Hs as [_ Hb]. rewrite Forall_forall in Hb. by apply Hb.
Qed.

Lemma NoDup_dedup_sort l : NoDup (dedup (sort_strings l)).
Proof. apply Sorted_dedup_NoDup, (StronglySorted_merge_sort _). Qed.

Lemma elem_of_dedup_sort l x : x ∈ dedup (sort_strings l) ↔ x ∈ l.
Proof. by rewrite elem_of_dedup, elem_of_sort_strings. Qed.

#[export] Hint Rewrite @elem_of_bt_iter @elem_of_bt_values @elem_of_bt_keys elem_of_bs_iter
  elem_of_sort_strings elem_of_dedup elem_of_dedup_sort : btree.

(** Inserting what is iterated makes the map again. *)
Lemma foldl_bt_iter {V} (m : gmap string V) : foldl (λ m item, <[item.1 := item.2]> m) ∅ (bt_iter m) = m.
Proof.
  assert (∀ (l : list (string * V)) (m0 : gmap string V), NoDup l.*1 →
            foldl (λ m item, <[item.1 := item.2]> m) m0 l = list_to_map l ∪ m0) as Hfold.
  { induction l as [|[k v] l IH]; intros m0; cbn; [by rewrite (left_id_L ∅ (∪))|].
    intros [Hk Hl]%NoDup_cons. rewrite IH by done.
    rewrite <-insert_union_r; [by rewrite insert_union_l|]. by apply not_elem_of_list_to_map. }
  rewrite Hfold by apply NoDup_bt_keys. rewrite (right_id_L ∅ (∪)).
  rewrite <-(list_to_map_to_list m) at 2. apply list_to_map_proper; [apply NoDup_bt_keys|].
  apply bt_iter_perm.
Qed.
