(* ===== verification/Sums.v ===== *)
(** * Sums

    Totals over lists and over the entries of an ordered map, and the checked
    loops of the source that compute them. *)
From S2P Require Import Prelude BTree.
#[local] Open Scope Z_scope.

Definition zsum (l : list Z) : Z := foldr Z.add 0 l.

(** The sum of [f k v] over the entries of [m]. *)
Definition msum {V : Type} (f : string → V → Z) (m : gmap string V) : Z :=
  zsum ((λ '(k, v), f k v) <$> map_to_list m).

Lemma zsum_cons x l : zsum (x :: l) = x + zsum l.
Proof. done. Qed.

Lemma zsum_app l1 l2 : zsum (l1 ++ l2) = zsum l1 + zsum l2.
Proof. induction l1 as [|x l1 IH]; cbn; [done|]. fold (zsum (l1 ++ l2)) (zsum l1). lia. Qed.

#[export] Instance zsum_perm : Proper ((≡ₚ) ==> (=)) zsum.
Proof.
  unfold zsum. induction 1 as [|x l l' _ IH|x y l|]; cbn; [done|lia|lia|congruence].
Qed.

Lemma zsum_nonneg {A} (f : A → Z) l : (∀ x, x ∈ l → 0 ≤ f x) → 0 ≤ zsum (f <$> l).
Proof.
  induction l as [|x l IH]; intros H; cbn; [done|].
  fold (zsum (f <$> l)). pose proof (H x ltac:(left)). assert (0 ≤ zsum (f <$> l)); [|lia].
  apply IH. set_solver.
Qed.

Lemma zsum_le {A} (f h : A → Z) l : (∀ x, x ∈ l → f x ≤ h x) → zsum (f <$> l) ≤ zsum (h <$> l).
Proof.
  induction l as [|x l IH]; intros H; cbn; [done|].
  fold (zsum (f <$> l)) (zsum (h <$> l)). pose proof (H x ltac:(left)).
  assert (zsum (f <$> l) ≤ zsum (h <$> l)); [|lia]. apply IH. set_solver.
Qed.

Lemma zsum_ext {A} (f h : A → Z) l : (∀ x, x ∈ l → f x = h x) → zsum (f <$> l) = zsum (h <$> l).
Proof.
  intros H. f_equal. apply list_fmap_ext. intros i x Hx. apply H. by eapply list_elem_of_lookup_2.
Qed.

Lemma zsum_0 {A} (f : A → Z) l : (∀ x, x ∈ l → f x = 0) → zsum (f <$> l) = 0.
Proof.
  induction l as [|x l IH]; intros H; cbn; [done|].
  fold (zsum (f <$> l)). rewrite (H x) by left. rewrite IH; [lia|set_solver].
Qed.

Section msum.
Context {V : Type}.
Implicit Types (f : string → V → Z) (m : gmap string V).

Lemma msum_bt_iter f m : zsum ((λ '(k, v), f k v) <$> bt_iter m) = msum f m.
Proof. unfold msum. by rewrite bt_iter_perm. Qed.

Lemma msum_empty f : msum f ∅ = 0.
Proof. unfold msum. by rewrite map_to_list_empty. Qed.

Lemma msum_insert f m k v : m !! k = None → msum f (<[k := v]> m) = f k v + msum f m.
Proof. intros H. unfold msum. by rewrite map_to_list_insert. Qed.

Lemma msum_delete f m k v : m !! k = Some v → msum f m = f k v + msum f (delete k m).
Proof.
  intros H. rewrite <-(insert_delete_id m k v) at 1 by done.
  by rewrite msum_insert by apply lookup_delete_eq.
Qed.

Lemma msum_ext f h m : (∀ k v, m !! k = Some v → f k v = h k v) → msum f m = msum h m.
Proof.
  intros H. unfold msum. apply zsum_ext. intros [k v] Hkv%elem_of_map_to_list. by apply H.
Qed.

Lemma msum_le f h m : (∀ k v, m !! k = Some v → f k v ≤ h k v) → msum f m ≤ msum h m.
Proof.
  intros H. unfold msum. apply zsum_le. intros [k v] Hkv%elem_of_map_to_list. by apply H.
Qed.

Lemma msum_nonneg f m : (∀ k v, m !! k = Some v → 0 ≤ f k v) → 0 ≤ msum f m.
Proof.
  intros H. unfold msum. apply zsum_nonneg. intros [k v] Hkv%elem_of_map_to_list. by apply H.
Qed.

Lemma msum_elem_le f m k v :
  (∀ k v, m !! k = Some v → 0 ≤ f k v) → m !! k = Some v → f k v ≤ msum f m.
Proof.
  intros H Hk. rewrite (msum_delete f m k v) by done.
  assert (0 ≤ msum f (delete k m)); [|lia]. apply msum_nonneg.
  intros k' v' [_ Hk']%lookup_delete_Some. by apply H.
Qed.

Lemma msum_alter f m h k v :
  m !! k = Some v → msum f (alter h k m) = msum f m - f k v + f k (h v).
Proof.
  intros Hk. rewrite (msum_delete f m k v) by done.
  rewrite (msum_delete f (alter h k m) k (h v)) by by rewrite lookup_alter_eq, Hk.
  rewrite delete_alter_eq. lia.
Qed.

Lemma msum_replace f m k v v' :
  m !! k = Some v → msum f (<[k := v']> m) = msum f m - f k v + f k v'.
Proof.
  intros Hk. rewrite (msum_delete f m k v) by done.
  rewrite (msum_delete f _ k v') by by rewrite lookup_insert_eq.
  rewrite delete_insert_eq. lia.
Qed.
End msum.

(** A sum over maps that agree entry by entry. *)
Lemma msum_map {V W : Type} (f : string → V → Z) (h : string → W → Z)
    (m : gmap string V) (m' : gmap string W) :
  (∀ k, match m !! k, m' !! k with
        | Some v, Some w => f k v = h k w
        | None, None => True
        | _, _ => False
        end) →
  msum f m = msum h m'.
Proof.
  revert m'. induction m as [|k v m Hk IH] using map_ind; intros m' H.
  - assert (m' = ∅) as ->; [|by rewrite !msum_empty].
    apply map_empty. intros k. specialize (H k). rewrite lookup_empty in H.
    by destruct (m' !! k).
  - pose proof (H k) as Hk'. rewrite lookup_insert_eq in Hk'.
    destruct (m' !! k) as [w|] eqn:Ew; [|done].
    rewrite msum_insert, (msum_delete h m' k w), Hk' by done. f_equal.
    apply IH. intros k2. specialize (H k2). destruct (decide (k = k2)) as [->|Hne].
    + by rewrite Hk, lookup_delete_eq.
    + by rewrite lookup_insert_ne, lookup_delete_ne in * by done.
Qed.

(** ** Checked loops *)

(** A loop that adds to a pair of bounded totals succeeds, with the sums, as
    long as the sums fit. *)
Lemma msum_0 {V : Type} (f : string → V → Z) (m : gmap string V) :
  (∀ k v, m !! k = Some v → f k v = 0) → msum f m = 0.
Proof. intros H. unfold msum. apply zsum_0. intros [k v] Hkv%elem_of_map_to_list. by apply H. Qed.

Lemma msum_add {V : Type} (f h : string → V → Z) (m : gmap string V) :
  msum (λ k v, f k v + h k v) m = msum f m + msum h m.
Proof.
  unfold msum. induction (map_to_list m) as [|[k v] l IH]; [done|].
  rewrite !fmap_cons, !zsum_cons, IH. lia.
Qed.

Lemma msum_const_le {V : Type} (f : string → V → Z) (m : gmap string V) b :
  (∀ k v, m !! k = Some v → f k v ≤ b) → msum f m ≤ Z.of_nat (size m) * b.
Proof.
  induction m as [|k v m Hk IH] using map_ind; intros H; [by rewrite msum_empty|].
  rewrite msum_insert, map_size_insert_None by done.
  pose proof (H k v ltac:(by rewrite lookup_insert_eq)). 
  assert (msum f m ≤ Z.of_nat (size m) * b); [|lia]. apply IH. intros k' v' Hk'.
  apply H. rewrite lookup_insert_ne; [done|congruence].
Qed.

(** Summing by rows or by columns. *)
Lemma msum_swap {V W : Type} (f : string → V → string → W → Z)
    (m : gmap string V) (m' : gmap string W) :
  msum (λ k v, msum (f k v) m') m = msum (λ k' v', msum (λ k v, f k v k' v') m) m'.
Proof.
  induction m as [|k v m Hk IH] using map_ind.
  - rewrite msum_empty. symmetry. apply msum_0. intros. apply msum_empty.
  - rewrite msum_insert, IH by done. rewrite <-msum_add. apply msum_ext. intros k' v' _.
    by rewrite msum_insert.
Qed.

Lemma foldM_inv {E S X : Type} (f : S → X → exec E S) (P : list X → S → Prop) xs s :
  P xs s →
  (∀ x ys s, P (x :: ys) s → ∃ s', f s x = Ok s' ∧ P ys s') →
  ∃ s', foldM f s xs = Ok s' ∧ P [] s'.
Proof.
  revert s. induction xs as [|x xs IH]; intros s HP Hstep; cbn; [by eauto|].
  destruct (Hstep _ _ _ HP) as (s1 & -> & H1). cbn. by apply IH.
Qed.

Lemma foldM_fmap {E S X Y : Type} (f : S → Y → exec E S) (h : X → Y) s xs :
  foldM f s (h <$> xs) = foldM (λ s x, f s (h x)) s xs.
Proof.
  revert s. induction xs as [|x xs IH]; intros s; cbn; [done|].
  destruct (f s (h x)); cbn; [apply IH|done..].
Qed.

(** ** Maxima *)
Definition zmax (l : list Z) : Z := foldr Z.max 0 l.
Definition mmax {V : Type} (f : string → V → Z) (m : gmap string V) : Z :=
  zmax ((λ '(k, v), f k v) <$> map_to_list m).

#[export] Instance zmax_perm : Proper ((≡ₚ) ==> (=)) zmax.
Proof.
  unfold zmax. induction 1 as [|x l l' _ IH|x y l|]; cbn; [done|lia|lia|congruence].
Qed.

Lemma zmax_cons x l : zmax (x :: l) = Z.max x (zmax l).
Proof. done. Qed.

Lemma zmax_nonneg l : 0 ≤ zmax l.
Proof. unfold zmax. induction l; cbn; lia. Qed.

Section mmax.
Context {V : Type}.
Implicit Types (f : string → V → Z) (m : gmap string V).

Lemma mmax_bt_iter f m : zmax ((λ '(k, v), f k v) <$> bt_iter m) = mmax f m.
Proof. unfold mmax. by rewrite bt_iter_perm. Qed.

Lemma mmax_nonneg f m : 0 ≤ mmax f m.
Proof. apply zmax_nonneg. Qed.

Lemma mmax_insert f m k v : m !! k = None → mmax f (<[k := v]> m) = Z.max (f k v) (mmax f m).
Proof. intros H. unfold mmax. by rewrite map_to_list_insert. Qed.

Lemma mmax_delete f m k v : m !! k = Some v → mmax f m = Z.max (f k v) (mmax f (delete k m)).
Proof.
  intros H. rewrite <-(insert_delete_id m k v) at 1 by done.
  by rewrite mmax_insert by apply lookup_delete_eq.
Qed.

Lemma mmax_ext f h m : (∀ k v, m !! k = Some v → f k v = h k v) → mmax f m = mmax h m.
Proof.
  intros H. unfold mmax. f_equal. apply list_fmap_ext. intros i [k v] Hx.
  apply H, elem_of_map_to_list. by eapply list_elem_of_lookup_2.
Qed.
Lemma mmax_0 f m : (∀ k v, m !! k = Some v → f k v = 0) → mmax f m = 0.
Proof.
  intros H. unfold mmax. assert (∀ k v, (k, v) ∈ map_to_list m → f k v = 0) as H'
    by (intros k v Hk%elem_of_map_to_list; auto).
  induction (map_to_list m) as [|[k v] l IH]; [done|].
  rewrite fmap_cons, zmax_cons, H' by left. rewrite IH; [done|]. intros. apply H'. by right.
Qed.
End mmax.

Lemma mmax_map {V W : Type} (f : string → V → Z) (h : string → W → Z)
    (m : gmap string V) (m' : gmap string W) :
  (∀ k, match m !! k, m' !! k with
        | Some v, Some w => f k v = h k w
        | None, None => True
        | _, _ => False
        end) →
  mmax f m = mmax h m'.
Proof.
  revert m'. induction m as [|k v m Hk IH] using map_ind; intros m' H.
  - assert (m' = ∅) as ->; [|done].
    apply map_empty. intros k. specialize (H k). rewrite lookup_empty in H.
    by destruct (m' !! k).
  - pose proof (H k) as Hk'. rewrite lookup_insert_eq in Hk'.
    destruct (m' !! k) as [w|] eqn:Ew; [|done].
    rewrite mmax_insert, (mmax_delete h m' k w), Hk' by done. f_equal.
    apply IH. intros k2. specialize (H k2). destruct (decide (k = k2)) as [->|Hne].
    + by rewrite Hk, lookup_delete_eq.
    + by rewrite lookup_insert_ne, lookup_delete_ne in * by done.
Qed.
