(* ===== verification/Text.v ===== *)
(** * Strings

    A Rust [str] is its UTF-8 bytes: a [string], one [ascii] per byte, so
    [len()] is [String.length] and comparison is bytewise.  Predicates on
    [char]s read the bytes of well-formed UTF-8. *)
From S2P Require Import Prelude.

Definition str_len (s : string) : Z := Z.of_nat (String.length s).
Definition str_is_empty (s : string) : bool := (str_len s =? 0)%Z.
Definition byte_val (a : Ascii.ascii) : Z := Z.of_N (Ascii.N_of_ascii a).
Definition byte_in (lo hi : Z) (a : Ascii.ascii) : bool :=
  ((lo <=? byte_val a) && (byte_val a <=? hi))%Z.

(** [s.chars().any(char::is_control)]: the general category Cc is U+0000-001F
    and U+007F-009F; the second range is the byte 7F and the pairs C2 80 to
    C2 9F. *)
Fixpoint has_control (s : string) : bool :=
  match s with
  | EmptyString => false
  | String a tl =>
      byte_in 0 31 a || byte_in 127 127 a
      || (byte_in 194 194 a
          && match tl with String b _ => byte_in 128 159 b | EmptyString => false end)
      || has_control tl
  end.

(** [s.strip_prefix(p)] *)
Fixpoint strip_prefix (p s : string) : option string :=
  match p, s with
  | EmptyString, _ => Some s
  | String a p', String b s' => if bool_decide (a = b) then strip_prefix p' s' else None
  | String _ _, EmptyString => None
  end.
Definition starts_with (s p : string) : bool :=
  match strip_prefix p s with Some _ => true | None => false end.

(** [&s[n..]] for [n] at a character boundary *)
Fixpoint drop_bytes (n : nat) (s : string) : string :=
  match n, s with
  | O, _ => s
  | S n', String _ s' => drop_bytes n' s'
  | S _, EmptyString => EmptyString
  end.

Fixpoint all_bytes (p : Ascii.ascii → bool) (s : string) : bool :=
  match s with
  | EmptyString => true
  | String a tl => p a && all_bytes p tl
  end.
(** [byte.is_ascii_digit() || (b'a'..=b'f').contains(&byte)] *)
Definition is_lower_hex (a : Ascii.ascii) : bool := byte_in 48 57 a || byte_in 97 102 a.

(** [s.split(pred)]: always at least one part. *)
Fixpoint split_on (sep : Ascii.ascii → bool) (s : string) : list string :=
  match s with
  | EmptyString => [""]
  | String a tl =>
      if sep a then "" :: split_on sep tl
      else match split_on sep tl with
           | part :: rest => String a part :: rest
           | [] => [String a ""]
           end
  end.

(** [parts.join(sep)] *)
Fixpoint join (sep : string) (parts : list string) : string :=
  match parts with
  | [] => ""
  | [p] => p
  | p :: rest => p +:+ sep +:+ join sep rest
  end.

(** [s.trim().is_empty()]: every character has the property White_Space
    (U+0009-000D, 0020, 0085, 00A0, 1680, 2000-200A, 2028, 2029, 202F, 205F,
    3000). *)
Fixpoint is_blank (s : string) : bool :=
  match s with
  | EmptyString => true
  | String a tl =>
      if byte_in 9 13 a || byte_in 32 32 a then is_blank tl
      else match tl with
           | EmptyString => false
           | String b tl2 =>
               if byte_in 194 194 a && (byte_in 133 133 b || byte_in 160 160 b)
               then is_blank tl2
               else match tl2 with
                    | EmptyString => false
                    | String c tl3 =>
                        if (byte_in 225 225 a && byte_in 154 154 b && byte_in 128 128 c)
                           || (byte_in 226 226 a && byte_in 128 128 b
                               && (byte_in 128 138 c || byte_in 168 169 c || byte_in 175 175 c))
                           || (byte_in 226 226 a && byte_in 129 129 b && byte_in 159 159 c)
                           || (byte_in 227 227 a && byte_in 128 128 b && byte_in 128 128 c)
                        then is_blank tl3 else false
                    end
           end
  end.

(** [s.trim_end()]: cut where only white space follows; the tail of a longer
    character starts with a continuation byte, which is not white space. *)
Fixpoint trim_end (s : string) : string :=
  match s with
  | EmptyString => ""
  | String a tl => if is_blank s then "" else String a (trim_end tl)
  end.

(** [s.trim_start()]: drop bytes up to the end of the longest blank prefix, one
    character of [is_blank] at a time. *)
Fixpoint trim_start (s : string) : string :=
  match s with
  | EmptyString => ""
  | String a tl =>
      if is_blank (String a "") then trim_start tl
      else match tl with
           | EmptyString => s
           | String b tl2 =>
               if is_blank (String a (String b "")) then trim_start tl2
               else match tl2 with
                    | EmptyString => s
                    | String c tl3 =>
                        if is_blank (String a (String b (String c ""))) then trim_start tl3 else s
                    end
           end
  end.
Definition trim (s : string) : string := trim_end (trim_start s).

(** ** Concatenation *)
Lemma append_empty s : s +:+ "" = s.
Proof. induction s as [|a s IH]; [done|exact (f_equal (String a) IH)]. Qed.
Lemma append_assoc s t u : (s +:+ t) +:+ u = s +:+ (t +:+ u).
Proof. induction s as [|a s IH]; [done|exact (f_equal (String a) IH)]. Qed.

Lemma strip_prefix_Some p s r : strip_prefix p s = Some r ↔ s = p +:+ r.
Proof.
  revert s. induction p as [|a p IH]; intros s.
  - cbn [strip_prefix]. change ("" +:+ r) with r. naive_solver.
  - change (String a p +:+ r) with (String a (p +:+ r)).
    destruct s as [|b s]; cbn [strip_prefix]; [naive_solver|].
    case_bool_decide; subst; rewrite ?IH; naive_solver.
Qed.

Lemma starts_with_spec s p : starts_with s p = true ↔ ∃ r, s = p +:+ r.
Proof.
  unfold starts_with. destruct (strip_prefix p s) as [r|] eqn:H.
  - apply strip_prefix_Some in H. naive_solver.
  - split; [done|]. intros [r Hr%strip_prefix_Some]. congruence.
Qed.

Lemma all_bytes_app p s t : all_bytes p (s +:+ t) = all_bytes p s && all_bytes p t.
Proof.
  induction s as [|a s IH]; [done|]. change (String a s +:+ t) with (String a (s +:+ t)).
  cbn [all_bytes]. by rewrite IH, andb_assoc.
Qed.

Lemma str_len_app s t : str_len (s +:+ t) = (str_len s + str_len t)%Z.
Proof.
  unfold str_len. induction s as [|a s IH]; [done|].
  change (String a s +:+ t) with (String a (s +:+ t)). cbn [String.length]. lia.
Qed.

Lemma str_len_nonneg s : (0 ≤ str_len s)%Z.
Proof. unfold str_len. lia. Qed.

Lemma str_is_empty_true s : str_is_empty s = true ↔ s = "".
Proof.
  unfold str_is_empty, str_len. rewrite Z.eqb_eq. destruct s; cbn; [done|]. split; [lia|done].
Qed.

Lemma str_is_empty_false s : str_is_empty s = false ↔ s ≠ "".
Proof. rewrite <-not_true_iff_false, str_is_empty_true. done. Qed.

Lemma drop_bytes_app p s : drop_bytes (String.length p) (p +:+ s) = s.
Proof.
  induction p as [|a p IH]; [by destruct s|].
  change (String a p +:+ s) with (String a (p +:+ s)). done.
Qed.

(** ** Printable ASCII

    The text the program assembles itself (prefixes, hexadecimal digests,
    class names) is printable ASCII, which no control-character or blank check
    rejects. *)
Definition is_printable (a : Ascii.ascii) : bool := byte_in 32 126 a.

Lemma byte_in_spec lo hi a : byte_in lo hi a = true ↔ (lo ≤ byte_val a ≤ hi)%Z.
Proof. unfold byte_in. rewrite andb_true_iff, !Z.leb_le. done. Qed.

Lemma byte_in_false lo hi a : byte_in lo hi a = false ↔ ¬ (lo ≤ byte_val a ≤ hi)%Z.
Proof. rewrite <-byte_in_spec. by destruct (byte_in lo hi a). Qed.

Lemma lower_hex_printable a : is_lower_hex a = true → is_printable a = true.
Proof. unfold is_lower_hex, is_printable. rewrite orb_true_iff, !byte_in_spec. lia. Qed.

Lemma all_bytes_impl (p q : Ascii.ascii → bool) s :
  (∀ a, p a = true → q a = true) → all_bytes p s = true → all_bytes q s = true.
Proof.
  intros Hpq. induction s as [|a s IH]; cbn; [done|].
  rewrite !andb_true_iff. naive_solver.
Qed.

Lemma printable_no_control s : all_bytes is_printable s = true → has_control s = false.
Proof.
  induction s as [|a s IH]; cbn [all_bytes has_control]; [done|].
  rewrite andb_true_iff. intros [Ha%byte_in_spec Hs]. rewrite IH by done.
  rewrite !(proj2 (byte_in_false _ _ _)) by lia. done.
Qed.

Lemma visible_not_blank a s : byte_in 33 126 a = true → is_blank (String a s) = false.
Proof.
  intros Ha%byte_in_spec. cbn [is_blank].
  rewrite !(proj2 (byte_in_false _ _ a)) by lia. cbn. by destruct s as [|b [|c s]].
Qed.

Lemma hex_no_control s : all_bytes is_lower_hex s = true → has_control s = false.
Proof. intros H. by eapply printable_no_control, all_bytes_impl, H; apply lower_hex_printable. Qed.

(** ** Decimal text *)

#[local] Open Scope Z_scope.

(** [s.parse::<u64>()]: decimal digits, after at most one plus sign *)
Fixpoint parse_digits (acc : Z) (s : string) : option Z :=
  match s with
  | EmptyString => Some acc
  | String a tl =>
      if byte_in 48 57 a then
        let acc := acc * 10 + (byte_val a - 48) in
        if acc <=? u64_max then parse_digits acc tl else None
      else None
  end.
Definition parse_u64 (s : string) : option Z :=
  let digits := default s (strip_prefix "+" s) in
  if str_is_empty digits then None else parse_digits 0 digits.

Definition is_digit (a : Ascii.ascii) : bool := byte_in 48 57 a.

Lemma pretty_char_digit d : (d < 10)%N →
  byte_val (pretty_N_char d) = 48 + Z.of_N d ∧ is_digit (pretty_N_char d) = true.
Proof.
  intros Hd.
  assert (d = 0 ∨ d = 1 ∨ d = 2 ∨ d = 3 ∨ d = 4 ∨ d = 5 ∨ d = 6 ∨ d = 7 ∨ d = 8 ∨ d = 9)%N as Hc by lia.
  by destruct_or! Hc; subst d.
Qed.

Lemma pretty_go_digits x s : all_bytes is_digit s = true → all_bytes is_digit (pretty_N_go x s) = true.
Proof.
  revert s. induction (N.lt_wf_0 x) as [x _ IH]; intros s Hs.
  destruct (decide (x = 0)%N) as [->|Hx]; [done|].
  rewrite pretty_N_go_step by lia. apply IH; [apply N.div_lt; lia|]. cbn.
  rewrite (proj2 (pretty_char_digit (x mod 10) ltac:(apply N.mod_lt; lia))). done.
Qed.

Lemma pretty_go_length x s : (String.length s ≤ String.length (pretty_N_go x s))%nat.
Proof.
  revert s. induction (N.lt_wf_0 x) as [x _ IH]; intros s.
  destruct (decide (x = 0)%N) as [->|Hx]; [done|].
  rewrite pretty_N_go_step by lia. etrans; [|apply IH, N.div_lt; lia]. cbn. lia.
Qed.

Lemma pretty_digits n : 0 ≤ n → all_bytes is_digit (pretty n) = true ∧ pretty n ≠ "".
Proof.
  intros Hn. destruct n as [|p|p]; [done| |lia].
  change (pretty (Z.pos p)) with (pretty (N.pos p)). unfold pretty, pretty_N.
  rewrite decide_False by done. split; [by apply pretty_go_digits|].
  rewrite pretty_N_go_step by lia. intros E.
  pose proof (pretty_go_length (N.pos p / 10) (String (pretty_N_char (N.pos p mod 10)) "")) as Hl.
  rewrite E in Hl. cbn in Hl. lia.
Qed.

Lemma parse_pretty_go x s :
  Z.of_N x ≤ u64_max → parse_digits 0 (pretty_N_go x s) = parse_digits (Z.of_N x) s.
Proof.
  revert s. induction (N.lt_wf_0 x) as [x _ IH]; intros s Hx.
  destruct (decide (x = 0)%N) as [->|Hx0]; [done|].
  rewrite pretty_N_go_step by lia.
  assert (x / 10 < x)%N as Hlt by (apply N.div_lt; lia).
  rewrite IH by lia. cbn [parse_digits].
  destruct (pretty_char_digit (x mod 10) ltac:(apply N.mod_lt; lia)) as [-> Hd].
  unfold is_digit in Hd. rewrite Hd.
  replace (Z.of_N (x / 10) * 10 + (48 + Z.of_N (x mod 10) - 48)) with (Z.of_N x)
    by (pose proof (N.div_mod x 10); lia).
  by rewrite (proj2 (Z.leb_le _ _) Hx).
Qed.

(** What is written with [{n}] is read back. *)
Lemma parse_u64_pretty n : 0 ≤ n ≤ u64_max → parse_u64 (pretty n) = Some n.
Proof.
  intros Hn. destruct (pretty_digits n ltac:(lia)) as [Hd Hne].
  unfold parse_u64. replace (strip_prefix "+" (pretty n)) with (@None string).
  - cbn [default]. rewrite (proj2 (str_is_empty_false _) Hne).
    destruct n as [|p|p]; [done| |lia].
    change (pretty (Z.pos p)) with (pretty (N.pos p)). unfold pretty, pretty_N.
    rewrite decide_False by done. by rewrite parse_pretty_go by lia.
  - destruct (pretty n) as [|a s]; [done|]. cbn in Hd.
    apply andb_true_iff in Hd as [Ha _]. cbn [strip_prefix].
    rewrite bool_decide_eq_false_2; [done|]. by intros <-.
Qed.

Lemma digits_avoid c s : is_digit c = false → all_bytes is_digit s = true →
  all_bytes (λ a, negb (Ascii.eqb a c)) s = true.
Proof.
  intros Hc. apply all_bytes_impl. intros a Ha. apply negb_true_iff, Ascii.eqb_neq. intros ->. congruence.
Qed.

(** ** Splitting at a separator *)

(** [s.split_once(sep)] *)
Fixpoint split_once (sep s : string) : option (string * string) :=
  match strip_prefix sep s with
  | Some rest => Some ("", rest)
  | None =>
      match s with
      | EmptyString => None
      | String a tl =>
          match split_once sep tl with
          | Some (before, after) => Some (String a before, after)
          | None => None
          end
      end
  end.

(** A separator whose first byte is not in [s] is not found before the end of [s]. *)
Lemma split_once_skip c sep s t :
  all_bytes (λ a, negb (Ascii.eqb a c)) s = true →
  split_once (String c sep) (s +:+ t)
  = (λ '(before, after), (s +:+ before, after)) <$> split_once (String c sep) t.
Proof.
  induction s as [|a s IH]; cbn [all_bytes].
  - intros _. change ("" +:+ t) with t. by destruct (split_once _ t) as [[]|].
  - intros [Ha Hs]%andb_true_iff.
    assert (strip_prefix (String c sep) (String a (s +:+ t)) = None) as Hp.
    { cbn. rewrite bool_decide_eq_false_2; [done|]. intros ->. by rewrite Ascii.eqb_refl in Ha. }
    change (String a s +:+ t) with (String a (s +:+ t)). cbn [split_once]. rewrite Hp, (IH Hs).
    by destruct (split_once _ t) as [[]|].
Qed.

(** ** Characters: a byte with the continuation bytes that follow it *)

Definition is_continuation_byte (a : Ascii.ascii) : bool := byte_in 128 191 a.
Definition starts_char (s : string) : bool :=
  match s with String a _ => negb (is_continuation_byte a) | EmptyString => true end.

(** [s.chars()] *)
Fixpoint chars (s : string) : list string :=
  match s with
  | EmptyString => []
  | String a tl =>
      match chars tl with
      | c :: rest => if starts_char tl then String a "" :: c :: rest else String a c :: rest
      | [] => [String a ""]
      end
  end.
Definition of_chars (l : list string) : string := foldr String.append "" l.

(** [chars().take(n).collect()] *)
Definition take_chars (n : nat) (s : string) : string := of_chars (take n (chars s)).

(** [char::is_control] *)
Definition is_control (c : string) : bool := has_control c.

Fixpoint map_bytes (f : Ascii.ascii → Ascii.ascii) (s : string) : string :=
  match s with
  | EmptyString => EmptyString
  | String a tl => String (f a) (map_bytes f tl)
  end.
(** [s.replace('_', _)] with a space *)
Definition spaced (s : string) : string :=
  map_bytes (λ a, if byte_in 95 95 a then Ascii.ascii_of_N 32 else a) s.

(** [s.trim_end_matches('.')] *)
Fixpoint trim_dots (s : string) : string :=
  match s with
  | EmptyString => EmptyString
  | String a tl => if all_bytes (byte_in 46 46) s then "" else String a (trim_dots tl)
  end.

Lemma chars_nil s : chars s = [] → s = "".
Proof. destruct s as [|a s]; [done|]. cbn. destruct (chars s) as [|c l]; [done|]. by destruct (starts_char s). Qed.

Lemma of_chars_chars s : of_chars (chars s) = s.
Proof.
  unfold of_chars. induction s as [|a s IH]; [done|]. cbn [chars]. destruct (chars s) as [|c l] eqn:E.
  - by apply chars_nil in E as ->.
  - destruct (starts_char s).
    + cbn [foldr] in *. change (String a (c +:+ foldr String.append "" l) = String a s). by rewrite IH.
    + cbn [foldr] in *. change (String a (c +:+ foldr String.append "" l) = String a s). by rewrite IH.
Qed.

(** Every character after the first begins with a byte that continues none. *)
Definition well_cut (l : list string) : Prop := Forall (λ c, starts_char c = true ∧ c ≠ "") l.

Lemma chars_head s c l : chars s = c :: l → starts_char c = starts_char s ∧ c ≠ "" ∧ well_cut l.
Proof.
  revert c l. induction s as [|a s IH]; intros c l; [done|]. cbn [chars].
  destruct (chars s) as [|c' l'] eqn:E.
  - intros [= <- <-]. split; [done|]. split; [done|constructor].
  - destruct (IH c' l' eq_refl) as (Hs & Hne & Hl). destruct (starts_char s) eqn:Hst; intros [= <- <-].
    + split; [done|]. split; [done|]. constructor; [by rewrite Hs|done].
    + by split.
Qed.

Lemma starts_of_chars l : well_cut l → starts_char (of_chars l) = true.
Proof. destruct 1 as [|c l [Hc Hne] _]; [done|]. cbn. by destruct c. Qed.

(** ** Control characters *)
Lemma has_control_app s t : starts_char t = true → has_control (s +:+ t) = has_control s || has_control t.
Proof.
  intros Ht. induction s as [|a s IH]; [done|]. change (String a s +:+ t) with (String a (s +:+ t)).
  cbn [has_control]. rewrite IH. destruct s as [|b s].
  - change ("" +:+ t) with t. destruct t as [|b t]; [by rewrite !orb_false_r|].
    replace (byte_in 128 159 b) with false; [by rewrite !andb_false_r, !orb_false_r|].
    cbn in Ht. apply negb_true_iff, byte_in_false in Ht. symmetry. apply byte_in_false. lia.
  - change (String b s +:+ t) with (String b (s +:+ t)). by rewrite !orb_assoc.
Qed.

Lemma of_chars_plain l : well_cut (drop 1 l) → Forall (λ c, has_control c = false) l → has_control (of_chars l) = false.
Proof.
  destruct l as [|c l]; [done|]. intros Hl [Hc Hcs]%Forall_cons. cbn in Hl |- *.
  rewrite has_control_app, Hc by by apply starts_of_chars. cbn.
  change (Forall (λ c, starts_char c = true ∧ c ≠ "") l) in Hl. induction Hl as [|c' l' [Hs Hne] Hl IH]; [done|]. apply Forall_cons in Hcs as [Hc' Hcs]. cbn.
  rewrite has_control_app, Hc' by by apply starts_of_chars. by apply IH.
Qed.

Lemma well_cut_take n l : well_cut l → well_cut (take n l).
Proof. apply Forall_take. Qed.

Lemma chars_cut s : well_cut (drop 1 (chars s)).
Proof. destruct (chars s) as [|c l] eqn:E; [constructor|]. by destruct (chars_head _ _ _ E) as (_ & _ & ?). Qed.

(** Cutting off an end, or a beginning, adds no control character. *)
Lemma has_control_suffix a s : has_control (String a s) = false → has_control s = false.
Proof. cbn. intros Hc. by apply orb_false_iff in Hc as [_ Hc]. Qed.

Lemma has_control_prefix s t : has_control (s +:+ t) = false → has_control s = false.
Proof.
  induction s as [|a s IH]; [done|]. change (String a s +:+ t) with (String a (s +:+ t)). cbn [has_control].
  intros [Ha Hs]%orb_false_iff. rewrite (IH Hs), orb_false_r. apply orb_false_iff in Ha as [-> Ha]. cbn.
  destruct s as [|b s]; [by rewrite andb_false_r|exact Ha].
Qed.

Lemma trim_end_prefix s : ∃ t, s = trim_end s +:+ t.
Proof.
  induction s as [|a s [t IH]]; [by exists ""|]. cbn [trim_end]. destruct (is_blank _).
  - by exists (String a s).
  - exists t. change (String a s = String a (trim_end s +:+ t)). by rewrite <-IH.
Qed.

Lemma trim_dots_prefix s : ∃ t, s = trim_dots s +:+ t.
Proof.
  induction s as [|a s [t IH]]; [by exists ""|]. cbn [trim_dots]. destruct (all_bytes _ _).
  - by exists (String a s).
  - exists t. change (String a s = String a (trim_dots s +:+ t)). by rewrite <-IH.
Qed.

Lemma trim_start_plain s : has_control s = false → has_control (trim_start s) = false.
Proof.
  revert s. fix IH 1. intros [|a s] Hs; [done|]. cbn [trim_start]. pose proof (has_control_suffix _ _ Hs) as H1.
  destruct (is_blank _); [by apply IH|]. destruct s as [|b s2]; [done|].
  pose proof (has_control_suffix _ _ H1) as H2.
  destruct (is_blank _); [by apply IH|]. destruct s2 as [|c s3]; [done|].
  destruct (is_blank _); [by apply IH, (has_control_suffix c)|done].
Qed.

Lemma trim_plain s : has_control s = false → has_control (trim s) = false.
Proof.
  intros Hs%trim_start_plain. unfold trim. destruct (trim_end_prefix (trim_start s)) as [t Ht].
  rewrite Ht in Hs. by apply has_control_prefix in Hs.
Qed.
Lemma trim_dots_plain s : has_control s = false → has_control (trim_dots s) = false.
Proof. destruct (trim_dots_prefix s) as [t Ht]. intros Hs. rewrite Ht in Hs. by apply has_control_prefix in Hs. Qed.

(** Printable text. *)
Lemma printable_starts s : all_bytes is_printable s = true → starts_char s = true.
Proof.
  destruct s as [|a s]; [done|]. cbn. intros [Ha%byte_in_spec _]%andb_true_iff.
  apply negb_true_iff, byte_in_false. lia.
Qed.
Lemma spaced_printable s : all_bytes is_printable s = true → all_bytes is_printable (spaced s) = true.
Proof.
  unfold spaced. induction s as [|a s IH]; [done|]. cbn [map_bytes all_bytes].
  intros [Ha Hs]%andb_true_iff. rewrite (IH Hs), andb_true_r. by destruct (byte_in 95 95 a).
Qed.

(** Text put together from pieces: a printable piece may stand before anything,
    and any piece before one that starts a character. *)
Lemma plain_after s t : all_bytes is_printable s = true → has_control t = false → has_control (s +:+ t) = false.
Proof.
  induction s as [|a s IH]; [done|]. intros [Ha Hs]%andb_true_iff Ht.
  change (String a s +:+ t) with (String a (s +:+ t)). cbn [has_control]. rewrite (IH Hs Ht), orb_false_r.
  apply byte_in_spec in Ha.
  rewrite (proj2 (byte_in_false 0 31 a)), (proj2 (byte_in_false 127 127 a)), (proj2 (byte_in_false 194 194 a))
    by lia. done.
Qed.
Lemma plain_before s t :
  has_control s = false → starts_char t = true → has_control t = false → has_control (s +:+ t) = false.
Proof. intros Hs Hc Ht. by rewrite has_control_app, Hs, Ht. Qed.
