(* ===== verification/Hashing.v ===== *)
(** * Hashes

    [blake3] and [sha2] are third-party crates: a hash function is a parameter
    of every definition that calls it.  What the code relies on is the
    documented shape of the hexadecimal digest. *)
From S2P Require Import Prelude Text.

(** [blake3::hash(bytes).to_hex()] *)
Class Blake3 := blake3_hex : string → string.
Class Blake3Hex `{Blake3} : Prop := {
  blake3_hex_len s : str_len (blake3_hex s) = 64%Z;
  blake3_hex_digits s : all_bytes is_lower_hex (blake3_hex s) = true;
}.

(** [Sha256::digest(bytes)], each byte written with [{byte:02x}] *)
Class Sha256 := sha256_hex : string → string.
Class Sha256Hex `{Sha256} : Prop := {
  sha256_hex_len s : str_len (sha256_hex s) = 64%Z;
  sha256_hex_digits s : all_bytes is_lower_hex (sha256_hex s) = true;
}.

(** ** A concrete function of the documented shape

    Statements about hashes are evaluated on [sample_hash]: the first 64 bytes,
    padded, with a zero for every byte that is not a digit. *)
Fixpoint pad_hex (n : nat) (s : string) : string :=
  match n with
  | O => EmptyString
  | S n => match s with
           | EmptyString => String (Ascii.ascii_of_nat 102) (pad_hex n EmptyString)
           | String c s => String (if is_lower_hex c then c else Ascii.ascii_of_nat 48) (pad_hex n s)
           end
  end.

Definition sample_hash (s : string) : string := pad_hex 64 s.
Definition sample_blake3 : Blake3 := sample_hash.
Definition sample_sha256 : Sha256 := sample_hash.

Lemma hash_printable (s : string) :
  all_bytes is_lower_hex s = true → all_bytes is_printable s = true.
Proof. apply all_bytes_impl, lower_hex_printable. Qed.

Lemma pad_hex_length n s : String.length (pad_hex n s) = n.
Proof. revert s. induction n as [|n IH]; intros [|c s]; cbn; by rewrite ?IH. Qed.

Lemma pad_hex_digits n s : all_bytes is_lower_hex (pad_hex n s) = true.
Proof.
  revert s. induction n as [|n IH]; intros [|c s]; cbn; rewrite ?IH; try done.
  by destruct (is_lower_hex c) eqn:E; rewrite ?E.
Qed.

Lemma sample_blake3_hex : @Blake3Hex sample_blake3.
Proof.
  split; intros s; [|apply pad_hex_digits].
  unfold blake3_hex, sample_blake3, sample_hash, str_len. by rewrite pad_hex_length.
Qed.

Lemma sample_sha256_hex : @Sha256Hex sample_sha256.
Proof.
  split; intros s; [|apply pad_hex_digits].
  unfold sha256_hex, sample_sha256, sample_hash, str_len. by rewrite pad_hex_length.
Qed.
