(* ===== verification/Float64.v ===== *)
(** * [f64]

    IEEE 754 binary64 with round-to-nearest-even, from the Standard Library's
    executable specification of floats ([SpecFloat]).  Every value an [f64] of
    the source can take is a [spec_float]: NaN, the infinities, the signed
    zeros and the finite numbers.  [Rounding] says how far a result is from the exact
    one, for the floats that are neither negative, infinite nor NaN. *)
From Stdlib Require Import QArith Qpower Qround Lqa.
From S2P Require Import Prelude.
From Stdlib Require Export Floats.SpecFloat.

Definition f64_prec : Z := 53.
Definition f64_emax : Z := 1024.
Notation f64 := spec_float.

(** [m * 2^e], rounded *)
Definition f64_round (m e : Z) : f64 := binary_normalize f64_prec f64_emax m e false.
(** [n as f64] for an unsigned [n] *)
Definition f64_of_uint (n : Z) : f64 := f64_round n 0.
Definition f64_mul (x y : f64) : f64 := SFmul f64_prec f64_emax x y.
Definition f64_div (x y : f64) : f64 := SFdiv f64_prec f64_emax x y.
Definition f64_add (x y : f64) : f64 := SFadd f64_prec f64_emax x y.
Definition f64_sub (x y : f64) : f64 := SFsub f64_prec f64_emax x y.
(** [x >= y] and [x <= y], false on NaN *)
Definition f64_leb (x y : f64) : bool := SFleb x y.
Definition f64_geb (x y : f64) : bool := SFleb y x.

(** [x.min(y)]: the other one when one is NaN *)
Definition f64_min (x y : f64) : f64 :=
  match x, y with
  | S754_nan, _ => y
  | _, S754_nan => x
  | _, _ => if SFleb x y then x else y
  end.

(** [x as u64]: truncation towards zero, saturating at both ends; NaN is 0. *)
Definition f64_to_uint (max : Z) (x : f64) : Z :=
  match x with
  | S754_nan => 0
  | S754_zero _ => 0
  | S754_infinity true => 0
  | S754_infinity false => max
  | S754_finite true _ _ => 0
  | S754_finite false m e =>
      Z.min max (if (0 <=? e)%Z then Z.pos m * 2 ^ e else Z.pos m / 2 ^ (- e))%Z
  end%Z.

Lemma f64_to_uint_range max x : (0 ≤ max)%Z → in_range max (f64_to_uint max x).
Proof.
  intros Hm. unfold in_range, f64_to_uint.
  destruct x as [| [] | |[] m e]; try lia.
  destruct (Z.leb_spec 0 e); split; try lia; apply Z.min_glb; try lia.
  apply Z.div_pos; lia.
Qed.

(** ** What rounding does
    The value of a float that is neither negative, infinite nor NaN is a rational
    number, and each operation of [SpecFloat] gives a float next to the exact
    result: it passes no number that a float can be, and in the normal range its
    relative error is at most 2^-53. *)
Module Rounding.
#[local] Open Scope Z_scope.

#[export] Instance Qle_transitive : Transitive Qle := Qle_trans.
Notation pow2 e := (Qpower 2 e).
(** [x] is [m * 2^e] and the part of [2^e] that the location names. *)
Definition located (m e : Z) (l : location) (x : Q) : Prop :=
  match l with
  | loc_Exact => x == inject_Z m * pow2 e
  | loc_Inexact Lt => inject_Z m * pow2 e < x < (inject_Z m + (1#2)) * pow2 e
  | loc_Inexact Eq => x == (inject_Z m + (1#2)) * pow2 e
  | loc_Inexact Gt => (inject_Z m + (1#2)) * pow2 e < x < (inject_Z m + 1) * pow2 e
  end%Q.

Lemma pow2_pos e : (0 < pow2 e)%Q.
Proof. by apply Qpower_0_lt. Qed.
Lemma pow2_plus a b : (pow2 (a + b) == pow2 a * pow2 b)%Q.
Proof. by apply Qpower_plus. Qed.
Lemma pow2_succ e : (pow2 (e + 1) == 2 * pow2 e)%Q.
Proof. rewrite pow2_plus. cbn. lra. Qed.
Lemma pow2_Z n : 0 ≤ n → (inject_Z (2 ^ n) == pow2 n)%Q.
Proof. intros Hn. by rewrite Zpower_Qpower. Qed.
Lemma pow2_le a b : a ≤ b → (pow2 a <= pow2 b)%Q.
Proof. intros H. apply Qpower_le_compat_l; [done|lra]. Qed.

Definition mrs_located (mrs : shr_record) (e : Z) (x : Q) : Prop := located (shr_m mrs) e (loc_of_shr_record mrs) x.
Lemma shr_1_located mrs e x : 0 ≤ shr_m mrs → mrs_located mrs e x →
  0 ≤ shr_m (shr_1 mrs) ∧ shr_m (shr_1 mrs) = shr_m mrs / 2 ∧ mrs_located (shr_1 mrs) (e + 1) x.
Proof.
  destruct mrs as [m r s]. unfold mrs_located. cbn [shr_m]. intros Hm Hx.
  pose proof (pow2_pos e) as Hp. pose proof (pow2_succ e) as Hs.
  assert (∃ m' b, m = 2 * m' + Z.b2z b ∧ 0 ≤ m' ∧ shr_1 (Build_shr_record m r s) = Build_shr_record m' b (r || s)) as (m' & b & -> & Hm' & ->).
  { destruct m as [|[p|p|]|p]; [exists 0, false|exists (Z.pos p), true|exists (Z.pos p), false|exists 0, true|lia]; by split_and!. }
  cbn [shr_m] in *. split; [done|]. split. { destruct b; cbn [Z.b2z]; [by rewrite Z.add_comm, Z.mul_comm, Z.div_add|by rewrite Z.add_0_r, Z.mul_comm, Z.div_mul]. }
  assert (inject_Z (2 * m' + Z.b2z b) == 2 * inject_Z m' + inject_Z (Z.b2z b))%Q as Hi by by rewrite inject_Z_plus, inject_Z_mult.
  assert (inject_Z (Z.b2z b) == if b then 1 else 0)%Q as Hb by by destruct b.
  remember (2 * m' + Z.b2z b) as k eqn:Hk. clear Hk Hm. set (N := inject_Z k) in *. set (B := inject_Z (Z.b2z b)) in *. set (M := inject_Z m') in *.
  set (E := pow2 (e + 1)) in *. set (P := pow2 e) in *.
  assert (N * P == 2 * (M * P) + B * P)%Q as HN by (rewrite Hi; lra).
  assert (M * E == 2 * (M * P))%Q as HM by (rewrite Hs; lra).
  destruct b, r, s; cbn -[inject_Z Qpower Qmult Qplus] in Hx |- *; fold N M E P in Hx |- *; clearbody E P M N B;
    cbv iota in Hb; rewrite Hb in HN; clear Hi; (try split); try lra.
Qed.
Lemma iter_shr_1_located p mrs e x : 0 ≤ shr_m mrs → mrs_located mrs e x →
  0 ≤ shr_m (iter_pos shr_1 p mrs) ∧ mrs_located (iter_pos shr_1 p mrs) (e + Z.pos p) x.
Proof.
  revert mrs e. induction p as [p IH|p IH|]; intros mrs e Hm Hx; cbn [iter_pos].
  - destruct (shr_1_located mrs e x Hm Hx) as (H1 & _ & H1').
    destruct (IH _ _ H1 H1') as [H2 H2']. destruct (IH _ _ H2 H2') as [H3 H3']. split; [done|].
    by replace (e + Z.pos p~1) with (e + 1 + Z.pos p + Z.pos p) by lia.
  - destruct (IH _ _ Hm Hx) as [H2 H2']. destruct (IH _ _ H2 H2') as [H3 H3']. split; [done|].
    by replace (e + Z.pos p~0) with (e + Z.pos p + Z.pos p) by lia.
  - destruct (shr_1_located mrs e x Hm Hx) as (H1 & _ & H1'). done.
Qed.
Lemma shr_located m e l n x : 0 ≤ m → 0 ≤ n → located m e l x →
  ∃ mrs, shr (shr_record_of_loc m l) e n = (mrs, e + n) ∧ 0 ≤ shr_m mrs ∧ mrs_located mrs (e + n) x.
Proof.
  intros Hm Hn Hx.
  assert (shr_m (shr_record_of_loc m l) = m ∧ mrs_located (shr_record_of_loc m l) e x) as [Hm' Hx'].
  { unfold mrs_located. by destruct l as [|[]]. }
  destruct n as [|p|p]; [exists (shr_record_of_loc m l)|exists (iter_pos shr_1 p (shr_record_of_loc m l))|lia]; cbn [shr].
  - rewrite Z.add_0_r, Hm'. done.
  - split; [done|]. apply iter_shr_1_located; [by rewrite Hm'|done].
Qed.

(** The integer that [round_nearest_even] takes. *)
Record nearest (k e : Z) (x : Q) : Prop := {
  nearest_low : (inject_Z k * pow2 e <= x + (1#2) * pow2 e)%Q;
  nearest_high : (x <= inject_Z k * pow2 e + (1#2) * pow2 e)%Q;
  nearest_above n : (inject_Z n * pow2 e <= x)%Q → n ≤ k;
  nearest_below n : (x <= inject_Z n * pow2 e)%Q → k ≤ n;
}.
Lemma grid_le n m e x : (inject_Z n * pow2 e <= x)%Q → (x < (inject_Z m + 1) * pow2 e)%Q → n ≤ m.
Proof.
  intros H1 H2. pose proof (pow2_pos e) as Hp.
  assert (inject_Z n < inject_Z (m + 1))%Q as H by (rewrite inject_Z_plus; apply (Qmult_lt_r _ _ (pow2 e) Hp); change (inject_Z 1) with 1%Q; lra).
  rewrite <- Zlt_Qlt in H. lia.
Qed.
Lemma grid_ge n m e x : (x <= inject_Z n * pow2 e)%Q → (inject_Z m * pow2 e <= x)%Q → m ≤ n.
Proof.
  intros H1 H2. pose proof (pow2_pos e) as Hp.
  assert (inject_Z m <= inject_Z n)%Q as H by (apply (Qmult_le_r _ _ (pow2 e) Hp); lra).
  by rewrite <- Zle_Qle in H.
Qed.
Lemma grid_gt n m e x : (x <= inject_Z n * pow2 e)%Q → (inject_Z m * pow2 e < x)%Q → m + 1 ≤ n.
Proof.
  intros H1 H2. pose proof (pow2_pos e) as Hp.
  assert (inject_Z m < inject_Z n)%Q as H by (apply (Qmult_lt_r _ _ (pow2 e) Hp); lra).
  rewrite <- Zlt_Qlt in H. lia.
Qed.
Lemma round_nearest m e l x : located m e l x → nearest (round_nearest_even m l) e x.
Proof.
  intros Hx. pose proof (pow2_pos e) as Hp.
  assert (∀ k, inject_Z (k + 1) * pow2 e == inject_Z k * pow2 e + pow2 e)%Q as Hs.
  { intros k. rewrite inject_Z_plus. change (inject_Z 1) with 1%Q. lra. }
  pose proof (Hs m) as Hm.
  destruct l as [|[| |]]; cbn [located round_nearest_even] in *.
  - split; [lra|lra| |]; intros n Hn; [eapply grid_le; [exact Hn|lra]|eapply grid_ge; [exact Hn|lra]].
  - destruct (Z.even m).
    + split; [lra|lra| |]; intros n Hn; [eapply grid_le; [exact Hn|lra]|eapply grid_ge; [exact Hn|lra]].
    + split; [lra|lra| |]; intros n Hn; [apply Z.le_le_succ_r; eapply grid_le; [exact Hn|lra]|eapply grid_gt; [exact Hn|lra]].
  - split; [lra|lra| |]; intros n Hn; [eapply grid_le; [exact Hn|lra]|eapply grid_ge; [exact Hn|lra]].
  - split; [lra|lra| |]; intros n Hn; [apply Z.le_le_succ_r; eapply grid_le; [exact Hn|lra]|eapply grid_gt; [exact Hn|lra]].
Qed.

Lemma digits_log2 p : Z.pos (digits2_pos p) = Z.log2 (Z.pos p) + 1.
Proof.
  induction p as [p IH|p IH|]; cbn [digits2_pos]; [| |done]; rewrite Pos2Z.inj_succ, IH.
  - rewrite (Pos2Z.inj_xI p), Z.log2_succ_double; lia.
  - rewrite (Pos2Z.inj_xO p), Z.log2_double; lia.
Qed.
Lemma digits_range p : 2 ^ (Z.pos (digits2_pos p) - 1) ≤ Z.pos p < 2 ^ Z.pos (digits2_pos p).
Proof. rewrite digits_log2, Z.add_simpl_r, Z.add_1_r. by apply Z.log2_spec. Qed.
Lemma digits_le p n : 0 ≤ n → Z.pos p < 2 ^ n → Z.pos (digits2_pos p) ≤ n.
Proof. intros Hn H. rewrite digits_log2. apply Z.log2_lt_pow2 in H; lia. Qed.
Lemma digits_ge p n : 2 ^ n ≤ Z.pos p → n < Z.pos (digits2_pos p).
Proof. intros H. rewrite digits_log2. destruct (Z.le_gt_cases 0 n); [|pose proof (Z.log2_nonneg (Z.pos p)); lia]. apply Z.log2_le_pow2 in H; lia. Qed.

(** ** Values *)
Notation fexp64 := (fexp f64_prec f64_emax).
Definition nonneg (x : f64) : Prop :=
  match x with
  | S754_zero _ | S754_finite false _ _ => valid_binary f64_prec f64_emax x = true
  | _ => False
  end.
Definition value (x : f64) : Q :=
  match x with S754_finite false m e => inject_Z (Z.pos m) * pow2 e | _ => 0 end%Q.
(** The numbers that a float can be, were its exponent not bounded above. *)
Definition representable (v : Q) : Prop := ∃ n j, 0 ≤ n ≤ 2 ^ 53 ∧ -1074 ≤ j ∧ (v == inject_Z n * pow2 j)%Q.
(** [x] is [q], rounded. *)
Record rounded (q : Q) (x : f64) : Prop := {
  rounded_nonneg : nonneg x;
  rounded_above v : representable v → (v <= q)%Q → (v <= value x)%Q;
  rounded_below v : representable v → (q <= v)%Q → (value x <= v)%Q;
  rounded_high : (pow2 (-1022) <= q → value x <= q * (1 + pow2 (-53)))%Q;
  rounded_low : (pow2 (-1022) <= q → q * (1 - pow2 (-53)) <= value x)%Q;
}.
Lemma rounded_exact x q : nonneg x → (value x == q)%Q → rounded q x.
Proof.
  intros Hx Hq. pose proof (pow2_pos (-53)). pose proof (pow2_pos (-1022)).
  split; [done|intros v _ ?; lra|intros v _ ?; lra|intros ?; nra|intros ?; nra].
Qed.
#[export] Instance rounded_proper : Proper (Qeq ==> eq ==> iff) rounded.
Proof.
  assert (∀ q q' x, (q == q')%Q → rounded q x → rounded q' x) as H.
  { intros q q' x Hq [H1 H2 H3 H4 H5]. split; [done| | | |]; intros *; rewrite <-Hq; auto. }
  intros q q' Hq x _ <-. split; by apply H.
Qed.

Lemma fexp_eq e : fexp64 e = Z.max (e - 53) (-1074).
Proof. done. Qed.
Lemma bounded_iff m e : bounded f64_prec f64_emax m e = true ↔
  Z.max (Z.pos (digits2_pos m) + e - 53) (-1074) = e ∧ e ≤ 971.
Proof. unfold bounded, canonical_mantissa. by rewrite andb_true_iff, Z.eqb_eq, Z.leb_le. Qed.

(** What [binary_round_aux] makes of the integer it rounds to. *)
Definition packed (k e : Z) : f64 :=
  let '(mrs, e) := shr_fexp f64_prec f64_emax k e loc_Exact in
  match shr_m mrs with
  | Z0 => S754_zero false
  | Z.pos m => if e <=? f64_emax - f64_prec then S754_finite false m e else S754_infinity false
  | _ => S754_nan
  end.
Lemma packed_spec k e : 0 ≤ k ≤ 2 ^ 53 → -1074 ≤ e ≤ 970 → (e = -1074 ∨ 2 ^ 52 ≤ k) →
  nonneg (packed k e) ∧ (value (packed k e) == inject_Z k * pow2 e)%Q.
Proof.
  intros Hk He Hc. unfold packed, shr_fexp. rewrite fexp_eq.
  destruct (decide (k = 2 ^ 53)) as [->|Hne].
  - change (Zdigits2 (2 ^ 53)) with 54. replace (Z.max (54 + e - 53) (-1074) - e) with 1 by lia.
    cbn [shr]. change (shr_m (iter_pos shr_1 1 (shr_record_of_loc (2 ^ 53) loc_Exact))) with (2 ^ 52).
    replace (2 ^ 52) with (Z.pos 4503599627370496) by done. cbv iota beta.
    change (f64_emax - f64_prec) with 971. destruct (Z.leb_spec (e + 1) 971); [|lia]. split.
    + cbn [nonneg valid_binary]. apply bounded_iff. change (Z.pos (digits2_pos 4503599627370496)) with 53. lia.
    + cbn [value]. change (2 ^ 53) with (4503599627370496 * 2). rewrite inject_Z_mult.
      pose proof (pow2_succ e) as Hs. change (inject_Z 2) with 2%Q.
      generalize dependent (pow2 (e + 1)). intros q Hs. rewrite Hs. lra.
  - assert (Zdigits2 k ≤ 53) as Hd.
    { destruct k as [|p|p]; cbn [Zdigits2]; [lia| |lia]. apply digits_le; lia. }
    assert (shr (shr_record_of_loc k loc_Exact) e (Z.max (Zdigits2 k + e - 53) (-1074) - e) = (shr_record_of_loc k loc_Exact, e)) as ->.
    { destruct (Z.max (Zdigits2 k + e - 53) (-1074) - e) eqn:E; [done|lia|done]. }
    cbn [shr_m shr_record_of_loc]. destruct k as [|p|p]; [by cbn; rewrite Qmult_0_l| |lia].
    change (f64_emax - f64_prec) with 971. destruct (Z.leb_spec e 971); [|lia]. split; [|done].
    cbn [nonneg valid_binary Zdigits2] in *. apply bounded_iff.
    destruct Hc as [->|Hc]; [lia|]. apply digits_ge in Hc. lia.
Qed.

Lemma digits2_range m : 0 < m → 2 ^ (Zdigits2 m - 1) ≤ m < 2 ^ Zdigits2 m ∧ 0 < Zdigits2 m.
Proof. intros Hm. destruct m as [|p|p]; [lia| |lia]. split; [apply digits_range|done]. Qed.
Lemma located_range m e l x : located m e l x →
  (inject_Z m * pow2 e <= x)%Q ∧ (x < inject_Z (m + 1) * pow2 e)%Q.
Proof.
  intros Hx. pose proof (pow2_pos e). rewrite inject_Z_plus. change (inject_Z 1) with 1%Q.
  destruct l as [|[]]; cbn [located] in Hx; split; lra.
Qed.
(** A number on a finer grid that is no more than the greatest of its digits. *)
Lemma representable_cases v e : -1074 ≤ e → representable v →
  (∃ n, v == inject_Z n * pow2 e)%Q ∨ -1074 < e ∧ (v <= pow2 (e + 52))%Q.
Proof.
  intros He (n & j & Hn & Hj & Hv). destruct (decide (e ≤ j)).
  - left. exists (n * 2 ^ (j - e)). rewrite inject_Z_mult, pow2_Z by lia.
    rewrite <-Qmult_assoc, <-pow2_plus, Z.sub_add. done.
  - right. split; [lia|]. rewrite Hv. trans (pow2 53 * pow2 j)%Q.
    + apply Qmult_le_compat_r; [|pose proof (pow2_pos j); lra]. rewrite <-(pow2_Z 53) by lia. rewrite <-Zle_Qle. lia.
    + rewrite <-pow2_plus. apply pow2_le. lia.
Qed.

Lemma nearest_packed k e x : 0 ≤ k ≤ 2 ^ 53 → -1074 ≤ e ≤ 970 → nearest k e x →
  (e = -1074 ∨ (pow2 (e + 52) <= x)%Q) → rounded x (packed k e).
Proof.
  intros Hk He [Hlow Hhigh Habove Hbelow] Hc.
  assert (pow2 (e + 52) == inject_Z (2 ^ 52) * pow2 e)%Q as H52.
  { rewrite pow2_Z by lia. rewrite <-pow2_plus. by replace (52 + e) with (e + 52) by lia. }
  assert (e = -1074 ∨ 2 ^ 52 ≤ k) as Hc'.
  { destruct Hc as [?|Hc]; [by left|right]. apply Habove. by rewrite <-H52. }
  destruct (packed_spec k e Hk He Hc') as [Hn Hv]. pose proof (pow2_pos e) as Hp.
  assert ((1#2) * pow2 e == pow2 (e + 52) * pow2 (-53))%Q as Hhalf.
  { rewrite <-pow2_plus. replace (e + 52 + -53) with (e + -1) by lia. rewrite pow2_plus. change (pow2 (-1)) with (1#2)%Q. lra. }
  assert (pow2 (-1022) <= x → (1#2) * pow2 e <= x * pow2 (-53))%Q as Herr.
  { intros Hx. rewrite Hhalf. apply Qmult_le_compat_r; [|pose proof (pow2_pos (-53)); lra].
    destruct Hc as [->|?]; done. }
  split; [done| | | |]; [intros v Hr H|intros v Hr H|intros H|intros H]; rewrite Hv.
  - destruct (representable_cases v e ltac:(lia) Hr) as [[n Hn']|[He' Hle]].
    + rewrite Hn'. apply Qmult_le_compat_r; [|lra]. rewrite <-Zle_Qle. apply Habove. by rewrite <-Hn'.
    + destruct Hc as [?|Hc]; [lia|]. destruct Hc' as [?|Hc']; [lia|]. rewrite Hle, H52.
      apply Qmult_le_compat_r; [|lra]. by rewrite <-Zle_Qle.
  - destruct (representable_cases v e ltac:(lia) Hr) as [[n Hn']|[He' Hle]].
    + rewrite Hn'. apply Qmult_le_compat_r; [|lra]. rewrite <-Zle_Qle. apply Hbelow. by rewrite <-Hn'.
    + destruct Hc as [?|Hc]; [lia|]. trans (pow2 (e + 52)); [|by trans x]. rewrite H52.
      apply Qmult_le_compat_r; [|lra]. rewrite <-Zle_Qle. apply Hbelow. rewrite <-H52. by trans v.
  - specialize (Herr H). lra.
  - specialize (Herr H). lra.
Qed.

Lemma round_aux_spec m e l x : 0 < m → located m e l x → e ≤ fexp64 (Zdigits2 m + e) → (x < pow2 1023)%Q →
  rounded x (binary_round_aux f64_prec f64_emax false m e l).
Proof.
  intros Hm Hx He Hmax. unfold binary_round_aux, shr_fexp at 1.
  destruct (digits2_range m Hm) as [Hd Hd0]. destruct (located_range _ _ _ _ Hx) as [Hx1 Hx2].
  set (d := Zdigits2 m) in *.
  assert (pow2 (d + e - 1) <= x)%Q as Hlo.
  { rewrite <-Hx1. replace (d + e - 1) with (d - 1 + e) by lia. rewrite pow2_plus, <-pow2_Z by lia.
    apply Qmult_le_compat_r; [|pose proof (pow2_pos e); lra]. rewrite <-Zle_Qle. lia. }
  assert (x < pow2 (d + e))%Q as Hhi.
  { eapply Qlt_le_trans; [exact Hx2|]. rewrite (pow2_plus d e), <-(pow2_Z d) by lia.
    apply Qmult_le_compat_r; [|pose proof (pow2_pos e); lra]. rewrite <-Zle_Qle. lia. }
  assert (d + e ≤ 1023) as Hde.
  { destruct (Z.le_gt_cases (d + e) 1023); [done|]. exfalso.
    assert (pow2 1023 <= pow2 (d + e - 1))%Q by (apply pow2_le; lia). lra. }
  set (E := fexp64 (d + e)) in *. assert (E = Z.max (d + e - 53) (-1074)) as HE by done. clearbody E.
  destruct (shr_located m e l (E - e) x) as (mrs & -> & Hm' & Hx'); [lia|lia|done|].
  replace (e + (E - e)) with E in * by lia.
  pose proof (round_nearest _ _ _ _ Hx') as Hk.
  change (rounded x (packed (round_nearest_even (shr_m mrs) (loc_of_shr_record mrs)) E)).
  apply nearest_packed; [|lia|done|].
  - split.
    + apply Hk. cbn. rewrite Qmult_0_l. pose proof (pow2_pos (d + e - 1)). lra.
    + apply Hk. rewrite pow2_Z by lia. rewrite <-pow2_plus. apply Qlt_le_weak. eapply Qlt_le_trans; [exact Hhi|].
      apply pow2_le. lia.
  - destruct (decide (E = -1074)); [by left|right]. by replace (E + 52) with (d + e - 1) by lia.
Qed.

(** ** The operations *)
Lemma iter_xO p d : Z.pos (Pos.iter xO p d) = Z.pos p * 2 ^ Z.pos d.
Proof.
  induction d as [|d IH] using Pos.peano_ind; [cbn; lia|].
  rewrite Pos.iter_succ, Pos2Z.inj_succ, Z.pow_succ_r by lia. rewrite (Pos2Z.inj_xO (Pos.iter _ _ _)), IH. lia.
Qed.
Lemma shl_align_spec m e e' : ∃ d, 0 ≤ d ∧ shl_align m e e' = (fst (shl_align m e e'), e - d)
  ∧ Z.pos (fst (shl_align m e e')) = Z.pos m * 2 ^ d ∧ d = Z.max 0 (e - e').
Proof.
  unfold shl_align. destruct (e' - e) as [|p|p] eqn:E.
  - exists 0. cbn [fst]. split_and!; [lia|f_equal; lia|lia|lia].
  - exists 0. cbn [fst]. split_and!; [lia|f_equal; lia|lia|lia].
  - exists (Z.pos p). cbn [fst]. split_and!; [lia|f_equal; lia|apply iter_xO|lia].
Qed.
Lemma digits_shl p q d : 0 ≤ d → Z.pos q = Z.pos p * 2 ^ d → Z.pos (digits2_pos q) = Z.pos (digits2_pos p) + d.
Proof. intros Hd H. rewrite !digits_log2, H, Z.log2_mul_pow2; lia. Qed.

Lemma round_spec m e : 0 ≤ m → (inject_Z m * pow2 e < pow2 1023)%Q → rounded (inject_Z m * pow2 e) (f64_round m e).
Proof.
  intros Hm Hmax. unfold f64_round, binary_normalize. destruct m as [|m|m]; [| |lia].
  { apply rounded_exact; [done|]. cbn. by rewrite Qmult_0_l. }
  unfold binary_round. destruct (shl_align_spec m e (fexp64 (Z.pos (digits2_pos m) + e))) as (d & Hd & Hs & Hv & Hd').
  rewrite Hs. set (p := fst _) in *. clearbody p. clear Hs.
  apply round_aux_spec; [done| |cbn [Zdigits2]; rewrite (digits_shl m p d Hd Hv), fexp_eq in *; lia|done].
  cbn [located]. rewrite Hv, inject_Z_mult, pow2_Z by done. rewrite <-Qmult_assoc, <-pow2_plus.
  by replace (d + (e - d)) with e by lia.
Qed.
Lemma of_uint_spec n : 0 ≤ n < 2 ^ 1023 → rounded (inject_Z n) (f64_of_uint n).
Proof.
  intros Hn. assert (inject_Z n * pow2 0 == inject_Z n)%Q as He by (cbn; lra).
  rewrite <-He. apply round_spec; [lia|]. rewrite He, <-pow2_Z by lia. rewrite <-Zlt_Qlt. apply Hn.
Qed.

Lemma value_nonneg x : (0 <= value x)%Q.
Proof.
  destruct x as [| | |[] m e]; cbn [value]; try lra. pose proof (pow2_pos e).
  apply Qmult_le_0_compat; [|lra]. change 0%Q with (inject_Z 0). by rewrite <-Zle_Qle.
Qed.
Lemma value_pos m e : (0 < value (S754_finite false m e))%Q.
Proof.
  cbn [value]. pose proof (pow2_pos e). apply Qmult_lt_0_compat; [|lra].
  change 0%Q with (inject_Z 0). by rewrite <-Zlt_Qlt.
Qed.
Lemma value_representable x : nonneg x → representable (value x).
Proof.
  destruct x as [| | |[] m e]; intros Hx; try done.
  - exists 0, 0. split_and!; [lia|lia|lia|]. cbn [value]. by rewrite Qmult_0_l.
  - cbn [nonneg valid_binary] in Hx. apply bounded_iff in Hx. exists (Z.pos m), e.
    split_and!; [lia| |lia|done]. pose proof (digits_range m) as [_ H].
    assert (2 ^ Z.pos (digits2_pos m) ≤ 2 ^ 53) by (apply Z.pow_le_mono_r; lia). lia.
Qed.
(** A sum or a difference of two mantissas brought to the same exponent. *)
Lemma aligned m e ez : ez ≤ e → (inject_Z (Z.pos (fst (shl_align m e ez))) * pow2 ez == inject_Z (Z.pos m) * pow2 e)%Q.
Proof.
  intros He. destruct (shl_align_spec m e ez) as (d & Hd & _ & -> & Hd').
  rewrite inject_Z_mult, pow2_Z by done. rewrite <-Qmult_assoc, <-pow2_plus. by replace (d + ez) with e by lia.
Qed.
Lemma add_spec x y : nonneg x → nonneg y → (value x + value y < pow2 1023)%Q → rounded (value x + value y) (f64_add x y).
Proof.
  intros Hx Hy Hmax.
  destruct x as [sx| | |[] m e], y as [sy| | |[] n j]; try done;
    [apply rounded_exact; [by destruct sx, sy|by destruct sx, sy]
    |apply rounded_exact; [done|by rewrite Qplus_0_l]
    |apply rounded_exact; [done|by rewrite Qplus_0_r]|].
  unfold f64_add, SFadd, cond_Zopp. set (ez := Z.min e j).
  change (binary_normalize f64_prec f64_emax ?a ?b false) with (f64_round a b).
  assert (value (S754_finite false m e) + value (S754_finite false n j)
    == inject_Z (Z.pos (fst (shl_align m e ez)) + Z.pos (fst (shl_align n j ez))) * pow2 ez)%Q as Hs.
  { rewrite inject_Z_plus, Qmult_plus_distr_l, !aligned by lia. done. }
  rewrite Hs in Hmax |- *. by apply round_spec.
Qed.
Lemma sub_spec x y : nonneg x → nonneg y → (value y <= value x)%Q → (value x < pow2 1023)%Q →
  rounded (value x - value y) (f64_sub x y).
Proof.
  intros Hx Hy Hle Hmax.
  destruct x as [sx| | |[] m e], y as [sy| | |[] n j]; try done;
    [apply rounded_exact; [by destruct sx, sy|by destruct sx, sy]
    |pose proof (value_pos n j); cbn [value] in *; lra
    |apply rounded_exact; [done|cbn; lra]|].
  unfold f64_sub, SFsub, cond_Zopp. set (ez := Z.min e j).
  change (binary_normalize f64_prec f64_emax ?a ?b false) with (f64_round a b).
  assert (value (S754_finite false m e) - value (S754_finite false n j)
    == inject_Z (Z.pos (fst (shl_align m e ez)) - Z.pos (fst (shl_align n j ez))) * pow2 ez)%Q as Hs.
  { unfold Z.sub, Qminus. rewrite inject_Z_plus, inject_Z_opp, Qmult_plus_distr_l, aligned by lia.
    cbn [value]. rewrite <-(aligned n j ez) by lia. ring. }
  pose proof (value_nonneg (S754_finite false n j)).
  assert (0 ≤ Z.pos (fst (shl_align m e ez)) - Z.pos (fst (shl_align n j ez))).
  { apply (grid_le 0 _ ez (value (S754_finite false m e) - value (S754_finite false n j))).
    - rewrite Qmult_0_l. lra.
    - rewrite Hs. pose proof (pow2_pos ez). lra. }
  assert (value (S754_finite false m e) - value (S754_finite false n j) < pow2 1023)%Q as Hm by lra.
  rewrite Hs in Hm |- *. by apply round_spec.
Qed.
Lemma mul_spec x y : nonneg x → nonneg y → (value x * value y < pow2 1023)%Q → rounded (value x * value y) (f64_mul x y).
Proof.
  intros Hx Hy Hmax.
  destruct x as [sx| | |[] m e], y as [sy| | |[] n j]; try done;
    [apply rounded_exact; [done|cbn [value f64_mul SFmul]; lra]..|].
  unfold f64_mul, SFmul. cbn [xorb]. cbn [nonneg valid_binary] in Hx, Hy. apply bounded_iff in Hx, Hy.
  apply round_aux_spec; [done| |rewrite fexp_eq; cbn [Zdigits2]|done].
  - cbn [located value]. rewrite Pos2Z.inj_mul, inject_Z_mult, pow2_plus. ring.
  - pose proof (digits_range m) as [Hm _]. pose proof (digits_range n) as [Hn _].
    assert (Z.pos (digits2_pos m) + Z.pos (digits2_pos n) - 2 < Z.pos (digits2_pos (m * n))); [|lia].
    apply digits_ge. rewrite Pos2Z.inj_mul.
    replace (Z.pos (digits2_pos m) + Z.pos (digits2_pos n) - 2) with (Z.pos (digits2_pos m) - 1 + (Z.pos (digits2_pos n) - 1)) by lia.
    rewrite Z.pow_add_r by lia. apply Z.mul_le_mono_nonneg; lia.
Qed.

(** The location of a quotient. *)
Lemma new_location_located b q r e x : 0 < b → 0 ≤ r < b →
  (x == (inject_Z q + inject_Z r / inject_Z b) * pow2 e)%Q → located q e (new_location b r) x.
Proof.
  intros Hb Hr Hx. pose proof (pow2_pos e) as Hp.
  assert (0 < inject_Z b)%Q as Hb' by (change 0%Q with (inject_Z 0); by rewrite <-Zlt_Qlt).
  set (f := (inject_Z r / inject_Z b)%Q) in *.
  assert (∀ u, inject_Z u * f * inject_Z b == inject_Z (u * r))%Q as Hu.
  { intros u. unfold f. rewrite inject_Z_mult. field. lra. }
  assert (∀ u v : Z, u * r < v * b → (inject_Z u * f < inject_Z v)%Q) as Hlt.
  { intros u v H. apply (Qmult_lt_r _ _ _ Hb'). rewrite Hu, <-inject_Z_mult. by rewrite <-Zlt_Qlt. }
  assert (∀ u v : Z, v * b < u * r → (inject_Z v < inject_Z u * f)%Q) as Hgt.
  { intros u v H. apply (Qmult_lt_r _ _ _ Hb'). rewrite Hu, <-inject_Z_mult. by rewrite <-Zlt_Qlt. }
  assert (∀ u v : Z, u * r = v * b → (inject_Z u * f == inject_Z v)%Q) as Heq.
  { intros u v H. apply (Qmult_inj_r _ _ (inject_Z b)); [lra|]. by rewrite Hu, H, inject_Z_mult. }
  pose proof (Hlt 1 1) as H1. pose proof (Hgt 1 0) as H0. pose proof (Hlt 2 1) as H2. pose proof (Hgt 2 1) as H3.
  pose proof (Heq 2 1) as H4. pose proof (Heq 1 0) as H5. clear Hlt Hgt Heq Hu. clearbody f.
  change (inject_Z 1) with 1%Q in *. change (inject_Z 2) with 2%Q in *. change (inject_Z 0) with 0%Q in *.
  destruct (decide (r = 0)) as [->|Hr0].
  { specialize (H5 ltac:(lia)). assert (f == 0)%Q as Hf by lra. rewrite Hf in Hx.
    assert (new_location b 0 = loc_Exact) as -> by (unfold new_location; by destruct (Z.even b)). cbn [located]. lra. }
  assert (new_location b r = loc_Inexact (if Z.even b then 2 * r ?= b else match 2 * r + 1 ?= b with Gt => Gt | _ => Lt end)) as ->.
  { unfold new_location, new_location_even, new_location_odd. destruct r; [done| |lia]. by destruct (Z.even b). }
  destruct (Z.even b) eqn:Heven.
  - destruct (Z.compare_spec (2 * r) b) as [E|E|E]; cbn [located].
    + specialize (H4 ltac:(lia)). assert (f == 1#2)%Q as Hf by lra. rewrite Hf in Hx. lra.
    + specialize (H0 ltac:(lia)); specialize (H2 ltac:(lia)); split; nra.
    + specialize (H1 ltac:(lia)); specialize (H3 ltac:(lia)); split; nra.
  - assert (2 * r ≠ b) by (intros E; rewrite <-E, Z.even_mul in Heven; done).
    destruct (Z.compare_spec (2 * r + 1) b) as [E|E|E]; cbn [located].
    + specialize (H0 ltac:(lia)); specialize (H2 ltac:(lia)); split; nra.
    + specialize (H0 ltac:(lia)); specialize (H2 ltac:(lia)); split; nra.
    + specialize (H1 ltac:(lia)); specialize (H3 ltac:(lia)); split; nra.
Qed.
Lemma div_core m e n j : ∃ q e' r, SFdiv_core_binary f64_prec f64_emax (Z.pos m) e (Z.pos n) j = (q, e', new_location (Z.pos n) r)
  ∧ 0 ≤ r < Z.pos n ∧ 0 ≤ q
  ∧ e' = Z.min (fexp64 (Z.pos (digits2_pos m) + e - (Z.pos (digits2_pos n) + j))) (e - j)
  ∧ (value (S754_finite false m e) / value (S754_finite false n j)
     == (inject_Z q + inject_Z r / inject_Z (Z.pos n)) * pow2 e')%Q.
Proof.
  unfold SFdiv_core_binary. cbn [Zdigits2]. set (e' := Z.min _ _). set (s := e - j - e').
  assert (0 ≤ s) by lia.
  assert (match s with Z0 => Z.pos m | Z.pos _ => Z.shiftl (Z.pos m) s | Z.neg _ => 0 end = Z.pos m * 2 ^ s) as ->.
  { destruct s eqn:E; [lia|by rewrite Z.shiftl_mul_pow2 by lia|lia]. }
  pose proof (Z_div_mod (Z.pos m * 2 ^ s) (Z.pos n) ltac:(lia)) as Hdiv.
  destruct (Z.div_eucl _ _) as [q r]. destruct Hdiv as [Hq Hr]. exists q, e', r.
  split; [done|]. split; [done|].
  assert (0 ≤ Z.pos m * 2 ^ s) by (apply Z.mul_nonneg_nonneg; [lia|by apply Z.pow_nonneg]).
  split; [nia|]. split; [done|].
  assert (inject_Z (Z.pos m) * pow2 s == inject_Z (Z.pos n) * inject_Z q + inject_Z r)%Q as Heq.
  { rewrite <-pow2_Z by done. by rewrite <-!inject_Z_mult, <-inject_Z_plus, Hq. }
  assert (pow2 e == pow2 s * (pow2 e' * pow2 j))%Q as He.
  { rewrite <-!pow2_plus. by replace (s + (e' + j)) with e by lia. }
  cbn [value]. rewrite He, Qmult_assoc, Heq. pose proof (pow2_pos j). field.
  split; [|lra]. intros Hn. assert (0 < inject_Z (Z.pos n))%Q; [|lra]. change 0%Q with (inject_Z 0). by rewrite <-Zlt_Qlt.
Qed.
Lemma value_range m e : (pow2 (Z.pos (digits2_pos m) + e - 1) <= value (S754_finite false m e) < pow2 (Z.pos (digits2_pos m) + e))%Q.
Proof.
  pose proof (digits_range m) as [H1 H2]. pose proof (pow2_pos e) as Hp. cbn [value].
  rewrite Zle_Qle, pow2_Z in H1 by lia. rewrite Zlt_Qlt, pow2_Z in H2 by lia. split.
  - replace (Z.pos (digits2_pos m) + e - 1) with (Z.pos (digits2_pos m) - 1 + e) by lia.
    rewrite pow2_plus. apply Qmult_le_compat_r; [done|lra].
  - rewrite pow2_plus. by apply Qmult_lt_r.
Qed.
Lemma quotient_range m e n j : let D := Z.pos (digits2_pos m) + e - (Z.pos (digits2_pos n) + j) in
  (pow2 (D - 1) < value (S754_finite false m e) / value (S754_finite false n j) < pow2 (D + 1))%Q.
Proof.
  intros D. destruct (value_range m e) as [Hm Hm'], (value_range n j) as [Hn Hn']. pose proof (value_pos n j) as Hy.
  split; [apply Qlt_shift_div_l|apply Qlt_shift_div_r]; try done.
  - eapply Qlt_le_trans; [|exact Hm]. replace (Z.pos (digits2_pos m) + e - 1) with (D - 1 + (Z.pos (digits2_pos n) + j)) by lia.
    rewrite pow2_plus. apply Qmult_lt_l; [apply pow2_pos|done].
  - eapply Qlt_le_trans; [exact Hm'|]. replace (Z.pos (digits2_pos m) + e) with (D + 1 + (Z.pos (digits2_pos n) + j - 1)) by lia.
    rewrite pow2_plus. rewrite !(Qmult_comm (pow2 (D + 1))). apply Qmult_le_compat_r; [done|]. pose proof (pow2_pos (D + 1)). lra.
Qed.
Lemma div_spec x y : nonneg x → nonneg y → (0 < value x)%Q → (0 < value y)%Q →
  (pow2 (-1022) <= value x / value y)%Q → (value x / value y < pow2 1023)%Q →
  rounded (value x / value y) (f64_div x y).
Proof.
  intros Hx Hy Hx0 Hy0 Hmin Hmax.
  destruct x as [sx| | |[] m e], y as [sy| | |[] n j]; try done; try (cbn [value] in *; lra).
  unfold f64_div, SFdiv. cbn [xorb].
  destruct (div_core m e n j) as (q & e' & r & -> & Hr & Hq & He' & Hv).
  destruct (quotient_range m e n j) as [HD HD'].
  set (D := Z.pos (digits2_pos m) + e - (Z.pos (digits2_pos n) + j)) in *. rewrite fexp_eq in He'.
  set (x := (value (S754_finite false m e) / value (S754_finite false n j))%Q) in *.
  pose proof (new_location_located (Z.pos n) q r e' x ltac:(lia) Hr Hv) as Hloc.
  destruct (located_range _ _ _ _ Hloc) as [_ Hlt]. pose proof (pow2_pos e') as Hp.
  assert (∀ t, 0 ≤ t → e' + t ≤ D - 1 → 2 ^ t ≤ q) as Hq'.
  { intros t Ht He. apply (grid_le _ _ e' x); [|by rewrite inject_Z_plus in Hlt].
    rewrite pow2_Z, <-pow2_plus by done. apply Qlt_le_weak. eapply Qle_lt_trans; [|exact HD]. apply pow2_le. lia. }
  assert (-1022 < D + 1) as HD0.
  { destruct (Z.le_gt_cases (D + 1) (-1022)) as [Hle|?]; [|lia]. apply pow2_le in Hle. lra. }
  assert (1 ≤ q) as Hq1 by (apply (Hq' 0); lia).
  apply round_aux_spec; [lia|done| |done].
  destruct q as [|p|p]; [lia| |lia]. rewrite fexp_eq. cbn [Zdigits2].
  destruct (Z.le_gt_cases e' (-1074)); [lia|].
  pose proof (digits_ge p 52 (Hq' 52 ltac:(lia) ltac:(lia))). lia.
Qed.

(** ** Comparison and conversion *)
Lemma canonical_lt m e n j : bounded f64_prec f64_emax m e = true → bounded f64_prec f64_emax n j = true → e < j →
  (value (S754_finite false m e) < value (S754_finite false n j))%Q.
Proof.
  intros Hm Hn He. apply bounded_iff in Hm, Hn. destruct (value_range m e) as [_ H1], (value_range n j) as [H2 _].
  eapply Qlt_le_trans; [exact H1|]. etrans; [|exact H2]. apply pow2_le. lia.
Qed.
Lemma leb_spec x y : nonneg x → nonneg y → f64_leb x y = true ↔ (value x <= value y)%Q.
Proof.
  intros Hx Hy. unfold f64_leb, SFleb.
  destruct x as [sx| | |[] m e], y as [sy| | |[] n j]; try done.
  - pose proof (value_pos n j). cbn [SFcompare]. split; [intros _; cbn [value] in *; lra|done].
  - pose proof (value_pos m e). cbn [SFcompare]. split; [done|intros ?; cbn [value] in *; lra].
  - cbn [nonneg valid_binary SFcompare] in *. destruct (Z.compare_spec e j) as [->|He|He].
    + change (Pos.compare_cont Eq m n) with (m ?= n)%positive. pose proof (pow2_pos j) as Hp. cbn [value].
      rewrite (Qmult_le_r _ _ _ Hp), <-Zle_Qle. unfold Z.le.
      change (Z.pos m ?= Z.pos n) with (m ?= n)%positive. destruct (m ?= n)%positive; naive_solver.
    + pose proof (canonical_lt _ _ _ _ Hx Hy He). split; [intros _; lra|done].
    + pose proof (canonical_lt _ _ _ _ Hy Hx He). split; [done|intros ?; lra].
Qed.
Lemma floor_spec m e : let n := if 0 <=? e then Z.pos m * 2 ^ e else Z.pos m / 2 ^ (- e) in
  (inject_Z n <= value (S754_finite false m e) < inject_Z (n + 1))%Q.
Proof.
  assert (∀ z, inject_Z (z + 1) == inject_Z z + 1)%Q as Hs by (intros z; by rewrite inject_Z_plus).
  cbn [value]. destruct (Z.leb_spec 0 e) as [He|He].
  - rewrite Hs, inject_Z_mult, pow2_Z by done. split; lra.
  - set (d := 2 ^ (- e)). assert (0 < d) as Hd by (apply Z.pow_pos_nonneg; lia).
    assert (pow2 e * inject_Z d == 1)%Q as Hinv.
    { unfold d. rewrite pow2_Z, <-pow2_plus by lia. by rewrite Z.add_opp_diag_r. }
    assert (0 < inject_Z d)%Q as Hd' by (change 0%Q with (inject_Z 0); by rewrite <-Zlt_Qlt).
    assert (inject_Z (Z.pos m) * pow2 e * inject_Z d == inject_Z (Z.pos m))%Q as Hm by (rewrite <-Qmult_assoc, Hinv; ring).
    pose proof (Z.mul_div_le (Z.pos m) d Hd). pose proof (Z.mul_succ_div_gt (Z.pos m) d Hd).
    split; [apply (Qmult_le_r _ _ _ Hd')|apply (Qmult_lt_r _ _ _ Hd')]; rewrite Hm, <-inject_Z_mult;
      [rewrite <-Zle_Qle|rewrite <-Zlt_Qlt]; lia.
Qed.
Lemma to_uint_spec max x : nonneg x → 0 ≤ max → (value x < inject_Z max)%Q →
  (inject_Z (f64_to_uint max x) <= value x < inject_Z (f64_to_uint max x + 1))%Q.
Proof.
  intros Hx Hmax Hlt. destruct x as [sx| | |[] m e]; try done.
  pose proof (floor_spec m e) as [Hl Hu]. cbn [f64_to_uint]. set (n := if 0 <=? e then _ else _) in *.
  assert (n < max) by (rewrite Zlt_Qlt; eapply Qle_lt_trans; done).
  rewrite Z.min_r by lia. done.
Qed.
Lemma min_spec x y : nonneg x → nonneg y →
  nonneg (f64_min x y) ∧ (value (f64_min x y) <= value x)%Q ∧ (value (f64_min x y) <= value y)%Q
  ∧ ((value y <= value x)%Q → (value (f64_min x y) == value y)%Q)
  ∧ ((value x <= value y)%Q → (value (f64_min x y) == value x)%Q).
Proof.
  intros Hx Hy. assert (f64_min x y = if f64_leb x y then x else y) as ->.
  { by destruct x as [| | |[] ? ?], y as [| | |[] ? ?]. }
  destruct (f64_leb x y) eqn:E.
  - apply leb_spec in E; [|done..]. split_and!; [done|lra|done|intros ?; lra|intros _; lra].
  - assert (¬ (value x <= value y)%Q) as Hn by (rewrite <-leb_spec by done; by rewrite E).
    assert (value y < value x)%Q by lra. split_and!; [done|lra|lra|lra|lra].
Qed.
Lemma value_inj x y : nonneg x → nonneg y → (0 < value x)%Q → (value x == value y)%Q → x = y.
Proof.
  intros Hx Hy H0 Heq.
  destruct x as [sx| | |[] m e], y as [sy| | |[] n j]; try done; try (cbn [value] in *; lra).
  cbn [nonneg valid_binary] in Hx, Hy.
  destruct (Z.lt_trichotomy e j) as [He|[->|He]].
  - pose proof (canonical_lt _ _ _ _ Hx Hy He). lra.
  - cbn [value] in Heq. apply Qmult_inj_r in Heq; [|pose proof (pow2_pos j); lra].
    by injection (proj1 (inject_Z_injective _ _) Heq) as ->.
  - pose proof (canonical_lt _ _ _ _ Hy Hx He). lra.
Qed.

(** ** Bounds of the error that need no condition

    [ulp] is 2^-53, [tiny] 2^-100. *)
Definition ulp : Q := 1 # 9007199254740992.
Definition tiny : Q := 1 # 1267650600228229401496703205376.
Lemma rounded_near q x : rounded q x → (0 <= q → q * (1 - ulp) - tiny <= value x <= q * (1 + ulp) + tiny)%Q.
Proof.
  intros [Hn Ha Hb Hh Hl] Hq. assert (pow2 (-1022) <= tiny)%Q as Ht by by vm_compute.
  assert (0 < ulp < 1)%Q as Hu by by vm_compute.
  change (pow2 (-53)) with ulp in *.
  destruct (Qlt_le_dec q (pow2 (-1022))) as [H|H].
  - pose proof (value_nonneg x). assert (value x <= pow2 (-1022))%Q.
    { apply Hb; [|lra]. exists 1, (-1022). split_and!; [lia|lia|lia|]. by rewrite Qmult_1_l. }
    split; nra.
  - specialize (Hh H). specialize (Hl H). assert (0 < tiny)%Q by by vm_compute. split; lra.
Qed.
Lemma uint_representable n : 0 ≤ n ≤ 2 ^ 53 → representable (inject_Z n).
Proof. intros Hn. exists n, 0. split_and!; [lia|lia|lia|]. by rewrite Qmult_1_r. Qed.
Lemma uint_exact n : 0 ≤ n ≤ 2 ^ 53 → nonneg (f64_of_uint n) ∧ (value (f64_of_uint n) == inject_Z n)%Q.
Proof.
  intros Hn. destruct (of_uint_spec n) as [H1 Ha Hb _ _].
  { split; [lia|]. eapply Z.le_lt_trans; [apply Hn|]. by apply Z.pow_lt_mono_r. }
  pose proof (uint_representable n Hn) as Hr. split; [done|].
  apply Qle_antisym; [apply Hb|apply Ha]; auto using Qle_refl.
Qed.
End Rounding.
