(* ===== verification/BudgetCascade.v ===== *)
(** * Budget cascade

    [rust/crates/lean-ctx-workgraph/src/budget_cascade.rs]: the share of a
    parent's remaining tokens a delegated child receives, and the check of the
    resulting delegation chain. *)
From S2P Require Import Prelude Text Float64.
#[local] Open Scope Z_scope.

Definition DEFAULT_CHILD_FRACTION : f64 := f64_round 1 (-1).
Definition DEFAULT_MINIMUM_BUDGET : Z := 1000.
Definition DEFAULT_MAXIMUM_BUDGET : Z := 500000.
Definition MAX_CASCADE_DEPTH : Z := 5.

Record BudgetAllocation := {
  parent_budget_tokens : Z;
  parent_used_tokens : Z;
  child_fraction : f64;
  minimum_budget : Z;
  maximum_budget : Z;
}.

Definition BudgetAllocation_default : BudgetAllocation := {|
  parent_budget_tokens := 0;
  parent_used_tokens := 0;
  child_fraction := DEFAULT_CHILD_FRACTION;
  minimum_budget := DEFAULT_MINIMUM_BUDGET;
  maximum_budget := DEFAULT_MAXIMUM_BUDGET;
|}.

Record CascadedBudget := {
  allocated_tokens : Z;
  cascade_parent_remaining : Z;
  cascade_depth : Z;
  lineage : list string;
}.

Inductive CascadeError :=
| ZeroAllocation
| DepthLimitExceeded (depth maximum_depth : Z)
| LineageCycle (agent_id : string).

(** [impl fmt::Display for CascadeError] *)
Definition CascadeError_fmt (e : CascadeError) : string :=
  match e with
  | ZeroAllocation => "cascaded budget must be greater than zero"
  | DepthLimitExceeded depth maximum_depth =>
      "cascade depth " +:+ pretty depth +:+ " exceeds maximum depth " +:+ pretty maximum_depth
  | LineageCycle agent_id => "cascade lineage contains cycle at agent " +:+ agent_id
  end.

Definition cascade_budget (allocation : BudgetAllocation) : CascadedBudget :=
  let parent_remaining :=
    saturating_sub (parent_budget_tokens allocation) (parent_used_tokens allocation) in
  let fractional_budget :=
    f64_to_uint u64_max (f64_mul (f64_of_uint parent_remaining) (child_fraction allocation)) in
  let allocated_tokens :=
    Z.min (Z.max fractional_budget (minimum_budget allocation)) (maximum_budget allocation) in
  {| allocated_tokens := allocated_tokens;
     cascade_parent_remaining := parent_remaining;
     cascade_depth := 0;
     lineage := [] |}.

(** The first identifier of [lineage] that already occurred, if any: the loop
    over [seen.insert]. *)
Fixpoint first_repeat (seen : gset string) (l : list string) : option string :=
  match l with
  | [] => None
  | x :: tl => if bool_decide (x ∈ seen) then Some x else first_repeat ({[x]} ∪ seen) tl
  end.

Definition validate_cascade (b : CascadedBudget) : exec CascadeError () :=
  if allocated_tokens b =? 0 then Err ZeroAllocation
  else if MAX_CASCADE_DEPTH <? cascade_depth b
  then Err (DepthLimitExceeded (cascade_depth b) MAX_CASCADE_DEPTH)
  else match first_repeat ∅ (lineage b) with
       | Some agent_id => Err (LineageCycle agent_id)
       | None => Ok ()
       end.

(** ** Lemmas *)
Lemma first_repeat_None seen l :
  first_repeat seen l = None ↔ NoDup l ∧ ∀ x, x ∈ l → x ∉ seen.
Proof.
  revert seen. induction l as [|x l IH]; intros seen; cbn [first_repeat].
  - split; [|done]. intros _. split; [constructor|set_solver].
  - case_bool_decide as Hx; [set_solver|]. rewrite IH, NoDup_cons. set_solver.
Qed.


Lemma first_repeat_Some seen l x :
  first_repeat seen l = Some x →
  ∃ pre post, l = pre ++ x :: post ∧ NoDup pre ∧ (x ∈ pre ∨ x ∈ seen) ∧ ∀ y, y ∈ pre → y ∉ seen.
Proof.
  revert seen. induction l as [|y l IH]; intros seen; cbn [first_repeat]; [done|].
  case_bool_decide as Hy.
  - intros [= <-]. exists [], l. repeat split; [constructor|by right|set_solver].
  - intros (pre & post & -> & Hnd & Hx & Hpre)%IH. exists (y :: pre), post.
    repeat split; [|set_solver..]. apply NoDup_cons. set_solver.
Qed.

(** Every [as u64] conversion of the cascade stays in range, so the clamps
    around it are those of the configured bounds. *)
Lemma cascade_fraction_range a :
  in_range u64_max
    (f64_to_uint u64_max (f64_mul (f64_of_uint (cascade_parent_remaining (cascade_budget a)))
                            (child_fraction a))).
Proof. by apply f64_to_uint_range. Qed.

Lemma cascade_allocated_nonneg a :
  0 ≤ minimum_budget a → 0 ≤ maximum_budget a → 0 ≤ allocated_tokens (cascade_budget a).
Proof. intros. cbn. lia. Qed.

Lemma validate_cascade_total b : validate_cascade b ≠ Panic ∧ validate_cascade b ≠ Hang.
Proof.
  unfold validate_cascade. destruct (allocated_tokens b =? 0); [done|].
  destruct (MAX_CASCADE_DEPTH <? cascade_depth b); [done|]. by destruct (first_repeat _ _).
Qed.

Lemma validate_cascade_nonzero b u : validate_cascade b = Ok u → allocated_tokens b ≠ 0.
Proof. unfold validate_cascade. by destruct (Z.eqb_spec (allocated_tokens b) 0). Qed.

(** ** Properties *)

(** Whatever the fraction is (negative, above one, infinite or NaN), the
    child's allocation is between the smaller of the two configured bounds and
    the maximum, fits a [u64], and the recorded remainder is what the parent has
    left, never negative. *)
Theorem cascade_budget_bounds a :
  in_range u64_max (parent_budget_tokens a) →
  0 ≤ parent_used_tokens a →
  in_range u64_max (minimum_budget a) →
  in_range u64_max (maximum_budget a) →
  let b := cascade_budget a in
  Z.min (minimum_budget a) (maximum_budget a) ≤ allocated_tokens b ≤ maximum_budget a
  ∧ in_range u64_max (allocated_tokens b)
  ∧ in_range u64_max (cascade_parent_remaining b)
  ∧ cascade_parent_remaining b = Z.max 0 (parent_budget_tokens a - parent_used_tokens a).
Proof.
  unfold in_range, cascade_budget, saturating_sub; cbn.
  pose proof (cascade_fraction_range a) as Hf. unfold in_range in Hf. cbn in Hf.
  unfold saturating_sub in Hf. lia.
Qed.

(** A NaN fraction of 900 remaining tokens yields the configured minimum. *)
Lemma cascade_budget_bounds_witness :
  let a := {| parent_budget_tokens := 1000; parent_used_tokens := 100; child_fraction := S754_nan;
              minimum_budget := 10; maximum_budget := 400 |} in
  (Z.min 10 400 ≤ allocated_tokens (cascade_budget a) ≤ 400) ∧ allocated_tokens (cascade_budget a) = 10.
Proof.
  intros a. split; [|by vm_compute].
  apply (cascade_budget_bounds a); unfold in_range; cbn; unfold u64_max; lia.
Defined.

(** [validate_cascade] accepts exactly a non-zero allocation within the
    depth limit whose lineage repeats nobody, and each error names its cause:
    the repeated agent of [LineageCycle] is the first one that occurred
    before. *)
Theorem validate_cascade_spec b :
  match validate_cascade b with
  | Ok _ => allocated_tokens b ≠ 0 ∧ cascade_depth b ≤ MAX_CASCADE_DEPTH ∧ NoDup (lineage b)
  | Err ZeroAllocation => allocated_tokens b = 0
  | Err (DepthLimitExceeded depth maximum_depth) =>
      allocated_tokens b ≠ 0 ∧ depth = cascade_depth b ∧ maximum_depth = MAX_CASCADE_DEPTH
      ∧ maximum_depth < depth
  | Err (LineageCycle x) =>
      allocated_tokens b ≠ 0 ∧ cascade_depth b ≤ MAX_CASCADE_DEPTH
      ∧ ∃ pre post, lineage b = pre ++ x :: post ∧ NoDup pre ∧ x ∈ pre
  | Panic | Hang => False
  end.
Proof.
  unfold validate_cascade. destruct (Z.eqb_spec (allocated_tokens b) 0); [done|].
  destruct (Z.ltb_spec MAX_CASCADE_DEPTH (cascade_depth b)); [done|].
  destruct (first_repeat ∅ (lineage b)) as [x|] eqn:E.
  - apply first_repeat_Some in E as (pre & post & -> & Hnd & Hx & _).
    repeat split; [done..|]. exists pre, post. set_solver.
  - by apply first_repeat_None in E as [? _].
Qed.
