(* ===== verification/GraphModel.v ===== *)
(** * Work graph: data and validators

    [rust/crates/lean-ctx-workgraph/src/work_graph.rs]: the types the bounded
    work graph stores, the bounds it enforces, the checks every identifier,
    budget, receipt and path claim passes, and the errors it returns.  Fields
    keep the names of the Rust structs behind a prefix: [wn_] for [WorkNode],
    [rc_] for [ChildExecutionReceipt], [sp_] for [MeasuredExecutionSpend],
    [cb_] for [ChainBudget], [g_] for [BoundedWorkGraph]. *)
From S2P Require Import Prelude BTree Text Hashing Float64 BudgetCascade.
#[local] Open Scope Z_scope.

Definition WORK_GRAPH_SCHEMA_VERSION : Z := 1.
Definition MAX_DELIVERY_ATTEMPTS : Z := 2.
Definition MAX_GRAPH_NODES : Z := 256.
Definition MAX_FAN_OUT : Z := 16.
Definition MAX_DEPTH : Z := 8.
Definition MAX_LOCAL_CONCURRENCY : Z := 32.
Definition MAX_IDENTIFIER_BYTES : Z := 128.
Definition MAX_RESULT_CLAIMS : Z := 64.
Definition MAX_PATH_CLAIMS : Z := 64.

Definition default_local_concurrency : Z := MAX_FAN_OUT.

Inductive ChildOutcome := Accepted | Rejected | Partial.
#[export] Instance ChildOutcome_eq_dec : EqDecision ChildOutcome.
Proof. solve_decision. Defined.

Record ResultClaim := MkResultClaim {
  claim_key : string;
  claim_value : string;
}.
#[export] Instance ResultClaim_eq_dec : EqDecision ResultClaim.
Proof. solve_decision. Defined.

Inductive UsageSource := Measured | Reported.
#[export] Instance UsageSource_eq_dec : EqDecision UsageSource.
Proof. solve_decision. Defined.
Definition UsageSource_default : UsageSource := Measured.
(** [UsageSource::is_measured] *)
Definition is_measured (u : UsageSource) : bool := bool_decide (u = Measured).

Record ChildExecutionReceipt := MkReceipt {
  rc_receipt_id : string;
  rc_node_id : string;
  rc_outcome_ref : string;
  rc_outcome : ChildOutcome;
  rc_tokens_consumed : Z;
  rc_cost_micros_consumed : Z;
  rc_execution_fence : option string;
  rc_claims : list ResultClaim;
  rc_usage_source : UsageSource;
}.
#[export] Instance ChildExecutionReceipt_eq_dec : EqDecision ChildExecutionReceipt.
Proof. solve_decision. Defined.

Record MeasuredExecutionSpend := MkSpend {
  sp_spend_id : string;
  sp_node_id : string;
  sp_outcome_refs : list string;
  sp_tokens_consumed : Z;
  sp_cost_micros_consumed : Z;
  sp_execution_fence : string;
}.
#[export] Instance MeasuredExecutionSpend_eq_dec : EqDecision MeasuredExecutionSpend.
Proof. solve_decision. Defined.

Record ResultConflict := MkConflict {
  conflict_key : string;
  conflict_values : list string;
  conflict_node_ids : list string;
}.

Record FusedResults := MkFused {
  fused_accepted : gmap string string;
  fused_conflicts : list ResultConflict;
}.

Record WorkAttribution := MkAttribution {
  at_accepted_tokens : Z;
  at_accepted_cost_micros : Z;
  at_waste_tokens : Z;
  at_waste_cost_micros : Z;
}.

Record TeamValueReport := MkTeamValue {
  tv_accepted_tokens : Z;
  tv_total_tokens : Z;
  tv_accepted_cost_micros : Z;
  tv_total_cost_micros : Z;
  tv_waste_tokens : Z;
  tv_waste_cost_micros : Z;
  tv_accepted_cost_basis_points : Z;
}.

Inductive NodeStatus := Pending | Active | Completed | Stopped | Failed.
#[export] Instance NodeStatus_eq_dec : EqDecision NodeStatus.
Proof. solve_decision. Defined.

Inductive StopReason :=
| BudgetExhausted | Stale | Redundant | ParentStopped | ManualStop | DepthExceededStop
| FanOutExceededStop | PolicyDenied | LeaseLost | DuplicateStop | LowValue | ExecutionFailed.
#[export] Instance StopReason_eq_dec : EqDecision StopReason.
Proof. solve_decision. Defined.

Record WorkNodeBudget := MkBudget {
  tokens_allocated : Z;
  tokens_consumed : Z;
  cost_micros_allocated : Z;
  cost_micros_consumed : Z;
}.
#[export] Instance WorkNodeBudget_eq_dec : EqDecision WorkNodeBudget.
Proof. solve_decision. Defined.

(** [WorkNodeBudget::tokens_remaining], [cost_remaining], [is_exhausted] *)
Definition tokens_remaining (b : WorkNodeBudget) : Z :=
  saturating_sub (tokens_allocated b) (tokens_consumed b).
Definition cost_remaining (b : WorkNodeBudget) : Z :=
  saturating_sub (cost_micros_allocated b) (cost_micros_consumed b).
Definition is_exhausted (b : WorkNodeBudget) : bool :=
  (tokens_remaining b =? 0) || (cost_remaining b =? 0).

(** The literal [WorkNodeBudget { 0, 0, 0, 0 }] of the source's defaults. *)
Definition zero_budget : WorkNodeBudget := MkBudget 0 0 0 0.

Record ChainBudget := MkChainBudget {
  cb_chain_id : string;
  cb_root_budget_tokens : Z;
  cb_total_consumed_tokens : Z;
  cb_total_allocated_tokens : Z;
  cb_root_budget_cost_micros : Z;
  cb_total_consumed_cost_micros : Z;
  cb_total_allocated_cost_micros : Z;
  cb_unauthorized_tokens : Z;
  cb_unauthorized_cost_micros : Z;
  cb_depth : Z;
}.
#[export] Instance ChainBudget_eq_dec : EqDecision ChainBudget.
Proof. solve_decision. Defined.

Definition set_cb_total_consumed_tokens (x : Z) (r : ChainBudget) : ChainBudget :=
  MkChainBudget
  (cb_chain_id r) (cb_root_budget_tokens r) x (cb_total_allocated_tokens r)
    (cb_root_budget_cost_micros r) (cb_total_consumed_cost_micros r)
    (cb_total_allocated_cost_micros r) (cb_unauthorized_tokens r)
    (cb_unauthorized_cost_micros r) (cb_depth r).
Definition set_cb_total_allocated_tokens (x : Z) (r : ChainBudget) : ChainBudget :=
  MkChainBudget
  (cb_chain_id r) (cb_root_budget_tokens r) (cb_total_consumed_tokens r) x
    (cb_root_budget_cost_micros r) (cb_total_consumed_cost_micros r)
    (cb_total_allocated_cost_micros r) (cb_unauthorized_tokens r)
    (cb_unauthorized_cost_micros r) (cb_depth r).
Definition set_cb_total_consumed_cost_micros (x : Z) (r : ChainBudget) : ChainBudget :=
  MkChainBudget
  (cb_chain_id r) (cb_root_budget_tokens r) (cb_total_consumed_tokens r)
    (cb_total_allocated_tokens r) (cb_root_budget_cost_micros r) x
    (cb_total_allocated_cost_micros r) (cb_unauthorized_tokens r)
    (cb_unauthorized_cost_micros r) (cb_depth r).
Definition set_cb_total_allocated_cost_micros (x : Z) (r : ChainBudget) : ChainBudget :=
  MkChainBudget
  (cb_chain_id r) (cb_root_budget_tokens r) (cb_total_consumed_tokens r)
    (cb_total_allocated_tokens r) (cb_root_budget_cost_micros r)
    (cb_total_consumed_cost_micros r) x (cb_unauthorized_tokens r)
    (cb_unauthorized_cost_micros r) (cb_depth r).
Definition set_cb_unauthorized_tokens (x : Z) (r : ChainBudget) : ChainBudget :=
  MkChainBudget
  (cb_chain_id r) (cb_root_budget_tokens r) (cb_total_consumed_tokens r)
    (cb_total_allocated_tokens r) (cb_root_budget_cost_micros r)
    (cb_total_consumed_cost_micros r) (cb_total_allocated_cost_micros r) x
    (cb_unauthorized_cost_micros r) (cb_depth r).
Definition set_cb_unauthorized_cost_micros (x : Z) (r : ChainBudget) : ChainBudget :=
  MkChainBudget
  (cb_chain_id r) (cb_root_budget_tokens r) (cb_total_consumed_tokens r)
    (cb_total_allocated_tokens r) (cb_root_budget_cost_micros r)
    (cb_total_consumed_cost_micros r) (cb_total_allocated_cost_micros r)
    (cb_unauthorized_tokens r) x (cb_depth r).
Definition set_cb_depth (x : Z) (r : ChainBudget) : ChainBudget :=
  MkChainBudget
  (cb_chain_id r) (cb_root_budget_tokens r) (cb_total_consumed_tokens r)
    (cb_total_allocated_tokens r) (cb_root_budget_cost_micros r)
    (cb_total_consumed_cost_micros r) (cb_total_allocated_cost_micros r)
    (cb_unauthorized_tokens r) (cb_unauthorized_cost_micros r) x.

(** [ChainBudget::remaining] *)
Definition chain_remaining (c : ChainBudget) : Z :=
  saturating_sub (saturating_sub (cb_root_budget_tokens c) (cb_total_consumed_tokens c))
    (cb_unauthorized_tokens c).

(** [ChainBudget::utilization_pct] *)
Definition utilization_pct (c : ChainBudget) : f64 :=
  if cb_root_budget_tokens c =? 0 then f64_round 0 0
  else
    f64_mul
      (f64_div
         (f64_of_uint
            (saturating_add u64_max (cb_total_consumed_tokens c) (cb_unauthorized_tokens c)))
         (f64_of_uint (cb_root_budget_tokens c)))
      (f64_round 100 0).

Record WorkNode := MkWorkNode {
  wn_node_id : string;
  wn_agent_id : string;
  wn_parent_node_id : option string;
  wn_capsule_ref : string;
  wn_status : NodeStatus;
  wn_budget : WorkNodeBudget;
  wn_depth : Z;
  wn_stop_reason : option StopReason;
  wn_outcome_ref : option string;
  wn_claim_attempt : Z;
  wn_delivery_attempt : option Z;
  wn_execution_fence : option string;
  wn_lease_expires_epoch_ms : option Z;
  wn_path_claims : list string;
  wn_task_ref : string;
  wn_parent_task_ref : option string;
  wn_policy_ref : string;
  wn_expected_outcome_ref : string;
  wn_execution_started : bool;
}.
#[export] Instance WorkNode_eq_dec : EqDecision WorkNode.
Proof. solve_decision. Defined.

Definition set_wn_status (x : NodeStatus) (r : WorkNode) : WorkNode :=
  MkWorkNode
  (wn_node_id r) (wn_agent_id r) (wn_parent_node_id r) (wn_capsule_ref r) x (wn_budget r)
    (wn_depth r) (wn_stop_reason r) (wn_outcome_ref r) (wn_claim_attempt r)
    (wn_delivery_attempt r) (wn_execution_fence r) (wn_lease_expires_epoch_ms r)
    (wn_path_claims r) (wn_task_ref r) (wn_parent_task_ref r) (wn_policy_ref r)
    (wn_expected_outcome_ref r) (wn_execution_started r).
Definition set_wn_budget (x : WorkNodeBudget) (r : WorkNode) : WorkNode :=
  MkWorkNode
  (wn_node_id r) (wn_agent_id r) (wn_parent_node_id r) (wn_capsule_ref r) (wn_status r) x
    (wn_depth r) (wn_stop_reason r) (wn_outcome_ref r) (wn_claim_attempt r)
    (wn_delivery_attempt r) (wn_execution_fence r) (wn_lease_expires_epoch_ms r)
    (wn_path_claims r) (wn_task_ref r) (wn_parent_task_ref r) (wn_policy_ref r)
    (wn_expected_outcome_ref r) (wn_execution_started r).
Definition set_wn_stop_reason (x : option StopReason) (r : WorkNode) : WorkNode :=
  MkWorkNode
  (wn_node_id r) (wn_agent_id r) (wn_parent_node_id r) (wn_capsule_ref r) (wn_status r)
    (wn_budget r) (wn_depth r) x (wn_outcome_ref r) (wn_claim_attempt r)
    (wn_delivery_attempt r) (wn_execution_fence r) (wn_lease_expires_epoch_ms r)
    (wn_path_claims r) (wn_task_ref r) (wn_parent_task_ref r) (wn_policy_ref r)
    (wn_expected_outcome_ref r) (wn_execution_started r).
Definition set_wn_outcome_ref (x : option string) (r : WorkNode) : WorkNode :=
  MkWorkNode
  (wn_node_id r) (wn_agent_id r) (wn_parent_node_id r) (wn_capsule_ref r) (wn_status r)
    (wn_budget r) (wn_depth r) (wn_stop_reason r) x (wn_claim_attempt r)
    (wn_delivery_attempt r) (wn_execution_fence r) (wn_lease_expires_epoch_ms r)
    (wn_path_claims r) (wn_task_ref r) (wn_parent_task_ref r) (wn_policy_ref r)
    (wn_expected_outcome_ref r) (wn_execution_started r).
Definition set_wn_claim_attempt (x : Z) (r : WorkNode) : WorkNode :=
  MkWorkNode
  (wn_node_id r) (wn_agent_id r) (wn_parent_node_id r) (wn_capsule_ref r) (wn_status r)
    (wn_budget r) (wn_depth r) (wn_stop_reason r) (wn_outcome_ref r) x
    (wn_delivery_attempt r) (wn_execution_fence r) (wn_lease_expires_epoch_ms r)
    (wn_path_claims r) (wn_task_ref r) (wn_parent_task_ref r) (wn_policy_ref r)
    (wn_expected_outcome_ref r) (wn_execution_started r).
Definition set_wn_delivery_attempt (x : option Z) (r : WorkNode) : WorkNode :=
  MkWorkNode
  (wn_node_id r) (wn_agent_id r) (wn_parent_node_id r) (wn_capsule_ref r) (wn_status r)
    (wn_budget r) (wn_depth r) (wn_stop_reason r) (wn_outcome_ref r) (wn_claim_attempt r)
    x (wn_execution_fence r) (wn_lease_expires_epoch_ms r) (wn_path_claims r) (wn_task_ref
    r) (wn_parent_task_ref r) (wn_policy_ref r) (wn_expected_outcome_ref r)
    (wn_execution_started r).
Definition set_wn_execution_fence (x : option string) (r : WorkNode) : WorkNode :=
  MkWorkNode
  (wn_node_id r) (wn_agent_id r) (wn_parent_node_id r) (wn_capsule_ref r) (wn_status r)
    (wn_budget r) (wn_depth r) (wn_stop_reason r) (wn_outcome_ref r) (wn_claim_attempt r)
    (wn_delivery_attempt r) x (wn_lease_expires_epoch_ms r) (wn_path_claims r)
    (wn_task_ref r) (wn_parent_task_ref r) (wn_policy_ref r) (wn_expected_outcome_ref r)
    (wn_execution_started r).
Definition set_wn_lease_expires_epoch_ms (x : option Z) (r : WorkNode) : WorkNode :=
  MkWorkNode
  (wn_node_id r) (wn_agent_id r) (wn_parent_node_id r) (wn_capsule_ref r) (wn_status r)
    (wn_budget r) (wn_depth r) (wn_stop_reason r) (wn_outcome_ref r) (wn_claim_attempt r)
    (wn_delivery_attempt r) (wn_execution_fence r) x (wn_path_claims r) (wn_task_ref r)
    (wn_parent_task_ref r) (wn_policy_ref r) (wn_expected_outcome_ref r)
    (wn_execution_started r).
Definition set_wn_path_claims (x : list string) (r : WorkNode) : WorkNode :=
  MkWorkNode
  (wn_node_id r) (wn_agent_id r) (wn_parent_node_id r) (wn_capsule_ref r) (wn_status r)
    (wn_budget r) (wn_depth r) (wn_stop_reason r) (wn_outcome_ref r) (wn_claim_attempt r)
    (wn_delivery_attempt r) (wn_execution_fence r) (wn_lease_expires_epoch_ms r) x
    (wn_task_ref r) (wn_parent_task_ref r) (wn_policy_ref r) (wn_expected_outcome_ref r)
    (wn_execution_started r).
Definition set_wn_task_ref (x : string) (r : WorkNode) : WorkNode :=
  MkWorkNode
  (wn_node_id r) (wn_agent_id r) (wn_parent_node_id r) (wn_capsule_ref r) (wn_status r)
    (wn_budget r) (wn_depth r) (wn_stop_reason r) (wn_outcome_ref r) (wn_claim_attempt r)
    (wn_delivery_attempt r) (wn_execution_fence r) (wn_lease_expires_epoch_ms r)
    (wn_path_claims r) x (wn_parent_task_ref r) (wn_policy_ref r) (wn_expected_outcome_ref
    r) (wn_execution_started r).
Definition set_wn_parent_task_ref (x : option string) (r : WorkNode) : WorkNode :=
  MkWorkNode
  (wn_node_id r) (wn_agent_id r) (wn_parent_node_id r) (wn_capsule_ref r) (wn_status r)
    (wn_budget r) (wn_depth r) (wn_stop_reason r) (wn_outcome_ref r) (wn_claim_attempt r)
    (wn_delivery_attempt r) (wn_execution_fence r) (wn_lease_expires_epoch_ms r)
    (wn_path_claims r) (wn_task_ref r) x (wn_policy_ref r) (wn_expected_outcome_ref r)
    (wn_execution_started r).
Definition set_wn_policy_ref (x : string) (r : WorkNode) : WorkNode :=
  MkWorkNode
  (wn_node_id r) (wn_agent_id r) (wn_parent_node_id r) (wn_capsule_ref r) (wn_status r)
    (wn_budget r) (wn_depth r) (wn_stop_reason r) (wn_outcome_ref r) (wn_claim_attempt r)
    (wn_delivery_attempt r) (wn_execution_fence r) (wn_lease_expires_epoch_ms r)
    (wn_path_claims r) (wn_task_ref r) (wn_parent_task_ref r) x (wn_expected_outcome_ref
    r) (wn_execution_started r).
Definition set_wn_expected_outcome_ref (x : string) (r : WorkNode) : WorkNode :=
  MkWorkNode
  (wn_node_id r) (wn_agent_id r) (wn_parent_node_id r) (wn_capsule_ref r) (wn_status r)
    (wn_budget r) (wn_depth r) (wn_stop_reason r) (wn_outcome_ref r) (wn_claim_attempt r)
    (wn_delivery_attempt r) (wn_execution_fence r) (wn_lease_expires_epoch_ms r)
    (wn_path_claims r) (wn_task_ref r) (wn_parent_task_ref r) (wn_policy_ref r) x
    (wn_execution_started r).
Definition set_wn_execution_started (x : bool) (r : WorkNode) : WorkNode :=
  MkWorkNode
  (wn_node_id r) (wn_agent_id r) (wn_parent_node_id r) (wn_capsule_ref r) (wn_status r)
    (wn_budget r) (wn_depth r) (wn_stop_reason r) (wn_outcome_ref r) (wn_claim_attempt r)
    (wn_delivery_attempt r) (wn_execution_fence r) (wn_lease_expires_epoch_ms r)
    (wn_path_claims r) (wn_task_ref r) (wn_parent_task_ref r) (wn_policy_ref r)
    (wn_expected_outcome_ref r) x.

Record BoundedWorkGraph := MkGraph {
  g_graph_id : string;
  g_nodes : gmap string WorkNode;
  g_children : gmap string (list string);
  g_chain_budgets : gmap string ChainBudget;
  g_pending_child_budgets : gmap string WorkNodeBudget;
  g_pending_child_parents : gmap string string;
  g_receipts : gmap string ChildExecutionReceipt;
  g_failed_spend : gmap string MeasuredExecutionSpend;
  g_reaped_executions : gmap string string;
  g_accepted_path : gset string;
  g_max_local_concurrency : Z;
  g_max_fan_out : Z;
  g_max_depth : Z;
}.

Definition set_g_graph_id (x : string) (r : BoundedWorkGraph) : BoundedWorkGraph :=
  MkGraph
  x (g_nodes r) (g_children r) (g_chain_budgets r) (g_pending_child_budgets r)
    (g_pending_child_parents r) (g_receipts r) (g_failed_spend r) (g_reaped_executions r)
    (g_accepted_path r) (g_max_local_concurrency r) (g_max_fan_out r) (g_max_depth r).
Definition set_g_nodes (x : gmap string WorkNode) (r : BoundedWorkGraph) : BoundedWorkGraph :=
  MkGraph
  (g_graph_id r) x (g_children r) (g_chain_budgets r) (g_pending_child_budgets r)
    (g_pending_child_parents r) (g_receipts r) (g_failed_spend r) (g_reaped_executions r)
    (g_accepted_path r) (g_max_local_concurrency r) (g_max_fan_out r) (g_max_depth r).
Definition set_g_children (x : gmap string (list string)) (r : BoundedWorkGraph) : BoundedWorkGraph :=
  MkGraph
  (g_graph_id r) (g_nodes r) x (g_chain_budgets r) (g_pending_child_budgets r)
    (g_pending_child_parents r) (g_receipts r) (g_failed_spend r) (g_reaped_executions r)
    (g_accepted_path r) (g_max_local_concurrency r) (g_max_fan_out r) (g_max_depth r).
Definition set_g_chain_budgets (x : gmap string ChainBudget) (r : BoundedWorkGraph) : BoundedWorkGraph :=
  MkGraph
  (g_graph_id r) (g_nodes r) (g_children r) x (g_pending_child_budgets r)
    (g_pending_child_parents r) (g_receipts r) (g_failed_spend r) (g_reaped_executions r)
    (g_accepted_path r) (g_max_local_concurrency r) (g_max_fan_out r) (g_max_depth r).
Definition set_g_pending_child_budgets (x : gmap string WorkNodeBudget) (r : BoundedWorkGraph) : BoundedWorkGraph :=
  MkGraph
  (g_graph_id r) (g_nodes r) (g_children r) (g_chain_budgets r) x (g_pending_child_parents
    r) (g_receipts r) (g_failed_spend r) (g_reaped_executions r) (g_accepted_path r)
    (g_max_local_concurrency r) (g_max_fan_out r) (g_max_depth r).
Definition set_g_pending_child_parents (x : gmap string string) (r : BoundedWorkGraph) : BoundedWorkGraph :=
  MkGraph
  (g_graph_id r) (g_nodes r) (g_children r) (g_chain_budgets r) (g_pending_child_budgets
    r) x (g_receipts r) (g_failed_spend r) (g_reaped_executions r) (g_accepted_path r)
    (g_max_local_concurrency r) (g_max_fan_out r) (g_max_depth r).
Definition set_g_receipts (x : gmap string ChildExecutionReceipt) (r : BoundedWorkGraph) : BoundedWorkGraph :=
  MkGraph
  (g_graph_id r) (g_nodes r) (g_children r) (g_chain_budgets r) (g_pending_child_budgets
    r) (g_pending_child_parents r) x (g_failed_spend r) (g_reaped_executions r)
    (g_accepted_path r) (g_max_local_concurrency r) (g_max_fan_out r) (g_max_depth r).
Definition set_g_reaped_executions (x : gmap string string) (r : BoundedWorkGraph) : BoundedWorkGraph :=
  MkGraph
  (g_graph_id r) (g_nodes r) (g_children r) (g_chain_budgets r) (g_pending_child_budgets
    r) (g_pending_child_parents r) (g_receipts r) (g_failed_spend r) x (g_accepted_path r)
    (g_max_local_concurrency r) (g_max_fan_out r) (g_max_depth r).
Definition set_g_accepted_path (x : gset string) (r : BoundedWorkGraph) : BoundedWorkGraph :=
  MkGraph
  (g_graph_id r) (g_nodes r) (g_children r) (g_chain_budgets r) (g_pending_child_budgets
    r) (g_pending_child_parents r) (g_receipts r) (g_failed_spend r) (g_reaped_executions
    r) x (g_max_local_concurrency r) (g_max_fan_out r) (g_max_depth r).
Definition set_g_max_local_concurrency (x : Z) (r : BoundedWorkGraph) : BoundedWorkGraph :=
  MkGraph
  (g_graph_id r) (g_nodes r) (g_children r) (g_chain_budgets r) (g_pending_child_budgets
    r) (g_pending_child_parents r) (g_receipts r) (g_failed_spend r) (g_reaped_executions
    r) (g_accepted_path r) x (g_max_fan_out r) (g_max_depth r).
Definition set_g_failed_spend (x : gmap string MeasuredExecutionSpend) (r : BoundedWorkGraph) : BoundedWorkGraph :=
  MkGraph
  (g_graph_id r) (g_nodes r) (g_children r) (g_chain_budgets r) (g_pending_child_budgets
    r) (g_pending_child_parents r) (g_receipts r) x (g_reaped_executions r)
    (g_accepted_path r) (g_max_local_concurrency r) (g_max_fan_out r) (g_max_depth r).

Inductive WorkGraphError :=
| CapacityExceeded
| DuplicateNode (id : string)
| NodeNotFound (id : string)
| ParentNotActive (id : string)
| DepthExceeded (max : Z)
| FanOutExceeded (max : Z)
| BudgetExceedsParent (child_requested parent_remaining : Z)
| InvalidTransition (id : string)
| LocalConcurrencyExceeded (max : Z)
| InvalidIdentifier (field : string)
| InvalidBudget
| DuplicateReceipt (id : string)
| ReceiptExceedsBudget (id : string)
| MissingReceipt (id : string)
| RejectedAcceptedPath (id : string)
| TooManyClaims
| TooManyPathClaims
| InvalidPathClaim
| DuplicateClaim (key : string)
| Overflow
| StaleExecutionFence (id : string)
| InvalidGraph (why : string)
| Cascade (e : CascadeError).

Notation result := (exec WorkGraphError).
Notation graph_op := (op BoundedWorkGraph WorkGraphError).

(** [collection.len()] *)
Definition vec_len {A : Type} (l : list A) : Z := Z.of_nat (length l).
Definition map_len {A : Type} (m : gmap string A) : Z := Z.of_nat (size m).
(** [map.contains_key(&k)] and [option.is_some()] *)
Definition is_some {A : Type} (o : option A) : bool := match o with Some _ => true | None => false end.
Definition is_none {A : Type} (o : option A) : bool := negb (is_some o).
Definition contains_key {A : Type} (m : gmap string A) (k : string) : bool := is_some (m !! k).

Definition u64_add (x y : Z) : result Z := ok_or (checked_add u64_max x y) Overflow.

Definition validate_identifier (value field : string) : result () :=
  reject_if (str_is_empty value || (MAX_IDENTIFIER_BYTES <? str_len value) || has_control value)
    (InvalidIdentifier field).

Definition validate_budget (b : WorkNodeBudget) : result () :=
  reject_if ((tokens_allocated b <? tokens_consumed b)
             || (cost_micros_allocated b <? cost_micros_consumed b)) InvalidBudget.

(** [fence.len() == 70 && fence.starts_with("fence:") && fence[6..]] all
    lower-case hexadecimal. *)
Definition well_formed_fence (fence : string) : bool :=
  (str_len fence =? 70) && starts_with fence "fence:"
  && all_bytes is_lower_hex (drop_bytes 6 fence).

(** The loop of [validate_receipt] over the claims, with its set of keys. *)
Fixpoint validate_claims (keys : gset string) (claims : list ResultClaim) : result () :=
  match claims with
  | [] => Ok ()
  | claim :: rest =>
      validate_identifier (claim_key claim) "claim_key";;
      validate_identifier (claim_value claim) "claim_value";;
      reject_if (bool_decide (claim_key claim ∈ keys)) (DuplicateClaim (claim_key claim));;
      validate_claims ({[claim_key claim]} ∪ keys) rest
  end.

Definition validate_receipt (receipt : ChildExecutionReceipt) : result () :=
  validate_identifier (rc_receipt_id receipt) "receipt_id";;
  validate_identifier (rc_node_id receipt) "node_id";;
  validate_identifier (rc_outcome_ref receipt) "outcome_ref";;
  reject_if
    (match rc_execution_fence receipt with
     | Some fence => negb (well_formed_fence fence)
     | None => false
     end) (InvalidIdentifier "execution_fence");;
  reject_if (MAX_RESULT_CLAIMS <? vec_len (rc_claims receipt)) TooManyClaims;;
  validate_claims ∅ (rc_claims receipt).

Definition validate_path_claim (value : string) : result () :=
  relative ← ok_or (strip_prefix "path:" value) InvalidPathClaim;
  reject_if
    (str_is_empty relative
     || (1024 <? str_len relative)
     || starts_with relative "/"
     || starts_with relative "\"
     || any (λ part, str_is_empty part || bool_decide (part = ".") || bool_decide (part = ".."))
          (split_on (λ c, byte_in 47 47 c || byte_in 92 92 c) relative)
     || has_control relative) InvalidPathClaim.

Definition path_claims_overlap (left right : string) : bool :=
  bool_decide (left = right)
  || match strip_prefix right left with Some suffix => starts_with suffix "/" | None => false end
  || match strip_prefix left right with Some suffix => starts_with suffix "/" | None => false end.

(** The byte 0 that separates the fields of hashed material. *)
Definition NUL : string := String Ascii.zero EmptyString.

Section hashing.
Context `{Blake3}.

Definition execution_fence (graph_id : string) (node : WorkNode) : string :=
  let material :=
    graph_id +:+ NUL +:+ wn_node_id node +:+ NUL +:+ wn_agent_id node +:+ NUL
    +:+ wn_capsule_ref node +:+ NUL +:+ pretty (wn_claim_attempt node) in
  "fence:" +:+ blake3_hex material.

Definition measured_spend_id (outcome_refs : list string) : string :=
  "spend:" +:+ blake3_hex (join NUL outcome_refs).

(** [MeasuredExecutionSpend::new] *)
Definition MeasuredExecutionSpend_new (node_id : string) (outcome_refs : list string)
    (tokens_consumed cost_micros_consumed : Z) (fence : string) : MeasuredExecutionSpend :=
  MkSpend (measured_spend_id outcome_refs) node_id outcome_refs
    tokens_consumed cost_micros_consumed fence.

(** The loop of [validate_measured_spend] over the receipts it references. *)
Fixpoint validate_outcome_refs (seen : gset string) (refs : list string) : result () :=
  match refs with
  | [] => Ok ()
  | outcome_ref :: rest =>
      validate_identifier outcome_ref "outcome_ref";;
      digest ← ok_or
        (match strip_prefix "id:sha256:" outcome_ref with
         | Some digest =>
             if (str_len digest =? 64) && all_bytes is_lower_hex digest then Some digest else None
         | None => None
         end) (InvalidIdentifier "outcome_ref");
      reject_if (bool_decide (digest ∈ seen)) (InvalidGraph "duplicate failed spend receipt");;
      validate_outcome_refs ({[digest]} ∪ seen) rest
  end.

Definition validate_measured_spend (spend : MeasuredExecutionSpend) : result () :=
  validate_identifier (sp_spend_id spend) "spend_id";;
  validate_identifier (sp_node_id spend) "node_id";;
  reject_if ((vec_len (sp_outcome_refs spend) =? 0) || (2 <? vec_len (sp_outcome_refs spend)))
    (InvalidGraph "failed spend must reference one or two receipts");;
  validate_outcome_refs ∅ (sp_outcome_refs spend);;
  reject_if (bool_decide (sp_spend_id spend ≠ measured_spend_id (sp_outcome_refs spend)))
    (InvalidIdentifier "spend_id");;
  reject_if (negb (well_formed_fence (sp_execution_fence spend)))
    (InvalidIdentifier "execution_fence").
End hashing.

(** [self.nodes.get_mut(&id)] followed by assignments through the reference. *)
Definition update_node (id : string) (f : WorkNode → WorkNode) (g : BoundedWorkGraph) :
    BoundedWorkGraph :=
  set_g_nodes (alter f id (g_nodes g)) g.

(** ** Path claims *)

Definition is_separator (c : Ascii.ascii) : bool := byte_in 47 47 c || byte_in 92 92 c.

(** A claim covers another one when they are equal or the other lies in the
    directory it names. *)
Definition covers (dir claim : string) : Prop := claim = dir ∨ ∃ rest, claim = dir +:+ "/" +:+ rest.

Lemma covers_dec dir claim :
  bool_decide (claim = dir)
  || match strip_prefix dir claim with Some suffix => starts_with suffix "/" | None => false end
    = true ↔ covers dir claim.
Proof.
  unfold covers. rewrite orb_true_iff, bool_decide_eq_true.
  destruct (strip_prefix dir claim) as [suffix|] eqn:E.
  - apply strip_prefix_Some in E as ->. rewrite starts_with_spec. split.
    + intros [?|[r ->]]; eauto.
    + intros [?|[r Hr]]; [by left|]. right. exists r.
      apply (f_equal (drop_bytes (String.length dir))) in Hr. by rewrite !drop_bytes_app in Hr.
  - split; [naive_solver|]. intros [?|[r Hr]]; [by left|].
    apply strip_prefix_Some in Hr. congruence.
Qed.

(** ** Properties *)

(** Two claims overlap exactly when one of them covers the other: they
    are equal, or one is a path inside the directory the other names.  A claim
    on [path:src/a] does not overlap [path:src/ab]. *)
Theorem path_claims_overlap_spec left right :
  path_claims_overlap left right = true ↔ covers left right ∨ covers right left.
Proof.
  rewrite <-!covers_dec. unfold path_claims_overlap.
  rewrite !orb_true_iff, !bool_decide_eq_true. naive_solver.
Qed.

(** A claim passes [validate_path_claim] exactly when it is [path:]
    followed by a relative path of at most 1024 bytes without control
    characters none of whose components, split at slashes and backslashes, is
    empty, [.] or [..]; so no accepted claim is absolute or leaves the tree. *)
Theorem validate_path_claim_spec value :
  validate_path_claim value = Ok () ↔
  ∃ relative, value = "path:" +:+ relative
    ∧ str_len relative ≤ 1024 ∧ has_control relative = false
    ∧ ∀ part, part ∈ split_on is_separator relative → part ≠ "" ∧ part ≠ "." ∧ part ≠ "..".
Proof.
  unfold validate_path_claim. rewrite exec_bind_Ok. setoid_rewrite ok_or_Ok.
  setoid_rewrite strip_prefix_Some. setoid_rewrite reject_if_Ok. fold is_separator.
  split; intros (rel & -> & H); exists rel; (split; [done|]).
  - repeat setoid_rewrite orb_false_iff in H. destruct H as [[[[[_ H1] _] _] H2] H3].
    split; [lia|]. split; [done|]. intros part Hp. eapply any_false in H2; [|done].
    rewrite !orb_false_iff, str_is_empty_false, !bool_decide_eq_false in H2. naive_solver.
  - destruct H as (H1 & H2 & H3).
    assert (any (λ part, str_is_empty part || bool_decide (part = ".") || bool_decide (part = ".."))
              (split_on is_separator rel) = false) as ->.
    { apply any_false. intros part (? & ? & ?)%H3.
      by rewrite !orb_false_iff, str_is_empty_false, !bool_decide_eq_false. }
    assert (str_is_empty rel = false) as ->.
    { apply str_is_empty_false. intros ->. specialize (H3 ""). set_solver. }
    assert (1024 <? str_len rel = false) as -> by lia. rewrite H2. cbn.
    assert (∀ c, is_separator c = true → starts_with rel (String c "") = false) as Hs.
    { intros c Hc. apply not_true_iff_false. intros [r ->]%starts_with_spec.
      change (String c "" +:+ r) with (String c r) in H3. cbn in H3. rewrite Hc in H3.
      specialize (H3 ""). set_solver. }
    by rewrite !Hs.
Qed.
