(* ===== verification/ControlOps.v ===== *)
(** * Work graph: validation, budgets and stop cascades

    [rust/crates/lean-ctx-workgraph/src/work_graph/control_ops.rs].  Loops that
    walk parent links or child lists take fuel: the number of nodes bounds the
    walks of an acyclic graph, and [GraphLineage] proves the bounds
    sufficient. *)
From S2P Require Import Prelude BTree Text Hashing Float64 BudgetCascade GraphModel.
#[local] Open Scope Z_scope.

(** ** Reads *)
Definition local_concurrency_limit (g : BoundedWorkGraph) : Z :=
  clamp (g_max_local_concurrency g) 1 MAX_LOCAL_CONCURRENCY.

Definition active_count (g : BoundedWorkGraph) : Z :=
  vec_len (filter (λ n, wn_status n = Active) (bt_values (g_nodes g))).

Definition total_count (g : BoundedWorkGraph) : Z := map_len (g_nodes g).

Definition get_node (g : BoundedWorkGraph) (node_id : string) : option WorkNode :=
  g_nodes g !! node_id.

Definition contains_agent (g : BoundedWorkGraph) (agent_id : string) : bool :=
  any (λ node, bool_decide (wn_agent_id node = agent_id)) (bt_values (g_nodes g)).

Definition children_of (g : BoundedWorkGraph) (node_id : string) : list string :=
  default [] (g_children g !! node_id).

Definition execution_exit_unconfirmed (node : WorkNode) : bool :=
  wn_execution_started node && bool_decide (wn_status node = Active).

Definition has_live_path_conflict (g : BoundedWorkGraph) (requested : list string)
    (now_epoch_ms : Z) (except_node_id : option string) : bool :=
  any (λ node,
    negb (bool_decide (Some (wn_node_id node) = except_node_id))
    && (execution_exit_unconfirmed node
        || (wn_execution_started node
            && bool_decide (wn_status node = Stopped)
            && match wn_lease_expires_epoch_ms node with
               | Some expires => now_epoch_ms <? expires
               | None => false
               end))
    && any (λ held, any (λ claim, path_claims_overlap held claim) requested)
         (wn_path_claims node))
    (bt_values (g_nodes g)).

(** ** Parent walks *)

(** The [while let Some(parent_id)] loop of [chain_id_for_node]. *)
Fixpoint chain_id_loop (fuel : nat) (nodes : gmap string WorkNode) (current_id : string)
    (current : WorkNode) : result (option string) :=
  match wn_parent_node_id current with
  | None => Ok (Some current_id)
  | Some parent_id =>
      match fuel with
      | O => Hang
      | S fuel =>
          match nodes !! parent_id with
          | None => Ok None
          | Some parent => chain_id_loop fuel nodes parent_id parent
          end
      end
  end.

Definition chain_id_for_node (g : BoundedWorkGraph) (node_id : string) : result (option string) :=
  match g_nodes g !! node_id with
  | None => Ok None
  | Some node => chain_id_loop (size (g_nodes g)) (g_nodes g) node_id node
  end.

(** The loop of [node_lineage]; [lineage] is kept reversed, root first, as the
    final [reverse()] leaves it. *)
Fixpoint node_lineage_loop (fuel : nat) (nodes : gmap string WorkNode)
    (current_id : option string) (lineage : list string) : result (list string) :=
  match current_id with
  | None => Ok lineage
  | Some id =>
      match nodes !! id with
      | None => Ok lineage
      | Some node =>
          match fuel with
          | O => Hang
          | S fuel => node_lineage_loop fuel nodes (wn_parent_node_id node) (id :: lineage)
          end
      end
  end.

Definition node_lineage (g : BoundedWorkGraph) (node_id : string) : result (list string) :=
  node_lineage_loop (size (g_nodes g)) (g_nodes g) (Some node_id) [].

(** The loop of [checked_lineage], with its set of visited identifiers. *)
Fixpoint checked_lineage_loop (fuel : nat) (nodes : gmap string WorkNode) (seen : gset string)
    (lineage : list string) (id : string) : result (list string) :=
  match fuel with
  | O => Hang
  | S fuel =>
      reject_if (bool_decide (id ∈ seen)) (InvalidGraph "cycle detected");;
      node ← ok_or (nodes !! id) (NodeNotFound id);
      match wn_parent_node_id node with
      | None => Ok (id :: lineage)
      | Some parent_id =>
          checked_lineage_loop fuel nodes ({[id]} ∪ seen) (id :: lineage) parent_id
      end
  end.

Definition checked_lineage (g : BoundedWorkGraph) (node_id : string) : result (list string) :=
  checked_lineage_loop (S (size (g_nodes g))) (g_nodes g) ∅ [] node_id.

Definition root_agent_for (g : BoundedWorkGraph) (node_id : string) : result string :=
  lineage ← checked_lineage g node_id;
  root_id ← ok_or (head lineage) (NodeNotFound node_id);
  root ← expect (g_nodes g !! root_id);
  Ok (wn_agent_id root).

(** ** Reserved budget

    What a parent's descendants hold of its budget: the allocation of every
    child that is not settled, the consumption of every settled child together
    with what that child's own descendants hold, and pending reservations. *)
Record reserve_state := MkReserve {
  rs_tokens : Z;
  rs_cost : Z;
  rs_pending_parents : list string;
  rs_visited : gset string;
}.

Definition settled (g : BoundedWorkGraph) (child_id : string) (child : WorkNode) : bool :=
  (bool_decide (wn_status child = Completed) || bool_decide (wn_status child = Failed))
  && is_some (wn_execution_fence child)
  && any (λ receipt,
       bool_decide (rc_node_id receipt = child_id)
       && bool_decide (rc_usage_source receipt = Measured)
       && (rc_tokens_consumed receipt =? tokens_consumed (wn_budget child))
       && (rc_cost_micros_consumed receipt =? cost_micros_consumed (wn_budget child))
       && bool_decide (rc_execution_fence receipt = wn_execution_fence child))
     (bt_values (g_receipts g)).

Definition reserve_child (g : BoundedWorkGraph) (parent_id : string)
    (exclude_child_id : option string) (current_parent : string) (st : reserve_state)
    (child_id : string) : result reserve_state :=
  if bool_decide (current_parent = parent_id) && bool_decide (Some child_id = exclude_child_id)
  then Ok st
  else
    reject_if (bool_decide (child_id ∈ rs_visited st)) (InvalidGraph "duplicate child or cycle");;
    child ← ok_or (g_nodes g !! child_id) (InvalidGraph "dangling child");
    let is_settled := settled g child_id child in
    let child_tokens :=
      if is_settled then tokens_consumed (wn_budget child) else tokens_allocated (wn_budget child) in
    let child_cost :=
      if is_settled then cost_micros_consumed (wn_budget child)
      else cost_micros_allocated (wn_budget child) in
    tokens ← u64_add (rs_tokens st) child_tokens;
    cost ← u64_add (rs_cost st) child_cost;
    Ok (MkReserve tokens cost
          (if is_settled then child_id :: rs_pending_parents st else rs_pending_parents st)
          ({[child_id]} ∪ rs_visited st)).

Definition reserve_pending (g : BoundedWorkGraph) (parent_id : string)
    (exclude_child_id : option string) (current_parent : string) (st : reserve_state)
    (entry : string * WorkNodeBudget) : result reserve_state :=
  let '(child_id, budget) := entry in
  if (bool_decide (current_parent = parent_id) && bool_decide (Some child_id = exclude_child_id))
     || bool_decide (g_pending_child_parents g !! child_id ≠ Some current_parent)
  then Ok st
  else
    tokens ← u64_add (rs_tokens st) (tokens_allocated budget);
    cost ← u64_add (rs_cost st) (cost_micros_allocated budget);
    Ok (MkReserve tokens cost (rs_pending_parents st) (rs_visited st)).

Fixpoint reserve_loop (fuel : nat) (g : BoundedWorkGraph) (parent_id : string)
    (exclude_child_id : option string) (st : reserve_state) : result reserve_state :=
  match rs_pending_parents st with
  | [] => Ok st
  | current_parent :: rest =>
      match fuel with
      | O => Hang
      | S fuel =>
          st ← foldM (reserve_child g parent_id exclude_child_id current_parent)
                 (MkReserve (rs_tokens st) (rs_cost st) rest (rs_visited st))
                 (children_of g current_parent);
          st ← foldM (reserve_pending g parent_id exclude_child_id current_parent) st
                 (bt_iter (g_pending_child_budgets g));
          reserve_loop fuel g parent_id exclude_child_id st
      end
  end.

Definition reserved_child_budget (g : BoundedWorkGraph) (parent_id : string)
    (exclude_child_id : option string) : result (Z * Z) :=
  st ← reserve_loop (S (size (g_nodes g))) g parent_id exclude_child_id
         (MkReserve 0 0 [parent_id] {[parent_id]});
  Ok (rs_tokens st, rs_cost st).

(** ** Chain budgets *)
Definition ensure_chain_budget (chain_id : string) (g : BoundedWorkGraph) : BoundedWorkGraph :=
  let root_budget :=
    match g_nodes g !! chain_id with Some node => wn_budget node | None => zero_budget end in
  match g_chain_budgets g !! chain_id with
  | Some _ => g
  | None =>
      set_g_chain_budgets
        (<[chain_id := MkChainBudget chain_id
             (tokens_allocated root_budget) 0 (tokens_allocated root_budget)
             (cost_micros_allocated root_budget) 0 (cost_micros_allocated root_budget)
             0 0 0]> (g_chain_budgets g)) g
  end.

Definition record_chain_allocation (chain_id : string)
    (previous_tokens tokens_allocated previous_cost_micros cost_micros_allocated depth : Z)
    (g : BoundedWorkGraph) : BoundedWorkGraph :=
  let g := ensure_chain_budget chain_id g in
  let allocate chain :=
    set_cb_depth (Z.max (cb_depth chain) depth)
      (set_cb_total_allocated_cost_micros
         (saturating_add u64_max
            (saturating_sub (cb_total_allocated_cost_micros chain) previous_cost_micros)
            cost_micros_allocated)
         (set_cb_total_allocated_tokens
            (saturating_add u64_max
               (saturating_sub (cb_total_allocated_tokens chain) previous_tokens)
               tokens_allocated) chain)) in
  set_g_chain_budgets (alter allocate chain_id (g_chain_budgets g)) g.

Definition chain_budget_for (g : BoundedWorkGraph) (node_id : string) : result (option ChainBudget) :=
  chain_id ← chain_id_for_node g node_id;
  Ok (match chain_id with Some chain_id => g_chain_budgets g !! chain_id | None => None end).

Definition over_budget_chains (g : BoundedWorkGraph) (threshold_pct : f64) : list ChainBudget :=
  filter (λ budget, f64_geb (utilization_pct budget) threshold_pct = true)
    (bt_values (g_chain_budgets g)).

(** ** Ending and stopping executions *)
Definition end_incarnation (node_id : string) (g : BoundedWorkGraph) : BoundedWorkGraph :=
  match g_nodes g !! node_id with
  | None => g
  | Some node =>
      if negb (wn_execution_started node)
      then update_node node_id (set_wn_lease_expires_epoch_ms None) g
      else match wn_execution_fence node with
           | Some fence => set_g_reaped_executions (<[node_id := fence]> (g_reaped_executions g)) g
           | None => g
           end
  end.

Definition is_open (s : NodeStatus) : bool :=
  bool_decide (s = Active) || bool_decide (s = Pending).

(** The assignments of [stop_recursive] to one node. *)
Definition stop_node (node_id : string) (reason : StopReason) (g : BoundedWorkGraph) :
    BoundedWorkGraph :=
  end_incarnation node_id
    (update_node node_id (λ node, set_wn_stop_reason (Some reason) (set_wn_status Stopped node)) g).

Fixpoint stop_recursive (fuel : nat) (node_id : string) (reason : StopReason)
    (stopped : list string) : graph_op (list string) :=
  match fuel with
  | O => lift Hang
  | S fuel =>
      g ← get;
      stopped ← match g_nodes g !! node_id with
                | Some node =>
                    if is_open (wn_status node)
                    then modify (stop_node node_id reason);; mret (stopped ++ [node_id])
                    else mret stopped
                | None => mret stopped
                end;
      fold_op (λ stopped child_id, stop_recursive fuel child_id ParentStopped stopped)
        stopped (children_of g node_id)
  end.

(** Depth of recursion on an acyclic child index: every call but the innermost
    is for a distinct key of the index. *)
Definition stop_fuel (g : BoundedWorkGraph) : nat := S (size (g_children g)).

Definition stop (node_id : string) (reason : StopReason) : graph_op (list string) :=
  g ← get;
  lift (reject_if (negb (contains_key (g_nodes g) node_id)) (NodeNotFound node_id));;
  stop_recursive (stop_fuel g) node_id reason [].

Definition stop_unlaunched (node_id : string) (reason : StopReason) : graph_op (list string) :=
  stopped ← stop node_id reason;
  modify (update_node node_id (set_wn_lease_expires_epoch_ms None));;
  mret stopped.

Definition enforce_stop_conditions : graph_op (list (string * StopReason)) :=
  g ← get;
  let exhausted :=
    (filter (λ '(_, n), wn_status n = Active ∧ is_exhausted (wn_budget n) = true)
       (bt_iter (g_nodes g))).*1 in
  fold_op (λ stopped node_id,
    cascade ← stop_recursive (stop_fuel g) node_id BudgetExhausted [];
    mret (stopped ++ ((λ id, (id, BudgetExhausted)) <$> cascade))) [] exhausted.

(** ** Consumption *)

(** The checks of [consume_budget] on the node: its next token and cost
    consumption and whether either allocation is used up. *)
Definition consume_node_checks (g : BoundedWorkGraph) (node_id : string) (tokens cost_micros : Z) :
    result (Z * Z * bool) :=
  node ← ok_or (g_nodes g !! node_id) (NodeNotFound node_id);
  reject_if (bool_decide (wn_status node ≠ Active)) (InvalidTransition node_id);;
  let b := wn_budget node in
  next_tokens ← u64_add (tokens_consumed b) tokens;
  next_cost ← u64_add (cost_micros_consumed b) cost_micros;
  reject_if ((tokens_allocated b <? next_tokens) || (cost_micros_allocated b <? next_cost))
    InvalidBudget;;
  '(reserved_tokens, reserved_cost) ← reserved_child_budget g node_id None;
  reject_if ((saturating_sub (tokens_remaining b) reserved_tokens <? tokens)
             || (saturating_sub (cost_remaining b) reserved_cost <? cost_micros)) InvalidBudget;;
  Ok (next_tokens, next_cost,
      (next_tokens =? tokens_allocated b) || (next_cost =? cost_micros_allocated b)).

(** The checks of [consume_budget] on the chain. *)
Definition consume_chain_checks (g : BoundedWorkGraph) (chain_id : string)
    (tokens cost_micros : Z) : result (Z * Z * bool) :=
  chain ← ok_or (g_chain_budgets g !! chain_id) (InvalidGraph "missing chain budget");
  next_tokens ← u64_add (cb_total_consumed_tokens chain) tokens;
  next_cost ← u64_add (cb_total_consumed_cost_micros chain) cost_micros;
  let used_tokens := saturating_add u64_max next_tokens (cb_unauthorized_tokens chain) in
  let used_cost := saturating_add u64_max next_cost (cb_unauthorized_cost_micros chain) in
  reject_if ((cb_root_budget_tokens chain <? used_tokens)
             || (cb_root_budget_cost_micros chain <? used_cost)) InvalidBudget;;
  Ok (next_tokens, next_cost,
      (used_tokens =? cb_root_budget_tokens chain) || (used_cost =? cb_root_budget_cost_micros chain)).

Definition set_consumed (tokens cost : Z) (node : WorkNode) : WorkNode :=
  set_wn_budget
    (MkBudget (tokens_allocated (wn_budget node)) tokens
       (cost_micros_allocated (wn_budget node)) cost) node.

Definition set_chain_consumed (tokens cost : Z) (chain : ChainBudget) : ChainBudget :=
  set_cb_total_consumed_cost_micros cost (set_cb_total_consumed_tokens tokens chain).

Definition consume_budget (node_id : string) (tokens cost_micros : Z) : graph_op bool :=
  g ← get;
  '(next_node_tokens, next_node_cost, exhausted) ←
    lift (consume_node_checks g node_id tokens cost_micros);
  root ← lift (chain_id_for_node g node_id);
  chain_id ← lift (expect root);
  '(next_chain_tokens, next_chain_cost, chain_exhausted) ←
    lift (consume_chain_checks g chain_id tokens cost_micros);
  modify (update_node node_id (set_consumed next_node_tokens next_node_cost));;
  modify (λ g, set_g_chain_budgets
    (alter (set_chain_consumed next_chain_tokens next_chain_cost) chain_id (g_chain_budgets g)) g);;
  if (chain_exhausted : bool) then
    stop_recursive (stop_fuel g) chain_id BudgetExhausted [];;
    mret true
  else if (exhausted : bool) then
    modify (stop_node node_id BudgetExhausted);;
    mret true
  else mret false.

Definition consume_tokens (node_id : string) (tokens : Z) : graph_op () :=
  consume_budget node_id tokens 0;;
  mret ().

Definition begin_delivery_attempt (node_id fence : string) (attempt : Z) : graph_op () :=
  g ← get;
  node ← lift (ok_or (g_nodes g !! node_id) (InvalidTransition node_id));
  lift (reject_if
    (bool_decide (wn_status node ≠ Active)
     || negb (wn_execution_started node)
     || bool_decide (wn_execution_fence node ≠ Some fence)
     || negb ((1 <=? attempt) && (attempt <=? MAX_DELIVERY_ATTEMPTS))
     || bool_decide (checked_add u8_max (default 0 (wn_delivery_attempt node)) 1 ≠ Some attempt))
    (InvalidTransition node_id));;
  modify (update_node node_id (set_wn_delivery_attempt (Some attempt))).
