(* ===== verification/Validate.v ===== *)
(** * Work graph: the validator of persisted graphs

    [BoundedWorkGraph::validate_invariants] of
    [rust/crates/lean-ctx-workgraph/src/work_graph/control_ops.rs], one
    definition per block of the function, in the order of the source. *)
From S2P Require Import Prelude BTree Text Hashing Float64 BudgetCascade GraphModel ControlOps.
#[local] Open Scope Z_scope.

Section validate.
Context `{Blake3}.

(** Lines 14-22: acknowledged exits name started executions. *)
Definition validate_reaped (g : BoundedWorkGraph) (entry : string * string) : result () :=
  let '(node_id, fence) := entry in
  reject_if
    (negb (match g_nodes g !! node_id with
           | Some node =>
               wn_execution_started node && bool_decide (wn_execution_fence node = Some fence)
           | None => false
           end)) (InvalidGraph "invalid execution exit acknowledgement").

(** Lines 26-38: configured limits. *)
Definition validate_limits (g : BoundedWorkGraph) : result () :=
  reject_if
    ((MAX_GRAPH_NODES <? map_len (g_nodes g))
     || (g_max_fan_out g =? 0)
     || (MAX_FAN_OUT <? g_max_fan_out g)
     || (g_max_depth g =? 0)
     || (MAX_DEPTH <? g_max_depth g)
     || (g_max_local_concurrency g =? 0)
     || (MAX_LOCAL_CONCURRENCY <? g_max_local_concurrency g)
     || (local_concurrency_limit g <? active_count g))
    (InvalidGraph "configured limit exceeded").

(** The loop over a node's path claims, with its set of claims. *)
Fixpoint validate_path_claims (seen : gset string) (claims : list string) : result () :=
  match claims with
  | [] => Ok ()
  | claim :: rest =>
      validate_path_claim claim;;
      reject_if (bool_decide (claim ∈ seen)) (InvalidGraph "duplicate path claim");;
      validate_path_claims ({[claim]} ∪ seen) rest
  end.

(** Lines 40-71: identifiers, budget and inherited context of a node. *)
Definition validate_node_context (g : BoundedWorkGraph) (key : string) (node : WorkNode) :
    result () :=
  validate_identifier key "node_id";;
  validate_identifier (wn_node_id node) "node_id";;
  validate_identifier (wn_agent_id node) "agent_id";;
  validate_identifier (wn_capsule_ref node) "capsule_ref";;
  validate_budget (wn_budget node);;
  forM_ (λ '(field, value),
      if str_is_empty value then Ok () else validate_identifier value field)
    [("task_ref", wn_task_ref node);
     ("policy_ref", wn_policy_ref node);
     ("expected_outcome_ref", wn_expected_outcome_ref node)];;
  match wn_parent_task_ref node with
  | Some parent_task_ref => validate_identifier parent_task_ref "parent_task_ref"
  | None => Ok ()
  end;;
  match wn_parent_node_id node with
  | Some parent_id =>
      if str_is_empty (wn_task_ref node) then Ok ()
      else
        parent ← ok_or (g_nodes g !! parent_id) (InvalidGraph "missing context parent");
        reject_if
          (bool_decide (wn_parent_task_ref node ≠ Some (wn_task_ref parent))
           || bool_decide (wn_policy_ref node ≠ wn_policy_ref parent))
          (InvalidGraph "task lineage or policy inheritance mismatch")
  | None => Ok ()
  end.

(** Lines 72-105: path claims, key, fence and delivery attempt of a node. *)
Definition validate_node_execution (g : BoundedWorkGraph) (key : string) (node : WorkNode) :
    result () :=
  reject_if (MAX_PATH_CLAIMS <? vec_len (wn_path_claims node)) TooManyPathClaims;;
  validate_path_claims ∅ (wn_path_claims node);;
  reject_if (bool_decide (key ≠ wn_node_id node)) (InvalidGraph "node key mismatch");;
  reject_if
    (match wn_execution_fence node with
     | Some fence => bool_decide (fence ≠ execution_fence (g_graph_id g) node)
     | None => false
     end) (InvalidGraph "invalid execution fence");;
  reject_if
    (match wn_delivery_attempt node with
     | Some attempt => negb ((1 <=? attempt) && (attempt <=? MAX_DELIVERY_ATTEMPTS))
     | None => false
     end
     || (is_some (wn_delivery_attempt node)
         && (negb (wn_execution_started node) || is_none (wn_execution_fence node))))
    (InvalidGraph "invalid delivery attempt").

(** Lines 106-126: depth, child index and chain of a node. *)
Definition validate_node_structure (g : BoundedWorkGraph) (key : string) (node : WorkNode) :
    result () :=
  lineage ← checked_lineage g key;
  reject_if (negb (wn_depth node + 1 =? vec_len lineage) || (g_max_depth g <? wn_depth node))
    (InvalidGraph "invalid node depth");;
  reject_if
    (match wn_parent_node_id node with
     | Some parent_id =>
         negb (match g_children g !! parent_id with
               | Some children => bool_decide (key ∈ children)
               | None => false
               end)
     | None => false
     end) (InvalidGraph "parent/child mismatch");;
  reject_if (is_none (wn_parent_node_id node) && negb (contains_key (g_chain_budgets g) key))
    (InvalidGraph "missing chain budget").

Definition validate_node (g : BoundedWorkGraph) (entry : string * WorkNode) : result () :=
  let '(key, node) := entry in
  validate_node_context g key node;;
  validate_node_execution g key node;;
  validate_node_structure g key node.

(** Lines 128-154: the child index and the reservations of a parent. *)
Definition validate_child_index (g : BoundedWorkGraph) (entry : string * list string) :
    result () :=
  let '(parent_id, children) := entry in
  reject_if
    (negb (contains_key (g_nodes g) parent_id)
     || (g_max_fan_out g <? vec_len children)
     || negb (Z.of_nat (size (list_to_set children : gset string)) =? vec_len children))
    (InvalidGraph "invalid child index");;
  forM_ (λ child_id,
      reject_if
        (bool_decide ((g_nodes g !! child_id) ≫= wn_parent_node_id ≠ Some parent_id))
        (InvalidGraph "dangling child")) children;;
  '(tokens, cost) ← reserved_child_budget g parent_id None;
  parent ← expect (g_nodes g !! parent_id);
  reject_if
    ((tokens_remaining (wn_budget parent) <? tokens)
     || (cost_remaining (wn_budget parent) <? cost))
    (InvalidGraph "child budget over-allocation").

(** Lines 155-165: pending reservations. *)
Definition validate_pending (g : BoundedWorkGraph) (entry : string * WorkNodeBudget) : result () :=
  let '(child_id, budget) := entry in
  validate_identifier child_id "pending_child_id";;
  validate_budget budget;;
  reject_if
    (contains_key (g_nodes g) child_id || negb (contains_key (g_pending_child_parents g) child_id))
    (InvalidGraph "invalid pending budget").

(** Lines 166-182: receipts. *)
Definition validate_receipt_node (g : BoundedWorkGraph) (receipt : ChildExecutionReceipt) :
    result () :=
  validate_receipt receipt;;
  node ← ok_or (g_nodes g !! rc_node_id receipt) (InvalidGraph "orphan receipt");
  reject_if
    (is_none (wn_parent_node_id node)
     || negb (tokens_consumed (wn_budget node) =? rc_tokens_consumed receipt)
     || negb (cost_micros_consumed (wn_budget node) =? rc_cost_micros_consumed receipt)
     || (is_some (wn_execution_fence node)
         && bool_decide (rc_execution_fence receipt ≠ wn_execution_fence node)))
    (InvalidGraph "receipt/node mismatch").

(** Lines 183-206: spend above authorization. *)
Definition validate_failed_spend (g : BoundedWorkGraph) (entry : string * MeasuredExecutionSpend) :
    result () :=
  let '(node_id, spend) := entry in
  validate_measured_spend spend;;
  node ← ok_or (g_nodes g !! node_id) (InvalidGraph "orphan failed spend");
  reject_if
    (bool_decide (node_id ≠ sp_node_id spend)
     || is_none (wn_parent_node_id node)
     || bool_decide (wn_status node ≠ Stopped)
     || bool_decide (wn_stop_reason node ≠ Some BudgetExhausted)
     || bool_decide (wn_execution_fence node ≠ Some (sp_execution_fence spend))
     || ((sp_tokens_consumed spend <=? tokens_allocated (wn_budget node))
         && (sp_cost_micros_consumed spend <=? cost_micros_allocated (wn_budget node)))
     || any (λ receipt, bool_decide (rc_node_id receipt = node_id)) (bt_values (g_receipts g))
     || bool_decide (node_id ∈ g_accepted_path g))
    (InvalidGraph "failed spend/node mismatch").

(** Lines 207-226: the accepted path is exactly the lineage of the accepted
    receipts on it. *)
Definition supported_path (g : BoundedWorkGraph) : result (gset string) :=
  foldM (λ supported receipt,
      if bool_decide (rc_outcome receipt = Accepted)
         && bool_decide (rc_node_id receipt ∈ g_accepted_path g)
      then
        lineage ← checked_lineage g (rc_node_id receipt);
        Ok (supported ∪ list_to_set lineage)
      else Ok supported) ∅ (bt_values (g_receipts g)).

Definition validate_accepted_path (g : BoundedWorkGraph) : result () :=
  forM_ (λ node_id,
      reject_if (negb (contains_key (g_nodes g) node_id)) (InvalidGraph "orphan accepted path"))
    (bs_iter (g_accepted_path g));;
  supported ← supported_path g;
  reject_if (bool_decide (supported ≠ g_accepted_path g))
    (InvalidGraph "accepted path lacks accepted receipt lineage").

(** Lines 227-305: chain accounting.  The seven running totals of a chain. *)
Record chain_totals := MkTotals {
  ct_allocated_tokens : Z;
  ct_allocated_cost : Z;
  ct_consumed_tokens : Z;
  ct_consumed_cost : Z;
  ct_unauthorized_tokens : Z;
  ct_unauthorized_cost : Z;
  ct_depth : Z;
}.

Definition chain_add_node (g : BoundedWorkGraph) (chain_id : string) (t : chain_totals)
    (node : WorkNode) : result chain_totals :=
  lineage ← checked_lineage g (wn_node_id node);
  if bool_decide (head lineage ≠ Some chain_id) then Ok t
  else
    allocated_tokens ← u64_add (ct_allocated_tokens t) (tokens_allocated (wn_budget node));
    allocated_cost ← u64_add (ct_allocated_cost t) (cost_micros_allocated (wn_budget node));
    consumed_tokens ← u64_add (ct_consumed_tokens t) (tokens_consumed (wn_budget node));
    consumed_cost ← u64_add (ct_consumed_cost t) (cost_micros_consumed (wn_budget node));
    let over_tokens :=
      match g_failed_spend g !! wn_node_id node with
      | Some spend =>
          saturating_add u64_max (ct_unauthorized_tokens t)
            (saturating_sub (sp_tokens_consumed spend) (tokens_allocated (wn_budget node)))
      | None => ct_unauthorized_tokens t
      end in
    let over_cost :=
      match g_failed_spend g !! wn_node_id node with
      | Some spend =>
          saturating_add u64_max (ct_unauthorized_cost t)
            (saturating_sub (sp_cost_micros_consumed spend) (cost_micros_allocated (wn_budget node)))
      | None => ct_unauthorized_cost t
      end in
    Ok (MkTotals allocated_tokens allocated_cost consumed_tokens consumed_cost
          over_tokens over_cost (Z.max (ct_depth t) (wn_depth node))).

Definition chain_add_pending (g : BoundedWorkGraph) (chain_id : string) (t : chain_totals)
    (entry : string * WorkNodeBudget) : result chain_totals :=
  let '(child_id, budget) := entry in
  match g_pending_child_parents g !! child_id with
  | None => Ok t
  | Some parent_id =>
      lineage ← checked_lineage g parent_id;
      if bool_decide (head lineage = Some chain_id) then
        parent ← expect (g_nodes g !! parent_id);
        pending_depth ← ok_or (checked_add u16_max (wn_depth parent) 1) Overflow;
        allocated_tokens ← u64_add (ct_allocated_tokens t) (tokens_allocated budget);
        allocated_cost ← u64_add (ct_allocated_cost t) (cost_micros_allocated budget);
        Ok (MkTotals allocated_tokens allocated_cost
              (ct_consumed_tokens t) (ct_consumed_cost t)
              (ct_unauthorized_tokens t) (ct_unauthorized_cost t)
              (Z.max (ct_depth t) pending_depth))
      else Ok t
  end.

Definition validate_chain (g : BoundedWorkGraph) (entry : string * ChainBudget) : result () :=
  let '(chain_id, chain) := entry in
  root ← ok_or
    (match g_nodes g !! chain_id with
     | Some node => if is_none (wn_parent_node_id node) then Some node else None
     | None => None
     end) (InvalidGraph "invalid chain root");
  t ← foldM (chain_add_node g chain_id) (MkTotals 0 0 0 0 0 0 0) (bt_values (g_nodes g));
  t ← foldM (chain_add_pending g chain_id) t (bt_iter (g_pending_child_budgets g));
  reject_if
    (bool_decide (cb_chain_id chain ≠ chain_id)
     || negb (cb_root_budget_tokens chain =? tokens_allocated (wn_budget root))
     || negb (cb_root_budget_cost_micros chain =? cost_micros_allocated (wn_budget root))
     || negb (cb_total_allocated_tokens chain =? ct_allocated_tokens t)
     || negb (cb_total_allocated_cost_micros chain =? ct_allocated_cost t)
     || negb (cb_total_consumed_tokens chain =? ct_consumed_tokens t)
     || negb (cb_total_consumed_cost_micros chain =? ct_consumed_cost t)
     || negb (cb_unauthorized_tokens chain =? ct_unauthorized_tokens t)
     || negb (cb_unauthorized_cost_micros chain =? ct_unauthorized_cost t)
     || negb (cb_depth chain =? ct_depth t)
     || (cb_root_budget_tokens chain <? ct_consumed_tokens t)
     || (cb_root_budget_cost_micros chain <? ct_consumed_cost t))
    (InvalidGraph "chain accounting mismatch").

Definition validate_invariants (g : BoundedWorkGraph) : result () :=
  forM_ (validate_reaped g) (bt_iter (g_reaped_executions g));;
  (if str_is_empty (g_graph_id g) then Ok () else validate_identifier (g_graph_id g) "graph_id");;
  validate_limits g;;
  forM_ (validate_node g) (bt_iter (g_nodes g));;
  forM_ (validate_child_index g) (bt_iter (g_children g));;
  forM_ (validate_pending g) (bt_iter (g_pending_child_budgets g));;
  forM_ (validate_receipt_node g) (bt_values (g_receipts g));;
  forM_ (validate_failed_spend g) (bt_iter (g_failed_spend g));;
  validate_accepted_path g;;
  forM_ (validate_chain g) (bt_iter (g_chain_budgets g)).
End validate.
