(* ===== verification/GraphOps.v ===== *)
(** * Work graph: operations

    [rust/crates/lean-ctx-workgraph/src/work_graph/graph_ops.rs]: construction,
    delegation, claiming, receipts, the accepted path and the reports read off
    a finished graph. *)
From S2P Require Import Prelude BTree Text Hashing Float64 BudgetCascade GraphModel ControlOps.
#[local] Open Scope Z_scope.

(** [BoundedWorkGraph::new] *)
Definition new (max_fan_out max_depth : Z) : BoundedWorkGraph :=
  MkGraph "" ∅ ∅ ∅ ∅ ∅ ∅ ∅ ∅ ∅
    MAX_FAN_OUT (clamp max_fan_out 1 MAX_FAN_OUT) (clamp max_depth 1 MAX_DEPTH).

Definition BoundedWorkGraph_default : BoundedWorkGraph := new MAX_FAN_OUT MAX_DEPTH.

Definition with_local_concurrency (max_local_concurrency : Z) (g : BoundedWorkGraph) :
    BoundedWorkGraph :=
  set_g_max_local_concurrency (clamp max_local_concurrency 1 MAX_LOCAL_CONCURRENCY) g.

Definition with_graph_id (graph_id : string) (g : BoundedWorkGraph) : result BoundedWorkGraph :=
  validate_identifier graph_id "graph_id";;
  Ok (set_g_graph_id graph_id g).

Definition bind_graph_id (graph_id : string) : graph_op () :=
  lift (validate_identifier graph_id "graph_id");;
  g ← get;
  lift (reject_if
    (negb (str_is_empty (g_graph_id g)) && bool_decide (g_graph_id g ≠ graph_id))
    (InvalidGraph "graph id mismatch"));;
  modify (set_g_graph_id graph_id).

(** ** Nodes *)

(** The literal [WorkNode { .. }] of [add_root] and [insert_child]. *)
Definition fresh_node (node_id agent_id : string) (parent_node_id : option string)
    (capsule_ref : string) (status : NodeStatus) (budget : WorkNodeBudget) (depth : Z) : WorkNode :=
  {| wn_node_id := node_id;
     wn_agent_id := agent_id;
     wn_parent_node_id := parent_node_id;
     wn_capsule_ref := capsule_ref;
     wn_status := status;
     wn_budget := budget;
     wn_depth := depth;
     wn_stop_reason := None;
     wn_outcome_ref := None;
     wn_claim_attempt := 0;
     wn_delivery_attempt := None;
     wn_execution_fence := None;
     wn_lease_expires_epoch_ms := None;
     wn_path_claims := [];
     wn_task_ref := "";
     wn_parent_task_ref := None;
     wn_policy_ref := "";
     wn_expected_outcome_ref := "";
     wn_execution_started := false |}.

Definition add_root (node_id agent_id capsule_ref : string) (budget : WorkNodeBudget) :
    graph_op WorkNode :=
  g ← get;
  lift (reject_if (MAX_GRAPH_NODES <=? map_len (g_nodes g)) CapacityExceeded);;
  lift (validate_identifier node_id "node_id");;
  lift (validate_identifier agent_id "agent_id");;
  lift (validate_identifier capsule_ref "capsule_ref");;
  lift (validate_budget budget);;
  let concurrency_limit := local_concurrency_limit g in
  lift (reject_if (concurrency_limit <=? active_count g)
          (LocalConcurrencyExceeded concurrency_limit));;
  lift (reject_if (contains_key (g_nodes g) node_id) (DuplicateNode node_id));;
  let node := fresh_node node_id agent_id None capsule_ref Active budget 0 in
  modify (λ g, set_g_nodes (<[node_id := node]> (g_nodes g)) g);;
  modify (λ g, set_g_chain_budgets
    (<[node_id := MkChainBudget node_id
         (tokens_allocated budget) 0 (tokens_allocated budget)
         (cost_micros_allocated budget) 0 (cost_micros_allocated budget)
         0 0 0]> (g_chain_budgets g)) g);;
  g ← get;
  lift (expect (g_nodes g !! node_id)).

(** A reservation made by [allocate_child_budget] is complete and for this
    parent, or absent. *)
Definition pending_reservation_matches (g : BoundedWorkGraph) (parent_node_id child_node_id : string) :
    bool :=
  match g_pending_child_budgets g !! child_node_id, g_pending_child_parents g !! child_node_id with
  | None, None => true
  | Some _, Some parent => bool_decide (parent = parent_node_id)
  | _, _ => false
  end.

(** The checks of [insert_child]; the result is the depth of the child. *)
Definition insert_child_checks (g : BoundedWorkGraph)
    (parent_node_id child_node_id child_agent_id capsule_ref : string)
    (child_budget : WorkNodeBudget) (status : NodeStatus) : result Z :=
  reject_if (MAX_GRAPH_NODES <=? map_len (g_nodes g)) CapacityExceeded;;
  validate_identifier parent_node_id "parent_node_id";;
  validate_identifier child_node_id "child_node_id";;
  validate_identifier child_agent_id "child_agent_id";;
  validate_identifier capsule_ref "capsule_ref";;
  validate_budget child_budget;;
  reject_if (contains_key (g_nodes g) child_node_id) (DuplicateNode child_node_id);;
  reject_if (negb (pending_reservation_matches g parent_node_id child_node_id))
    (InvalidGraph "pending child reservation is incomplete or belongs to another parent");;
  '(reserved_tokens, reserved_cost) ←
    reserved_child_budget g parent_node_id (Some child_node_id);
  parent ← ok_or (g_nodes g !! parent_node_id) (NodeNotFound parent_node_id);
  reject_if (bool_decide (wn_status parent ≠ Active)) (ParentNotActive parent_node_id);;
  let new_depth := wrapping_add u16_max (wn_depth parent) 1 in
  reject_if (g_max_depth g <? new_depth) (DepthExceeded (g_max_depth g));;
  let available_tokens := saturating_sub (tokens_remaining (wn_budget parent)) reserved_tokens in
  let available_cost := saturating_sub (cost_remaining (wn_budget parent)) reserved_cost in
  reject_if (available_tokens <? tokens_allocated child_budget)
    (BudgetExceedsParent (tokens_allocated child_budget) available_tokens);;
  reject_if (available_cost <? cost_micros_allocated child_budget)
    (BudgetExceedsParent (cost_micros_allocated child_budget) available_cost);;
  let current_children := vec_len (children_of g parent_node_id) in
  reject_if (g_max_fan_out g <=? current_children) (FanOutExceeded (g_max_fan_out g));;
  let concurrency_limit := local_concurrency_limit g in
  reject_if (bool_decide (status = Active) && (concurrency_limit <=? active_count g))
    (LocalConcurrencyExceeded concurrency_limit);;
  Ok new_depth.

Definition insert_child (parent_node_id child_node_id child_agent_id capsule_ref : string)
    (child_budget : WorkNodeBudget) (status : NodeStatus) : graph_op WorkNode :=
  g ← get;
  new_depth ← lift (insert_child_checks g parent_node_id child_node_id child_agent_id capsule_ref
                      child_budget status);
  let node :=
    fresh_node child_node_id child_agent_id (Some parent_node_id) capsule_ref status child_budget
      new_depth in
  modify (λ g, set_g_nodes (<[child_node_id := node]> (g_nodes g)) g);;
  modify (λ g, set_g_children
    (<[parent_node_id := children_of g parent_node_id ++ [child_node_id]]> (g_children g)) g);;
  g ← get;
  root ← lift (chain_id_for_node g child_node_id);
  chain_id ← lift (expect root);
  let pending_budget := default zero_budget (g_pending_child_budgets g !! child_node_id) in
  modify (λ g, set_g_pending_child_budgets (delete child_node_id (g_pending_child_budgets g)) g);;
  modify (λ g, set_g_pending_child_parents (delete child_node_id (g_pending_child_parents g)) g);;
  modify (record_chain_allocation chain_id
    (tokens_allocated pending_budget) (tokens_allocated child_budget)
    (cost_micros_allocated pending_budget) (cost_micros_allocated child_budget) new_depth);;
  g ← get;
  lift (expect (g_nodes g !! child_node_id)).

Definition delegate (parent_node_id child_node_id child_agent_id capsule_ref : string)
    (child_budget : WorkNodeBudget) : graph_op WorkNode :=
  insert_child parent_node_id child_node_id child_agent_id capsule_ref child_budget Active.

Definition queue_child (parent_node_id child_node_id child_agent_id capsule_ref : string)
    (child_budget : WorkNodeBudget) : graph_op WorkNode :=
  insert_child parent_node_id child_node_id child_agent_id capsule_ref child_budget Pending.

(** The checks of [allocate_child_budget]; the result is the budget it will
    reserve and the depth of the child. *)
Definition allocate_child_budget_checks (g : BoundedWorkGraph) (parent_id child_id : string)
    (fraction : f64) : result (WorkNodeBudget * Z) :=
  validate_identifier parent_id "parent_node_id";;
  validate_identifier child_id "child_node_id";;
  reject_if (contains_key (g_nodes g) child_id || contains_key (g_pending_child_budgets g) child_id)
    (DuplicateNode child_id);;
  parent ← ok_or (g_nodes g !! parent_id) (NodeNotFound parent_id);
  reject_if (bool_decide (wn_status parent ≠ Active)) (ParentNotActive parent_id);;
  reject_if (g_max_depth g <=? wn_depth parent) (DepthExceeded (g_max_depth g));;
  let parent_budget_tokens := tokens_allocated (wn_budget parent) in
  let parent_used_tokens := tokens_consumed (wn_budget parent) in
  let parent_depth := wn_depth parent in
  '(reserved_tokens, reserved_cost) ← reserved_child_budget g parent_id (Some child_id);
  let parent_remaining :=
    saturating_sub (saturating_sub parent_budget_tokens parent_used_tokens) reserved_tokens in
  reject_if (parent_remaining =? 0) (BudgetExceedsParent 1 parent_remaining);;
  let cascaded :=
    cascade_budget
      {| parent_budget_tokens := parent_budget_tokens;
         parent_used_tokens := parent_used_tokens;
         child_fraction := fraction;
         minimum_budget := 0;
         maximum_budget := parent_remaining |} in
  parent_lineage ← node_lineage g parent_id;
  let cascaded :=
    {| allocated_tokens := allocated_tokens cascaded;
       cascade_parent_remaining := cascade_parent_remaining cascaded;
       cascade_depth := parent_depth + 1;
       lineage := parent_lineage ++ [child_id] |} in
  match validate_cascade cascaded with
  | Err e => Err (Cascade e)
  | _ => Ok ()
  end;;
  reject_if (parent_remaining <? allocated_tokens cascaded)
    (BudgetExceedsParent (allocated_tokens cascaded) parent_remaining);;
  let parent_cost_remaining := saturating_sub (cost_remaining (wn_budget parent)) reserved_cost in
  let cost_micros_allocated :=
    if parent_cost_remaining =? 0 then 0
    else Z.min
      (Z.max (f64_to_uint u64_max (f64_mul (f64_of_uint parent_cost_remaining) fraction)) 1)
      parent_cost_remaining in
  Ok (MkBudget (allocated_tokens cascaded) 0 cost_micros_allocated 0,
      wrapping_add u16_max parent_depth 1).

Definition allocate_child_budget (parent_id child_id : string) (fraction : f64) :
    graph_op WorkNodeBudget :=
  g ← get;
  '(child_budget, child_depth) ← lift (allocate_child_budget_checks g parent_id child_id fraction);
  root ← lift (chain_id_for_node g parent_id);
  chain_id ← lift (expect root);
  modify (λ g, set_g_pending_child_budgets
    (<[child_id := child_budget]> (g_pending_child_budgets g)) g);;
  modify (λ g, set_g_pending_child_parents
    (<[child_id := parent_id]> (g_pending_child_parents g)) g);;
  modify (record_chain_allocation chain_id 0 (tokens_allocated child_budget)
    0 (cost_micros_allocated child_budget) child_depth);;
  mret child_budget.

(** ** Context and path claims of queued nodes *)
Definition set_path_claims (node_id : string) (path_claims : list string) : graph_op () :=
  lift (reject_if (MAX_PATH_CLAIMS <? vec_len path_claims) TooManyPathClaims);;
  let path_claims := dedup (sort_strings path_claims) in
  lift (forM_ validate_path_claim path_claims);;
  g ← get;
  node ← lift (ok_or (g_nodes g !! node_id) (NodeNotFound node_id));
  lift (reject_if (bool_decide (wn_status node ≠ Pending)) (InvalidTransition node_id));;
  modify (update_node node_id (set_wn_path_claims path_claims)).

Definition configure_root_context (node_id task_ref policy_ref expected_outcome_ref : string) :
    graph_op () :=
  lift (validate_identifier task_ref "task_ref");;
  lift (validate_identifier policy_ref "policy_ref");;
  lift (validate_identifier expected_outcome_ref "expected_outcome_ref");;
  g ← get;
  node ← lift (ok_or (g_nodes g !! node_id) (NodeNotFound node_id));
  lift (reject_if (is_some (wn_parent_node_id node)) (InvalidTransition node_id));;
  modify (update_node node_id (λ node,
    set_wn_expected_outcome_ref expected_outcome_ref
      (set_wn_policy_ref policy_ref
         (set_wn_parent_task_ref None (set_wn_task_ref task_ref node))))).

Definition configure_child_context (node_id task_ref expected_outcome_ref : string) : graph_op () :=
  lift (validate_identifier task_ref "task_ref");;
  lift (validate_identifier expected_outcome_ref "expected_outcome_ref");;
  g ← get;
  parent_id ← lift (ok_or ((g_nodes g !! node_id) ≫= wn_parent_node_id) (InvalidTransition node_id));
  parent ← lift (ok_or (g_nodes g !! parent_id) (NodeNotFound parent_id));
  lift (reject_if (str_is_empty (wn_task_ref parent) || str_is_empty (wn_policy_ref parent))
    (InvalidGraph "parent context is not configured"));;
  node ← lift (ok_or (g_nodes g !! node_id) (NodeNotFound node_id));
  lift (reject_if (bool_decide (wn_status node ≠ Pending)) (InvalidTransition node_id));;
  modify (update_node node_id (λ node,
    set_wn_expected_outcome_ref expected_outcome_ref
      (set_wn_policy_ref (wn_policy_ref parent)
         (set_wn_parent_task_ref (Some (wn_task_ref parent)) (set_wn_task_ref task_ref node))))).

(** ** Claiming *)
Section claiming.
Context `{Blake3}.

(** The assignments of a successful claim: the fence is computed from the
    node with its incremented attempt. *)
Definition claim_node (graph_id : string) (attempt : Z) (lease : option Z) (node : WorkNode) :
    WorkNode :=
  let node := set_wn_claim_attempt attempt node in
  set_wn_status Active
    (set_wn_lease_expires_epoch_ms lease
       (set_wn_delivery_attempt None
          (set_wn_execution_fence (Some (execution_fence graph_id node)) node))).

Definition claim_and_activate_until (node_id : string) (lease_expires_epoch_ms : option Z) :
    graph_op WorkNode :=
  lift (validate_identifier node_id "node_id");;
  g ← get;
  let concurrency_limit := local_concurrency_limit g in
  lift (reject_if (concurrency_limit <=? active_count g)
          (LocalConcurrencyExceeded concurrency_limit));;
  node ← lift (ok_or (g_nodes g !! node_id) (NodeNotFound node_id));
  parent_id ← lift (ok_or (wn_parent_node_id node) (InvalidTransition node_id));
  lift (reject_if (bool_decide (wn_status <$> (g_nodes g !! parent_id) ≠ Some Active))
          (ParentNotActive parent_id));;
  lift (reject_if (bool_decide (wn_status node ≠ Pending)) (InvalidTransition node_id));;
  attempt ← lift (ok_or (checked_add u32_max (wn_claim_attempt node) 1) Overflow);
  modify (update_node node_id (claim_node (g_graph_id g) attempt lease_expires_epoch_ms));;
  g ← get;
  lift (expect (g_nodes g !! node_id)).

Definition claim_and_activate (node_id : string) : graph_op WorkNode :=
  claim_and_activate_until node_id None.

(** Another node has consumed the capsule. *)
Definition capsule_consumed (g : BoundedWorkGraph) (node_id capsule_ref : string) : bool :=
  any (λ '(candidate_id, candidate),
      negb (bool_decide (candidate_id = node_id))
      && wn_execution_started candidate
      && bool_decide (wn_capsule_ref candidate = capsule_ref))
    (bt_iter (g_nodes g)).

Definition claim_or_resume_active_until (node_id : string) (lease_expires_epoch_ms : Z) :
    graph_op WorkNode :=
  g ← get;
  node ← lift (ok_or (g_nodes g !! node_id) (NodeNotFound node_id));
  lift (reject_if (capsule_consumed g node_id (wn_capsule_ref node))
          (InvalidGraph "context capsule was already consumed by another node"));;
  match wn_status node with
  | Pending =>
      claim_and_activate_until node_id (Some lease_expires_epoch_ms);;
      modify (update_node node_id (set_wn_execution_started true));;
      g ← get;
      lift (expect (g_nodes g !! node_id))
  | Active =>
      lift (reject_if (is_none (wn_parent_node_id node) || is_none (wn_execution_fence node)
                       || wn_execution_started node) (InvalidTransition node_id));;
      modify (update_node node_id (λ node,
        set_wn_execution_started true
          (set_wn_lease_expires_epoch_ms (Some lease_expires_epoch_ms) node)));;
      g ← get;
      lift (expect (g_nodes g !! node_id))
  | _ => lift (Err (InvalidTransition node_id))
  end.
End claiming.

Definition recover_expired_execution (node_id : string) (now_epoch_ms : Z) :
    graph_op (list string) :=
  g ← get;
  node ← lift (ok_or (g_nodes g !! node_id) (NodeNotFound node_id));
  let expired :=
    is_some (wn_parent_node_id node)
    && bool_decide (wn_status node = Active)
    && match wn_lease_expires_epoch_ms node with
       | Some expires => expires <=? now_epoch_ms
       | None => false
       end in
  if (expired : bool) then stop node_id LeaseLost else mret [].

(** ** Completion and receipts *)
Definition complete (node_id outcome_ref : string) : graph_op () :=
  lift (validate_identifier outcome_ref "outcome_ref");;
  g ← get;
  node ← lift (ok_or (g_nodes g !! node_id) (NodeNotFound node_id));
  lift (reject_if (bool_decide (wn_status node ≠ Active)) (InvalidTransition node_id));;
  modify (update_node node_id (λ node,
    set_wn_lease_expires_epoch_ms None
      (set_wn_outcome_ref (Some outcome_ref) (set_wn_status Completed node))));;
  modify (end_incarnation node_id).

(** The checks of [record_child_receipt] that read the node; the result is the
    token and cost delta the receipt adds. *)
Definition receipt_node_checks (g : BoundedWorkGraph) (receipt : ChildExecutionReceipt) :
    result (Z * Z) :=
  validate_receipt receipt;;
  reject_if
    (contains_key (g_receipts g) (rc_receipt_id receipt)
     || any (λ known, bool_decide (rc_node_id known = rc_node_id receipt))
          (bt_values (g_receipts g))) (DuplicateReceipt (rc_receipt_id receipt));;
  node ← ok_or (g_nodes g !! rc_node_id receipt) (NodeNotFound (rc_node_id receipt));
  reject_if (is_none (wn_parent_node_id node) || bool_decide (wn_status node ≠ Active))
    (InvalidTransition (rc_node_id receipt));;
  reject_if (is_some (wn_execution_fence node)
             && bool_decide (rc_execution_fence receipt ≠ wn_execution_fence node))
    (StaleExecutionFence (rc_node_id receipt));;
  let b := wn_budget node in
  reject_if
    ((tokens_allocated b <? rc_tokens_consumed receipt)
     || (cost_micros_allocated b <? rc_cost_micros_consumed receipt)
     || (rc_tokens_consumed receipt <? tokens_consumed b)
     || (rc_cost_micros_consumed receipt <? cost_micros_consumed b))
    (ReceiptExceedsBudget (rc_node_id receipt));;
  let token_delta := rc_tokens_consumed receipt - tokens_consumed b in
  let cost_delta := rc_cost_micros_consumed receipt - cost_micros_consumed b in
  '(reserved_tokens, reserved_cost) ← reserved_child_budget g (rc_node_id receipt) None;
  reject_if
    ((saturating_sub (tokens_remaining b) reserved_tokens <? token_delta)
     || (saturating_sub (cost_remaining b) reserved_cost <? cost_delta))
    (ReceiptExceedsBudget (rc_node_id receipt));;
  Ok (token_delta, cost_delta).

(** The chain checks of [record_child_receipt]: the chain's next consumption. *)
Definition receipt_chain_checks (g : BoundedWorkGraph) (node_id chain_id : string)
    (token_delta cost_delta : Z) : result (Z * Z) :=
  chain ← expect (g_chain_budgets g !! chain_id);
  chain_consumed ← u64_add (cb_total_consumed_tokens chain) token_delta;
  chain_cost ← u64_add (cb_total_consumed_cost_micros chain) cost_delta;
  reject_if
    ((cb_root_budget_tokens chain
        <? saturating_add u64_max chain_consumed (cb_unauthorized_tokens chain))
     || (cb_root_budget_cost_micros chain
           <? saturating_add u64_max chain_cost (cb_unauthorized_cost_micros chain)))
    (ReceiptExceedsBudget node_id);;
  Ok (chain_consumed, chain_cost).

(** The assignments of [record_child_receipt] to the node. *)
Definition settle_node (receipt : ChildExecutionReceipt) (node : WorkNode) : WorkNode :=
  set_wn_lease_expires_epoch_ms None
    (set_wn_outcome_ref (Some (rc_outcome_ref receipt))
       (set_wn_status
          (match rc_outcome receipt with
           | Accepted | Partial => Completed
           | Rejected => Failed
           end)
          (set_consumed (rc_tokens_consumed receipt) (rc_cost_micros_consumed receipt) node))).

Definition record_child_receipt (receipt : ChildExecutionReceipt) : graph_op () :=
  g ← get;
  '(token_delta, cost_delta) ← lift (receipt_node_checks g receipt);
  let node_id := rc_node_id receipt in
  root ← lift (chain_id_for_node g node_id);
  chain_id ← lift (expect root);
  modify (ensure_chain_budget chain_id);;
  g ← get;
  '(chain_consumed, chain_cost) ←
    lift (receipt_chain_checks g node_id chain_id token_delta cost_delta);
  modify (update_node node_id (settle_node receipt));;
  modify (end_incarnation node_id);;
  modify (λ g, set_g_chain_budgets
    (alter (set_chain_consumed chain_consumed chain_cost) chain_id (g_chain_budgets g)) g);;
  modify (λ g, set_g_receipts (<[rc_receipt_id receipt := receipt]> (g_receipts g)) g).

Definition receipt_of (g : BoundedWorkGraph) (node_id : string) : option ChildExecutionReceipt :=
  find_first (λ receipt, bool_decide (rc_node_id receipt = node_id)) (bt_values (g_receipts g)).

Definition evaluate_child_outcome (g : BoundedWorkGraph) (node_id : string) : result ChildOutcome :=
  validate_identifier node_id "node_id";;
  ok_or (rc_outcome <$> receipt_of g node_id) (MissingReceipt node_id).

Definition mark_accepted_path (node_ids : list string) : graph_op () :=
  g ← get;
  accepted ← lift (foldM (λ accepted node_id,
      validate_identifier node_id "node_id";;
      receipt ← ok_or (receipt_of g node_id) (MissingReceipt node_id);
      reject_if (bool_decide (rc_outcome receipt ≠ Accepted)) (RejectedAcceptedPath node_id);;
      lineage ← node_lineage g node_id;
      Ok (accepted ∪ list_to_set lineage)) (∅ : gset string) node_ids);
  modify (set_g_accepted_path accepted).

Definition is_on_accepted_path (g : BoundedWorkGraph) (node_id : string) : bool :=
  bool_decide (node_id ∈ g_accepted_path g).

(** ** Reports *)

(** [candidates.entry(key).or_default().entry(value).or_default().push(id)] *)
Definition push_candidate (candidates : gmap string (gmap string (list string)))
    (key value id : string) : gmap string (gmap string (list string)) :=
  let values := default ∅ (candidates !! key) in
  <[key := <[value := default [] (values !! value) ++ [id]]> values]> candidates.

Definition fuse_candidates (g : BoundedWorkGraph) : gmap string (gmap string (list string)) :=
  foldl (λ candidates receipt,
      if negb (bool_decide (rc_node_id receipt ∈ g_accepted_path g)) then candidates
      else foldl (λ candidates claim,
             push_candidate candidates (claim_key claim) (claim_value claim) (rc_node_id receipt))
           candidates (rc_claims receipt))
    ∅ (bt_values (g_receipts g)).

Definition fuse_accepted_results (g : BoundedWorkGraph) : result FusedResults :=
  foldM (λ fused '(key, values),
      if map_len values =? 1 then
        value ← expect (head (bt_keys values));
        Ok (MkFused (<[key := value]> (fused_accepted fused)) (fused_conflicts fused))
      else
        let node_ids := dedup (sort_strings (concat (bt_values values))) in
        Ok (MkFused (fused_accepted fused)
              (fused_conflicts fused ++ [MkConflict key (bt_keys values) node_ids])))
    (MkFused ∅ []) (bt_iter (fuse_candidates g)).

Definition attribution (g : BoundedWorkGraph) : result WorkAttribution :=
  foldM (λ r node,
      let '(tokens, cost) :=
        match g_failed_spend g !! wn_node_id node with
        | None => (tokens_consumed (wn_budget node), cost_micros_consumed (wn_budget node))
        | Some spend => (sp_tokens_consumed spend, sp_cost_micros_consumed spend)
        end in
      if bool_decide (wn_node_id node ∈ g_accepted_path g) then
        token_total ← u64_add (at_accepted_tokens r) tokens;
        cost_total ← u64_add (at_accepted_cost_micros r) cost;
        Ok (MkAttribution token_total cost_total (at_waste_tokens r) (at_waste_cost_micros r))
      else
        token_total ← u64_add (at_waste_tokens r) tokens;
        cost_total ← u64_add (at_waste_cost_micros r) cost;
        Ok (MkAttribution (at_accepted_tokens r) (at_accepted_cost_micros r) token_total cost_total))
    (MkAttribution 0 0 0 0) (bt_values (g_nodes g)).

Definition team_value_report (g : BoundedWorkGraph) : result TeamValueReport :=
  a ← attribution g;
  total_tokens ← u64_add (at_accepted_tokens a) (at_waste_tokens a);
  total_cost_micros ← u64_add (at_accepted_cost_micros a) (at_waste_cost_micros a);
  let accepted_cost_basis_points :=
    if total_cost_micros =? 0 then 0
    else
      let ratio := at_accepted_cost_micros a * 10000 / total_cost_micros in
      if ratio <=? u16_max then ratio else 10000 in
  Ok (MkTeamValue (at_accepted_tokens a) total_tokens (at_accepted_cost_micros a)
        total_cost_micros (at_waste_tokens a) (at_waste_cost_micros a)
        accepted_cost_basis_points).

(** ** Observation for controllers *)
Record NodeObservation := MkNodeObservation {
  ob_node_id : string;
  ob_agent_id : string;
  ob_parent_node_id : option string;
  ob_status : NodeStatus;
  ob_execution_started : bool;
  ob_process_exit : string;
  ob_stop_reason : option StopReason;
  ob_tokens_consumed : Z;
  ob_tokens_remaining : Z;
  ob_cost_micros_consumed : Z;
  ob_cost_micros_remaining : Z;
  ob_accepted : bool;
}.

(** The JSON object before [revision] and [unchanged] are added. *)
Record GraphObservation := MkGraphObservation {
  ob_graph_id : string;
  ob_max_concurrency : Z;
  ob_nodes : list NodeObservation;
}.

Inductive Observation :=
| Unchanged (graph_id revision : string)
| Changed (observation : GraphObservation) (revision : string).

Definition observe_node (g : BoundedWorkGraph) (node : WorkNode) : NodeObservation := {|
  ob_node_id := wn_node_id node;
  ob_agent_id := wn_agent_id node;
  ob_parent_node_id := wn_parent_node_id node;
  ob_status := wn_status node;
  ob_execution_started := wn_execution_started node;
  ob_process_exit :=
    if negb (wn_execution_started node) then "not_started"
    else if execution_exit_unconfirmed node then "unconfirmed" else "confirmed";
  ob_stop_reason := wn_stop_reason node;
  ob_tokens_consumed := tokens_consumed (wn_budget node);
  ob_tokens_remaining := tokens_remaining (wn_budget node);
  ob_cost_micros_consumed := cost_micros_consumed (wn_budget node);
  ob_cost_micros_remaining := cost_remaining (wn_budget node);
  ob_accepted := bool_decide (wn_node_id node ∈ g_accepted_path g);
|}.

Section observation.
Context `{Blake3}.
(** [serde_json::Value::to_string]: third-party code, a parameter. *)
Context (to_json : GraphObservation → string).

Definition observe_if_changed (g : BoundedWorkGraph) (if_revision : option string) : Observation :=
  let observation :=
    MkGraphObservation (g_graph_id g) (local_concurrency_limit g)
      (observe_node g <$> bt_values (g_nodes g)) in
  let revision := blake3_hex (to_json observation) in
  if bool_decide (if_revision = Some revision) then Unchanged (g_graph_id g) revision
  else Changed observation revision.

Definition observation (g : BoundedWorkGraph) : Observation := observe_if_changed g None.
End observation.
