(* ===== verification/GraphLineage.v ===== *)
(** * Parent walks

    What the loops over parent links compute.  [path_up nodes id l] is the walk
    from [id] to its root, [id] first; on a store where it exists,
    [chain_id_for_node] is its last element and both lineage functions are its
    reversal, within the fuel the model gives them. *)
From S2P Require Import Prelude BTree Text Hashing Float64 BudgetCascade GraphModel ControlOps.
#[local] Open Scope Z_scope.

Inductive path_up (ns : gmap string WorkNode) : string → list string → Prop :=
| path_root id n :
    ns !! id = Some n → wn_parent_node_id n = None → path_up ns id [id]
| path_step id n p l :
    ns !! id = Some n → wn_parent_node_id n = Some p → path_up ns p l → path_up ns id (id :: l).

(** A node's depth is one more than its parent's, and a root's is zero. *)
Definition ranked (ns : gmap string WorkNode) : Prop :=
  ∀ id n, ns !! id = Some n →
    0 ≤ wn_depth n ∧
    match wn_parent_node_id n with
    | None => wn_depth n = 0
    | Some p => ∃ pn, ns !! p = Some pn ∧ wn_depth n = wn_depth pn + 1
    end.

Section paths.
Context (ns : gmap string WorkNode).

Lemma path_up_head id l : path_up ns id l → head l = Some id.
Proof. by destruct 1. Qed.

Lemma path_up_nonempty id l : path_up ns id l → l ≠ [].
Proof. by destruct 1. Qed.

Lemma path_up_det id l1 l2 : path_up ns id l1 → path_up ns id l2 → l1 = l2.
Proof.
  intros H1. revert l2. induction H1 as [id n Hn Hp|id n p l Hn Hp H1 IH]; intros l2 H2;
    inversion H2; subst; simplify_map_eq; [done|]. f_equal. by apply IH.
Qed.

Lemma path_up_in id l x :
  path_up ns id l → x ∈ l → ∃ l', path_up ns x l' ∧ l' `suffix_of` l.
Proof.
  induction 1 as [id n Hn Hp|id n p l Hn Hp H1 IH]; intros Hx.
  - apply list_elem_of_singleton in Hx as ->. exists [id]. split; [by econstructor|done].
  - apply elem_of_cons in Hx as [->|Hx].
    + exists (id :: l). split; [by econstructor|done].
    + destruct (IH Hx) as (l' & Hl' & Hs). exists l'. split; [done|]. by apply suffix_cons_r.
Qed.

Lemma path_up_NoDup id l : path_up ns id l → NoDup l.
Proof.
  induction 1 as [id n Hn Hp|id n p l Hn Hp H1 IH]; [apply NoDup_singleton|].
  apply NoDup_cons. split; [|done]. intros Hin.
  destruct (path_up_in _ _ _ H1 Hin) as (l' & Hl' & Hs%suffix_length).
  assert (l' = id :: l) as -> by (eapply path_up_det; [done|by econstructor]).
  cbn in Hs. lia.
Qed.

Lemma path_up_dom id l x : path_up ns id l → x ∈ l → is_Some (ns !! x).
Proof.
  intros H Hx. destruct (path_up_in _ _ _ H Hx) as (l' & Hl' & _). inversion Hl'; eauto.
Qed.

Lemma path_up_length id l : path_up ns id l → (length l ≤ size ns)%nat.
Proof.
  intros H. rewrite <-size_dom.
  rewrite <-(size_list_to_set (C := gset string)) by (by eapply path_up_NoDup).
  apply subseteq_size. intros x Hx%elem_of_list_to_set. apply elem_of_dom.
  by eapply path_up_dom.
Qed.

Lemma path_up_root id l :
  path_up ns id l → ∃ r n, last l = Some r ∧ ns !! r = Some n ∧ wn_parent_node_id n = None.
Proof.
  induction 1 as [id n Hn Hp|id n p l Hn Hp H1 IH]; [by exists id, n|].
  destruct IH as (r & rn & Hl & Hr & Hrp). exists r, rn.
  destruct l as [|a l]; [by apply path_up_nonempty in H1|]. by rewrite last_cons_cons.
Qed.

Lemma path_up_last_cons id p l : path_up ns p l → last (id :: l) = last l.
Proof. intros H. destruct l; [by apply path_up_nonempty in H|done]. Qed.

(** Every element of a walk has the root of the walk. *)
Lemma path_up_in_last id l x l' :
  path_up ns id l → x ∈ l → path_up ns x l' → last l' = last l.
Proof.
  intros H Hx Hl'. destruct (path_up_in _ _ _ H Hx) as (l2 & Hl2 & [pre ->]).
  rewrite (path_up_det _ _ _ Hl' Hl2), last_app.
  destruct (last l2) eqn:E; [done|]. apply last_None in E as ->.
  by apply path_up_nonempty in Hl2.
Qed.

Lemma ranked_path id n :
  ranked ns → ns !! id = Some n →
  ∃ l, path_up ns id l ∧ Z.of_nat (length l) = wn_depth n + 1.
Proof.
  intros Hr. remember (Z.to_nat (wn_depth n)) as d eqn:Hd. revert id n Hd.
  induction d as [|d IH]; intros id n Hd Hn; destruct (Hr id n Hn) as [H0 Hp];
    destruct (wn_parent_node_id n) as [p|] eqn:Ep.
  - destruct Hp as (pn & Hpn & Hdep). destruct (Hr p pn Hpn) as [Hp0 _]. lia.
  - exists [id]. split; [by econstructor|]. cbn. lia.
  - destruct Hp as (pn & Hpn & Hdep). destruct (IH p pn) as (l & Hl & Hlen); [lia|done|].
    exists (id :: l). split; [by econstructor|]. cbn. lia.
  - lia.
Qed.

(** ** The loops *)
Lemma chain_id_loop_path fuel id n l :
  path_up ns id l → ns !! id = Some n → (length l ≤ S fuel)%nat →
  chain_id_loop fuel ns id n = Ok (last l).
Proof.
  intros H. revert fuel n. induction H as [id n Hn Hp|id n p l Hn Hp H IH]; intros fuel n' Hn' Hf;
    simplify_eq.
  - destruct fuel; cbn [chain_id_loop]; by rewrite Hp.
  - destruct fuel as [|fuel]; cbn [chain_id_loop]; rewrite Hp.
    { cbn in Hf. destruct l; [by apply path_up_nonempty in H|cbn in Hf; lia]. }
    rewrite (path_up_last_cons id p) by done.
    destruct (path_up_dom _ _ p H) as [pn Hpn].
    { apply path_up_head in H. destruct l; [done|]. cbn in H. simplify_eq. left. }
    rewrite Hpn. apply IH; [done|]. cbn in Hf. lia.
Qed.

Lemma node_lineage_loop_path fuel id l acc :
  path_up ns id l → (length l ≤ fuel)%nat →
  node_lineage_loop fuel ns (Some id) acc = Ok (reverse l ++ acc).
Proof.
  intros H. revert fuel acc. induction H as [id n Hn Hp|id n p l Hn Hp H IH]; intros fuel acc Hf;
    (destruct fuel as [|fuel]; [cbn in Hf; lia|]); cbn [node_lineage_loop]; rewrite Hn, Hp.
  - by destruct fuel.
  - rewrite IH by (cbn in Hf; lia). by rewrite reverse_cons, <-(assoc_L (++)).
Qed.

Lemma checked_lineage_loop_path fuel id l seen acc :
  path_up ns id l → (length l ≤ fuel)%nat → (∀ x, x ∈ l → x ∉ seen) →
  checked_lineage_loop fuel ns seen acc id = Ok (reverse l ++ acc).
Proof.
  intros H. revert fuel seen acc.
  induction H as [id n Hn Hp|id n p l Hn Hp H IH]; intros fuel seen acc Hf Hs;
    (destruct fuel as [|fuel]; [cbn in Hf; lia|]); cbn [checked_lineage_loop];
    (rewrite bool_decide_eq_false_2 by (apply Hs; left)); rewrite Hn; cbn -[reverse app]; rewrite Hp; [done|].
  rewrite IH; [by rewrite reverse_cons, <-(assoc_L (++))|cbn in Hf; lia|].
  assert (NoDup (id :: l)) as [Hid _]%NoDup_cons
    by (eapply path_up_NoDup; by econstructor).
  intros x Hx. specialize (Hs x). set_solver.
Qed.

(** The validator's walk, when it succeeds, is the walk. *)
Lemma checked_lineage_loop_Ok fuel id seen acc r :
  checked_lineage_loop fuel ns seen acc id = Ok r →
  ∃ l, path_up ns id l ∧ r = reverse l ++ acc.
Proof.
  revert id seen acc. induction fuel as [|fuel IH]; intros id seen acc; cbn; [done|].
  intros H. inv_op H. destruct (wn_parent_node_id a0) as [p|] eqn:Ep.
  - apply IH in Hrun2 as (l & Hl & ->). exists (id :: l). split; [by econstructor|].
    by rewrite reverse_cons, <-(assoc_L (++)).
  - injection Hrun2 as <-. exists [id]. split; [by econstructor|done].
Qed.

Lemma checked_lineage_loop_not_hang fuel id seen acc :
  seen ⊆ dom ns → (size ns < fuel + size seen)%nat →
  checked_lineage_loop fuel ns seen acc id ≠ Hang.
Proof.
  revert id seen acc. induction fuel as [|fuel IH]; intros id seen acc Hs Hf.
  - apply subseteq_size in Hs. rewrite size_dom in Hs. lia.
  - cbn. case_bool_decide as Hid; [done|]. cbn.
    destruct (ns !! id) as [n|] eqn:Hn; [|done]. cbn.
    destruct (wn_parent_node_id n) as [p|]; [|done].
    apply IH; [|rewrite size_union, size_singleton by set_solver; lia].
    apply union_subseteq. split; [|done].
    intros x ->%elem_of_singleton. apply elem_of_dom. eauto.
Qed.

Lemma checked_lineage_loop_not_panic fuel id seen acc :
  checked_lineage_loop fuel ns seen acc id ≠ Panic.
Proof.
  revert id seen acc. induction fuel as [|fuel IH]; intros id seen acc; cbn; [done|].
  case_bool_decide; [done|]. cbn. destruct (ns !! id) as [n|]; [|done]. cbn.
  destruct (wn_parent_node_id n); [apply IH|done].
Qed.
End paths.

(** ** On a graph *)
Section graph_paths.
Context (g : BoundedWorkGraph).
Notation ns := (g_nodes g).

Lemma chain_id_for_node_path id l :
  path_up ns id l → chain_id_for_node g id = Ok (last l).
Proof.
  intros H. unfold chain_id_for_node.
  destruct (path_up_dom ns id l id H) as [n Hn].
  { apply path_up_head in H. destruct l; [done|]. cbn in H. simplify_eq. left. }
  rewrite Hn. apply chain_id_loop_path; [done..|]. apply path_up_length in H. lia.
Qed.

Lemma node_lineage_path id l : path_up ns id l → node_lineage g id = Ok (reverse l).
Proof.
  intros H. unfold node_lineage.
  rewrite (node_lineage_loop_path ns _ _ l) by (done || by eapply path_up_length).
  by rewrite app_nil_r.
Qed.

Lemma checked_lineage_path id l : path_up ns id l → checked_lineage g id = Ok (reverse l).
Proof.
  intros H. unfold checked_lineage.
  rewrite (checked_lineage_loop_path ns _ _ l); [by rewrite app_nil_r|done| |set_solver].
  apply path_up_length in H. lia.
Qed.

Lemma checked_lineage_Ok id r :
  checked_lineage g id = Ok r → path_up ns id (reverse r).
Proof.
  intros (l & Hl & ->)%checked_lineage_loop_Ok. by rewrite app_nil_r, reverse_involutive.
Qed.

Lemma checked_lineage_total id :
  checked_lineage g id ≠ Hang ∧ checked_lineage g id ≠ Panic.
Proof.
  split; [|apply checked_lineage_loop_not_panic].
  apply checked_lineage_loop_not_hang; [set_solver|]. rewrite size_empty. lia.
Qed.
End graph_paths.
