(* ===== verification/GraphTree.v ===== *)
(** * The delegation tree and its budget dimensions

    The structure behind a bounded work graph: parent links that form a forest
    of bounded depth, a child index that mirrors them, and the two quantities,
    tokens and cost, that every budget carries and every check treats alike. *)
From S2P Require Import Prelude BTree Sums Text Hashing Float64 BudgetCascade GraphModel ControlOps.
From S2P Require Import GraphLineage.
#[local] Open Scope Z_scope.

(** ** Dimensions *)
Inductive dim := Tokens | Cost.

Definition alloc (d : dim) (b : WorkNodeBudget) : Z :=
  match d with Tokens => tokens_allocated b | Cost => cost_micros_allocated b end.
Definition used (d : dim) (b : WorkNodeBudget) : Z :=
  match d with Tokens => tokens_consumed b | Cost => cost_micros_consumed b end.
Definition remaining (d : dim) (b : WorkNodeBudget) : Z :=
  match d with Tokens => tokens_remaining b | Cost => cost_remaining b end.
Definition receipt_used (d : dim) (r : ChildExecutionReceipt) : Z :=
  match d with Tokens => rc_tokens_consumed r | Cost => rc_cost_micros_consumed r end.
Definition chain_root (d : dim) (c : ChainBudget) : Z :=
  match d with Tokens => cb_root_budget_tokens c | Cost => cb_root_budget_cost_micros c end.
Definition chain_total (d : dim) (c : ChainBudget) : Z :=
  match d with Tokens => cb_total_allocated_tokens c | Cost => cb_total_allocated_cost_micros c end.
Definition chain_spent (d : dim) (c : ChainBudget) : Z :=
  match d with Tokens => cb_total_consumed_tokens c | Cost => cb_total_consumed_cost_micros c end.
Definition chain_over (d : dim) (c : ChainBudget) : Z :=
  match d with Tokens => cb_unauthorized_tokens c | Cost => cb_unauthorized_cost_micros c end.

(** A budget whose consumption is within its allocation. *)
Definition budget_ok (b : WorkNodeBudget) : Prop :=
  ∀ d, 0 ≤ used d b ∧ used d b ≤ alloc d b ∧ alloc d b ≤ u64_max.

Lemma remaining_eq d b : budget_ok b → remaining d b = alloc d b - used d b.
Proof.
  intros H. specialize (H d).
  destruct d; unfold remaining, tokens_remaining, cost_remaining, saturating_sub; cbn in *; lia.
Qed.

Lemma validate_budget_ok b : budget_ok b → validate_budget b = Ok ().
Proof.
  intros H. unfold validate_budget. destruct (H Tokens) as (_ & H1 & _), (H Cost) as (_ & H2 & _).
  cbn in *. apply reject_if_Ok. rewrite orb_false_iff, !Z.ltb_ge. done.
Qed.

(** ** The tree *)
Record tree_ok (g : BoundedWorkGraph) : Prop := {
  tree_ranked : ranked (g_nodes g);
  tree_depth id n : g_nodes g !! id = Some n → wn_depth n ≤ g_max_depth g;
  tree_children p c :
    c ∈ children_of g p ↔ ∃ n, g_nodes g !! c = Some n ∧ wn_parent_node_id n = Some p;
  tree_nodup p : NoDup (children_of g p);
  tree_keys p : is_Some (g_children g !! p) → is_Some (g_nodes g !! p);
  tree_fan p : vec_len (children_of g p) ≤ g_max_fan_out g;
}.

(** Reservations: complete, for absent children of present parents that may
    still delegate. *)
Record pending_ok (g : BoundedWorkGraph) : Prop := {
  pend_dom c : is_Some (g_pending_child_budgets g !! c) ↔ is_Some (g_pending_child_parents g !! c);
  pend_fresh c : is_Some (g_pending_child_budgets g !! c) → g_nodes g !! c = None;
  pend_parent c p : g_pending_child_parents g !! c = Some p →
    ∃ n, g_nodes g !! p = Some n ∧ wn_depth n < g_max_depth g;
  pend_budget c b : g_pending_child_budgets g !! c = Some b → budget_ok b;
  pend_id c : is_Some (g_pending_child_budgets g !! c) →
    validate_identifier c "pending_child_id" = Ok ();
}.

Section tree.
Context {g : BoundedWorkGraph} (Ht : tree_ok g).

Lemma tree_path id n : g_nodes g !! id = Some n →
  ∃ l, path_up (g_nodes g) id l ∧ Z.of_nat (length l) = wn_depth n + 1.
Proof. apply ranked_path, Ht. Qed.

Lemma tree_depth_nonneg id n : g_nodes g !! id = Some n → 0 ≤ wn_depth n.
Proof. intros Hn. by apply (tree_ranked _ Ht) in Hn as [? _]. Qed.

Lemma tree_child p c : c ∈ children_of g p →
  ∃ n pn, g_nodes g !! c = Some n ∧ wn_parent_node_id n = Some p
    ∧ g_nodes g !! p = Some pn ∧ wn_depth n = wn_depth pn + 1.
Proof.
  intros (n & Hn & Hp)%(tree_children _ Ht). pose proof (tree_ranked _ Ht _ _ Hn) as [_ H].
  rewrite Hp in H. destruct H as (pn & Hpn & Hd). eauto 6.
Qed.

(** A child has one parent. *)
Lemma tree_child_unique p q c : c ∈ children_of g p → c ∈ children_of g q → p = q.
Proof.
  intros (n & Hn & Hp)%(tree_children _ Ht) (n' & Hn' & Hq)%(tree_children _ Ht). congruence.
Qed.

Lemma tree_no_children p : g_nodes g !! p = None → children_of g p = [].
Proof.
  intros Hp. unfold children_of. destruct (g_children g !! p) as [l|] eqn:E; [|done].
  destruct (tree_keys _ Ht p) as [n Hn]; [eauto|congruence].
Qed.
End tree.

(** ** Roots *)

(** The chain a node belongs to. *)
Definition root_of (g : BoundedWorkGraph) (id : string) : option string :=
  match chain_id_for_node g id with Ok r => r | _ => None end.

Section roots.
Context (g : BoundedWorkGraph).

Lemma root_of_path id l : path_up (g_nodes g) id l → root_of g id = last l.
Proof. intros H. unfold root_of. by rewrite (chain_id_for_node_path g id l). Qed.

Lemma root_of_None id : g_nodes g !! id = None → root_of g id = None.
Proof. intros H. unfold root_of, chain_id_for_node. by rewrite H. Qed.

Lemma root_of_parent id n p l :
  g_nodes g !! id = Some n → wn_parent_node_id n = Some p → path_up (g_nodes g) p l →
  root_of g id = root_of g p.
Proof.
  intros Hn Hp Hl. rewrite (root_of_path p l) by done.
  rewrite (root_of_path id (id :: l)) by by econstructor. by eapply path_up_last_cons.
Qed.

Lemma root_of_root id n :
  g_nodes g !! id = Some n → wn_parent_node_id n = None → root_of g id = Some id.
Proof. intros Hn Hp. by rewrite (root_of_path id [id]) by by econstructor. Qed.

Lemma chain_id_root id n :
  tree_ok g → g_nodes g !! id = Some n → chain_id_for_node g id = Ok (root_of g id).
Proof.
  intros Ht Hn. destruct (tree_path Ht id n Hn) as (l & Hl & _).
  rewrite (root_of_path id l) by done. by apply chain_id_for_node_path.
Qed.

Lemma root_of_Some id n :
  tree_ok g → g_nodes g !! id = Some n →
  ∃ r rn, root_of g id = Some r ∧ g_nodes g !! r = Some rn ∧ wn_parent_node_id rn = None.
Proof.
  intros Ht Hn. destruct (tree_path Ht id n Hn) as (l & Hl & _).
  destruct (path_up_root _ _ _ Hl) as (r & rn & Hr & Hrn & Hp).
  exists r, rn. by rewrite (root_of_path id l).
Qed.

Lemma lineage_head id n :
  tree_ok g → g_nodes g !! id = Some n →
  ∃ lineage, checked_lineage g id = Ok lineage ∧ head lineage = root_of g id
    ∧ vec_len lineage = wn_depth n + 1.
Proof.
  intros Ht Hn. destruct (tree_path Ht id n Hn) as (l & Hl & Hlen).
  exists (reverse l). split; [by apply checked_lineage_path|]. split.
  - rewrite (root_of_path id l) by done. by rewrite head_reverse.
  - unfold vec_len. by rewrite length_reverse.
Qed.
End roots.

(** ** Graphs of the same shape

    Most operations change a node's status, fence or consumption and leave the
    tree, the reservations and the allocations alone. *)
Definition shape (n : WorkNode) : string * option string * Z * Z * Z * string :=
  (wn_node_id n, wn_parent_node_id n, wn_depth n, alloc Tokens (wn_budget n),
   alloc Cost (wn_budget n), wn_capsule_ref n).

Record same_shape (g g' : BoundedWorkGraph) : Prop := {
  shape_nodes : shape <$> g_nodes g = shape <$> g_nodes g';
  shape_children : g_children g = g_children g';
  shape_pending : g_pending_child_budgets g = g_pending_child_budgets g';
  shape_parents : g_pending_child_parents g = g_pending_child_parents g';
  shape_fan : g_max_fan_out g = g_max_fan_out g';
  shape_depth : g_max_depth g = g_max_depth g';
}.

#[export] Instance same_shape_refl : Reflexive same_shape.
Proof. intros g. by split. Qed.
#[export] Instance same_shape_sym : Symmetric same_shape.
Proof. intros g g' []. by split. Qed.
#[export] Instance same_shape_trans : Transitive same_shape.
Proof. intros g1 g2 g3 [] []. split; congruence. Qed.

Lemma shape_alloc d n n' : shape n = shape n' → alloc d (wn_budget n) = alloc d (wn_budget n').
Proof. intros [=]. by destruct d. Qed.

Section same_shape.
Context {g g' : BoundedWorkGraph} (Hs : same_shape g g').

Lemma shape_lookup id n : g_nodes g !! id = Some n →
  ∃ n', g_nodes g' !! id = Some n' ∧ shape n = shape n'.
Proof.
  intros Hn. pose proof (f_equal (λ m, m !! id) (shape_nodes _ _ Hs)) as H. cbn in H.
  rewrite !lookup_fmap, Hn in H. destruct (g_nodes g' !! id) as [n'|]; cbn in H; [|done].
  exists n'. split; [done|congruence].
Qed.

Lemma shape_lookup_None id : g_nodes g !! id = None → g_nodes g' !! id = None.
Proof.
  intros Hn. pose proof (f_equal (λ m, m !! id) (shape_nodes _ _ Hs)) as H. cbn in H.
  rewrite !lookup_fmap, Hn in H. by destruct (g_nodes g' !! id).
Qed.

Lemma shape_children_of p : children_of g p = children_of g' p.
Proof. unfold children_of. by rewrite (shape_children _ _ Hs). Qed.

Lemma shape_path id l : path_up (g_nodes g) id l → path_up (g_nodes g') id l.
Proof.
  induction 1 as [id n Hn Hp|id n p l Hn Hp _ IH];
    apply shape_lookup in Hn as (n' & Hn' & [=]); [eapply path_root|eapply path_step]; try done;
    congruence.
Qed.
End same_shape.

Lemma shape_root_of g g' id : tree_ok g → same_shape g g' → root_of g' id = root_of g id.
Proof.
  intros Ht Hs. destruct (g_nodes g !! id) as [n|] eqn:Hn.
  - destruct (tree_path Ht id n Hn) as (l & Hl & _).
    rewrite (root_of_path g id l), (root_of_path g' id l); [done|by apply (shape_path Hs)|done].
  - rewrite !root_of_None; [done|done|by apply (shape_lookup_None Hs)].
Qed.

Lemma shape_tree_ok g g' : same_shape g g' → tree_ok g → tree_ok g'.
Proof.
  intros Hs [H1 H2 H3 H4 H5 H6]. pose proof (symmetry Hs) as Hs'. split.
  - intros id n' Hn'. destruct (shape_lookup Hs' _ _ Hn') as (n & Hn & [= E1 E2 E3 E4 E5 E6]).
    destruct (H1 _ _ Hn) as [Hd Hp]. rewrite E3, E2. split; [done|].
    destruct (wn_parent_node_id n) as [p|]; [|done]. destruct Hp as (pn & Hpn & Hpd).
    destruct (shape_lookup Hs _ _ Hpn) as (pn' & Hpn' & [=]). exists pn'. split; [done|]. congruence.
  - intros id n' Hn'. destruct (shape_lookup Hs' _ _ Hn') as (n & Hn & [=]).
    rewrite <-(shape_depth _ _ Hs). apply H2 in Hn. congruence.
  - intros p c. rewrite <-(shape_children_of Hs), H3. split; intros (n & Hn & Hp).
    + destruct (shape_lookup Hs _ _ Hn) as (n' & Hn' & [=]). exists n'. split; congruence.
    + destruct (shape_lookup Hs' _ _ Hn) as (n' & Hn' & [=]). exists n'. split; congruence.
  - intros p. rewrite <-(shape_children_of Hs). apply H4.
  - intros p Hp. rewrite <-(shape_children _ _ Hs) in Hp. apply H5 in Hp as [n Hn].
    destruct (shape_lookup Hs _ _ Hn) as (n' & Hn' & _). eauto.
  - intros p. rewrite <-(shape_children_of Hs), <-(shape_fan _ _ Hs). apply H6.
Qed.

Lemma shape_pending_ok g g' : same_shape g g' → pending_ok g → pending_ok g'.
Proof.
  intros Hs [H1 H2 H3 H4 H5]. pose proof Hs as [_ _ E2 E3 _ E5].
  split; rewrite <-?E2, <-?E3, <-?E5; try done.
  - intros c Hc. apply (shape_lookup_None Hs). by apply H2.
  - intros c p (n & Hn & Hd)%H3. destruct (shape_lookup Hs _ _ Hn) as (n' & Hn' & [=]).
    exists n'. split; [done|]. congruence.
Qed.

(** Updating one node in a way that keeps its shape. *)
Lemma update_node_shape g id f :
  (∀ n, g_nodes g !! id = Some n → shape (f n) = shape n) → same_shape g (update_node id f g).
Proof.
  intros Hf. split; try done. apply map_eq. intros k. cbn. rewrite !lookup_fmap.
  destruct (decide (id = k)) as [<-|Hk].
  - rewrite lookup_alter_eq. destruct (g_nodes g !! id) as [n|] eqn:E; [|done]. cbn. by rewrite Hf.
  - by rewrite lookup_alter_ne.
Qed.
