(* ===== verification/Reserve.v ===== *)
(** * Reserved budget

    [reserved_child_budget] walks a worklist; what it computes is a sum over the
    part of the tree a node answers for: each child counts its allocation, or,
    once settled by a measured receipt, its consumption and whatever its own
    children still hold, and each pending reservation counts in full.  On a
    well-formed graph the walk terminates within its fuel, never meets a node
    twice and returns that sum. *)
From S2P Require Import Prelude BTree Sums Text Hashing Float64 BudgetCascade GraphModel ControlOps.
From S2P Require Import GraphLineage GraphTree.
#[local] Open Scope Z_scope.

(** The entry the walk leaves out: one child of the node it starts from. *)
Definition skipped (parent_id : string) (exclude : option string) (current child : string) : bool :=
  bool_decide (current = parent_id) && bool_decide (Some child = exclude).

Definition settled_at (g : BoundedWorkGraph) (c : string) : bool :=
  match g_nodes g !! c with Some n => settled g c n | None => false end.

(** What a child counts for itself. *)
Definition direct (d : dim) (g : BoundedWorkGraph) (c : string) : Z :=
  match g_nodes g !! c with
  | Some n => if settled g c n then used d (wn_budget n) else alloc d (wn_budget n)
  | None => 0
  end.

Section held.
Context (d : dim) (g : BoundedWorkGraph) (parent_id : string) (exclude : option string).

Definition pending_entry (current c : string) (b : WorkNodeBudget) : Z :=
  if skipped parent_id exclude current c
     || bool_decide (g_pending_child_parents g !! c ≠ Some current)
  then 0 else alloc d b.

Definition pending_share (current : string) : Z :=
  msum (pending_entry current) (g_pending_child_budgets g).

Definition share (held : string → Z) (current c : string) : Z :=
  if skipped parent_id exclude current c then 0
  else direct d g c + (if settled_at g c then held c else 0).

(** The sum for a tree of at most [k] levels. *)
Fixpoint held (k : nat) (current : string) : Z :=
  match k with
  | O => 0
  | S k => zsum (share (held k) current <$> children_of g current) + pending_share current
  end.

Definition levels : nat := S (Z.to_nat (g_max_depth g)).
Definition reserve (current : string) : Z := held levels current.
End held.

(** What the descendants of a node hold of its budget. *)
Definition claimed (d : dim) (g : BoundedWorkGraph) (p : string) : Z := reserve d g p None p.

Lemma skipped_None parent_id current c : skipped parent_id None current c = false.
Proof. unfold skipped. by rewrite andb_false_r. Qed.

Lemma held_None d g p p' k current : held d g p None k current = held d g p' None k current.
Proof.
  revert current. induction k as [|k IH]; intros current; cbn; [done|]. f_equal.
  - apply zsum_ext. intros c _. unfold share. rewrite !skipped_None. by rewrite IH.
  - apply msum_ext. intros c b _. unfold pending_entry. by rewrite !skipped_None.
Qed.

Record budgets_ok (g : BoundedWorkGraph) : Prop := {
  bud_nodes id n : g_nodes g !! id = Some n → budget_ok (wn_budget n);
  bud_pending c b : g_pending_child_budgets g !! c = Some b → budget_ok b;
}.

Section reserve.
Context {g : BoundedWorkGraph} (Ht : tree_ok g) (Hb : budgets_ok g).
Context (parent_id : string) (exclude : option string).
Notation held d := (held d g parent_id exclude).
Notation reserve d := (reserve d g parent_id exclude).
Notation pending_share d := (pending_share d g parent_id exclude).
Notation pending_entry d := (pending_entry d g parent_id exclude).
Notation share d := (share d g parent_id exclude).

Lemma direct_nonneg d c : 0 ≤ direct d g c.
Proof.
  unfold direct. destruct (g_nodes g !! c) as [n|] eqn:Hn; [|done].
  pose proof (bud_nodes _ Hb _ _ Hn d). destruct (settled g c n); lia.
Qed.

Lemma pending_entry_nonneg d current c b :
  g_pending_child_budgets g !! c = Some b → 0 ≤ pending_entry d current c b.
Proof.
  intros Hc. unfold pending_entry. pose proof (bud_pending _ Hb _ _ Hc d).
  destruct (_ || _); lia.
Qed.

Lemma pending_share_nonneg d current : 0 ≤ pending_share d current.
Proof. apply msum_nonneg. intros c b. apply pending_entry_nonneg. Qed.

Lemma share_nonneg d h current c : (∀ x, 0 ≤ h x) → 0 ≤ share d h current c.
Proof.
  intros Hh. unfold share. pose proof (direct_nonneg d c). pose proof (Hh c).
  destruct (skipped _ _ _ _); [done|]. destruct (settled_at g c); lia.
Qed.

Lemma held_nonneg d k current : 0 ≤ held d k current.
Proof.
  revert current. induction k as [|k IH]; intros current; cbn; [done|].
  pose proof (pending_share_nonneg d current).
  assert (0 ≤ zsum (share d (held d k) current <$> children_of g current)); [|lia].
  apply zsum_nonneg. intros c _. by apply share_nonneg.
Qed.

Lemma held_S d k current :
  held d (S k) current
    = zsum (share d (held d k) current <$> children_of g current) + pending_share d current.
Proof. done. Qed.

(** Beyond the depth of the tree more levels change nothing. *)
Lemma held_stable d k current :
  (1 ≤ k)%nat →
  (∀ n, g_nodes g !! current = Some n → g_max_depth g - wn_depth n < Z.of_nat k) →
  held d (S k) current = held d k current.
Proof.
  revert current. induction k as [|k IH]; intros current Hk Hd; [lia|].
  rewrite (held_S _ k), (held_S _ (S k)). f_equal. apply zsum_ext. intros c Hc.
  destruct (tree_child Ht _ _ Hc) as (n & pn & Hn & _ & Hpn & Hdep).
  pose proof (tree_depth _ Ht _ _ Hn). specialize (Hd _ Hpn).
  unfold Reserve.share. destruct (skipped _ _ _ _); [done|]. destruct (settled_at g c); [|done].
  f_equal. apply IH; [lia|]. intros n' Hn'. simplify_eq. lia.
Qed.

Lemma reserve_unfold d current :
  reserve d current
    = zsum (share d (reserve d) current <$> children_of g current) + pending_share d current.
Proof.
  unfold Reserve.reserve. rewrite <-held_stable.
  - done.
  - unfold levels. lia.
  - intros n Hn. pose proof (tree_depth_nonneg Ht _ _ Hn). unfold levels. lia.
Qed.

Lemma held_mono d k current : held d k current ≤ held d (S k) current.
Proof.
  revert current. induction k as [|k IH]; intros current; [apply held_nonneg|].
  rewrite (held_S _ k), (held_S _ (S k)). apply Z.add_le_mono_r, zsum_le. intros c _.
  unfold Reserve.share. destruct (skipped _ _ _ _); [done|]. destruct (settled_at g c); [|done].
  pose proof (IH c). lia.
Qed.

Lemma held_le_reserve d k current : held d k current ≤ reserve d current.
Proof.
  assert (∀ j, held d k current ≤ held d (j + k)%nat current) as H1.
  { induction j as [|j IH]; [done|]. etrans; [done|]. apply held_mono. }
  assert (∀ j, held d (j + levels g)%nat current = reserve d current) as H2.
  { induction j as [|j IH]; [done|]. rewrite <-IH. apply held_stable; [unfold levels; lia|].
    intros n Hn. pose proof (tree_depth_nonneg Ht _ _ Hn). unfold levels. lia. }
  rewrite <-(H2 k). rewrite Nat.add_comm. apply H1.
Qed.

Lemma reserve_nonneg d current : 0 ≤ reserve d current.
Proof. apply held_nonneg. Qed.

(** ** The loop *)
Definition total (d : dim) (st : reserve_state) : Z :=
  match d with Tokens => rs_tokens st | Cost => rs_cost st end.

(** What the walk still has to add once the children [ys] of [current] and,
    unless [stage] says so, its reservations remain to be counted. *)
Definition outstanding (d : dim) (current : string) (ys : list string) (ps : Z) (st : reserve_state) : Z :=
  total d st + zsum (share d (reserve d) current <$> ys) + ps
  + zsum (reserve d <$> rs_pending_parents st).

(** A node of the walk: where it started, or strictly below. *)
Definition below (q : string) : Prop :=
  q = parent_id ∨ ∃ n0 n, g_nodes g !! parent_id = Some n0 ∧ g_nodes g !! q = Some n
                         ∧ wn_depth n0 < wn_depth n.

(** The walk has left [done], will still go through the worklist, and has seen
    nothing but its start and children of [done]. *)
Record walk (done : gset string) (st : reserve_state) : Prop := {
  walk_nodup : NoDup (rs_pending_parents st);
  walk_todo q : q ∈ rs_pending_parents st → q ∉ done ∧ q ∈ rs_visited st ∧ below q;
  walk_done q : q ∈ done → q ∈ rs_visited st ∧ below q;
  walk_seen x : x ∈ rs_visited st → x = parent_id ∨ ∃ q, q ∈ done ∧ x ∈ children_of g q;
}.

Lemma below_child q c : below q → c ∈ children_of g q → below c ∧ c ≠ parent_id.
Proof.
  intros Hq (n & qn & Hn & _ & Hqn & Hd)%(tree_child Ht).
  destruct Hq as [->|(n0 & n' & Hn0 & Hn' & Hlt)]; simplify_eq.
  - split; [right; eauto 6 with lia|]. intros ->. simplify_eq. lia.
  - split; [right; exists n0, n; repeat split; try done; lia|]. intros ->. simplify_eq. lia.
Qed.

Lemma u64_add_fits x y : x + y ≤ u64_max → u64_add x y = Ok (x + y).
Proof. intros H. unfold u64_add, checked_add. by rewrite (proj2 (Z.leb_le _ _)). Qed.

Lemma zsum_reserve_nonneg d l : 0 ≤ zsum (reserve d <$> l).
Proof. apply zsum_nonneg. intros x _. apply reserve_nonneg. Qed.

Lemma zsum_share_nonneg d current ys : 0 ≤ zsum (share d (reserve d) current <$> ys).
Proof.
  apply zsum_nonneg. intros c _. apply share_nonneg. intros x. apply reserve_nonneg.
Qed.

(** One child. *)
Lemma reserve_child_step done current c ys ps st (T : dim → Z) :
  walk ({[current]} ∪ done) st → below current → NoDup (c :: ys) →
  (∀ x, x ∈ c :: ys → x ∈ children_of g current ∧ x ∉ rs_visited st) →
  (∀ d, 0 ≤ ps d) → (∀ d, T d ≤ u64_max) →
  (∀ d, outstanding d current (c :: ys) (ps d) st = T d) →
  ∃ st', reserve_child g parent_id exclude current st c = Ok st' ∧
    walk ({[current]} ∪ done) st' ∧
    (∀ x, x ∈ ys → x ∈ children_of g current ∧ x ∉ rs_visited st') ∧
    (∀ d, outstanding d current ys (ps d) st' = T d).
Proof.
  intros Hw Hcur Hnd Hys Hps HT Ho. apply NoDup_cons in Hnd as [Hc Hnd].
  destruct (Hys c) as [Hcc Hcv]; [left|].
  unfold reserve_child. fold (skipped parent_id exclude current c).
  unfold outstanding in Ho. setoid_rewrite fmap_cons in Ho. setoid_rewrite zsum_cons in Ho.
  destruct (skipped parent_id exclude current c) eqn:Hsk.
  { exists st. split; [done|]. split; [done|]. split; [set_solver|]. intros d.
    rewrite <-(Ho d). unfold outstanding, Reserve.share at 2. rewrite Hsk. lia. }
  rewrite bool_decide_eq_false_2 by done. cbn [reject_if].
  destruct (tree_child Ht _ _ Hcc) as (n & pn & Hn & _). rewrite Hn. cbn [ok_or].
  assert (∀ d, total d st + direct d g c + (if settled g c n then reserve d c else 0)
               + zsum (share d (reserve d) current <$> ys) + ps d
               + zsum (reserve d <$> rs_pending_parents st) = T d) as Ho'.
  { intros d. rewrite <-(Ho d). unfold Reserve.share at 2. rewrite Hsk.
    unfold settled_at. rewrite Hn. lia. }
  assert (∀ d, total d st + direct d g c ≤ u64_max) as Hfit.
  { intros d. pose proof (Ho' d). pose proof (HT d). pose proof (Hps d).
    pose proof (zsum_reserve_nonneg d (rs_pending_parents st)).
    pose proof (zsum_share_nonneg d current ys). pose proof (reserve_nonneg d c).
    destruct (settled g c n); lia. }
  assert (∀ d, direct d g c = if settled g c n then used d (wn_budget n) else alloc d (wn_budget n))
    as Hdir by (intros d; unfold direct; by rewrite Hn).
  destruct (below_child current c Hcur Hcc) as [Hbc Hcp].
  pose proof (Hfit Tokens) as HfT. pose proof (Hfit Cost) as HfC.
  rewrite Hdir in HfT, HfC. cbn [total used alloc] in HfT, HfC.
  cbn [mbind exec_mbind exec_bind]. rewrite u64_add_fits by done. cbn [exec_bind].
  rewrite u64_add_fits by done. cbn [exec_bind].
  eexists. split; [done|]. destruct Hw as [Hw1 Hw2 Hw3 Hw4].
  assert (c ∉ {[current]} ∪ done) as Hcd by (intros [??]%Hw3; done).
  assert (c ∉ rs_pending_parents st) as Hcw by (intros (_ & ? & _)%Hw2; done).
  split; [|split].
  - split; cbn [rs_pending_parents rs_visited].
    + destruct (settled g c n); [by apply NoDup_cons|done].
    + intros q Hq. assert (q = c ∨ q ∈ rs_pending_parents st) as [->|Hq']
        by (destruct (settled g c n); [by apply elem_of_cons in Hq|by right]).
      * set_solver.
      * destruct (Hw2 q Hq') as (? & ? & ?). set_solver.
    + intros q [? ?]%Hw3. set_solver.
    + intros x [->%elem_of_singleton|Hx]%elem_of_union; [|by apply Hw4].
      right. exists current. set_solver.
  - intros x Hx. cbn [rs_visited]. destruct (Hys x); [by right|]. set_solver.
  - intros d. rewrite <-(Ho' d), (Hdir d). unfold outstanding. cbn [rs_pending_parents].
    destruct d; cbn [total rs_tokens rs_cost]; destruct (settled g c n);
      rewrite ?fmap_cons, ?zsum_cons; cbn [used alloc]; lia.
Qed.

(** All children of one node. *)
Lemma reserve_children done current ys ps st (T : dim → Z) :
  walk ({[current]} ∪ done) st → below current → NoDup ys →
  (∀ x, x ∈ ys → x ∈ children_of g current ∧ x ∉ rs_visited st) →
  (∀ d, 0 ≤ ps d) → (∀ d, T d ≤ u64_max) →
  (∀ d, outstanding d current ys (ps d) st = T d) →
  ∃ st', foldM (reserve_child g parent_id exclude current) st ys = Ok st' ∧
    walk ({[current]} ∪ done) st' ∧ (∀ d, outstanding d current [] (ps d) st' = T d).
Proof.
  intros Hw Hcur Hnd Hys Hps HT Ho. revert st Hw Hys Ho.
  induction ys as [|c ys IH]; intros st Hw Hys Ho; [by exists st|].
  destruct (reserve_child_step done current c ys ps st T) as (st1 & Hrun & Hw1 & Hys1 & Ho1);
    try done.
  cbn [foldM]. rewrite Hrun. cbn [exec_bind]. apply IH; try done. by apply NoDup_cons in Hnd as [_ ?].
Qed.

(** The reservations of one node. *)
Lemma reserve_entries done current (es : list (string * WorkNodeBudget)) st (T : dim → Z) :
  walk done st → (∀ d, T d ≤ u64_max) →
  (∀ c b, (c, b) ∈ es → g_pending_child_budgets g !! c = Some b) →
  (∀ d, outstanding d current [] (zsum ((λ '(c, b), pending_entry d current c b) <$> es)) st = T d) →
  ∃ st', foldM (reserve_pending g parent_id exclude current) st es = Ok st' ∧
    walk done st' ∧ (∀ d, outstanding d current [] 0 st' = T d).
Proof.
  intros Hw HT. revert st Hw. induction es as [|[c b] es IH]; intros st Hw Hes Ho; [by exists st|].
  cbn [foldM reserve_pending]. fold (skipped parent_id exclude current c).
  assert (∀ d, total d st + pending_entry d current c b
               + zsum ((λ '(c, b), pending_entry d current c b) <$> es)
               + zsum (reserve d <$> rs_pending_parents st) = T d) as Ho1.
  { intros d. rewrite <-(Ho d). unfold outstanding. rewrite fmap_cons, zsum_cons.
    cbn [fmap list_fmap]. change (zsum []) with 0. lia. }
  assert (∀ c' b', (c', b') ∈ es → g_pending_child_budgets g !! c' = Some b') as Hes'
    by (intros; apply Hes; by right).
  unfold Reserve.pending_entry at 1 in Ho1.
  destruct (skipped _ _ _ _ || _) eqn:Hsk.
  { cbn [exec_bind]. by apply IH. }
  assert (∀ d, total d st + alloc d b ≤ u64_max) as Hfit.
  { intros d. pose proof (Ho1 d). pose proof (HT d).
    pose proof (zsum_reserve_nonneg d (rs_pending_parents st)).
    assert (0 ≤ zsum ((λ '(c, b), pending_entry d current c b) <$> es)); [|lia].
    apply zsum_nonneg. intros [c' b'] Hin. apply pending_entry_nonneg. by apply Hes'. }
  pose proof (Hfit Tokens) as HfT. pose proof (Hfit Cost) as HfC. cbn [total alloc] in HfT, HfC.
  cbn [mbind exec_mbind exec_bind]. rewrite u64_add_fits by done. cbn [exec_bind].
  rewrite u64_add_fits by done. cbn [exec_bind].
  apply IH; [|done|].
  - destruct Hw. by split.
  - intros d. rewrite <-(Ho1 d). unfold outstanding. cbn [rs_pending_parents fmap list_fmap].
    change (zsum []) with 0. destruct d; cbn [total alloc rs_tokens rs_cost]; lia.
Qed.

Lemma walk_size done st :
  walk done st → (size (list_to_set (rs_pending_parents st) ∪ done : gset string)
                  ≤ S (size (g_nodes g)))%nat.
Proof.
  intros [_ H1 H2 _].
  assert (list_to_set (rs_pending_parents st) ∪ done ⊆ {[parent_id]} ∪ dom (g_nodes g)) as Hsub.
  { assert (∀ q, below q → q ∈ ({[parent_id]} ∪ dom (g_nodes g) : gset string)) as Hbel.
    { intros q [->|(n0 & n & _ & Hn & _)]; [set_solver|]. apply elem_of_union_r, elem_of_dom. eauto. }
    intros q [Hq%elem_of_list_to_set|Hq]%elem_of_union; apply Hbel;
      [by apply H1 in Hq as (_ & _ & ?)|by apply H2 in Hq as [_ ?]]. }
  apply subseteq_size in Hsub. etrans; [exact Hsub|].
  rewrite size_union_alt, size_singleton.
  assert (dom (g_nodes g) ∖ {[parent_id]} ⊆ dom (g_nodes g)) as Hu%subseteq_size by set_solver.
  rewrite size_dom in Hu. lia.
Qed.

Lemma reserve_loop_sound fuel done st (T : dim → Z) :
  walk done st → (size (g_nodes g) < fuel + size done)%nat →
  (∀ d, T d ≤ u64_max) →
  (∀ d, total d st + zsum (reserve d <$> rs_pending_parents st) = T d) →
  ∃ st', reserve_loop fuel g parent_id exclude st = Ok st' ∧ ∀ d, total d st' = T d.
Proof.
  revert done st. induction fuel as [|fuel IH]; intros done st Hw Hf HT Ho;
    (destruct (rs_pending_parents st) as [|current rest] eqn:Ewl;
     [exists st; split; [cbn [reserve_loop]; by rewrite Ewl|]; intros d; rewrite <-(Ho d);
      change (zsum (reserve d <$> [])) with 0; lia|]).
  - exfalso. pose proof (walk_size _ _ Hw) as Hsz. rewrite Ewl in Hsz.
    assert (current ∉ done) as Hcd by (apply (walk_todo _ _ Hw); rewrite Ewl; left).
    assert ({[current]} ∪ done ⊆ list_to_set (current :: rest) ∪ done) as Hsub%subseteq_size
      by set_solver.
    rewrite size_union, size_singleton in Hsub by set_solver. lia.
  - cbn [reserve_loop]. rewrite Ewl.
    pose proof Hw as [Hw1 Hw2 Hw3 Hw4]. rewrite Ewl in Hw1, Hw2. apply NoDup_cons in Hw1 as [Hcr Hw1].
    destruct (Hw2 current) as (Hcd & Hcv & Hcb); [left|].
    destruct (reserve_children done current (children_of g current) (λ d, pending_share d current)
                (MkReserve (rs_tokens st) (rs_cost st) rest (rs_visited st)) T)
      as (st1 & Hrun1 & Hwk1 & Ho1); try done.
    + split; cbn [rs_pending_parents rs_visited]; [done| | |].
      * intros q Hq. destruct (Hw2 q) as (? & ? & ?); [by right|]. set_solver.
      * intros q [->%elem_of_singleton|Hq]%elem_of_union; [done|]. by apply Hw3.
      * intros x [->|(q & Hq & Hx)]%Hw4; [by left|right; exists q; set_solver].
    + apply (tree_nodup _ Ht).
    + intros x Hx. split; [done|]. cbn [rs_visited].
      intros [->|(q & Hq & Hxq)]%Hw4; [by eapply below_child|].
      assert (q = current) as -> by by eapply tree_child_unique. done.
    + intros d. apply pending_share_nonneg.
    + intros d. rewrite <-(Ho d), fmap_cons, zsum_cons, (reserve_unfold d current). unfold outstanding.
      destruct d; cbn [total rs_tokens rs_cost rs_pending_parents]; lia.
    + destruct (reserve_entries ({[current]} ∪ done) current (bt_iter (g_pending_child_budgets g)) st1 T)
        as (st2 & Hrun2 & Hwk2 & Ho2); try done.
      * intros c b. by rewrite elem_of_bt_iter.
      * intros d. rewrite msum_bt_iter. apply Ho1.
      * rewrite Hrun1, exec_bind_ret, Hrun2, exec_bind_ret.
        apply (IH ({[current]} ∪ done)); try done.
        -- rewrite size_union, size_singleton by set_solver. lia.
        -- intros d. rewrite <-(Ho2 d). unfold outstanding. cbn [fmap list_fmap zsum foldr]. lia.
Qed.

(** The walk returns the sums, whenever they fit. *)
Lemma reserved_child_budget_sum :
  (∀ d, reserve d parent_id ≤ u64_max) →
  reserved_child_budget g parent_id exclude = Ok (reserve Tokens parent_id, reserve Cost parent_id).
Proof.
  intros HT. unfold reserved_child_budget.
  destruct (reserve_loop_sound (S (size (g_nodes g))) ∅ (MkReserve 0 0 [parent_id] {[parent_id]})
              (λ d, reserve d parent_id)) as (st & Hrun & Hst); try done.
  - split; cbn [rs_pending_parents rs_visited].
    + apply NoDup_singleton.
    + intros q ->%list_elem_of_singleton. split; [set_solver|]. split; [set_solver|by left].
    + set_solver.
    + set_solver.
  - rewrite size_empty. lia.
  - intros d. cbn. destruct d; cbn [total rs_tokens rs_cost]; lia.
  - rewrite Hrun, exec_bind_ret. by rewrite <-(Hst Tokens), <-(Hst Cost).
Qed.
End reserve.

(** The walk without an excluded child returns what the node's descendants
    claim. *)
Lemma reserved_child_budget_claimed g p :
  tree_ok g → budgets_ok g → (∀ d, claimed d g p ≤ u64_max) →
  reserved_child_budget g p None = Ok (claimed Tokens g p, claimed Cost g p).
Proof. intros. by apply reserved_child_budget_sum. Qed.

(** Leaving a child out only lowers the sum. *)
Lemma reserve_exclude_le d g p ex k q :
  budgets_ok g → held d g p ex k q ≤ held d g p None k q.
Proof.
  intros Hb. revert q. induction k as [|k IH]; intros q; cbn [held]; [done|].
  apply Z.add_le_mono.
  - apply zsum_le. intros c _. unfold share. rewrite skipped_None.
    pose proof (direct_nonneg Hb d c). pose proof (IH c).
    pose proof (held_nonneg Hb p None d k c).
    destruct (skipped _ _ _ _), (settled_at g c); lia.
  - apply msum_le. intros c b Hc. unfold pending_entry. rewrite skipped_None.
    pose proof (bud_pending _ Hb _ _ Hc d). destruct (skipped _ _ _ _); cbn [orb]; [|done].
    case_bool_decide; lia.
Qed.
