(* ===== verification/Ledger.v ===== *)
(** * Chain accounting

    A chain budget records, for one root, the sum of the allocations of every
    node and reservation below it, the sum of their consumption and the greatest
    depth.  [chain_ok] states that the record agrees with the graph; under it the
    validator's own recomputation of those totals succeeds. *)
From S2P Require Import Prelude BTree Sums Text Hashing Float64 BudgetCascade GraphModel ControlOps.
From S2P Require Import Validate GraphLineage GraphTree Reserve.
#[local] Open Scope Z_scope.

Definition in_chain (g : BoundedWorkGraph) (c id : string) : bool :=
  bool_decide (root_of g id = Some c).

Section totals.
Context (d : dim) (g : BoundedWorkGraph) (c : string).

Definition node_allocated (id : string) (n : WorkNode) : Z :=
  if in_chain g c id then alloc d (wn_budget n) else 0.
Definition node_consumed (id : string) (n : WorkNode) : Z :=
  if in_chain g c id then used d (wn_budget n) else 0.
Definition node_level (id : string) (n : WorkNode) : Z :=
  if in_chain g c id then wn_depth n else 0.

Definition pending_in_chain (child : string) : bool :=
  match g_pending_child_parents g !! child with Some p => in_chain g c p | None => false end.
Definition pending_allocated (child : string) (b : WorkNodeBudget) : Z :=
  if pending_in_chain child then alloc d b else 0.
(** A reservation counts for the depth its child will have. *)
Definition pending_level (child : string) (b : WorkNodeBudget) : Z :=
  if pending_in_chain child then
    match g_pending_child_parents g !! child ≫= λ p, g_nodes g !! p with
    | Some pn => wn_depth pn + 1
    | None => 0
    end
  else 0.

Definition chain_allocated : Z :=
  msum node_allocated (g_nodes g) + msum pending_allocated (g_pending_child_budgets g).
Definition chain_consumed : Z := msum node_consumed (g_nodes g).
Definition chain_depth : Z :=
  Z.max (mmax node_level (g_nodes g)) (mmax pending_level (g_pending_child_budgets g)).
End totals.

Record chain_ok (g : BoundedWorkGraph) (c : string) (cb : ChainBudget) : Prop := {
  chain_id_ok : cb_chain_id cb = c;
  chain_node : ∃ n, g_nodes g !! c = Some n ∧ wn_parent_node_id n = None
    ∧ ∀ d, chain_root d cb = alloc d (wn_budget n);
  chain_total_ok d : chain_total d cb = chain_allocated d g c;
  chain_spent_ok d : chain_spent d cb = chain_consumed d g c;
  chain_over_ok d : chain_over d cb = 0;
  chain_depth_ok : cb_depth cb = chain_depth g c;
  chain_fits d : chain_total d cb ≤ u64_max;
  chain_within d : chain_spent d cb ≤ chain_root d cb;
}.

Definition totals_of (d : dim) (t : chain_totals) : Z * Z * Z :=
  match d with
  | Tokens => (ct_allocated_tokens t, ct_consumed_tokens t, ct_unauthorized_tokens t)
  | Cost => (ct_allocated_cost t, ct_consumed_cost t, ct_unauthorized_cost t)
  end.

Section validate_chain.
Context {g : BoundedWorkGraph} (Ht : tree_ok g) (Hb : budgets_ok g) (Hp : pending_ok g).
Context (Hkey : ∀ id n, g_nodes g !! id = Some n → wn_node_id n = id).
Context (Hfs : g_failed_spend g = ∅) (c : string).
Context (Hfit : ∀ d, chain_allocated d g c ≤ u64_max).

Lemma node_allocated_nonneg d id n :
  g_nodes g !! id = Some n → 0 ≤ node_allocated d g c id n.
Proof.
  intros Hn. unfold node_allocated. pose proof (bud_nodes _ Hb _ _ Hn d).
  destruct (in_chain g c id); lia.
Qed.

Lemma node_consumed_nonneg d id n :
  g_nodes g !! id = Some n → 0 ≤ node_consumed d g c id n ≤ node_allocated d g c id n.
Proof.
  intros Hn. unfold node_allocated, node_consumed. pose proof (bud_nodes _ Hb _ _ Hn d).
  destruct (in_chain g c id); lia.
Qed.

Lemma pending_allocated_nonneg d ch b :
  g_pending_child_budgets g !! ch = Some b → 0 ≤ pending_allocated d g c ch b.
Proof.
  intros Hn. unfold pending_allocated. pose proof (bud_pending _ Hb _ _ Hn d).
  destruct (pending_in_chain g c ch); lia.
Qed.

Lemma chain_consumed_le d : chain_consumed d g c ≤ msum (node_allocated d g c) (g_nodes g).
Proof. apply msum_le. intros id n Hn. by apply node_consumed_nonneg. Qed.

Lemma pending_total_nonneg d : 0 ≤ msum (pending_allocated d g c) (g_pending_child_budgets g).
Proof. apply msum_nonneg. intros ch b. apply pending_allocated_nonneg. Qed.

Definition entry {V} (f : string → V → Z) : string * V → Z := λ '(k, v), f k v.

(** The state of the validator's loop over the nodes with [ys] still to come. *)
Record nodes_left (ys : list (string * WorkNode)) (t : chain_totals) : Prop := {
  nl_elem id n : (id, n) ∈ ys → g_nodes g !! id = Some n;
  nl_sums d : ∃ a u, totals_of d t = (a, u, 0)
    ∧ a + zsum (entry (node_allocated d g c) <$> ys) = msum (node_allocated d g c) (g_nodes g)
    ∧ u + zsum (entry (node_consumed d g c) <$> ys) = msum (node_consumed d g c) (g_nodes g);
  nl_depth : Z.max (ct_depth t) (zmax (entry (node_level g c) <$> ys)) = mmax (node_level g c) (g_nodes g);
  nl_depth_nonneg : 0 ≤ ct_depth t;
}.

Lemma entries_nonneg {V} (f : string → V → Z) (m : gmap string V) ys :
  (∀ k v, m !! k = Some v → 0 ≤ f k v) → (∀ k v, (k, v) ∈ ys → m !! k = Some v) →
  0 ≤ zsum (entry f <$> ys).
Proof. intros Hf Hys. apply zsum_nonneg. intros [k v] H. cbn. by apply Hf, Hys. Qed.

Lemma chain_add_node_step id n ys t :
  nodes_left ((id, n) :: ys) t →
  ∃ t', chain_add_node g c t n = Ok t' ∧ nodes_left ys t'.
Proof.
  intros [H1 H2 H3 H4]. assert (g_nodes g !! id = Some n) as Hn by (apply H1; left).
  assert (∀ id' n', (id', n') ∈ ys → g_nodes g !! id' = Some n') as H1'
    by (intros; apply H1; by right).
  unfold chain_add_node. rewrite (Hkey _ _ Hn).
  destruct (lineage_head g id n Ht Hn) as (l & -> & Hh & _). rewrite exec_bind_ret, Hh.
  destruct (decide (root_of g id = Some c)) as [Hr|Hr].
  2: { rewrite bool_decide_eq_true_2 by done. exists t. split; [done|].
       split; [done| | |done].
       - intros d. destruct (H2 d) as (a & u & Htot & Ha & Hu). exists a, u.
         rewrite fmap_cons, zsum_cons in Ha, Hu. cbn [entry] in Ha, Hu.
         unfold node_allocated at 1 in Ha. unfold node_consumed at 1 in Hu.
         unfold in_chain at 1 in Ha. unfold in_chain at 1 in Hu.
         rewrite bool_decide_eq_false_2 in Ha, Hu by done. repeat split; [done|lia..].
       - rewrite <-H3, fmap_cons, zmax_cons. cbn [entry]. unfold node_level at 2, in_chain at 1.
         rewrite bool_decide_eq_false_2 by done.
         pose proof (zmax_nonneg (entry (node_level g c) <$> ys)). lia. }
  rewrite (bool_decide_eq_false_2 (root_of g id ≠ Some c)) by (intros ?; contradiction).
  assert (∀ d, ∃ a u, totals_of d t = (a, u, 0)
    ∧ a + alloc d (wn_budget n) + zsum (entry (node_allocated d g c) <$> ys)
        = msum (node_allocated d g c) (g_nodes g)
    ∧ u + used d (wn_budget n) + zsum (entry (node_consumed d g c) <$> ys)
        = msum (node_consumed d g c) (g_nodes g)) as H2'.
  { intros d. destruct (H2 d) as (a & u & Htot & Ha & Hu). exists a, u.
    rewrite fmap_cons, zsum_cons in Ha, Hu. cbn [entry] in Ha, Hu.
    unfold node_allocated at 1 in Ha. unfold node_consumed at 1 in Hu.
    unfold in_chain at 1 in Ha. unfold in_chain at 1 in Hu.
    rewrite bool_decide_eq_true_2 in Ha, Hu by done. repeat split; [done|lia..]. }
  rewrite fmap_cons, zmax_cons in H3. cbn [entry] in H3. unfold node_level at 1, in_chain at 1 in H3.
  rewrite bool_decide_eq_true_2 in H3 by done. clear H2. rename H2' into H2.
  assert (∀ d, (totals_of d t).1.1 + alloc d (wn_budget n) ≤ u64_max
               ∧ (totals_of d t).1.2 + used d (wn_budget n) ≤ u64_max) as Hadd.
  { intros d. destruct (H2 d) as (a & u & -> & Ha & Hu). cbn [fst snd].
    pose proof (Hfit d) as Hf. unfold chain_allocated in Hf. pose proof (pending_total_nonneg d).
    pose proof (chain_consumed_le d) as Hc. unfold chain_consumed in Hc.
    pose proof (entries_nonneg (node_allocated d g c) (g_nodes g) ys (node_allocated_nonneg d) H1').
    assert (0 ≤ zsum (entry (node_consumed d g c) <$> ys)).
    { apply (entries_nonneg _ (g_nodes g)); [|done]. intros. by apply node_consumed_nonneg. }
    lia. }
  destruct (Hadd Tokens) as [HaT HuT], (Hadd Cost) as [HaC HuC].
  cbn [totals_of fst snd alloc used] in HaT, HuT, HaC, HuC.
  rewrite (u64_add_fits (ct_allocated_tokens t)), exec_bind_ret by done.
  rewrite (u64_add_fits (ct_allocated_cost t)), exec_bind_ret by done.
  rewrite (u64_add_fits (ct_consumed_tokens t)), exec_bind_ret by done.
  rewrite (u64_add_fits (ct_consumed_cost t)), exec_bind_ret by done.
  rewrite Hfs, lookup_empty. eexists. split; [done|]. split; cbn [ct_depth]; [done| | |lia].
  - intros d. destruct (H2 d) as (a & u & Htot & Ha & Hu).
    exists (a + alloc d (wn_budget n)), (u + used d (wn_budget n)).
    destruct d; cbn [totals_of] in Htot |- *; injection Htot as <- <- <-;
      cbn [ct_allocated_tokens ct_allocated_cost ct_consumed_tokens ct_consumed_cost
           ct_unauthorized_tokens ct_unauthorized_cost]; repeat split; lia.
  - rewrite <-H3. lia.
Qed.

(** The same for the loop over the reservations. *)
Record pending_left (ys : list (string * WorkNodeBudget)) (t : chain_totals) : Prop := {
  pl_elem ch b : (ch, b) ∈ ys → g_pending_child_budgets g !! ch = Some b;
  pl_sums d : ∃ a, totals_of d t = (a, chain_consumed d g c, 0)
    ∧ a + zsum (entry (pending_allocated d g c) <$> ys) = chain_allocated d g c;
  pl_depth : Z.max (ct_depth t) (zmax (entry (pending_level g c) <$> ys)) = chain_depth g c;
  pl_depth_nonneg : 0 ≤ ct_depth t;
}.

Lemma chain_add_pending_step ch b ys t :
  g_max_depth g ≤ MAX_DEPTH →
  pending_left ((ch, b) :: ys) t →
  ∃ t', chain_add_pending g c t (ch, b) = Ok t' ∧ pending_left ys t'.
Proof.
  intros Hmax [H1 H2 H3 H4].
  assert (g_pending_child_budgets g !! ch = Some b) as Hch by (apply H1; left).
  assert (∀ ch' b', (ch', b') ∈ ys → g_pending_child_budgets g !! ch' = Some b') as H1'
    by (intros; apply H1; by right).
  destruct (proj1 (pend_dom _ Hp ch) (mk_is_Some _ _ Hch)) as [p Hpar].
  destruct (pend_parent _ Hp _ _ Hpar) as (pn & Hpn & Hdep).
  unfold chain_add_pending. rewrite Hpar.
  destruct (lineage_head g p pn Ht Hpn) as (l & -> & Hh & _). rewrite exec_bind_ret, Hh.
  rewrite fmap_cons, zmax_cons in H3. cbn [entry] in H3.
  assert (pending_in_chain g c ch = bool_decide (root_of g p = Some c)) as Hin
    by (unfold pending_in_chain; by rewrite Hpar).
  assert (∀ d, ∃ a, totals_of d t = (a, chain_consumed d g c, 0)
    ∧ a + (if bool_decide (root_of g p = Some c) then alloc d b else 0)
        + zsum (entry (pending_allocated d g c) <$> ys) = chain_allocated d g c) as H2'.
  { intros d. destruct (H2 d) as (a & Htot & Ha). exists a. split; [done|].
    rewrite fmap_cons, zsum_cons in Ha. cbn [entry] in Ha. unfold pending_allocated at 1 in Ha.
    rewrite Hin in Ha. lia. }
  clear H2. rename H2' into H2. unfold pending_level at 1 in H3. rewrite Hin, Hpar in H3.
  cbn [mbind option_bind] in H3. rewrite Hpn in H3.
  destruct (decide (root_of g p = Some c)) as [Hr|Hr].
  2: { setoid_rewrite bool_decide_eq_false_2 in H2; [|done..].
       rewrite bool_decide_eq_false_2 in H3 |- * by done. exists t. split; [done|].
       split; [done| | |done].
       - intros d. destruct (H2 d) as (a & ? & ?). exists a. split; [done|lia].
       - rewrite <-H3. pose proof (zmax_nonneg (entry (pending_level g c) <$> ys)). lia. }
  setoid_rewrite bool_decide_eq_true_2 in H2; [|done..].
  rewrite bool_decide_eq_true_2 in H3 |- * by done. rewrite Hpn. cbn [expect].
  pose proof (tree_depth_nonneg Ht _ _ Hpn) as Hpd.
  rewrite exec_bind_ret. unfold checked_add. rewrite (proj2 (Z.leb_le _ _)).
  2: { unfold u16_max, MAX_DEPTH in *. lia. }
  cbn [ok_or]. rewrite exec_bind_ret.
  assert (∀ d, (totals_of d t).1.1 + alloc d b ≤ u64_max) as Hadd.
  { intros d. destruct (H2 d) as (a & -> & Ha). cbn [fst snd]. pose proof (Hfit d).
    pose proof (entries_nonneg (pending_allocated d g c) (g_pending_child_budgets g) ys
      (pending_allocated_nonneg d) H1'). lia. }
  pose proof (Hadd Tokens) as HaT. pose proof (Hadd Cost) as HaC.
  cbn [totals_of fst snd alloc] in HaT, HaC.
  rewrite (u64_add_fits (ct_allocated_tokens t)), exec_bind_ret by done.
  rewrite (u64_add_fits (ct_allocated_cost t)), exec_bind_ret by done.
  eexists. split; [done|]. split; cbn [ct_depth]; [done| | |lia].
  - intros d. destruct (H2 d) as (a & Htot & Ha). exists (a + alloc d b).
    destruct d; cbn [totals_of] in Htot |- *; injection Htot as <- <- <-;
      cbn [ct_allocated_tokens ct_allocated_cost ct_consumed_tokens ct_consumed_cost
           ct_unauthorized_tokens ct_unauthorized_cost]; (split; [done|lia]).
  - rewrite <-H3. lia.
Qed.

Lemma validate_chain_totals :
  g_max_depth g ≤ MAX_DEPTH →
  ∃ t t', foldM (chain_add_node g c) (MkTotals 0 0 0 0 0 0 0) (bt_values (g_nodes g)) = Ok t
    ∧ foldM (chain_add_pending g c) t (bt_iter (g_pending_child_budgets g)) = Ok t'
    ∧ (∀ d, totals_of d t' = (chain_allocated d g c, chain_consumed d g c, 0))
    ∧ ct_depth t' = chain_depth g c.
Proof.
  intros Hmax. unfold bt_values. rewrite foldM_fmap.
  destruct (foldM_inv (λ s x, chain_add_node g c s x.2) nodes_left (bt_iter (g_nodes g))
              (MkTotals 0 0 0 0 0 0 0)) as (t & Ht1 & [_ Hn2 Hn3 Hn4]).
  - split; cbn [ct_depth]; [| | |done].
    + intros id n. by rewrite elem_of_bt_iter.
    + intros d. exists 0, 0. unfold entry. rewrite !msum_bt_iter. by destruct d.
    + unfold entry. rewrite mmax_bt_iter. pose proof (mmax_nonneg (node_level g c) (g_nodes g)). lia.
  - intros [id n] ys st. apply chain_add_node_step.
  - destruct (foldM_inv (chain_add_pending g c) pending_left (bt_iter (g_pending_child_budgets g)) t)
      as (t' & Ht2 & [_ Hp2 Hp3 Hp4]).
    + split; [| | |done].
      * intros ch b. by rewrite elem_of_bt_iter.
      * intros d. destruct (Hn2 d) as (a & u & Htot & Ha & Hu). exists a.
        change (zsum (entry _ <$> [])) with 0 in Ha, Hu. unfold chain_consumed, chain_allocated.
        unfold entry. rewrite msum_bt_iter. split; [rewrite Htot; repeat f_equal; lia|lia].
      * unfold chain_depth, entry. rewrite mmax_bt_iter, <-Hn3.
        change (zmax (entry _ <$> [])) with 0. lia.
    + intros [ch b] ys st. by apply chain_add_pending_step.
    + exists t, t'. split; [done|]. split; [done|]. split.
      * intros d. destruct (Hp2 d) as (a & -> & Ha).
        change (zsum (entry _ <$> [])) with 0 in Ha. repeat f_equal. lia.
      * rewrite <-Hp3. change (zmax (entry _ <$> [])) with 0. lia.
Qed.
End validate_chain.

Lemma validate_chain_ok g c cb :
  tree_ok g → budgets_ok g → pending_ok g →
  (∀ id n, g_nodes g !! id = Some n → wn_node_id n = id) →
  g_failed_spend g = ∅ → g_max_depth g ≤ MAX_DEPTH →
  chain_ok g c cb → validate_chain g (c, cb) = Ok ().
Proof.
  intros Ht Hb Hp Hkey Hfs Hmax [H1 (n & Hn & Hpar & Hroot) H3 H4 H5 H6 H7 H8].
  unfold validate_chain. rewrite Hn, Hpar. cbn [is_none is_some negb ok_or].
  rewrite exec_bind_ret.
  destruct (validate_chain_totals Ht Hb Hp Hkey Hfs c) as (t & t' & Ht1 & Ht2 & Htot & Hdep);
    [by intros d; rewrite <-H3|done|].
  rewrite Ht1, exec_bind_ret, Ht2, exec_bind_ret. apply reject_if_Ok.
  pose proof (Htot Tokens) as HT. pose proof (Htot Cost) as HC. cbn [totals_of] in HT, HC.
  injection HT as -> -> ->. injection HC as -> -> ->. rewrite Hdep.
  pose proof (Hroot Tokens). pose proof (Hroot Cost). pose proof (H3 Tokens). pose proof (H3 Cost).
  pose proof (H4 Tokens). pose proof (H4 Cost). pose proof (H5 Tokens). pose proof (H5 Cost).
  pose proof (H8 Tokens). pose proof (H8 Cost).
  cbn [chain_root chain_total chain_spent chain_over alloc] in *.
  rewrite bool_decide_eq_false_2 by (intros ?; contradiction). cbn [orb].
  rewrite !orb_false_iff, !negb_false_iff, !Z.eqb_eq, !Z.ltb_ge. repeat split; lia.
Qed.
