(* ===== verification/GraphInv.v ===== *)
(** * The invariant of a work graph

    [graph_inv] is the declarative form of what [validate_invariants] checks on
    a persisted graph, strengthened where the operations need it: reservations
    are covered at every node and not only where children are listed, receipts
    belong to finished nodes, queued nodes have not run and delegate nothing. *)
From S2P Require Import Prelude BTree Sums Text Hashing Float64 BudgetCascade GraphModel ControlOps.
From S2P Require Import Validate GraphLineage GraphTree Reserve Ledger.
#[local] Open Scope Z_scope.

(** A context field is empty or an identifier. *)
Definition ref_ok (field value : string) : Prop :=
  value = "" ∨ validate_identifier value field = Ok ().

(** The allocations the development considers: at most [2^55 - 1] tokens or
    micro-units of cost per node.  A chain sums at most 256 nodes and what each
    of them reserves, so no chain total reaches [u64::MAX]
    ([chain_allocated_fits]). *)
Definition MODEST_BUDGET : Z := u64_max / 512.

Definition is_active (n : WorkNode) : bool := bool_decide (wn_status n = Active).

(** A node whose execution is over. *)
Definition finished (n : WorkNode) : Prop := wn_status n = Completed ∨ wn_status n = Failed.

Section inv.
Context `{Blake3}.

Record node_ok (g : BoundedWorkGraph) (id : string) (n : WorkNode) : Prop := {
  node_key : wn_node_id n = id;
  node_id_ok : validate_identifier id "node_id" = Ok ();
  node_agent : validate_identifier (wn_agent_id n) "agent_id" = Ok ();
  node_capsule : validate_identifier (wn_capsule_ref n) "capsule_ref" = Ok ();
  node_budget : budget_ok (wn_budget n);
  node_task : ref_ok "task_ref" (wn_task_ref n);
  node_policy : ref_ok "policy_ref" (wn_policy_ref n);
  node_expected : ref_ok "expected_outcome_ref" (wn_expected_outcome_ref n);
  node_parent_task r :
    wn_parent_task_ref n = Some r → validate_identifier r "parent_task_ref" = Ok ();
  node_claims_len : vec_len (wn_path_claims n) ≤ MAX_PATH_CLAIMS;
  node_claims_nodup : NoDup (wn_path_claims n);
  node_claims claim : claim ∈ wn_path_claims n → validate_path_claim claim = Ok ();
  node_fence f : wn_execution_fence n = Some f → f = execution_fence (g_graph_id g) n;
  node_delivery a : wn_delivery_attempt n = Some a →
    1 ≤ a ≤ MAX_DELIVERY_ATTEMPTS ∧ wn_execution_started n = true ∧ is_Some (wn_execution_fence n);
  node_queued : wn_status n = Pending →
    wn_execution_started n = false ∧ wn_execution_fence n = None;
}.

(** A configured child carries its parent's task and policy. *)
Definition context_ok (g : BoundedWorkGraph) (n : WorkNode) : Prop :=
  ∀ p pn, wn_parent_node_id n = Some p → wn_task_ref n ≠ "" → g_nodes g !! p = Some pn →
    wn_parent_task_ref n = Some (wn_task_ref pn) ∧ wn_policy_ref n = wn_policy_ref pn.

Record receipt_ok (g : BoundedWorkGraph) (r : ChildExecutionReceipt) : Prop := {
  receipt_form : validate_receipt r = Ok ();
  receipt_node : ∃ n, g_nodes g !! rc_node_id r = Some n ∧ is_Some (wn_parent_node_id n)
    ∧ finished n ∧ (∀ d, used d (wn_budget n) = receipt_used d r)
    ∧ (is_Some (wn_execution_fence n) → rc_execution_fence r = wn_execution_fence n);
}.

Record limits_ok (g : BoundedWorkGraph) : Prop := {
  lim_nodes : map_len (g_nodes g) ≤ MAX_GRAPH_NODES;
  lim_fan : 1 ≤ g_max_fan_out g ≤ MAX_FAN_OUT;
  lim_depth : 1 ≤ g_max_depth g ≤ MAX_DEPTH;
  lim_concurrency : 1 ≤ g_max_local_concurrency g ≤ MAX_LOCAL_CONCURRENCY;
  lim_active : active_count g ≤ local_concurrency_limit g;
  lim_graph_id : ref_ok "graph_id" (g_graph_id g);
}.

Record accepted_ok (g : BoundedWorkGraph) : Prop := {
  acc_supported x : x ∈ g_accepted_path g →
    ∃ k r l, g_receipts g !! k = Some r ∧ rc_outcome r = Accepted
      ∧ rc_node_id r ∈ g_accepted_path g ∧ path_up (g_nodes g) (rc_node_id r) l ∧ x ∈ l;
  acc_closed x n p : x ∈ g_accepted_path g → g_nodes g !! x = Some n →
    wn_parent_node_id n = Some p → p ∈ g_accepted_path g;
}.

Record graph_inv (g : BoundedWorkGraph) : Prop := {
  inv_limits : limits_ok g;
  inv_tree : tree_ok g;
  inv_pending : pending_ok g;
  inv_nodes id n : g_nodes g !! id = Some n → node_ok g id n;
  inv_context id n : g_nodes g !! id = Some n → context_ok g n;
  inv_queued id n : g_nodes g !! id = Some n → wn_status n = Pending → children_of g id = [];
  inv_claimed d id n : g_nodes g !! id = Some n → claimed d g id ≤ remaining d (wn_budget n);
  inv_receipts k r : g_receipts g !! k = Some r → receipt_ok g r;
  inv_receipt_unique k1 k2 r1 r2 : g_receipts g !! k1 = Some r1 → g_receipts g !! k2 = Some r2 →
    rc_node_id r1 = rc_node_id r2 → k1 = k2;
  inv_accepted : accepted_ok g;
  inv_reaped id f : g_reaped_executions g !! id = Some f →
    ∃ n, g_nodes g !! id = Some n ∧ wn_execution_started n = true ∧ wn_execution_fence n = Some f;
  inv_chains c cb : g_chain_budgets g !! c = Some cb → chain_ok g c cb;
  inv_roots id n : g_nodes g !! id = Some n → wn_parent_node_id n = None →
    is_Some (g_chain_budgets g !! id);
  inv_failed : g_failed_spend g = ∅;
  inv_modest d id n : g_nodes g !! id = Some n → alloc d (wn_budget n) ≤ MODEST_BUDGET;
  inv_capsules i j n m : g_nodes g !! i = Some n → g_nodes g !! j = Some m →
    wn_execution_started n = true → wn_execution_started m = true →
    wn_capsule_ref n = wn_capsule_ref m → i = j;
}.

Lemma inv_budgets g : graph_inv g → budgets_ok g.
Proof.
  intros Hi. split.
  - intros id n Hn. by apply (node_budget g id), inv_nodes.
  - intros c b. apply (pend_budget _ (inv_pending _ Hi)).
Qed.

(** A node that is not there claims nothing. *)
Lemma claimed_absent g d p : graph_inv g → g_nodes g !! p = None → claimed d g p = 0.
Proof.
  intros Hi Hn. unfold claimed. rewrite (reserve_unfold (inv_tree _ Hi)).
  rewrite (tree_no_children (inv_tree _ Hi)) by done. change (zsum (_ <$> [])) with 0.
  unfold pending_share. rewrite msum_0; [done|]. intros c b _. unfold pending_entry.
  rewrite skipped_None. cbn [orb]. case_bool_decide as Hc; [done|].
  apply (pend_parent _ (inv_pending _ Hi)) in Hc as (pn & Hpn & _). congruence.
Qed.

Lemma inv_claimed_u64 g d p : graph_inv g → claimed d g p ≤ u64_max.
Proof.
  intros Hi. destruct (g_nodes g !! p) as [n|] eqn:Hn.
  - etrans; [by eapply inv_claimed|]. pose proof (bud_nodes _ (inv_budgets _ Hi) _ _ Hn) as Hb.
    rewrite remaining_eq by done. specialize (Hb d). lia.
  - rewrite claimed_absent by done. unfold u64_max. lia.
Qed.

Lemma inv_reserved g p : graph_inv g →
  reserved_child_budget g p None = Ok (claimed Tokens g p, claimed Cost g p).
Proof.
  intros Hi. apply reserved_child_budget_claimed; [apply Hi|by apply inv_budgets|].
  intros d. by apply inv_claimed_u64.
Qed.

(** Exclusion only lowers the sum, so the walk that leaves a child out succeeds
    too. *)
Lemma inv_reserved_exclude g p ex : graph_inv g →
  reserved_child_budget g p ex = Ok (reserve Tokens g p ex p, reserve Cost g p ex p)
  ∧ ∀ d, 0 ≤ reserve d g p ex p ≤ claimed d g p.
Proof.
  intros Hi. pose proof (inv_budgets _ Hi) as Hb.
  assert (∀ d, 0 ≤ reserve d g p ex p ≤ claimed d g p) as Hle.
  { intros d. split; [by apply reserve_nonneg|]. by apply reserve_exclude_le. }
  split; [|done]. apply reserved_child_budget_sum; [apply Hi|done|].
  intros d. pose proof (inv_claimed_u64 g d p Hi). specialize (Hle d). lia.
Qed.

(** ** The validator accepts *)
Lemma validate_path_claims_ok claims :
  NoDup claims → (∀ claim, claim ∈ claims → validate_path_claim claim = Ok ()) →
  ∀ seen, (∀ claim, claim ∈ claims → claim ∉ seen) → validate_path_claims seen claims = Ok ().
Proof.
  induction claims as [|x claims IH]; intros Hnd Hok seen Hs; cbn [validate_path_claims]; [done|].
  apply NoDup_cons in Hnd as [Hx Hnd]. rewrite Hok by left. rewrite exec_bind_ret.
  rewrite bool_decide_eq_false_2 by (apply Hs; left). cbn [reject_if]. rewrite exec_bind_ret.
  apply IH; [done|set_solver|set_solver].
Qed.

Lemma ref_ok_validate field value :
  ref_ok field value →
  (if str_is_empty value then Ok () else validate_identifier value field) = Ok ().
Proof.
  intros [->|Hv]; [done|]. by destruct (str_is_empty value).
Qed.

Section accepts.
Context {g : BoundedWorkGraph} (Hi : graph_inv g).

Lemma validate_node_context_ok id n :
  g_nodes g !! id = Some n → validate_node_context g id n = Ok ().
Proof.
  intros Hn. pose proof (inv_nodes _ Hi _ _ Hn) as [K1 K2 K3 K4 K5 K6 K7 K8 K9 _ _ _ _ _ _].
  unfold validate_node_context. rewrite K1, K2, exec_bind_ret, exec_bind_ret, K3, exec_bind_ret, K4,
    exec_bind_ret, (validate_budget_ok _ K5), exec_bind_ret.
  cbn [forM_]. rewrite !ref_ok_validate by done. cbn [exec_bind]. rewrite exec_bind_ret.
  assert (match wn_parent_task_ref n with
          | Some r => validate_identifier r "parent_task_ref" | None => Ok () end = Ok ()) as ->
    by (destruct (wn_parent_task_ref n); auto).
  rewrite exec_bind_ret. destruct (wn_parent_node_id n) as [p|] eqn:Hp; [|done].
  destruct (str_is_empty (wn_task_ref n)) eqn:He; [done|]. apply str_is_empty_false in He.
  pose proof (tree_ranked _ (inv_tree _ Hi) _ _ Hn) as [_ Hr]. rewrite Hp in Hr.
  destruct Hr as (pn & Hpn & _). rewrite Hpn. cbn [ok_or]. rewrite exec_bind_ret.
  apply reject_if_Ok. destruct (inv_context _ Hi _ _ Hn p pn Hp He Hpn) as [-> ->].
  by rewrite !bool_decide_eq_false_2 by (intros ?; contradiction).
Qed.

Lemma validate_node_execution_ok id n :
  g_nodes g !! id = Some n → validate_node_execution g id n = Ok ().
Proof.
  intros Hn. pose proof (inv_nodes _ Hi _ _ Hn) as [K1 _ _ _ _ _ _ _ _ K10 K11 K12 K13 K14 _].
  unfold validate_node_execution.
  rewrite reject_if_false by by apply Z.ltb_ge.
  rewrite validate_path_claims_ok, exec_bind_ret by (done || set_solver).
  rewrite reject_if_false by (apply bool_decide_eq_false_2; congruence).
  rewrite reject_if_false.
  - apply reject_if_Ok. destruct (wn_delivery_attempt n) as [a|]; [|done].
    destruct (K14 a) as ((H1 & H2) & -> & [f ->]); [done|]. cbn. rewrite orb_false_r, negb_false_iff.
    rewrite andb_true_iff, !Z.leb_le. done.
  - destruct (wn_execution_fence n) as [f|]; [|done]. apply bool_decide_eq_false_2.
    specialize (K13 f eq_refl). congruence.
Qed.

Lemma validate_node_structure_ok id n :
  g_nodes g !! id = Some n → validate_node_structure g id n = Ok ().
Proof.
  intros Hn. unfold validate_node_structure. pose proof (inv_tree _ Hi) as Ht.
  destruct (lineage_head g id n Ht Hn) as (l & -> & _ & Hlen). rewrite exec_bind_ret.
  rewrite reject_if_false.
  2: { rewrite Hlen, Z.eqb_refl. cbn. apply Z.ltb_ge. by apply (tree_depth _ Ht id). }
  rewrite reject_if_false.
  - apply reject_if_Ok. destruct (wn_parent_node_id n) eqn:Hp; [done|]. cbn.
    destruct (inv_roots _ Hi _ _ Hn Hp) as [cb Hcb]. unfold contains_key. by rewrite Hcb.
  - destruct (wn_parent_node_id n) as [p|] eqn:Hp; [|done]. apply negb_false_iff.
    assert (id ∈ children_of g p) as Hin by (apply (tree_children _ Ht); eauto).
    unfold children_of in Hin. destruct (g_children g !! p); [by apply bool_decide_eq_true_2|].
    set_solver.
Qed.

Lemma validate_child_index_ok p cs :
  g_children g !! p = Some cs → validate_child_index g (p, cs) = Ok ().
Proof.
  intros Hcs. pose proof (inv_tree _ Hi) as Ht.
  assert (children_of g p = cs) as Hc by (unfold children_of; by rewrite Hcs).
  destruct (tree_keys _ Ht p) as [n Hn]; [eauto|]. unfold validate_child_index.
  rewrite reject_if_false.
  2: { unfold contains_key. rewrite Hn. cbn. pose proof (tree_fan _ Ht p). rewrite Hc in *.
       rewrite size_list_to_set by (rewrite <-Hc; apply Ht). unfold vec_len.
       rewrite Z.eqb_refl, orb_false_r. by apply Z.ltb_ge. }
  assert (forM_ (λ child_id, reject_if (E := WorkGraphError)
      (bool_decide ((g_nodes g !! child_id) ≫= wn_parent_node_id ≠ Some p))
      (InvalidGraph "dangling child")) cs = Ok ()) as ->.
  { apply forM__Ok. intros c Hin. rewrite <-Hc in Hin. apply (tree_children _ Ht) in Hin.
    destruct Hin as (cn & -> & Hp). apply reject_if_Ok, bool_decide_eq_false_2.
    cbn. rewrite Hp. intros Hne. by apply Hne. }
  rewrite exec_bind_ret, (inv_reserved _ p Hi), exec_bind_ret, Hn. cbn [expect].
  rewrite exec_bind_ret. apply reject_if_Ok. rewrite orb_false_iff, !Z.ltb_ge.
  split; [by apply (inv_claimed _ Hi Tokens)|by apply (inv_claimed _ Hi Cost)].
Qed.

Lemma validate_receipt_node_ok k r :
  g_receipts g !! k = Some r → validate_receipt_node g r = Ok ().
Proof.
  intros Hr. destruct (inv_receipts _ Hi _ _ Hr) as [H1 (n & Hn & [p Hp] & _ & Hu & Hf)].
  unfold validate_receipt_node. rewrite H1, exec_bind_ret, Hn. cbn [ok_or]. rewrite exec_bind_ret.
  apply reject_if_Ok. pose proof (Hu Tokens) as HuT. pose proof (Hu Cost) as HuC.
  cbn in HuT, HuC. rewrite Hp, HuT, HuC, !Z.eqb_refl. cbn.
  destruct (wn_execution_fence n) as [f|] eqn:Ef; [|done]. cbn.
  apply bool_decide_eq_false_2. intros Hne. apply Hne. apply Hf. eauto.
Qed.

Lemma supported_path_ok : supported_path g = Ok (g_accepted_path g).
Proof.
  unfold supported_path, bt_values. rewrite foldM_fmap.
  destruct (foldM_inv (λ s x,
      if bool_decide (rc_outcome x.2 = Accepted) && bool_decide (rc_node_id x.2 ∈ g_accepted_path g)
      then lineage ← checked_lineage g (rc_node_id x.2); Ok (s ∪ list_to_set lineage) else Ok s)
    (λ ys s, (∀ k r, (k, r) ∈ ys → g_receipts g !! k = Some r)
      ∧ s ⊆ g_accepted_path g
      ∧ ∀ k r, g_receipts g !! k = Some r → rc_outcome r = Accepted →
          rc_node_id r ∈ g_accepted_path g → (k, r) ∈ ys ∨
          ∀ l x, path_up (g_nodes g) (rc_node_id r) l → x ∈ l → x ∈ s)
    (bt_iter (g_receipts g)) (∅ : gset string)) as (s & Hrun & _ & Hs1 & Hs2).
  - split; [intros k r; by rewrite elem_of_bt_iter|]. split; [set_solver|].
    intros k r Hr _ _. left. by rewrite elem_of_bt_iter.
  - intros [k r] ys s (Hys & Hs1 & Hs2). cbn [snd].
    assert (g_receipts g !! k = Some r) as Hr by (apply Hys; left).
    destruct (bool_decide _ && bool_decide _) eqn:E.
    + apply andb_true_iff in E as [E1%bool_decide_eq_true E2%bool_decide_eq_true].
      destruct (inv_receipts _ Hi _ _ Hr) as [_ (n & Hn & _)].
      destruct (tree_path (inv_tree _ Hi) _ _ Hn) as (l & Hl & _).
      rewrite (checked_lineage_path g _ l) by done. rewrite exec_bind_ret.
      eexists. split; [done|]. split; [by intros; apply Hys; right|]. split.
      * apply union_subseteq. split; [done|]. intros x Hx%elem_of_list_to_set.
        rewrite elem_of_reverse in Hx.
        clear -Hi Hl E2 Hx. induction Hl as [id n Hn Hp|id n p l Hn Hp Hl IH].
        -- by apply list_elem_of_singleton in Hx as ->.
        -- apply elem_of_cons in Hx as [->|Hx]; [done|]. apply IH; [|done].
           by eapply acc_closed; [apply Hi|exact E2|..].
      * intros k' r' Hr' Ho Hacc. destruct (Hs2 k' r' Hr' Ho Hacc) as [Hin|Hin].
        -- apply elem_of_cons in Hin as [[= -> ->]|Hin]; [|by left]. right. intros l' x Hl' Hx.
           rewrite (path_up_det _ _ _ _ Hl' Hl) in Hx.
           apply elem_of_union_r, elem_of_list_to_set. by rewrite elem_of_reverse.
        -- right. intros l' x Hl' Hx. apply elem_of_union_l. by eapply Hin.
    + exists s. split; [done|]. split; [by intros; apply Hys; right|]. split; [done|].
      intros k' r' Hr' Ho Hacc. destruct (Hs2 k' r' Hr' Ho Hacc) as [Hin|Hin]; [|by right].
      apply elem_of_cons in Hin as [[= -> ->]|Hin]; [|by left].
      rewrite Ho, !bool_decide_eq_true_2 in E by done. done.
  - rewrite Hrun. f_equal. apply set_eq. intros x. split; [by apply Hs1|]. intros Hx.
    destruct (acc_supported _ (inv_accepted _ Hi) x Hx) as (k & r & l & Hr & Ho & Hacc & Hl & Hxl).
    destruct (Hs2 k r Hr Ho Hacc) as [?%elem_of_nil|Hin]; [done|]. by eapply Hin.
Qed.

Lemma accepted_node x : x ∈ g_accepted_path g → is_Some (g_nodes g !! x).
Proof.
  intros (k & r & l & _ & _ & _ & Hl & Hx)%(acc_supported _ (inv_accepted _ Hi)).
  by eapply path_up_dom.
Qed.

Lemma validate_limits_ok : validate_limits g = Ok ().
Proof.
  destruct (inv_limits _ Hi) as [H1 H2 H3 H4 H5 _]. apply reject_if_Ok.
  rewrite !orb_false_iff, !Z.ltb_ge, !Z.eqb_neq. repeat split; lia.
Qed.

Lemma validate_pending_ok c b :
  g_pending_child_budgets g !! c = Some b → validate_pending g (c, b) = Ok ().
Proof.
  intros Hc. pose proof (inv_pending _ Hi) as Hp. unfold validate_pending.
  rewrite (pend_id _ Hp) by eauto. rewrite exec_bind_ret, validate_budget_ok, exec_bind_ret
    by by apply (pend_budget _ Hp c).
  apply reject_if_Ok. unfold contains_key. rewrite (pend_fresh _ Hp) by eauto.
  destruct (proj1 (pend_dom _ Hp c)) as [p ->]; [eauto|done].
Qed.

Lemma graph_inv_validates : validate_invariants g = Ok ().
Proof.
  unfold validate_invariants.
  assert (forM_ (validate_reaped g) (bt_iter (g_reaped_executions g)) = Ok ()) as ->.
  { apply forM__Ok. intros [id f] Hf%elem_of_bt_iter.
    destruct (inv_reaped _ Hi _ _ Hf) as (n & Hn & Hs & Hfe). unfold validate_reaped.
    rewrite Hn, Hs, Hfe. by rewrite bool_decide_eq_true_2. }
  rewrite exec_bind_ret, ref_ok_validate, exec_bind_ret, validate_limits_ok, exec_bind_ret
    by apply (inv_limits _ Hi).
  assert (forM_ (validate_node g) (bt_iter (g_nodes g)) = Ok ()) as ->.
  { apply forM__Ok. intros [id n] Hn%elem_of_bt_iter. unfold validate_node.
    by rewrite validate_node_context_ok, exec_bind_ret, validate_node_execution_ok, exec_bind_ret,
      validate_node_structure_ok. }
  rewrite exec_bind_ret.
  assert (forM_ (validate_child_index g) (bt_iter (g_children g)) = Ok ()) as ->.
  { apply forM__Ok. intros [p cs] Hn%elem_of_bt_iter. by apply validate_child_index_ok. }
  rewrite exec_bind_ret.
  assert (forM_ (validate_pending g) (bt_iter (g_pending_child_budgets g)) = Ok ()) as ->.
  { apply forM__Ok. intros [c b] Hn%elem_of_bt_iter. by apply validate_pending_ok. }
  rewrite exec_bind_ret.
  assert (forM_ (validate_receipt_node g) (bt_values (g_receipts g)) = Ok ()) as ->.
  { apply forM__Ok. intros r [k Hr]%elem_of_bt_values. by eapply validate_receipt_node_ok. }
  rewrite exec_bind_ret.
  assert (forM_ (validate_failed_spend g) (bt_iter (g_failed_spend g)) = Ok ()) as ->.
  { by rewrite (inv_failed _ Hi). }
  rewrite exec_bind_ret. unfold validate_accepted_path.
  assert (forM_ (λ node_id, reject_if (E := WorkGraphError)
      (negb (contains_key (g_nodes g) node_id)) (InvalidGraph "orphan accepted path"))
    (bs_iter (g_accepted_path g)) = Ok ()) as ->.
  { apply forM__Ok. intros x Hx%elem_of_bs_iter. apply accepted_node in Hx as [n Hn].
    unfold contains_key. by rewrite Hn. }
  rewrite exec_bind_ret, supported_path_ok, exec_bind_ret.
  rewrite reject_if_false by (apply bool_decide_eq_false_2; intros ?; contradiction).
  apply forM__Ok. intros [c cb] Hc%elem_of_bt_iter.
  apply validate_chain_ok; [apply Hi|by apply inv_budgets|apply Hi| |apply Hi| |by apply Hi].
  - intros id n Hn. by apply (node_key g), inv_nodes.
  - apply (inv_limits _ Hi).
Qed.
End accepts.
End inv.

(** ** Chain totals fit

    A chain total sums the allocations of the chain's nodes and reservations.
    What a node reserves is within its own remainder, so a graph of at most 256
    nodes with modest budgets has totals far below [u64::MAX]: neither the
    saturating additions of [record_chain_allocation] nor the checked ones of
    the validator ever leave the exact sum. *)

Section fits.
Context {g : BoundedWorkGraph} (Ht : tree_ok g) (Hp : pending_ok g) (Hb : budgets_ok g).
Context (Hlen : map_len (g_nodes g) ≤ MAX_GRAPH_NODES).
Context (Hclaimed : ∀ d id n, g_nodes g !! id = Some n → claimed d g id ≤ remaining d (wn_budget n)).
Context (Hmodest : ∀ d id n, g_nodes g !! id = Some n → alloc d (wn_budget n) ≤ MODEST_BUDGET).

Lemma pending_share_le d id n :
  g_nodes g !! id = Some n → pending_share d g id None id ≤ MODEST_BUDGET.
Proof using Ht Hb Hclaimed Hmodest.
  intros Hn. pose proof (Hclaimed d id n Hn) as Hc. unfold claimed in Hc.
  rewrite (reserve_unfold Ht) in Hc. pose proof (bud_nodes _ Hb _ _ Hn) as Hbn.
  rewrite remaining_eq in Hc by done. specialize (Hbn d). pose proof (Hmodest d id n Hn).
  assert (0 ≤ zsum (share d g id None (reserve d g id None) id <$> children_of g id)); [|lia].
  apply zsum_nonneg. intros c _. apply share_nonneg; [done|]. intros x. by apply reserve_nonneg.
Qed.

(** Every reservation is counted at the parent it was made for. *)
Lemma pending_total_le d c :
  msum (pending_allocated d g c) (g_pending_child_budgets g)
    ≤ msum (λ p _, pending_share d g p None p) (g_nodes g).
Proof using Hp Hb.
  assert (∀ p ch b, g_pending_child_budgets g !! ch = Some b →
    0 ≤ pending_entry d g p None p ch b) as Hnn by (intros; by apply pending_entry_nonneg).
  unfold pending_share. rewrite (msum_swap (λ p _ ch b, pending_entry d g p None p ch b)).
  apply msum_le. intros ch b Hch.
  destruct (proj1 (pend_dom _ Hp ch) (mk_is_Some _ _ Hch)) as [p Hpar].
  destruct (pend_parent _ Hp _ _ Hpar) as (pn & Hpn & _).
  etrans; [|apply (msum_elem_le (λ p _, pending_entry d g p None p ch b) _ p pn); [by intros; apply Hnn|done]].
  cbn beta. unfold pending_entry, pending_allocated. rewrite skipped_None. cbn [orb].
  rewrite bool_decide_eq_false_2 by (rewrite Hpar; by intros []).
  pose proof (bud_pending _ Hb _ _ Hch d). destruct (pending_in_chain g c ch); lia.
Qed.

Lemma chain_allocated_fits d c : chain_allocated d g c ≤ u64_max.
Proof using Ht Hp Hb Hlen Hclaimed Hmodest.
  unfold chain_allocated. pose proof (pending_total_le d c) as H1.
  pose proof (msum_const_le (λ p _, pending_share d g p None p) (g_nodes g) MODEST_BUDGET) as H2.
  specialize (H2 (pending_share_le d)).
  assert (msum (node_allocated d g c) (g_nodes g) ≤ Z.of_nat (size (g_nodes g)) * MODEST_BUDGET) as H3.
  { apply msum_const_le. intros id n Hn. unfold node_allocated. pose proof (Hmodest d id n Hn).
    pose proof (bud_nodes _ Hb _ _ Hn d). destruct (in_chain g c id); lia. }
  unfold map_len, MAX_GRAPH_NODES in Hlen.
  assert (Z.of_nat (size (g_nodes g)) * MODEST_BUDGET ≤ 256 * MODEST_BUDGET) as H4.
  { apply Z.mul_le_mono_nonneg_r; [|done]. unfold MODEST_BUDGET, u64_max. by vm_compute. }
  assert (512 * MODEST_BUDGET ≤ u64_max) by by vm_compute. lia.
Qed.
End fits.
