(* ===== verification/LocalUpdate.v ===== *)
(** * Updates of one node

    Every operation but adding a node or a reservation changes one node at a
    time and keeps the shape of the graph.  [node_update_inv] reduces the
    invariant after such a change to what the change itself must ensure. *)
From S2P Require Import Prelude BTree Sums Text Hashing Float64 BudgetCascade GraphModel ControlOps.
From S2P Require Import Validate GraphLineage GraphTree Reserve Ledger GraphInv.
#[local] Open Scope Z_scope.

(** [g'] is [g] with [n'] for [n] at [id], and possibly other chain budgets and
    acknowledged exits. *)
Record node_update (g g' : BoundedWorkGraph) (id : string) (n n' : WorkNode) : Prop := {
  upd_old : g_nodes g !! id = Some n;
  upd_nodes : g_nodes g' = <[id := n']> (g_nodes g);
  upd_shape : shape n' = shape n;
  upd_graph_id : g_graph_id g' = g_graph_id g;
  upd_children : g_children g' = g_children g;
  upd_pending : g_pending_child_budgets g' = g_pending_child_budgets g;
  upd_parents : g_pending_child_parents g' = g_pending_child_parents g;
  upd_receipts : g_receipts g' = g_receipts g;
  upd_failed : g_failed_spend g' = g_failed_spend g;
  upd_accepted : g_accepted_path g' = g_accepted_path g;
  upd_concurrency : g_max_local_concurrency g' = g_max_local_concurrency g;
  upd_fan : g_max_fan_out g' = g_max_fan_out g;
  upd_depth : g_max_depth g' = g_max_depth g;
}.

(** No other node has consumed the capsule of [n]. *)
Definition capsule_free (g : BoundedWorkGraph) (id : string) (n : WorkNode) : Prop :=
  ∀ k m, k ≠ id → g_nodes g !! k = Some m → wn_execution_started m = true →
    wn_capsule_ref m ≠ wn_capsule_ref n.

Definition no_receipt (g : BoundedWorkGraph) (id : string) : Prop :=
  ∀ k r, g_receipts g !! k = Some r → rc_node_id r ≠ id.

(** ** Counting active nodes *)
Definition active_weight (_ : string) (n : WorkNode) : Z := if is_active n then 1 else 0.

Lemma active_count_msum g : active_count g = msum active_weight (g_nodes g).
Proof.
  unfold active_count, vec_len. rewrite <-msum_bt_iter. unfold bt_values.
  induction (bt_iter (g_nodes g)) as [|[k n] l IH]; [done|].
  rewrite !fmap_cons. rewrite zsum_cons. unfold active_weight at 1, is_active. cbn [snd].
  destruct (decide (wn_status n = Active)) as [Ha|Ha].
  - rewrite filter_cons_True, bool_decide_eq_true_2 by done. cbn [length]. lia.
  - rewrite filter_cons_False, bool_decide_eq_false_2 by done. lia.
Qed.

(** ** Reservations under a change that settles nothing *)
Lemma held_eq d g g' p ex k q :
  same_shape g g' →
  (∀ c, settled_at g' c = settled_at g c) → (∀ c, direct d g' c = direct d g c) →
  held d g' p ex k q = held d g p ex k q.
Proof.
  intros Hs Hset Hdir. revert q. induction k as [|k IH]; intros q; cbn [held]; [done|].
  rewrite (shape_children_of Hs). f_equal.
  - apply zsum_ext. intros c _. unfold share. by rewrite Hset, Hdir, IH.
  - unfold pending_share, pending_entry. by rewrite (shape_pending _ _ Hs), (shape_parents _ _ Hs).
Qed.

Lemma claimed_eq d g g' q :
  same_shape g g' →
  (∀ c, settled_at g' c = settled_at g c) → (∀ c, direct d g' c = direct d g c) →
  claimed d g' q = claimed d g q.
Proof.
  intros Hs Hset Hdir. unfold claimed, reserve, levels. rewrite <-(shape_depth _ _ Hs).
  by apply held_eq.
Qed.

Lemma settled_no_receipt g id n : no_receipt g id → settled g id n = false.
Proof.
  intros Hr. unfold settled. apply andb_false_iff. right. apply any_false.
  intros r [k Hk]%elem_of_bt_values. rewrite bool_decide_eq_false_2; [done|]. by eapply Hr.
Qed.

(** [settled] reads the node's status, fence and consumption. *)
Lemma settled_ext g g' id n n' :
  g_receipts g' = g_receipts g → wn_status n' = wn_status n →
  wn_execution_fence n' = wn_execution_fence n → wn_budget n' = wn_budget n →
  settled g' id n' = settled g id n.
Proof. intros E1 E2 E3 E4. unfold settled. by rewrite E1, E2, E3, E4. Qed.

Lemma settled_other g g' id n : g_receipts g' = g_receipts g → settled g' id n = settled g id n.
Proof. intros E. by apply settled_ext. Qed.

Section update.
Context `{Blake3} {g g' : BoundedWorkGraph} {id : string} {n n' : WorkNode}.
Context (Hi : graph_inv g) (Hu : node_update g g' id n n').

Lemma upd_same_shape : same_shape g g'.
Proof.
  destruct Hu as [Hn Hns Hsh _ H1 H2 H3 _ _ _ _ H4 H5]. split; try congruence.
  rewrite Hns, fmap_insert, Hsh. apply map_eq. intros k. destruct (decide (id = k)) as [<-|Hk].
  - by rewrite lookup_insert_eq, lookup_fmap, Hn.
  - by rewrite lookup_insert_ne.
Qed.

Lemma upd_lookup_eq : g_nodes g' !! id = Some n'.
Proof. rewrite (upd_nodes _ _ _ _ _ Hu). by rewrite lookup_insert_eq. Qed.

Lemma upd_lookup_ne k : k ≠ id → g_nodes g' !! k = g_nodes g !! k.
Proof. intros Hk. rewrite (upd_nodes _ _ _ _ _ Hu). by rewrite lookup_insert_ne. Qed.

(** A statement about all nodes of the updated graph. *)
Lemma upd_forall (P : string → WorkNode → Prop) :
  P id n' → (∀ k m, k ≠ id → g_nodes g !! k = Some m → P k m) →
  ∀ k m, g_nodes g' !! k = Some m → P k m.
Proof.
  intros H1 H2 k m Hk. destruct (decide (k = id)) as [->|Hne].
  - rewrite upd_lookup_eq in Hk. by simplify_eq.
  - rewrite upd_lookup_ne in Hk by done. by apply H2.
Qed.

(** The change leaves what other nodes reserve alone: the node has no receipt,
    or its status, fence and consumption do not change. *)
Definition quiet : Prop :=
  no_receipt g id
  ∨ (wn_status n' = wn_status n ∧ wn_execution_fence n' = wn_execution_fence n
     ∧ wn_budget n' = wn_budget n).

Lemma upd_settled c : quiet → settled_at g' c = settled_at g c.
Proof.
  intros Hq. pose proof (upd_receipts _ _ _ _ _ Hu) as Hr. unfold settled_at.
  destruct (decide (c = id)) as [->|Hne].
  - rewrite upd_lookup_eq, (upd_old _ _ _ _ _ Hu). destruct Hq as [Hq|(E1 & E2 & E3)].
    + rewrite !settled_no_receipt; [done|done|]. unfold no_receipt. by rewrite Hr.
    + by apply settled_ext.
  - rewrite upd_lookup_ne by done. destruct (g_nodes g !! c); [by apply settled_other|done].
Qed.

Lemma upd_direct d c : quiet → direct d g' c = direct d g c.
Proof.
  intros Hq. pose proof (upd_receipts _ _ _ _ _ Hu) as Hr. unfold direct.
  destruct (decide (c = id)) as [->|Hne].
  - rewrite upd_lookup_eq, (upd_old _ _ _ _ _ Hu).
    pose proof (shape_alloc d _ _ (upd_shape _ _ _ _ _ Hu)) as Ha.
    destruct Hq as [Hq|(E1 & E2 & E3)].
    + rewrite !settled_no_receipt; [done|done|]. unfold no_receipt. by rewrite Hr.
    + by rewrite (settled_ext g g' id n n'), E3.
  - rewrite upd_lookup_ne by done. destruct (g_nodes g !! c); [|done].
    by rewrite (settled_other g g').
Qed.

Lemma upd_claimed d q : quiet → claimed d g' q = claimed d g q.
Proof.
  intros Hq. apply claimed_eq; [apply upd_same_shape|by intros; apply upd_settled|].
  by intros; apply upd_direct.
Qed.

Lemma upd_active_count :
  active_count g' = active_count g - active_weight id n + active_weight id n'.
Proof.
  rewrite !active_count_msum, (upd_nodes _ _ _ _ _ Hu).
  apply msum_replace. apply (upd_old _ _ _ _ _ Hu).
Qed.

Lemma upd_map_len : map_len (g_nodes g') = map_len (g_nodes g).
Proof.
  unfold map_len. rewrite (upd_nodes _ _ _ _ _ Hu), map_size_insert_Some; [done|].
  exists n. apply (upd_old _ _ _ _ _ Hu).
Qed.

(** *** Chains *)
Lemma upd_in_chain c k : in_chain g' c k = in_chain g c k.
Proof. unfold in_chain. by rewrite (shape_root_of g g' k (inv_tree _ Hi) upd_same_shape). Qed.

Lemma upd_pending_in_chain c ch : pending_in_chain g' c ch = pending_in_chain g c ch.
Proof.
  unfold pending_in_chain. rewrite (upd_parents _ _ _ _ _ Hu).
  destruct (g_pending_child_parents g !! ch); [|done]. apply upd_in_chain.
Qed.

(** Two stores of the same shape, entry by entry. *)
Lemma upd_nodes_agree (P : string → WorkNode → WorkNode → Prop) :
  (∀ k m m', shape m = shape m' → P k m m') →
  ∀ k, match g_nodes g' !! k, g_nodes g !! k with
       | Some m', Some m => P k m' m
       | None, None => True
       | _, _ => False
       end.
Proof.
  intros HP k. destruct (g_nodes g' !! k) as [m'|] eqn:E'.
  - destruct (shape_lookup (symmetry upd_same_shape) _ _ E') as (m & -> & Hs). by apply HP.
  - by rewrite (shape_lookup_None (symmetry upd_same_shape) _ E').
Qed.

Lemma upd_chain_allocated d c : chain_allocated d g' c = chain_allocated d g c.
Proof.
  unfold chain_allocated. rewrite (upd_pending _ _ _ _ _ Hu). f_equal.
  - apply msum_map, upd_nodes_agree. intros k m m' Hs. unfold node_allocated.
    by rewrite upd_in_chain, (shape_alloc d _ _ Hs).
  - apply msum_ext. intros ch b _. unfold pending_allocated. by rewrite upd_pending_in_chain.
Qed.

Lemma upd_chain_depth c : chain_depth g' c = chain_depth g c.
Proof.
  unfold chain_depth. rewrite (upd_pending _ _ _ _ _ Hu). f_equal.
  - apply mmax_map, upd_nodes_agree. intros k m m' [=]. unfold node_level.
    rewrite upd_in_chain. by replace (wn_depth m) with (wn_depth m').
  - apply mmax_ext. intros ch b _. unfold pending_level. rewrite upd_pending_in_chain.
    destruct (pending_in_chain g c ch); [|done]. rewrite (upd_parents _ _ _ _ _ Hu).
    destruct (g_pending_child_parents g !! ch) as [p|]; [|done]. cbn.
    pose proof (upd_nodes_agree (λ _ m' m, wn_depth m' = wn_depth m)) as Hd.
    specialize (Hd ltac:(by intros ??? [=]) p).
    destruct (g_nodes g' !! p), (g_nodes g !! p); try done. by rewrite Hd.
Qed.

Lemma upd_chain_consumed d c :
  chain_consumed d g' c
    = chain_consumed d g c
      + if in_chain g c id then used d (wn_budget n') - used d (wn_budget n) else 0.
Proof.
  unfold chain_consumed. rewrite (upd_nodes _ _ _ _ _ Hu).
  rewrite (msum_replace _ _ _ n) by apply (upd_old _ _ _ _ _ Hu).
  rewrite (msum_ext (node_consumed d g' c) (node_consumed d g c))
    by (intros k m _; unfold node_consumed; by rewrite upd_in_chain).
  unfold node_consumed. rewrite upd_in_chain. destruct (in_chain g c id); lia.
Qed.

Lemma upd_chain_node c m :
  g_nodes g !! c = Some m → wn_parent_node_id m = None →
  ∃ m', g_nodes g' !! c = Some m' ∧ wn_parent_node_id m' = None
    ∧ ∀ d, alloc d (wn_budget m') = alloc d (wn_budget m).
Proof.
  intros Hc Hp. destruct (shape_lookup upd_same_shape _ _ Hc) as (m' & Hm' & Hs).
  exists m'. split; [done|]. split; [by injection Hs as ? <- ? ? ? ?|].
  intros d. symmetry. by apply shape_alloc.
Qed.

(** No consumption changed: the records stay right. *)
Lemma upd_chains_same :
  (∀ d, used d (wn_budget n') = used d (wn_budget n)) → g_chain_budgets g' = g_chain_budgets g →
  ∀ c cb, g_chain_budgets g' !! c = Some cb → chain_ok g' c cb.
Proof.
  intros Hused Hcb c cb Hc. rewrite Hcb in Hc.
  destruct (inv_chains _ Hi _ _ Hc) as [H1 (m & Hm & Hp & Hr) H3 H4 H5 H6 H7 H8].
  destruct (upd_chain_node _ _ Hm Hp) as (m' & Hm' & Hp' & Ha).
  split; try done.
  - exists m'. split; [done|]. split; [done|]. intros d. by rewrite Ha.
  - intros d. by rewrite upd_chain_allocated.
  - intros d. rewrite upd_chain_consumed, Hused, H4. destruct (in_chain g c id); lia.
  - by rewrite upd_chain_depth.
Qed.

(** The node's consumption rose and its chain's record with it. *)
Lemma upd_chains_consumed r next :
  root_of g id = Some r →
  g_chain_budgets g' = alter (set_chain_consumed (next Tokens) (next Cost)) r (g_chain_budgets g) →
  (∀ cb d, g_chain_budgets g !! r = Some cb →
    next d = chain_spent d cb + (used d (wn_budget n') - used d (wn_budget n))
    ∧ next d ≤ chain_root d cb) →
  ∀ c cb, g_chain_budgets g' !! c = Some cb → chain_ok g' c cb.
Proof.
  intros Hroot Hcbs Hnext c cb' Hc. rewrite Hcbs in Hc.
  assert (∃ cb, g_chain_budgets g !! c = Some cb ∧
    (cb' = if decide (c = r) then set_chain_consumed (next Tokens) (next Cost) cb else cb))
    as (cb & Hcb & ->).
  { destruct (decide (c = r)) as [->|Hne].
    - rewrite lookup_alter_eq in Hc. destruct (g_chain_budgets g !! r) as [cb|]; [|done].
      cbn in Hc. simplify_eq. eauto.
    - rewrite lookup_alter_ne in Hc by done. eauto. }
  destruct (inv_chains _ Hi _ _ Hcb) as [H1 (m & Hm & Hp & Hr) H3 H4 H5 H6 H7 H8].
  destruct (upd_chain_node _ _ Hm Hp) as (m' & Hm' & Hp' & Ha).
  assert (∀ d, chain_consumed d g' c = if decide (c = r) then next d else chain_spent d cb) as Hcons.
  { intros d. rewrite upd_chain_consumed, <-H4. unfold in_chain.
    destruct (decide (c = r)) as [->|Hne].
    - rewrite bool_decide_eq_true_2 by done. destruct (Hnext cb d Hcb) as [-> _]. lia.
    - rewrite bool_decide_eq_false_2 by (rewrite Hroot; congruence). lia. }
  destruct (decide (c = r)) as [->|Hne].
  - assert (∀ d, chain_root d (set_chain_consumed (next Tokens) (next Cost) cb) = chain_root d cb
      ∧ chain_total d (set_chain_consumed (next Tokens) (next Cost) cb) = chain_total d cb
      ∧ chain_spent d (set_chain_consumed (next Tokens) (next Cost) cb) = next d
      ∧ chain_over d (set_chain_consumed (next Tokens) (next Cost) cb) = chain_over d cb) as Hset
      by by intros [].
    split.
    + done.
    + exists m'. split; [done|]. split; [done|]. intros d. rewrite Ha. by rewrite (proj1 (Hset d)).
    + intros d. destruct (Hset d) as (_ & -> & _). by rewrite upd_chain_allocated.
    + intros d. destruct (Hset d) as (_ & _ & -> & _). by rewrite Hcons.
    + intros d. destruct (Hset d) as (_ & _ & _ & ->). done.
    + rewrite upd_chain_depth. done.
    + intros d. destruct (Hset d) as (_ & -> & _). done.
    + intros d. destruct (Hset d) as (-> & _ & -> & _). by apply Hnext.
  - split.
    + done.
    + exists m'. split; [done|]. split; [done|]. intros d. by rewrite Ha.
    + intros d. by rewrite upd_chain_allocated.
    + intros d. by rewrite Hcons.
    + done.
    + by rewrite upd_chain_depth.
    + done.
    + done.
Qed.

(** ** The invariant after the change *)
Theorem node_update_inv :
  node_ok g id n' →
  context_ok g n' →
  (wn_task_ref n' = wn_task_ref n ∧ wn_policy_ref n' = wn_policy_ref n
   ∨ ∀ c m, c ∈ children_of g id → g_nodes g !! c = Some m → wn_task_ref m = "") →
  (wn_status n' = Pending → wn_status n = Pending) →
  (is_active n' = true → is_active n = true ∨ active_count g < local_concurrency_limit g) →
  quiet →
  (∀ d, claimed d g id ≤ remaining d (wn_budget n')) →
  (∀ i f, g_reaped_executions g' !! i = Some f →
    if decide (i = id) then wn_execution_started n' = true ∧ wn_execution_fence n' = Some f
    else g_reaped_executions g !! i = Some f) →
  (∀ c cb, g_chain_budgets g' !! c = Some cb → chain_ok g' c cb) →
  (∀ c, is_Some (g_chain_budgets g !! c) → is_Some (g_chain_budgets g' !! c)) →
  (wn_execution_started n' = true → wn_execution_started n = true ∨ capsule_free g id n) →
  graph_inv g'.
Proof.
  intros Hok Hctx Hkids Hpend Hact Hq Hclaim Hreap Hchains Hdom Hcaps.
  pose proof upd_same_shape as Hs. pose proof (inv_tree _ Hi) as Ht.
  pose proof (upd_old _ _ _ _ _ Hu) as Hn. pose proof (upd_shape _ _ _ _ _ Hu) as Hsh.
  assert (∀ p, children_of g' p = children_of g p) as Hch by (intros p; by rewrite (shape_children_of Hs)).
  split.
  - destruct (inv_limits _ Hi) as [L1 L2 L3 L4 L5 L6].
    split; rewrite ?(upd_fan _ _ _ _ _ Hu), ?(upd_depth _ _ _ _ _ Hu),
      ?(upd_concurrency _ _ _ _ _ Hu), ?(upd_graph_id _ _ _ _ _ Hu), ?upd_map_len; try done.
    rewrite upd_active_count. unfold local_concurrency_limit.
    rewrite (upd_concurrency _ _ _ _ _ Hu). fold (local_concurrency_limit g).
    unfold active_weight. destruct (is_active n'), (is_active n); lia.
  - by apply (shape_tree_ok g).
  - apply (shape_pending_ok g), Hi. done.
  - apply (upd_forall (node_ok g')).
    + destruct Hok. split; try done. by rewrite (upd_graph_id _ _ _ _ _ Hu).
    + intros k m _ Hk. destruct (inv_nodes _ Hi _ _ Hk). split; try done.
      by rewrite (upd_graph_id _ _ _ _ _ Hu).
  - assert (∀ p pn, g_nodes g' !! p = Some pn → ∃ pn0, g_nodes g !! p = Some pn0
      ∧ (p ≠ id → pn = pn0) ∧ (p = id → pn = n' ∧ pn0 = n)) as Hback.
    { intros p pn Hpn. destruct (decide (p = id)) as [->|Hne].
      - rewrite upd_lookup_eq in Hpn. simplify_eq. exists n. naive_solver.
      - rewrite upd_lookup_ne in Hpn by done. exists pn. naive_solver. }
    assert (∀ k m, g_nodes g !! k = Some m ∨ k = id ∧ m = n' → context_ok g m → context_ok g' m) as Hc.
    { intros k m Hk Hm p pn Hp Ht' Hpn. destruct (Hback p pn Hpn) as (pn0 & Hpn0 & H1 & H2).
      destruct (decide (p = id)) as [->|Hne]; [|rewrite H1 by done; by apply (Hm p)].
      destruct (H2 eq_refl) as [-> ->]. destruct (Hm id n Hp Ht' Hpn0) as [E1 E2].
      destruct Hkids as [[-> ->]|Hkids]; [done|]. exfalso. apply Ht'.
      destruct Hk as [Hk|[-> ->]].
      - apply (Hkids k m); [|done]. apply (tree_children _ Ht). eauto.
      - pose proof (tree_ranked _ Ht _ _ Hn) as [_ Hr].
        injection Hsh as ? Hpar ? ? ? ?. rewrite Hp in Hpar. rewrite <-Hpar in Hr.
        destruct Hr as (? & ? & ?). simplify_eq. lia. }
    apply (upd_forall (λ _ m, context_ok g' m)); [by apply (Hc id); [right|]|].
    intros k m _ Hk. apply (Hc k); [by left|]. by apply (inv_context _ Hi k).
  - apply (upd_forall (λ k m, wn_status m = Pending → children_of g' k = [])).
    + intros Hst. rewrite Hch. apply (inv_queued _ Hi id n); auto.
    + intros k m _ Hk Hst. rewrite Hch. by apply (inv_queued _ Hi k m).
  - intros d. apply (upd_forall (λ k m, claimed d g' k ≤ remaining d (wn_budget m))).
    + by rewrite upd_claimed.
    + intros k m _ Hk. rewrite upd_claimed by done. by apply inv_claimed.
  - intros k r Hk. rewrite (upd_receipts _ _ _ _ _ Hu) in Hk.
    destruct (inv_receipts _ Hi _ _ Hk) as [R1 (m & Hm & Hp & Hf & Hd & Hfe)].
    split; [done|]. destruct (decide (rc_node_id r = id)) as [E|Hne].
    + destruct Hq as [Hq|(E1 & E2 & E3)]; [by destruct (Hq k r Hk)|].
      rewrite E in Hm |- *. assert (m = n) as -> by congruence.
      exists n'. rewrite upd_lookup_eq. split; [done|].
      injection Hsh as ? Hpar ? ? ? ?. rewrite Hpar, E2, E3. unfold finished. rewrite E1. done.
    + exists m. by rewrite upd_lookup_ne.
  - rewrite (upd_receipts _ _ _ _ _ Hu). apply (inv_receipt_unique _ Hi).
  - destruct (inv_accepted _ Hi) as [A1 A2].
    split; rewrite (upd_accepted _ _ _ _ _ Hu).
    + intros x (k & r & l & Hk & Ho & Ha & Hl & Hx)%A1. exists k, r, l.
      rewrite (upd_receipts _ _ _ _ _ Hu). repeat split; try done. by apply (shape_path Hs).
    + intros x m' p Hx Hm' Hp. destruct (shape_lookup (symmetry Hs) _ _ Hm') as (m & Hm & Hsm).
      injection Hsm as ? Hpar ? ? ? ?. eapply A2; [done..|]. congruence.
  - intros i f Hf. specialize (Hreap i f Hf). destruct (decide (i = id)) as [->|Hne].
    + exists n'. split; [apply upd_lookup_eq|done].
    + rewrite upd_lookup_ne by done. by apply (inv_reaped _ Hi).
  - done.
  - apply (upd_forall (λ k m, wn_parent_node_id m = None → is_Some (g_chain_budgets g' !! k))).
    + intros Hp. apply Hdom, (inv_roots _ Hi id n Hn). injection Hsh as ? Hpar ? ? ? ?. congruence.
    + intros k m _ Hk Hp. by apply Hdom, (inv_roots _ Hi k m).
  - rewrite (upd_failed _ _ _ _ _ Hu). apply Hi.
  - intros d. apply (upd_forall (λ _ m, alloc d (wn_budget m) ≤ MODEST_BUDGET)).
    + rewrite (shape_alloc d _ _ Hsh). by apply (inv_modest _ Hi d id).
    + intros k m _. apply (inv_modest _ Hi).
  - injection Hsh as _ _ _ _ _ Hcap.
    assert (∀ j m, j ≠ id → g_nodes g !! j = Some m → wn_execution_started n' = true →
      wn_execution_started m = true → wn_capsule_ref n' = wn_capsule_ref m → False) as Hnew.
    { intros j m Hj Hm Hs1 Hs2 E. destruct (Hcaps Hs1) as [Hs0|Hfree].
      - apply Hj. eapply (inv_capsules _ Hi); [exact Hm|exact Hn|done|done|congruence].
      - eapply Hfree; [exact Hj|exact Hm|done|congruence]. }
    intros i j x y Hx Hy Hsx Hsy E.
    destruct (decide (i = id)) as [->|Hni], (decide (j = id)) as [->|Hnj]; [done|..].
    + rewrite upd_lookup_eq in Hx. rewrite upd_lookup_ne in Hy by done. simplify_eq.
      exfalso. by eapply Hnew.
    + rewrite upd_lookup_eq in Hy. rewrite upd_lookup_ne in Hx by done. simplify_eq.
      exfalso. by eapply Hnew.
    + rewrite upd_lookup_ne in Hx, Hy by done. by eapply (inv_capsules _ Hi).
Qed.
End update.
