(* ===== verification/PreserveLocal.v ===== *)
(** * Operations on one node

    Each theorem states, for one operation of [graph_ops.rs] or
    [control_ops.rs] and a graph that satisfies the invariant, that the
    operation neither panics nor loops, that the graph satisfies the invariant
    after a success and is untouched after an error, and what the operation did
    to the node. *)
From S2P Require Import Prelude Wp BTree Sums Text Hashing Float64 BudgetCascade GraphModel.
From S2P Require Import ControlOps Validate GraphOps GraphLineage GraphTree Reserve Ledger GraphInv.
From S2P Require Import LocalUpdate.
#[local] Open Scope Z_scope.

(** ** Checks *)
Lemma ewp_check {E} (x : exec E ()) (Q : () → Prop) :
  ewp x (λ _, True) → (x = Ok () → Q ()) → ewp x Q.
Proof. intros Hx HQ. apply ewp_True; [done|]. intros []. apply HQ. Qed.

Lemma ewp_u64_add x y Q : (x + y ≤ u64_max → Q (x + y)) → ewp (u64_add x y) Q.
Proof. intros HQ. apply ewp_ok_or. intros z [-> Hz]%checked_add_Some. auto. Qed.

Lemma identifier_total v f : ewp (validate_identifier v f) (λ _, True).
Proof. unfold validate_identifier. by wp_step. Qed.
(** The field name only appears in the error. *)
Lemma identifier_field v f f' : validate_identifier v f = Ok () → validate_identifier v f' = Ok ().
Proof. unfold validate_identifier. by rewrite !reject_if_Ok. Qed.
Lemma budget_total b : ewp (validate_budget b) (λ _, True).
Proof. unfold validate_budget. by wp_step. Qed.
Lemma path_claim_total v : ewp (validate_path_claim v) (λ _, True).
Proof. unfold validate_path_claim. do 2 wp_step. done. Qed.

Lemma claims_total keys claims : ewp (validate_claims keys claims) (λ _, True).
Proof.
  revert keys. induction claims as [|c claims IH]; intros keys; cbn [validate_claims]; [done|].
  apply ewp_bind, ewp_check; [apply identifier_total|intros _].
  apply ewp_bind, ewp_check; [apply identifier_total|intros _].
  apply ewp_bind, ewp_reject. intros _. apply IH.
Qed.

Lemma receipt_total r : ewp (validate_receipt r) (λ _, True).
Proof.
  unfold validate_receipt.
  do 3 (apply ewp_bind, ewp_check; [apply identifier_total|intros _]).
  do 2 (apply ewp_bind, ewp_reject; intros _). apply claims_total.
Qed.

(** The bounds an input budget has by its type. *)
Definition u64_budget (b : WorkNodeBudget) : Prop :=
  ∀ d, in_range u64_max (alloc d b) ∧ in_range u64_max (used d b).

Lemma validated_budget b : u64_budget b → validate_budget b = Ok () → budget_ok b.
Proof.
  intros Hu Hv. unfold validate_budget in Hv. apply reject_if_Ok in Hv.
  rewrite orb_false_iff, !Z.ltb_ge in Hv. intros d. specialize (Hu d) as [[? ?] [? ?]].
  destruct d; cbn in *; lia.
Qed.

(** ** Updates *)
Lemma update_node_update g id n f :
  g_nodes g !! id = Some n → shape (f n) = shape n → node_update g (update_node id f g) id n (f n).
Proof.
  intros Hn Hs. split; try done. cbn. apply map_eq. intros k.
  destruct (decide (id = k)) as [<-|Hne].
  - by rewrite lookup_alter_eq, Hn, lookup_insert_eq.
  - by rewrite lookup_alter_ne, lookup_insert_ne.
Qed.

Lemma update_node_lookup g id n f :
  g_nodes g !! id = Some n → g_nodes (update_node id f g) !! id = Some (f n).
Proof. intros Hn. cbn. by rewrite lookup_alter_eq, Hn. Qed.

Lemma update_node_lookup_ne g id k f :
  k ≠ id → g_nodes (update_node id f g) !! k = g_nodes g !! k.
Proof. intros Hk. cbn. by rewrite lookup_alter_ne. Qed.

(** What [end_incarnation] may do to the node it ends. *)
Definition ended (n : WorkNode) : WorkNode :=
  if wn_execution_started n then n else set_wn_lease_expires_epoch_ms None n.

Lemma end_incarnation_update g id n f :
  g_nodes g !! id = Some n → shape (f n) = shape n →
  let g' := end_incarnation id (update_node id f g) in
  node_update g g' id n (ended (f n))
  ∧ g_chain_budgets g' = g_chain_budgets g
  ∧ g_reaped_executions g' =
      match wn_execution_started (f n), wn_execution_fence (f n) with
      | true, Some fence => <[id := fence]> (g_reaped_executions g)
      | _, _ => g_reaped_executions g
      end.
Proof.
  intros Hn Hs. cbn zeta. pose proof (update_node_update g id n f Hn Hs) as Hu.
  unfold end_incarnation. rewrite (update_node_lookup g id n f Hn). unfold ended.
  destruct (wn_execution_started (f n)) eqn:Hst; cbn [negb].
  - destruct (wn_execution_fence (f n)) as [fence|]; [|done].
    split; [|done]. destruct Hu. by split.
  - split; [|done]. destruct Hu. split; try done. cbn in *.
    rewrite upd_nodes. apply map_eq. intros k. destruct (decide (id = k)) as [<-|Hne].
    + by rewrite lookup_alter_eq, !lookup_insert_eq.
    + by rewrite lookup_alter_ne, !lookup_insert_ne.
Qed.

(** A node that has been stopped or finished is acknowledged at its own fence. *)
Lemma ended_field {X : Type} (p : WorkNode → X) n :
  (∀ m x, p (set_wn_lease_expires_epoch_ms x m) = p m) → p (ended n) = p n.
Proof. intros Hp. unfold ended. by destruct (wn_execution_started n). Qed.

Section preserve.
Context `{Blake3}.

Lemma end_incarnation_reaped g id n f :
  graph_inv g → g_nodes g !! id = Some n → shape (f n) = shape n →
  wn_execution_fence (f n) = wn_execution_fence n →
  wn_execution_started (f n) = wn_execution_started n →
  ∀ i fc, g_reaped_executions (end_incarnation id (update_node id f g)) !! i = Some fc →
    if decide (i = id)
    then wn_execution_started (ended (f n)) = true ∧ wn_execution_fence (ended (f n)) = Some fc
    else g_reaped_executions g !! i = Some fc.
Proof.
  intros Hi Hn Hs Ef Es i fc. destruct (end_incarnation_update g id n f Hn Hs) as (_ & _ & ->).
  rewrite Ef, Es, (ended_field wn_execution_started), (ended_field wn_execution_fence), Es, Ef by done.
  destruct (wn_execution_started n) eqn:Hst, (wn_execution_fence n) as [fence|] eqn:Hfe;
    intros Hi'; try (destruct (decide (i = id)) as [->|]; [|done];
      destruct (inv_reaped _ Hi _ _ Hi') as (m & Hm & ? & ?); simplify_eq; congruence).
  destruct (decide (i = id)) as [->|Hne].
  - rewrite lookup_insert_eq in Hi'. by simplify_eq.
  - by rewrite lookup_insert_ne in Hi'.
Qed.

(** The invariant after an update that keeps consumption, status, fence and
    start: only descriptive fields change. *)
Lemma plain_update_inv g id n n' g' :
  graph_inv g → node_update g g' id n n' →
  node_ok g id n' → context_ok g n' →
  (wn_task_ref n' = wn_task_ref n ∧ wn_policy_ref n' = wn_policy_ref n
   ∨ ∀ c m, c ∈ children_of g id → g_nodes g !! c = Some m → wn_task_ref m = "") →
  wn_status n' = wn_status n → wn_execution_fence n' = wn_execution_fence n →
  wn_execution_started n' = wn_execution_started n → wn_budget n' = wn_budget n →
  g_chain_budgets g' = g_chain_budgets g → g_reaped_executions g' = g_reaped_executions g →
  graph_inv g'.
Proof.
  intros Hi Hu Hok Hctx Hkids Est Ef Es Eb Ec Er.
  pose proof (upd_old _ _ _ _ _ Hu) as Hn.
  apply (node_update_inv Hi Hu); try done.
  - congruence.
  - unfold is_active. rewrite Est. auto.
  - by right.
  - intros d. rewrite Eb. by apply inv_claimed.
  - intros i f. rewrite Er. intros Hf. destruct (decide (i = id)) as [->|]; [|done].
    destruct (inv_reaped _ Hi _ _ Hf) as (m & Hm & ? & ?). simplify_eq. by rewrite Es, Ef.
  - apply (upd_chains_same Hi Hu); [by rewrite Eb|done].
  - by rewrite Ec.
  - rewrite Es. by left.
Qed.

(** A descendant's receipt is only ever for a finished node, so a node that is
    not finished has none. *)
Lemma open_no_receipt g id n :
  graph_inv g → g_nodes g !! id = Some n → ¬ finished n → no_receipt g id.
Proof.
  intros Hi Hn Hf k r Hk E. destruct (inv_receipts _ Hi _ _ Hk) as [_ (m & Hm & _ & Hfm & _)].
  rewrite E in Hm. simplify_eq. done.
Qed.

(** The invariant after the end of an open node: its status becomes final or
    stopped, its consumption stays. *)
Lemma end_update_inv g id n f g' :
  graph_inv g → g_nodes g !! id = Some n → ¬ finished n →
  shape (f n) = shape n → g' = end_incarnation id (update_node id f g) →
  node_ok g id (f n) → wn_task_ref (f n) = wn_task_ref n → wn_policy_ref (f n) = wn_policy_ref n →
  wn_parent_task_ref (f n) = wn_parent_task_ref n →
  wn_execution_fence (f n) = wn_execution_fence n →
  wn_execution_started (f n) = wn_execution_started n → wn_budget (f n) = wn_budget n →
  wn_status (f n) ≠ Pending → wn_status (f n) ≠ Active →
  graph_inv g'.
Proof.
  intros Hi Hn Hfin Hs -> Hok Et Ep Ept Ef Es Eb Hnp Hna.
  destruct (end_incarnation_update g id n f Hn Hs) as (Hu & Ec & Er).
  pose proof (open_no_receipt g id n Hi Hn Hfin) as Hnr.
  apply (node_update_inv Hi Hu).
  - unfold ended. destruct (wn_execution_started (f n)); [done|]. destruct Hok. by split.
  - intros p pn. rewrite (ended_field wn_parent_node_id), (ended_field wn_task_ref),
      (ended_field wn_parent_task_ref), (ended_field wn_policy_ref), Et, Ep, Ept by done.
    injection Hs as ? -> ? ? ? ?. by apply (inv_context _ Hi id n Hn).
  - left. by rewrite (ended_field wn_task_ref), (ended_field wn_policy_ref), Et, Ep by done.
  - rewrite (ended_field wn_status) by done. done.
  - unfold is_active. rewrite (ended_field wn_status) by done. by rewrite bool_decide_eq_false_2.
  - by left.
  - intros d. rewrite (ended_field wn_budget), Eb by done. by apply inv_claimed.
  - by apply end_incarnation_reaped.
  - apply (upd_chains_same Hi Hu); [|done]. intros d. by rewrite (ended_field wn_budget), Eb by done.
  - by rewrite Ec.
  - rewrite (ended_field wn_execution_started), Es by done. by left.
Qed.

(** ** Operations *)

(** The operation terminates without panic, keeps the invariant when it
    succeeds and changes nothing when it fails. *)
Definition preserved {A} (m : graph_op A) (g : BoundedWorkGraph) : Prop :=
  wp m (λ _ g', graph_inv g') (λ g', g' = g) g.

(** The fences issued so far are the hashes of the new identifier too. *)
Definition rebindable (g : BoundedWorkGraph) (graph_id : string) : Prop :=
  g_graph_id g = graph_id ∨ ∀ id n, g_nodes g !! id = Some n → wn_execution_fence n = None.

Lemma bind_graph_id_preserved g graph_id :
  graph_inv g → rebindable g graph_id → preserved (bind_graph_id graph_id) g.
Proof.
  intros Hi Hre. unfold preserved, bind_graph_id. apply wp_bind, wp_lift; [done|].
  apply ewp_check; [apply identifier_total|intros Hid]. do 4 wp_step.
  destruct Hi as [[L1 L2 L3 L4 L5 _] Ht Hp I1 I2 I3 I4 I5 I6 [A1 A2] I8 I9 I10 I11 I12 I13].
  split; try done.
  - split; try done. by right.
  - by apply (shape_tree_ok g).
  - by apply (shape_pending_ok g).
  - intros id n Hn. pose proof (I1 id n Hn) as Hok. destruct Hok. split; try done. cbn.
    destruct Hre as [<-|Hre]; [done|]. by rewrite (Hre id n).
  - intros k r Hk. destruct (I5 _ _ Hk). by split.
  - intros c cb Hc. destruct (I9 _ _ Hc). by split.
Qed.

Lemma set_path_claims_preserved g id claims :
  graph_inv g → preserved (set_path_claims id claims) g.
Proof.
  intros Hi. unfold preserved, set_path_claims. wp_reject Hlen%Z.ltb_ge.
  apply wp_bind, wp_lift; [done|]. apply ewp_forM; [intros; apply path_claim_total|]. intros Hclaims.
  wp_get. wp_some n Hn. wp_reject Hst%bool_decide_eq_false. wp_modify.
  apply (plain_update_inv g id n (set_wn_path_claims (dedup (sort_strings claims)) n)); try done.
  - by apply update_node_update.
  - destruct (inv_nodes _ Hi _ _ Hn). split; try done; cbn.
    + unfold vec_len in *. pose proof (length_dedup (sort_strings claims)) as Hd.
      rewrite length_sort_strings in Hd. lia.
    + apply NoDup_dedup_sort.
  - exact (inv_context _ Hi id n Hn).
  - by left.
Qed.

(** The children of the root are still unconfigured. *)
Definition children_unconfigured (g : BoundedWorkGraph) (id : string) : Prop :=
  ∀ c n, c ∈ children_of g id → g_nodes g !! c = Some n → wn_task_ref n = "".

Lemma configure_root_context_preserved g id task policy expected :
  graph_inv g → children_unconfigured g id →
  preserved (configure_root_context id task policy expected) g.
Proof.
  intros Hi Hkids. unfold preserved, configure_root_context.
  do 3 (apply wp_bind, wp_lift; [done|]; apply ewp_check; [apply identifier_total|intros ?]).
  wp_get. wp_some n Hn. wp_reject Hp. wp_modify.
  destruct (wn_parent_node_id n) eqn:Ep; [done|].
  eapply (plain_update_inv g id n _); [done|by apply update_node_update|..]; try done.
  - destruct (inv_nodes _ Hi _ _ Hn). split; try done; cbn; by right.
  - intros p pn Hpar. cbn in Hpar. congruence.
  - right. done.
Qed.

Lemma configure_child_context_preserved g id task expected :
  graph_inv g → preserved (configure_child_context id task expected) g.
Proof.
  intros Hi. unfold preserved, configure_child_context.
  do 2 (apply wp_bind, wp_lift; [done|]; apply ewp_check; [apply identifier_total|intros ?]).
  wp_get. wp_some p Hp. wp_some pn Hpn. wp_reject Hctx. wp_some n Hn.
  wp_reject Hst%bool_decide_eq_false. wp_modify. apply dec_stable in Hst.
  rewrite Hn in Hp. cbn in Hp. rewrite orb_false_iff, !str_is_empty_false in Hctx.
  eapply (plain_update_inv g id n _); [done|by apply update_node_update|..]; try done.
  - destruct (inv_nodes _ Hi _ _ Hn), (inv_nodes _ Hi _ _ Hpn).
    split; try done; cbn; try (by right).
    + intros r [= <-]. destruct node_task0 as [?|Hv]; [naive_solver|].
      by eapply identifier_field.
  - intros p' pn' Hp' _ Hpn'. cbn in Hp' |- *. rewrite Hp in Hp'. by simplify_eq.
  - right. intros c m Hc. rewrite (inv_queued _ Hi id n) in Hc by done. set_solver.
Qed.

(** *** Claiming *)

(** A node that can be claimed: a queued child of an active parent, when the
    graph has a free slot and the attempt counter is not used up. *)
Record claimable (g : BoundedWorkGraph) (id : string) (n : WorkNode) : Prop := {
  clm_node : g_nodes g !! id = Some n;
  clm_parent : ∃ p pn, wn_parent_node_id n = Some p ∧ g_nodes g !! p = Some pn ∧ wn_status pn = Active;
  clm_queued : wn_status n = Pending;
  clm_slot : active_count g < local_concurrency_limit g;
  clm_attempt : wn_claim_attempt n + 1 ≤ u32_max;
}.

Lemma claim_and_activate_until_preserved g id lease :
  graph_inv g →
  wp (claim_and_activate_until id lease)
    (λ r g', graph_inv g' ∧ ∃ n, claimable g id n
       ∧ r = claim_node (g_graph_id g) (wn_claim_attempt n + 1) lease n
       ∧ g' = update_node id (claim_node (g_graph_id g) (wn_claim_attempt n + 1) lease) g)
    (λ g', g' = g) g.
Proof.
  intros Hi. unfold claim_and_activate_until.
  apply wp_bind, wp_lift; [done|]. apply ewp_check; [apply identifier_total|intros Hid].
  wp_get. wp_reject Hact%Z.leb_gt. wp_some n Hn. wp_some p Hp. wp_reject Hpar.
  wp_reject Hst%bool_decide_eq_false. apply dec_stable in Hst. wp_some attempt Ha.
  apply bool_decide_eq_false, dec_stable in Hpar.
  assert (∃ pn, g_nodes g !! p = Some pn ∧ wn_status pn = Active) as (pn & Hpn & Hpst).
  { destruct (g_nodes g !! p) as [pn|]; [|done]. injection Hpar as ?. by exists pn. }
  apply checked_add_Some in Ha as [-> Ha]. wp_modify. wp_get.
  set (f := claim_node (g_graph_id g) (wn_claim_attempt n + 1) lease).
  eapply wp_expect; [by apply update_node_lookup|].
  split; [|exists n; split; [|done]; split; eauto].
  pose proof (update_node_update g id n f Hn eq_refl) as Hu.
  pose proof (inv_nodes _ Hi _ _ Hn) as Hok. destruct (node_queued _ _ _ Hok Hst) as [Hns Hnf].
  apply (node_update_inv Hi Hu).
  - destruct Hok. split; try done. intros fc [= <-]. done.
  - exact (inv_context _ Hi id n Hn).
  - by left.
  - done.
  - by right.
  - left. apply (open_no_receipt g id n); [done..|]. unfold finished. rewrite Hst. by intros [].
  - intros d. by apply (inv_claimed _ Hi d id n).
  - intros i fc Hf. change (g_reaped_executions g !! i = Some fc) in Hf.
    destruct (decide (i = id)) as [->|]; [|done].
    destruct (inv_reaped _ Hi _ _ Hf) as (m & Hm & Hs & _). congruence.
  - by apply (upd_chains_same Hi Hu).
  - done.
  - by left.
Qed.

Lemma claim_ok g id lease n :
  graph_inv g → claimable g id n →
  ∃ g' r, claim_and_activate_until id lease g = (g', Ok r).
Proof.
  intros Hi [Hn (p & pn & Hp & Hpn & Hpst) Hst Hs Ha].
  unfold claim_and_activate_until, mbind, op_mbind, op_bind, lift, get, modify.
  rewrite (node_id_ok _ _ _ (inv_nodes _ Hi _ _ Hn)).
  rewrite (proj2 (Z.leb_gt _ _)) by done. cbn [reject_if]. rewrite Hn. cbn [ok_or].
  rewrite Hp. cbn [ok_or]. rewrite Hpn. cbn [fmap option_fmap option_map].
  rewrite Hpst, (bool_decide_eq_false_2 (Some Active ≠ _)) by tauto. cbn [reject_if].
  rewrite Hst, (bool_decide_eq_false_2 (Pending ≠ _)) by tauto. cbn [reject_if].
  unfold checked_add. rewrite (proj2 (Z.leb_le _ _)) by done. cbn [ok_or].
  rewrite (update_node_lookup g id n) by done. cbn. eauto.
Qed.

(** Starting or renewing an execution sets flags of a fenced, active node. *)
Lemma start_preserved g id n lease started g' :
  graph_inv g → g_nodes g !! id = Some n → wn_status n = Active → capsule_free g id n →
  g' = update_node id (λ n, set_wn_execution_started true (if started : bool then
         set_wn_lease_expires_epoch_ms lease n else n)) g →
  graph_inv g'.
Proof.
  intros Hi Hn Hst Hfree ->.
  set (f := λ n, set_wn_execution_started true (if started then set_wn_lease_expires_epoch_ms lease n else n)).
  assert (shape (f n) = shape n) as Hsh by (by destruct started).
  pose proof (update_node_update g id n f Hn Hsh) as Hu.
  pose proof (inv_nodes _ Hi _ _ Hn) as Hok.
  assert (no_receipt g id) as Hnr.
  { apply (open_no_receipt g id n); [done..|]. unfold finished. rewrite Hst. by intros []. }
  apply (node_update_inv Hi Hu).
  - destruct Hok. destruct started; split; try done; try (intros Hp; cbn in Hp; congruence).
    + intros a Ha. destruct (node_delivery a Ha) as (? & ? & ?). done.
    + intros a Ha. destruct (node_delivery a Ha) as (? & ? & ?). done.
  - destruct started; exact (inv_context _ Hi id n Hn).
  - left. by destruct started.
  - by destruct started.
  - unfold is_active. rewrite Hst. by left.
  - by left.
  - intros d. destruct started; by apply (inv_claimed _ Hi d id n).
  - intros i fc Hf. change (g_reaped_executions g !! i = Some fc) in Hf.
    destruct (decide (i = id)) as [->|]; [|done].
    destruct (inv_reaped _ Hi _ _ Hf) as (m & Hm & Hs & Hfe). simplify_eq. by destruct started.
  - apply (upd_chains_same Hi Hu); [|done]. by destruct started.
  - done.
  - by right.
Qed.

Lemma capsule_consumed_false g id n :
  capsule_consumed g id (wn_capsule_ref n) = false → capsule_free g id n.
Proof.
  unfold capsule_consumed. rewrite any_false. intros Hc k m Hk Hm Hs E.
  specialize (Hc (k, m)). cbn in Hc. rewrite elem_of_bt_iter in Hc. specialize (Hc Hm).
  rewrite Hs, (bool_decide_eq_false_2 (k = id)), bool_decide_eq_true_2 in Hc by done. done.
Qed.

Lemma claim_or_resume_preserved g id lease :
  graph_inv g → preserved (claim_or_resume_active_until id lease) g.
Proof.
  intros Hi. unfold preserved, claim_or_resume_active_until. wp_get. wp_some n Hn. wp_reject Hcap.
  apply capsule_consumed_false in Hcap.
  destruct (wn_status n) eqn:Hst; try by (apply wp_lift; [done|]).
  - apply wp_bind. eapply wp_mono; [by apply claim_and_activate_until_preserved| |done].
    intros r g1 (Hi1 & m & [Hm _ _ _ _] & _ & Hg1). simplify_eq.
    set (g1 := update_node _ _ g) in *.
    assert (g_nodes g1 !! id
            = Some (claim_node (g_graph_id g) (wn_claim_attempt n + 1) (Some lease) n)) as Hn1
      by by apply update_node_lookup.
    wp_modify. wp_get. eapply wp_expect; [by apply update_node_lookup|].
    apply (start_preserved g1 id _ None false _ Hi1 Hn1); try done.
    intros k m' Hk Hm' Hs'. apply (Hcap k m' Hk); [|done].
    unfold g1 in Hm'. by rewrite update_node_lookup_ne in Hm'.
  - wp_reject Hc. wp_modify. wp_get.
    eapply wp_expect; [by apply update_node_lookup|].
    by apply (start_preserved g id n (Some lease) true _ Hi Hn).
Qed.
End preserve.
