(* ===== verification/StopCascade.v ===== *)
(** * Stop cascades

    [stop_recursive] closes a node and everything delegated below it.  What it
    does to the graph is one relation, [stops], closed under composition; the
    recursion is bounded because the parents it has passed are distinct keys of
    the child index. *)
From S2P Require Import Prelude Wp BTree Sums Text Hashing Float64 BudgetCascade GraphModel.
From S2P Require Import ControlOps Validate GraphOps GraphLineage GraphTree Reserve Ledger GraphInv.
From S2P Require Import LocalUpdate PreserveLocal.
#[local] Open Scope Z_scope.

(** [x] is [p] or was delegated, directly or not, by [p]. *)
Inductive below (g : BoundedWorkGraph) : string → string → Prop :=
| below_here p : below g p p
| below_child p c x : c ∈ children_of g p → below g c x → below g p x.

(** A node after its stop. *)
Definition stop_result (reason : StopReason) (n : WorkNode) : WorkNode :=
  ended (set_wn_stop_reason (Some reason) (set_wn_status Stopped n)).

Definition open_node (n : WorkNode) : bool := is_open (wn_status n).

(** From [g] to [g'] exactly the open nodes of [hit] were stopped, each once,
    in the order of [l], with the reason [why] gives. *)
Record stops (g g' : BoundedWorkGraph) (hit : string → Prop) (why : string → StopReason)
    (l : list string) : Prop := {
  st_in x : x ∈ l → ∃ n, g_nodes g !! x = Some n ∧ open_node n = true
    ∧ g_nodes g' !! x = Some (stop_result (why x) n);
  st_out x : x ∉ l → g_nodes g' !! x = g_nodes g !! x;
  st_all x n : hit x → g_nodes g !! x = Some n → open_node n = true → x ∈ l;
  st_hit x : x ∈ l → hit x;
  st_nodup : NoDup l;
}.

Lemma open_node_spec n : open_node n = true ↔ wn_status n = Active ∨ wn_status n = Pending.
Proof. unfold open_node, is_open. by rewrite orb_true_iff, !bool_decide_eq_true. Qed.

Lemma stop_result_closed reason n : open_node (stop_result reason n) = false.
Proof. unfold stop_result, ended. by destruct (wn_execution_started _). Qed.

Lemma stop_result_shape reason n : shape (stop_result reason n) = shape n.
Proof. unfold stop_result, ended. by destruct (wn_execution_started _). Qed.

Lemma stops_none g hit why :
  (∀ x n, hit x → g_nodes g !! x = Some n → open_node n = false) → stops g g hit why [].
Proof.
  intros Hc. split; [set_solver|done| |set_solver|constructor].
  intros x n Hx Hn Ho. rewrite (Hc x n) in Ho; done.
Qed.

Lemma stops_app g g1 g2 h1 h2 why l1 l2 :
  stops g g1 h1 why l1 → stops g1 g2 h2 why l2 →
  stops g g2 (λ x, h1 x ∨ h2 x) why (l1 ++ l2).
Proof.
  intros [A1 A2 A3 A4 A5] [B1 B2 B3 B4 B5].
  assert (∀ x, x ∈ l1 → x ∉ l2) as Hdisj.
  { intros x (n & _ & _ & Hg1)%A1 (n1 & Hn1 & Ho & _)%B1. simplify_eq.
    by rewrite stop_result_closed in Ho. }
  split.
  - intros x [Hx|Hx]%elem_of_app.
    + destruct (A1 x Hx) as (n & Hn & Ho & Hg1). exists n. split; [done|]. split; [done|].
      rewrite B2; [done|by apply Hdisj].
    + destruct (B1 x Hx) as (n & Hn & Ho & Hg2). exists n. rewrite <-(A2 x); [done|].
      intros Hx1. by eapply Hdisj.
  - intros x Hx. rewrite elem_of_app in Hx. rewrite B2, A2; tauto.
  - intros x n Hh Hn Ho. rewrite elem_of_app.
    destruct (decide (x ∈ l1)) as [|Hx]; [by left|right].
    destruct Hh as [Hh|Hh]; [by destruct Hx; eapply A3|]. eapply B3; [done| |done].
    by rewrite A2.
  - intros x [Hx|Hx]%elem_of_app; [left|right]; auto.
  - apply NoDup_app. auto.
Qed.

Lemma stops_ext g g' (hit hit' : string → Prop) why why' l :
  (∀ x, hit x → hit' x) → (∀ x, hit' x → is_Some (g_nodes g !! x) → hit x) →
  (∀ x n, g_nodes g !! x = Some n → open_node n = true → hit x → why x = why' x) →
  stops g g' hit why l → stops g g' hit' why' l.
Proof.
  intros H1 H2 Hw [A1 A2 A3 A4 A5]. split; try done.
  - intros x Hx. destruct (A1 x Hx) as (n & Hn & Ho & Hg'). exists n.
    rewrite <-(Hw x n); auto.
  - intros x n Hh Hn Ho. eapply A3; eauto.
  - intros x Hx. auto.
Qed.

Lemma stops_shape g g' hit why l :
  stops g g' hit why l →
  shape <$> g_nodes g = shape <$> g_nodes g'.
Proof.
  intros [A1 A2 _ _ _]. apply map_eq. intros k. rewrite !lookup_fmap.
  destruct (decide (k ∈ l)) as [Hk|Hk]; [|by rewrite A2].
  destruct (A1 k Hk) as (n & -> & _ & ->). cbn. by rewrite stop_result_shape.
Qed.

(** What a cascade leaves alone. *)
Record stop_frame (g g' : BoundedWorkGraph) : Prop := {
  sf_graph_id : g_graph_id g' = g_graph_id g;
  sf_children : g_children g' = g_children g;
  sf_chains : g_chain_budgets g' = g_chain_budgets g;
  sf_pending : g_pending_child_budgets g' = g_pending_child_budgets g;
  sf_parents : g_pending_child_parents g' = g_pending_child_parents g;
  sf_receipts : g_receipts g' = g_receipts g;
  sf_failed : g_failed_spend g' = g_failed_spend g;
  sf_accepted : g_accepted_path g' = g_accepted_path g;
  sf_concurrency : g_max_local_concurrency g' = g_max_local_concurrency g;
  sf_fan : g_max_fan_out g' = g_max_fan_out g;
  sf_depth : g_max_depth g' = g_max_depth g;
}.

#[export] Instance stop_frame_refl : Reflexive stop_frame.
Proof. intros g. by split. Qed.
#[export] Instance stop_frame_trans : Transitive stop_frame.
Proof. intros g1 g2 g3 [] []. split; congruence. Qed.

Lemma stop_frame_children g g' p : stop_frame g g' → children_of g' p = children_of g p.
Proof. intros Hf. unfold children_of. by rewrite (sf_children _ _ Hf). Qed.

Lemma below_frame g g' p x : stop_frame g g' → below g p x → below g' p x.
Proof.
  intros Hf. induction 1 as [|p c x Hc _ IH]; [constructor|].
  econstructor; [|done]. by rewrite (stop_frame_children g g').
Qed.

Lemma below_frame_back g g' p x : stop_frame g g' → below g' p x → below g p x.
Proof.
  intros Hf. induction 1 as [|p c x Hc _ IH]; [constructor|].
  econstructor; [|done]. by rewrite <-(stop_frame_children g g').
Qed.

Section cascade.
Context `{Blake3}.

(** One node. *)
Lemma stop_node_spec g id n reason :
  graph_inv g → g_nodes g !! id = Some n → open_node n = true →
  let g' := stop_node id reason g in
  graph_inv g' ∧ stop_frame g g' ∧ stops g g' (λ x, x = id) (λ _, reason) [id].
Proof.
  intros Hi Hn Ho. cbn zeta. unfold stop_node.
  set (f := λ n, set_wn_stop_reason (Some reason) (set_wn_status Stopped n)).
  assert (¬ finished n) as Hnf
    by (apply open_node_spec in Ho; unfold finished; destruct (wn_status n); naive_solver).
  destruct (end_incarnation_update g id n f Hn eq_refl) as (Hu & Ec & Er).
  split; [|split].
  - apply (end_update_inv g id n f); try done.
    destruct (inv_nodes _ Hi _ _ Hn). by split.
  - by destruct Hu.
  - split.
    + intros x ->%list_elem_of_singleton. exists n. split; [done|]. split; [done|].
      by rewrite (upd_lookup_eq Hu).
    + intros x Hx. apply (upd_lookup_ne Hu). set_solver.
    + intros x m -> _ _. left.
    + by intros x ->%list_elem_of_singleton.
    + apply NoDup_singleton.
Qed.

(** The reason each node below [id] gets. *)
Definition cascade_reason (id : string) (reason : StopReason) (x : string) : StopReason :=
  if decide (x = id) then reason else ParentStopped.

(** What one call of [stop_recursive] promises. *)
Definition cascade_post (g : BoundedWorkGraph) (id : string) (reason : StopReason)
    (acc r : list string) (g' : BoundedWorkGraph) : Prop :=
  graph_inv g' ∧ stop_frame g g' ∧
  ∃ l, r = acc ++ l ∧ stops g g' (below g id) (cascade_reason id reason) l.

Lemma stop_recursive_spec fuel (A : gset string) g id reason acc :
  graph_inv g →
  (∀ x, x ∈ A → is_Some (g_children g !! x) ∧
     ∀ n, g_nodes g !! id = Some n → ∃ xn, g_nodes g !! x = Some xn ∧ wn_depth xn < wn_depth n) →
  (size (g_children g) < fuel + size A)%nat →
  wp (stop_recursive fuel id reason acc) (cascade_post g id reason acc) (λ _, False) g.
Proof.
  revert A g id reason acc. induction fuel as [|fuel IH]; intros A g id reason acc Hi HA Hf.
  { exfalso. assert (A ⊆ dom (g_children g)) as HA'%subseteq_size.
    { intros x Hx. apply elem_of_dom. by apply HA. }
    rewrite size_dom in HA'. lia. }
  cbn [stop_recursive]. wp_get.
  set (hit0 := λ x, x = id).
  assert (∃ g1 acc1 l1, graph_inv g1 ∧ stop_frame g g1 ∧ acc1 = acc ++ l1
    ∧ stops g g1 hit0 (cascade_reason id reason) l1
    ∧ (match g_nodes g !! id with
       | Some node =>
           if is_open (wn_status node)
           then modify (stop_node id reason);; mret (acc ++ [id]) else mret acc
       | None => mret acc
       end) g = (g1, Ok (E := WorkGraphError) acc1)) as (g1 & acc1 & l1 & Hi1 & Hf1 & -> & Hs1 & Hrun).
  { destruct (g_nodes g !! id) as [n|] eqn:Hn.
    - destruct (is_open (wn_status n)) eqn:Ho.
      + destruct (stop_node_spec g id n reason Hi Hn Ho) as (? & ? & Hs).
        exists (stop_node id reason g), (acc ++ [id]), [id]. repeat (split; [done|]).
        split; [|done]. eapply stops_ext; [..|exact Hs]; try done.
        intros x m _ _ ->. unfold cascade_reason. by destruct (decide (id = id)).
      + exists g, acc, []. rewrite app_nil_r. repeat (split; [done|]). split; [|done].
        apply stops_none. intros x m -> Hm. by simplify_eq.
    - exists g, acc, []. rewrite app_nil_r. repeat (split; [done|]). split; [|done].
      apply stops_none. intros x m -> Hm. by simplify_eq. }
  apply wp_bind. unfold wp at 1. rewrite Hrun.
  (* the children, one after the other *)
  eapply (wp_fold _ (λ ys r g2, graph_inv g2 ∧ stop_frame g g2
    ∧ (∀ c, c ∈ ys → c ∈ children_of g id)
    ∧ ∃ l (zs : list string), r = acc ++ l ∧ stops g g2 (λ x, hit0 x ∨ ∃ c, c ∈ zs ∧ below g c x)
                                (cascade_reason id reason) l
      ∧ ∀ c, c ∈ children_of g id ↔ c ∈ zs ∨ c ∈ ys)).
  - split; [done|]. split; [done|]. split; [done|]. exists l1, []. split; [done|].
    split; [|intros c; split; [by right|by intros [?%elem_of_nil|?]]].
    eapply stops_ext; [..|exact Hs1]; [by left| |done].
    intros x [?|(c & Hc & _)] _; [done|set_solver].
  - intros c ys r g2 (Hi2 & Hf2 & Hys & l & zs & -> & Hs2 & Hcov).
    assert (c ∈ children_of g id) as Hc by (apply Hys; left).
    eapply wp_mono; [apply (IH ({[id]} ∪ A) g2 c ParentStopped (acc ++ l))| |done].
    + done.
    + rewrite (sf_children _ _ Hf2). intros x Hx.
      destruct (tree_child (inv_tree _ Hi) _ _ Hc) as (cn & pn & Hcn & _ & Hpn & Hd).
      assert (same_shape g g2) as Hsh.
      { destruct Hf2. split; try congruence. by eapply stops_shape. }
      assert (is_Some (g_children g !! x) ∧ ∃ xn, g_nodes g !! x = Some xn
               ∧ wn_depth xn ≤ wn_depth pn) as (Hk & xn & Hxn & Hxd).
      { apply elem_of_union in Hx as [->%elem_of_singleton|Hx].
        - split; [|exists pn; split; [done|lia]]. unfold children_of in Hc.
          destruct (g_children g !! id); [eauto|set_solver].
        - destruct (HA x Hx) as [? Hxd]. split; [done|].
          destruct (Hxd _ Hpn) as (xn & ? & ?). exists xn. split; [done|lia]. }
      split; [done|]. intros n Hn.
      destruct (shape_lookup (symmetry Hsh) _ _ Hn) as (n0 & Hn0 & [=]). simplify_eq.
      destruct (shape_lookup Hsh _ _ Hxn) as (xn' & Hxn' & [=]). exists xn'. split; [done|]. lia.
    + rewrite (sf_children _ _ Hf2). rewrite size_union, size_singleton; [lia|].
      apply disjoint_singleton_l. intros [_ Hid]%HA.
      destruct (tree_child (inv_tree _ Hi) _ _ Hc) as (_ & pn & _ & _ & Hpn & _).
      destruct (Hid _ Hpn) as (xn & ? & ?). simplify_eq. lia.
    + intros r g3 (Hi3 & Hf3 & l3 & -> & Hs3). split; [done|]. split; [by etrans|].
      split; [set_solver|]. exists (l ++ l3), (zs ++ [c]). split; [by rewrite (assoc_L (++))|].
      split; [|intros c'; rewrite Hcov; set_solver].
      eapply stops_ext; [| | |eapply stops_app; [exact Hs2|]]; cycle 3.
      * eapply stops_ext; [..|exact Hs3]; [intros x Hx; exact Hx|done|].
        intros x n Hn Ho Hx. unfold cascade_reason. destruct (decide (x = id)) as [->|Hne];
          [|by destruct (decide (x = c))]. exfalso.
        destruct (decide (id ∈ l)) as [Hin|Hin].
        -- destruct (st_in _ _ _ _ _ Hs2 _ Hin) as (n0 & _ & _ & Hg2). simplify_eq.
           by rewrite stop_result_closed in Ho.
        -- apply Hin. rewrite (st_out _ _ _ _ _ Hs2) in Hn by done.
           eapply (st_all _ _ _ _ _ Hs2); [by left|done|done].
      * intros x [[?|(c' & ? & ?)]|Hx]; [by left|right; exists c'; set_solver|].
        right. exists c. split; [set_solver|by eapply below_frame_back].
      * intros x [?|(c' & [Hc'|Hc']%elem_of_app & Hx)] _; [by left; left|left; right; eauto|].
        apply list_elem_of_singleton in Hc' as ->. right. by eapply below_frame.
      * done.
  - intros r g2 (Hi2 & Hf2 & _ & l & zs & -> & Hs2 & Hcov). split; [done|]. split; [done|].
    exists l. split; [done|]. eapply stops_ext; [| | |exact Hs2]; [| |done].
    + intros x [->|(c & Hc & Hx)]; [constructor|]. econstructor; [|done]. apply Hcov. by left.
    + intros x Hx _. inversion Hx; subst; [by left|]. right. exists c. split; [|done].
      destruct (proj1 (Hcov c)); [done|done|set_solver].
Qed.

Lemma stop_recursive_fuel g g' id reason acc :
  graph_inv g' → g_children g' = g_children g →
  wp (stop_recursive (stop_fuel g) id reason acc) (cascade_post g' id reason acc) (λ _, False) g'.
Proof.
  intros Hi Hc. apply (stop_recursive_spec _ ∅); [done|set_solver|].
  rewrite Hc, size_empty. unfold stop_fuel. lia.
Qed.

Lemma stop_spec g id reason :
  graph_inv g →
  wp (stop id reason)
    (λ r g', graph_inv g' ∧ stop_frame g g' ∧ is_Some (g_nodes g !! id)
       ∧ stops g g' (below g id) (cascade_reason id reason) r)
    (λ g', g' = g ∧ g_nodes g !! id = None) g.
Proof.
  intros Hi. unfold stop. wp_get. unfold contains_key, reject_if.
  destruct (g_nodes g !! id) as [n|] eqn:Hn; cbn [is_some negb]; [|done].
  apply wp_bind. change (wp (lift (Ok ())) ?Q ?F g) with (Q () g).
  eapply wp_mono; [by apply stop_recursive_fuel| |done].
  intros r g' (? & ? & l & -> & ?). split; [done|]. split; [done|]. split; [by exists n|done].
Qed.

(** Clearing the lease of a stopped node. *)
Lemma clear_lease_inv g id :
  graph_inv g → graph_inv (update_node id (set_wn_lease_expires_epoch_ms None) g).
Proof.
  intros Hi. destruct (g_nodes g !! id) as [n|] eqn:Hn.
  - apply (plain_update_inv g id n (set_wn_lease_expires_epoch_ms None n)); try done.
    + by apply update_node_update.
    + destruct (inv_nodes _ Hi _ _ Hn). by split.
    + exact (inv_context _ Hi id n Hn).
    + by left.
  - assert (update_node id (set_wn_lease_expires_epoch_ms None) g = g) as ->; [|done].
    unfold update_node, set_g_nodes. rewrite alter_id; [by destruct g|].
    intros n Hn'. congruence.
Qed.

Lemma stop_preserved g id reason : graph_inv g → preserved (stop id reason) g.
Proof. intros Hi. eapply wp_mono; [by apply stop_spec|by intros ?? []|by intros ? []]. Qed.

Lemma stop_unlaunched_preserved g id reason :
  graph_inv g → preserved (stop_unlaunched id reason) g.
Proof.
  intros Hi. unfold preserved, stop_unlaunched. apply wp_bind.
  eapply wp_mono; [by apply stop_spec| |by intros ? []].
  intros r g' (Hi' & _). wp_modify. apply wp_ret. by apply clear_lease_inv.
Qed.

Lemma recover_preserved g id now :
  graph_inv g → preserved (recover_expired_execution id now) g.
Proof.
  intros Hi. unfold preserved, recover_expired_execution. wp_get. wp_some n Hn.
  destruct (_ && _ && _); [by apply stop_preserved|done].
Qed.

(** One cascade after another: each node keeps the reason of the cascade that
    stopped it. *)
Lemma stops_then g g1 g2 h1 h2 w1 w2 l1 l2 :
  stops g g1 h1 w1 l1 → stops g1 g2 h2 w2 l2 →
  stops g g2 (λ x, h1 x ∨ h2 x) (λ x, if bool_decide (x ∈ l1) then w1 x else w2 x) (l1 ++ l2).
Proof.
  intros H1 H2. eapply stops_app.
  - eapply stops_ext; [..|exact H1]; [done|done|]. intros x n Hn Ho Hh. cbn.
    rewrite bool_decide_eq_true_2; [done|]. by eapply (st_all _ _ _ _ _ H1).
  - eapply stops_ext; [..|exact H2]; [done|done|]. intros x n Hn Ho Hh. cbn.
    rewrite bool_decide_eq_false_2; [done|]. intros Hx.
    destruct (st_in _ _ _ _ _ H1 x Hx) as (n0 & _ & _ & Hg1). simplify_eq.
    by rewrite stop_result_closed in Ho.
Qed.

(** The nodes [enforce_stop_conditions] starts from. *)
Definition exhausted_at (g : BoundedWorkGraph) (id : string) : Prop :=
  ∃ n, g_nodes g !! id = Some n ∧ wn_status n = Active ∧ is_exhausted (wn_budget n) = true.

Definition enforced (g : BoundedWorkGraph) (r : list (string * StopReason)) (g' : BoundedWorkGraph) :
    Prop :=
  stop_frame g g' ∧ ∃ why l, r = (λ id, (id, BudgetExhausted)) <$> l
    ∧ stops g g' (λ x, ∃ id, exhausted_at g id ∧ below g id x) why l.

Lemma enforce_spec g :
  graph_inv g → wp enforce_stop_conditions (λ r g', graph_inv g' ∧ enforced g r g') (λ _, False) g.
Proof.
  intros Hi. unfold enforce_stop_conditions. wp_get.
  set (ids := (filter _ (bt_iter (g_nodes g))).*1).
  assert (∀ id, id ∈ ids ↔ exhausted_at g id) as Hids.
  { intros id. unfold ids. rewrite list_elem_of_fmap. split.
    - intros ([k n] & -> & [[? ?] Hk%elem_of_bt_iter]%list_elem_of_filter). by exists n.
    - intros (n & Hn & ? & ?). exists (id, n). split; [done|]. apply list_elem_of_filter.
      split; [done|]. by apply elem_of_bt_iter. }
  apply (wp_fold _ (λ ys r g', graph_inv g' ∧ stop_frame g g' ∧ ∃ zs why l, ids = zs ++ ys
    ∧ r = (λ id, (id, BudgetExhausted)) <$> l
    ∧ stops g g' (λ x, ∃ id, id ∈ zs ∧ below g id x) why l)).
  - split; [done|]. split; [done|]. exists [], (λ _, BudgetExhausted), []. split; [done|]. split; [done|].
    apply stops_none. intros x n (id & Hid & _). set_solver.
  - intros id ys r g1 (Hi1 & Hf1 & zs & why & l & Hz & -> & Hs). apply wp_bind.
    eapply wp_mono; [apply stop_recursive_fuel; [done|apply Hf1]| |done].
    intros r g2 (Hi2 & Hf2 & l2 & -> & Hs2). apply wp_ret. split; [done|]. split; [by etrans|].
    eexists (zs ++ [id]), _, (l ++ l2). split; [by rewrite <-(assoc_L (++))|].
    split; [cbn [app]; symmetry; apply fmap_app|]. eapply stops_ext; [..|eapply stops_then; [exact Hs|exact Hs2]]; try done.
    + intros x [(i & ? & ?)|Hx]; [exists i; set_solver|exists id].
      split; [set_solver|by eapply below_frame_back].
    + intros x (i & Hin & Hx) _. apply elem_of_app in Hin as [Hin|Hin]; [left; eauto|].
      apply list_elem_of_singleton in Hin as ->. right. by eapply below_frame.
  - intros r g1 (Hi1 & Hf1 & zs & why & l & Hz & -> & Hs). rewrite app_nil_r in Hz.
    split; [done|]. split; [done|]. exists why, l. split; [done|].
    eapply stops_ext; [..|exact Hs]; [| |done]; rewrite <-Hz.
    + intros x (i & Hin%Hids & ?). by exists i.
    + intros x (i & Hin%Hids & ?) _. by exists i.
Qed.

(** Nothing that is left running is exhausted. *)
Lemma enforced_none g r g' id : enforced g r g' → ¬ exhausted_at g' id.
Proof.
  intros (_ & why & l & _ & Hs) (n & Hn & Hst & He). destruct (decide (id ∈ l)) as [Hin|Hin].
  - destruct (st_in _ _ _ _ _ Hs id Hin) as (n0 & _ & _ & Hg'). simplify_eq.
    pose proof (stop_result_closed (why id) n0) as Hc. unfold open_node in Hc. by rewrite Hst in Hc.
  - apply Hin. rewrite (st_out _ _ _ _ _ Hs) in Hn by done.
    eapply (st_all _ _ _ _ _ Hs); [|done|apply open_node_spec; by left].
    exists id. split; [by exists n|constructor].
Qed.

Lemma enforce_preserved g : graph_inv g → preserved enforce_stop_conditions g.
Proof. intros Hi. eapply wp_mono; [by apply enforce_spec|by intros ?? []|done]. Qed.

Lemma complete_preserved g id outcome : graph_inv g → preserved (complete id outcome) g.
Proof.
  intros Hi. unfold preserved, complete.
  apply wp_bind, wp_lift; [done|]. apply ewp_check; [apply identifier_total|intros Ho].
  wp_get. wp_some n Hn. wp_reject Hst%bool_decide_eq_false. apply dec_stable in Hst.
  wp_modify. wp_modify.
  apply (end_update_inv g id n (λ node, set_wn_lease_expires_epoch_ms None
           (set_wn_outcome_ref (Some outcome) (set_wn_status Completed node)))); try done.
  - unfold finished. rewrite Hst. by intros [].
  - destruct (inv_nodes _ Hi _ _ Hn). by split.
Qed.

Lemma begin_delivery_attempt_preserved g id fence attempt :
  graph_inv g → preserved (begin_delivery_attempt id fence attempt) g.
Proof.
  intros Hi. unfold preserved, begin_delivery_attempt. wp_get. wp_some n Hn. wp_reject Hc. wp_modify.
  rewrite !orb_false_iff, !bool_decide_eq_false, !negb_false_iff, andb_true_iff, !Z.leb_le in Hc.
  destruct Hc as [[[[Hst Hs] Hf] Ha] _]. apply dec_stable in Hst, Hf.
  eapply (plain_update_inv g id n _); [done|by apply update_node_update|..]; try done.
  - destruct (inv_nodes _ Hi _ _ Hn). split; try done. intros a [= <-]. cbn. rewrite Hf. eauto.
  - exact (inv_context _ Hi id n Hn).
  - by left.
Qed.
End cascade.
