(* ===== verification/Spend.v ===== *)
(** * Spending: consumption and receipts

    [consume_budget] and [record_child_receipt] are the two operations that move
    a node's consumption.  Both check the amount against what the node has left
    after its descendants' claims and against its chain, so both keep the
    invariant; a receipt then settles the node, which only lowers what its
    ancestors must reserve. *)
From S2P Require Import Prelude Wp BTree Sums Text Hashing Float64 BudgetCascade GraphModel.
From S2P Require Import ControlOps Validate GraphOps GraphLineage GraphTree Reserve Ledger GraphInv.
From S2P Require Import LocalUpdate PreserveLocal StopCascade.
#[local] Open Scope Z_scope.

(** A pair of amounts, by dimension. *)
Definition amount (tokens cost : Z) (d : dim) : Z :=
  match d with Tokens => tokens | Cost => cost end.

Lemma amounts_le x1 y1 x2 y2 :
  (x1 <? y1) || (x2 <? y2) = false → ∀ d, amount y1 y2 d ≤ amount x1 x2 d.
Proof. rewrite orb_false_iff, !Z.ltb_ge. by intros [? ?] []. Qed.

Section spend.
Context `{Blake3}.

(** ** What the checks establish *)
Lemma consume_node_checks_spec g id tokens cost :
  graph_inv g → 0 ≤ tokens → 0 ≤ cost →
  ewp (consume_node_checks g id tokens cost) (λ r, ∃ n, g_nodes g !! id = Some n
    ∧ wn_status n = Active
    ∧ (∀ d, used d (wn_budget n) + amount tokens cost d + claimed d g id ≤ alloc d (wn_budget n))
    ∧ r = (used Tokens (wn_budget n) + tokens, used Cost (wn_budget n) + cost,
           (used Tokens (wn_budget n) + tokens =? alloc Tokens (wn_budget n))
           || (used Cost (wn_budget n) + cost =? alloc Cost (wn_budget n)))).
Proof.
  intros Hi Ht Hc. unfold consume_node_checks. apply ewp_bind, ewp_ok_or. intros n Hn.
  apply ewp_bind, ewp_reject. intros Hst%bool_decide_eq_false. apply dec_stable in Hst.
  apply ewp_bind, ewp_u64_add. intros Hut. apply ewp_bind, ewp_u64_add. intros Huc.
  apply ewp_bind, ewp_reject. intros Hall. rewrite (inv_reserved g id Hi), exec_bind_ret.
  apply ewp_bind, ewp_reject. intros Hrem. apply ewp_ok. exists n. repeat (split; [done|]). split; [|done].
  pose proof (node_budget _ _ _ (inv_nodes _ Hi _ _ Hn)) as Hb.
  intros d. pose proof (inv_claimed _ Hi d id n Hn) as Hcl. pose proof (amounts_le _ _ _ _ Hrem d) as Hd.
  rewrite remaining_eq in Hcl by done. pose proof (remaining_eq d _ Hb) as Hr.
  pose proof (reserve_nonneg (inv_budgets _ Hi) id None d id).
  unfold saturating_sub in Hd. fold (claimed d g id) in *.
  destruct d; cbn [amount remaining alloc used] in *; lia.
Qed.

Lemma consume_chain_checks_spec g c cb tokens cost :
  chain_ok g c cb → g_chain_budgets g !! c = Some cb →
  ewp (consume_chain_checks g c tokens cost) (λ r,
    (∀ d, chain_spent d cb + amount tokens cost d ≤ chain_root d cb)
    ∧ r = (chain_spent Tokens cb + tokens, chain_spent Cost cb + cost,
           (chain_spent Tokens cb + tokens =? chain_root Tokens cb)
           || (chain_spent Cost cb + cost =? chain_root Cost cb))).
Proof.
  intros Hok Hcb. unfold consume_chain_checks. rewrite Hcb. cbn [ok_or]. rewrite exec_bind_ret.
  apply ewp_bind, ewp_u64_add. intros Hut. apply ewp_bind, ewp_u64_add. intros Huc.
  pose proof (chain_over_ok _ _ _ Hok Tokens) as Ho1. pose proof (chain_over_ok _ _ _ Hok Cost) as Ho2.
  cbn [chain_over] in Ho1, Ho2. rewrite Ho1, Ho2. unfold saturating_add.
  rewrite !Z.add_0_r, !Z.min_r by done.
  apply ewp_bind, ewp_reject. intros Hroot. apply ewp_ok. split; [|done].
  intros d. pose proof (amounts_le _ _ _ _ Hroot d) as Hd. by destruct d.
Qed.

(** The root of a node and its chain's record. *)
Lemma node_chain g id n :
  graph_inv g → g_nodes g !! id = Some n →
  ∃ root cb, chain_id_for_node g id = Ok (Some root) ∧ root_of g id = Some root
    ∧ g_chain_budgets g !! root = Some cb ∧ chain_ok g root cb.
Proof.
  intros Hi Hn. destruct (root_of_Some g id n (inv_tree _ Hi) Hn) as (r & rn & Hr & Hrn & Hp).
  destruct (inv_roots _ Hi _ _ Hrn Hp) as [cb Hcb]. exists r, cb.
  rewrite (chain_id_root g id n), Hr by (done || apply Hi).
  repeat split; try done; by apply (inv_chains _ Hi _ _ Hcb).
Qed.

(** ** [consume_budget] *)

(** The graph after the two assignments, before any stop. *)
Definition consumed_graph (g : BoundedWorkGraph) (id root : string) (n : WorkNode)
    (cb : ChainBudget) (tokens cost : Z) : BoundedWorkGraph :=
  let g := update_node id (set_consumed (used Tokens (wn_budget n) + tokens)
                             (used Cost (wn_budget n) + cost)) g in
  set_g_chain_budgets
    (alter (set_chain_consumed (chain_spent Tokens cb + tokens) (chain_spent Cost cb + cost)) root
       (g_chain_budgets g)) g.

Lemma consumed_graph_inv g id root n cb tokens cost :
  graph_inv g → g_nodes g !! id = Some n → wn_status n = Active → 0 ≤ tokens → 0 ≤ cost →
  root_of g id = Some root → g_chain_budgets g !! root = Some cb →
  (∀ d, used d (wn_budget n) + amount tokens cost d + claimed d g id ≤ alloc d (wn_budget n)) →
  (∀ d, chain_spent d cb + amount tokens cost d ≤ chain_root d cb) →
  graph_inv (consumed_graph g id root n cb tokens cost).
Proof.
  intros Hi Hn Hst Ht Hc Hroot Hcb Hall Hchain.
  set (n' := set_consumed (used Tokens (wn_budget n) + tokens) (used Cost (wn_budget n) + cost) n).
  assert (node_update g (consumed_graph g id root n cb tokens cost) id n n') as Hu.
  { destruct (update_node_update g id n (set_consumed (used Tokens (wn_budget n) + tokens)
      (used Cost (wn_budget n) + cost)) Hn eq_refl). by split. }
  assert (∀ d, used d (wn_budget n') = used d (wn_budget n) + amount tokens cost d
    ∧ alloc d (wn_budget n') = alloc d (wn_budget n)) as Hb' by by intros [].
  pose proof (inv_nodes _ Hi _ _ Hn) as Hok.
  assert (budget_ok (wn_budget n')) as Hbok.
  { intros d. destruct (Hb' d) as [-> ->]. pose proof (node_budget _ _ _ Hok d). specialize (Hall d).
    pose proof (reserve_nonneg (inv_budgets _ Hi) id None d id). fold (claimed d g id) in *.
    destruct d; cbn [amount] in *; lia. }
  apply (node_update_inv Hi Hu); try done.
  - destruct Hok. by split.
  - exact (inv_context _ Hi id n Hn).
  - by left.
  - by left.
  - left. apply (open_no_receipt g id n); [done..|]. unfold finished. rewrite Hst. by intros [].
  - intros d. rewrite remaining_eq by done. destruct (Hb' d) as [-> ->]. specialize (Hall d). lia.
  - intros i f Hf. change (g_reaped_executions g !! i = Some f) in Hf.
    destruct (decide (i = id)) as [->|]; [|done].
    destruct (inv_reaped _ Hi _ _ Hf) as (m & Hm & ? & ?). by simplify_eq.
  - apply (upd_chains_consumed Hi Hu root
      (λ d, chain_spent d cb + amount tokens cost d) Hroot); [done|].
    intros cb' d Hcb'. simplify_eq. destruct (Hb' d) as [-> _]. split; [lia|done].
  - intros c Hc'. cbn. destruct (decide (root = c)) as [->|Hne].
    + rewrite lookup_alter_eq, Hcb. by eexists.
    + by rewrite lookup_alter_ne.
  - by left.
Qed.

(** A consumption that fits: the node is running and both the node, beside what
    its descendants hold, and its chain can pay. *)
Record consumable (g : BoundedWorkGraph) (id root : string) (n : WorkNode) (cb : ChainBudget)
    (tokens cost : Z) : Prop := {
  cns_node : g_nodes g !! id = Some n;
  cns_active : wn_status n = Active;
  cns_root : root_of g id = Some root;
  cns_chain : g_chain_budgets g !! root = Some cb;
  cns_fits d : used d (wn_budget n) + amount tokens cost d + claimed d g id ≤ alloc d (wn_budget n);
  cns_chain_fits d : chain_spent d cb + amount tokens cost d ≤ chain_root d cb;
}.

Lemma reject_amounts {E A} x1 y1 x2 y2 (e : E) (k : () → exec E A) :
  y1 ≤ x1 → y2 ≤ x2 → (reject_if ((x1 <? y1) || (x2 <? y2)) e ≫= k) = k ().
Proof. intros H1 H2. apply reject_if_false. rewrite orb_false_iff, !Z.ltb_ge. done. Qed.

Lemma consume_node_checks_ok g id root n cb tokens cost :
  graph_inv g → consumable g id root n cb tokens cost → 0 ≤ tokens → 0 ≤ cost →
  ∃ x, consume_node_checks g id tokens cost = Ok x.
Proof.
  intros Hi [Hn Hst _ _ Hf _] Ht Hc. unfold consume_node_checks.
  pose proof (node_budget _ _ _ (inv_nodes _ Hi _ _ Hn)) as Hb.
  pose proof (λ d, reserve_nonneg (inv_budgets _ Hi) id None d id) as Hnn.
  pose proof (Hf Tokens) as FT. pose proof (Hf Cost) as FC. pose proof (Hb Tokens) as BT.
  pose proof (Hb Cost) as BC. pose proof (Hnn Tokens) as NT. pose proof (Hnn Cost) as NC.
  fold (claimed Tokens g id) in NT. fold (claimed Cost g id) in NC.
  cbn [amount alloc used] in *.
  rewrite Hn. cbn [ok_or]. rewrite exec_bind_ret, reject_if_false
    by (rewrite Hst; apply bool_decide_eq_false_2; tauto).
  rewrite (u64_add_fits _ tokens), exec_bind_ret by lia.
  rewrite (u64_add_fits _ cost), exec_bind_ret by lia.
  rewrite reject_amounts by lia. rewrite (inv_reserved g id Hi), exec_bind_ret.
  rewrite reject_amounts.
  - eexists. done.
  - unfold saturating_sub, tokens_remaining, saturating_sub. lia.
  - unfold saturating_sub, cost_remaining, saturating_sub. lia.
Qed.

Lemma consume_chain_checks_ok g id root n cb tokens cost :
  graph_inv g → consumable g id root n cb tokens cost →
  ∃ x, consume_chain_checks g root tokens cost = Ok x.
Proof.
  intros Hi [_ _ _ Hcb _ Hf]. pose proof (inv_chains _ Hi _ _ Hcb) as Hok.
  unfold consume_chain_checks. rewrite Hcb. cbn [ok_or]. rewrite exec_bind_ret.
  destruct (chain_node _ _ _ Hok) as (m & Hm & _ & Hr).
  pose proof (node_budget _ _ _ (inv_nodes _ Hi _ _ Hm)) as Hb.
  pose proof (chain_over_ok _ _ _ Hok Tokens) as Ho1. pose proof (chain_over_ok _ _ _ Hok Cost) as Ho2.
  pose proof (Hf Tokens) as FT. pose proof (Hf Cost) as FC. pose proof (Hb Tokens) as BT.
  pose proof (Hb Cost) as BC. pose proof (Hr Tokens) as RT. pose proof (Hr Cost) as RC.
  cbn [amount alloc used chain_spent chain_root chain_over] in *.
  rewrite (u64_add_fits _ tokens), exec_bind_ret by lia.
  rewrite (u64_add_fits _ cost), exec_bind_ret by lia.
  rewrite Ho1, Ho2. unfold saturating_add. rewrite reject_amounts by lia. by eexists.
Qed.

(** A success adds exactly the requested amounts to the node and its chain, and
    only then stops what is exhausted: the whole chain if the root's budget is
    used up, else this node if its own allocation is. *)
Definition consumed_post (g : BoundedWorkGraph) (id : string) (tokens cost : Z) (r : bool)
    (g' : BoundedWorkGraph) : Prop :=
  ∃ root n cb, g_nodes g !! id = Some n ∧ wn_status n = Active
    ∧ root_of g id = Some root ∧ g_chain_budgets g !! root = Some cb
    ∧ (∀ d, used d (wn_budget n) + amount tokens cost d + claimed d g id ≤ alloc d (wn_budget n))
    ∧ (∀ d, chain_spent d cb + amount tokens cost d ≤ chain_root d cb)
    ∧ let g1 := consumed_graph g id root n cb tokens cost in
      stop_frame g1 g' ∧
      if (chain_spent Tokens cb + tokens =? chain_root Tokens cb)
         || (chain_spent Cost cb + cost =? chain_root Cost cb)
      then r = true ∧ ∃ l, stops g1 g' (below g1 root) (cascade_reason root BudgetExhausted) l
      else if (used Tokens (wn_budget n) + tokens =? alloc Tokens (wn_budget n))
              || (used Cost (wn_budget n) + cost =? alloc Cost (wn_budget n))
      then r = true ∧ stops g1 g' (λ x, x = id) (λ _, BudgetExhausted) [id]
      else r = false ∧ g' = g1.

Lemma consume_spec g id tokens cost :
  graph_inv g → 0 ≤ tokens → 0 ≤ cost →
  wp (consume_budget id tokens cost)
    (λ r g', graph_inv g' ∧ consumed_post g id tokens cost r g')
    (λ g', g' = g ∧ ¬ ∃ root n cb, consumable g id root n cb tokens cost) g.
Proof.
  intros Hi Ht Hc. unfold consume_budget. wp_get. apply wp_bind, wp_lift_err.
  { intros e He. split; [done|]. intros (root & n & cb & Hcons).
    destruct (consume_node_checks_ok g id root n cb tokens cost); [done..|congruence]. }
  eapply ewp_mono; [|by apply consume_node_checks_spec]. intros _ (n & Hn & Hst & Hall & ->).
  destruct (node_chain g id n Hi Hn) as (root & cb & Hid & Hroot & Hcb & Hcok).
  rewrite Hid. apply wp_bind, wp_lift_ok, wp_bind, wp_lift_ok, wp_bind, wp_lift_err.
  { intros e He. split; [done|]. intros (root' & n' & cb' & Hcons).
    assert (root' = root) as -> by (pose proof (cns_root _ _ _ _ _ _ _ Hcons); congruence).
    destruct (consume_chain_checks_ok g id root n' cb' tokens cost); [done..|congruence]. }
  eapply ewp_mono; [|by apply (consume_chain_checks_spec g root cb)]. intros _ (Hchain & ->).
  wp_modify. wp_modify.
  pose proof (consumed_graph_inv g id root n cb tokens cost Hi Hn Hst Ht Hc Hroot Hcb Hall Hchain) as Hi1.
  set (g1 := consumed_graph g id root n cb tokens cost) in *.
  assert (∀ r g', graph_inv g' ∧ (stop_frame g1 g' ∧
      if (chain_spent Tokens cb + tokens =? chain_root Tokens cb)
         || (chain_spent Cost cb + cost =? chain_root Cost cb)
      then r = true ∧ ∃ l, stops g1 g' (below g1 root) (cascade_reason root BudgetExhausted) l
      else if (used Tokens (wn_budget n) + tokens =? alloc Tokens (wn_budget n))
              || (used Cost (wn_budget n) + cost =? alloc Cost (wn_budget n))
      then r = true ∧ stops g1 g' (λ x, x = id) (λ _, BudgetExhausted) [id]
      else r = false ∧ g' = g1) → graph_inv g' ∧ consumed_post g id tokens cost r g') as Hdone.
  { intros r g' [? [? ?]]. split; [done|]. exists root, n, cb. repeat (split; [done|]). done. }
  change (set_g_chain_budgets _ _) with g1.
  destruct ((chain_spent Tokens cb + tokens =? chain_root Tokens cb) || _) eqn:Ec.
  - apply wp_bind. eapply wp_mono; [by apply (stop_recursive_fuel g g1)| |done].
    intros r g' (Hi' & Hf & l & -> & Hs). apply wp_ret, Hdone. eauto.
  - destruct ((used Tokens (wn_budget n) + tokens =? alloc Tokens (wn_budget n)) || _) eqn:En.
    + wp_modify. apply wp_ret, Hdone.
      destruct (stop_node_spec g1 id (set_consumed (used Tokens (wn_budget n) + tokens)
        (used Cost (wn_budget n) + cost) n) BudgetExhausted) as (? & ? & ?); [done| | |done].
      * by apply (update_node_lookup g).
      * apply open_node_spec. by left.
    + apply wp_ret, Hdone. done.
Qed.

Lemma consume_preserved g id tokens cost :
  graph_inv g → 0 ≤ tokens → 0 ≤ cost → preserved (consume_budget id tokens cost) g.
Proof. intros. eapply wp_mono; [by apply consume_spec|by intros ?? []|by intros ? []]. Qed.

End spend.
