(* ===== verification/Receipts.v ===== *)
(** * Receipts

    [record_child_receipt] finishes an active child: it writes the consumption,
    closes the execution and stores the receipt.  The proof goes through the
    graph in between, where the node is finished but its receipt is not stored
    yet; storing the receipt settles the node, and a settled node never reserves
    more than its allocation did. *)
From S2P Require Import Prelude Wp BTree Sums Text Hashing Float64 BudgetCascade GraphModel.
From S2P Require Import ControlOps Validate GraphOps GraphLineage GraphTree Reserve Ledger GraphInv.
From S2P Require Import LocalUpdate PreserveLocal StopCascade Spend.
#[local] Open Scope Z_scope.

Section receipts.
Context `{Blake3}.

(** ** Storing the receipt of a finished node *)
Section settle.
Context {g : BoundedWorkGraph} (Hi : graph_inv g) {r : ChildExecutionReceipt} {n : WorkNode}.
Context (Hn : g_nodes g !! rc_node_id r = Some n) (Hnr : no_receipt g (rc_node_id r)).
Context (Hfresh : g_receipts g !! rc_receipt_id r = None).
Context (Hused : ∀ d, used d (wn_budget n) = receipt_used d r).
Let g' := set_g_receipts (<[rc_receipt_id r := r]> (g_receipts g)) g.

Lemma store_any (f : ChildExecutionReceipt → bool) :
  any f (bt_values (g_receipts g')) = f r || any f (bt_values (g_receipts g)).
Proof using Hfresh.
  apply eq_true_iff_eq. rewrite orb_true_iff, !any_true. cbn. split.
  - intros (x & [k Hk]%elem_of_bt_values & Hx). apply lookup_insert_Some in Hk as [[_ <-]|[_ Hk]].
    + by left.
    + right. exists x. split; [|done]. apply elem_of_bt_values. eauto.
  - intros [Hx|(x & [k Hk]%elem_of_bt_values & Hx)].
    + exists r. split; [|done]. apply elem_of_bt_values. exists (rc_receipt_id r).
      by rewrite lookup_insert_eq.
    + exists x. split; [|done]. apply elem_of_bt_values. exists k.
      rewrite lookup_insert_ne; [done|congruence].
Qed.

Lemma store_settled c m : c ≠ rc_node_id r → settled g' c m = settled g c m.
Proof using Hfresh.
  intros Hc. unfold settled. rewrite store_any. f_equal.
  rewrite (bool_decide_eq_false_2 (rc_node_id r = c)) by done. done.
Qed.

Lemma store_held d p k q : held d g' p None k q ≤ held d g p None k q.
Proof using Hi Hn Hnr Hfresh.
  revert q. induction k as [|k IH]; intros q; cbn [held]; [done|].
  apply Z.add_le_mono; [|done]. apply zsum_le. intros c _. unfold share. rewrite skipped_None.
  pose proof (IH c) as IHc. unfold direct, settled_at. change (g_nodes g') with (g_nodes g).
  destruct (g_nodes g !! c) as [m|] eqn:Hm; [|lia].
  destruct (decide (c = rc_node_id r)) as [->|Hne].
  - simplify_eq. rewrite (settled_no_receipt g) by done.
    destruct (settled g' (rc_node_id r) n); [|lia].
    pose proof (held_le_reserve (inv_tree _ Hi) (inv_budgets _ Hi) p None d k (rc_node_id r)) as Hle.
    assert (reserve d g p None (rc_node_id r) = claimed d g (rc_node_id r)) as E
      by apply held_None.
    pose proof (inv_claimed _ Hi d _ _ Hn) as Hc.
    rewrite remaining_eq in Hc by by apply (node_budget g (rc_node_id r)), inv_nodes. lia.
  - rewrite store_settled by done. destruct (settled g c m); lia.
Qed.

Lemma store_receipt_inv :
  validate_receipt r = Ok () → is_Some (wn_parent_node_id n) → finished n →
  (is_Some (wn_execution_fence n) → rc_execution_fence r = wn_execution_fence n) → graph_inv g'.
Proof using Hi Hn Hnr Hfresh Hused.
  intros Hv Hp Hf Hfe. assert (same_shape g g') as Hs by by split.
  assert (∀ k x, g_receipts g' !! k = Some x ↔
    k = rc_receipt_id r ∧ x = r ∨ k ≠ rc_receipt_id r ∧ g_receipts g !! k = Some x) as Hl.
  { intros k x. cbn. rewrite lookup_insert_Some. naive_solver. }
  pose proof Hi as [I1 I2 I3 I4 I5 I6 I7 I8 I9 [A1 A2] I11 I12 I13 I14 I15 I16].
  split; try done.
  - destruct I1. by split.
  - by apply (shape_tree_ok g).
  - by apply (shape_pending_ok g).
  - intros id m Hm. destruct (I4 id m Hm). by split.
  - intros d id m Hm. etrans; [apply store_held|]. by apply I7.
  - intros k x [[-> ->]|[_ Hk]]%Hl.
    + split; [done|]. exists n. auto.
    + destruct (I8 k x Hk). by split.
  - intros k1 k2 r1 r2 H1%Hl H2%Hl E.
    destruct H1 as [[-> ->]|[_ H1]], H2 as [[-> ->]|[_ H2]]; try done.
    + by destruct (Hnr _ _ H2).
    + by destruct (Hnr _ _ H1).
    + by eapply I9.
  - split; [|done]. intros x (k & x' & l & Hk & Hx)%A1. exists k, x', l. split; [|done].
    apply Hl. right. split; [|done]. intros ->. congruence.
  - intros c cb Hc. destruct (I12 c cb Hc). by split.
Qed.
End settle.

(** ** The checks *)

(** What an accepted receipt must satisfy in the graph it is recorded in. *)
Record receivable (g : BoundedWorkGraph) (r : ChildExecutionReceipt) (n : WorkNode) : Prop := {
  rcv_form : validate_receipt r = Ok ();
  rcv_fresh : g_receipts g !! rc_receipt_id r = None;
  rcv_first : no_receipt g (rc_node_id r);
  rcv_node : g_nodes g !! rc_node_id r = Some n;
  rcv_child : is_Some (wn_parent_node_id n);
  rcv_active : wn_status n = Active;
  rcv_fence : is_Some (wn_execution_fence n) → rc_execution_fence r = wn_execution_fence n;
  rcv_grows d : used d (wn_budget n) ≤ receipt_used d r;
  rcv_fits d : receipt_used d r + claimed d g (rc_node_id r) ≤ alloc d (wn_budget n);
}.

(** The amounts a receipt adds. *)
Definition receipt_delta (r : ChildExecutionReceipt) (n : WorkNode) (d : dim) : Z :=
  receipt_used d r - used d (wn_budget n).

Lemma receipt_checks_spec g r :
  graph_inv g →
  ewp (receipt_node_checks g r) (λ x, ∃ n, receivable g r n
    ∧ x = (receipt_delta r n Tokens, receipt_delta r n Cost)).
Proof.
  intros Hi. unfold receipt_node_checks.
  apply ewp_bind, ewp_check; [apply receipt_total|intros Hv].
  apply ewp_bind, ewp_reject. intros [Hfresh Hfirst]%orb_false_iff.
  apply ewp_bind, ewp_ok_or. intros n Hn.
  apply ewp_bind, ewp_reject. intros [Hp Hst%bool_decide_eq_false]%orb_false_iff.
  apply dec_stable in Hst.
  apply ewp_bind, ewp_reject. intros Hfe. apply ewp_bind, ewp_reject. intros Hb4.
  rewrite (inv_reserved g _ Hi), exec_bind_ret. apply ewp_bind, ewp_reject. intros Hrem.
  apply ewp_ok. exists n. split; [|done].
  rewrite !orb_false_iff, !Z.ltb_ge in Hb4. destruct Hb4 as [[[Hb1 Hb2] Hb3] Hb4].
  pose proof (node_budget _ _ _ (inv_nodes _ Hi _ _ Hn)) as Hb.
  assert (∀ d, used d (wn_budget n) ≤ receipt_used d r) as Hge by (intros []; done).
  split; try done.
  - unfold contains_key in Hfresh. by destruct (g_receipts g !! rc_receipt_id r).
  - intros k x Hk E. rewrite any_false in Hfirst. specialize (Hfirst x).
    rewrite bool_decide_eq_true_2 in Hfirst by done. apply diff_true_false, Hfirst.
    apply elem_of_bt_values. eauto.
  - unfold is_none in Hp. destruct (wn_parent_node_id n); [eauto|done].
  - intros [f Hf]. rewrite Hf in Hfe |- *. cbn in Hfe. by apply bool_decide_eq_false, dec_stable in Hfe.
  - intros d. pose proof (inv_claimed _ Hi d _ n Hn) as Hcl. pose proof (amounts_le _ _ _ _ Hrem d) as Hd.
    rewrite remaining_eq in Hcl by done. pose proof (remaining_eq d _ Hb) as Hr.
    pose proof (reserve_nonneg (inv_budgets _ Hi) (rc_node_id r) None d (rc_node_id r)).
    specialize (Hge d). unfold saturating_sub in Hd. fold (claimed d g (rc_node_id r)) in *.
    destruct d; cbn [amount remaining alloc used receipt_used] in *; lia.
Qed.

Lemma receipt_node_checks_ok g r n :
  graph_inv g → receivable g r n → ∃ x, receipt_node_checks g r = Ok x.
Proof.
  intros Hi [R1 R2 R3 Hn R5 R6 R7 R8 R9]. unfold receipt_node_checks.
  rewrite R1, exec_bind_ret. rewrite reject_if_false.
  2: { unfold contains_key. rewrite R2. cbn [is_some orb]. apply any_false.
       intros x [k Hk]%elem_of_bt_values. apply bool_decide_eq_false_2. by eapply R3. }
  rewrite Hn. cbn [ok_or]. rewrite exec_bind_ret.
  rewrite reject_if_false.
  2: { destruct R5 as [p ->]. cbn. rewrite R6. apply bool_decide_eq_false_2; tauto. }
  rewrite reject_if_false.
  2: { destruct (wn_execution_fence n) as [f|] eqn:Ef; [|done]. cbn [is_some andb].
       apply bool_decide_eq_false_2. rewrite R7 by eauto. tauto. }
  pose proof (node_budget _ _ _ (inv_nodes _ Hi _ _ Hn)) as Hb.
  pose proof (λ d, reserve_nonneg (inv_budgets _ Hi) (rc_node_id r) None d (rc_node_id r)) as Hnn.
  pose proof (R8 Tokens) as GT. pose proof (R8 Cost) as GC. pose proof (R9 Tokens) as FT.
  pose proof (R9 Cost) as FC. pose proof (Hb Tokens) as BT. pose proof (Hb Cost) as BC.
  pose proof (Hnn Tokens) as NT. pose proof (Hnn Cost) as NC.
  fold (claimed Tokens g (rc_node_id r)) in NT. fold (claimed Cost g (rc_node_id r)) in NC.
  cbn [alloc used receipt_used] in *. rewrite reject_if_false.
  2: { rewrite !orb_false_iff, !Z.ltb_ge. lia. }
  rewrite (inv_reserved g _ Hi), exec_bind_ret. rewrite reject_amounts.
  - by eexists.
  - unfold tokens_remaining, saturating_sub. lia.
  - unfold cost_remaining, saturating_sub. lia.
Qed.

Lemma receipt_chain_checks_spec g id c cb dt dc :
  chain_ok g c cb → g_chain_budgets g !! c = Some cb →
  ewp (receipt_chain_checks g id c dt dc) (λ r,
    (∀ d, chain_spent d cb + amount dt dc d ≤ chain_root d cb)
    ∧ r = (chain_spent Tokens cb + dt, chain_spent Cost cb + dc)).
Proof.
  intros Hok Hcb. unfold receipt_chain_checks. rewrite Hcb. cbn [expect]. rewrite exec_bind_ret.
  apply ewp_bind, ewp_u64_add. intros Hut. apply ewp_bind, ewp_u64_add. intros Huc.
  pose proof (chain_over_ok _ _ _ Hok Tokens) as Ho1. pose proof (chain_over_ok _ _ _ Hok Cost) as Ho2.
  cbn [chain_over] in Ho1, Ho2. rewrite Ho1, Ho2. unfold saturating_add.
  rewrite !Z.add_0_r, !Z.min_r by done.
  apply ewp_bind, ewp_reject. intros Hroot. apply ewp_ok. split; [|done].
  intros d. pose proof (amounts_le _ _ _ _ Hroot d) as Hd. by destruct d.
Qed.

Lemma receipt_chain_checks_ok g r n root cb :
  graph_inv g → g_chain_budgets g !! root = Some cb →
  (∀ d, chain_spent d cb + receipt_delta r n d ≤ chain_root d cb) →
  ∃ x, receipt_chain_checks g (rc_node_id r) root (receipt_delta r n Tokens) (receipt_delta r n Cost)
       = Ok x.
Proof.
  intros Hi Hcb Hf. pose proof (inv_chains _ Hi _ _ Hcb) as Hok.
  unfold receipt_chain_checks. rewrite Hcb. cbn [expect]. rewrite exec_bind_ret.
  destruct (chain_node _ _ _ Hok) as (m & Hm & _ & Hr).
  pose proof (node_budget _ _ _ (inv_nodes _ Hi _ _ Hm)) as Hb.
  pose proof (chain_over_ok _ _ _ Hok Tokens) as Ho1. pose proof (chain_over_ok _ _ _ Hok Cost) as Ho2.
  pose proof (Hf Tokens) as FT. pose proof (Hf Cost) as FC. pose proof (Hb Tokens) as BT.
  pose proof (Hb Cost) as BC. pose proof (Hr Tokens) as RT. pose proof (Hr Cost) as RC.
  cbn [alloc used chain_spent chain_root chain_over] in *.
  rewrite (u64_add_fits _ (receipt_delta r n Tokens)), exec_bind_ret by lia.
  rewrite (u64_add_fits _ (receipt_delta r n Cost)), exec_bind_ret by lia.
  rewrite Ho1, Ho2. unfold saturating_add. rewrite reject_amounts by lia. by eexists.
Qed.

(** ** The whole operation *)

(** The graph when the node is finished and its receipt is not stored yet. *)
Definition finished_graph (g : BoundedWorkGraph) (r : ChildExecutionReceipt) (root : string)
    (n : WorkNode) (cb : ChainBudget) : BoundedWorkGraph :=
  let g := end_incarnation (rc_node_id r) (update_node (rc_node_id r) (settle_node r) g) in
  set_g_chain_budgets
    (alter (set_chain_consumed (chain_spent Tokens cb + receipt_delta r n Tokens)
              (chain_spent Cost cb + receipt_delta r n Cost)) root (g_chain_budgets g)) g.

Lemma settle_node_shape r n : shape (settle_node r n) = shape n.
Proof. by destruct (rc_outcome r). Qed.

Lemma settle_finished r n : finished (settle_node r n).
Proof. unfold finished. destruct r as [? ? ? [] ? ? ? ? ?]; cbn; auto. Qed.

Lemma finished_graph_inv g r root n cb :
  graph_inv g → receivable g r n → root_of g (rc_node_id r) = Some root →
  g_chain_budgets g !! root = Some cb →
  (∀ d, chain_spent d cb + receipt_delta r n d ≤ chain_root d cb) →
  let g1 := finished_graph g r root n cb in
  graph_inv g1 ∧ node_update g g1 (rc_node_id r) n (ended (settle_node r n)).
Proof.
  intros Hi [R1 R2 R3 Hn R5 R6 R7 R8 R9] Hroot Hcb Hchain. cbn zeta.
  destruct (end_incarnation_update g (rc_node_id r) n (settle_node r) Hn (settle_node_shape r n))
    as (Hu0 & Ec & _).
  assert (node_update g (finished_graph g r root n cb) (rc_node_id r) n (ended (settle_node r n))) as Hu
    by (destruct Hu0; by split).
  split; [|done].
  assert (wn_budget (ended (settle_node r n))
    = MkBudget (alloc Tokens (wn_budget n)) (rc_tokens_consumed r)
        (alloc Cost (wn_budget n)) (rc_cost_micros_consumed r)) as Eb
    by by rewrite (ended_field wn_budget).
  assert (∀ d, used d (wn_budget (ended (settle_node r n))) = receipt_used d r
    ∧ alloc d (wn_budget (ended (settle_node r n))) = alloc d (wn_budget n)) as Hb'
    by (rewrite Eb; by intros []).
  pose proof (inv_nodes _ Hi _ _ Hn) as Hok.
  assert (budget_ok (wn_budget (ended (settle_node r n)))) as Hbok.
  { intros d. destruct (Hb' d) as [-> ->]. pose proof (node_budget _ _ _ Hok d). specialize (R8 d).
    specialize (R9 d). pose proof (reserve_nonneg (inv_budgets _ Hi) (rc_node_id r) None d (rc_node_id r)).
    fold (claimed d g (rc_node_id r)) in *. lia. }
  assert (wn_status (ended (settle_node r n)) ≠ Pending ∧ wn_status (ended (settle_node r n)) ≠ Active)
    as [Hnp Hna].
  { rewrite (ended_field wn_status) by done. pose proof (settle_finished r n) as [E|E]; rewrite E; done. }
  apply (node_update_inv Hi Hu); try done.
  - revert Hbok Hnp. unfold ended. destruct Hok.
    destruct (wn_execution_started (settle_node r n)); intros; by split.
  - intros p pn. rewrite (ended_field wn_parent_node_id), (ended_field wn_task_ref),
      (ended_field wn_parent_task_ref), (ended_field wn_policy_ref) by done.
    by apply (inv_context _ Hi _ n Hn).
  - left. by rewrite (ended_field wn_task_ref), (ended_field wn_policy_ref).
  - unfold is_active. by rewrite bool_decide_eq_false_2.
  - by left.
  - intros d. rewrite remaining_eq by done. destruct (Hb' d) as [-> ->]. specialize (R9 d). lia.
  - by apply end_incarnation_reaped.
  - apply (upd_chains_consumed Hi Hu root (λ d, chain_spent d cb + receipt_delta r n d) Hroot).
    + cbn. by rewrite Ec.
    + intros cb' d Hcb'. simplify_eq. destruct (Hb' d) as [-> _]. split; [done|apply Hchain].
  - intros c Hc'. cbn. rewrite Ec. destruct (decide (root = c)) as [->|Hne].
    + rewrite lookup_alter_eq, Hcb. by eexists.
    + by rewrite lookup_alter_ne.
  - rewrite (ended_field wn_execution_started) by done. by left.
Qed.

Definition received_graph (g : BoundedWorkGraph) (r : ChildExecutionReceipt) (root : string)
    (n : WorkNode) (cb : ChainBudget) : BoundedWorkGraph :=
  let g := finished_graph g r root n cb in
  set_g_receipts (<[rc_receipt_id r := r]> (g_receipts g)) g.

Lemma record_spec g r :
  graph_inv g →
  wp (record_child_receipt r)
    (λ _ g', graph_inv g' ∧ ∃ n root cb, receivable g r n ∧ root_of g (rc_node_id r) = Some root
       ∧ g_chain_budgets g !! root = Some cb
       ∧ (∀ d, chain_spent d cb + receipt_delta r n d ≤ chain_root d cb)
       ∧ g' = received_graph g r root n cb)
    (λ g', g' = g ∧ ¬ ∃ n root cb, receivable g r n ∧ root_of g (rc_node_id r) = Some root
       ∧ g_chain_budgets g !! root = Some cb
       ∧ ∀ d, chain_spent d cb + receipt_delta r n d ≤ chain_root d cb) g.
Proof.
  intros Hi. unfold record_child_receipt. wp_get. apply wp_bind, wp_lift_err.
  { intros e He. split; [done|]. intros (n & root & cb & Hr & _).
    destruct (receipt_node_checks_ok g r n Hi Hr) as [x Hx]. congruence. }
  eapply ewp_mono; [|by apply receipt_checks_spec]. intros _ (n & Hr & ->).
  pose proof (rcv_node _ _ _ Hr) as Hn.
  destruct (node_chain g _ n Hi Hn) as (root & cb & Hid & Hroot & Hcb & Hcok).
  rewrite Hid. apply wp_bind, wp_lift_ok, wp_bind, wp_lift_ok. wp_modify. wp_get.
  assert (ensure_chain_budget root g = g) as -> by (unfold ensure_chain_budget; by rewrite Hcb).
  apply wp_bind, wp_lift_err.
  { intros e He. split; [done|]. intros (n' & root' & cb' & Hr' & Hroot' & Hcb' & Hf).
    pose proof (rcv_node _ _ _ Hr').
    assert (n' = n ∧ root' = root) as [-> ->] by (split; congruence). assert (cb' = cb) as -> by congruence.
    destruct (receipt_chain_checks_ok g r n root cb Hi Hcb Hf) as [x Hx]. congruence. }
  eapply ewp_mono; [|by apply (receipt_chain_checks_spec g _ root cb)]. intros _ (Hchain & ->).
  do 4 wp_modify. change (set_g_receipts _ _) with (received_graph g r root n cb).
  assert (∀ d, chain_spent d cb + receipt_delta r n d ≤ chain_root d cb) as Hchain'
    by (intros d; specialize (Hchain d); by destruct d).
  destruct (finished_graph_inv g r root n cb) as [Hi1 Hu]; try done.
  split; [|exists n, root, cb; done].
  apply (store_receipt_inv Hi1 (n := ended (settle_node r n))).
  - by rewrite (upd_lookup_eq Hu).
  - unfold no_receipt. rewrite (upd_receipts _ _ _ _ _ Hu). apply Hr.
  - rewrite (upd_receipts _ _ _ _ _ Hu). apply Hr.
  - intros d. rewrite (ended_field wn_budget) by done. by destruct d.
  - apply Hr.
  - rewrite (ended_field wn_parent_node_id) by done. apply Hr.
  - unfold finished. rewrite (ended_field wn_status) by done. apply settle_finished.
  - rewrite (ended_field wn_execution_fence) by done. apply Hr.
Qed.

Lemma record_preserved g r : graph_inv g → preserved (record_child_receipt r) g.
Proof. intros. eapply wp_mono; [by apply record_spec|by intros ?? []|by intros ? []]. Qed.

(** ** The accepted path *)
Lemma receipt_of_Some g id r :
  receipt_of g id = Some r → ∃ k, g_receipts g !! k = Some r ∧ rc_node_id r = id.
Proof.
  unfold receipt_of. intros [Hin Hp%bool_decide_eq_true]%find_first_Some.
  apply elem_of_bt_values in Hin as [k Hk]. eauto.
Qed.
Lemma receipt_of_node g id k r :
  graph_inv g → g_receipts g !! k = Some r → rc_node_id r = id → receipt_of g id = Some r.
Proof.
  intros Hi Hk Hr. destruct (receipt_of g id) as [r'|] eqn:E.
  - apply receipt_of_Some in E as (k' & Hk' & Hr').
    assert (k = k') as -> by (eapply (inv_receipt_unique _ Hi); [done..|congruence]). congruence.
  - unfold receipt_of in E. rewrite find_first_None in E. specialize (E r).
    rewrite bool_decide_eq_true_2 in E by done. destruct diff_true_false. apply E.
    apply elem_of_bt_values. eauto.
Qed.

(** What is on the path after marking [ids]: the marked nodes and everything
    they were delegated from. *)
Definition marked (g : BoundedWorkGraph) (ids : list string) (x : string) : Prop :=
  ∃ id l, id ∈ ids ∧ path_up (g_nodes g) id l ∧ x ∈ l.

Definition accepted_node_id (g : BoundedWorkGraph) (id : string) : Prop :=
  ∃ r, receipt_of g id = Some r ∧ rc_outcome r = Accepted.

Lemma mark_spec g ids :
  graph_inv g →
  wp (mark_accepted_path ids)
    (λ _ g', graph_inv g' ∧ g' = set_g_accepted_path (g_accepted_path g') g
       ∧ (∀ x, x ∈ g_accepted_path g' ↔ marked g ids x)
       ∧ (∀ id, id ∈ ids → accepted_node_id g id))
    (λ g', g' = g) g.
Proof.
  intros Hi. unfold mark_accepted_path. wp_get. apply wp_bind, wp_lift; [done|].
  apply (ewp_foldM _ (λ ys s, ∃ zs, ids = zs ++ ys ∧ (∀ x, x ∈ s ↔ marked g zs x)
    ∧ ∀ id, id ∈ zs → accepted_node_id g id)).
  - exists []. split; [done|]. split; [|set_solver]. intros x. unfold marked. set_solver.
  - intros id ys s (zs & -> & Hs & Hz). apply ewp_bind, ewp_check; [apply identifier_total|intros _].
    apply ewp_bind, ewp_ok_or. intros r Hr. apply ewp_bind, ewp_reject.
    intros Ho%bool_decide_eq_false. apply dec_stable in Ho.
    destruct (receipt_of_Some _ _ _ Hr) as (k & Hk & E).
    destruct (receipt_node _ _ (inv_receipts _ Hi _ _ Hk)) as (n & Hn & _). rewrite E in Hn.
    destruct (tree_path (inv_tree _ Hi) id n Hn) as (l & Hl & _).
    rewrite (node_lineage_path g id l) by done. rewrite exec_bind_ret. apply ewp_ok.
    exists (zs ++ [id]). split; [by rewrite <-(assoc_L (++))|]. split.
    + intros x. rewrite elem_of_union, elem_of_list_to_set, elem_of_reverse, Hs. split.
      * intros [(id' & l' & ? & ?)|Hx]; [exists id', l'; set_solver|exists id, l; set_solver].
      * intros (id' & l' & [Hid|Hid]%elem_of_app & Hl' & Hx).
        -- left. exists id', l'. done.
        -- apply list_elem_of_singleton in Hid as ->. right.
           by rewrite (path_up_det _ _ _ _ Hl' Hl) in Hx.
    + intros id' [Hid|Hid]%elem_of_app; [by apply Hz|].
      apply list_elem_of_singleton in Hid as ->. by exists r.
  - intros s (zs & Hzs & Hs & Hz). rewrite app_nil_r in Hzs. subst zs. apply wp_modify.
    split; [|split; [done|split; done]].
    destruct Hi as [I1 I2 I3 I4 I5 I6 I7 I8 I9 _ I11 I12 I13 I14 I15 I16]. split; try done.
    + destruct I1. by split.
    + by apply (shape_tree_ok g).
    + by apply (shape_pending_ok g).
    + intros id m Hm. destruct (I4 id m Hm). by split.
    + intros k x Hk. destruct (I8 k x Hk). by split.
    + split; cbn.
      * intros x (id & l & Hid & Hl & Hx)%Hs. destruct (Hz _ Hid) as (r & Hr & Ho).
        destruct (receipt_of_Some _ _ _ Hr) as (k & Hk & <-). exists k, r, l.
        repeat split; try done. apply Hs. exists (rc_node_id r), l. repeat split; try done.
        by inversion Hl; left.
      * intros x m p (id & l & Hid & Hl & Hx)%Hs Hm Hp. apply Hs. exists id, l.
        repeat split; try done. clear Hid. induction Hl as [id n Hn Hnp|id n q l Hn Hnp Hl IH].
        -- apply list_elem_of_singleton in Hx as ->. congruence.
        -- apply elem_of_cons in Hx as [->|Hx]; right; [|by apply IH].
           simplify_eq. by inversion Hl; left.
    + intros c cb Hc. destruct (I12 c cb Hc). by split.
Qed.

Lemma mark_preserved g ids : graph_inv g → preserved (mark_accepted_path ids) g.
Proof. intros. eapply wp_mono; [by apply mark_spec|by intros ?? []|done]. Qed.
End receipts.
