(* ===== verification/Growth.v ===== *)
(** * Growing the graph

    [add_root], [insert_child] and [allocate_child_budget] are the operations
    that change the tree or its reservations.  Nothing already in the graph
    changes its path, and only the parent that delegates reserves more. *)
From S2P Require Import Prelude Wp BTree Sums Text Hashing Float64 BudgetCascade GraphModel.
From S2P Require Import ControlOps Validate GraphOps GraphLineage GraphTree Reserve Ledger GraphInv.
From S2P Require Import LocalUpdate PreserveLocal StopCascade Spend.
#[local] Open Scope Z_scope.

(** ** Reservations that agree below a set of nodes *)
Lemma held_local d g1 p1 ex1 g2 p2 ex2 (P : string → Prop) :
  (∀ q, P q → children_of g2 q = children_of g1 q) →
  (∀ q, P q → pending_share d g2 p2 ex2 q = pending_share d g1 p1 ex1 q) →
  (∀ q c, P q → c ∈ children_of g1 q →
    skipped p2 ex2 q c = skipped p1 ex1 q c ∧ direct d g2 c = direct d g1 c
    ∧ settled_at g2 c = settled_at g1 c ∧ (settled_at g1 c = true → P c)) →
  ∀ k q, P q → held d g2 p2 ex2 k q = held d g1 p1 ex1 k q.
Proof.
  intros Hch Hps Hc. induction k as [|k IH]; intros q Hq; cbn [held]; [done|].
  rewrite Hch, Hps by done. f_equal. apply zsum_ext. intros c Hin.
  destruct (Hc q c Hq Hin) as (H1 & H2 & H3 & H4). unfold share. rewrite H1, H2, H3.
  destruct (skipped p1 ex1 q c); [done|]. destruct (settled_at g1 c); [|done].
  by rewrite IH by auto.
Qed.

(** ** Paths in a store with one more node *)
Section fresh.
Context {ns : gmap string WorkNode} {id : string} {n : WorkNode}.
Context (Hfresh : ns !! id = None).

Lemma path_up_insert k l : path_up ns k l → path_up (<[id := n]> ns) k l.
Proof using Hfresh.
  induction 1 as [k m Hm Hp|k m p l Hm Hp _ IH].
  - eapply path_root; [|done]. rewrite lookup_insert_ne; [done|congruence].
  - eapply path_step; [|done|done]. rewrite lookup_insert_ne; [done|congruence].
Qed.
End fresh.

(** [g'] is [g] with the node [n] added at [id]. *)
Record node_added (g g' : BoundedWorkGraph) (id : string) (n : WorkNode) : Prop := {
  add_fresh : g_nodes g !! id = None;
  add_nodes : g_nodes g' = <[id := n]> (g_nodes g);
  add_graph_id : g_graph_id g' = g_graph_id g;
  add_receipts : g_receipts g' = g_receipts g;
  add_failed : g_failed_spend g' = g_failed_spend g;
  add_reaped : g_reaped_executions g' = g_reaped_executions g;
  add_accepted : g_accepted_path g' = g_accepted_path g;
  add_concurrency : g_max_local_concurrency g' = g_max_local_concurrency g;
  add_fan : g_max_fan_out g' = g_max_fan_out g;
  add_depth : g_max_depth g' = g_max_depth g;
}.

Section added.
Context `{Blake3} {g g' : BoundedWorkGraph} {id : string} {n : WorkNode}.
Context (Hi : graph_inv g) (Ha : node_added g g' id n).

Lemma added_eq : g_nodes g' !! id = Some n.
Proof using Ha. rewrite (add_nodes _ _ _ _ Ha). by rewrite lookup_insert_eq. Qed.

Lemma added_old k m : g_nodes g !! k = Some m → g_nodes g' !! k = Some m.
Proof using Ha.
  intros Hk. rewrite (add_nodes _ _ _ _ Ha), lookup_insert_ne; [done|].
  intros <-. rewrite (add_fresh _ _ _ _ Ha) in Hk. done.
Qed.

Lemma added_ne k : k ≠ id → g_nodes g' !! k = g_nodes g !! k.
Proof using Ha. intros Hk. rewrite (add_nodes _ _ _ _ Ha). by rewrite lookup_insert_ne. Qed.

Lemma added_forall (P : string → WorkNode → Prop) :
  P id n → (∀ k m, k ≠ id → g_nodes g !! k = Some m → P k m) →
  ∀ k m, g_nodes g' !! k = Some m → P k m.
Proof using Ha.
  intros H1 H2 k m Hk. destruct (decide (k = id)) as [->|Hne].
  - rewrite added_eq in Hk. by simplify_eq.
  - rewrite added_ne in Hk by done. by apply H2.
Qed.

Lemma added_path k l : path_up (g_nodes g) k l → path_up (g_nodes g') k l.
Proof using Ha.
  intros Hl. rewrite (add_nodes _ _ _ _ Ha). apply path_up_insert; [|done].
  apply (add_fresh _ _ _ _ Ha).
Qed.

Lemma added_root k m : g_nodes g !! k = Some m → root_of g' k = root_of g k.
Proof using Hi Ha.
  intros Hk. destruct (tree_path (inv_tree _ Hi) k m Hk) as (l & Hl & _).
  rewrite (root_of_path g k l), (root_of_path g' k l); [done|by apply added_path|done].
Qed.

(** A child of [g] is a node of [g]. *)
Lemma child_old q c : c ∈ children_of g q → is_Some (g_nodes g !! c) ∧ c ≠ id.
Proof using Hi Ha.
  intros (m & _ & Hm & _)%(tree_child (inv_tree _ Hi)). split; [eauto|].
  intros ->. rewrite (add_fresh _ _ _ _ Ha) in Hm. done.
Qed.

Lemma added_child_same d q c :
  c ∈ children_of g q → direct d g' c = direct d g c ∧ settled_at g' c = settled_at g c.
Proof using Hi Ha.
  intros Hc. destruct (child_old q c Hc) as [[m Hm] Hne]. unfold direct, settled_at.
  rewrite added_ne, Hm by done.
  by rewrite (settled_other g g' c m) by apply (add_receipts _ _ _ _ Ha).
Qed.

Lemma added_fresh_receipt : no_receipt g id.
Proof using Hi Ha.
  intros k r Hk E. destruct (receipt_node _ _ (inv_receipts _ Hi _ _ Hk)) as (m & Hm & _).
  rewrite E, (add_fresh _ _ _ _ Ha) in Hm. done.
Qed.

Lemma added_active_count : active_count g' = active_weight id n + active_count g.
Proof using Ha.
  rewrite !active_count_msum, (add_nodes _ _ _ _ Ha).
  apply msum_insert. apply (add_fresh _ _ _ _ Ha).
Qed.

Lemma added_map_len : map_len (g_nodes g') = map_len (g_nodes g) + 1.
Proof using Ha.
  unfold map_len. rewrite (add_nodes _ _ _ _ Ha), map_size_insert_None; [lia|].
  apply (add_fresh _ _ _ _ Ha).
Qed.

(** ** The invariant of the grown graph *)
Lemma node_added_inv :
  tree_ok g' → pending_ok g' →
  map_len (g_nodes g) < MAX_GRAPH_NODES →
  (is_active n = true → active_count g < local_concurrency_limit g) →
  node_ok g' id n → wn_task_ref n = "" →
  children_of g' id = [] →
  (∀ k m, g_nodes g !! k = Some m → wn_status m = Pending → children_of g' k = children_of g k) →
  (∀ d k m, g_nodes g' !! k = Some m → claimed d g' k ≤ remaining d (wn_budget m)) →
  (∀ c cb, g_chain_budgets g' !! c = Some cb → chain_ok g' c cb) →
  (wn_parent_node_id n = None → is_Some (g_chain_budgets g' !! id)) →
  (∀ c, is_Some (g_chain_budgets g !! c) → is_Some (g_chain_budgets g' !! c)) →
  (∀ d, alloc d (wn_budget n) ≤ MODEST_BUDGET) →
  wn_execution_started n = false →
  graph_inv g'.
Proof using Hi Ha.
  intros Ht' Hp' Hlen Hact Hok Htask Hkids Hq Hclaim Hchains Hroot Hdom Hmod Hnew.
  pose proof Ha as [Hfr _ Eg Er Ef Ere Ea Ec Efa Ed].
  pose proof Hi as [[L1 L2 L3 L4 L5 L6] It Ip I4 I5 I6 I7 I8 I9 [A1 A2] I11 I12 I13 I14 I15 I16].
  split; try done.
  - split; rewrite ?Efa, ?Ed, ?Ec, ?Eg, ?added_map_len; try done; [lia|].
    rewrite added_active_count. unfold local_concurrency_limit. rewrite Ec.
    fold (local_concurrency_limit g). unfold active_weight. destruct (is_active n); [|lia].
    specialize (Hact eq_refl). lia.
  - apply (added_forall (node_ok g')); [done|]. intros k m _ Hk. destruct (I4 k m Hk).
    split; try done. by rewrite Eg.
  - apply (added_forall (λ _ m, context_ok g' m)).
    + intros p pn _ Hne. by rewrite Htask in Hne.
    + intros k m _ Hk p pn Hp Hne Hpn. apply (I5 k m Hk p pn Hp Hne).
      pose proof (tree_ranked _ It _ _ Hk) as [_ Hr]. rewrite Hp in Hr.
      destruct Hr as (pn' & Hpn' & _). rewrite (added_old p pn') in Hpn by done. congruence.
  - apply (added_forall (λ k m, wn_status m = Pending → children_of g' k = [])); [done|].
    intros k m _ Hk Hst. rewrite (Hq k m) by done. by apply (I6 k m).
  - intros k r. rewrite Er. intros Hk. destruct (I8 k r Hk) as [R1 (m & Hm & Hrest)].
    split; [done|]. exists m. split; [by apply added_old|done].
  - by rewrite Er.
  - split; rewrite Ea.
    + intros x (k & r & l & Hk & Ho & Hacc & Hl & Hx)%A1. exists k, r, l. rewrite Er.
      repeat split; try done. by apply added_path.
    + intros x m p Hx Hm Hp. destruct (decide (x = id)) as [->|Hne].
      * destruct (A1 id Hx) as (k1 & r1 & l & _ & _ & _ & Hl & Hin).
        destruct (path_up_dom _ _ _ _ Hl Hin) as [m' Hm']. congruence.
      * rewrite added_ne in Hm by done. by eapply A2.
  - intros i f. rewrite Ere. intros (m & Hm & ?)%I11. exists m. split; [by apply added_old|done].
  - apply (added_forall (λ k m, wn_parent_node_id m = None → is_Some (g_chain_budgets g' !! k))); [done|].
    intros k m _ Hk Hp. by apply Hdom, (I13 k m).
  - by rewrite Ef.
  - intros d. apply (added_forall (λ _ m, alloc d (wn_budget m) ≤ MODEST_BUDGET)); [done|].
    intros k m _. apply I15.
  - assert (∀ k m, g_nodes g' !! k = Some m → wn_execution_started m = true → g_nodes g !! k = Some m)
      as Hback.
    { apply (added_forall (λ k m, wn_execution_started m = true → g_nodes g !! k = Some m)); [|done].
      congruence. }
    intros i j x y Hx Hy Hsx Hsy. by apply (I16 i j x y); [apply Hback|apply Hback|..].
Qed.
End added.

Lemma fresh_node_ok `{Blake3} g id agent parent capsule status b depth :
  validate_identifier id "node_id" = Ok () → validate_identifier agent "agent_id" = Ok () →
  validate_identifier capsule "capsule_ref" = Ok () → budget_ok b →
  node_ok g id (fresh_node id agent parent capsule status b depth).
Proof.
  intros. split; try done; cbn; try (by left). intros ?. set_solver.
Qed.

(** A budget that has not been spent. *)
Definition unspent (b : WorkNodeBudget) : Prop := ∀ d, used d b = 0.

(** ** [add_root] *)
Section add_root.
Context `{Blake3} {g : BoundedWorkGraph} (Hi : graph_inv g).
Context (id agent capsule : string) (b : WorkNodeBudget).
Context (Hfresh : g_nodes g !! id = None).
Context (Hpend : g_pending_child_budgets g !! id = None).
Context (Hb : budget_ok b) (Hunspent : unspent b) (Hmod : ∀ d, alloc d b ≤ MODEST_BUDGET).

Definition root_node : WorkNode := fresh_node id agent None capsule Active b 0.
Definition root_chain : ChainBudget :=
  MkChainBudget id (tokens_allocated b) 0 (tokens_allocated b)
    (cost_micros_allocated b) 0 (cost_micros_allocated b) 0 0 0.
Definition rooted_graph : BoundedWorkGraph :=
  set_g_chain_budgets (<[id := root_chain]> (g_chain_budgets g))
    (set_g_nodes (<[id := root_node]> (g_nodes g)) g).

Lemma rooted_added : node_added g rooted_graph id root_node.
Proof using Hfresh. by split. Qed.

Lemma rooted_tree : tree_ok rooted_graph.
Proof using Hi Hfresh.
  pose proof rooted_added as Ha. destruct (inv_tree _ Hi) as [T1 T2 T3 T4 T5 T6].
  destruct (inv_limits _ Hi) as [_ _ L3 _ _ _].
  split; try done.
  - refine (added_forall Ha _ _ _); [done|]. intros k m _ Hk. destruct (T1 k m Hk) as [? Hp].
    split; [done|]. destruct (wn_parent_node_id m); [|done]. destruct Hp as (pn & Hpn & ?).
    exists pn. split; [by apply (added_old Ha)|done].
  - apply (added_forall Ha (λ _ m, wn_depth m ≤ g_max_depth g)); [cbn; lia|]. intros k m _. apply T2.
  - intros p c. change (children_of rooted_graph p) with (children_of g p). rewrite T3.
    split; intros (m & Hm & Hp).
    + exists m. split; [by apply (added_old Ha)|done].
    + destruct (decide (c = id)) as [->|Hne].
      * rewrite (added_eq Ha) in Hm. by simplify_eq.
      * rewrite (added_ne Ha) in Hm by done. eauto.
  - intros p (m & Hm)%T5. exists m. by apply (added_old Ha).
Qed.

Lemma rooted_pending : pending_ok rooted_graph.
Proof using Hi Hfresh Hpend.
  pose proof rooted_added as Ha. destruct (inv_pending _ Hi) as [P1 P2 P3 P4 P5].
  split; try done.
  - intros c Hc. change (is_Some (g_pending_child_budgets g !! c)) in Hc.
    rewrite (added_ne Ha); [by apply P2|]. intros ->. rewrite Hpend in Hc. by destruct Hc.
  - intros c p (m & Hm & ?)%P3. exists m. split; [by apply (added_old Ha)|done].
Qed.

Lemma rooted_claimed d k : claimed d rooted_graph k = claimed d g k.
Proof using Hi Hfresh.
  apply (held_local d g k None rooted_graph k None (λ _, True)); try done.
  intros q c _ Hc. split; [done|]. split; [|split; [|done]]; by apply (added_child_same Hi rooted_added d q c).
Qed.

(** The new root is alone in its chain. *)
Lemma rooted_in_chain_old c k m :
  g_nodes g !! k = Some m → in_chain rooted_graph c k = if decide (c = id) then false else in_chain g c k.
Proof using Hi Hfresh.
  intros Hk. unfold in_chain. rewrite (added_root Hi rooted_added k m Hk).
  destruct (decide (c = id)) as [->|]; [|done]. apply bool_decide_eq_false.
  destruct (root_of_Some g k m (inv_tree _ Hi) Hk) as (r & rn & -> & Hrn & _). congruence.
Qed.

Lemma rooted_in_chain_new c : in_chain rooted_graph c id = bool_decide (c = id).
Proof using Hfresh.
  unfold in_chain. rewrite (root_of_root rooted_graph id root_node (added_eq rooted_added) eq_refl).
  apply bool_decide_ext. split; intros E; [by injection E|by rewrite E].
Qed.

Lemma rooted_pending_in_chain c ch :
  is_Some (g_pending_child_budgets g !! ch) →
  pending_in_chain rooted_graph c ch = if decide (c = id) then false else pending_in_chain g c ch.
Proof using Hi Hfresh.
  intros Hch. unfold pending_in_chain. change (g_pending_child_parents rooted_graph)
    with (g_pending_child_parents g).
  destruct (proj1 (pend_dom _ (inv_pending _ Hi) ch) Hch) as [p Hp]. rewrite Hp.
  destruct (pend_parent _ (inv_pending _ Hi) _ _ Hp) as (pn & Hpn & _).
  by apply (rooted_in_chain_old c p pn).
Qed.

(** One summand per node or reservation: all of the old ones move over, or, for
    the new chain, none. *)
Lemma rooted_nodes_sum (x : WorkNode → Z) c :
  msum (λ k m, if in_chain rooted_graph c k then x m else 0) (g_nodes rooted_graph)
  = if decide (c = id) then x root_node else msum (λ k m, if in_chain g c k then x m else 0) (g_nodes g).
Proof using Hi Hfresh.
  rewrite (add_nodes _ _ _ _ rooted_added), msum_insert by done. rewrite rooted_in_chain_new.
  destruct (decide (c = id)) as [->|Hne].
  - rewrite bool_decide_eq_true_2, msum_0 by
      (done || (intros k m Hk; rewrite (rooted_in_chain_old _ k m) by done;
                by destruct (decide (id = id)))). lia.
  - rewrite bool_decide_eq_false_2 by done. rewrite Z.add_0_l. apply msum_ext. intros k m Hk.
    rewrite (rooted_in_chain_old _ k m) by done. by destruct (decide (c = id)).
Qed.
Lemma rooted_pending_sum d c :
  msum (pending_allocated d rooted_graph c) (g_pending_child_budgets g)
  = if decide (c = id) then 0 else msum (pending_allocated d g c) (g_pending_child_budgets g).
Proof using Hi Hfresh.
  destruct (decide (c = id)) as [Hc|Hc].
  - apply msum_0. intros ch x Hx. unfold pending_allocated.
    rewrite rooted_pending_in_chain by eauto. by rewrite decide_True.
  - apply msum_ext. intros ch x Hx. unfold pending_allocated.
    rewrite rooted_pending_in_chain by eauto. by rewrite decide_False.
Qed.

Lemma rooted_depth c :
  chain_depth rooted_graph c = if decide (c = id) then 0 else chain_depth g c.
Proof using Hi Hfresh.
  unfold chain_depth. change (g_pending_child_budgets rooted_graph) with (g_pending_child_budgets g).
  rewrite (add_nodes _ _ _ _ rooted_added), mmax_insert by done.
  assert (node_level rooted_graph c id root_node = 0) as ->
    by (unfold node_level; by destruct (in_chain _ _ _)).
  assert (∀ ch x, g_pending_child_budgets g !! ch = Some x →
    pending_level rooted_graph c ch x = if decide (c = id) then 0 else pending_level g c ch x) as Hpl.
  { intros ch x Hx. unfold pending_level. rewrite rooted_pending_in_chain by eauto.
    destruct (decide (c = id)); [done|]. destruct (pending_in_chain g c ch); [|done].
    change (g_pending_child_parents rooted_graph) with (g_pending_child_parents g).
    destruct (g_pending_child_parents g !! ch) as [p|] eqn:Ep; [|done]. cbn [mbind option_bind].
    destruct (pend_parent _ (inv_pending _ Hi) _ _ Ep) as (pn & Hpn & _).
    by rewrite (added_old rooted_added p pn), Hpn. }
  destruct (decide (c = id)) as [Hc|Hc].
  - rewrite !mmax_0; [done|..].
    + intros ch x Hx. rewrite Hpl by done. done.
    + intros k m Hk. unfold node_level. rewrite (rooted_in_chain_old _ k m) by done.
      by rewrite decide_True.
  - rewrite (mmax_ext (node_level rooted_graph c) (node_level g c)), (mmax_ext _ _ _ Hpl).
    + pose proof (mmax_nonneg (node_level g c) (g_nodes g)).
      rewrite (Z.max_r 0) by done. done.
    + intros k m Hk. unfold node_level. rewrite (rooted_in_chain_old _ k m) by done.
      by rewrite decide_False.
Qed.
Lemma rooted_chains c cb :
  g_chain_budgets rooted_graph !! c = Some cb → chain_ok rooted_graph c cb.
Proof using Hi Hfresh Hb Hunspent.
  intros Hc. cbn in Hc. pose proof rooted_added as Ha.
  assert (∀ d, chain_allocated d rooted_graph c = if decide (c = id) then alloc d b else chain_allocated d g c)
    as Hall.
  { intros d. unfold chain_allocated. change (g_pending_child_budgets rooted_graph)
      with (g_pending_child_budgets g). rewrite rooted_pending_sum.
    unfold node_allocated. rewrite (rooted_nodes_sum (λ m, alloc d (wn_budget m))).
    destruct (decide (c = id)); [cbn; lia|done]. }
  assert (∀ d, chain_consumed d rooted_graph c = if decide (c = id) then 0 else chain_consumed d g c)
    as Hcons.
  { intros d. unfold chain_consumed, node_consumed.
    rewrite (rooted_nodes_sum (λ m, used d (wn_budget m))).
    destruct (decide (c = id)); [apply Hunspent|done]. }
  pose proof (rooted_depth c) as Hdep.
  destruct (decide (c = id)) as [Hcid|Hne].
  - rewrite Hcid, lookup_insert_eq in Hc. injection Hc as <-.
    split; try (intros d; rewrite ?Hall, ?Hcons; pose proof (Hb d); destruct d; cbn in *; lia).
    + by rewrite Hcid.
    + exists root_node. rewrite Hcid, (added_eq Ha). split; [done|]. split; [done|]. by intros [].
    + by rewrite Hdep.
  - rewrite lookup_insert_ne in Hc by done.
    destruct (inv_chains _ Hi _ _ Hc) as [H1 (m & Hm & Hp & Hr) H3 H4 H5 H6 H7 H8].
    split; try done.
    + exists m. split; [by apply (added_old Ha)|done].
    + intros d. by rewrite Hall.
    + intros d. by rewrite Hcons.
    + by rewrite Hdep.
Qed.

Lemma rooted_inv :
  map_len (g_nodes g) < MAX_GRAPH_NODES → active_count g < local_concurrency_limit g →
  validate_identifier id "node_id" = Ok () → validate_identifier agent "agent_id" = Ok () →
  validate_identifier capsule "capsule_ref" = Ok () → graph_inv rooted_graph.
Proof using Hi Hfresh Hpend Hb Hunspent Hmod.
  intros Hlen Hact Hv1 Hv2 Hv3. pose proof rooted_added as Ha.
  apply (node_added_inv Hi Ha); try done.
  - apply rooted_tree.
  - apply rooted_pending.
  - by apply fresh_node_ok.
  - change (children_of rooted_graph id) with (children_of g id).
    by apply (tree_no_children (inv_tree _ Hi)).
  - intros d. apply (added_forall Ha (λ k m, claimed d rooted_graph k ≤ remaining d (wn_budget m))).
    + rewrite rooted_claimed, remaining_eq, claimed_absent by done. pose proof (Hb d). cbn. lia.
    + intros k m _ Hk. rewrite rooted_claimed. by apply (inv_claimed _ Hi).
  - apply rooted_chains.
  - intros _. cbn. rewrite lookup_insert_eq. by eexists.
  - intros c [cb Hc]. cbn. destruct (decide (id = c)) as [->|Hne].
    + rewrite lookup_insert_eq. by eexists.
    + rewrite lookup_insert_ne by done. by exists cb.
Qed.
End add_root.

(** A root the development covers: nothing spent, modest, and not under the
    name of a reservation. *)
Definition rootable (g : BoundedWorkGraph) (id : string) (b : WorkNodeBudget) : Prop :=
  unspent b ∧ (∀ d, 0 ≤ alloc d b ≤ MODEST_BUDGET) ∧ g_pending_child_budgets g !! id = None.

Lemma unspent_budget b : unspent b → (∀ d, 0 ≤ alloc d b ≤ MODEST_BUDGET) → budget_ok b.
Proof.
  intros Hu Ha d. rewrite (Hu d). specialize (Ha d).
  assert (MODEST_BUDGET ≤ u64_max) by by vm_compute. lia.
Qed.

Lemma add_root_spec `{Blake3} g id agent capsule b :
  graph_inv g → rootable g id b →
  wp (add_root id agent capsule b)
    (λ r g', graph_inv g' ∧ g_nodes g !! id = None ∧ r = root_node id agent capsule b
       ∧ g' = rooted_graph (g := g) id agent capsule b)
    (λ g', g' = g) g.
Proof.
  intros Hi (Hu & Ha & Hp). unfold add_root. wp_get. wp_reject Hlen%Z.leb_gt.
  do 3 (apply wp_bind, wp_lift; [done|]; apply ewp_check; [apply identifier_total|intros ?]).
  apply wp_bind, wp_lift; [done|]. apply ewp_check; [apply budget_total|intros _].
  wp_reject Hact%Z.leb_gt. wp_reject Hdup. wp_modify. wp_modify. wp_get.
  assert (g_nodes g !! id = None) as Hfresh
    by (unfold contains_key in Hdup; by destruct (g_nodes g !! id)).
  eapply (wp_expect _ (root_node id agent capsule b)); [by apply lookup_insert_eq|].
  split; [|done].
  apply (rooted_inv Hi id agent capsule b Hfresh Hp (unspent_budget b Hu Ha) Hu); try done. apply Ha.
Qed.
