(* ===== verification/Delegation.v ===== *)
(** * Delegating: reservations and children

    [allocate_child_budget] reserves part of a parent's remainder for a child to
    come, [insert_child] adds the child and takes over a reservation made under
    its name.  Both keep the parent's claims within its remainder because the
    check leaves out exactly that reservation, and both move the chain's record
    by the difference. *)
From S2P Require Import Prelude Wp BTree Sums Text Hashing Float64 BudgetCascade GraphModel.
From S2P Require Import ControlOps Validate GraphOps GraphLineage GraphTree Reserve Ledger GraphInv.
From S2P Require Import LocalUpdate PreserveLocal StopCascade Spend Growth.
#[local] Open Scope Z_scope.

Lemma pending_share_None d g p p' q : pending_share d g p None q = pending_share d g p' None q.
Proof. apply msum_ext. intros c b _. unfold pending_entry. by rewrite !skipped_None. Qed.

Lemma pending_share_other d g p child q :
  q ≠ p → pending_share d g p (Some child) q = pending_share d g p None q.
Proof.
  intros Hq. apply msum_ext. intros c b _. unfold pending_entry, skipped.
  by rewrite (bool_decide_eq_false_2 (q = p)).
Qed.

(** ** What the parent and the others claim *)
Section claims.
Context `{Blake3} {g g' : BoundedWorkGraph} {p child : string}.
Context (Hi : graph_inv g) (Ht' : tree_ok g').
Context (Hdep : g_max_depth g' = g_max_depth g).
Context (Hchild : ∀ q, child ∉ children_of g q).
Context (Hkids : ∀ q, q ≠ p → children_of g' q = children_of g q).
Context (Hsame : ∀ d q c, c ∈ children_of g q →
  direct d g' c = direct d g c ∧ settled_at g' c = settled_at g c).
Context (Hpend : ∀ d q, q ≠ p → pending_share d g' q None q = pending_share d g q None q).
Context (Hopen : settled_at g p = false).

Lemma other_held d p1 ex1 p2 k q :
  (ex1 = None ∨ p1 = p ∧ ex1 = Some child) → q ≠ p →
  held d g' p2 None k q = held d g p1 ex1 k q.
Proof using Hchild Hkids Hsame Hpend Hopen.
  intros Hex Hq. revert q Hq. revert k. apply (held_local d g p1 ex1 g' p2 None (λ q, q ≠ p)).
  - done.
  - intros q Hq. rewrite (pending_share_None d g' p2 q), (Hpend d q Hq).
    destruct Hex as [->|[-> ->]]; [apply pending_share_None|].
    rewrite pending_share_other by done. apply pending_share_None.
  - intros q c Hq Hc. destruct (Hsame d q c Hc) as [-> ->]. split; [|split; [done|split; [done|]]].
    + rewrite skipped_None. destruct Hex as [->|[-> ->]]; [by rewrite skipped_None|].
      unfold skipped. by rewrite (bool_decide_eq_false_2 (q = p)).
    + intros Hs ->. by rewrite Hs in Hopen.
Qed.

Lemma other_claimed d q : q ≠ p → claimed d g' q = claimed d g q.
Proof using Hdep Hchild Hkids Hsame Hpend Hopen.
  intros Hq. unfold claimed, reserve, levels. rewrite Hdep. apply other_held; [by left|done].
Qed.

(** The parent claims what the check reserved plus what is new. *)
Lemma parent_claimed d new extra :
  children_of g' p = children_of g p ++ new →
  pending_share d g' p None p = pending_share d g p (Some child) p + extra →
  claimed d g' p = reserve d g p (Some child) p
    + zsum (share d g' p None (reserve d g' p None) p <$> new) + extra.
Proof using Hi Ht' Hdep Hchild Hkids Hsame Hpend Hopen.
  intros Hnew Hextra. unfold claimed. rewrite (reserve_unfold Ht'), Hnew, fmap_app, zsum_app, Hextra.
  rewrite (reserve_unfold (inv_tree _ Hi) p (Some child) d p).
  assert (zsum (share d g' p None (reserve d g' p None) p <$> children_of g p)
    = zsum (share d g p (Some child) (reserve d g p (Some child)) p <$> children_of g p)) as ->; [|lia].
  apply zsum_ext. intros c Hc. destruct (Hsame d p c Hc) as [E1 E2]. unfold share. rewrite E1, E2.
  assert (skipped p (Some child) p c = false) as ->.
  { unfold skipped. rewrite (bool_decide_eq_false_2 (Some c = _)); [by rewrite andb_false_r|].
    intros [= ->]. by eapply Hchild. }
  rewrite skipped_None. destruct (settled_at g c); [|done]. f_equal. unfold reserve, levels.
  rewrite Hdep. apply other_held; [by right|]. intros ->.
  destruct (tree_child (inv_tree _ Hi) _ _ Hc) as (? & ? & ? & ? & ? & ?). simplify_eq. lia.
Qed.
End claims.

(** ** The chain's record *)
Definition grown_chain (prev next : dim → Z) (depth : Z) (chain : ChainBudget) : ChainBudget :=
  set_cb_depth (Z.max (cb_depth chain) depth)
    (set_cb_total_allocated_cost_micros
       (saturating_add u64_max
          (saturating_sub (cb_total_allocated_cost_micros chain) (prev Cost)) (next Cost))
       (set_cb_total_allocated_tokens
          (saturating_add u64_max
             (saturating_sub (cb_total_allocated_tokens chain) (prev Tokens)) (next Tokens)) chain)).

Lemma record_chain_eq g root cb prev next depth :
  g_chain_budgets g !! root = Some cb →
  record_chain_allocation root (prev Tokens) (next Tokens) (prev Cost) (next Cost) depth g
  = set_g_chain_budgets (alter (grown_chain prev next depth) root (g_chain_budgets g)) g.
Proof. intros Hc. unfold record_chain_allocation, ensure_chain_budget. by rewrite Hc. Qed.

Section grown.
Context `{Blake3} {g g' : BoundedWorkGraph} {root : string} {prev next : dim → Z} {depth : Z}.
Context (Hi : graph_inv g).
Context (Hcb : g_chain_budgets g' = alter (grown_chain prev next depth) root (g_chain_budgets g)).
Context (Hold : ∀ k m, g_nodes g !! k = Some m → g_nodes g' !! k = Some m).
Context (Hall : ∀ d c, is_Some (g_nodes g !! c) → chain_allocated d g' c
  = chain_allocated d g c + if decide (c = root) then next d - prev d else 0).
Context (Hcons : ∀ d c, is_Some (g_nodes g !! c) → chain_consumed d g' c = chain_consumed d g c).
Context (Hdepth : ∀ c, is_Some (g_nodes g !! c) → chain_depth g' c
  = if decide (c = root) then Z.max (chain_depth g c) depth else chain_depth g c).
Context (Hprev : ∀ d, 0 ≤ prev d ≤ chain_allocated d g root) (Hnext : ∀ d, 0 ≤ next d).
Context (Hfits : ∀ d c, chain_allocated d g' c ≤ u64_max).

Lemma grown_chains c cb : g_chain_budgets g' !! c = Some cb → chain_ok g' c cb.
Proof using All.
  intros Hc. rewrite Hcb in Hc.
  assert (∃ cb0, g_chain_budgets g !! c = Some cb0
    ∧ cb = if decide (c = root) then grown_chain prev next depth cb0 else cb0) as (cb0 & Hcb0 & ->).
  { destruct (decide (c = root)) as [->|Hne].
    - rewrite lookup_alter_eq in Hc. destruct (g_chain_budgets g !! root) as [x|]; [|done].
      exists x. split; [done|]. by injection Hc.
    - rewrite lookup_alter_ne in Hc by done. eauto. }
  destruct (inv_chains _ Hi _ _ Hcb0) as [H1 (m & Hm & Hp & Hr) H3 H4 H5 H6 H7 H8].
  pose proof (λ d, Hall d c (mk_is_Some _ _ Hm)) as Ha.
  pose proof (λ d, Hcons d c (mk_is_Some _ _ Hm)) as Hc'.
  pose proof (Hdepth c (mk_is_Some _ _ Hm)) as Hd.
  assert (∀ d, chain_allocated d g' c ≤ u64_max) as Hf by (intros d; apply Hfits).
  destruct (decide (c = root)) as [Hcr|Hne].
  - assert (∀ d, chain_total d (grown_chain prev next depth cb0) = chain_allocated d g' c) as Htot.
    { intros d. specialize (Ha d). specialize (Hf d). specialize (Hprev d). specialize (Hnext d).
      rewrite <-Hcr, <-H3 in Hprev. rewrite <-H3 in Ha.
      destruct d; cbn in *; unfold saturating_add, saturating_sub; lia. }
    split.
    + done.
    + exists m. split; [by apply Hold|]. split; [done|]. intros d. rewrite <-Hr. by destruct d.
    + done.
    + intros d. rewrite Hc', <-H4. by destruct d.
    + intros d. rewrite <-(H5 d). by destruct d.
    + rewrite Hd, <-H6. done.
    + intros d. by rewrite Htot.
    + intros d. pose proof (H8 d). by destruct d.
  - split; try done.
    + exists m. split; [by apply Hold|done].
    + intros d. rewrite Ha, H3. lia.
    + intros d. by rewrite Hc'.
    + by rewrite Hd.
Qed.
End grown.

(** ** [allocate_child_budget] *)

(** A reservation the checks let through. *)
Record reservable (g : BoundedWorkGraph) (parent child : string) (b : WorkNodeBudget) (depth : Z)
    (pn : WorkNode) : Prop := {
  rsv_parent : g_nodes g !! parent = Some pn;
  rsv_active : wn_status pn = Active;
  rsv_below : wn_depth pn < g_max_depth g;
  rsv_depth : depth = wn_depth pn + 1;
  rsv_child : g_nodes g !! child = None;
  rsv_fresh : g_pending_child_budgets g !! child = None;
  rsv_id : validate_identifier child "child_node_id" = Ok ();
  rsv_unspent : unspent b;
  rsv_nonneg d : 0 ≤ alloc d b;
  rsv_tokens : 1 ≤ alloc Tokens b;
  rsv_fits d : reserve d g parent (Some child) parent + alloc d b ≤ remaining d (wn_budget pn);
}.

Lemma saturating_left a u r b :
  saturating_sub (saturating_sub a u) r <? b = false → 0 ≤ u → r ≤ saturating_sub a u →
  r + b ≤ saturating_sub a u.
Proof. rewrite Z.ltb_ge. unfold saturating_sub. lia. Qed.

Section allocate.
Context `{Blake3} {g : BoundedWorkGraph} (Hi : graph_inv g).

Lemma node_depth_bounds id n : g_nodes g !! id = Some n → 0 ≤ wn_depth n ≤ MAX_DEPTH.
Proof using Hi.
  intros Hn. pose proof (tree_depth_nonneg (inv_tree _ Hi) _ _ Hn).
  pose proof (tree_depth _ (inv_tree _ Hi) _ _ Hn). pose proof (lim_depth _ (inv_limits _ Hi)). lia.
Qed.

Lemma next_depth id n : g_nodes g !! id = Some n → wrapping_add u16_max (wn_depth n) 1 = wn_depth n + 1.
Proof using Hi.
  intros Hn. pose proof (node_depth_bounds id n Hn). unfold wrapping_add, u16_max, MAX_DEPTH in *.
  apply Z.mod_small. lia.
Qed.

Lemma reserved_remaining p pn ex d :
  g_nodes g !! p = Some pn → 0 ≤ reserve d g p ex p ≤ remaining d (wn_budget pn).
Proof using Hi.
  intros Hn. destruct (inv_reserved_exclude g p ex Hi) as [_ Hle]. specialize (Hle d).
  pose proof (inv_claimed _ Hi d p pn Hn). lia.
Qed.

Lemma allocate_checks_spec parent child fraction :
  ewp (allocate_child_budget_checks g parent child fraction)
    (λ r, ∃ pn, reservable g parent child r.1 r.2 pn).
Proof using Hi.
  unfold allocate_child_budget_checks.
  apply ewp_bind, ewp_check; [apply identifier_total|intros _].
  apply ewp_bind, ewp_check; [apply identifier_total|intros Hid].
  apply ewp_bind, ewp_reject. intros [Hn Hp]%orb_false_iff.
  apply ewp_bind, ewp_ok_or. intros pn Hpn. apply ewp_bind, ewp_reject.
  intros Hst%bool_decide_eq_false. apply dec_stable in Hst.
  apply ewp_bind, ewp_reject. intros Hd%Z.leb_gt.
  destruct (inv_reserved_exclude g parent (Some child) Hi) as [-> Hle]. rewrite exec_bind_ret.
  pose proof (reserved_remaining parent pn (Some child) Tokens Hpn) as HT.
  pose proof (reserved_remaining parent pn (Some child) Cost Hpn) as HC.
  cbn [remaining] in HT, HC. unfold tokens_remaining in HT.
  apply ewp_bind, ewp_reject. intros Hpos%Z.eqb_neq.
  destruct (tree_path (inv_tree _ Hi) parent pn Hpn) as (l & Hl & _).
  rewrite (node_lineage_path g parent l) by done. rewrite exec_bind_ret.
  set (b := cascade_budget _). set (c := {| allocated_tokens := _ |}).
  apply ewp_bind. destruct (validate_cascade c) as [u|e| |] eqn:Hv; try exact I.
  2,3: by destruct (validate_cascade_total c).
  apply ewp_ok, ewp_bind, ewp_reject. intros Hall%Z.ltb_ge. apply ewp_ok. exists pn.
  cbn [fst snd].
  assert (0 < allocated_tokens b) as Hb0.
  { apply validate_cascade_nonzero in Hv. change (allocated_tokens b ≠ 0) in Hv.
    assert (0 ≤ allocated_tokens b); [|lia]. apply cascade_allocated_nonneg; cbn [minimum_budget
      maximum_budget]; unfold saturating_sub; lia. }
  set (cr := saturating_sub (cost_remaining (wn_budget pn)) (reserve Cost g parent (Some child) parent)).
  set (cost := if cr =? 0 then 0 else _).
  assert (0 ≤ cost ≤ cr) as Hcost.
  { assert (0 ≤ cr) by (unfold cr, saturating_sub; lia). subst cost.
    destruct (Z.eqb_spec cr 0); [lia|].
    pose proof (f64_to_uint_range u64_max (f64_mul (f64_of_uint cr) fraction)) as Hf.
    unfold in_range, u64_max in Hf. lia. }
  split; try done.
  - by apply (next_depth parent).
  - unfold contains_key in Hn. by destruct (g_nodes g !! child).
  - unfold contains_key in Hp. by destruct (g_pending_child_budgets g !! child).
  - by intros [].
  - intros []; cbn [alloc tokens_allocated cost_micros_allocated]; [|lia].
    change (allocated_tokens c) with (allocated_tokens b). lia.
  - cbn [alloc tokens_allocated]. change (allocated_tokens c) with (allocated_tokens b). lia.
  - intros []; cbn [alloc tokens_allocated cost_micros_allocated remaining].
    + unfold tokens_remaining, saturating_sub in *. lia.
    + unfold cr, saturating_sub in Hcost. lia.
Qed.
End allocate.

(** *** The graph after a reservation *)
Section reserved.
Context `{Blake3} {g : BoundedWorkGraph} (Hi : graph_inv g).
Context {parent child : string} {b : WorkNodeBudget} {depth : Z} {pn : WorkNode}.
Context (Hr : reservable g parent child b depth pn).
Context {root : string} (Hroot : root_of g parent = Some root).

Definition reserved_graph : BoundedWorkGraph :=
  let g := set_g_pending_child_budgets (<[child := b]> (g_pending_child_budgets g)) g in
  let g := set_g_pending_child_parents (<[child := parent]> (g_pending_child_parents g)) g in
  set_g_chain_budgets
    (alter (grown_chain (λ _, 0) (λ d, alloc d b) depth) root (g_chain_budgets g)) g.

Lemma reserved_budget_ok : budget_ok b.
Proof using Hi Hr.
  intros d. rewrite (rsv_unspent _ _ _ _ _ _ Hr d). pose proof (rsv_nonneg _ _ _ _ _ _ Hr d).
  pose proof (rsv_fits _ _ _ _ _ _ Hr d). pose proof (rsv_parent _ _ _ _ _ _ Hr) as Hpn.
  pose proof (reserved_remaining Hi parent pn (Some child) d Hpn).
  pose proof (node_budget _ _ _ (inv_nodes _ Hi _ _ Hpn)) as Hb.
  rewrite remaining_eq in * by done. specialize (Hb d). lia.
Qed.

Lemma reserved_no_parent : g_pending_child_parents g !! child = None.
Proof using Hi Hr.
  apply eq_None_not_Some. rewrite <-(pend_dom _ (inv_pending _ Hi)).
  rewrite (rsv_fresh _ _ _ _ _ _ Hr). by intros [].
Qed.

Lemma reserved_tree : tree_ok reserved_graph.
Proof using Hi. destruct (inv_tree _ Hi). by split. Qed.

Lemma reserved_pending : pending_ok reserved_graph.
Proof using Hi Hr.
  destruct (inv_pending _ Hi) as [P1 P2 P3 P4 P5]. pose proof Hr as []. split; cbn.
  - intros c. rewrite !lookup_insert_is_Some, P1. done.
  - intros c [<-|[_ Hc]]%lookup_insert_is_Some; [done|by apply P2].
  - intros c p [[<- <-]|[_ Hc]]%lookup_insert_Some; [eauto|by apply (P3 c)].
  - intros c x [[<- <-]|[_ Hc]]%lookup_insert_Some; [apply reserved_budget_ok|by apply (P4 c)].
  - intros c [<-|[_ Hc]]%lookup_insert_is_Some; [by eapply identifier_field|by apply P5].
Qed.

Lemma reserved_child_absent q : child ∉ children_of g q.
Proof using Hi Hr.
  intros (m & _ & Hm & _)%(tree_child (inv_tree _ Hi)). by rewrite (rsv_child _ _ _ _ _ _ Hr) in Hm.
Qed.

(** The reservations of each node. *)
Lemma reserved_share d q :
  pending_share d reserved_graph q None q
  = pending_share d g q (if decide (q = parent) then Some child else None) q
    + if decide (q = parent) then alloc d b else 0.
Proof using Hi Hr.
  unfold pending_share. change (g_pending_child_budgets reserved_graph)
    with (<[child := b]> (g_pending_child_budgets g)).
  rewrite msum_insert by apply Hr. rewrite Z.add_comm. f_equal.
  - apply msum_ext. intros c x Hc. unfold pending_entry. rewrite skipped_None.
    assert (c ≠ child) as Hne by (intros ->; by rewrite (rsv_fresh _ _ _ _ _ _ Hr) in Hc).
    change (g_pending_child_parents reserved_graph)
      with (<[child := parent]> (g_pending_child_parents g)).
    rewrite lookup_insert_ne by done.
    assert (skipped q (if decide (q = parent) then Some child else None) q c = false) as ->; [|done].
    unfold skipped. rewrite (bool_decide_eq_false_2 (Some c = _)); [by rewrite andb_false_r|].
    destruct (decide (q = parent)); congruence.
  - unfold pending_entry. rewrite skipped_None. cbn. rewrite lookup_insert_eq.
    destruct (decide (q = parent)) as [->|Hne]; [by rewrite bool_decide_eq_false_2 by auto|].
    rewrite bool_decide_eq_true_2; [done|congruence].
Qed.

Lemma active_open id n : g_nodes g !! id = Some n → wn_status n = Active → settled_at g id = false.
Proof using.
  intros Hn Hst. unfold settled_at, settled. rewrite Hn, Hst. done.
Qed.

Lemma reserved_claimed d q n :
  g_nodes g !! q = Some n → claimed d reserved_graph q ≤ remaining d (wn_budget n).
Proof using Hi Hr.
  intros Hn. assert (settled_at g parent = false) as Hopen
    by (eapply active_open; apply Hr).
  assert (∀ d q, q ≠ parent → pending_share d reserved_graph q None q = pending_share d g q None q)
    as Hps by (intros d' q' Hq; rewrite reserved_share, !decide_False by done; lia).
  destruct (decide (q = parent)) as [->|Hne].
  - rewrite (parent_claimed (g := g) (g' := reserved_graph) (child := child) Hi reserved_tree eq_refl
      reserved_child_absent (λ _ _, eq_refl) (λ _ _ _ _, conj eq_refl eq_refl) Hps Hopen
      d [] (alloc d b)).
    + change (zsum (_ <$> [])) with 0. pose proof (rsv_fits _ _ _ _ _ _ Hr d) as Hf.
      rewrite (rsv_parent _ _ _ _ _ _ Hr) in Hn. simplify_eq. lia.
    + by rewrite app_nil_r.
    + by rewrite reserved_share, !decide_True by done.
  - rewrite (other_claimed (g := g) (g' := reserved_graph) (p := parent) (child := child) eq_refl
      reserved_child_absent (λ _ _, eq_refl) (λ _ _ _ _, conj eq_refl eq_refl) Hps Hopen) by done.
    by apply (inv_claimed _ Hi).
Qed.
Lemma reserved_in_chain c : in_chain g c parent = bool_decide (c = root).
Proof using Hroot.
  unfold in_chain. rewrite Hroot. apply bool_decide_ext. split; [by intros [= ->]|by intros ->].
Qed.

Lemma reserved_pending_in_chain c ch x :
  g_pending_child_budgets g !! ch = Some x →
  pending_in_chain reserved_graph c ch = pending_in_chain g c ch.
Proof using Hr.
  intros Hch. unfold pending_in_chain. cbn [reserved_graph g_pending_child_parents].
  cbn. rewrite lookup_insert_ne; [done|]. intros <-. by rewrite (rsv_fresh _ _ _ _ _ _ Hr) in Hch.
Qed.

Lemma reserved_new_in_chain c : pending_in_chain reserved_graph c child = bool_decide (c = root).
Proof using Hroot.
  unfold pending_in_chain. cbn. rewrite lookup_insert_eq. apply reserved_in_chain.
Qed.

Lemma reserved_allocated d c :
  chain_allocated d reserved_graph c
  = chain_allocated d g c + if decide (c = root) then alloc d b - 0 else 0.
Proof using Hi Hr Hroot.
  unfold chain_allocated. change (g_pending_child_budgets reserved_graph)
    with (<[child := b]> (g_pending_child_budgets g)).
  rewrite msum_insert by apply Hr.
  rewrite (msum_ext (pending_allocated d reserved_graph c) (pending_allocated d g c)) by
    (intros ch x Hx; unfold pending_allocated; by rewrite (reserved_pending_in_chain c ch x)).
  change (msum (node_allocated d reserved_graph c) (g_nodes reserved_graph))
    with (msum (node_allocated d g c) (g_nodes g)).
  unfold pending_allocated at 1. rewrite reserved_new_in_chain.
  destruct (decide (c = root)).
  - rewrite bool_decide_eq_true_2 by done. lia.
  - rewrite bool_decide_eq_false_2 by done. lia.
Qed.

Lemma reserved_chain_depth c :
  chain_depth reserved_graph c
  = if decide (c = root) then Z.max (chain_depth g c) depth else chain_depth g c.
Proof using Hi Hr Hroot.
  unfold chain_depth. change (g_pending_child_budgets reserved_graph)
    with (<[child := b]> (g_pending_child_budgets g)).
  rewrite mmax_insert by apply Hr.
  rewrite (mmax_ext (pending_level reserved_graph c) (pending_level g c)).
  2: { intros ch x Hx. unfold pending_level. rewrite (reserved_pending_in_chain c ch x) by done.
       cbn. rewrite lookup_insert_ne; [done|]. intros <-. by rewrite (rsv_fresh _ _ _ _ _ _ Hr) in Hx. }
  change (mmax (node_level reserved_graph c) (g_nodes reserved_graph))
    with (mmax (node_level g c) (g_nodes g)).
  pose proof (mmax_nonneg (node_level g c) (g_nodes g)).
  unfold pending_level at 1. rewrite reserved_new_in_chain. cbn. rewrite lookup_insert_eq.
  cbn [mbind option_bind]. rewrite (rsv_parent _ _ _ _ _ _ Hr), (rsv_depth _ _ _ _ _ _ Hr).
  destruct (decide (c = root)).
  - rewrite bool_decide_eq_true_2 by done. lia.
  - rewrite bool_decide_eq_false_2 by done. lia.
Qed.

Lemma reserved_fits d c : chain_allocated d reserved_graph c ≤ u64_max.
Proof using Hi Hr.
  apply chain_allocated_fits.
  - apply reserved_tree.
  - apply reserved_pending.
  - split; [apply (inv_budgets _ Hi)|]. apply (pend_budget _ reserved_pending).
  - apply (inv_limits _ Hi).
  - apply reserved_claimed.
  - apply (inv_modest _ Hi).
Qed.

Lemma reserved_inv : graph_inv reserved_graph.
Proof using Hi Hr Hroot.
  pose proof Hi as [[L1 L2 L3 L4 L5 L6] It Ip I4 I5 I6 I7 I8 I9 [A1 A2] I11 I12 I13 I14 I15 I16].
  split; try done.
  - apply reserved_tree.
  - apply reserved_pending.
  - intros id n Hn. destruct (I4 id n Hn). by split.
  - apply reserved_claimed.
  - intros k r Hk. destruct (I8 k r Hk). by split.
  - intros c cb. eapply (grown_chains (g := g) (root := root) (prev := λ _, 0)
      (next := λ d, alloc d b) (depth := depth) Hi); try done.
    + intros d c' _. apply reserved_allocated.
    + intros c' _. apply reserved_chain_depth.
    + intros d. split; [done|]. unfold chain_allocated. apply Z.add_nonneg_nonneg.
      * apply msum_nonneg. intros k m Hk. unfold node_allocated.
        pose proof (bud_nodes _ (inv_budgets _ Hi) _ _ Hk d). destruct (in_chain _ _ _); lia.
      * apply msum_nonneg. intros k m Hk. unfold pending_allocated.
        pose proof (bud_pending _ (inv_budgets _ Hi) _ _ Hk d). destruct (pending_in_chain _ _ _); lia.
    + apply Hr.
    + apply reserved_fits.
  - intros id n Hn Hp. cbn. destruct (I13 id n Hn Hp) as [cb Hcb].
    destruct (decide (root = id)) as [E|Hne].
    + rewrite E, lookup_alter_eq, Hcb. by eexists.
    + rewrite lookup_alter_ne by done. by exists cb.
Qed.
End reserved.

Lemma allocate_spec `{Blake3} g parent child fraction :
  graph_inv g →
  wp (allocate_child_budget parent child fraction)
    (λ b g', graph_inv g' ∧ ∃ depth pn root, reservable g parent child b depth pn
       ∧ root_of g parent = Some root
       ∧ g' = reserved_graph (g := g) (parent := parent) (child := child) (b := b) (depth := depth)
                (root := root))
    (λ g', g' = g) g.
Proof.
  intros Hi. unfold allocate_child_budget. wp_get. apply wp_bind, wp_lift; [done|].
  eapply ewp_mono; [|by apply allocate_checks_spec]. intros [b depth] (pn & Hr). cbn [fst snd] in Hr.
  destruct (node_chain g parent pn Hi (rsv_parent _ _ _ _ _ _ Hr)) as (root & cb & Hid & Hroot & Hcb & _).
  apply wp_bind, wp_lift; [done|]. rewrite Hid. apply ewp_ok.
  apply wp_bind. eapply wp_expect; [done|]. do 3 wp_modify. apply wp_ret.
  rewrite (record_chain_eq _ root cb (λ _, 0) (λ d, alloc d b)) by done.
  split; [|by exists depth, pn, root]. by apply (reserved_inv Hi Hr).
Qed.
