(* ===== verification/Insertion.v ===== *)
(** * Adding a child

    [insert_child], behind [delegate] and [queue_child]. *)
From S2P Require Import Prelude Wp BTree Sums Text Hashing Float64 BudgetCascade GraphModel.
From S2P Require Import ControlOps Validate GraphOps GraphLineage GraphTree Reserve Ledger GraphInv.
From S2P Require Import LocalUpdate PreserveLocal StopCascade Spend Growth Delegation.
#[local] Open Scope Z_scope.

(** A child the checks let through. *)
Record insertable (g : BoundedWorkGraph) (parent child agent capsule : string) (b : WorkNodeBudget)
    (status : NodeStatus) (depth : Z) (pn : WorkNode) : Prop := {
  ins_parent : g_nodes g !! parent = Some pn;
  ins_active : wn_status pn = Active;
  ins_depth : depth = wn_depth pn + 1;
  ins_below : depth ≤ g_max_depth g;
  ins_child : g_nodes g !! child = None;
  ins_pending : (g_pending_child_budgets g !! child = None ∧ g_pending_child_parents g !! child = None)
    ∨ (is_Some (g_pending_child_budgets g !! child) ∧ g_pending_child_parents g !! child = Some parent);
  ins_child_id : validate_identifier child "node_id" = Ok ();
  ins_agent_id : validate_identifier agent "agent_id" = Ok ();
  ins_capsule_id : validate_identifier capsule "capsule_ref" = Ok ();
  ins_budget : budget_ok b;
  ins_fits d : reserve d g parent (Some child) parent + alloc d b ≤ remaining d (wn_budget pn);
  ins_len : map_len (g_nodes g) < MAX_GRAPH_NODES;
  ins_fan : vec_len (children_of g parent) < g_max_fan_out g;
  ins_slots : status = Active → active_count g < local_concurrency_limit g;
}.

Lemma insert_checks_spec `{Blake3} g parent child agent capsule b status :
  graph_inv g → u64_budget b →
  ewp (insert_child_checks g parent child agent capsule b status)
    (λ depth, ∃ pn, insertable g parent child agent capsule b status depth pn).
Proof.
  intros Hi Hu. unfold insert_child_checks.
  apply ewp_bind, ewp_reject. intros Hlen%Z.leb_gt.
  apply ewp_bind, ewp_check; [apply identifier_total|intros _].
  do 3 (apply ewp_bind, ewp_check; [apply identifier_total|intros ?]).
  apply ewp_bind, ewp_check; [apply budget_total|intros Hb%validated_budget]; [|done].
  apply ewp_bind, ewp_reject. intros Hn. apply ewp_bind, ewp_reject. intros Hp%negb_false_iff.
  destruct (inv_reserved_exclude g parent (Some child) Hi) as [-> _]. rewrite exec_bind_ret.
  apply ewp_bind, ewp_ok_or. intros pn Hpn. apply ewp_bind, ewp_reject.
  intros Hst%bool_decide_eq_false. apply dec_stable in Hst.
  rewrite (next_depth Hi parent pn Hpn).
  pose proof (λ d, reserved_remaining Hi parent pn (Some child) d Hpn) as Hrem.
  do 3 (apply ewp_bind, ewp_reject; intros ?%Z.ltb_ge).
  apply ewp_bind, ewp_reject. intros Hfan%Z.leb_gt. apply ewp_bind, ewp_reject. intros Hslots.
  apply ewp_ok. exists pn.
  pose proof (Hrem Tokens) as HT. pose proof (Hrem Cost) as HC. cbn [remaining] in HT, HC.
  unfold saturating_sub in *. split; try done.
  - unfold contains_key in Hn. by destruct (g_nodes g !! child).
  - unfold pending_reservation_matches in Hp.
    destruct (g_pending_child_budgets g !! child), (g_pending_child_parents g !! child); try done.
    + apply bool_decide_eq_true in Hp as ->. right. eauto.
    + by left.
  - by eapply identifier_field.
  - by eapply identifier_field.
  - intros []; cbn [alloc remaining]; lia.
  - intros ->. by apply Z.leb_gt.
Qed.

Lemma insert_checks_ok `{Blake3} g parent child agent capsule b status depth pn :
  graph_inv g → insertable g parent child agent capsule b status depth pn →
  insert_child_checks g parent child agent capsule b status = Ok depth.
Proof.
  intros Hi [I1 I2 I3 I4 I5 I6 I7 I8 I9 I10 I11 I12 I13 I14]. unfold insert_child_checks.
  rewrite reject_if_false by by apply Z.leb_gt.
  rewrite (identifier_field parent "node_id"), exec_bind_ret
    by apply (node_id_ok _ _ _ (inv_nodes _ Hi _ _ I1)).
  rewrite (identifier_field child "node_id"), exec_bind_ret by done.
  rewrite (identifier_field agent "agent_id"), exec_bind_ret by done.
  rewrite I9, exec_bind_ret, (validate_budget_ok b I10), exec_bind_ret.
  rewrite reject_if_false by (unfold contains_key; by rewrite I5).
  rewrite reject_if_false.
  2: { apply negb_false_iff. unfold pending_reservation_matches.
       destruct I6 as [[-> ->]|[[x ->] ->]]; [done|]. by apply bool_decide_eq_true. }
  destruct (inv_reserved_exclude g parent (Some child) Hi) as [-> _]. rewrite exec_bind_ret, I1.
  cbn [ok_or]. rewrite exec_bind_ret.
  rewrite reject_if_false by (rewrite I2; apply bool_decide_eq_false_2; tauto).
  rewrite (next_depth Hi parent pn I1), <-I3.
  pose proof (λ d, reserved_remaining Hi parent pn (Some child) d I1) as Hrem.
  pose proof (Hrem Tokens) as HT. pose proof (Hrem Cost) as HC.
  pose proof (I11 Tokens) as FT. pose proof (I11 Cost) as FC. cbn [remaining alloc] in *.
  do 3 rewrite reject_if_false by (apply Z.ltb_ge; unfold saturating_sub; lia).
  rewrite reject_if_false by by apply Z.leb_gt.
  rewrite reject_if_false; [done|]. destruct (bool_decide (status = Active)) eqn:E; [|done].
  apply bool_decide_eq_true in E. apply Z.leb_gt. by apply I14.
Qed.

Section inserted.
Context `{Blake3} {g : BoundedWorkGraph} (Hi : graph_inv g).
Context {parent child agent capsule : string} {b : WorkNodeBudget} {status : NodeStatus}.
Context {depth : Z} {pn : WorkNode}.
Context (Hins : insertable g parent child agent capsule b status depth pn) (Hunspent : unspent b).
Context {root : string} (Hroot : root_of g parent = Some root).

Definition child_node : WorkNode :=
  fresh_node child agent (Some parent) capsule status b depth.

(** What a reservation under the child's name had taken. *)
Definition reserved_before (d : dim) : Z :=
  alloc d (default zero_budget (g_pending_child_budgets g !! child)).

Definition inserted_graph : BoundedWorkGraph :=
  let g := set_g_nodes (<[child := child_node]> (g_nodes g)) g in
  let g := set_g_children (<[parent := children_of g parent ++ [child]]> (g_children g)) g in
  let g := set_g_pending_child_budgets (delete child (g_pending_child_budgets g)) g in
  let g := set_g_pending_child_parents (delete child (g_pending_child_parents g)) g in
  set_g_chain_budgets
    (alter (grown_chain reserved_before (λ d, alloc d b) depth) root (g_chain_budgets g)) g.

Lemma inserted_added : node_added g inserted_graph child child_node.
Proof. pose proof (ins_child _ _ _ _ _ _ _ _ _ Hins). by split. Qed.

Lemma inserted_children q :
  children_of inserted_graph q = children_of g q ++ if decide (q = parent) then [child] else [].
Proof.
  unfold children_of. cbn. destruct (decide (q = parent)) as [->|Hne].
  - by rewrite lookup_insert_eq.
  - rewrite lookup_insert_ne by done. by rewrite app_nil_r.
Qed.

Lemma inserted_child_absent q : child ∉ children_of g q.
Proof.
  intros (m & _ & Hm & _)%(tree_child (inv_tree _ Hi)).
  by rewrite (ins_child _ _ _ _ _ _ _ _ _ Hins) in Hm.
Qed.

Lemma inserted_tree : tree_ok inserted_graph.
Proof.
  pose proof inserted_added as Ha. pose proof Hins as [Hpn _ Hd Hdm Hc _ _ _ _ _ _ _ Hfan _].
  destruct (inv_tree _ Hi) as [T1 T2 T3 T4 T5 T6]. split.
  - refine (added_forall Ha _ _ _).
    + cbn. destruct (T1 _ _ Hpn) as [? _]. split; [lia|]. exists pn.
      split; [by apply (added_old Ha)|done].
    + intros k m _ Hk. destruct (T1 k m Hk) as [? Hp]. split; [done|].
      destruct (wn_parent_node_id m); [|done]. destruct Hp as (pm & Hpm & ?).
      exists pm. split; [by apply (added_old Ha)|done].
  - apply (added_forall Ha (λ _ m, wn_depth m ≤ g_max_depth g)); [done|]. intros k m _. apply T2.
  - intros q c. rewrite inserted_children, elem_of_app, T3. split.
    + intros [(m & Hm & Hp)|Hin].
      * exists m. split; [by apply (added_old Ha)|done].
      * destruct (decide (q = parent)) as [->|]; [|set_solver].
        apply list_elem_of_singleton in Hin as ->. exists child_node. by rewrite (added_eq Ha).
    + intros (m & Hm & Hp). destruct (decide (c = child)) as [->|Hne].
      * rewrite (added_eq Ha) in Hm. injection Hm as <-. injection Hp as <-. right.
        rewrite decide_True by done. left.
      * rewrite (added_ne Ha) in Hm by done. left. eauto.
  - intros q. rewrite inserted_children. destruct (decide (q = parent)) as [->|]; [|by rewrite app_nil_r].
    apply NoDup_app. split; [done|]. split; [|apply NoDup_singleton].
    intros x Hx ->%list_elem_of_singleton. by apply inserted_child_absent in Hx.
  - intros q Hq. cbn in Hq. apply lookup_insert_is_Some in Hq as [<-|[_ [m Hm]%T5]].
    + exists pn. by apply (added_old Ha).
    + exists m. by apply (added_old Ha).
  - intros q. rewrite inserted_children. change (g_max_fan_out inserted_graph) with (g_max_fan_out g).
    destruct (decide (q = parent)) as [->|]; [|rewrite app_nil_r; apply T6].
    unfold vec_len in *. rewrite length_app. cbn [length]. lia.
Qed.
(** Whatever reservation stood under the child's name is gone. *)
Lemma inserted_entry d q ch x :
  g_pending_child_budgets g !! ch = Some x → ch ≠ child →
  pending_entry d inserted_graph q None q ch x
  = pending_entry d g q (if decide (q = parent) then Some child else None) q ch x.
Proof.
  intros Hch Hne. unfold pending_entry. rewrite skipped_None. cbn.
  rewrite lookup_delete_ne by done.
  assert (skipped q (if decide (q = parent) then Some child else None) q ch = false) as ->; [|done].
  unfold skipped. rewrite (bool_decide_eq_false_2 (Some ch = _)); [by rewrite andb_false_r|].
  destruct (decide (q = parent)); congruence.
Qed.

Lemma inserted_share d q :
  pending_share d inserted_graph q None q
  = pending_share d g q (if decide (q = parent) then Some child else None) q.
Proof.
  unfold pending_share. change (g_pending_child_budgets inserted_graph)
    with (delete child (g_pending_child_budgets g)).
  rewrite (msum_ext _ (pending_entry d g q (if decide (q = parent) then Some child else None) q))
    by (intros ch x [Hne Hx]%lookup_delete_Some; by apply inserted_entry).
  destruct (g_pending_child_budgets g !! child) as [x|] eqn:Hx.
  - rewrite (msum_delete _ (g_pending_child_budgets g) child x) by done.
    assert (pending_entry d g q (if decide (q = parent) then Some child else None) q child x = 0)
      as ->; [|lia].
    destruct (ins_pending _ _ _ _ _ _ _ _ _ Hins) as [[? _]|[_ Hp]]; [congruence|].
    unfold pending_entry. rewrite Hp. destruct (decide (q = parent)) as [E|Hne].
    + unfold skipped. by rewrite (bool_decide_eq_true_2 (q = q)), (bool_decide_eq_true_2 (Some child = _)).
    + rewrite (bool_decide_eq_true_2 (Some parent ≠ Some q)) by congruence. by rewrite orb_true_r.
  - by rewrite delete_id.
Qed.

Lemma inserted_claimed d q n :
  g_nodes inserted_graph !! q = Some n → claimed d inserted_graph q ≤ remaining d (wn_budget n).
Proof.
  pose proof inserted_added as Ha.
  assert (settled_at g parent = false) as Hopen by (eapply active_open; apply Hins).
  assert (∀ q, q ≠ parent → children_of inserted_graph q = children_of g q) as Hkids
    by (intros q' Hq; rewrite inserted_children, decide_False by done; apply app_nil_r).
  assert (∀ d q, q ≠ parent → pending_share d inserted_graph q None q = pending_share d g q None q)
    as Hps by (intros d' q' Hq; by rewrite inserted_share, decide_False).
  assert (∀ k, k ≠ parent → claimed d inserted_graph k = claimed d g k) as Hother.
  { intros k Hk. apply (other_claimed (p := parent) (child := child)); try done.
    - apply inserted_child_absent.
    - intros d' q' c. apply (added_child_same Hi Ha). }
  apply (added_forall Ha (λ k m, claimed d inserted_graph k ≤ remaining d (wn_budget m))).
  - rewrite Hother.
    + rewrite claimed_absent by (done || apply Hins). cbn. rewrite remaining_eq by apply Hins.
      pose proof (ins_budget _ _ _ _ _ _ _ _ _ Hins d). lia.
    + intros E. pose proof (ins_child _ _ _ _ _ _ _ _ _ Hins).
      pose proof (ins_parent _ _ _ _ _ _ _ _ _ Hins). congruence.
  - intros k m Hne Hk. destruct (decide (k = parent)) as [->|Hkp].
    + rewrite (parent_claimed (g := g) (child := child) Hi inserted_tree eq_refl
        inserted_child_absent Hkids (λ d' q' c, added_child_same Hi Ha d' q' c) Hps Hopen d [child] 0).
      * pose proof (ins_fits _ _ _ _ _ _ _ _ _ Hins d) as Hf.
        rewrite (ins_parent _ _ _ _ _ _ _ _ _ Hins) in Hk. simplify_eq.
        unfold fmap, list_fmap, zsum. cbn [foldr]. unfold share, direct, settled_at.
        rewrite skipped_None, (added_eq Ha), settled_no_receipt; [cbn [child_node fresh_node wn_budget]; lia|].
        apply (added_fresh_receipt Hi Ha).
      * by rewrite inserted_children, decide_True.
      * by rewrite inserted_share, decide_True, Z.add_0_r.
    + rewrite Hother by done. by apply (inv_claimed _ Hi).
Qed.

Lemma inserted_pending : pending_ok inserted_graph.
Proof.
  pose proof inserted_added as Ha. destruct (inv_pending _ Hi) as [P1 P2 P3 P4 P5]. split; cbn.
  - intros c. by rewrite !lookup_delete_is_Some, P1.
  - intros c [Hne Hc]%lookup_delete_is_Some.
    rewrite lookup_insert_ne by done. by apply P2.
  - intros c q [Hne (m & Hm & ?)%P3]%lookup_delete_Some. exists m.
    split; [by apply (added_old Ha)|done].
  - intros c x [Hne Hc]%lookup_delete_Some. by apply (P4 c).
  - intros c [Hne Hc]%lookup_delete_is_Some. by apply P5.
Qed.
Lemma inserted_modest d k m :
  g_nodes inserted_graph !! k = Some m → alloc d (wn_budget m) ≤ MODEST_BUDGET.
Proof.
  revert k m. apply (added_forall inserted_added (λ _ m, alloc d (wn_budget m) ≤ MODEST_BUDGET)).
  - cbn. pose proof (ins_fits _ _ _ _ _ _ _ _ _ Hins d).
    pose proof (ins_parent _ _ _ _ _ _ _ _ _ Hins) as Hpn.
    pose proof (reserved_remaining Hi parent pn (Some child) d Hpn).
    pose proof (node_budget _ _ _ (inv_nodes _ Hi _ _ Hpn)) as Hb.
    rewrite remaining_eq in * by done. specialize (Hb d). pose proof (inv_modest _ Hi d _ _ Hpn). lia.
  - intros k m _. apply (inv_modest _ Hi).
Qed.

(** *** The chain's record *)
Lemma inserted_path l : path_up (g_nodes g) parent l → path_up (g_nodes inserted_graph) child (child :: l).
Proof.
  intros Hl. eapply (path_step _ child child_node); [apply (added_eq inserted_added)|done|].
  by apply (added_path inserted_added).
Qed.

Lemma inserted_root : root_of inserted_graph child = Some root.
Proof.
  destruct (tree_path (inv_tree _ Hi) parent pn (ins_parent _ _ _ _ _ _ _ _ _ Hins)) as (l & Hl & _).
  rewrite (root_of_path _ child (child :: l)) by by apply inserted_path.
  rewrite <-Hroot, (root_of_path g parent l) by done. by eapply path_up_last_cons.
Qed.

Lemma inserted_in_chain_old c k m :
  g_nodes g !! k = Some m → in_chain inserted_graph c k = in_chain g c k.
Proof. intros Hk. unfold in_chain. by rewrite (added_root Hi inserted_added k m). Qed.

Lemma inserted_in_chain_new c : in_chain inserted_graph c child = bool_decide (c = root).
Proof.
  unfold in_chain. rewrite inserted_root. apply bool_decide_ext.
  split; intros E; [by injection E|by rewrite E].
Qed.

(** A sum over the chain's nodes gains the new one. *)
Lemma inserted_nodes_sum (x : WorkNode → Z) c :
  msum (λ k m, if in_chain inserted_graph c k then x m else 0) (g_nodes inserted_graph)
  = (if decide (c = root) then x child_node else 0)
    + msum (λ k m, if in_chain g c k then x m else 0) (g_nodes g).
Proof.
  rewrite (add_nodes _ _ _ _ inserted_added), msum_insert by apply Hins.
  rewrite inserted_in_chain_new. f_equal.
  - destruct (decide (c = root)); [by rewrite bool_decide_eq_true_2|by rewrite bool_decide_eq_false_2].
  - apply msum_ext. intros k m Hk. by rewrite (inserted_in_chain_old c k m).
Qed.

Lemma inserted_pending_in_chain c ch x :
  g_pending_child_budgets g !! ch = Some x → ch ≠ child →
  pending_in_chain inserted_graph c ch = pending_in_chain g c ch
  ∧ ∀ y, pending_level inserted_graph c ch y = pending_level g c ch y.
Proof.
  intros Hch Hne. destruct (proj1 (pend_dom _ (inv_pending _ Hi) ch) (mk_is_Some _ _ Hch)) as [p Hp].
  destruct (pend_parent _ (inv_pending _ Hi) _ _ Hp) as (m & Hm & _).
  unfold pending_level, pending_in_chain. cbn. rewrite lookup_delete_ne, Hp by done.
  rewrite (inserted_in_chain_old c p m) by done. split; [done|]. intros _. cbn [mbind option_bind].
  rewrite lookup_insert_ne; [by rewrite Hm|].
  intros E. pose proof (ins_child _ _ _ _ _ _ _ _ _ Hins). congruence.
Qed.

Lemma reserved_in_chain_before c x :
  g_pending_child_budgets g !! child = Some x →
  pending_in_chain g c child = bool_decide (c = root) ∧ pending_level g c child x
    = if decide (c = root) then depth else 0.
Proof.
  intros Hx. destruct (ins_pending _ _ _ _ _ _ _ _ _ Hins) as [[? _]|[_ Hp]]; [congruence|].
  unfold pending_level, pending_in_chain. rewrite Hp. unfold in_chain. rewrite Hroot.
  assert (bool_decide (Some root = Some c) = bool_decide (c = root)) as ->.
  { apply bool_decide_ext. split; intros E; [by injection E|by rewrite E]. }
  split; [done|]. cbn [mbind option_bind].
  rewrite (ins_parent _ _ _ _ _ _ _ _ _ Hins), (ins_depth _ _ _ _ _ _ _ _ _ Hins).
  destruct (decide (c = root)); [by rewrite bool_decide_eq_true_2|by rewrite bool_decide_eq_false_2].
Qed.

Lemma inserted_pending_sum d c :
  msum (pending_allocated d inserted_graph c) (g_pending_child_budgets inserted_graph)
  = msum (pending_allocated d g c) (g_pending_child_budgets g)
    - if decide (c = root) then reserved_before d else 0.
Proof.
  change (g_pending_child_budgets inserted_graph) with (delete child (g_pending_child_budgets g)).
  rewrite (msum_ext _ (pending_allocated d g c)) by (intros ch x [Hne Hx]%lookup_delete_Some;
    unfold pending_allocated; by rewrite (proj1 (inserted_pending_in_chain c ch x Hx (not_eq_sym Hne)))).
  unfold reserved_before. destruct (g_pending_child_budgets g !! child) as [x|] eqn:Hx.
  - rewrite (msum_delete _ (g_pending_child_budgets g) child x) by done.
    unfold pending_allocated at 2. rewrite (proj1 (reserved_in_chain_before c x Hx)). cbn [default].
    destruct (decide (c = root)); [rewrite bool_decide_eq_true_2 by done
      |rewrite bool_decide_eq_false_2 by done]; cbn [from_option id]; lia.
  - rewrite delete_id by done. destruct (decide _), d; cbn; lia.
Qed.

Lemma inserted_allocated d c :
  chain_allocated d inserted_graph c
  = chain_allocated d g c + if decide (c = root) then alloc d b - reserved_before d else 0.
Proof.
  unfold chain_allocated. rewrite inserted_pending_sum. unfold node_allocated.
  rewrite (inserted_nodes_sum (λ m, alloc d (wn_budget m))).
  destruct (decide (c = root)); cbn [child_node fresh_node wn_budget]; lia.
Qed.

Lemma inserted_consumed d c : chain_consumed d inserted_graph c = chain_consumed d g c.
Proof.
  unfold chain_consumed, node_consumed. rewrite (inserted_nodes_sum (λ m, used d (wn_budget m))).
  cbn [child_node fresh_node wn_budget]. rewrite (Hunspent d). by destruct (decide (c = root)).
Qed.

Lemma inserted_chain_depth c :
  chain_depth inserted_graph c
  = if decide (c = root) then Z.max (chain_depth g c) depth else chain_depth g c.
Proof.
  unfold chain_depth. rewrite (add_nodes _ _ _ _ inserted_added), mmax_insert by apply Hins.
  rewrite (mmax_ext (node_level inserted_graph c) (node_level g c))
    by (intros k m Hk; unfold node_level; by rewrite (inserted_in_chain_old c k m)).
  change (g_pending_child_budgets inserted_graph) with (delete child (g_pending_child_budgets g)).
  rewrite (mmax_ext _ (pending_level g c) (delete child _)) by (intros ch x [Hne Hx]%lookup_delete_Some;
    by rewrite (proj2 (inserted_pending_in_chain c ch x Hx (not_eq_sym Hne)))).
  unfold node_level at 1. rewrite inserted_in_chain_new. cbn [child_node fresh_node wn_depth].
  pose proof (mmax_nonneg (node_level g c) (g_nodes g)).
  pose proof (mmax_nonneg (pending_level g c) (delete child (g_pending_child_budgets g))).
  destruct (g_pending_child_budgets g !! child) as [x|] eqn:Hx.
  - rewrite (mmax_delete _ (g_pending_child_budgets g) child x) by done.
    rewrite (proj2 (reserved_in_chain_before c x Hx)).
    destruct (decide (c = root)); [rewrite bool_decide_eq_true_2 by done
      |rewrite bool_decide_eq_false_2 by done]; lia.
  - rewrite delete_id in * by done.
    destruct (decide (c = root)); [rewrite bool_decide_eq_true_2 by done
      |rewrite bool_decide_eq_false_2 by done]; lia.
Qed.

Lemma inserted_fits d c : chain_allocated d inserted_graph c ≤ u64_max.
Proof.
  apply chain_allocated_fits.
  - apply inserted_tree.
  - apply inserted_pending.
  - split.
    + apply (added_forall inserted_added (λ _ m, budget_ok (wn_budget m))); [apply Hins|].
      intros k m _. apply (bud_nodes _ (inv_budgets _ Hi)).
    + intros c' x. apply (pend_budget _ inserted_pending).
  - rewrite (added_map_len inserted_added). pose proof (ins_len _ _ _ _ _ _ _ _ _ Hins). lia.
  - apply inserted_claimed.
  - apply inserted_modest.
Qed.

Lemma reserved_before_bounds d : 0 ≤ reserved_before d ≤ chain_allocated d g root.
Proof.
  pose proof (inv_budgets _ Hi) as Hb.
  assert (0 ≤ msum (node_allocated d g root) (g_nodes g)).
  { apply msum_nonneg. intros k m Hk. unfold node_allocated. pose proof (bud_nodes _ Hb _ _ Hk d).
    destruct (in_chain _ _ _); lia. }
  assert (∀ ch x, g_pending_child_budgets g !! ch = Some x → 0 ≤ pending_allocated d g root ch x) as Hnn.
  { intros ch x Hx. unfold pending_allocated. pose proof (bud_pending _ Hb _ _ Hx d).
    destruct (pending_in_chain _ _ _); lia. }
  unfold chain_allocated, reserved_before.
  destruct (g_pending_child_budgets g !! child) as [x|] eqn:Hx; cbn [default from_option id].
  - pose proof (bud_pending _ Hb _ _ Hx d). pose proof (msum_elem_le _ _ child x Hnn Hx) as Hle.
    unfold pending_allocated at 1 in Hle. rewrite (proj1 (reserved_in_chain_before root x Hx)) in Hle.
    rewrite bool_decide_eq_true_2 in Hle by done. lia.
  - pose proof (msum_nonneg _ _ Hnn). destruct d; cbn; lia.
Qed.

Lemma inserted_inv : graph_inv inserted_graph.
Proof.
  pose proof inserted_added as Ha. apply (node_added_inv Hi Ha).
  - apply inserted_tree.
  - apply inserted_pending.
  - apply Hins.
  - intros Hact. apply (ins_slots _ _ _ _ _ _ _ _ _ Hins). by apply bool_decide_eq_true in Hact.
  - apply fresh_node_ok; apply Hins.
  - done.
  - rewrite inserted_children, decide_False, app_nil_r.
    + apply (tree_no_children (inv_tree _ Hi)), Hins.
    + intros E. pose proof (ins_child _ _ _ _ _ _ _ _ _ Hins).
      pose proof (ins_parent _ _ _ _ _ _ _ _ _ Hins). congruence.
  - intros k m Hk Hst. rewrite inserted_children, decide_False, app_nil_r; [done|].
    intros E. pose proof (ins_active _ _ _ _ _ _ _ _ _ Hins).
    pose proof (ins_parent _ _ _ _ _ _ _ _ _ Hins). congruence.
  - intros d. apply inserted_claimed.
  - intros c cb. eapply (grown_chains (g := g) (root := root) (prev := reserved_before)
      (next := λ d, alloc d b) (depth := depth) Hi); try done.
    + apply (added_old Ha).
    + intros d c' _. apply inserted_allocated.
    + intros d c' _. apply inserted_consumed.
    + intros c' _. apply inserted_chain_depth.
    + apply reserved_before_bounds.
    + intros d. pose proof (ins_budget _ _ _ _ _ _ _ _ _ Hins d). lia.
    + apply inserted_fits.
  - done.
  - intros c [cb Hc]. cbn. destruct (decide (root = c)) as [E|Hne].
    + rewrite E, lookup_alter_eq, Hc. by eexists.
    + rewrite lookup_alter_ne by done. by exists cb.
  - intros d. apply (inserted_modest d child). apply (added_eq Ha).
  - done.
Qed.
End inserted.

(** What [insert_child] does, whatever was spent of the budget it is given. *)
Lemma insert_outcome `{Blake3} g parent child agent capsule b status :
  graph_inv g → u64_budget b →
  wp (insert_child parent child agent capsule b status)
    (λ r g', ∃ depth pn root, insertable g parent child agent capsule b status depth pn
       ∧ root_of g parent = Some root
       ∧ r = child_node (parent := parent) (child := child) (agent := agent) (capsule := capsule)
               (b := b) (status := status) (depth := depth)
       ∧ g' = inserted_graph (g := g) (parent := parent) (child := child) (agent := agent)
                (capsule := capsule) (b := b) (status := status) (depth := depth) (root := root))
    (λ g', g' = g ∧ ¬ ∃ depth pn, insertable g parent child agent capsule b status depth pn) g.
Proof.
  intros Hi Hu. unfold insert_child. wp_get. apply wp_bind, wp_lift_err.
  { intros e He. split; [done|]. intros (depth & pn & Hins).
    apply (insert_checks_ok g) in Hins; [congruence|done]. }
  eapply ewp_mono; [|by apply insert_checks_spec]. intros depth (pn & Hins).
  destruct (node_chain g parent pn Hi (ins_parent _ _ _ _ _ _ _ _ _ Hins))
    as (root & cb & _ & Hroot & Hcb & _).
  wp_modify. wp_modify. wp_get.
  destruct (tree_path (inv_tree _ Hi) parent pn (ins_parent _ _ _ _ _ _ _ _ _ Hins)) as (l & Hl & _).
  apply wp_bind. rewrite (chain_id_for_node_path _ child (child :: l)).
  2: { by apply (inserted_path (root := root) Hins). }
  rewrite (path_up_last_cons (g_nodes g) child parent l Hl), <-(root_of_path g parent l Hl), Hroot.
  apply wp_lift_ok, wp_bind. eapply wp_expect; [done|]. do 3 wp_modify. wp_get.
  rewrite (record_chain_eq _ root cb
    (λ d, alloc d (default zero_budget (g_pending_child_budgets g !! child))) (λ d, alloc d b)) by done.
  eapply wp_expect; [by apply lookup_insert_eq|]. by exists depth, pn, root.
Qed.

Lemma insert_spec `{Blake3} g parent child agent capsule b status :
  graph_inv g → u64_budget b → unspent b →
  wp (insert_child parent child agent capsule b status)
    (λ r g', graph_inv g' ∧ ∃ depth pn root, insertable g parent child agent capsule b status depth pn
       ∧ root_of g parent = Some root
       ∧ r = child_node (parent := parent) (child := child) (agent := agent) (capsule := capsule)
               (b := b) (status := status) (depth := depth)
       ∧ g' = inserted_graph (g := g) (parent := parent) (child := child) (agent := agent)
                (capsule := capsule) (b := b) (status := status) (depth := depth) (root := root))
    (λ g', g' = g ∧ ¬ ∃ depth pn, insertable g parent child agent capsule b status depth pn) g.
Proof.
  intros Hi Hu Hun. eapply wp_mono; [by apply insert_outcome| |done].
  intros r g' (depth & pn & root & Hins & Hroot & -> & ->).
  split; [|by exists depth, pn, root]. by apply (inserted_inv Hi Hins Hun Hroot).
Qed.
