(* ===== verification/Reach.v ===== *)
(** * Work graphs that operations can build

    Every public operation of the graph as one value of [call], what running it
    does, and the graphs any sequence of calls reaches from a new one.  The
    caller's side of each operation is [callable]; everything else the
    operations check themselves. *)
From S2P Require Import Prelude Wp BTree Sums Text Hashing Float64 BudgetCascade GraphModel.
From S2P Require Import ControlOps Validate GraphOps GraphLineage GraphTree Reserve Ledger GraphInv.
From S2P Require Import LocalUpdate PreserveLocal StopCascade Spend Receipts Growth Delegation.
From S2P Require Import Insertion.
#[local] Open Scope Z_scope.

Inductive call :=
| BindGraphId (graph_id : string)
| AddRoot (id agent capsule : string) (b : WorkNodeBudget)
| Delegate (parent child agent capsule : string) (b : WorkNodeBudget)
| QueueChild (parent child agent capsule : string) (b : WorkNodeBudget)
| AllocateChildBudget (parent child : string) (fraction : f64)
| SetPathClaims (id : string) (claims : list string)
| ConfigureRootContext (id task policy expected : string)
| ConfigureChildContext (id task expected : string)
| ClaimAndActivate (id : string)
| ClaimAndActivateUntil (id : string) (lease : option Z)
| ClaimOrResume (id : string) (lease : Z)
| RecoverExpired (id : string) (now : Z)
| BeginDelivery (id fence : string) (attempt : Z)
| Complete (id outcome : string)
| RecordReceipt (r : ChildExecutionReceipt)
| MarkAccepted (ids : list string)
| Stop (id : string) (reason : StopReason)
| StopUnlaunched (id : string) (reason : StopReason)
| EnforceStopConditions
| ConsumeBudget (id : string) (tokens cost : Z)
| ConsumeTokens (id : string) (tokens : Z).

Section calls.
Context `{Blake3}.

Definition run_call (c : call) : graph_op () :=
  match c with
  | BindGraphId graph_id => bind_graph_id graph_id
  | AddRoot id agent capsule b => add_root id agent capsule b;; mret ()
  | Delegate parent child agent capsule b => delegate parent child agent capsule b;; mret ()
  | QueueChild parent child agent capsule b => queue_child parent child agent capsule b;; mret ()
  | AllocateChildBudget parent child fraction => allocate_child_budget parent child fraction;; mret ()
  | SetPathClaims id claims => set_path_claims id claims
  | ConfigureRootContext id task policy expected => configure_root_context id task policy expected
  | ConfigureChildContext id task expected => configure_child_context id task expected
  | ClaimAndActivate id => claim_and_activate id;; mret ()
  | ClaimAndActivateUntil id lease => claim_and_activate_until id lease;; mret ()
  | ClaimOrResume id lease => claim_or_resume_active_until id lease;; mret ()
  | RecoverExpired id now => recover_expired_execution id now;; mret ()
  | BeginDelivery id fence attempt => begin_delivery_attempt id fence attempt
  | Complete id outcome => complete id outcome
  | RecordReceipt r => record_child_receipt r
  | MarkAccepted ids => mark_accepted_path ids
  | Stop id reason => stop id reason;; mret ()
  | StopUnlaunched id reason => stop_unlaunched id reason;; mret ()
  | EnforceStopConditions => enforce_stop_conditions;; mret ()
  | ConsumeBudget id tokens cost => consume_budget id tokens cost;; mret ()
  | ConsumeTokens id tokens => consume_tokens id tokens
  end.

(** Amounts are unsigned 64-bit integers by their type. *)
Definition u64_call (c : call) : Prop :=
  match c with
  | AddRoot _ _ _ b | Delegate _ _ _ _ b | QueueChild _ _ _ _ b => u64_budget b
  | ConsumeBudget _ tokens cost => in_range u64_max tokens ∧ in_range u64_max cost
  | ConsumeTokens _ tokens => in_range u64_max tokens
  | _ => True
  end.

(** The rules a caller keeps and the operations themselves do not check:
    an initial budget is unspent; a root's is at most [MODEST_BUDGET], the 512th
    part of the largest [u64], of tokens and of cost, and the root is not named
    like a pending reservation; a graph gets its name before work is claimed;
    and a root's context is set before that of its children.  [GraphFacts] shows
    for each what becomes of a graph whose caller breaks it. *)
Definition callable (g : BoundedWorkGraph) (c : call) : Prop :=
  match c with
  | BindGraphId graph_id => rebindable g graph_id
  | AddRoot id _ _ b => rootable g id b
  | Delegate _ _ _ _ b | QueueChild _ _ _ _ b => u64_budget b ∧ unspent b
  | ConfigureRootContext id _ _ _ => children_unconfigured g id
  | ConsumeBudget _ tokens cost => 0 ≤ tokens ∧ 0 ≤ cost
  | ConsumeTokens _ tokens => 0 ≤ tokens
  | _ => True
  end.

(** A graph as its builders make it. *)
Inductive initial : BoundedWorkGraph → Prop :=
| initial_new fan depth : initial (new fan depth)
| initial_concurrency n g : initial g → initial (with_local_concurrency n g)
| initial_graph_id graph_id g g' : initial g → with_graph_id graph_id g = Ok g' → initial g'.

Inductive reachable : BoundedWorkGraph → Prop :=
| reach_initial g : initial g → reachable g
| reach_call g c : reachable g → callable g c → reachable (run_call c g).1.

Lemma clamp_range x lo hi : lo ≤ hi → lo ≤ clamp x lo hi ≤ hi.
Proof. unfold clamp. destruct (Z.ltb_spec x lo), (Z.ltb_spec hi x); lia. Qed.

(** An initial graph has settings only. *)
Definition settings_graph (graph_id : string) (concurrency fan depth : Z) : BoundedWorkGraph :=
  MkGraph graph_id ∅ ∅ ∅ ∅ ∅ ∅ ∅ ∅ ∅ concurrency fan depth.

Lemma initial_shape g :
  initial g → ∃ graph_id concurrency fan depth,
    g = settings_graph graph_id concurrency fan depth ∧ limits_ok g.
Proof.
  induction 1 as [fan depth|n g _ (i & c & f & d & -> & [L1 L2 L3 L4 L5 L6])
                 |graph_id g g' _ (i & c & f & d & -> & [L1 L2 L3 L4 L5 L6]) Hg].
  - eexists _, _, _, _. split; [done|]. unfold new. split; cbn.
    + done.
    + by apply clamp_range.
    + by apply clamp_range.
    + done.
    + done.
    + by left.
  - eexists _, _, _, _. split; [done|]. split; try done; cbn; [by apply clamp_range|].
    unfold active_count, local_concurrency_limit. cbn.
    pose proof (clamp_range (clamp n 1 MAX_LOCAL_CONCURRENCY) 1 MAX_LOCAL_CONCURRENCY).
    unfold MAX_LOCAL_CONCURRENCY in *. change (vec_len _) with 0. lia.
  - unfold with_graph_id in Hg. destruct (validate_identifier graph_id "graph_id") as [[]|e| |] eqn:Hv;
      try done. injection Hg as <-. eexists _, _, _, _. split; [done|]. split; try done. by right.
Qed.

Lemma initial_inv g : initial g → graph_inv g.
Proof.
  intros (i & c & f & d & -> & L)%initial_shape.
  assert (∀ p, children_of (settings_graph i c f d) p = []) as Hc by done.
  pose proof (lim_fan _ L) as Hfan. split; try done.
  - split; try done.
    + intros p x. rewrite Hc. split; [by intros ?%elem_of_nil|by intros (? & ? & _)].
    + intros p. rewrite Hc. constructor.
    + by intros p [].
    + intros p. rewrite Hc. unfold vec_len. cbn in *. lia.
  - split; try done; intros x; [by split; intros []|by intros []].
Qed.

Lemma add_root_preserved g id agent capsule b :
  graph_inv g → rootable g id b → preserved (add_root id agent capsule b) g.
Proof. intros. eapply wp_mono; [by apply add_root_spec|by intros ?? []|done]. Qed.

Lemma add_root_atomic g id agent capsule b :
  wp (add_root id agent capsule b) (λ _ _, True) (λ g', g' = g) g.
Proof.
  unfold add_root. wp_get. wp_reject Hlen.
  do 3 (apply wp_bind, wp_lift; [done|]; apply ewp_check; [apply identifier_total|intros _]).
  apply wp_bind, wp_lift; [done|]. apply ewp_check; [apply budget_total|intros _].
  wp_reject Hact. wp_reject Hdup. wp_modify. wp_modify. wp_get.
  eapply wp_expect; [by apply lookup_insert_eq|done].
Qed.

Lemma insert_preserved g parent child agent capsule b status :
  graph_inv g → u64_budget b → unspent b →
  preserved (insert_child parent child agent capsule b status) g.
Proof. intros. eapply wp_mono; [by apply insert_spec|by intros ?? []|by intros ? []]. Qed.

Lemma allocate_preserved g parent child fraction :
  graph_inv g → preserved (allocate_child_budget parent child fraction) g.
Proof. intros. eapply wp_mono; [by apply allocate_spec|by intros ?? []|done]. Qed.

Lemma claim_preserved g id lease :
  graph_inv g → preserved (claim_and_activate_until id lease) g.
Proof.
  intros. eapply wp_mono; [by apply claim_and_activate_until_preserved|by intros ?? []|done].
Qed.

(** Every operation terminates without panic, keeps the invariant when it
    succeeds and changes nothing when it fails. *)
Lemma run_call_preserved g c : graph_inv g → callable g c → preserved (run_call c) g.
Proof.
  intros Hi Hc. assert (∀ {A} (m : graph_op A), preserved m g → preserved (m;; mret ()) g) as Hret.
  { intros A m Hm. apply wp_bind. eapply wp_mono; [exact Hm|by intros|done]. }
  destruct c; cbn [run_call callable] in *; try apply Hret.
  - by apply bind_graph_id_preserved.
  - by apply add_root_preserved.
  - destruct Hc. unfold delegate. by apply insert_preserved.
  - destruct Hc. unfold queue_child. by apply insert_preserved.
  - by apply allocate_preserved.
  - by apply set_path_claims_preserved.
  - by apply configure_root_context_preserved.
  - by apply configure_child_context_preserved.
  - unfold claim_and_activate. by apply claim_preserved.
  - by apply claim_preserved.
  - by apply claim_or_resume_preserved.
  - by apply recover_preserved.
  - by apply begin_delivery_attempt_preserved.
  - by apply complete_preserved.
  - by apply record_preserved.
  - by apply mark_preserved.
  - by apply stop_preserved.
  - by apply stop_unlaunched_preserved.
  - by apply enforce_preserved.
  - destruct Hc. by apply consume_preserved.
  - by apply consume_preserved.
Qed.

Lemma run_call_inv g c : graph_inv g → callable g c → graph_inv (run_call c g).1.
Proof.
  intros Hi Hc. pose proof (run_call_preserved g c Hi Hc) as Hp. unfold preserved, wp in Hp.
  destruct (run_call c g) as [g' []]; cbn; [done|by subst|done|done].
Qed.

(** Whether or not the caller keeps the rules, a call does not panic, does not
    loop and changes nothing when it fails. *)
Lemma run_call_atomic g c :
  graph_inv g → u64_call c → wp (run_call c) (λ _ _, True) (λ g', g' = g) g.
Proof.
  intros Hi Hc.
  assert (callable g c → wp (run_call c) (λ _ _, True) (λ g', g' = g) g) as Hk
    by (intros Hr; eapply wp_mono; [exact (run_call_preserved g c Hi Hr)|done|done]).
  destruct c; cbn [run_call u64_call callable] in *; try exact (Hk I).
  - unfold bind_graph_id. apply wp_bind, wp_lift; [done|].
    apply ewp_check; [apply identifier_total|intros _]. by do 4 wp_step.
  - apply wp_bind. eapply wp_mono; [by apply add_root_atomic|done|done].
  - apply wp_bind. eapply wp_mono; [exact (insert_outcome _ _ _ _ _ _ _ Hi Hc)|done|by intros ? [-> _]].
  - apply wp_bind. eapply wp_mono; [exact (insert_outcome _ _ _ _ _ _ _ Hi Hc)|done|by intros ? [-> _]].
  - unfold configure_root_context.
    do 3 (apply wp_bind, wp_lift; [done|]; apply ewp_check; [apply identifier_total|intros _]).
    wp_get. wp_some n Hn. wp_reject Hp. by wp_modify.
  - apply Hk. by destruct Hc as [[] []].
  - apply Hk. by destruct Hc.
Qed.

Lemma reachable_inv g : reachable g → graph_inv g.
Proof. induction 1; [by apply initial_inv|by apply run_call_inv]. Qed.

(** Several calls in a row, for concrete runs. *)
Fixpoint run_calls (cs : list call) (g : BoundedWorkGraph) : BoundedWorkGraph :=
  match cs with
  | [] => g
  | c :: cs => run_calls cs (run_call c g).1
  end.

Fixpoint callable_all (cs : list call) (g : BoundedWorkGraph) : Prop :=
  match cs with
  | [] => True
  | c :: cs => callable g c ∧ callable_all cs (run_call c g).1
  end.

Lemma reach_calls cs g : reachable g → callable_all cs g → reachable (run_calls cs g).
Proof.
  revert g. induction cs as [|c cs IH]; intros g Hg Hcs; [done|]. destruct Hcs as [Hc Hcs].
  apply IH; [|done]. by apply reach_call.
Qed.
End calls.
