(* ===== verification/Reports.v ===== *)
(** * Reports read off a graph

    [fuse_accepted_results] groups the claims of accepted receipts by key and
    value; [attribution] splits what was consumed into accepted and wasted. *)
From S2P Require Import Prelude Wp BTree Sums Text Hashing Float64 BudgetCascade GraphModel.
From S2P Require Import ControlOps Validate GraphOps GraphLineage GraphTree Reserve Ledger GraphInv.
#[local] Open Scope Z_scope.

(** ** Candidates *)

(** Node [id] of the accepted path claims [value] for [key]. *)
Definition claims_value (g : BoundedWorkGraph) (key value id : string) : Prop :=
  ∃ k r c, g_receipts g !! k = Some r ∧ rc_node_id r ∈ g_accepted_path g ∧ c ∈ rc_claims r
    ∧ claim_key c = key ∧ claim_value c = value ∧ rc_node_id r = id.

(** The two-level map holds exactly the claims of [P], and no empty entry. *)
Record holds (P : string → string → string → Prop) (m : gmap string (gmap string (list string))) :
    Prop := {
  holds_ids k vs v ids : m !! k = Some vs → vs !! v = Some ids → ∀ id, id ∈ ids ↔ P k v id;
  holds_all k v id : P k v id → ∃ vs ids, m !! k = Some vs ∧ vs !! v = Some ids;
  holds_values k vs : m !! k = Some vs → vs ≠ ∅;
  holds_nonempty k vs v ids : m !! k = Some vs → vs !! v = Some ids → ids ≠ [];
}.

Lemma holds_ext P Q m : (∀ k v id, P k v id ↔ Q k v id) → holds P m → holds Q m.
Proof.
  intros HPQ [H1 H2 H3 H4]. split; try done.
  - intros k vs v ids Hk Hv id. rewrite <-HPQ. by eapply H1.
  - intros k v id Hq. apply (H2 k v id). by apply HPQ.
Qed.

Lemma holds_push P m key value id :
  holds P m →
  holds (λ k v i, P k v i ∨ k = key ∧ v = value ∧ i = id) (push_candidate m key value id).
Proof.
  intros [H1 H2 H3 H4]. unfold push_candidate. set (vs0 := default ∅ (m !! key)).
  assert (∀ v ids, vs0 !! v = Some ids → ∃ vs, m !! key = Some vs ∧ vs !! v = Some ids) as Hvs0.
  { intros v ids. unfold vs0. destruct (m !! key) as [vs|]; [eauto|done]. }
  assert (∀ i, i ∈ default [] (vs0 !! value) ↔ P key value i) as Hids.
  { intros i. destruct (vs0 !! value) as [ids|] eqn:E; cbn.
    - destruct (Hvs0 _ _ E) as (vs & Hk & Hv). by eapply H1.
    - split; [by intros ?%elem_of_nil|]. intros (vs & ids & Hk & Hv)%H2.
      unfold vs0 in E. rewrite Hk in E. cbn in E. congruence. }
  split.
  - intros k vs v ids [[<- <-]|[Hk Hm]]%lookup_insert_Some Hv i.
    + apply lookup_insert_Some in Hv as [[<- <-]|[Hv Hvs]].
      * rewrite elem_of_app, list_elem_of_singleton, Hids. naive_solver.
      * destruct (Hvs0 _ _ Hvs) as (vs & Hk & Hvs'). rewrite (H1 _ _ _ _ Hk Hvs'). naive_solver.
    + rewrite (H1 _ _ _ _ Hm Hv). naive_solver.
  - intros k v i [(vs & ids & Hk & Hv)%H2|(-> & -> & ->)].
    + destruct (decide (k = key)) as [->|Hne].
      * exists (<[value := default [] (vs0 !! value) ++ [id]]> vs0). destruct (decide (v = value)) as [->|Hv'].
        -- eexists. split; [by rewrite lookup_insert_eq|]. by rewrite lookup_insert_eq.
        -- exists ids. split; [by rewrite lookup_insert_eq|]. rewrite lookup_insert_ne by done.
           unfold vs0. by rewrite Hk.
      * exists vs, ids. by rewrite lookup_insert_ne.
    + eexists _, _. split; [by rewrite lookup_insert_eq|]. by rewrite lookup_insert_eq.
  - intros k vs [[<- <-]|[Hk Hm]]%lookup_insert_Some; [apply insert_non_empty|by eapply H3].
  - intros k vs v ids [[<- <-]|[Hk Hm]]%lookup_insert_Some Hv; [|by eapply H4].
    apply lookup_insert_Some in Hv as [[<- <-]|[Hv Hvs]]; [by intros [_ ?]%app_nil|].
    destruct (Hvs0 _ _ Hvs) as (vs & Hk & Hvs'). by eapply H4.
Qed.

Lemma holds_claims P m r cs :
  holds P m →
  holds (λ k v i, P k v i ∨ (∃ c, c ∈ cs ∧ claim_key c = k ∧ claim_value c = v) ∧ i = rc_node_id r)
    (foldl (λ m claim, push_candidate m (claim_key claim) (claim_value claim) (rc_node_id r)) m cs).
Proof.
  revert P m. induction cs as [|c cs IH]; intros P m Hm; cbn [foldl].
  - eapply holds_ext; [|exact Hm]. intros k v i. set_solver.
  - eapply holds_ext; [|apply IH, holds_push, Hm]. intros k v i. cbn. set_solver.
Qed.

Lemma fuse_candidates_holds g : holds (claims_value g) (fuse_candidates g).
Proof.
  unfold fuse_candidates. set (f := λ candidates receipt, _).
  assert (∀ rs P m, holds P m → holds (λ k v i, P k v i ∨ ∃ r c, r ∈ rs ∧ rc_node_id r ∈ g_accepted_path g
    ∧ c ∈ rc_claims r ∧ claim_key c = k ∧ claim_value c = v ∧ rc_node_id r = i) (foldl f m rs)) as Hf.
  { induction rs as [|r rs IH]; intros P m Hm; cbn [foldl].
    - eapply holds_ext; [|exact Hm]. intros k v i. split; [by left|].
      intros [?|(r & c & Hr & _)]; [done|by apply elem_of_nil in Hr].
    - unfold f at 2. case_bool_decide as Ha; cbn [negb].
      + eapply holds_ext; [|apply IH, holds_claims, Hm]. intros k v i. cbn. split.
        * intros [[?|[(c & ? & ? & ?) ->]]|(r' & c & Hr & ?)]; [by left|right|right].
          -- exists r, c. repeat split; try done. left.
          -- exists r', c. split; [by right|done].
        * intros [?|(r' & c & [->|Hr]%elem_of_cons & ?)]; [left; by left|left; right|right; eauto].
          naive_solver.
      + eapply holds_ext; [|apply IH, Hm]. intros k v i. cbn. split.
        * intros [?|(r' & c & Hr & ?)]; [by left|right]. exists r', c. split; [by right|done].
        * intros [?|(r' & c & [->|Hr]%elem_of_cons & ?)]; [by left|naive_solver|right; eauto]. }
  eapply holds_ext; [|apply (Hf _ (λ _ _ _, False) ∅)].
  - intros k v i. unfold claims_value. setoid_rewrite elem_of_bt_values. naive_solver.
  - split; try done.
Qed.

(** ** Fusion *)

(** The conflict reported for a key. *)
Definition conflict_of (entry : string * gmap string (list string)) : ResultConflict :=
  MkConflict entry.1 (bt_keys entry.2) (dedup (sort_strings (concat (bt_values entry.2)))).

Definition unanimous (entry : string * gmap string (list string)) : bool := map_len entry.2 =? 1.

Lemma length_bt_keys {V} (m : gmap string V) : length (bt_keys m) = size m.
Proof. unfold bt_keys. by rewrite length_fmap, bt_iter_perm, length_map_to_list. Qed.

Lemma unanimous_keys k vs :
  unanimous (k, vs) = true → ∃ v, bt_keys vs = [v] ∧ ∀ x, is_Some (vs !! x) ↔ x = v.
Proof.
  unfold unanimous, map_len. cbn. intros Hlen%Z.eqb_eq.
  pose proof (length_bt_keys vs) as Hl. destruct (bt_keys vs) as [|v [|]] eqn:E; cbn in Hl; [lia| |lia].
  exists v. split; [done|]. intros x. rewrite <-elem_of_bt_keys, E. apply list_elem_of_singleton.
Qed.

Lemma fuse_fold g :
  ∃ f, fuse_accepted_results g = Ok f
    ∧ (∀ k v, fused_accepted f !! k = Some v ↔
         ∃ vs, fuse_candidates g !! k = Some vs ∧ unanimous (k, vs) = true ∧ is_Some (vs !! v))
    ∧ fused_conflicts f
        = conflict_of <$> filter (λ e, unanimous e = false) (bt_iter (fuse_candidates g)).
Proof.
  unfold fuse_accepted_results. set (cands := fuse_candidates g). set (step := λ fused _, _).
  destruct (foldM_inv step (λ ys f, ∃ zs, bt_iter cands = zs ++ ys
    ∧ (∀ k v, fused_accepted f !! k = Some v ↔
         ∃ vs, (k, vs) ∈ zs ∧ unanimous (k, vs) = true ∧ is_Some (vs !! v))
    ∧ fused_conflicts f = conflict_of <$> filter (λ e, unanimous e = false) zs)
    (bt_iter cands) (MkFused ∅ [])) as (f & Hrun & zs & Hzs & Ha & Hc).
  - exists []. split; [done|]. split; [|done]. intros k v. cbn. rewrite lookup_empty.
    split; [done|]. by intros (vs & ?%elem_of_nil & _).
  - intros [key vs] ys f (zs & Hzs & Ha & Hc). unfold step. change (map_len vs =? 1) with (unanimous (key, vs)).
    assert (∀ x, (key, x) ∉ zs) as Hfresh.
    { pose proof (NoDup_bt_keys cands) as Hnd. unfold bt_keys in Hnd. rewrite Hzs, fmap_app in Hnd.
      apply NoDup_app in Hnd as (_ & Hnd & _). intros x Hin. apply (Hnd key).
      - apply list_elem_of_fmap. by exists (key, x).
      - cbn. left. }
    destruct (unanimous (key, vs)) eqn:Hu.
    + destruct (unanimous_keys key vs Hu) as (v & Hk & Hv). rewrite Hk. eexists. split; [done|].
      exists (zs ++ [(key, vs)]). split; [by rewrite <-(assoc_L (++))|]. cbn [fused_accepted fused_conflicts].
      split.
      * intros k x. setoid_rewrite elem_of_app. setoid_rewrite list_elem_of_singleton.
        destruct (decide (k = key)) as [->|Hne].
        -- rewrite lookup_insert_eq. split.
           ++ intros [= <-]. exists vs. split; [by right|]. split; [done|]. by apply Hv.
           ++ intros (vs' & [Hin|E] & _ & Hx); [by apply Hfresh in Hin|].
              injection E as ->. apply Hv in Hx. congruence.
        -- rewrite lookup_insert_ne, Ha by done. split; intros (vs' & Hin & ?); exists vs'; [tauto|].
           split; [|done]. destruct Hin as [?|[= ? ?]]; [done|congruence].
      * rewrite Hc, filter_app, filter_cons_False, app_nil_r by (rewrite Hu; done). done.
    + eexists. split; [done|]. exists (zs ++ [(key, vs)]).
      split; [by rewrite <-(assoc_L (++))|]. cbn [fused_accepted fused_conflicts]. split.
      * intros k x. rewrite Ha. setoid_rewrite elem_of_app. setoid_rewrite list_elem_of_singleton.
        split; intros (vs' & Hin & Hu' & ?); exists vs'; [tauto|]. split; [|done].
        destruct Hin as [?|[= -> ->]]; [done|congruence].
      * rewrite Hc, filter_app, filter_cons_True, fmap_app by done. done.
  - exists f. split; [done|]. rewrite app_nil_r in Hzs. split; [|by rewrite Hc, Hzs].
    intros k v. rewrite Ha. setoid_rewrite <-elem_of_bt_iter. by rewrite Hzs.
Qed.

Lemma elem_of_concat {A} (x : A) ls : x ∈ concat ls ↔ ∃ l, l ∈ ls ∧ x ∈ l.
Proof. rewrite list_elem_of_In, in_concat. by setoid_rewrite list_elem_of_In. Qed.

(** A key is unanimous when its claims agree. *)
Lemma fuse_key g k vs :
  fuse_candidates g !! k = Some vs →
  (∀ v, is_Some (vs !! v) ↔ ∃ id, claims_value g k v id)
  ∧ (∀ id, id ∈ concat (bt_values vs) ↔ ∃ v, claims_value g k v id)
  ∧ (unanimous (k, vs) = true ↔ ∀ v1 id1 v2 id2,
       claims_value g k v1 id1 → claims_value g k v2 id2 → v1 = v2).
Proof.
  intros Hk. destruct (fuse_candidates_holds g) as [H1 H2 H3 H4].
  assert (∀ v, is_Some (vs !! v) ↔ ∃ id, claims_value g k v id) as Hv.
  { intros v. split.
    - intros [ids Hids]. pose proof (H4 _ _ _ _ Hk Hids). destruct ids as [|id ids]; [done|].
      exists id. apply (H1 _ _ _ _ Hk Hids). left.
    - intros [id Hid]. destruct (H2 _ _ _ Hid) as (vs' & ids & ? & ?). simplify_eq. eauto. }
  split; [done|]. split.
  - intros id. rewrite elem_of_concat. setoid_rewrite elem_of_bt_values. split.
    + intros (ids & [v Hids] & Hin). exists v. by apply (H1 _ _ _ _ Hk Hids).
    + intros [v Hid]. destruct (H2 _ _ _ Hid) as (vs' & ids & Hk' & Hids). simplify_eq.
      exists ids. split; [by exists v|]. by apply (H1 _ _ _ _ Hk Hids).
  - split.
    + intros (v & _ & Heq)%unanimous_keys v1 id1 v2 id2 Hc1 Hc2.
      assert (v1 = v) as -> by (apply Heq, Hv; eauto). symmetry. apply Heq, Hv. eauto.
    + intros Heq. unfold unanimous, map_len. cbn. apply Z.eqb_eq.
      rewrite <-length_bt_keys. pose proof (NoDup_bt_keys vs) as Hnd.
      assert (∀ x, x ∈ bt_keys vs → ∃ id, claims_value g k x id) as Hin
        by (intros x Hx%elem_of_bt_keys; by apply Hv).
      destruct (bt_keys vs) as [|x [|y l]] eqn:E; [|done|].
      * exfalso. apply (H3 _ _ Hk). apply map_eq. intros v. rewrite lookup_empty.
        apply eq_None_not_Some. intros Hs%elem_of_bt_keys. rewrite E in Hs. by apply elem_of_nil in Hs.
      * exfalso. apply NoDup_cons in Hnd as [Hnd _]. apply Hnd.
        destruct (Hin x) as [i1 Hc1]; [left|]. destruct (Hin y) as [i2 Hc2]; [right; left|].
        rewrite (Heq _ _ _ _ Hc1 Hc2). left.
Qed.

(** A key that is not unanimous has two claims that differ. *)
Lemma fuse_disputed g k vs :
  fuse_candidates g !! k = Some vs → unanimous (k, vs) = false →
  ∃ v1 id1 v2 id2, claims_value g k v1 id1 ∧ claims_value g k v2 id2 ∧ v1 ≠ v2.
Proof.
  intros Hk Hu. destruct (fuse_key g k vs Hk) as (Hv & _ & _).
  assert (∀ x, x ∈ bt_keys vs → ∃ id, claims_value g k x id) as Hin
    by (intros x Hx%elem_of_bt_keys; by apply Hv).
  pose proof (holds_values _ _ (fuse_candidates_holds g) _ _ Hk) as Hne.
  unfold unanimous, map_len in Hu. cbn in Hu. apply Z.eqb_neq in Hu.
  rewrite <-length_bt_keys in Hu. pose proof (NoDup_bt_keys vs) as Hnd.
  destruct (bt_keys vs) as [|x [|y l]] eqn:E; [|done|].
  - destruct Hne. apply map_eq. intros v. rewrite lookup_empty. apply eq_None_not_Some.
    intros Hs%elem_of_bt_keys. rewrite E in Hs. by apply elem_of_nil in Hs.
  - destruct (Hin x) as [i1 Hc1]; [left|]. destruct (Hin y) as [i2 Hc2]; [right; left|].
    exists x, i1, y, i2. split; [done|]. split; [done|]. intros ->.
    apply NoDup_cons in Hnd as [Hnd _]. apply Hnd. left.
Qed.

Lemma fuse_keys_all g k v id : claims_value g k v id → is_Some (fuse_candidates g !! k).
Proof. intros (vs & ids & Hk & _)%(holds_all _ _ (fuse_candidates_holds g)). eauto. Qed.

(** ** Attribution *)

(** What the nodes on, or off, the accepted path consumed. *)
Definition spent_on (d : dim) (accepted : bool) (g : BoundedWorkGraph) : Z :=
  msum (λ id n, if Bool.eqb (bool_decide (id ∈ g_accepted_path g)) accepted
                then used d (wn_budget n) else 0) (g_nodes g).

Section attribution.
Context `{Blake3} {g : BoundedWorkGraph} (Hi : graph_inv g).

Lemma spent_on_total d :
  0 ≤ spent_on d true g ∧ 0 ≤ spent_on d false g
  ∧ spent_on d true g + spent_on d false g = msum (λ _ n, used d (wn_budget n)) (g_nodes g)
  ∧ msum (λ _ n, used d (wn_budget n)) (g_nodes g) ≤ u64_max.
Proof using Hi.
  pose proof (λ id n Hn, node_budget _ _ _ (inv_nodes _ Hi id n Hn) d) as Hb.
  assert (∀ a, 0 ≤ spent_on d a g) as Hnn.
  { intros a. apply msum_nonneg. intros id n Hn. specialize (Hb id n Hn). destruct (Bool.eqb _ _); lia. }
  split; [apply Hnn|]. split; [apply Hnn|]. split.
  - unfold spent_on. rewrite <-msum_add. apply msum_ext. intros id n _.
    destruct (bool_decide (id ∈ g_accepted_path g)); cbn; lia.
  - etrans; [apply (msum_const_le _ _ MODEST_BUDGET)|].
    + intros id n Hn. specialize (Hb id n Hn). pose proof (inv_modest _ Hi d id n Hn). lia.
    + pose proof (lim_nodes _ (inv_limits _ Hi)) as Hl. unfold map_len, MAX_GRAPH_NODES in Hl.
      assert (256 * MODEST_BUDGET ≤ u64_max) by by vm_compute.
      assert (Z.of_nat (size (g_nodes g)) * MODEST_BUDGET ≤ 256 * MODEST_BUDGET); [|lia].
      apply Z.mul_le_mono_nonneg_r; [by vm_compute|done].
Qed.

Definition attributed (d : dim) (accepted : bool) (a : WorkAttribution) : Z :=
  match d, accepted with
  | Tokens, true => at_accepted_tokens a
  | Tokens, false => at_waste_tokens a
  | Cost, true => at_accepted_cost_micros a
  | Cost, false => at_waste_cost_micros a
  end.

Lemma attribution_eq :
  attribution g = Ok (MkAttribution (spent_on Tokens true g) (spent_on Cost true g)
                        (spent_on Tokens false g) (spent_on Cost false g)).
Proof using Hi.
  unfold attribution, bt_values. rewrite foldM_fmap. set (step := λ _ _, _).
  set (share := λ d accepted, λ '(id, n), if Bool.eqb (bool_decide (id ∈ g_accepted_path g)) accepted
                then used d (wn_budget n) else 0 : Z).
  assert (∀ d a, zsum (share d a <$> bt_iter (g_nodes g)) = spent_on d a g) as Htot
    by (intros; apply msum_bt_iter).
  pose proof (λ id n Hn d, node_budget _ _ _ (inv_nodes _ Hi id n Hn) d) as Hb.
  destruct (foldM_inv step (λ ys r, (∀ x, x ∈ ys → g_nodes g !! x.1 = Some x.2)
    ∧ (∀ d a, attributed d a r + zsum (share d a <$> ys) = spent_on d a g))
    (bt_iter (g_nodes g)) (MkAttribution 0 0 0 0)) as (r & Hrun & _ & Hr).
  - split; [intros [id n]; apply elem_of_bt_iter|]. intros d a. rewrite Htot. by destruct d, a.
  - intros [id n] ys r [Hys Hr]. assert (g_nodes g !! id = Some n) as Hn by (apply (Hys (id, n)); left).
    assert (∀ x, x ∈ ys → g_nodes g !! x.1 = Some x.2) as Hys' by (intros; apply Hys; by right).
    setoid_rewrite fmap_cons in Hr. setoid_rewrite zsum_cons in Hr.
    assert (∀ d a, attributed d a r + share d a (id, n) ≤ u64_max) as Hfit.
    { intros d a. assert (0 ≤ zsum (share d a <$> ys)).
      { apply zsum_nonneg. intros [k m] Hk. specialize (Hb k m (Hys' _ Hk) d). unfold share.
        destruct (Bool.eqb _ _); lia. }
      pose proof (spent_on_total d) as (? & ? & ? & ?). specialize (Hr d a). destruct a; lia. }
    unfold step. cbn [snd]. rewrite (inv_failed _ Hi), lookup_empty.
    rewrite (node_key _ _ _ (inv_nodes _ Hi _ _ Hn)).
    pose proof (Hfit Tokens true) as F1. pose proof (Hfit Cost true) as F2.
    pose proof (Hfit Tokens false) as F3. pose proof (Hfit Cost false) as F4.
    unfold share in F1, F2, F3, F4, Hr. cbn [attributed used] in F1, F2, F3, F4.
    destruct (bool_decide (id ∈ g_accepted_path g)) eqn:Hacc.
    + cbn [Bool.eqb] in *.
      rewrite (u64_add_fits (at_accepted_tokens r)), exec_bind_ret by done.
      rewrite (u64_add_fits (at_accepted_cost_micros r)), exec_bind_ret by done.
      eexists. split; [done|]. split; [done|]. intros d a. rewrite <-(Hr d a).
      unfold share. destruct d, a; cbn; lia.
    + cbn [Bool.eqb] in *.
      rewrite (u64_add_fits (at_waste_tokens r)), exec_bind_ret by done.
      rewrite (u64_add_fits (at_waste_cost_micros r)), exec_bind_ret by done.
      eexists. split; [done|]. split; [done|]. intros d a. rewrite <-(Hr d a).
      unfold share. destruct d, a; cbn; lia.
  - rewrite Hrun. f_equal. pose proof (Hr Tokens true) as R1. pose proof (Hr Cost true) as R2.
    pose proof (Hr Tokens false) as R3. pose proof (Hr Cost false) as R4.
    change (zsum (_ <$> [])) with 0 in R1, R2, R3, R4. rewrite Z.add_0_r in R1, R2, R3, R4.
    destruct r; cbn in *; congruence.
Qed.
End attribution.
