(* ===== verification/Persisted.v ===== *)
(** * Persisted graphs

    [validate_invariants] runs on graphs read from disk, about which nothing is
    known.  On any graph at all it terminates without panic, and what it accepts
    is a forest within the configured limits. *)
From S2P Require Import Prelude Wp BTree Sums Text Hashing Float64 BudgetCascade GraphModel.
From S2P Require Import ControlOps Validate GraphOps GraphLineage GraphTree Reserve PreserveLocal.
#[local] Open Scope Z_scope.

(** ** Termination *)
Section reserve_total.
Context (g : BoundedWorkGraph) (parent_id : string) (exclude : option string).

(** What the worklist satisfies on any graph. *)
Record worklist (done : gset string) (st : reserve_state) : Prop := {
  wl_nodup : NoDup (rs_pending_parents st);
  wl_todo q : q ∈ rs_pending_parents st → q ∉ done ∧ q ∈ rs_visited st;
  wl_done : done ⊆ rs_visited st;
  wl_nodes : rs_visited st ⊆ {[parent_id]} ∪ dom (g_nodes g);
}.

Lemma reserve_child_worklist current done st c :
  worklist done st →
  ewp (reserve_child g parent_id exclude current st c) (worklist done).
Proof.
  intros [W1 W2 W3 W4]. unfold reserve_child. destruct (_ && _); [by split|].
  apply ewp_bind, ewp_reject. intros Hv%bool_decide_eq_false.
  apply ewp_bind, ewp_ok_or. intros n Hn. apply ewp_bind, ewp_ok_or. intros t _.
  apply ewp_bind, ewp_ok_or. intros k _. apply ewp_ok.
  assert (c ∈ dom (g_nodes g)) by (apply elem_of_dom; eauto).
  split; cbn [rs_pending_parents rs_visited].
  - destruct (settled g c n); [|done]. apply NoDup_cons. split; [|done]. by intros [_ ?]%W2.
  - intros q Hq. assert (q = c ∨ q ∈ rs_pending_parents st) as [->|Hq'].
    { destruct (settled g c n); [by apply elem_of_cons in Hq|by right]. }
    + split; [|set_solver]. intros Hc. apply Hv. by apply W3.
    + destruct (W2 q Hq'). set_solver.
  - set_solver.
  - set_solver.
Qed.

Lemma reserve_pending_worklist current done st e :
  worklist done st → ewp (reserve_pending g parent_id exclude current st e) (worklist done).
Proof.
  intros [W1 W2 W3 W4]. destruct e as [c b]. unfold reserve_pending. destruct (_ || _); [by split|].
  apply ewp_bind, ewp_ok_or. intros t _. apply ewp_bind, ewp_ok_or. intros k _. by apply ewp_ok.
Qed.

Lemma reserve_loop_total fuel done st :
  worklist done st →
  (size (({[parent_id]} : gset string) ∪ dom (g_nodes g)) ≤ fuel + size done)%nat →
  ewp (reserve_loop fuel g parent_id exclude st) (λ _, True).
Proof.
  revert done st. induction fuel as [|fuel IH]; intros done st Hw Hf; cbn [reserve_loop];
    destruct (rs_pending_parents st) as [|current rest] eqn:Est; try exact I.
  - pose proof Hw as [W1 W2 W3 W4]. destruct (W2 current) as [Hc Hv]; [rewrite Est; left|].
    assert (({[current]} ∪ done) ⊆ ({[parent_id]} ∪ dom (g_nodes g))) as Hs%subseteq_size by set_solver.
    rewrite size_union, size_singleton in Hs by set_solver. cbn in *. lia.
  - pose proof Hw as [W1 W2 W3 W4]. rewrite Est in W1, W2. apply NoDup_cons in W1 as [Hcr W1].
    destruct (W2 current) as [Hc Hv]; [left|].
    set (done' := {[current]} ∪ done).
    apply ewp_bind, (ewp_foldM _ (λ _, worklist done')).
    + split; cbn [rs_pending_parents rs_visited]; [done| |set_solver|done].
      intros q Hq. destruct (W2 q) as [? ?]; [by right|]. split; [|done].
      intros [->%elem_of_singleton|?]%elem_of_union; done.
    + intros c ys s Hs. by apply reserve_child_worklist.
    + intros s Hs. apply ewp_bind, (ewp_foldM _ (λ _, worklist done')); [done| |].
      * intros e ys s' Hs'. by apply reserve_pending_worklist.
      * intros s' Hs'. apply (IH done'); [done|]. unfold done'.
        rewrite (size_union {[current]} done), size_singleton by by apply disjoint_singleton_l. lia.
Qed.

Lemma reserved_total : ewp (reserved_child_budget g parent_id exclude) (λ _, True).
Proof.
  unfold reserved_child_budget. apply ewp_bind. eapply ewp_mono;
    [|apply (reserve_loop_total _ ∅)]; [done| |].
  - split; cbn [rs_pending_parents rs_visited]; [apply NoDup_singleton| |set_solver|set_solver].
    intros q ->%list_elem_of_singleton. set_solver.
  - rewrite size_empty. pose proof (size_union_alt ({[parent_id]} : gset string) (dom (g_nodes g))) as Hu.
    pose proof (subseteq_size (dom (g_nodes g) ∖ {[parent_id]}) (dom (g_nodes g))) as Hd.
    rewrite Hu, size_singleton. specialize (Hd ltac:(set_solver)). rewrite size_dom in Hd. lia.
Qed.
End reserve_total.

Section validator.
Context `{Blake3}.

Lemma lineage_total g id Q :
  (∀ l, path_up (g_nodes g) id (reverse l) → Q l) → ewp (checked_lineage g id) Q.
Proof.
  intros HQ. apply ewp_True.
  - destruct (checked_lineage_total g id) as [H1 H2]. by destruct (checked_lineage g id).
  - intros l Hl. by apply HQ, checked_lineage_Ok.
Qed.

Lemma path_claims_total seen claims : ewp (validate_path_claims seen claims) (λ _, True).
Proof.
  revert seen. induction claims as [|c claims IH]; intros seen; cbn [validate_path_claims]; [done|].
  apply ewp_bind, ewp_check; [apply path_claim_total|intros _].
  apply ewp_bind, ewp_reject. intros _. apply IH.
Qed.

Lemma optional_identifier_total field value :
  ewp (if str_is_empty value then Ok () else validate_identifier value field) (λ _, True).
Proof. destruct (str_is_empty value); [done|apply identifier_total]. Qed.

Lemma node_context_total g key n : ewp (validate_node_context g key n) (λ _, True).
Proof.
  unfold validate_node_context.
  do 4 (apply ewp_bind, ewp_check; [apply identifier_total|intros _]).
  apply ewp_bind, ewp_check; [apply budget_total|intros _].
  apply ewp_bind, ewp_forM; [intros [f v]; apply optional_identifier_total|intros _].
  apply ewp_bind, ewp_check; [destruct (wn_parent_task_ref n); [apply identifier_total|done]|intros _].
  destruct (wn_parent_node_id n); [|done]. destruct (str_is_empty _); [done|]. by do 2 wp_step.
Qed.

Lemma node_execution_total g key n : ewp (validate_node_execution g key n) (λ _, True).
Proof.
  unfold validate_node_execution. apply ewp_bind, ewp_reject. intros _.
  apply ewp_bind, ewp_check; [apply path_claims_total|intros _]. by do 3 wp_step.
Qed.

Lemma node_structure_total g key n : ewp (validate_node_structure g key n) (λ _, True).
Proof.
  unfold validate_node_structure. apply ewp_bind, lineage_total. intros l _. by do 3 wp_step.
Qed.

Lemma node_total g e : ewp (validate_node g e) (λ _, True).
Proof.
  destruct e as [key n]. unfold validate_node.
  apply ewp_bind, ewp_check; [apply node_context_total|intros _].
  apply ewp_bind, ewp_check; [apply node_execution_total|intros _]. apply node_structure_total.
Qed.

Lemma child_index_total g e : ewp (validate_child_index g e) (λ _, True).
Proof.
  destruct e as [p cs]. unfold validate_child_index. apply ewp_bind, ewp_reject. intros Hk.
  apply ewp_bind, ewp_forM; [intros c; by wp_step|intros _].
  apply ewp_bind, (ewp_mono _ (λ _, True)); [|apply reserved_total]. intros [t c] _.
  rewrite !orb_false_iff, negb_false_iff in Hk. destruct Hk as [[Hk _] _].
  unfold contains_key in Hk. destruct (g_nodes g !! p) as [n|]; [|done].
  apply ewp_bind, ewp_ok. by wp_step.
Qed.

Lemma outcome_refs_total seen refs : ewp (validate_outcome_refs seen refs) (λ _, True).
Proof.
  revert seen. induction refs as [|r refs IH]; intros seen; cbn [validate_outcome_refs]; [done|].
  apply ewp_bind, ewp_check; [apply identifier_total|intros _].
  apply ewp_bind, ewp_ok_or. intros dg _. apply ewp_bind, ewp_reject. intros _. apply IH.
Qed.

Lemma failed_spend_total g e : ewp (validate_failed_spend g e) (λ _, True).
Proof.
  destruct e as [id sp]. unfold validate_failed_spend. apply ewp_bind, ewp_check.
  - unfold validate_measured_spend.
    do 2 (apply ewp_bind, ewp_check; [apply identifier_total|intros _]).
    apply ewp_bind, ewp_reject. intros _. apply ewp_bind, ewp_check; [apply outcome_refs_total|intros _].
    by do 2 wp_step.
  - intros _. by do 2 wp_step.
Qed.

Lemma accepted_path_total g : ewp (validate_accepted_path g) (λ _, True).
Proof.
  unfold validate_accepted_path. apply ewp_bind, ewp_forM; [intros x; by wp_step|intros _].
  apply ewp_bind, (ewp_mono _ (λ _, True)).
  - intros s _. by wp_step.
  - unfold supported_path. apply (ewp_foldM _ (λ _ _, True)); [done| |done].
    intros r ys s _. destruct (_ && _); [|done]. by apply ewp_bind, lineage_total.
Qed.

Lemma chain_entry_total g e : ewp (validate_chain g e) (λ _, True).
Proof.
  destruct e as [c cb]. unfold validate_chain. apply ewp_bind, ewp_ok_or. intros rn _.
  apply ewp_bind, (ewp_foldM _ (λ _ _, True)); [done| |].
  - intros n ys t _. unfold chain_add_node. apply ewp_bind, lineage_total. intros l _.
    destruct (bool_decide _); [done|].
    do 4 (apply ewp_bind, ewp_u64_add; intros _). done.
  - intros t _. apply ewp_bind, (ewp_foldM _ (λ _ _, True)); [done| |].
    + intros [ch b] ys t' _. unfold chain_add_pending.
      destruct (g_pending_child_parents g !! ch) as [p|]; [|done].
      apply ewp_bind, lineage_total. intros l Hl. destruct (bool_decide _); [|done].
      assert (is_Some (g_nodes g !! p)) as [pn ->].
      { eapply path_up_dom; [exact Hl|]. apply path_up_head in Hl.
        destruct (reverse l); [done|]. injection Hl as ->. left. }
      apply ewp_bind, ewp_ok, ewp_bind, ewp_ok_or. intros dp _.
      do 2 (apply ewp_bind, ewp_u64_add; intros _). done.
    + intros t' _. by wp_step.
Qed.

Lemma validator_total g : ewp (validate_invariants g) (λ _, True).
Proof.
  unfold validate_invariants.
  apply ewp_bind, ewp_forM; [intros [i f]; unfold validate_reaped; by wp_step|intros _].
  apply ewp_bind, ewp_check; [apply optional_identifier_total|intros _].
  apply ewp_bind, ewp_check; [unfold validate_limits; by wp_step|intros _].
  apply ewp_bind, ewp_forM; [intros e; apply node_total|intros _].
  apply ewp_bind, ewp_forM; [intros e; apply child_index_total|intros _].
  apply ewp_bind, ewp_forM; [|intros _].
  { intros [c b]. unfold validate_pending. apply ewp_bind, ewp_check; [apply identifier_total|intros _].
    apply ewp_bind, ewp_check; [apply budget_total|intros _]. by wp_step. }
  apply ewp_bind, ewp_forM; [|intros _].
  { intros r. unfold validate_receipt_node. apply ewp_bind, ewp_check; [apply receipt_total|intros _].
    by do 2 wp_step. }
  apply ewp_bind, ewp_forM; [intros e; apply failed_spend_total|intros _].
  apply ewp_bind, ewp_check; [apply accepted_path_total|intros _].
  apply ewp_forM; [intros e; apply chain_entry_total|done].
Qed.
End validator.

(** ** What the validator accepts *)

(** A forest of at most 256 nodes within its limits, whose child index mirrors
    the parent links, whose budgets cover what is spent and what children hold,
    and whose fences are those of its nodes. *)
Record well_formed `{Blake3} (g : BoundedWorkGraph) : Prop := {
  wf_size : map_len (g_nodes g) ≤ MAX_GRAPH_NODES;
  wf_active : active_count g ≤ local_concurrency_limit g;
  wf_depth id n : g_nodes g !! id = Some n → wn_depth n ≤ g_max_depth g ≤ MAX_DEPTH;
  wf_key id n : g_nodes g !! id = Some n → wn_node_id n = id;
  wf_forest : ranked (g_nodes g);
  wf_children p c :
    c ∈ children_of g p ↔ ∃ n, g_nodes g !! c = Some n ∧ wn_parent_node_id n = Some p;
  wf_fan p : NoDup (children_of g p) ∧ vec_len (children_of g p) ≤ MAX_FAN_OUT;
  wf_spent d id n : g_nodes g !! id = Some n → used d (wn_budget n) ≤ alloc d (wn_budget n);
  wf_reserved p n : g_nodes g !! p = Some n → children_of g p ≠ [] →
    ∃ t c, reserved_child_budget g p None = Ok (t, c)
      ∧ t ≤ tokens_remaining (wn_budget n) ∧ c ≤ cost_remaining (wn_budget n);
  wf_fence id n f : g_nodes g !! id = Some n → wn_execution_fence n = Some f →
    f = execution_fence (g_graph_id g) n;
}.

Lemma exec_seq_Ok {E A} (x : exec E ()) (y : exec E A) a : (x;; y) = Ok a ↔ x = Ok () ∧ y = Ok a.
Proof.
  rewrite exec_bind_Ok. split; [by intros ([] & ? & ?)|]. intros [? ?]. by exists ().
Qed.

Lemma size_list_NoDup (l : list string) :
  Z.of_nat (size (list_to_set l : gset string)) = vec_len l → NoDup l.
Proof.
  unfold vec_len. intros Hs%Nat2Z.inj. induction l as [|x l IH]; [constructor|].
  cbn [list_to_set] in Hs. apply NoDup_cons.
  assert (size (list_to_set l : gset string) ≤ length l)%nat as Hle.
  { clear. induction l as [|y l IH]; [done|]. cbn [list_to_set length].
    pose proof (size_union_alt ({[y]} : gset string) (list_to_set l)) as Hu.
    pose proof (subseteq_size (list_to_set l ∖ {[y]}) (list_to_set l : gset string)) as Hd.
    specialize (Hd ltac:(set_solver)). rewrite size_singleton in Hu. lia. }
  destruct (decide (x ∈ l)) as [Hin|Hin].
  - exfalso. assert ({[x]} ∪ list_to_set l = (list_to_set l : gset string)) as E by set_solver.
    rewrite E in Hs. cbn [length] in Hs. lia.
  - split; [done|]. apply IH. rewrite size_union, size_singleton in Hs by set_solver.
    cbn [length] in Hs. lia.
Qed.

Section sound.
Context `{Blake3} {g : BoundedWorkGraph} (Hok : validate_invariants g = Ok ()).

Lemma validated_parts :
  validate_limits g = Ok ()
  ∧ (∀ id n, g_nodes g !! id = Some n → validate_node g (id, n) = Ok ())
  ∧ (∀ p cs, g_children g !! p = Some cs → validate_child_index g (p, cs) = Ok ()).
Proof using Hok.
  unfold validate_invariants in Hok. rewrite !exec_seq_Ok in Hok.
  destruct Hok as (_ & _ & Hl & Hn & Hc & _). split; [done|].
  rewrite forM__Ok in Hn. rewrite forM__Ok in Hc.
  split; intros; [apply Hn|apply Hc]; by apply elem_of_bt_iter.
Qed.

Lemma validated_node id n :
  g_nodes g !! id = Some n →
  validate_budget (wn_budget n) = Ok () ∧ wn_node_id n = id
  ∧ (∀ f, wn_execution_fence n = Some f → f = execution_fence (g_graph_id g) n)
  ∧ (∃ l, path_up (g_nodes g) id l ∧ wn_depth n + 1 = Z.of_nat (length l))
  ∧ wn_depth n ≤ g_max_depth g
  ∧ (∀ p, wn_parent_node_id n = Some p → id ∈ children_of g p).
Proof using Hok.
  intros Hn. destruct validated_parts as (_ & Hv & _). specialize (Hv id n Hn).
  unfold validate_node in Hv. rewrite !exec_seq_Ok in Hv. destruct Hv as (H1 & H2 & H3).
  unfold validate_node_context in H1. rewrite !exec_seq_Ok in H1.
  destruct H1 as (_ & _ & _ & _ & Hb & _). split; [done|].
  unfold validate_node_execution in H2. rewrite !exec_seq_Ok, !reject_if_Ok in H2.
  destruct H2 as (_ & _ & Hkey%bool_decide_eq_false & Hf & _). apply dec_stable in Hkey.
  split; [done|]. split.
  { intros f E. rewrite E in Hf. by apply bool_decide_eq_false, dec_stable in Hf. }
  unfold validate_node_structure in H3. apply exec_bind_Ok in H3 as (l & Hl & H3).
  rewrite !exec_seq_Ok, !reject_if_Ok, orb_false_iff, negb_false_iff, Z.eqb_eq, Z.ltb_ge in H3.
  destruct H3 as ([Hd Hm] & Hp & _). apply checked_lineage_Ok in Hl.
  split; [exists (reverse l); split; [done|by rewrite length_reverse]|]. split; [done|].
  intros p E. rewrite E in Hp. apply negb_false_iff in Hp. unfold children_of.
  destruct (g_children g !! p); [by apply bool_decide_eq_true in Hp|done].
Qed.

Lemma validated_children p cs :
  g_children g !! p = Some cs →
  is_Some (g_nodes g !! p) ∧ vec_len cs ≤ g_max_fan_out g ∧ NoDup cs
  ∧ (∀ c, c ∈ cs → ∃ n, g_nodes g !! c = Some n ∧ wn_parent_node_id n = Some p)
  ∧ ∀ n, g_nodes g !! p = Some n → ∃ t c, reserved_child_budget g p None = Ok (t, c)
      ∧ t ≤ tokens_remaining (wn_budget n) ∧ c ≤ cost_remaining (wn_budget n).
Proof using Hok.
  intros Hcs. destruct validated_parts as (_ & _ & Hv). specialize (Hv p cs Hcs).
  unfold validate_child_index in Hv. rewrite !exec_seq_Ok, reject_if_Ok in Hv.
  destruct Hv as (Hk & Hc & Hr). rewrite !orb_false_iff, !negb_false_iff, Z.ltb_ge, Z.eqb_eq in Hk.
  destruct Hk as ((Hp & Hlen) & Hnd). unfold contains_key in Hp.
  destruct (g_nodes g !! p) as [pn|]; [|done].
  split; [eauto|]. split; [done|]. split; [by apply size_list_NoDup|]. split.
  - intros c Hin. rewrite forM__Ok in Hc. specialize (Hc c Hin).
    apply reject_if_Ok, bool_decide_eq_false, dec_stable in Hc.
    destruct (g_nodes g !! c) as [n|]; [|done]. by exists n.
  - intros n [= ->]. apply exec_bind_Ok in Hr as ([t c] & Hres & Hr). cbn [expect] in Hr.
    rewrite exec_bind_ret, reject_if_Ok, orb_false_iff, !Z.ltb_ge in Hr. exists t, c. done.
Qed.

Lemma validated_well_formed : well_formed g.
Proof using Hok.
  destruct validated_parts as (Hl & _ & _).
  unfold validate_limits in Hl. rewrite reject_if_Ok, !orb_false_iff, !Z.ltb_ge in Hl.
  destruct Hl as [[[[[[[Hn _] Hfan] _] Hd] _] _] Ha].
  assert (∀ p c, c ∈ children_of g p → ∃ cs, g_children g !! p = Some cs ∧ c ∈ cs) as Hch.
  { intros p c Hc. unfold children_of in Hc. destruct (g_children g !! p) as [cs|]; [eauto|].
    by apply elem_of_nil in Hc. }
  split; try done.
  - intros id n Hid. by destruct (validated_node id n Hid) as (_ & _ & _ & _ & ? & _).
  - intros id n Hid. by destruct (validated_node id n Hid) as (_ & ? & _).
  - intros id n Hid. destruct (validated_node id n Hid) as (_ & _ & _ & (l & Hl & Hlen) & _).
    inversion Hl as [? n' Hn' Hp|? n' p l' Hn' Hp Hl']; subst; simplify_eq; rewrite Hp;
      cbn [length] in Hlen; (split; [lia|]); [lia|].
    assert (is_Some (g_nodes g !! p)) as [pn Hpn].
    { eapply path_up_dom; [exact Hl'|]. apply path_up_head in Hl'.
      destruct l'; [done|]. injection Hl' as ->. left. }
    exists pn. split; [done|].
    destruct (validated_node p pn Hpn) as (_ & _ & _ & (l2 & Hl2 & Hlen2) & _).
    rewrite (path_up_det _ _ _ _ Hl2 Hl') in Hlen2. lia.
  - intros p c. split.
    + intros (cs & Hcs & Hin)%Hch. destruct (validated_children p cs Hcs) as (_ & _ & _ & Hc & _).
      by apply Hc.
    + intros (n & Hid & Hp). destruct (validated_node c n Hid) as (_ & _ & _ & _ & _ & Hin).
      by apply Hin.
  - intros p. unfold children_of. destruct (g_children g !! p) as [cs|] eqn:E; cbn.
    + destruct (validated_children p cs E) as (_ & ? & ? & _). split; [done|lia].
    + by split; [constructor|].
  - intros d id n Hid. destruct (validated_node id n Hid) as (Hb & _).
    unfold validate_budget in Hb. rewrite reject_if_Ok, orb_false_iff, !Z.ltb_ge in Hb. destruct Hb. by destruct d.
  - intros p n Hp Hne. unfold children_of in Hne.
    destruct (g_children g !! p) as [cs|] eqn:E; [|done].
    destruct (validated_children p cs E) as (_ & _ & _ & _ & Hr). by apply Hr.
  - intros id n f Hid. destruct (validated_node id n Hid) as (_ & _ & Hf & _). apply Hf.
Qed.
End sound.
