(* ===== verification/GraphFacts.v ===== *)
(** * Work graph: properties of every reachable graph

    What holds of every graph that calls can build, whatever their order and
    outcome, and what each operation does to such a graph.  The witnesses run
    the operations on a small graph: a root, a child with a grandchild, a queued
    child and a reservation. *)
From S2P Require Import Prelude Wp BTree Sums Text Hashing Float64 BudgetCascade GraphModel.
From S2P Require Import ControlOps Validate GraphOps GraphLineage GraphTree Reserve Ledger GraphInv.
From S2P Require Import LocalUpdate PreserveLocal StopCascade Spend Receipts Growth.
From S2P Require Import Delegation Insertion Reach Reports Persisted.
#[local] Open Scope Z_scope.

(** ** A concrete run *)
Definition initial_budget (tokens cost : Z) : WorkNodeBudget := MkBudget tokens 0 cost 0.

Definition sample_setup : list call := [
  BindGraphId "graph";
  AddRoot "root" "lead" "capsule-root" (initial_budget 1000 500);
  ConfigureRootContext "root" "task" "policy" "expected";
  AllocateChildBudget "root" "a" (f64_round 1 (-1));
  QueueChild "root" "a" "worker-a" "capsule-a" (initial_budget 400 200);
  ConfigureChildContext "a" "task-a" "expected-a";
  SetPathClaims "a" ["path:src/b.rs"; "path:src/a.rs"];
  ClaimOrResume "a" 1000;
  Delegate "a" "b" "worker-b" "capsule-b" (initial_budget 100 50);
  QueueChild "root" "c" "worker-c" "capsule-c" (initial_budget 300 100);
  AllocateChildBudget "root" "d" (f64_round 1 (-2));
  ConsumeBudget "a" 40 10].

Lemma sample_budget_u64 t c : 0 ≤ t ≤ 1000 → 0 ≤ c ≤ 1000 → u64_budget (initial_budget t c).
Proof. intros Ht Hc []; unfold in_range, u64_max; cbn; lia. Qed.

Section sample.
#[local] Existing Instance sample_blake3.

Definition sample_graph : BoundedWorkGraph := run_calls sample_setup (new 4 3).

Lemma sample_callable : callable_all sample_setup (new 4 3).
Proof.
  assert (∀ t c, unspent (initial_budget t c)) as Hu by (by intros t c []).
  pose proof sample_budget_u64 as Hb.
  unfold sample_setup. repeat match goal with |- callable_all (_ :: _) _ => split end; cbn [callable]; try done;
    try (split; [by apply Hb|done]).
  - right. intros id n Hn. done.
  - split; [done|]. split; [|by vm_compute]. by intros [].
  - intros c n Hc. exfalso. revert Hc. vm_compute. by intros ?%elem_of_nil.
Qed.

Lemma sample_reachable : reachable sample_graph.
Proof. apply reach_calls; [apply reach_initial, initial_new|apply sample_callable]. Qed.

(** The node stored under a key of the sample graph. *)
Definition sample_node (id : string) : WorkNode :=
  default (fresh_node id "" None "" Pending zero_budget 0) (g_nodes sample_graph !! id).

Lemma sample_lookup id :
  bool_decide (is_Some (g_nodes sample_graph !! id)) = true →
  g_nodes sample_graph !! id = Some (sample_node id).
Proof. unfold sample_node. intros [n ->]%bool_decide_eq_true. done. Qed.

Definition sample_chain : ChainBudget :=
  default (MkChainBudget "" 0 0 0 0 0 0 0 0 0) (g_chain_budgets sample_graph !! "root").

Lemma sample_chain_lookup : g_chain_budgets sample_graph !! "root" = Some sample_chain.
Proof. by vm_compute. Qed.
End sample.

(** ** Why callers need rules

    [reachable] builds graphs by the calls of [callable] only.  The operations
    accept more than that, and the validator then rejects what they made: a root
    whose budget leaves no room for the totals of its chain, a node that starts
    spent, a root under the name of a reservation, a graph named after
    work was claimed, and a root whose context is set after its child's. *)
Definition accepted_but_invalid `{Blake3} (setup : list call) (c : call) : bool :=
  match validate_invariants (run_calls setup (new 4 3)), run_call c (run_calls setup (new 4 3)) with
  | Ok _, (g, Ok _) => match validate_invariants g with Err _ => true | _ => false end
  | _, _ => false
  end.

Definition root_call (b : WorkNodeBudget) : call := AddRoot "root" "lead" "capsule-root" b.

Example huge_root_needs_rule :
  accepted_but_invalid (H := sample_blake3) [root_call (initial_budget u64_max 500)]
    (QueueChild "root" "a" "worker-a" "capsule-a" (initial_budget 1 1)) = true.
Proof. by vm_compute. Qed.

Example spent_root_needs_rule :
  accepted_but_invalid (H := sample_blake3) [] (root_call (MkBudget 1000 1 500 0)) = true.
Proof. by vm_compute. Qed.

Example spent_child_needs_rule :
  accepted_but_invalid (H := sample_blake3) [root_call (initial_budget 1000 500)]
    (QueueChild "root" "a" "worker-a" "capsule-a" (MkBudget 400 10 200 0)) = true.
Proof. by vm_compute. Qed.

Example reserved_root_needs_rule :
  accepted_but_invalid (H := sample_blake3)
    [root_call (initial_budget 1000 500); AllocateChildBudget "root" "a" (f64_round 1 (-1))]
    (AddRoot "a" "lead" "capsule-a" (initial_budget 10 5)) = true.
Proof. by vm_compute. Qed.

Example late_name_needs_rule :
  accepted_but_invalid (H := sample_blake3)
    [root_call (initial_budget 1000 500);
     QueueChild "root" "a" "worker-a" "capsule-a" (initial_budget 400 200); ClaimOrResume "a" 1000]
    (BindGraphId "graph") = true.
Proof. by vm_compute. Qed.

Example late_root_context_needs_rule :
  accepted_but_invalid (H := sample_blake3)
    [root_call (initial_budget 1000 500); ConfigureRootContext "root" "task" "policy" "expected";
     QueueChild "root" "a" "worker-a" "capsule-a" (initial_budget 400 200);
     ConfigureChildContext "a" "task-a" "expected-a"]
    (ConfigureRootContext "root" "task" "policy-2" "expected") = true.
Proof. by vm_compute. Qed.

(** ** The whole graph *)

(** C1: take any graph that calls build from a new one, in any order and whether
    they succeed or fail, where the callers keep the rules of [callable], which
    the operations do not check: initial budgets are unspent; a root's budget is
    at most the 512th part of the largest u64, of tokens and of cost, and its
    name is not that of a pending reservation; a graph gets its name before work
    is claimed; a root's context is set before its children's.  Every such graph
    passes the validator that guards persisted graphs: for these callers the
    checks made before each change are enough to keep all of its invariants.
    The Examples above show that a caller who breaks a rule can make a graph the
    validator rejects. *)
Theorem reachable_validates `{Blake3} g : reachable g → validate_invariants g = Ok ().
Proof. intros Hg. by apply graph_inv_validates, reachable_inv. Qed.

Lemma reachable_validates_witness :
  validate_invariants (H := sample_blake3) sample_graph = Ok () ∧ map_len (g_nodes sample_graph) = 4.
Proof.
  split; [|by vm_compute]. apply (reachable_validates (H := sample_blake3) sample_graph).
  apply sample_reachable.
Defined.

(** C16: on a graph that calls under the rules of C1 have built, no call panics
    or loops and a call that fails leaves the graph untouched, whether or not it
    keeps those rules itself (its amounts need only be u64s); a call that
    succeeds and keeps them leaves a graph that is reachable and valid again.
    One that succeeds and breaks them (a root budget too large to add up, a
    budget already spent, a root named like a reservation, a late graph name or
    root context) is promised nothing more. *)
Theorem call_atomic `{Blake3} g c :
  reachable g → u64_call c →
  match run_call c g with
  | (g', Ok _) => callable g c → reachable g' ∧ validate_invariants g' = Ok ()
  | (g', Err _) => g' = g
  | (_, Panic) | (_, Hang) => False
  end.
Proof.
  intros Hg Hc. pose proof (run_call_atomic g c (reachable_inv g Hg) Hc) as Hp. unfold wp in Hp.
  pose proof (reach_call g c Hg) as Hr. destruct (run_call c g) as [g' []]; try done.
  intros Hk. specialize (Hr Hk). split; [done|]. by apply graph_inv_validates, reachable_inv.
Qed.

Definition greedy_call : call := Delegate "a" "e" "worker-e" "capsule-e" (initial_budget 500 1).

Definition modest_call : call := Delegate "a" "e" "worker-e" "capsule-e" (initial_budget 100 1).

(** Delegating more than is left fails and leaves the graph alone; delegating
    less succeeds and leaves a valid graph. *)
Lemma call_atomic_witness :
  (run_call (H := sample_blake3) greedy_call sample_graph).2 = Err (BudgetExceedsParent 500 260)
  ∧ (run_call (H := sample_blake3) greedy_call sample_graph).1 = sample_graph
  ∧ (run_call (H := sample_blake3) modest_call sample_graph).2 = Ok ()
  ∧ validate_invariants (H := sample_blake3)
      (run_call (H := sample_blake3) modest_call sample_graph).1 = Ok ().
Proof.
  assert (u64_call greedy_call) as Hg by (apply sample_budget_u64; lia).
  assert (u64_call modest_call) as Hm by (apply sample_budget_u64; lia).
  assert ((run_call (H := sample_blake3) greedy_call sample_graph).2 = Err (BudgetExceedsParent 500 260))
    as Eg by by vm_compute.
  assert ((run_call (H := sample_blake3) modest_call sample_graph).2 = Ok ()) as Em by by vm_compute.
  pose proof (call_atomic (H := sample_blake3) sample_graph greedy_call sample_reachable Hg) as Ag.
  pose proof (call_atomic (H := sample_blake3) sample_graph modest_call sample_reachable Hm) as Am.
  split; [exact Eg|]. split; [|split; [exact Em|]].
  - destruct (run_call (H := sample_blake3) greedy_call sample_graph) as [g r].
    cbn [fst snd] in *. subst r. exact Ag.
  - destruct (run_call (H := sample_blake3) modest_call sample_graph) as [g r].
    cbn [fst snd] in *. subst r. apply Am. split; [exact Hm|]. intros []; reflexivity.
Defined.

(** C5: what a node's descendants hold, recomputed by the worklist of
    [reserved_child_budget], is exactly the sum over its children of their
    allocations, or, once a measured receipt settled them, of their consumption
    and what their own descendants still hold, and of the pending reservations
    made at the node; and it never exceeds what the node has left. *)
Theorem claims_covered `{Blake3} g p n :
  reachable g → g_nodes g !! p = Some n →
  reserved_child_budget g p None = Ok (claimed Tokens g p, claimed Cost g p)
  ∧ ∀ d, claimed d g p
      = zsum ((λ c, direct d g c + if settled_at g c then claimed d g c else 0) <$> children_of g p)
        + msum (λ c b, if bool_decide (g_pending_child_parents g !! c = Some p) then alloc d b else 0)
            (g_pending_child_budgets g)
    ∧ claimed d g p ≤ remaining d (wn_budget n).
Proof.
  intros Hg Hn. apply reachable_inv in Hg as Hi. split; [by apply inv_reserved|]. intros d.
  split; [|by apply inv_claimed]. unfold claimed at 1. rewrite (reserve_unfold (inv_tree _ Hi)). f_equal.
  - apply zsum_ext. intros c _. unfold share. rewrite skipped_None. f_equal.
    destruct (settled_at g c); [|done]. apply held_None.
  - apply msum_ext. intros c b _. unfold pending_entry. rewrite skipped_None. cbn [orb].
    destruct (decide (g_pending_child_parents g !! c = Some p)).
    + by rewrite bool_decide_eq_false_2, bool_decide_eq_true_2 by auto.
    + by rewrite bool_decide_eq_true_2, bool_decide_eq_false_2 by auto.
Qed.

Lemma claims_covered_witness :
  claimed Tokens sample_graph "root" = 950 ∧ claimed Tokens sample_graph "root" ≤ 1000.
Proof.
  assert (g_nodes sample_graph !! "root" = Some (sample_node "root")) as Hn
    by (apply sample_lookup; by vm_compute).
  pose proof (claims_covered (H := sample_blake3) sample_graph "root" _ sample_reachable Hn) as [_ Hc].
  split; [by vm_compute|]. etrans; [apply (Hc Tokens)|]. by vm_compute.
Defined.

(** C31: in a graph that calls have built, in any order and whether they succeeded
    or failed, of callers that keep the rules of [callable] (unspent initial
    budgets; roots of at most the 512th part of the largest u64, under no
    reservation's name; a graph named before work is claimed; a root's context set
    before its children's), the record of every chain agrees with the graph: it
    belongs to a root, its totals are the sums over the chain's nodes and
    reservations, computed without overflow or saturation, and what the whole
    chain consumed is within the root's own budget. *)
Theorem chain_record_exact `{Blake3} g c cb d :
  reachable g → g_chain_budgets g !! c = Some cb →
  (∃ n, g_nodes g !! c = Some n ∧ wn_parent_node_id n = None ∧ chain_root d cb = alloc d (wn_budget n))
  ∧ chain_spent d cb
      = msum (λ id n, if bool_decide (root_of g id = Some c) then used d (wn_budget n) else 0) (g_nodes g)
  ∧ chain_total d cb
      = msum (λ id n, if bool_decide (root_of g id = Some c) then alloc d (wn_budget n) else 0) (g_nodes g)
        + msum (λ ch b, if bool_decide ((g_pending_child_parents g !! ch ≫= root_of g) = Some c)
                        then alloc d b else 0) (g_pending_child_budgets g)
  ∧ chain_spent d cb ≤ chain_root d cb ∧ chain_total d cb ≤ u64_max ∧ chain_over d cb = 0.
Proof.
  intros Hg Hc. apply reachable_inv in Hg as Hi.
  destruct (inv_chains _ Hi _ _ Hc) as [_ (n & Hn & Hp & Hr) H3 H4 H5 _ H7 H8].
  split; [exists n; auto|]. split; [by rewrite H4|]. split; [|done].
  rewrite H3. unfold chain_allocated. f_equal. apply msum_ext. intros ch b _.
  unfold pending_allocated, pending_in_chain.
  destruct (g_pending_child_parents g !! ch); [done|]. cbn. by rewrite bool_decide_eq_false_2.
Qed.

Lemma chain_record_exact_witness :
  chain_spent Tokens sample_chain = 40 ∧ chain_spent Tokens sample_chain ≤ chain_root Tokens sample_chain.
Proof.
  pose proof (chain_record_exact (H := sample_blake3) sample_graph "root" sample_chain Tokens
    sample_reachable sample_chain_lookup) as (_ & _ & _ & Hle & _).
  split; [by vm_compute|exact Hle].
Defined.

(** ** Persisted graphs *)

(** The validator of persisted graphs terminates without panic on every
    graph whatsoever, cycles, dangling links and inconsistent indexes
    included; and a graph it accepts is a forest of at most 256 nodes with exact
    depths, an index that mirrors the parent links, covered budgets and
    unforged fences. *)
Theorem validator_decides `{Blake3} g :
  match validate_invariants g with
  | Ok _ => well_formed g
  | Err _ => True
  | Panic | Hang => False
  end.
Proof.
  pose proof (validator_total g) as Ht. destruct (validate_invariants g) as [[]|e| |] eqn:Hv; try done.
  by apply validated_well_formed.
Qed.

(** The lineage walk of any node of any graph ends: with the path from the
    root to the node, each linked to the next, or with an error when the links
    run in a cycle or leave the graph. *)
Theorem checked_lineage_path_or_error g id :
  match checked_lineage g id with
  | Ok lineage => path_up (g_nodes g) id (reverse lineage) ∧ NoDup lineage
  | Err _ => ¬ ∃ l, path_up (g_nodes g) id l
  | Panic | Hang => False
  end.
Proof.
  destruct (checked_lineage_total g id) as [H1 H2].
  destruct (checked_lineage g id) as [l|e| |] eqn:E; try done.
  - apply checked_lineage_Ok in E. split; [done|]. apply path_up_NoDup in E.
    by rewrite <-(reverse_Permutation l).
  - intros [l Hl]. apply checked_lineage_path in Hl. congruence.
Qed.
