(* ===== verification/OperationFacts.v ===== *)
(** * Work graph: what each operation does

    For every operation of a reachable graph: when exactly it succeeds, what it
    changes, and that a failure changes nothing. *)
From S2P Require Import Prelude Wp BTree Sums Text Hashing Float64 BudgetCascade GraphModel.
From S2P Require Import ControlOps Validate GraphOps GraphLineage GraphTree Reserve Ledger GraphInv.
From S2P Require Import LocalUpdate PreserveLocal StopCascade Spend Receipts Growth.
From S2P Require Import Delegation Insertion Reach Reports Persisted GraphFacts.
#[local] Open Scope Z_scope.

(** ** Spending *)

(** [consume_budget] succeeds exactly when the node is active and the
    amounts fit in what it has left beside its descendants' claims and in what
    its chain has left; it then adds exactly the amounts to both and stops, with
    the reason [BudgetExhausted], the whole chain if the root's budget is used
    up, else the node if its own allocation is, and reports whether it stopped
    anything. *)
Theorem consume_budget_spec `{Blake3} g id tokens cost :
  reachable g → 0 ≤ tokens → 0 ≤ cost →
  match consume_budget id tokens cost g with
  | (g', Ok r) => consumed_post g id tokens cost r g'
  | (g', Err _) => g' = g ∧ ¬ ∃ root n cb, consumable g id root n cb tokens cost
  | (_, Panic) | (_, Hang) => False
  end.
Proof.
  intros Hg Ht Hc. pose proof (consume_spec g id tokens cost (reachable_inv g Hg) Ht Hc) as Hw.
  unfold wp in Hw. destruct (consume_budget id tokens cost g) as [g' []]; [apply Hw|done..].
Qed.

Lemma consume_budget_spec_witness :
  (consume_budget "b" 100 10 sample_graph).2 = Ok true
  ∧ match consume_budget "b" 100 10 sample_graph with
    | (g', Ok r) => consumed_post sample_graph "b" 100 10 r g'
    | (g', Err _) => g' = sample_graph ∧ ¬ ∃ root n cb, consumable sample_graph "b" root n cb 100 10
    | (_, Panic) | (_, Hang) => False
    end.
Proof.
  split; [by vm_compute|].
  exact (consume_budget_spec (H := sample_blake3) sample_graph "b" 100 10 sample_reachable
    ltac:(lia) ltac:(lia)).
Defined.

(** The fields [record_child_receipt] sets. *)
Definition status_of_outcome (o : ChildOutcome) : NodeStatus :=
  match o with Rejected => Failed | _ => Completed end.

(** A receipt the node and its chain can pay. *)
Definition payable (g : BoundedWorkGraph) (r : ChildExecutionReceipt) (n : WorkNode) (root : string)
    (cb : ChainBudget) : Prop :=
  receivable g r n ∧ root_of g (rc_node_id r) = Some root ∧ g_chain_budgets g !! root = Some cb
  ∧ ∀ d, chain_spent d cb + (receipt_used d r - used d (wn_budget n)) ≤ chain_root d cb.

(** What recording it changes. *)
Definition recorded (g g' : BoundedWorkGraph) (r : ChildExecutionReceipt) : Prop :=
  ∃ n n' root cb cb', payable g r n root cb
    ∧ g_nodes g' = <[rc_node_id r := n']> (g_nodes g)
    ∧ wn_status n' = status_of_outcome (rc_outcome r)
    ∧ wn_outcome_ref n' = Some (rc_outcome_ref r)
    ∧ (∀ d, used d (wn_budget n') = receipt_used d r ∧ alloc d (wn_budget n') = alloc d (wn_budget n))
    ∧ g_receipts g' = <[rc_receipt_id r := r]> (g_receipts g)
    ∧ g_chain_budgets g' = <[root := cb']> (g_chain_budgets g)
    ∧ ∀ d, chain_spent d cb' = chain_spent d cb + (receipt_used d r - used d (wn_budget n)).

(** [record_child_receipt] succeeds exactly on a well-formed receipt, the
    first for its node, that names an active child, carries its execution fence,
    reports no less than was consumed and no more than the node and its chain
    can pay; it then finishes the node with the reported outcome and
    consumption, charges the chain with the difference and stores the
    receipt. *)
Theorem record_receipt_spec `{Blake3} g r :
  reachable g →
  match record_child_receipt r g with
  | (g', Ok _) => recorded g g' r
  | (g', Err _) => g' = g ∧ ¬ ∃ n root cb, payable g r n root cb
  | (_, Panic) | (_, Hang) => False
  end.
Proof.
  intros Hg. pose proof (reachable_inv g Hg) as Hi. pose proof (record_spec g r Hi) as Hw.
  unfold wp in Hw. destruct (record_child_receipt r g) as [g' []]; try done.
  destruct Hw as (_ & n & root & cb & Hr & Hroot & Hcb & Hch & ->).
  destruct (finished_graph_inv g r root n cb Hi Hr Hroot Hcb Hch) as [_ Hu].
  exists n, (ended (settle_node r n)), root, cb.
  exists (set_chain_consumed (chain_spent Tokens cb + receipt_delta r n Tokens)
            (chain_spent Cost cb + receipt_delta r n Cost) cb).
  split; [done|]. split; [exact (upd_nodes _ _ _ _ _ Hu)|]. repeat split.
  - rewrite (ended_field wn_status) by done. by destruct r as [? ? ? [] ? ? ? ? ?].
  - by rewrite (ended_field wn_outcome_ref).
  - rewrite (ended_field wn_budget) by done. by destruct d.
  - rewrite (ended_field wn_budget) by done. by destruct d.
  - change (<[rc_receipt_id r := r]> (g_receipts (finished_graph g r root n cb))
      = <[rc_receipt_id r := r]> (g_receipts g)). by rewrite (upd_receipts _ _ _ _ _ Hu).
  - unfold received_graph, finished_graph. cbn.
    destruct (end_incarnation_update g (rc_node_id r) n (settle_node r) (rcv_node _ _ _ Hr)
      (settle_node_shape r n)) as (_ & -> & _).
    by apply (alter_alt_Some _ _ _ cb).
  - by intros [].
Qed.

Definition sample_receipt : ChildExecutionReceipt :=
  MkReceipt "receipt-a" "a" "outcome-a" Accepted 200 100
    (wn_execution_fence (sample_node "a")) [MkResultClaim "answer" "42"] Measured.

(** The receipt of the running child is recorded and spends 160 more tokens. *)
Lemma record_receipt_spec_witness :
  (record_child_receipt sample_receipt sample_graph).2 = Ok ()
  ∧ match record_child_receipt sample_receipt sample_graph with
    | (g', Ok _) => recorded sample_graph g' sample_receipt
    | (g', Err _) => g' = sample_graph
        ∧ ¬ ∃ n root cb, payable sample_graph sample_receipt n root cb
    | (_, Panic) | (_, Hang) => False
    end.
Proof.
  split; [by vm_compute|].
  exact (record_receipt_spec (H := sample_blake3) sample_graph sample_receipt sample_reachable).
Defined.

(** In a reachable graph each child has at most one receipt; it belongs to
    a finished child, states that child's consumption and, when the child was
    claimed, carries the fence of that claim, so a receipt of an earlier claim
    or a second receipt was never accepted. *)
Theorem receipts_match_nodes `{Blake3} g k r :
  reachable g → g_receipts g !! k = Some r →
  (∀ k' r', g_receipts g !! k' = Some r' → rc_node_id r' = rc_node_id r → k' = k)
  ∧ ∃ n, g_nodes g !! rc_node_id r = Some n ∧ is_Some (wn_parent_node_id n)
    ∧ (wn_status n = Completed ∨ wn_status n = Failed)
    ∧ (∀ d, used d (wn_budget n) = receipt_used d r)
    ∧ ∀ f, wn_execution_fence n = Some f → rc_execution_fence r = Some f.
Proof.
  intros Hg Hk. apply reachable_inv in Hg as Hi. split.
  - intros k' r' Hk' E. by eapply (inv_receipt_unique _ Hi).
  - destruct (receipt_node _ _ (inv_receipts _ Hi _ _ Hk)) as (n & Hn & Hp & Hf & Hu & Hfe).
    exists n. do 4 (split; [done|]). intros f Ef. rewrite Hfe by eauto. done.
Qed.

(** The sample graph with its receipt recorded and its path accepted. *)
Definition finished_calls : list call := [RecordReceipt sample_receipt; MarkAccepted ["a"]].
Definition finished_sample : BoundedWorkGraph := run_calls (H := sample_blake3) finished_calls sample_graph.

Lemma finished_reachable : reachable (H := sample_blake3) finished_sample.
Proof. apply (reach_calls (H := sample_blake3) finished_calls); [apply sample_reachable|done]. Qed.

Lemma receipts_match_nodes_witness :
  g_receipts finished_sample !! "receipt-a" = Some sample_receipt
  ∧ ∃ n, g_nodes finished_sample !! "a" = Some n ∧ used Tokens (wn_budget n) = 200.
Proof.
  assert (g_receipts finished_sample !! "receipt-a" = Some sample_receipt) as Hk by by vm_compute.
  split; [exact Hk|].
  pose proof (receipts_match_nodes (H := sample_blake3) finished_sample "receipt-a" sample_receipt
    finished_reachable Hk) as (_ & n & Hn & _ & _ & Hu & _).
  exists n. split; [exact Hn|]. exact (Hu Tokens).
Defined.

(** ** Delegating *)

(** What adding a child changes. *)
Definition inserted (g g' : BoundedWorkGraph) (parent child agent capsule : string)
    (b : WorkNodeBudget) (status : NodeStatus) (r : WorkNode) : Prop :=
  ∃ depth pn root cb cb', insertable g parent child agent capsule b status depth pn
    ∧ r = fresh_node child agent (Some parent) capsule status b depth
    ∧ g_nodes g' = <[child := r]> (g_nodes g)
    ∧ g_children g' = <[parent := children_of g parent ++ [child]]> (g_children g)
    ∧ g_pending_child_budgets g' = delete child (g_pending_child_budgets g)
    ∧ root_of g parent = Some root ∧ g_chain_budgets g !! root = Some cb
    ∧ g_chain_budgets g' = <[root := cb']> (g_chain_budgets g)
    ∧ ∀ d, chain_total d cb' = chain_total d cb + alloc d b
        - alloc d (default zero_budget (g_pending_child_budgets g !! child)).

(** [insert_child], behind [delegate] and [queue_child], succeeds exactly
    when the graph has room, the identifiers and the budget are well formed, the
    name is free or reserved by this parent, the parent is active, above the
    depth limit and within its fan-out, what it has left beside its other
    children covers the child, and an active child finds a free slot; it then
    adds exactly the child, takes the reservation over and moves the chain's
    total by the difference. *)
Theorem insert_child_spec `{Blake3} g parent child agent capsule b status :
  reachable g → u64_budget b → unspent b →
  match insert_child parent child agent capsule b status g with
  | (g', Ok r) => inserted g g' parent child agent capsule b status r
  | (g', Err _) => g' = g ∧ ¬ ∃ depth pn, insertable g parent child agent capsule b status depth pn
  | (_, Panic) | (_, Hang) => False
  end.
Proof.
  intros Hg Hu Hun. pose proof (reachable_inv g Hg) as Hi.
  pose proof (insert_spec g parent child agent capsule b status Hi Hu Hun) as Hw. unfold wp in Hw.
  destruct (insert_child parent child agent capsule b status g) as [g' []]; try done.
  destruct Hw as (Hi' & depth & pn & root & Hins & Hroot & -> & ->).
  destruct (node_chain g parent pn Hi (ins_parent _ _ _ _ _ _ _ _ _ Hins))
    as (root' & cb & _ & Hroot' & Hcb & Hcok). assert (root' = root) as -> by congruence.
  exists depth, pn, root, cb, (grown_chain (reserved_before (g := g) (child := child)) (λ d, alloc d b) depth cb).
  do 5 (split; [done|]). split; [done|]. split; [done|].
  assert (g_chain_budgets (inserted_graph (g := g) (parent := parent) (child := child) (agent := agent)
    (capsule := capsule) (b := b) (status := status) (depth := depth) (root := root))
    = <[root := grown_chain (reserved_before (g := g) (child := child)) (λ d, alloc d b) depth cb]>
        (g_chain_budgets g)) as Ec by by apply (alter_alt_Some _ _ _ cb).
  split; [exact Ec|]. intros d.
  assert (chain_ok (inserted_graph (g := g) (parent := parent) (child := child) (agent := agent)
    (capsule := capsule) (b := b) (status := status) (depth := depth) (root := root)) root
    (grown_chain (reserved_before (g := g) (child := child)) (λ d, alloc d b) depth cb)) as Hok.
  { apply (inv_chains _ Hi'). by rewrite Ec, lookup_insert_eq. }
  rewrite (chain_total_ok _ _ _ Hok), (chain_total_ok _ _ _ Hcok).
  rewrite (inserted_allocated Hi Hins Hroot), decide_True by done. unfold reserved_before. lia.
Qed.

Definition sample_child : WorkNodeBudget := initial_budget 20 10.

Lemma sample_child_ok : u64_budget sample_child ∧ unspent sample_child.
Proof. split; [|by intros []]. intros []; unfold in_range, u64_max; cbn; lia. Qed.

(** A queued child that takes over the reservation under its name. *)
Lemma insert_child_spec_witness :
  (insert_child "root" "d" "worker-d" "capsule-d" sample_child Pending sample_graph).2
    = Ok (fresh_node "d" "worker-d" (Some "root") "capsule-d" Pending sample_child 1)
  ∧ match insert_child "root" "d" "worker-d" "capsule-d" sample_child Pending sample_graph with
    | (g', Ok r) => inserted sample_graph g' "root" "d" "worker-d" "capsule-d"
                      sample_child Pending r
    | (g', Err _) => g' = sample_graph ∧ ¬ ∃ depth pn, insertable sample_graph
        "root" "d" "worker-d" "capsule-d" sample_child Pending depth pn
    | (_, Panic) | (_, Hang) => False
    end.
Proof.
  split; [by vm_compute|].
  exact (insert_child_spec (H := sample_blake3) sample_graph "root" "d" "worker-d" "capsule-d"
    sample_child Pending sample_reachable (proj1 sample_child_ok) (proj2 sample_child_ok)).
Defined.

(** What a reservation changes. *)
Definition reserved (g g' : BoundedWorkGraph) (parent child : string) (b : WorkNodeBudget) : Prop :=
  ∃ depth pn root cb cb', reservable g parent child b depth pn
    ∧ g_nodes g' = g_nodes g ∧ g_children g' = g_children g
    ∧ g_pending_child_budgets g' = <[child := b]> (g_pending_child_budgets g)
    ∧ g_pending_child_parents g' = <[child := parent]> (g_pending_child_parents g)
    ∧ root_of g parent = Some root ∧ g_chain_budgets g !! root = Some cb
    ∧ g_chain_budgets g' = <[root := cb']> (g_chain_budgets g)
    ∧ ∀ d, chain_total d cb' = chain_total d cb + alloc d b.

(** Whatever the fraction is (negative, above one, infinite or NaN),
    [allocate_child_budget] reserves, under a name that is free, for an active
    parent above the depth limit, an unspent budget of at least one token that
    fits in what the parent has left beside its other children, and charges the
    chain's total with it; else it fails and changes nothing. *)
Theorem allocate_child_budget_spec `{Blake3} g parent child fraction :
  reachable g →
  match allocate_child_budget parent child fraction g with
  | (g', Ok b) => reserved g g' parent child b
  | (g', Err _) => g' = g
  | (_, Panic) | (_, Hang) => False
  end.
Proof.
  intros Hg. pose proof (reachable_inv g Hg) as Hi.
  pose proof (allocate_spec g parent child fraction Hi) as Hw. unfold wp in Hw.
  destruct (allocate_child_budget parent child fraction g) as [g' [b|e| |]]; try done.
  destruct Hw as (Hi' & depth & pn & root & Hr & Hroot & ->).
  destruct (node_chain g parent pn Hi (rsv_parent _ _ _ _ _ _ Hr)) as (root' & cb & _ & Hroot' & Hcb & Hcok).
  assert (root' = root) as -> by congruence.
  exists depth, pn, root, cb, (grown_chain (λ _, 0) (λ d, alloc d b) depth cb).
  do 7 (split; [done|]).
  assert (g_chain_budgets (reserved_graph (g := g) (parent := parent) (child := child) (b := b)
    (depth := depth) (root := root))
    = <[root := grown_chain (λ _, 0) (λ d, alloc d b) depth cb]> (g_chain_budgets g)) as Ec
    by by apply (alter_alt_Some _ _ _ cb).
  split; [exact Ec|]. intros d.
  assert (chain_ok (reserved_graph (g := g) (parent := parent) (child := child) (b := b) (depth := depth)
    (root := root)) root (grown_chain (λ _, 0) (λ d, alloc d b) depth cb)) as Hok.
  { apply (inv_chains _ Hi'). by rewrite Ec, lookup_insert_eq. }
  rewrite (chain_total_ok _ _ _ Hok), (chain_total_ok _ _ _ Hcok).
  rewrite (reserved_allocated Hi Hr Hroot), decide_True by done. lia.
Qed.

(** Half of the root's tokens are asked for, the 50 it has left are reserved. *)
Lemma allocate_child_budget_spec_witness :
  (allocate_child_budget "root" "e" (f64_round 1 (-1)) sample_graph).2 = Ok (MkBudget 50 0 75 0)
  ∧ match allocate_child_budget "root" "e" (f64_round 1 (-1)) sample_graph with
    | (g', Ok b) => reserved sample_graph g' "root" "e" b
    | (g', Err _) => g' = sample_graph
    | (_, Panic) | (_, Hang) => False
    end.
Proof.
  split; [by vm_compute|].
  exact (allocate_child_budget_spec (H := sample_blake3) sample_graph "root" "e" (f64_round 1 (-1))
    sample_reachable).
Defined.

(** ** Stopping *)

(** C34: [stop] closes a node and everything delegated below it, and nothing
    else: the returned list names each open node of that subtree once, the node
    itself stopped with the given reason and every descendant with
    [ParentStopped]; nodes already finished, nodes outside the subtree, budgets,
    receipts and reservations stay.  It fails only on an unknown node. *)
Theorem stop_closes_subtree `{Blake3} g id reason :
  reachable g →
  match stop id reason g with
  | (g', Ok l) => is_Some (g_nodes g !! id) ∧ stop_frame g g'
      ∧ stops g g' (below g id) (λ x, if decide (x = id) then reason else ParentStopped) l
      ∧ ∀ x n, below g id x → g_nodes g' !! x = Some n → open_node n = false
  | (g', Err e) => g' = g ∧ g_nodes g !! id = None ∧ e = NodeNotFound id
  | (_, Panic) | (_, Hang) => False
  end.
Proof.
  intros Hg. pose proof (stop_spec g id reason (reachable_inv g Hg)) as Hw. unfold wp in Hw.
  destruct (stop id reason g) as [g' [l|e| |]] eqn:Hrun; try done.
  - destruct Hw as (_ & Hf & Hs & Hst). do 3 (split; [done|]). intros x n Hx Hn.
    destruct (decide (x ∈ l)) as [Hl|Hl].
    + destruct (st_in _ _ _ _ _ Hst x Hl) as (n0 & _ & _ & Hg'). simplify_eq. apply stop_result_closed.
    + destruct (open_node n) eqn:Ho; [|done]. exfalso. apply Hl.
      rewrite (st_out _ _ _ _ _ Hst) in Hn by done. by eapply (st_all _ _ _ _ _ Hst).
  - destruct Hw as [-> Hn]. split; [done|]. split; [done|].
    assert (stop id reason g = (g, Err (NodeNotFound id))) as E; [|congruence].
    unfold stop, contains_key, mbind, op_mbind, op_bind, get, lift. by rewrite Hn.
Qed.

Lemma stop_closes_subtree_witness :
  (stop "a" ManualStop sample_graph).2 = Ok ["a"; "b"]
  ∧ match stop "a" ManualStop sample_graph with
    | (g', Ok l) => is_Some (g_nodes sample_graph !! "a") ∧ stop_frame sample_graph g'
        ∧ stops sample_graph g' (below sample_graph "a")
            (λ x, if decide (x = "a") then ManualStop else ParentStopped) l
        ∧ ∀ x n, below sample_graph "a" x → g_nodes g' !! x = Some n → open_node n = false
    | (g', Err e) => g' = sample_graph ∧ g_nodes sample_graph !! "a" = None ∧ e = NodeNotFound "a"
    | (_, Panic) | (_, Hang) => False
    end.
Proof.
  split; [by vm_compute|].
  exact (stop_closes_subtree (H := sample_blake3) sample_graph "a" ManualStop sample_reachable).
Defined.

(** [enforce_stop_conditions] never fails: it closes every active node whose
    allocation is used up, with everything below it, and nothing else; it
    reports each closed node once, and leaves no active node exhausted. *)
Theorem enforce_stops_exhausted `{Blake3} g :
  reachable g →
  match enforce_stop_conditions g with
  | (g', Ok r) => stop_frame g g' ∧ NoDup r.*1
      ∧ (∀ x n, x ∈ r.*1 → g_nodes g !! x = Some n → open_node n = true ∧
           ∃ id, exhausted_at g id ∧ below g id x)
      ∧ (∀ id x n, exhausted_at g id → below g id x → g_nodes g' !! x = Some n → open_node n = false)
      ∧ (∀ x, x ∉ r.*1 → g_nodes g' !! x = g_nodes g !! x)
      ∧ ∀ id, ¬ exhausted_at g' id
  | _ => False
  end.
Proof.
  intros Hg. pose proof (enforce_spec g (reachable_inv g Hg)) as Hw. unfold wp in Hw.
  destruct (enforce_stop_conditions g) as [g' [r|e| |]]; try done. destruct Hw as [_ He].
  pose proof He as (Hf & why & l & -> & Hs).
  assert (((λ id, (id, BudgetExhausted)) <$> l).*1 = l) as ->.
  { rewrite <-list_fmap_compose. apply list_fmap_id. }
  split; [done|]. split; [apply Hs|]. split; [|split; [|split; [apply Hs|]]].
  - intros x n Hx Hn. split; [|by apply (st_hit _ _ _ _ _ Hs)].
    destruct (st_in _ _ _ _ _ Hs x Hx) as (m & Hm & Ho & _). by simplify_eq.
  - intros id x n Hid Hx Hn. destruct (decide (x ∈ l)) as [Hl|Hl].
    + destruct (st_in _ _ _ _ _ Hs x Hl) as (n0 & _ & _ & Hg'). simplify_eq. apply stop_result_closed.
    + destruct (open_node n) eqn:Ho; [|done]. exfalso. apply Hl.
      rewrite (st_out _ _ _ _ _ Hs) in Hn by done. eapply (st_all _ _ _ _ _ Hs); eauto.
  - intros id. by eapply enforced_none.
Qed.

(** The root of the second chain has no tokens left to give. *)
Definition starved_calls : list call := [
  AddRoot "poor" "lead" "capsule-p" (initial_budget 0 5)].
Definition starved_sample : BoundedWorkGraph := run_calls (H := sample_blake3) starved_calls sample_graph.

Lemma starved_reachable : reachable (H := sample_blake3) starved_sample.
Proof.
  apply (reach_calls (H := sample_blake3) starved_calls); [apply sample_reachable|].
  split; [|done]. split; [by intros []|]. split; [by intros []|by vm_compute].
Qed.

Lemma enforce_stops_exhausted_witness :
  (enforce_stop_conditions starved_sample).2 = Ok [("poor", BudgetExhausted)]
  ∧ match enforce_stop_conditions starved_sample with
    | (g', Ok r) => stop_frame starved_sample g' ∧ NoDup r.*1
        ∧ (∀ x n, x ∈ r.*1 → g_nodes starved_sample !! x = Some n → open_node n = true ∧
             ∃ id, exhausted_at starved_sample id ∧ below starved_sample id x)
        ∧ (∀ id x n, exhausted_at starved_sample id → below starved_sample id x →
             g_nodes g' !! x = Some n → open_node n = false)
        ∧ (∀ x, x ∉ r.*1 → g_nodes g' !! x = g_nodes starved_sample !! x)
        ∧ ∀ id, ¬ exhausted_at g' id
    | _ => False
    end.
Proof.
  split; [by vm_compute|].
  exact (enforce_stops_exhausted (H := sample_blake3) starved_sample starved_reachable).
Defined.
