(* ===== verification/LifecycleFacts.v ===== *)
(** * Work graph: claims, deliveries, acceptance and reports

    The life of one execution, from its claim to the reports read off the
    finished graph. *)
From S2P Require Import Prelude Wp BTree Sums Text Hashing Float64 BudgetCascade GraphModel.
From S2P Require Import ControlOps Validate GraphOps GraphLineage GraphTree Reserve Ledger GraphInv.
From S2P Require Import LocalUpdate PreserveLocal StopCascade Spend Receipts Reach Reports.
From S2P Require Import GraphFacts OperationFacts.
#[local] Open Scope Z_scope.

(** ** Claiming *)

(** [claim_and_activate_until] succeeds exactly on a claimable node; it then
    advances the attempt counter by one, issues the fence of the new attempt,
    records the lease, forgets delivery attempts of earlier claims, activates the
    node and changes nothing else.  The graph still respects its concurrency
    limit. *)
Theorem claim_spec `{Blake3} g id lease :
  reachable g →
  match claim_and_activate_until id lease g with
  | (g', Ok r) => ∃ n, claimable g id n
      ∧ g' = set_g_nodes (<[id := r]> (g_nodes g)) g
      ∧ wn_status r = Active ∧ wn_claim_attempt r = wn_claim_attempt n + 1
      ∧ wn_execution_fence r = Some (execution_fence (g_graph_id g) r)
      ∧ wn_lease_expires_epoch_ms r = lease ∧ wn_delivery_attempt r = None
      ∧ wn_budget r = wn_budget n ∧ wn_execution_started r = false
      ∧ active_count g' ≤ local_concurrency_limit g'
  | (g', Err _) => g' = g ∧ ¬ ∃ n, claimable g id n
  | (_, Panic) | (_, Hang) => False
  end.
Proof.
  intros Hg. pose proof (reachable_inv g Hg) as Hi.
  pose proof (claim_and_activate_until_preserved g id lease Hi) as Hw. unfold wp in Hw.
  destruct (claim_and_activate_until id lease g) as [g' [r|e| |]] eqn:Hrun; try done.
  - destruct Hw as (Hi' & n & Hc & -> & ->). pose proof (clm_node _ _ _ Hc) as Hn. exists n.
    destruct (node_queued _ _ _ (inv_nodes _ Hi _ _ Hn) (clm_queued _ _ _ Hc)) as [Hs _].
    split; [done|]. split; [|do 7 (split; [done|]); apply (lim_active _ (inv_limits _ Hi'))].
    unfold update_node. by rewrite (alter_alt_Some _ _ _ n).
  - split; [done|]. intros [n Hc]. destruct (claim_ok g id lease n Hi Hc) as (g1 & r & E). congruence.
Qed.

Lemma claim_spec_witness :
  (wn_claim_attempt <$> g_nodes (claim_and_activate_until (H := sample_blake3) "c" (Some 9) sample_graph).1 !! "c") = Some 1
  ∧ match claim_and_activate_until (H := sample_blake3) "c" (Some 9) sample_graph with
    | (g', Ok r) => ∃ n, claimable sample_graph "c" n
        ∧ g' = set_g_nodes (<["c" := r]> (g_nodes sample_graph)) sample_graph
        ∧ wn_status r = Active ∧ wn_claim_attempt r = wn_claim_attempt n + 1
        ∧ wn_execution_fence r = Some (execution_fence (H := sample_blake3) (g_graph_id sample_graph) r)
        ∧ wn_lease_expires_epoch_ms r = Some 9 ∧ wn_delivery_attempt r = None
        ∧ wn_budget r = wn_budget n ∧ wn_execution_started r = false
        ∧ active_count g' ≤ local_concurrency_limit g'
    | (g', Err _) => g' = sample_graph ∧ ¬ ∃ n, claimable sample_graph "c" n
    | (_, Panic) | (_, Hang) => False
    end.
Proof.
  split; [by vm_compute|].
  exact (claim_spec (H := sample_blake3) sample_graph "c" (Some 9) sample_reachable).
Defined.

(** A node whose execution may start: its capsule is fresh, and it is either
    claimable or claimed already and not started. *)
Definition startable (g : BoundedWorkGraph) (id : string) (n : WorkNode) : Prop :=
  capsule_free g id n
  ∧ (claimable g id n
     ∨ g_nodes g !! id = Some n ∧ wn_status n = Active ∧ is_Some (wn_parent_node_id n)
       ∧ is_Some (wn_execution_fence n) ∧ wn_execution_started n = false).

Lemma update_node_twice g id n f1 f2 :
  g_nodes g !! id = Some n →
  update_node id f2 (update_node id f1 g) = set_g_nodes (<[id := f2 (f1 n)]> (g_nodes g)) g.
Proof.
  intros Hn. unfold update_node, set_g_nodes. cbn. f_equal. apply map_eq. intros k.
  destruct (decide (id = k)) as [<-|Hk].
  - by rewrite !lookup_alter_eq, Hn, lookup_insert_eq.
  - by rewrite !lookup_alter_ne, lookup_insert_ne.
Qed.

Lemma startable_fresh g id n :
  g_nodes g !! id = Some n → (∃ m, startable g id m) →
  capsule_consumed g id (wn_capsule_ref n) = false.
Proof.
  intros Hn (m & Hfree & Hm).
  assert (m = n) as -> by (destruct Hm as [[Hm]|[Hm _]]; congruence).
  apply any_false. intros [k x] Hk%elem_of_bt_iter. apply not_true_iff_false.
  rewrite !andb_true_iff, negb_true_iff, bool_decide_eq_false, bool_decide_eq_true.
  intros [[Hne Hs] E]. by apply (Hfree k x Hne Hk Hs).
Qed.

(** [claim_or_resume_active_until] succeeds exactly on a startable node: a
    queued node is claimed first, a claimed node keeps its attempt and fence;
    either way the execution starts once, under the given lease, and nothing
    else changes. *)
Theorem claim_or_resume_spec `{Blake3} g id lease :
  reachable g →
  match claim_or_resume_active_until id lease g with
  | (g', Ok r) => ∃ n, startable g id n
      ∧ g' = set_g_nodes (<[id := r]> (g_nodes g)) g
      ∧ wn_status r = Active ∧ wn_execution_started r = true
      ∧ wn_lease_expires_epoch_ms r = Some lease
      ∧ wn_claim_attempt r
        = wn_claim_attempt n + (if decide (wn_status n = Pending) then 1 else 0)
      ∧ wn_execution_fence r = Some (execution_fence (g_graph_id g) r)
  | (g', Err _) => g' = g ∧ ¬ ∃ n, startable g id n
  | (_, Panic) | (_, Hang) => False
  end.
Proof.
  intros Hg. pose proof (reachable_inv g Hg) as Hi.
  unfold claim_or_resume_active_until. unfold mbind at 1, op_mbind, op_bind at 1, get at 1.
  destruct (g_nodes g !! id) as [n|] eqn:Hn.
  2: { cbn. split; [done|]. intros (n & _ & [[Hm]|[Hm _]]); congruence. }
  assert (∀ m, startable g id m → m = n) as Hdet
    by (intros m [_ [[Hm]|[Hm _]]]; congruence).
  cbn [ok_or]. unfold mbind, op_mbind, op_bind, lift.
  destruct (capsule_consumed g id (wn_capsule_ref n)) eqn:Hcap; cbn [reject_if].
  { split; [done|]. intros Hs. rewrite (startable_fresh g id n Hn Hs) in Hcap. done. }
  apply capsule_consumed_false in Hcap. destruct (wn_status n) eqn:Hst;
    try (split; [done|]; intros (m & Hm); pose proof (Hdet m Hm) as ->;
         destruct Hm as [_ [[]|(_ & ? & _)]]; congruence).
  - pose proof (claim_and_activate_until_preserved g id (Some lease) Hi) as Hw. unfold wp in Hw.
    destruct (claim_and_activate_until id (Some lease) g) as [g1 [r|e| |]] eqn:Hrun; try done.
    + destruct Hw as (_ & m & Hc & -> & ->). assert (m = n) as -> by (destruct Hc; congruence).
      unfold modify, get. set (f := claim_node _ _ _).
      rewrite (update_node_lookup _ id (f n)) by by apply update_node_lookup. cbn [expect].
      exists n. split; [split; [done|by left]|]. split; [by apply update_node_twice|].
      do 3 (split; [done|]). split; [by rewrite Hst, decide_True|done].
    + split; [done|]. intros (m & Hm). pose proof (Hdet m Hm) as ->.
      destruct Hm as [_ [Hc|(_ & ? & _)]]; [|congruence].
      destruct (claim_ok g id (Some lease) n Hi Hc) as (g2 & r & E). congruence.
  - destruct (is_none (wn_parent_node_id n) || is_none (wn_execution_fence n) || wn_execution_started n)
      eqn:Hc; cbn [reject_if].
    + split; [done|]. intros (m & Hm). pose proof (Hdet m Hm) as ->.
      destruct Hm as [_ [[]|(_ & _ & [p Hp] & [f Hf] & Hs)]]; [congruence|].
      by rewrite Hp, Hf, Hs in Hc.
    + rewrite !orb_false_iff in Hc. destruct Hc as [[Hp Hf] Hs].
      unfold modify, get. rewrite (update_node_lookup g id n) by done. cbn [expect].
      destruct (wn_parent_node_id n) as [p|] eqn:Ep; [|done].
      destruct (wn_execution_fence n) as [f|] eqn:Ef; [|done].
      exists n. split; [split; [done|]; right; by rewrite Ep, Ef|].
      split; [unfold update_node; by rewrite (alter_alt_Some _ _ _ n)|].
      do 3 (split; [done|]). split; [rewrite Hst, decide_False by done; cbn; lia|].
      cbn. rewrite Ef. f_equal. by apply (node_fence _ _ _ (inv_nodes _ Hi _ _ Hn)).
Qed.

Lemma claim_or_resume_spec_witness :
  (claim_or_resume_active_until (H := sample_blake3) "a" 9 sample_graph).2 = Err (InvalidTransition "a")
  ∧ match claim_or_resume_active_until (H := sample_blake3) "c" 9 sample_graph with
    | (g', Ok r) => ∃ n, startable sample_graph "c" n
        ∧ g' = set_g_nodes (<["c" := r]> (g_nodes sample_graph)) sample_graph
        ∧ wn_status r = Active ∧ wn_execution_started r = true
        ∧ wn_lease_expires_epoch_ms r = Some 9
        ∧ wn_claim_attempt r
          = wn_claim_attempt n + (if decide (wn_status n = Pending) then 1 else 0)
        ∧ wn_execution_fence r = Some (execution_fence (H := sample_blake3) (g_graph_id sample_graph) r)
    | (g', Err _) => g' = sample_graph ∧ ¬ ∃ n, startable sample_graph "c" n
    | (_, Panic) | (_, Hang) => False
    end.
Proof.
  split; [by vm_compute|].
  exact (claim_or_resume_spec (H := sample_blake3) sample_graph "c" 9 sample_reachable).
Defined.

(** A context capsule is consumed at most once: in every reachable graph two
    different nodes whose execution started, running or long finished, were
    started from different capsules. *)
Theorem capsule_consumed_once `{Blake3} g i j n m :
  reachable g → i ≠ j → g_nodes g !! i = Some n → g_nodes g !! j = Some m →
  wn_execution_started n = true → wn_execution_started m = true →
  wn_capsule_ref n ≠ wn_capsule_ref m.
Proof.
  intros Hg Hij Hi Hj Hsi Hsj E. apply Hij.
  by apply (inv_capsules _ (reachable_inv g Hg) i j n m).
Qed.

(** The sample graph with both children of the root running. *)
Definition busy_calls : list call := [ClaimOrResume "c" 2000].
Definition busy_sample : BoundedWorkGraph := run_calls (H := sample_blake3) busy_calls sample_graph.

Lemma busy_reachable : reachable (H := sample_blake3) busy_sample.
Proof. apply (reach_calls (H := sample_blake3) busy_calls); [apply sample_reachable|done]. Qed.

Definition busy_node (id : string) : WorkNode :=
  default (fresh_node id "" None "" Pending zero_budget 0) (g_nodes busy_sample !! id).

Lemma capsule_consumed_once_witness :
  wn_execution_started (busy_node "c") = true
  ∧ wn_capsule_ref (busy_node "a") ≠ wn_capsule_ref (busy_node "c").
Proof.
  split; [by vm_compute|].
  apply (capsule_consumed_once (H := sample_blake3) busy_sample "a" "c" (busy_node "a") (busy_node "c")
    busy_reachable); [done|by vm_compute..].
Defined.

(** [begin_delivery_attempt] succeeds exactly on an active, started node,
    under the node's current fence, with the successor of the last attempt, at
    most two per claim, and records nothing but that attempt. *)
Theorem begin_delivery_spec `{Blake3} g id fence attempt :
  reachable g →
  match begin_delivery_attempt id fence attempt g with
  | (g', Ok _) => ∃ n, g_nodes g !! id = Some n ∧ wn_status n = Active
      ∧ wn_execution_started n = true ∧ fence = execution_fence (g_graph_id g) n
      ∧ wn_execution_fence n = Some fence
      ∧ attempt = default 0 (wn_delivery_attempt n) + 1 ∧ 1 ≤ attempt ≤ 2
      ∧ g' = set_g_nodes (<[id := set_wn_delivery_attempt (Some attempt) n]> (g_nodes g)) g
  | (g', Err _) => g' = g ∧ ¬ ∃ n, g_nodes g !! id = Some n ∧ wn_status n = Active
      ∧ wn_execution_started n = true ∧ wn_execution_fence n = Some fence
      ∧ attempt = default 0 (wn_delivery_attempt n) + 1 ∧ 1 ≤ attempt ≤ 2
  | (_, Panic) | (_, Hang) => False
  end.
Proof.
  intros Hg. pose proof (reachable_inv g Hg) as Hi.
  unfold begin_delivery_attempt, mbind, op_mbind, op_bind, lift, get, modify.
  destruct (g_nodes g !! id) as [n|] eqn:Hn; cbn [ok_or]; [|split; [done|naive_solver]].
  destruct (_ || _) eqn:Hc; cbn [reject_if].
  - split; [done|]. intros (m & [= <-] & Hst & Hs & Hf & Ha & Hr).
    revert Hc. rewrite Hst, Hs, Hf. rewrite !(bool_decide_eq_false_2 (_ ≠ _)).
    + cbn. rewrite orb_false_r, negb_true_iff, andb_false_iff, !Z.leb_gt. unfold MAX_DELIVERY_ATTEMPTS. lia.
    + unfold checked_add. rewrite (proj2 (Z.leb_le _ _)) by (unfold u8_max; lia). intros Hne. apply Hne. congruence.
    + tauto.
    + tauto.
  - rewrite !orb_false_iff, !bool_decide_eq_false, !negb_false_iff, andb_true_iff, !Z.leb_le in Hc.
    destruct Hc as [[[[Hst Hs] Hf] Ha] Hadd]. apply dec_stable in Hst, Hf, Hadd.
    exists n. apply checked_add_Some in Hadd as [Hadd _]. unfold MAX_DELIVERY_ATTEMPTS in Ha.
    do 3 (split; [done|]). split; [by apply (node_fence _ _ _ (inv_nodes _ Hi _ _ Hn))|].
    do 3 (split; [done|]). unfold update_node. by rewrite (alter_alt_Some _ _ _ n).
Qed.

(** The first delivery of the running child. *)
Definition sample_fence : string := default "" (wn_execution_fence (sample_node "a")).

Lemma begin_delivery_spec_witness :
  (begin_delivery_attempt "a" sample_fence 1 sample_graph).2 = Ok ()
  ∧ match begin_delivery_attempt "a" sample_fence 3 sample_graph with
    | (g', Ok _) => ∃ n, g_nodes sample_graph !! "a" = Some n ∧ wn_status n = Active
        ∧ wn_execution_started n = true
        ∧ sample_fence = execution_fence (H := sample_blake3) (g_graph_id sample_graph) n
        ∧ wn_execution_fence n = Some sample_fence
        ∧ 3 = default 0 (wn_delivery_attempt n) + 1 ∧ 1 ≤ 3 ≤ 2
        ∧ g' = set_g_nodes (<["a" := set_wn_delivery_attempt (Some 3) n]> (g_nodes sample_graph)) sample_graph
    | (g', Err _) => g' = sample_graph ∧ ¬ ∃ n, g_nodes sample_graph !! "a" = Some n ∧ wn_status n = Active
        ∧ wn_execution_started n = true ∧ wn_execution_fence n = Some sample_fence
        ∧ 3 = default 0 (wn_delivery_attempt n) + 1 ∧ 1 ≤ 3 ≤ 2
    | (_, Panic) | (_, Hang) => False
    end.
Proof.
  split; [by vm_compute|].
  exact (begin_delivery_spec (H := sample_blake3) sample_graph "a" sample_fence 3 sample_reachable).
Defined.

(** A child whose lease has run out while it was active. *)
Definition lease_lost (now : Z) (n : WorkNode) : Prop :=
  is_Some (wn_parent_node_id n) ∧ wn_status n = Active
  ∧ ∃ expires, wn_lease_expires_epoch_ms n = Some expires ∧ expires ≤ now.

#[local] Instance lease_lost_dec now n : Decision (lease_lost now n).
Proof.
  unfold lease_lost. apply and_dec; [apply _|]. apply and_dec; [apply _|].
  destruct (wn_lease_expires_epoch_ms n) as [x|]; [destruct (decide (x ≤ now)) as [Hx|Hx]|].
  - left. by exists x.
  - right. by intros (y & [= <-] & Hy).
  - right. by intros (y & ? & _).
Defined.

(** [recover_expired_execution] stops exactly an active child whose lease has
    run out, with the reason [LeaseLost], together with everything below it; on
    any other node it does nothing, so running it twice is running it once. *)
Theorem recover_spec `{Blake3} g id now :
  reachable g →
  match recover_expired_execution id now g with
  | (g', Ok l) => ∃ n, g_nodes g !! id = Some n
      ∧ ((lease_lost now n ∧ stop_frame g g'
          ∧ stops g g' (below g id) (λ x, if decide (x = id) then LeaseLost else ParentStopped) l)
         ∨ (¬ lease_lost now n ∧ l = [] ∧ g' = g))
      ∧ recover_expired_execution id now g' = (g', Ok [])
  | (g', Err _) => g' = g ∧ g_nodes g !! id = None
  | (_, Panic) | (_, Hang) => False
  end.
Proof.
  intros Hg. pose proof (reachable_inv g Hg) as Hi.
  assert (∀ g n, g_nodes g !! id = Some n → recover_expired_execution id now g
    = (if bool_decide (lease_lost now n) then stop id LeaseLost else mret []) g) as Hrun.
  { intros g1 n Hn. unfold recover_expired_execution, mbind, op_mbind, op_bind, lift, get.
    rewrite Hn. cbn [ok_or].
    match goal with |- (if ?b then _ else _) _ = _ =>
      assert (b = bool_decide (lease_lost now n)) as ->; [|done] end.
    apply eq_true_iff_eq. rewrite !andb_true_iff, !bool_decide_eq_true. unfold lease_lost, is_some.
    destruct (wn_parent_node_id n), (wn_lease_expires_epoch_ms n) as [x|]; rewrite ?Z.leb_le; naive_solver. }
  destruct (g_nodes g !! id) as [n|] eqn:Hn.
  2: { unfold recover_expired_execution, mbind, op_mbind, op_bind, lift, get. by rewrite Hn. }
  rewrite (Hrun g n Hn). case_bool_decide as Hl.
  - pose proof (stop_spec g id LeaseLost Hi) as Hw. unfold wp in Hw.
    destruct (stop id LeaseLost g) as [g' [l|e| |]]; try done; [|destruct Hw; congruence].
    destruct Hw as (_ & Hf & _ & Hs). exists n. split; [done|]. split; [by left|].
    assert (Hin : id ∈ l).
    { eapply (st_all _ _ _ _ _ Hs); [constructor|done|]. apply open_node_spec. left. apply Hl. }
    destruct (st_in _ _ _ _ _ Hs id Hin) as (n0 & Hn0 & _ & Hn'). simplify_eq.
    rewrite (Hrun g' _ Hn'), bool_decide_eq_false_2; [done|].
    intros (_ & Hst & _). pose proof (stop_result_closed (cascade_reason id LeaseLost id) n) as Hc.
    unfold open_node in Hc. by rewrite Hst in Hc.
  - exists n. split; [done|]. split; [by right|]. by rewrite (Hrun g n Hn), bool_decide_eq_false_2.
Qed.

Lemma recover_spec_witness :
  (recover_expired_execution "a" 1000 sample_graph).2 = Ok ["a"; "b"]
  ∧ (recover_expired_execution "a" 999 sample_graph).2 = Ok []
  ∧ match recover_expired_execution "a" 999 sample_graph with
    | (g', Ok l) => ∃ n, g_nodes sample_graph !! "a" = Some n
        ∧ ((lease_lost 999 n ∧ stop_frame sample_graph g'
            ∧ stops sample_graph g' (below sample_graph "a")
                (λ x, if decide (x = "a") then LeaseLost else ParentStopped) l)
           ∨ (¬ lease_lost 999 n ∧ l = [] ∧ g' = sample_graph))
        ∧ recover_expired_execution "a" 999 g' = (g', Ok [])
    | (g', Err _) => g' = sample_graph ∧ g_nodes sample_graph !! "a" = None
    | (_, Panic) | (_, Hang) => False
    end.
Proof.
  split; [by vm_compute|]. split; [by vm_compute|].
  exact (recover_spec (H := sample_blake3) sample_graph "a" 999 sample_reachable).
Defined.

(** [set_path_claims] succeeds exactly when there are at most 64 claims, all
    well formed, and the node is queued; the node then holds each claim once, in
    order, and nothing else changes. *)
Theorem set_path_claims_spec g id claims :
  match set_path_claims id claims g with
  | (g', Ok _) => vec_len claims ≤ MAX_PATH_CLAIMS
      ∧ (∀ c, c ∈ claims → validate_path_claim c = Ok ())
      ∧ ∃ n held, g_nodes g !! id = Some n ∧ wn_status n = Pending
        ∧ (∀ c, c ∈ held ↔ c ∈ claims) ∧ NoDup held
        ∧ g' = set_g_nodes (<[id := set_wn_path_claims held n]> (g_nodes g)) g
  | (g', Err _) => g' = g ∧ ¬ (vec_len claims ≤ MAX_PATH_CLAIMS
      ∧ (∀ c, c ∈ claims → validate_path_claim c = Ok ())
      ∧ ∃ n, g_nodes g !! id = Some n ∧ wn_status n = Pending)
  | (_, Panic) | (_, Hang) => False
  end.
Proof.
  unfold set_path_claims, mbind, op_mbind, op_bind, lift, get, modify.
  destruct (Z.ltb_spec MAX_PATH_CLAIMS (vec_len claims)) as [Hlen|Hlen]; cbn [reject_if].
  { split; [done|]. intros [? _]. lia. }
  pose proof (forM__Ok validate_path_claim (dedup (sort_strings claims)) ()) as Hall.
  assert (ewp (forM_ validate_path_claim (dedup (sort_strings claims))) (λ _, True)) as Htot
    by (apply ewp_forM; [apply path_claim_total|done]).
  destruct (forM_ validate_path_claim (dedup (sort_strings claims))) as [[]|e| |]; try done.
  - assert (∀ c, c ∈ claims → validate_path_claim c = Ok ()) as Hok.
    { intros c Hc. apply Hall; [done|]. by apply elem_of_dedup_sort. }
    destruct (g_nodes g !! id) as [n|] eqn:Hn; cbn [ok_or].
    2: { split; [done|]. naive_solver. }
    destruct (decide (wn_status n = Pending)) as [Hst|Hst].
    + rewrite (bool_decide_eq_false_2 (_ ≠ _)) by tauto. cbn [reject_if].
      split; [done|]. split; [done|]. exists n, (dedup (sort_strings claims)).
      do 2 (split; [done|]). split; [apply elem_of_dedup_sort|]. split; [apply NoDup_dedup_sort|].
      unfold update_node. by rewrite (alter_alt_Some _ _ _ n).
    + rewrite (bool_decide_eq_true_2 (_ ≠ _)) by done. cbn [reject_if]. split; [done|]. naive_solver.
  - split; [done|]. intros (_ & Hok & _). destruct Hall as [_ Hall].
    assert (Err e = Ok ()) as He; [|done]. apply Hall. intros c Hc. apply Hok. by apply elem_of_dedup_sort.
Qed.
