(* ===== verification/ReportFacts.v ===== *)
(** * Work graph: acceptance and reports

    What [mark_accepted_path] puts on the accepted path, and what the read-only
    reports say about a graph: the fused results, the attribution of what was
    spent and the observation of a controller. *)
From S2P Require Import Prelude Wp BTree Sums Text Hashing Float64 BudgetCascade GraphModel.
From S2P Require Import ControlOps Validate GraphOps GraphLineage GraphTree Reserve Ledger GraphInv.
From S2P Require Import LocalUpdate PreserveLocal StopCascade Spend Receipts Reach Reports.
From S2P Require Import GraphFacts OperationFacts.
#[local] Open Scope Z_scope.

(** ** The accepted path *)
Section mark.
Context `{Blake3}.

Lemma mark_ok g ids :
  graph_inv g → (∀ id, id ∈ ids → accepted_node_id g id) →
  ∃ g', mark_accepted_path ids g = (g', Ok ()).
Proof.
  intros Hi Hids. unfold mark_accepted_path, mbind at 1, op_mbind, op_bind, get.
  match goal with |- context [foldM ?f ∅ ids] => set (step := f) end.
  destruct (foldM_inv step (λ ys (s : gset string), ∀ id, id ∈ ys → accepted_node_id g id) ids ∅)
    as (s & Hs & _); [done| |unfold lift; rewrite Hs; by eexists].
  intros id ys s Hys. destruct (Hys id) as (r & Hr & Ho); [left|].
  destruct (receipt_of_Some _ _ _ Hr) as (k & Hk & E).
  destruct (receipt_node _ _ (inv_receipts _ Hi _ _ Hk)) as (n & Hn & _). rewrite E in Hn.
  destruct (tree_path (inv_tree _ Hi) id n Hn) as (l & Hl & _).
  unfold step. rewrite (node_id_ok _ _ _ (inv_nodes _ Hi _ _ Hn)), exec_bind_ret, Hr.
  cbn [ok_or]. rewrite exec_bind_ret, Ho, bool_decide_eq_false_2 by tauto. cbn [reject_if].
  rewrite exec_bind_ret, (node_lineage_path g id l), exec_bind_ret by done.
  eexists. split; [done|]. intros x Hx. apply Hys. by right.
Qed.
End mark.

(** [mark_accepted_path] succeeds exactly when every listed node has a
    receipt with the outcome accepted; it replaces the accepted path by those
    nodes and everything they were delegated from, and changes nothing else. *)
Theorem mark_accepted_path_spec `{Blake3} g ids :
  reachable g →
  match mark_accepted_path ids g with
  | (g', Ok _) => (∀ id, id ∈ ids → accepted_node_id g id)
      ∧ (∀ x, x ∈ g_accepted_path g' ↔ marked g ids x)
      ∧ g' = set_g_accepted_path (g_accepted_path g') g
  | (g', Err _) => g' = g ∧ ¬ (∀ id, id ∈ ids → accepted_node_id g id)
  | (_, Panic) | (_, Hang) => False
  end.
Proof.
  intros Hg. pose proof (reachable_inv g Hg) as Hi. pose proof (mark_spec g ids Hi) as Hw.
  unfold wp in Hw. destruct (mark_accepted_path ids g) as [g' [u|e| |]] eqn:Hrun; try done.
  - destruct Hw as (_ & ? & ? & ?). done.
  - split; [done|]. intros Hids. destruct (mark_ok g ids Hi Hids). congruence.
Qed.

Lemma mark_accepted_path_spec_witness :
  bs_iter (g_accepted_path (mark_accepted_path ["a"] finished_sample).1) = ["a"; "root"]
  ∧ (mark_accepted_path ["b"] finished_sample).2 = Err (MissingReceipt "b")
  ∧ match mark_accepted_path ["a"] finished_sample with
    | (g', Ok _) => (∀ id, id ∈ ["a"] → accepted_node_id finished_sample id)
        ∧ (∀ x, x ∈ g_accepted_path g' ↔ marked finished_sample ["a"] x)
        ∧ g' = set_g_accepted_path (g_accepted_path g') finished_sample
    | (g', Err _) => g' = finished_sample ∧ ¬ (∀ id, id ∈ ["a"] → accepted_node_id finished_sample id)
    | (_, Panic) | (_, Hang) => False
    end.
Proof.
  split; [by vm_compute|]. split; [by vm_compute|].
  exact (mark_accepted_path_spec (H := sample_blake3) finished_sample ["a"] finished_reachable).
Defined.

(** Acceptance is always justified: in a reachable graph a node is on the
    accepted path only if it is, or lies above, a finished child whose receipt
    was accepted, and then everything above it is on the path too. *)
Theorem accepted_path_justified `{Blake3} g x :
  reachable g → x ∈ g_accepted_path g →
  (∃ k r n l, g_receipts g !! k = Some r ∧ rc_outcome r = Accepted
     ∧ g_nodes g !! rc_node_id r = Some n ∧ (wn_status n = Completed ∨ wn_status n = Failed)
     ∧ path_up (g_nodes g) (rc_node_id r) l ∧ x ∈ l)
  ∧ ∃ l, path_up (g_nodes g) x l ∧ ∀ y, y ∈ l → y ∈ g_accepted_path g.
Proof.
  intros Hg Hx. pose proof (reachable_inv g Hg) as Hi.
  destruct (acc_supported _ (inv_accepted _ Hi) x Hx) as (k & r & l & Hk & Ho & _ & Hl & Hxl).
  destruct (receipt_node _ _ (inv_receipts _ Hi _ _ Hk)) as (n & Hn & _ & Hf & _).
  split; [by exists k, r, n, l|].
  destruct (path_up_in _ _ _ _ Hl Hxl) as (lx & Hlx & _). exists lx. split; [done|].
  clear Hxl. induction Hlx as [id m Hm Hp|id m p l' Hm Hp Hl' IH]; intros y.
  - by intros ->%list_elem_of_singleton.
  - intros [->|Hy]%elem_of_cons; [done|]. apply IH; [|done].
    by apply (acc_closed _ (inv_accepted _ Hi) id m p).
Qed.

Lemma accepted_path_justified_witness :
  "root" ∈ g_accepted_path finished_sample
  ∧ ∃ l, path_up (g_nodes finished_sample) "root" l ∧ ∀ y, y ∈ l → y ∈ g_accepted_path finished_sample.
Proof.
  assert ("root" ∈ g_accepted_path finished_sample) as Hx
    by (apply (bool_decide_eq_true _); by vm_compute).
  split; [exact Hx|].
  exact (proj2 (accepted_path_justified (H := sample_blake3) finished_sample "root"
    finished_reachable Hx)).
Defined.

(** ** Reports *)

(** The share of a part in basis points, as [team_value_report] computes it. *)
Lemma share_bounds part total :
  0 ≤ part ≤ total → 0 ≤ total →
  let share := if total =? 0 then 0
               else let ratio := part * 10000 / total in if ratio <=? u16_max then ratio else 10000 in
  0 ≤ share ≤ 10000 ∧ share * total ≤ part * 10000
  ∧ (0 < total → part * 10000 < (share + 1) * total).
Proof.
  intros Hp Ht. cbn zeta. destruct (Z.eqb_spec total 0) as [->|Hne]; [lia|].
  assert (0 ≤ part * 10000 / total ≤ 10000) as Hr
    by (split; [apply Z.div_pos|apply Z.div_le_upper_bound]; lia).
  rewrite (proj2 (Z.leb_le _ _)) by (unfold u16_max; lia). split; [done|].
  pose proof (Z.div_mod (part * 10000) total Hne) as Hd.
  pose proof (Z.mod_pos_bound (part * 10000) total ltac:(lia)). split; nia.
Qed.

(** [fuse_accepted_results] never fails: a key is accepted with the value
    all claims of accepted receipts agree on; every other claimed key is listed
    once as a conflict, with exactly the values claimed for it and
    the nodes that claimed them, each once. *)
Theorem fuse_accepted_results_spec g :
  match fuse_accepted_results g with
  | Ok f =>
      (∀ k v, fused_accepted f !! k = Some v ↔
         (∃ id, claims_value g k v id) ∧ ∀ v' id', claims_value g k v' id' → v' = v)
      ∧ (∀ k, k ∈ conflict_key <$> fused_conflicts f ↔
           ∃ v1 id1 v2 id2, claims_value g k v1 id1 ∧ claims_value g k v2 id2 ∧ v1 ≠ v2)
      ∧ NoDup (conflict_key <$> fused_conflicts f)
      ∧ ∀ c, c ∈ fused_conflicts f →
          (∀ v, v ∈ conflict_values c ↔ ∃ id, claims_value g (conflict_key c) v id)
          ∧ NoDup (conflict_values c)
          ∧ (∀ id, id ∈ conflict_node_ids c ↔ ∃ v, claims_value g (conflict_key c) v id)
          ∧ NoDup (conflict_node_ids c)
  | _ => False
  end.
Proof.
  destruct (fuse_fold g) as (f & -> & Ha & Hc). split; [|split; [|split]].
  - intros k v. rewrite Ha. split.
    + intros (vs & Hk & Hu & Hv). destruct (fuse_key g k vs Hk) as (H1 & _ & H3).
      apply H1 in Hv as [id Hid]. split; [eauto|]. intros v' id' Hid'.
      by apply (proj1 H3 Hu v' id' v id).
    + intros [[id Hid] Hall]. destruct (fuse_keys_all g k v id Hid) as [vs Hk].
      destruct (fuse_key g k vs Hk) as (H1 & _ & H3). exists vs. split; [done|].
      split; [|apply H1; eauto]. apply H3. intros v1 id1 v2 id2 ->%Hall ->%Hall. done.
  - intros k. rewrite Hc, list_elem_of_fmap. setoid_rewrite list_elem_of_fmap. split.
    + intros (c & -> & [k' vs] & -> & Hin). apply list_elem_of_filter in Hin as [Hu Hk%elem_of_bt_iter].
      destruct (fuse_key g k' vs Hk) as (H1 & _ & H3). cbn.
      pose proof (fuse_disputed g k' vs Hk Hu). done.
    + intros (v1 & id1 & v2 & id2 & Hc1 & Hc2 & Hne).
      destruct (fuse_keys_all g k v1 id1 Hc1) as [vs Hk].
      exists (conflict_of (k, vs)). split; [done|]. exists (k, vs). split; [done|].
      apply list_elem_of_filter. split; [|by apply elem_of_bt_iter].
      destruct (unanimous (k, vs)) eqn:Hu; [|done].
      destruct (fuse_key g k vs Hk) as (_ & _ & H3). destruct Hne. by eapply (proj1 H3 Hu).
  - rewrite Hc, <-list_fmap_compose.
    apply (sublist_NoDup _ (bt_keys (fuse_candidates g))); [apply NoDup_bt_keys|].
    unfold bt_keys. apply fmap_sublist, sublist_filter.
  - intros c. rewrite Hc. intros ([k vs] & -> & Hin)%list_elem_of_fmap.
    apply list_elem_of_filter in Hin as [_ Hk%elem_of_bt_iter].
    destruct (fuse_key g k vs Hk) as (H1 & H2 & _). cbn. split; [|split; [|split]].
    + intros v. rewrite elem_of_bt_keys. apply H1.
    + apply NoDup_bt_keys.
    + intros id. rewrite elem_of_dedup_sort. apply H2.
    + apply NoDup_dedup_sort.
Qed.

(** The reports never fail on a reachable graph: what is accepted and what is
    wasted add up to everything the nodes consumed, and the share of accepted
    cost is the fraction in basis points, rounded down and at most 10000. *)
Theorem team_value_report_spec `{Blake3} g :
  reachable g →
  match team_value_report g with
  | Ok r =>
      tv_accepted_tokens r = spent_on Tokens true g ∧ tv_waste_tokens r = spent_on Tokens false g
      ∧ tv_accepted_cost_micros r = spent_on Cost true g
      ∧ tv_total_tokens r = msum (λ _ n, tokens_consumed (wn_budget n)) (g_nodes g)
      ∧ tv_total_cost_micros r = msum (λ _ n, cost_micros_consumed (wn_budget n)) (g_nodes g)
      ∧ tv_accepted_tokens r + tv_waste_tokens r = tv_total_tokens r
      ∧ 0 ≤ tv_accepted_cost_basis_points r ≤ 10000
      ∧ tv_accepted_cost_basis_points r * tv_total_cost_micros r ≤ tv_accepted_cost_micros r * 10000
      ∧ (0 < tv_total_cost_micros r → tv_accepted_cost_micros r * 10000
           < (tv_accepted_cost_basis_points r + 1) * tv_total_cost_micros r)
  | _ => False
  end.
Proof.
  intros Hg. pose proof (reachable_inv g Hg) as Hi.
  destruct (spent_on_total Hi Tokens) as (T1 & T2 & T3 & T4).
  destruct (spent_on_total Hi Cost) as (C1 & C2 & C3 & C4).
  unfold team_value_report. rewrite (attribution_eq Hi), exec_bind_ret.
  cbn [at_accepted_tokens at_waste_tokens at_accepted_cost_micros at_waste_cost_micros].
  rewrite (u64_add_fits (spent_on Tokens true g)), exec_bind_ret by lia.
  rewrite (u64_add_fits (spent_on Cost true g)), exec_bind_ret by lia.
  rewrite T3, C3. set (total := msum (λ _ n, used Cost (wn_budget n)) (g_nodes g)) in *.
  assert (0 ≤ spent_on Cost true g ≤ total) as Hp by lia.
  pose proof (share_bounds _ total Hp ltac:(lia)) as Hb. cbn zeta in Hb.
  cbn. split; [done|]. split; [done|]. split; [done|]. split; [done|]. split; [done|]. split; [exact T3|].
  exact Hb.
Qed.

Lemma team_value_report_spec_witness :
  (team_value_report finished_sample) = Ok (MkTeamValue 200 200 100 100 0 0 10000)
  ∧ match team_value_report finished_sample with
    | Ok r => tv_accepted_tokens r + tv_waste_tokens r = tv_total_tokens r
    | _ => False
    end.
Proof.
  split; [by vm_compute|].
  pose proof (team_value_report_spec (H := sample_blake3) finished_sample finished_reachable) as Hr.
  destruct (team_value_report finished_sample) as [r| | |]; [apply Hr|exact Hr..].
Defined.

(** ** Execution fences *)

(** Text without control characters can be read back up to the separator. *)
Lemma nul_separated a b s t :
  has_control a = false → has_control b = false →
  a +:+ NUL +:+ s = b +:+ NUL +:+ t → a = b ∧ s = t.
Proof.
  revert b. induction a as [|c a IH]; intros [|c' b] Ha Hb E.
  - split; [done|]. by injection E.
  - injection E as <- _. by cbn in Hb.
  - injection E as -> _. by cbn in Ha.
  - change (String c (a +:+ NUL +:+ s) = String c' (b +:+ NUL +:+ t)) in E.
    injection E as <- E. cbn in Ha, Hb. apply orb_false_iff in Ha as [_ Ha], Hb as [_ Hb].
    by destruct (IH b Ha Hb E) as [-> ->].
Qed.

Lemma identifier_no_control value field :
  validate_identifier value field = Ok () → has_control value = false.
Proof. unfold validate_identifier. intros [_ Hc]%reject_if_Ok%orb_false_iff. done. Qed.

Definition finished_node (id : string) : WorkNode :=
  default (fresh_node id "" None "" Pending zero_budget 0) (g_nodes finished_sample !! id).

Lemma finished_lookup id :
  bool_decide (is_Some (g_nodes finished_sample !! id)) = true →
  g_nodes finished_sample !! id = Some (finished_node id).
Proof. unfold finished_node. intros [n ->]%bool_decide_eq_true. done. Qed.

(** The text that is hashed into a fence. *)
Definition fence_material (graph_id : string) (n : WorkNode) : string :=
  graph_id +:+ NUL +:+ wn_node_id n +:+ NUL +:+ wn_agent_id n +:+ NUL
  +:+ wn_capsule_ref n +:+ NUL +:+ pretty (wn_claim_attempt n).

(** A fence identifies one claim: two nodes of reachable graphs that carry
    the same fence have the same graph id, node id, agent, capsule and claim
    attempt, unless the hash maps the two different texts that name them to one
    digest; so a fence that leaked from another graph, node, agent or earlier
    attempt is not accepted. *)
Theorem fence_identifies_claim `{Blake3} g1 g2 i j n m fence :
  reachable g1 → reachable g2 → g_nodes g1 !! i = Some n → g_nodes g2 !! j = Some m →
  wn_execution_fence n = Some fence → wn_execution_fence m = Some fence →
  (g_graph_id g1 = g_graph_id g2 ∧ i = j ∧ wn_agent_id n = wn_agent_id m
     ∧ wn_capsule_ref n = wn_capsule_ref m ∧ wn_claim_attempt n = wn_claim_attempt m)
  ∨ (fence_material (g_graph_id g1) n ≠ fence_material (g_graph_id g2) m
     ∧ blake3_hex (fence_material (g_graph_id g1) n) = blake3_hex (fence_material (g_graph_id g2) m)).
Proof.
  intros Hi1%reachable_inv Hi2%reachable_inv Hn Hm Hf1 Hf2.
  destruct (inv_nodes _ Hi1 _ _ Hn) as [K1 I1 A1 C1 _ _ _ _ _ _ _ _ F1 _ _].
  destruct (inv_nodes _ Hi2 _ _ Hm) as [K2 I2 A2 C2 _ _ _ _ _ _ _ _ F2 _ _].
  assert (∀ g, graph_inv g → has_control (g_graph_id g) = false) as Hgid.
  { intros g Hi. destruct (lim_graph_id _ (inv_limits _ Hi)) as [->|Hv]; [done|].
    by eapply identifier_no_control. }
  specialize (F1 _ Hf1). specialize (F2 _ Hf2).
  assert (blake3_hex (fence_material (g_graph_id g1) n) = blake3_hex (fence_material (g_graph_id g2) m))
    as Hh.
  { rewrite F1 in F2. apply (inj (String.append "fence:")). exact F2. }
  destruct (decide (fence_material (g_graph_id g1) n = fence_material (g_graph_id g2) m)) as [E|E];
    [left|by right].
  unfold fence_material in E. rewrite K1, K2 in E.
  apply nul_separated in E as [-> E]; [|by apply Hgid..].
  apply nul_separated in E as [-> E]; [|by eapply identifier_no_control..].
  apply nul_separated in E as [-> E]; [|by eapply identifier_no_control..].
  apply nul_separated in E as [-> E]; [|by eapply identifier_no_control..].
  split; [done|]. split; [done|]. split; [done|]. split; [done|]. by apply (inj pretty).
Qed.

Definition leaked_fence : string := default "" (wn_execution_fence (sample_node "a")).

(** The fence is still the one of the same claim after the node finished. *)
Lemma fence_identifies_claim_witness :
  g_nodes sample_graph !! "a" = Some (sample_node "a")
  ∧ g_nodes finished_sample !! "a" = Some (finished_node "a")
  ∧ wn_execution_fence (sample_node "a") = Some leaked_fence
  ∧ wn_execution_fence (finished_node "a") = Some leaked_fence
  ∧ ((g_graph_id sample_graph = g_graph_id finished_sample ∧ "a" = "a"
        ∧ wn_agent_id (sample_node "a") = wn_agent_id (finished_node "a")
        ∧ wn_capsule_ref (sample_node "a") = wn_capsule_ref (finished_node "a")
        ∧ wn_claim_attempt (sample_node "a") = wn_claim_attempt (finished_node "a"))
     ∨ (fence_material (g_graph_id sample_graph) (sample_node "a")
          ≠ fence_material (g_graph_id finished_sample) (finished_node "a")
        ∧ blake3_hex (Blake3 := sample_blake3) (fence_material (g_graph_id sample_graph) (sample_node "a"))
          = blake3_hex (Blake3 := sample_blake3)
              (fence_material (g_graph_id finished_sample) (finished_node "a")))).
Proof.
  assert (g_nodes sample_graph !! "a" = Some (sample_node "a")) as Hn
    by (apply sample_lookup; by vm_compute).
  assert (g_nodes finished_sample !! "a" = Some (finished_node "a")) as Hm
    by (apply finished_lookup; by vm_compute).
  assert (wn_execution_fence (sample_node "a") = Some leaked_fence) as Hf
    by (apply (bool_decide_eq_true_1 _); by vm_compute).
  assert (wn_execution_fence (finished_node "a") = Some leaked_fence) as Hf'
    by (apply (bool_decide_eq_true_1 _); by vm_compute).
  split; [exact Hn|]. split; [exact Hm|]. split; [exact Hf|]. split; [exact Hf'|].
  exact (fence_identifies_claim (H := sample_blake3) sample_graph finished_sample "a" "a"
    (sample_node "a") (finished_node "a") leaked_fence sample_reachable finished_reachable Hn Hm Hf Hf').
Defined.
