(* ===== verification/Protocol.v ===== *)
(** * Protocol: outcome and evidence contracts

    [rust/crates/lean-ctx-protocol/src/{common,evidence,outcome}.rs]: the wire
    types an outcome evaluation produces and the validation they must pass. *)
From S2P Require Import Prelude BTree Text.
#[local] Open Scope Z_scope.

Definition V1_SCHEMA_VERSION : Z := 1.
Definition MAX_IDENTIFIER_LENGTH : Z := 256.
Definition MAX_PROTOCOL_ITEMS : Z := 256.

(** [ValidationError(String)]; the message that quotes an extension key with
    its [Debug] form is kept as the key it quotes. *)
Inductive ValidationError :=
| ValidationMessage (message : string)
| ReservedExtensionKey (key : string).

Notation checked := (exec ValidationError).

Definition validate_bounded_opaque_identifier (value type_name : string) : checked () :=
  reject_if (is_blank value) (ValidationMessage (type_name +:+ " must not be empty"));;
  reject_if (MAX_IDENTIFIER_LENGTH <? str_len value)
    (ValidationMessage (type_name +:+ " exceeds the " +:+ pretty MAX_IDENTIFIER_LENGTH
                        +:+ " byte limit"));;
  reject_if (has_control value)
    (ValidationMessage (type_name +:+ " must not contain control characters")).

(** [bounded_identifier!(TaskId)] and [bounded_identifier!(OutcomeId)]: a
    newtype over its string, built by [new]. *)
Definition bounded_identifier_new (type_name value : string) : checked string :=
  validate_bounded_opaque_identifier value type_name;;
  Ok value.
Definition TaskId_new : string → checked string := bounded_identifier_new "TaskId".
Definition OutcomeId_new : string → checked string := bounded_identifier_new "OutcomeId".

Definition validate_bounded_string (value field : string) : checked () :=
  validate_bounded_opaque_identifier value field.

(** The loop of [validate_unique_strings], with its set. *)
Fixpoint unique_strings_loop (field : string) (seen : gset string) (values : list string) :
    checked () :=
  match values with
  | [] => Ok ()
  | value :: rest =>
      validate_bounded_string value field;;
      reject_if (bool_decide (value ∈ seen))
        (ValidationMessage (field +:+ " contains duplicate values"));;
      unique_strings_loop field ({[value]} ∪ seen) rest
  end.

Definition validate_unique_strings (values : list string) (field : string) : checked () :=
  reject_if (MAX_PROTOCOL_ITEMS <? Z.of_nat (length values))
    (ValidationMessage (field +:+ " exceeds the " +:+ pretty MAX_PROTOCOL_ITEMS +:+ " item limit"));;
  unique_strings_loop field ∅ values.

Definition validate_schema_version (version : Z) : checked () :=
  reject_if (negb (version =? V1_SCHEMA_VERSION))
    (ValidationMessage ("unsupported schema_version " +:+ pretty version +:+ "; expected "
                        +:+ pretty V1_SCHEMA_VERSION)).

Definition validate_milliunit (value : Z) (field : string) : checked () :=
  reject_if (1000 <? value) (ValidationMessage (field +:+ " must be between 0 and 1000")).

(** [ExtensionsV1]: additive JSON fields; a JSON value is the [Value] of
    serde_json, of which the outcome contract reads nothing. *)
Section wire.
Context {Value : Type}.
Notation ExtensionsV1 := (gmap string Value).

Definition validate_reserved (extensions : ExtensionsV1) (reserved : list string) : checked () :=
  match find_first (λ key, bool_decide (key ∈ reserved)) (bt_keys extensions) with
  | Some key => Err (ReservedExtensionKey key)
  | None => Ok ()
  end.

Inductive EvidenceKind :=
| ProviderReceipt | RuntimeLog | SignedBatch | QualityMeasurement | ExperimentOutcome.
Inductive SignatureStatus := Verified | Unverified | NotSigned.

Record EvidenceRefV1 := MkEvidenceRef {
  ev_schema_version : option Z;
  ev_kind : EvidenceKind;
  ev_uri : string;
  ev_digest : string;
  ev_signature_status : SignatureStatus;
  ev_media_type : option string;
  ev_extensions : ExtensionsV1;
}.

Definition EVIDENCE_RESERVED_FIELDS : list string :=
  ["schema_version"; "kind"; "uri"; "digest"; "signature_status"; "media_type"].

(** [byte.is_ascii_hexdigit()] *)
Definition is_hex_digit (a : Ascii.ascii) : bool :=
  byte_in 48 57 a || byte_in 97 102 a || byte_in 65 70 a.

(** [EvidenceRefV1::validate] *)
Definition evidence_validate (e : EvidenceRefV1) : checked () :=
  validate_reserved (ev_extensions e) EVIDENCE_RESERVED_FIELDS;;
  match ev_schema_version e with Some version => validate_schema_version version | None => Ok () end;;
  validate_bounded_string (ev_uri e) "evidence uri";;
  validate_bounded_string (ev_digest e) "evidence digest";;
  match ev_schema_version e with
  | Some _ =>
      let digest :=
        match strip_prefix "sha256:" (ev_digest e) with
        | Some digest => digest
        | None => default (ev_digest e) (strip_prefix "blake3:" (ev_digest e))
        end in
      reject_if (negb (str_len digest =? 64) || negb (all_bytes is_hex_digit digest))
        (ValidationMessage
           "evidence digest must contain a supported 64-digit hexadecimal digest")
  | None => Ok ()
  end;;
  match ev_media_type e with
  | Some media_type => validate_bounded_string media_type "evidence media_type"
  | None => Ok ()
  end.

Inductive AcceptanceState := StateAccepted | StateRejected | StateUnknown.
Inductive SignalState := SignalPassed | SignalFailed | SignalUnknown | SignalNotRun.

Record OutcomeSignalsV1 := MkOutcomeSignals {
  os_build : option SignalState;
  os_tests : option SignalState;
  os_lint : option SignalState;
  os_typecheck : option SignalState;
  os_completion : option SignalState;
  os_pr : option SignalState;
  os_correction : option SignalState;
  os_rollback : option SignalState;
  os_retry : option SignalState;
}.

Record AcceptedOutcomeV1 := MkAcceptedOutcome {
  ao_schema_version : Z;
  ao_outcome_id : string;
  ao_task_id : string;
  ao_accepted : AcceptanceState;
  ao_quality_score_milli : option Z;
  ao_signals : OutcomeSignalsV1;
  ao_contract_ref : option string;
  ao_evidence_refs : list EvidenceRefV1;
  ao_observed_at : string;
  ao_plan_id : option string;
  ao_receipt_id : option string;
  ao_decision_refs : list string;
  ao_extensions : ExtensionsV1;
}.

Definition OUTCOME_RESERVED_FIELDS : list string :=
  ["schema_version"; "outcome_id"; "task_id"; "accepted"; "quality_score_milli"; "signals";
   "contract_ref"; "evidence_refs"; "observed_at"; "plan_id"; "receipt_id"; "decision_refs"].

#[export] Instance AcceptanceState_eq_dec : EqDecision AcceptanceState.
Proof. solve_decision. Defined.

(** [AcceptedOutcomeV1::validate] *)
Definition outcome_validate (o : AcceptedOutcomeV1) : checked () :=
  validate_reserved (ao_extensions o) OUTCOME_RESERVED_FIELDS;;
  validate_schema_version (ao_schema_version o);;
  match ao_quality_score_milli o with
  | Some value => validate_milliunit value "quality_score_milli"
  | None => Ok ()
  end;;
  validate_unique_strings (ao_decision_refs o) "decision_refs";;
  reject_if (MAX_PROTOCOL_ITEMS <? Z.of_nat (length (ao_evidence_refs o)))
    (ValidationMessage "evidence_refs exceeds item limit");;
  match ao_contract_ref o with
  | Some contract_ref => validate_bounded_string contract_ref "contract_ref"
  | None => Ok ()
  end;;
  forM_ evidence_validate (ao_evidence_refs o);;
  reject_if
    (bool_decide (ao_accepted o ≠ StateUnknown) && bool_decide (length (ao_evidence_refs o) = 0%nat))
    (ValidationMessage "accepted or rejected outcome requires evidence").
End wire.
Arguments EvidenceRefV1 Value : clear implicits.
Arguments AcceptedOutcomeV1 Value : clear implicits.
#[export] Existing Instance AcceptanceState_eq_dec.
