(* ===== verification/OutcomeSignals.v ===== *)
(** * Outcome signals, contracts and fingerprints

    [rust/crates/lean-ctx-workgraph/src/outcome/{signals,contracts,fingerprint}.rs]:
    the local observations an outcome is judged on and the acceptance policy of
    each coding-task class. *)
From S2P Require Import Prelude Text.
#[local] Open Scope Z_scope.

(** ** signals.rs *)
Inductive SignalType :=
| BuildSuccess | TestsPassing | LintClean | TypecheckPassing | AgentCompletion | RetryCount
| HumanAcceptance | PrMerge | CiPassing | Correction | Rollback.
#[export] Instance SignalType_eq_dec : EqDecision SignalType.
Proof. solve_decision. Defined.

(** [SignalType::as_str], also its [Display] *)
Definition SignalType_as_str (s : SignalType) : string :=
  match s with
  | BuildSuccess => "build_success"
  | TestsPassing => "tests_passing"
  | LintClean => "lint_clean"
  | TypecheckPassing => "typecheck_passing"
  | AgentCompletion => "agent_completion"
  | RetryCount => "retry_count"
  | HumanAcceptance => "human_acceptance"
  | PrMerge => "pr_merge"
  | CiPassing => "ci_passing"
  | Correction => "correction"
  | Rollback => "rollback"
  end.

Inductive SignalValue :=
| VBoolean (value : bool)
| VCount (value : Z)
| VUnknown.
#[export] Instance SignalValue_eq_dec : EqDecision SignalValue.
Proof. solve_decision. Defined.

Record OutcomeSignal := MkSignal {
  signal_type : SignalType;
  signal_value : SignalValue;
  evidence_ref : option string;
  observed_at : option string;
}.

(** [OutcomeSignal::new], [with_metadata], [with_evidence_ref],
    [with_observed_at] and [unknown] *)
Definition OutcomeSignal_new (t : SignalType) (v : SignalValue) : OutcomeSignal :=
  MkSignal t v None None.
Definition OutcomeSignal_with_metadata (t : SignalType) (v : SignalValue)
    (evidence observed : option string) : OutcomeSignal :=
  MkSignal t v evidence observed.
Definition with_evidence_ref (evidence : string) (s : OutcomeSignal) : OutcomeSignal :=
  MkSignal (signal_type s) (signal_value s) (Some evidence) (observed_at s).
Definition with_observed_at (observed : string) (s : OutcomeSignal) : OutcomeSignal :=
  MkSignal (signal_type s) (signal_value s) (evidence_ref s) (Some observed).
Definition OutcomeSignal_unknown (t : SignalType) : OutcomeSignal := OutcomeSignal_new t VUnknown.

(** [LocalSignalAdapters] and the free functions [adapt_*] that call it *)
Definition adapt_boolean (t : SignalType) (v : bool) : OutcomeSignal :=
  OutcomeSignal_new t (VBoolean v).
Definition adapt_count (t : SignalType) (v : Z) : OutcomeSignal := OutcomeSignal_new t (VCount v).
Definition adapt_unknown (t : SignalType) : OutcomeSignal := OutcomeSignal_unknown t.
Definition adapt_build_success (v : bool) : OutcomeSignal := adapt_boolean BuildSuccess v.
Definition adapt_tests_passing (v : bool) : OutcomeSignal := adapt_boolean TestsPassing v.
Definition adapt_test_count_increased (delta : Z) : OutcomeSignal := adapt_count TestsPassing delta.
Definition adapt_lint_clean (v : bool) : OutcomeSignal := adapt_boolean LintClean v.
Definition adapt_typecheck_passing (v : bool) : OutcomeSignal := adapt_boolean TypecheckPassing v.
Definition adapt_agent_completion (v : bool) : OutcomeSignal := adapt_boolean AgentCompletion v.
Definition adapt_retry_count (v : Z) : OutcomeSignal := adapt_count RetryCount v.
Definition adapt_human_acceptance (v : bool) : OutcomeSignal := adapt_boolean HumanAcceptance v.
Definition adapt_pr_merge (v : bool) : OutcomeSignal := adapt_boolean PrMerge v.
Definition adapt_ci_passing (v : bool) : OutcomeSignal := adapt_boolean CiPassing v.
Definition adapt_correction (v : bool) : OutcomeSignal := adapt_boolean Correction v.
Definition adapt_rollback (v : bool) : OutcomeSignal := adapt_boolean Rollback v.

(** ** contracts.rs *)
Definition OUTCOME_CONTRACT_VERSION : string := "1.0.0".

Inductive TaskClass := BugFix | Refactor | TestAddition | Documentation | Investigation.
#[export] Instance TaskClass_eq_dec : EqDecision TaskClass.
Proof. solve_decision. Defined.

(** [TaskClass::as_str], also its [Display] *)
Definition TaskClass_as_str (c : TaskClass) : string :=
  match c with
  | BugFix => "bug_fix"
  | Refactor => "refactor"
  | TestAddition => "test_addition"
  | Documentation => "documentation"
  | Investigation => "investigation"
  end.

Record SignalRequirement := MkRequirement {
  req_signal_type : SignalType;
  req_required : bool;
  req_weight_milli : Z;
}.

(** [SignalRequirement::required], [optional] and [new] *)
Definition required (t : SignalType) (weight_milli : Z) : SignalRequirement :=
  MkRequirement t true weight_milli.
Definition optional (t : SignalType) (weight_milli : Z) : SignalRequirement :=
  MkRequirement t false weight_milli.
Definition SignalRequirement_new (t : SignalType) (r : bool) (weight_milli : Z) :
    SignalRequirement := MkRequirement t r weight_milli.

Record OutcomeContractV1 := MkContract {
  oc_task_class : TaskClass;
  oc_contract_version : string;
  oc_required_signals : list SignalRequirement;
  oc_optional_signals : list SignalRequirement;
  oc_expiry_window_hours : Z;
  oc_supersession_allowed : bool;
}.

Definition bug_fix_contract : OutcomeContractV1 :=
  MkContract BugFix OUTCOME_CONTRACT_VERSION
    [required BuildSuccess 500; required TestsPassing 500] [optional PrMerge 100] 168 true.

Definition refactor_contract : OutcomeContractV1 :=
  MkContract Refactor OUTCOME_CONTRACT_VERSION
    [required BuildSuccess 334; required TestsPassing 333; required LintClean 333]
    [optional TypecheckPassing 100] 168 true.

Definition test_addition_contract : OutcomeContractV1 :=
  MkContract TestAddition OUTCOME_CONTRACT_VERSION
    [required TestsPassing 600; required TestsPassing 400] [optional CiPassing 100] 336 true.

Definition documentation_contract : OutcomeContractV1 :=
  MkContract Documentation OUTCOME_CONTRACT_VERSION [required BuildSuccess 1000] [] 720 true.

Definition investigation_contract : OutcomeContractV1 :=
  MkContract Investigation OUTCOME_CONTRACT_VERSION
    [required HumanAcceptance 1000] [optional AgentCompletion 1000] 168 true.

(** [OutcomeContractV1::for_task_class] *)
Definition for_task_class (c : TaskClass) : OutcomeContractV1 :=
  match c with
  | BugFix => bug_fix_contract
  | Refactor => refactor_contract
  | TestAddition => test_addition_contract
  | Documentation => documentation_contract
  | Investigation => investigation_contract
  end.

(** [OutcomeContractV1::reference] *)
Definition contract_reference (c : OutcomeContractV1) : string :=
  "outcome-contract/" +:+ TaskClass_as_str (oc_task_class c) +:+ "/v" +:+ oc_contract_version c.

(** [OutcomeContractV1::validate] *)
Definition contract_validate (c : OutcomeContractV1) : exec string () :=
  reject_if (is_blank (oc_contract_version c)) "contract_version must not be empty";;
  reject_if
    (existsb (λ r, 1000 <? req_weight_milli r) (oc_required_signals c ++ oc_optional_signals c))
    "signal weight_milli must be between 0 and 1000";;
  reject_if (existsb req_required (oc_optional_signals c))
    "optional signal requirements must set required=false".

(** ** fingerprint.rs *)
Record TaskFingerprint := MkFingerprint {
  fp_language : option string;
  fp_task_class : TaskClass;
  fp_complexity : string;
  fp_repo_size : option string;
  fp_context_warmth : option string;
  fp_changed_loc : option Z;
  fp_tests_available : bool;
  fp_risk_class : option string;
  fp_agent : option string;
  fp_model : option string;
  fp_provider : option string;
}.

(** [TaskFingerprint::new] *)
Definition TaskFingerprint_new (c : TaskClass) (complexity : string) : TaskFingerprint :=
  MkFingerprint None c complexity None None None false None None None None.
Definition TaskFingerprint_default : TaskFingerprint := TaskFingerprint_new BugFix "unknown".

(** [format!("{}", b)] for a [bool] *)
Definition bool_str (b : bool) : string := if b then "true" else "false".

(** [TaskFingerprint::grouping_key] *)
Definition grouping_key (f : TaskFingerprint) : string :=
  join "|"
    [default "unknown" (fp_language f);
     TaskClass_as_str (fp_task_class f);
     fp_complexity f;
     default "unknown" (fp_repo_size f);
     default "unknown" (fp_context_warmth f);
     match fp_changed_loc f with None => "unknown" | Some value => pretty value end;
     bool_str (fp_tests_available f);
     default "unknown" (fp_risk_class f);
     default "unknown" (fp_agent f);
     default "unknown" (fp_model f);
     default "unknown" (fp_provider f)].
