(* ===== verification/OutcomeEvaluator.v ===== *)
(** * Outcome evaluator

    [rust/crates/lean-ctx-workgraph/src/outcome/evaluator.rs]: from the signals
    observed for a task and the contract of its class to an accepted, rejected
    or unknown outcome with its reasoning, and the append-only history of
    outcomes. *)
From S2P Require Import Prelude Text Hashing Protocol OutcomeSignals.
#[local] Open Scope Z_scope.

Definition EVALUATOR_VERSION : string := "1.0.1".
Definition DETERMINISTIC_OBSERVED_AT : string := "1970-01-01T00:00:00Z".

Record EvaluationContext := MkContext {
  ec_task_id : string;
  ec_contract_version : string;
  ec_evaluator_version : string;
}.

(** [EvaluationContext::from_signals] *)
Definition from_signals (signals : list OutcomeSignal) : EvaluationContext :=
  let task_id := default "task-unknown" (head (omap (strip_prefix "task:") (omap evidence_ref signals))) in
  MkContext task_id "unknown" EVALUATOR_VERSION.

Definition EvaluationContext_default : EvaluationContext :=
  MkContext "task-unknown" "unknown" EVALUATOR_VERSION.

Inductive ContributionStatus :=
| CPassed | CFailed | CMissing | CUnknown | CNotRequired | CAlternativeSatisfied.
#[export] Instance ContributionStatus_eq_dec : EqDecision ContributionStatus.
Proof. solve_decision. Defined.

(** [impl Display for ContributionStatus] *)
Definition ContributionStatus_fmt (s : ContributionStatus) : string :=
  match s with
  | CPassed => "passed"
  | CFailed => "failed"
  | CMissing => "missing"
  | CUnknown => "unknown"
  | CNotRequired => "not_required"
  | CAlternativeSatisfied => "alternative_satisfied"
  end.

(** [AcceptanceStateText::as_str] *)
Definition AcceptanceState_as_str (s : AcceptanceState) : string :=
  match s with
  | StateAccepted => "accepted"
  | StateRejected => "rejected"
  | StateUnknown => "unknown"
  end.

Record SignalContribution := MkContribution {
  sc_signal_type : SignalType;
  sc_required : bool;
  sc_weight_milli : Z;
  sc_value : SignalValue;
  sc_status : ContributionStatus;
  sc_contribution_milli : Z;
  sc_explanation : string;
}.

Record PolicyViolation := MkViolation {
  pv_code : string;
  pv_message : string;
}.

(** [From<String> for PolicyViolation] and [From<&str>] *)
Definition violation_from (message : string) : PolicyViolation :=
  MkViolation "policy_violation" message.

(** The trait [PolicyInput] and its implementations; owned vectors and slices
    are lists. *)
Class PolicyInput (P : Type) := violation_messages : P → list PolicyViolation.
#[export] Instance policy_bool : PolicyInput bool :=
  λ b, if b then [violation_from "policy violation"] else [].
#[export] Instance policy_strings : PolicyInput (list string) := λ l, violation_from <$> l.
#[export] Instance policy_violation : PolicyInput PolicyViolation := λ v, [v].
#[export] Instance policy_violations : PolicyInput (list PolicyViolation) := λ l, l.

(** ** Observations *)

(** [signals.iter().rfind(p)] *)
Definition rfind (p : OutcomeSignal → bool) (signals : list OutcomeSignal) : option OutcomeSignal :=
  List.find p (rev signals).

Definition is_type (t : SignalType) (s : OutcomeSignal) : bool := bool_decide (signal_type s = t).
Definition is_boolean (s : OutcomeSignal) : bool :=
  match signal_value s with VBoolean _ => true | _ => false end.
Definition is_count (s : OutcomeSignal) : bool :=
  match signal_value s with VCount _ => true | _ => false end.

Definition find_observation (task_class : TaskClass) (t : SignalType) (occurrence : nat)
    (signals : list OutcomeSignal) : option OutcomeSignal :=
  if bool_decide (task_class = Investigation) && bool_decide (t = HumanAcceptance) then
    let agent := rfind (is_type AgentCompletion) signals in
    match rfind (is_type HumanAcceptance) signals with
    | Some human => match signal_value human with VUnknown => agent | _ => Some human end
    | None => agent
    end
  else if bool_decide (task_class = TestAddition) && bool_decide (t = TestsPassing) then
    if bool_decide (occurrence = 0%nat) then
      rfind (λ s, is_type TestsPassing s && is_boolean s) signals
    else
      match rfind (λ s, is_type TestsPassing s && is_count s) signals with
      | Some count_delta => Some count_delta
      | None => rfind (λ s, is_type AgentCompletion s && is_count s) signals
      end
  else rfind (is_type t) signals.

Definition value_passes (t : SignalType) (value : SignalValue) : bool :=
  match value with
  | VBoolean value => value
  | VCount value => match t with RetryCount => true | _ => 0 <? value end
  | VUnknown => false
  end.

Definition has_positive_signal (t : SignalType) (signals : list OutcomeSignal) : bool :=
  existsb (λ s, is_type t s && value_passes t (signal_value s)) signals.

Definition evaluate_requirement (task_class : TaskClass) (t : SignalType) (req : bool)
    (weight_milli : Z) (occurrence : nat) (signals : list OutcomeSignal) : SignalContribution :=
  let '(value, status, explanation) :=
    match find_observation task_class t occurrence signals with
    | None =>
        (VUnknown, if req then CMissing else CNotRequired,
         if req then "required signal not observed" else "optional signal not observed")
    | Some signal =>
        match signal_value signal with
        | VUnknown => (VUnknown, CUnknown, "signal observed with unknown value")
        | value =>
            let passed := value_passes t value in
            let status :=
              if passed then
                if bool_decide (task_class = Investigation) && bool_decide (t = HumanAcceptance)
                   && negb (has_positive_signal HumanAcceptance signals)
                then CAlternativeSatisfied else CPassed
              else CFailed in
            (value, status,
             "observed value contributed " +:+ (if passed then "success" else "failure"))
        end
    end in
  let contribution_milli :=
    match status with CPassed | CAlternativeSatisfied => weight_milli | _ => 0 end in
  MkContribution t req weight_milli value status contribution_milli explanation.

(** ** Protocol projection *)
Definition latest_state (signals : list OutcomeSignal) (types : list SignalType) :
    option SignalState :=
  (λ s, match signal_value s with
        | VBoolean value => if value then SignalPassed else SignalFailed
        | VCount value => if 0 <? value then SignalPassed else SignalFailed
        | VUnknown => SignalUnknown
        end) <$> rfind (λ s, bool_decide (signal_type s ∈ types)) signals.

Definition project_protocol_signals (signals : list OutcomeSignal) : OutcomeSignalsV1 := {|
  os_build := latest_state signals [BuildSuccess; CiPassing];
  os_tests := latest_state signals [TestsPassing];
  os_lint := latest_state signals [LintClean];
  os_typecheck := latest_state signals [TypecheckPassing];
  os_completion := latest_state signals [AgentCompletion; HumanAcceptance];
  os_pr := latest_state signals [PrMerge];
  os_correction := latest_state signals [Correction];
  os_rollback := latest_state signals [Rollback];
  os_retry := latest_state signals [RetryCount];
|}.

(** [make_outcome_id] and [make_task_id]; the inner [unreachable!] is the
    panic of a fallback that is itself not an identifier. *)
Definition make_outcome_id (value : string) : string :=
  match OutcomeId_new value with Ok id => id | _ => "outcome-unknown" end.
Definition make_task_id (value : string) : string :=
  match TaskId_new value with Ok id => id | _ => "task-unknown" end.

(** ** Evaluation *)
Definition signal_type_index (t : SignalType) : nat :=
  match t with
  | BuildSuccess => 0 | TestsPassing => 1 | LintClean => 2 | TypecheckPassing => 3
  | AgentCompletion => 4 | RetryCount => 5 | HumanAcceptance => 6 | PrMerge => 7
  | CiPassing => 8 | Correction => 9 | Rollback => 10
  end%nat.

(** [occurrence_index]: the count of a type so far, and the incremented array. *)
Definition occurrence_index (counts : list nat) (t : SignalType) : nat * list nat :=
  let index := signal_type_index t in
  let occurrence := default 0%nat (counts !! index) in
  (occurrence, <[index := S occurrence]> counts).

(** The loop over the required signals with its array of occurrences. *)
Fixpoint evaluate_required (task_class : TaskClass) (counts : list nat)
    (requirements : list SignalRequirement) (signals : list OutcomeSignal) :
    list SignalContribution :=
  match requirements with
  | [] => []
  | r :: rest =>
      let '(occurrence, counts) := occurrence_index counts (req_signal_type r) in
      evaluate_requirement task_class (req_signal_type r) (req_required r) (req_weight_milli r)
        occurrence signals
      :: evaluate_required task_class counts rest signals
  end.

Definition evaluate_contributions (contract : OutcomeContractV1) (signals : list OutcomeSignal) :
    list SignalContribution :=
  evaluate_required (oc_task_class contract) (replicate 11 0%nat) (oc_required_signals contract)
    signals
  ++ ((λ r, evaluate_requirement (oc_task_class contract) (req_signal_type r) false
              (req_weight_milli r) 0 signals) <$> oc_optional_signals contract).

(** [iter.sum::<u32>()] *)
Definition sum_u32 (l : list Z) : Z := foldl (wrapping_add u32_max) 0 l.

Definition is_satisfied (s : ContributionStatus) : bool :=
  match s with CPassed | CAlternativeSatisfied => true | _ => false end.
Definition is_unobserved (s : ContributionStatus) : bool :=
  match s with CMissing | CUnknown => true | _ => false end.

Definition total_required_weight (cs : list SignalContribution) : Z :=
  sum_u32 (sc_weight_milli <$> filter (λ c, sc_required c = true) cs).
Definition passed_required_weight (cs : list SignalContribution) : Z :=
  sum_u32 (sc_weight_milli <$>
    filter (λ c, is_satisfied (sc_status c) = true) (filter (λ c, sc_required c = true) cs)).

Definition acceptance (cs : list SignalContribution) (violations : list PolicyViolation) :
    AcceptanceState :=
  let required_failed := existsb (λ c, sc_required c && bool_decide (sc_status c = CFailed)) cs in
  let required_unknown := existsb (λ c, sc_required c && is_unobserved (sc_status c)) cs in
  if negb (bool_decide (length violations = 0%nat)) || required_failed then StateRejected
  else if required_unknown then StateUnknown
  else StateAccepted.

Definition quality_score (state : AcceptanceState) (cs : list SignalContribution)
    (signals : list OutcomeSignal) : option Z :=
  match state with
  | StateAccepted => Some 1000
  | StateRejected => Some 0
  | StateUnknown =>
      match signals with
      | [] => None
      | _ =>
          let total := total_required_weight cs in
          Some (if total =? 0 then 0
                else Z.min (Z.min u32_max (passed_required_weight cs * 1000) / total) 1000)
      end
  end.

Definition contribution_reason (c : SignalContribution) : string :=
  SignalType_as_str (sc_signal_type c) +:+ "=" +:+ ContributionStatus_fmt (sc_status c)
  +:+ " (required=" +:+ bool_str (sc_required c)
  +:+ ", weight=" +:+ pretty (sc_weight_milli c)
  +:+ ", contribution=" +:+ pretty (sc_contribution_milli c)
  +:+ "): " +:+ sc_explanation c.

Definition reasoning (cs : list SignalContribution) (violations : list PolicyViolation)
    (state : AcceptanceState) : list string :=
  (contribution_reason <$> cs)
  ++ (match violations with
      | [] => []
      | _ => ["policy violation overrides signal result: "
              +:+ join ", " ((λ v, pv_code v +:+ ": " +:+ pv_message v) <$> violations)]
      end)
  ++ ["final state: " +:+ AcceptanceState_as_str state].

Section evaluate.
Context {Value : Type} `{Blake3} `{Sha256}.
(** [serde_json::to_vec(&(contract, signals))]: third-party code. *)
Context (to_json : OutcomeContractV1 → list OutcomeSignal → string).

Record OutcomeEvaluation := MkEvaluation {
  oe_result : AcceptedOutcomeV1 Value;
  oe_reasoning : list string;
  oe_signals_used : list SignalType;
  oe_outcome : AcceptedOutcomeV1 Value;
  oe_contributions : list SignalContribution;
  oe_evaluator_version : string;
  oe_policy_violations : list PolicyViolation;
  oe_supersedes : option string;
}.

(** [OutcomeEvaluation::{state, is_accepted, is_unknown, explanation}] *)
Definition oe_state (e : OutcomeEvaluation) : AcceptanceState := ao_accepted (oe_outcome e).
Definition oe_is_accepted (e : OutcomeEvaluation) : bool :=
  match oe_state e with StateAccepted => true | _ => false end.
Definition oe_is_unknown (e : OutcomeEvaluation) : bool :=
  match oe_state e with StateUnknown => true | _ => false end.
Definition explanation (e : OutcomeEvaluation) : string := join "; " (oe_reasoning e).

Definition context_outcome_id (c : EvaluationContext) : string :=
  let seed :=
    "outcome-v1:" +:+ ec_task_id c +:+ ":" +:+ ec_contract_version c +:+ ":"
    +:+ ec_evaluator_version c in
  make_outcome_id ("outcome:" +:+ blake3_hex seed).

Definition outcome_evidence (contract : OutcomeContractV1) (signals : list OutcomeSignal)
    (outcome_id : string) : EvidenceRefV1 Value := {|
  ev_schema_version := Some 1;
  ev_kind := QualityMeasurement;
  ev_uri := "urn:lean-ctx:outcome-evaluation:" +:+ outcome_id;
  ev_digest := "sha256:" +:+ sha256_hex (to_json contract signals);
  ev_signature_status := NotSigned;
  ev_media_type := Some "application/json";
  ev_extensions := ∅;
|}.

Definition evaluate_internal (contract : OutcomeContractV1) (signals : list OutcomeSignal)
    (context : EvaluationContext) (violations : list PolicyViolation) : OutcomeEvaluation :=
  let contributions := evaluate_contributions contract signals in
  let state := acceptance contributions violations in
  let outcome_id := context_outcome_id context in
  let outcome := {|
    ao_schema_version := 1;
    ao_outcome_id := outcome_id;
    ao_task_id := make_task_id (ec_task_id context);
    ao_accepted := state;
    ao_quality_score_milli := quality_score state contributions signals;
    ao_signals := project_protocol_signals signals;
    ao_contract_ref := Some (contract_reference contract);
    ao_evidence_refs :=
      match state with
      | StateUnknown => []
      | _ => [outcome_evidence contract signals outcome_id]
      end;
    ao_observed_at := DETERMINISTIC_OBSERVED_AT;
    ao_plan_id := None;
    ao_receipt_id := None;
    ao_decision_refs := [];
    ao_extensions := ∅;
  |} in
  {| oe_result := outcome;
     oe_reasoning := reasoning contributions violations state;
     oe_signals_used := signal_type <$> signals;
     oe_outcome := outcome;
     oe_contributions := contributions;
     oe_evaluator_version := ec_evaluator_version context;
     oe_policy_violations := violations;
     oe_supersedes := None |}.

(** [OutcomeEvaluator::{evaluate, evaluate_with_context, evaluate_with_policy}]
    and the free functions [evaluate_detailed*] that call them *)
Definition evaluate_with_context (contract : OutcomeContractV1) (signals : list OutcomeSignal)
    (context : EvaluationContext) : OutcomeEvaluation :=
  evaluate_internal contract signals context [].
Definition evaluate_detailed (contract : OutcomeContractV1) (signals : list OutcomeSignal) :
    OutcomeEvaluation :=
  evaluate_with_context contract signals (from_signals signals).
Definition evaluate_detailed_with_policy {P : Type} `{PolicyInput P} (contract : OutcomeContractV1)
    (signals : list OutcomeSignal) (policy : P) : OutcomeEvaluation :=
  evaluate_internal contract signals (from_signals signals) (violation_messages policy).
(** The free functions that return the wire outcome only *)
Definition evaluate (contract : OutcomeContractV1) (signals : list OutcomeSignal) :
    AcceptedOutcomeV1 Value := oe_outcome (evaluate_detailed contract signals).
Definition evaluate_with_policy {P : Type} `{PolicyInput P} (contract : OutcomeContractV1)
    (signals : list OutcomeSignal) (policy : P) : AcceptedOutcomeV1 Value :=
  oe_outcome (evaluate_detailed_with_policy contract signals policy).

Definition set_identity (outcome_id task_id observed_at : string) (o : AcceptedOutcomeV1 Value) :
    AcceptedOutcomeV1 Value :=
  MkAcceptedOutcome (ao_schema_version o) outcome_id task_id (ao_accepted o)
    (ao_quality_score_milli o) (ao_signals o) (ao_contract_ref o) (ao_evidence_refs o) observed_at
    (ao_plan_id o) (ao_receipt_id o) (ao_decision_refs o) (ao_extensions o).

Definition evaluate_for_task (contract : OutcomeContractV1) (signals : list OutcomeSignal)
    (outcome_id task_id observed_at : string) : AcceptedOutcomeV1 Value :=
  let outcome :=
    oe_result (evaluate_with_context contract signals
      (MkContext task_id (oc_contract_version contract) EVALUATOR_VERSION)) in
  set_identity (make_outcome_id outcome_id) (make_task_id task_id) observed_at outcome.
End evaluate.
Arguments OutcomeEvaluation Value : clear implicits.

(** ** History *)
Section history.
Context {Value : Type}.

Record OutcomeRecord := MkRecord {
  or_outcome : AcceptedOutcomeV1 Value;
  or_supersedes : option string;
}.

(** [OutcomeHistory { records }] *)
Definition OutcomeHistory : Type := list OutcomeRecord.
Definition history_latest (h : OutcomeHistory) : option OutcomeRecord := last h.

Definition set_outcome_id (id : string) (o : AcceptedOutcomeV1 Value) : AcceptedOutcomeV1 Value :=
  set_identity id (ao_task_id o) (ao_observed_at o) o.

Definition append_internal (outcome : AcceptedOutcomeV1 Value) (supersession_allowed : bool) :
    op OutcomeHistory string OutcomeRecord := λ records,
  let previous :=
    if supersession_allowed then
      List.find (λ record,
          bool_decide (ao_task_id (or_outcome record) = ao_task_id outcome)
          && bool_decide (ao_contract_ref (or_outcome record) = ao_contract_ref outcome))
        (rev records)
    else None in
  let supersedes := (λ record, ao_outcome_id (or_outcome record)) <$> previous in
  let outcome :=
    if bool_decide (supersedes = Some (ao_outcome_id outcome)) then
      set_outcome_id
        (make_outcome_id
           ("outcome-superseding-" +:+ pretty (Z.of_nat (length records) + 1))) outcome
    else outcome in
  let record := MkRecord outcome supersedes in
  (records ++ [record], Ok record).

(** [OutcomeHistory::{append, append_for_contract, append_evaluation}] *)
Definition append (outcome : AcceptedOutcomeV1 Value) : op OutcomeHistory string OutcomeRecord :=
  append_internal outcome true.
Definition append_for_contract (outcome : AcceptedOutcomeV1 Value) (contract : OutcomeContractV1) :
    op OutcomeHistory string OutcomeRecord :=
  append_internal outcome (oc_supersession_allowed contract).
Definition append_evaluation (evaluation : OutcomeEvaluation Value) :
    op OutcomeHistory string OutcomeRecord :=
  append (oe_outcome evaluation).
End history.
Arguments OutcomeRecord Value : clear implicits.
Arguments OutcomeHistory Value : clear implicits.
