(* ===== verification/OutcomeFacts.v ===== *)
(** * Outcome evaluation: correctness

    What the evaluator decides from signals, that its outcomes satisfy the
    protocol's own validation, and what the append-only history keeps. *)
From S2P Require Import Prelude Text Hashing Protocol OutcomeSignals OutcomeEvaluator.
#[local] Open Scope Z_scope.

(** ** Acceptance *)
Lemma existsb_false {A} (p : A → bool) l : existsb p l = false ↔ ∀ x, x ∈ l → p x = false.
Proof.
  rewrite <-not_true_iff_false, existsb_exists. setoid_rewrite <-list_elem_of_In. split.
  - intros H x Hx. apply not_true_iff_false. naive_solver.
  - intros H (x & Hx & Hp). rewrite H in Hp; naive_solver.
Qed.

(** A required contribution decides against the task when it was observed and
    failed, and leaves it undecided when it was not observed. *)
Definition required_failed (c : SignalContribution) : Prop :=
  sc_required c = true ∧ sc_status c = CFailed.
Definition required_unobserved (c : SignalContribution) : Prop :=
  sc_required c = true ∧ is_unobserved (sc_status c) = true.

Lemma acceptance_Rejected cs vs :
  acceptance cs vs = StateRejected ↔ vs ≠ [] ∨ ∃ c, c ∈ cs ∧ required_failed c.
Proof.
  unfold acceptance, required_failed. case_bool_decide as Hv; cbn [negb orb].
  2: { split; [|done]. intros _. left. by intros ->. }
  destruct (existsb _ cs) eqn:Hf.
  - split; [|done]. intros _. right. apply existsb_exists in Hf
      as (c & Hc%list_elem_of_In & [? ?%bool_decide_eq_true]%andb_true_iff). eauto.
  - split; [by case_match|]. rewrite existsb_false in Hf.
    intros [H|(c & Hc & Hr & Hs)]; [by apply nil_length_inv in Hv|].
    specialize (Hf c Hc). rewrite Hr, Hs in Hf. done.
Qed.

Lemma acceptance_Unknown cs vs :
  acceptance cs vs = StateUnknown ↔
  acceptance cs vs ≠ StateRejected ∧ ∃ c, c ∈ cs ∧ required_unobserved c.
Proof.
  unfold acceptance, required_unobserved. destruct (_ || _); [split; [done|by intros []]|].
  destruct (existsb _ cs) eqn:Hu.
  - apply existsb_exists in Hu as (c & Hc%list_elem_of_In & [? ?]%andb_true_iff). naive_solver.
  - rewrite existsb_false in Hu. split; [done|]. intros (_ & c & Hc & Hr & Hs).
    specialize (Hu c Hc). by rewrite Hr, Hs in Hu.
Qed.

Lemma evaluate_requirement_meta tc t req w occ signals :
  let c := evaluate_requirement tc t req w occ signals in
  sc_signal_type c = t ∧ sc_required c = req ∧ sc_weight_milli c = w
  ∧ (req = true → sc_status c ≠ CNotRequired)
  ∧ sc_contribution_milli c = if is_satisfied (sc_status c) then w else 0.
Proof.
  unfold evaluate_requirement. destruct (find_observation _ _ _ _) as [s|].
  - destruct (signal_value s) as [v|v|]; cbn [sc_signal_type]; [| |done];
      (destruct (value_passes t _); [destruct (_ && _)|]); done.
  - destruct req; done.
Qed.

Lemma evaluate_required_elem tc counts rs signals c :
  c ∈ evaluate_required tc counts rs signals →
  ∃ r occ, r ∈ rs ∧ c = evaluate_requirement tc (req_signal_type r) (req_required r)
                          (req_weight_milli r) occ signals.
Proof.
  revert counts. induction rs as [|r rs IH]; intros counts; cbn [evaluate_required]; [set_solver|].
  destruct (occurrence_index counts (req_signal_type r)) as [occ counts'].
  intros [->|(r' & occ' & ? & ->)%IH]%elem_of_cons; [exists r, occ|exists r', occ'];
    (split; [set_solver|done]).
Qed.

(** Every contribution is the evaluation of one requirement of the contract. *)
Lemma evaluate_contributions_elem contract signals c :
  c ∈ evaluate_contributions contract signals →
  ∃ t req w occ, c = evaluate_requirement (oc_task_class contract) t req w occ signals.
Proof.
  unfold evaluate_contributions. rewrite elem_of_app, list_elem_of_fmap.
  intros [(r & occ & _ & ->)%evaluate_required_elem|(r & -> & _)]; eauto 6.
Qed.

Lemma contribution_unsatisfied contract signals c :
  c ∈ evaluate_contributions contract signals → sc_required c = true →
  is_satisfied (sc_status c) = false → required_failed c ∨ required_unobserved c.
Proof.
  intros (t & req & w & occ & ->)%evaluate_contributions_elem.
  pose proof (evaluate_requirement_meta (oc_task_class contract) t req w occ signals)
    as (_ & Hreq & _ & Hs & _).
  unfold required_failed, required_unobserved. intros Hr. rewrite Hreq in *. specialize (Hs Hr).
  destruct (sc_status _); try done; naive_solver.
Qed.

(** ** Scores *)
Lemma quality_score_range st cs signals q :
  quality_score st cs signals = Some q → 0 ≤ q ≤ 1000.
Proof.
  unfold quality_score. destruct st; [intros [= <-]; lia..|].
  destruct signals as [|s signals]; [done|]. intros [= <-].
  assert (∀ l a, 0 ≤ a → 0 ≤ foldl (wrapping_add u32_max) a l) as Hsum.
  { induction l as [|x l IH]; intros a Ha; cbn; [done|]. apply IH, Z.mod_pos. by vm_compute. }
  assert (0 ≤ total_required_weight cs) by by apply Hsum.
  assert (0 ≤ passed_required_weight cs) by by apply Hsum.
  destruct (Z.eqb_spec (total_required_weight cs) 0); [lia|].
  assert (0 ≤ Z.min u32_max (passed_required_weight cs * 1000) / total_required_weight cs); [|lia].
  apply Z.div_pos; [|lia]. unfold u32_max. lia.
Qed.

(** ** Identifiers *)
Lemma bounded_identifier_Ok value name :
  validate_bounded_opaque_identifier value name = Ok () ↔
  is_blank value = false ∧ str_len value ≤ MAX_IDENTIFIER_LENGTH ∧ has_control value = false.
Proof.
  unfold validate_bounded_opaque_identifier. repeat setoid_rewrite exec_bind_Ok.
  setoid_rewrite reject_if_Ok. setoid_rewrite Z.ltb_ge. split.
  - by intros ([] & ? & [] & ? & ?).
  - intros (? & ? & ?). by do 2 (exists (); split; [done|]).
Qed.

(** Text that starts with a visible character, is printable and short passes
    every identifier check. *)
Definition visible_head (s : string) : bool :=
  match s with String a _ => byte_in 33 126 a | EmptyString => false end.

Lemma printable_identifier value name :
  visible_head value = true → all_bytes is_printable value = true →
  str_len value ≤ MAX_IDENTIFIER_LENGTH →
  validate_bounded_opaque_identifier value name = Ok ().
Proof.
  intros Ha Hr Hl. apply bounded_identifier_Ok.
  split; [by destruct value; [|apply visible_not_blank]|]. split; [done|].
  by apply printable_no_control.
Qed.

Section identifiers.
Context `{Blake3Hex} `{Sha256Hex}.

Lemma blake3_printable s : all_bytes is_printable (blake3_hex s) = true.
Proof. apply hash_printable, blake3_hex_digits. Qed.
Lemma sha256_printable s : all_bytes is_printable (sha256_hex s) = true.
Proof. apply hash_printable, sha256_hex_digits. Qed.

(** The identifier of an outcome is the hash itself, never the fallback. *)
Lemma context_outcome_id_hash c :
  ∃ seed, context_outcome_id c = "outcome:" +:+ blake3_hex seed.
Proof.
  unfold context_outcome_id, make_outcome_id, OutcomeId_new, bounded_identifier_new.
  eexists. rewrite printable_identifier; [done|done| |].
  - by rewrite all_bytes_app, blake3_printable.
  - rewrite str_len_app, blake3_hex_len. by vm_compute.
Qed.

Lemma lower_hex_is_hex s : all_bytes is_lower_hex s = true → all_bytes is_hex_digit s = true.
Proof.
  apply all_bytes_impl. intros a. unfold is_lower_hex, is_hex_digit.
  rewrite !orb_true_iff. naive_solver.
Qed.

Lemma outcome_evidence_valid {Value} to_json contract signals c :
  evidence_validate
    (outcome_evidence (Value := Value) to_json contract signals (context_outcome_id c)) = Ok ().
Proof.
  destruct (context_outcome_id_hash c) as [seed ->].
  unfold outcome_evidence, evidence_validate. cbn [ev_extensions ev_schema_version ev_uri
    ev_digest ev_media_type].
  assert (validate_reserved (Value := Value) ∅ EVIDENCE_RESERVED_FIELDS = Ok ()) as -> by done.
  unfold validate_bounded_string. rewrite !printable_identifier; try done.
  - rewrite (proj2 (strip_prefix_Some _ _ _) eq_refl).
    rewrite sha256_hex_len, lower_hex_is_hex by apply sha256_hex_digits. done.
  - by rewrite !all_bytes_app, blake3_printable.
  - rewrite !str_len_app, blake3_hex_len. by vm_compute.
  - by rewrite all_bytes_app, sha256_printable.
  - rewrite str_len_app, sha256_hex_len. by vm_compute.
Qed.
End identifiers.

(** ** Observations *)
(** The search from the end finds the last element that satisfies the test. *)
Lemma find_rev_last {A} (p : A → bool) (P : A → Prop) `{∀ x, Decision (P x)} (l : list A) :
  (∀ x, p x = true ↔ P x) → List.find p (rev l) = last (filter P l).
Proof.
  intros HP. induction l as [|x l IH] using rev_ind; [done|].
  rewrite rev_app_distr, filter_app. cbn [rev app List.find].
  destruct (p x) eqn:E.
  - apply HP in E. by rewrite filter_cons_True, filter_nil, last_snoc.
  - rewrite filter_cons_False, filter_nil, app_nil_r; [exact IH|]. intros Hx%HP. congruence.
Qed.

(** The latest observation of a signal type. *)
Definition latest (t : SignalType) (signals : list OutcomeSignal) : option OutcomeSignal :=
  last (filter (λ s, signal_type s = t) signals).

Definition plain_class (tc : TaskClass) : Prop := tc ≠ Investigation ∧ tc ≠ TestAddition.

Lemma find_observation_plain tc t occ signals :
  plain_class tc → find_observation tc t occ signals = latest t signals.
Proof.
  intros [H1 H2]. unfold find_observation, latest.
  rewrite (bool_decide_eq_false_2 _ H1), (bool_decide_eq_false_2 _ H2). cbn.
  apply find_rev_last. intros s. apply bool_decide_eq_true.
Qed.

Lemma evaluate_requirement_satisfied tc t req w occ signals :
  plain_class tc →
  is_satisfied (sc_status (evaluate_requirement tc t req w occ signals)) = true ↔
  ∃ s, latest t signals = Some s ∧ value_passes t (signal_value s) = true.
Proof.
  intros Hp. unfold evaluate_requirement. rewrite find_observation_plain by done.
  destruct Hp as [Hp _]. rewrite (bool_decide_eq_false_2 _ Hp). cbn [andb].
  destruct (latest t signals) as [s|]; [|by destruct req; (split; [|intros (? & ? & ?)])].
  destruct (signal_value s) as [v|v|] eqn:E; cbn [sc_status];
    [destruct (value_passes t (VBoolean v)) eqn:Ev|destruct (value_passes t (VCount v)) eqn:Ev|];
    (split; [intros H|intros (s' & [= <-] & H)]; try done;
     try (exists s; by rewrite E); rewrite E in H; first [congruence|done]).
Qed.

(** Each requirement has its contribution. *)
Lemma evaluate_required_covers tc counts rs signals r :
  r ∈ rs → ∃ occ, evaluate_requirement tc (req_signal_type r) (req_required r) (req_weight_milli r)
                    occ signals ∈ evaluate_required tc counts rs signals.
Proof.
  revert counts. induction rs as [|r' rs IH]; intros counts; cbn [evaluate_required]; [set_solver|].
  destruct (occurrence_index counts (req_signal_type r')) as [occ counts'].
  intros [->|Hr]%elem_of_cons; [exists occ; left|].
  destruct (IH counts' Hr) as [occ' H]. exists occ'. by right.
Qed.

Lemma required_contribution_elem contract signals c :
  c ∈ evaluate_contributions contract signals → sc_required c = true →
  ∃ r occ, r ∈ oc_required_signals contract ∧ req_required r = true ∧
    c = evaluate_requirement (oc_task_class contract) (req_signal_type r) true
          (req_weight_milli r) occ signals.
Proof.
  unfold evaluate_contributions. rewrite elem_of_app, list_elem_of_fmap.
  intros [(r & occ & Hr & ->)%evaluate_required_elem|(r & -> & _)] Hreq.
  - pose proof (evaluate_requirement_meta (oc_task_class contract) (req_signal_type r)
      (req_required r) (req_weight_milli r) occ signals) as (_ & H & _).
    rewrite H in Hreq. exists r, occ. by rewrite Hreq.
  - pose proof (evaluate_requirement_meta (oc_task_class contract) (req_signal_type r)
      false (req_weight_milli r) 0%nat signals) as (_ & H & _). congruence.
Qed.

Lemma acceptance_Accepted contract signals vs :
  acceptance (evaluate_contributions contract signals) vs = StateAccepted ↔
  vs = [] ∧ ∀ c, c ∈ evaluate_contributions contract signals → sc_required c = true →
    is_satisfied (sc_status c) = true.
Proof.
  set (cs := evaluate_contributions contract signals). split.
  - intros Ha.
    assert (¬ (vs ≠ [] ∨ ∃ c, c ∈ cs ∧ required_failed c)) as Hr
      by (rewrite <-acceptance_Rejected, Ha; done).
    assert (¬ ∃ c, c ∈ cs ∧ required_unobserved c) as Hu.
    { intros Hu. assert (acceptance cs vs = StateUnknown); [|congruence].
      apply acceptance_Unknown. split; [congruence|done]. }
    split; [destruct vs; [done|]; exfalso; apply Hr; by left|].
    intros c Hc Hreq. apply not_false_iff_true. intros Hs.
    destruct (contribution_unsatisfied contract signals c Hc Hreq Hs); naive_solver.
  - intros [-> H]. destruct (acceptance cs []) eqn:E; [done| |].
    + apply acceptance_Rejected in E as [?|(c & Hc & Hr & Hs)]; [done|].
      specialize (H c Hc Hr). by rewrite Hs in H.
    + apply acceptance_Unknown in E as (_ & c & Hc & Hr & Hs).
      specialize (H c Hc Hr). by destruct (sc_status c).
Qed.

(** The contract references of the five task classes. *)
Lemma contract_reference_valid tc :
  validate_bounded_string (contract_reference (for_task_class tc)) "contract_ref" = Ok ().
Proof. by destruct tc; vm_compute. Qed.

Definition required_weight (c : OutcomeContractV1) : Z :=
  foldr Z.add 0 (req_weight_milli <$> oc_required_signals c).

(** ** Properties *)

(** Every task class has a contract for exactly that class which passes its
    own validation, lists its required signals as required and gives them a
    total weight of one thousand thousandths. *)
Theorem canonical_contract_valid tc :
  contract_validate (for_task_class tc) = Ok ()
  ∧ oc_task_class (for_task_class tc) = tc
  ∧ Forall (λ r, req_required r = true) (oc_required_signals (for_task_class tc))
  ∧ required_weight (for_task_class tc) = 1000.
Proof. destruct tc; (split; [by vm_compute|]; split; [done|]; split; [by repeat constructor|done]). Qed.

Section evaluation_properties.
Context {Value : Type} `{Blake3} `{Sha256}.
Context (to_json : OutcomeContractV1 → list OutcomeSignal → string).
Notation evaluation c signals ctx vs :=
  (evaluate_internal (Value := Value) to_json c signals ctx vs).

(** An evaluation rejects exactly when a policy violation was reported or
    a required signal was observed and failed; it accepts exactly when there
    is neither and every required signal is satisfied; it is otherwise
    unknown.  No optional signal changes the verdict, and a policy violation
    overrides every signal. *)
Theorem evaluation_verdict contract signals ctx vs :
  let e := evaluation contract signals ctx vs in
  (oe_state e = StateRejected ↔
     vs ≠ [] ∨ ∃ c, c ∈ oe_contributions e ∧ required_failed c)
  ∧ (oe_state e = StateAccepted ↔
       vs = [] ∧ ∀ c, c ∈ oe_contributions e → sc_required c = true →
         is_satisfied (sc_status c) = true)
  ∧ (oe_state e = StateUnknown ↔
       oe_state e ≠ StateRejected ∧ ∃ c, c ∈ oe_contributions e ∧ required_unobserved c).
Proof.
  cbn. split; [apply acceptance_Rejected|]. split; [apply acceptance_Accepted|].
  apply acceptance_Unknown.
Qed.

(** For the task classes without a special observation rule, a task is
    accepted exactly when, absent violations, the latest observation of each
    required signal is a success; earlier observations of the same signal do
    not count. *)
Theorem accepted_iff_latest_pass contract signals ctx vs :
  plain_class (oc_task_class contract) →
  Forall (λ r, req_required r = true) (oc_required_signals contract) →
  oe_state (evaluation contract signals ctx vs) = StateAccepted ↔
  vs = [] ∧ ∀ r, r ∈ oc_required_signals contract →
    ∃ s, latest (req_signal_type r) signals = Some s
      ∧ value_passes (req_signal_type r) (signal_value s) = true.
Proof.
  intros Hp Hall. rewrite Forall_forall in Hall. cbn. rewrite acceptance_Accepted.
  apply and_iff_compat_l. split.
  - intros Hsat r Hr. destruct (evaluate_required_covers (oc_task_class contract)
      (replicate 11 0%nat) (oc_required_signals contract) signals r Hr) as [occ Hin].
    eapply evaluate_requirement_satisfied; [exact Hp|]. apply Hsat.
    + apply elem_of_app. left. exact Hin.
    + pose proof (evaluate_requirement_meta (oc_task_class contract) (req_signal_type r)
        (req_required r) (req_weight_milli r) occ signals) as (_ & -> & _). by apply Hall.
  - intros Hsat c Hc Hreq.
    destruct (required_contribution_elem _ _ _ Hc Hreq) as (r & occ & Hr & _ & ->).
    by apply evaluate_requirement_satisfied, Hsat.
Qed.

(** The quality score is 1000 for an accepted task, 0 for a rejected one,
    absent for an unknown one without signals, and never above 1000. *)
Theorem quality_score_spec contract signals ctx vs :
  let e := evaluation contract signals ctx vs in
  match oe_state e, ao_quality_score_milli (oe_outcome e) with
  | StateAccepted, q => q = Some 1000
  | StateRejected, q => q = Some 0
  | StateUnknown, Some q => 0 ≤ q ≤ 1000 ∧ signals ≠ []
  | StateUnknown, None => signals = []
  end.
Proof.
  intros e. destruct (oe_state e) eqn:E; cbn in E |- *; rewrite E; [done..|].
  destruct (quality_score StateUnknown _ signals) as [q|] eqn:Eq.
  - split; [by eapply quality_score_range|]. by intros ->.
  - cbn in Eq. by destruct signals.
Qed.

(** C37: every outcome the evaluator builds for a contract whose reference is a
    legal identifier passes the protocol's validation: the score is in range,
    a decided outcome carries evidence, and the evidence digest and identifier
    are well formed. *)
Theorem evaluation_validates `{!Blake3Hex} `{!Sha256Hex} contract signals ctx vs :
  validate_bounded_string (contract_reference contract) "contract_ref" = Ok () →
  outcome_validate (oe_outcome (evaluation contract signals ctx vs)) = Ok ().
Proof.
  intros Href. unfold outcome_validate.
  cbn [oe_outcome evaluate_internal ao_extensions ao_schema_version ao_quality_score_milli
    ao_decision_refs ao_evidence_refs ao_contract_ref ao_accepted].
  set (state := acceptance _ vs).
  assert (validate_reserved (Value := Value) ∅ OUTCOME_RESERVED_FIELDS = Ok ()) as -> by done.
  assert (match quality_score state (evaluate_contributions contract signals) signals with
          | Some value => validate_milliunit value "quality_score_milli"
          | None => Ok () end = Ok ()) as ->.
  { destruct (quality_score _ _ _) as [q|] eqn:Eq; [|done].
    apply quality_score_range in Eq. unfold validate_milliunit.
    by replace (1000 <? q) with false by lia. }
  rewrite Href. destruct state; cbn -[outcome_evidence evidence_validate]; [| |done];
    by rewrite outcome_evidence_valid.
Qed.
End evaluation_properties.

Definition sample_json (_ : OutcomeContractV1) (_ : list OutcomeSignal) : string := "{}".

Lemma accepted_iff_latest_pass_witness :
  oe_state (@evaluate_internal () sample_blake3 sample_sha256 sample_json bug_fix_contract
    [adapt_build_success false; adapt_tests_passing true; adapt_build_success true]
    EvaluationContext_default []) = StateAccepted.
Proof.
  apply (@accepted_iff_latest_pass () sample_blake3 sample_sha256 sample_json bug_fix_contract).
  - by split.
  - by repeat constructor.
  - split; [done|]. intros r Hr. apply elem_of_cons in Hr as [->|Hr].
    + exists (adapt_build_success true). split; by vm_compute.
    + apply list_elem_of_singleton in Hr as ->. exists (adapt_tests_passing true).
      split; by vm_compute.
Defined.

Lemma evaluation_validates_witness :
  outcome_validate (oe_outcome (@evaluate_internal () sample_blake3 sample_sha256 sample_json
    bug_fix_contract [adapt_build_success true] EvaluationContext_default
    [violation_from "unsafe"])) = Ok ().
Proof.
  apply (@evaluation_validates () sample_blake3 sample_sha256 sample_json
    sample_blake3_hex sample_sha256_hex). apply (contract_reference_valid BugFix).
Defined.

(** ** History *)
Section history_properties.
Context {Value : Type}.
Implicit Types (o : AcceptedOutcomeV1 Value) (h : list (OutcomeRecord Value)).

Definition same_subject o (r : OutcomeRecord Value) : Prop :=
  ao_task_id (or_outcome r) = ao_task_id o ∧ ao_contract_ref (or_outcome r) = ao_contract_ref o.

(** Appending keeps every earlier record in place, adds one record at the
    end whose outcome is the given one up to its identifier, and links it to
    the latest earlier record of the same task and contract, when there is one
    and the contract allows it; the new record never has the identifier it
    was given when that is the one it supersedes. *)
Theorem append_internal_spec h o allowed :
  ∃ r, append_internal o allowed h = (h ++ [r], Ok r)
    ∧ set_outcome_id (ao_outcome_id o) (or_outcome r) = o
    ∧ or_supersedes r =
        (if allowed then
           (λ p, ao_outcome_id (or_outcome p)) <$> last (filter (same_subject o) h)
         else None)
    ∧ ao_outcome_id (or_outcome r) =
        (if decide (or_supersedes r = Some (ao_outcome_id o)) then
           make_outcome_id
             ("outcome-superseding-" +:+ pretty (Z.of_nat (length h) + 1))
         else ao_outcome_id o).
Proof.
  unfold append_internal.
  rewrite (find_rev_last _ (same_subject o))
    by (intros r; by rewrite andb_true_iff, !bool_decide_eq_true).
  eexists. split; [done|]. cbn [or_outcome or_supersedes].
  set (sup := _ <$> (if allowed then _ else None)).
  assert (sup = if allowed then (λ p, ao_outcome_id (or_outcome p))
    <$> last (filter (same_subject o) h) else None) as Hsup by (unfold sup; by destruct allowed).
  split; [|split; [done|]].
  - case_bool_decide; by destruct o.
  - case_bool_decide; destruct (decide _); done.
Qed.
End history_properties.

(** Appending one outcome three times. *)
Section history_cycle.
Context {Value : Type} (o : AcceptedOutcomeV1 Value).

(** Appending the same outcome three times gives the third record the
    identifier of the first: the second record supersedes the first, the third
    supersedes the second, and the chain of supersessions closes on itself. *)
Theorem third_append_closes_cycle :
  ao_outcome_id o ≠ "outcome-superseding-2" →
  ∃ r1 r2 r3 h,
    (append o;; append o;; append o) [] = (h, Ok r3)
    ∧ h = [r1; r2; r3]
    ∧ or_supersedes r1 = None
    ∧ or_supersedes r2 = Some (ao_outcome_id (or_outcome r1))
    ∧ or_supersedes r3 = Some (ao_outcome_id (or_outcome r2))
    ∧ ao_outcome_id (or_outcome r3) = ao_outcome_id (or_outcome r1).
Proof.
  intros Hid. unfold append, append_internal, mbind, op_mbind, op_bind.
  repeat (cbn -[make_outcome_id String.append pretty];
          rewrite ?(bool_decide_eq_true_2 (ao_task_id _ = _)) by done;
          rewrite ?(bool_decide_eq_true_2 (ao_contract_ref _ = _)) by done;
          rewrite ?(bool_decide_eq_true_2 (Some (ao_outcome_id o) = _)) by done).
  assert (make_outcome_id ("outcome-superseding-" +:+ pretty (Z.of_nat 1 + 1))
          = "outcome-superseding-2") as -> by by vm_compute.
  rewrite (bool_decide_eq_false_2 (None = _)) by done.
  rewrite (bool_decide_eq_false_2 (Some _ = _)) by congruence.
  by repeat eexists.
Qed.
End history_cycle.

Lemma third_append_closes_cycle_witness :
  let o := oe_outcome (@evaluate_internal () sample_blake3 sample_sha256 sample_json
    bug_fix_contract [] EvaluationContext_default []) in
  ∃ r1 r2 r3 h, (append o;; append o;; append o) [] = (h, Ok r3) ∧ h = [r1; r2; r3]
    ∧ ao_outcome_id (or_outcome r3) = ao_outcome_id (or_outcome r1).
Proof.
  intros o. destruct (third_append_closes_cycle o) as (r1 & r2 & r3 & h & H1 & H2 & _ & _ & _ & H3).
  - by vm_compute.
  - exists r1, r2, r3, h. split; [exact H1|]. split; [exact H2|exact H3].
Defined.
