(* ===== verification/Workflow.v ===== *)
(** * Workflows

    [rust/src/core/workflow/{types,engine,gate}.rs] and the closed stand-in of
    [store.rs]: evidence-gated state machines over the agent's tools.  Reading
    and writing the workflow files is not modelled; time comes from [chrono], a
    third-party crate, as a type of instants and the whole minutes between
    two of them. *)
From S2P Require Import Prelude BTree Text.
#[local] Open Scope Z_scope.

(** ** types.rs *)
Record StateSpec := MkState {
  st_name : string;
  st_description : option string;
  st_allowed_tools : option (list string);
  st_requires_evidence : option (list string);
}.

Record TransitionSpec := MkTransition {
  tr_from : string;
  tr_to : string;
  tr_description : option string;
}.

Record WorkflowSpec := MkSpec {
  ws_name : string;
  ws_description : option string;
  ws_initial : string;
  ws_states : list StateSpec;
  ws_transitions : list TransitionSpec;
}.

(** [WorkflowSpec::state] *)
Definition spec_state (spec : WorkflowSpec) (name : string) : option StateSpec :=
  find_first (λ s, bool_decide (st_name s = name)) (ws_states spec).

(** [WorkflowSpec::builtin_plan_code_test] *)
Definition builtin_plan_code_test : WorkflowSpec := {|
  ws_name := "plan_code_test";
  ws_description :=
    Some "Minimal workflow with evidence-gated transitions (planning→coding→testing→done).";
  ws_initial := "planning";
  ws_states := [
    {| st_name := "planning";
       st_description := Some "Define approach + acceptance criteria.";
       st_allowed_tools := Some [
         "ctx"; "ctx_workflow"; "ctx_overview"; "ctx_search"; "ctx_graph"; "ctx_intent";
         "ctx_semantic_search"; "ctx_tree"; "ctx_read"; "ctx_multi_read"; "ctx_session";
         "ctx_knowledge"; "ctx_agent"; "ctx_share"; "ctx_handoff"; "ctx_feedback"; "ctx_task"];
       st_requires_evidence := None |};
    {| st_name := "coding";
       st_description := Some "Implement changes.";
       st_allowed_tools := Some [
         "ctx"; "ctx_workflow"; "ctx_read"; "ctx_multi_read"; "ctx_search"; "ctx_tree"; "ctx_edit";
         "ctx_delta"; "ctx_graph"; "ctx_outline"; "ctx_symbol"; "ctx_handoff"; "ctx_feedback"];
       st_requires_evidence := Some ["tool:ctx_read"] |};
    {| st_name := "testing";
       st_description := Some "Run tests and verify behavior.";
       st_allowed_tools := Some [
         "ctx"; "ctx_workflow"; "ctx_shell"; "ctx_refactor"; "ctx_metrics"; "ctx_cost";
         "ctx_heatmap"; "ctx_handoff"; "ctx_feedback"];
       st_requires_evidence := Some ["tool:ctx_shell"] |};
    {| st_name := "done";
       st_description := Some "Complete.";
       st_allowed_tools := Some ["ctx"; "ctx_workflow"];
       st_requires_evidence := Some ["tool:ctx_shell"] |}];
  ws_transitions := [
    {| tr_from := "planning"; tr_to := "coding";
       tr_description := Some "Plan ready; start coding." |};
    {| tr_from := "coding"; tr_to := "testing";
       tr_description := Some "Implementation complete; run tests." |};
    {| tr_from := "testing"; tr_to := "done";
       tr_description := Some "Tests passed; wrap up." |}];
|}.

(** ** engine.rs *)
Definition validate_state_tools (state : StateSpec) : exec string () :=
  match st_allowed_tools state with
  | Some tools =>
      reject_if (match tools with [] => true | _ => false end)
        ("State '" +:+ st_name state +:+ "' allowed_tools must not be empty when present");;
      forM_ (λ t, reject_if (is_blank t)
        ("State '" +:+ st_name state +:+ "' has empty allowed_tools entry")) tools
  | None => Ok ()
  end.

(** The loop of [validate_spec] over the states, with its set of names. *)
Fixpoint validate_states (seen : gset string) (states : list StateSpec) : exec string () :=
  match states with
  | [] => Ok ()
  | s :: rest =>
      reject_if (is_blank (st_name s)) "StateSpec.name must not be empty";;
      reject_if (bool_decide (st_name s ∈ seen)) ("Duplicate state name: " +:+ st_name s);;
      validate_state_tools s;;
      validate_states ({[st_name s]} ∪ seen) rest
  end.

Definition has_state (spec : WorkflowSpec) (name : string) : bool :=
  match spec_state spec name with Some _ => true | None => false end.

Definition validate_spec (spec : WorkflowSpec) : exec string () :=
  reject_if (match ws_states spec with [] => true | _ => false end)
    "WorkflowSpec.states must not be empty";;
  reject_if (is_blank (ws_name spec)) "WorkflowSpec.name must not be empty";;
  reject_if (is_blank (ws_initial spec)) "WorkflowSpec.initial must not be empty";;
  validate_states ∅ (ws_states spec);;
  reject_if (negb (has_state spec (ws_initial spec)))
    ("WorkflowSpec.initial '" +:+ ws_initial spec +:+ "' is not in states");;
  forM_ (λ t,
      reject_if (negb (has_state spec (tr_from t)))
        ("Transition.from '" +:+ tr_from t +:+ "' is not a state");;
      reject_if (negb (has_state spec (tr_to t)))
        ("Transition.to '" +:+ tr_to t +:+ "' is not a state")) (ws_transitions spec).

Definition allowed_transitions (spec : WorkflowSpec) (from : string) : list TransitionSpec :=
  filter (λ t, tr_from t = from) (ws_transitions spec).

Definition find_transition (spec : WorkflowSpec) (from to : string) : option TransitionSpec :=
  find_first (λ t, bool_decide (tr_from t = from) && bool_decide (tr_to t = to))
    (ws_transitions spec).

Definition missing_evidence_for_state (spec : WorkflowSpec) (to_state : string)
    (has_evidence : string → bool) : list string :=
  match spec_state spec to_state with
  | None => ["unknown_state:" +:+ to_state]
  | Some state =>
      match st_requires_evidence state with
      | None => []
      | Some req => filter (λ k, has_evidence k = false) req
      end
  end.

Definition can_transition (spec : WorkflowSpec) (from to : string) (has_evidence : string → bool) :
    exec string () :=
  match find_transition spec from to with
  | None => Err ("No transition: " +:+ from +:+ " → " +:+ to)
  | Some _ =>
      let missing := missing_evidence_for_state spec to has_evidence in
      match missing with
      | [] => Ok ()
      | _ => Err ("Missing evidence for '" +:+ to +:+ "': " +:+ join ", " missing)
      end
  end.

(** ** Runs and the tool gate *)
Definition STALE_MINUTES : Z := 30.
Definition CLOSED : string := "gateway-withheld".
Definition CONTROL_TOOL : string := "ctx_workflow".
Definition WRAPPER_TOOL : string := "ctx_call".
Definition WORKFLOW_PASSTHROUGH_TOOLS : list string :=
  ["ctx"; "ctx_workflow"; "ctx_read"; "ctx_multi_read"; "ctx_smart_read"; "ctx_search"; "ctx_tree";
   "ctx_session"; "ctx_ledger"].

(** The double quote character. *)
Definition DQUOTE : string := String (Ascii.ascii_of_nat 34) EmptyString.

Inductive ToolGate :=
| Expired
| Pass
| Refuse (message : string).

Section runs.
Context {Time : Type} (whole_minutes_since : Time → Time → Z).

Record TransitionRecord := MkTransitionRecord {
  rec_from : string;
  rec_to : string;
  rec_note : option string;
  rec_timestamp : Time;
}.

Record EvidenceItem := MkEvidence {
  item_key : string;
  item_value : option string;
  item_timestamp : Time;
}.

Record WorkflowRun := MkRun {
  run_spec : WorkflowSpec;
  run_current : string;
  run_started_at : Time;
  run_updated_at : Time;
  run_transitions : list TransitionRecord;
  run_evidence : list EvidenceItem;
}.

(** [WorkflowRun::new] at the instant [now] *)
Definition WorkflowRun_new (now : Time) (spec : WorkflowSpec) : WorkflowRun :=
  MkRun spec (ws_initial spec) now now [] [].

Definition add_manual_evidence (now : Time) (key : string) (value : option string)
    (run : WorkflowRun) : WorkflowRun :=
  MkRun (run_spec run) (run_current run) (run_started_at run) now (run_transitions run)
    (run_evidence run ++ [MkEvidence key value now]).

Definition withheld_sentinel (now : Time) (reason : string) : WorkflowRun :=
  MkRun
    {| ws_name := CLOSED;
       ws_description := Some reason;
       ws_initial := CLOSED;
       ws_states := [{| st_name := CLOSED;
                        st_description := Some reason;
                        st_allowed_tools := Some ["ctx"; "ctx_workflow"];
                        st_requires_evidence := None |}];
       ws_transitions := [] |} CLOSED now now [] [].

(** [is_closed] and [is_withheld_sentinel] *)
Definition is_withheld_sentinel (run : WorkflowRun) : bool :=
  bool_decide (ws_name (run_spec run) = CLOSED) && bool_decide (run_current run = CLOSED).

Definition is_run_stale (now : Time) (run : WorkflowRun) : bool :=
  negb (is_withheld_sentinel run)
  && (STALE_MINUTES <? whole_minutes_since now (run_updated_at run)).

(** The refusal under the stand-in: it names the tool and nothing stored. *)
Definition withheld_message (tool : string) : string :=
  "Tool '" +:+ tool
  +:+ "' blocked: the stored workflow is withheld by the context gateway. Use ctx_workflow(action="
  +:+ DQUOTE +:+ "status" +:+ DQUOTE +:+ ") to check it again, or ctx_workflow(action="
  +:+ DQUOTE +:+ "stop" +:+ DQUOTE +:+ ") to discard it.".

Definition blocked_message (run : WorkflowRun) (tool : string) (allowed : list string) : string :=
  "Tool '" +:+ tool +:+ "' blocked by workflow '" +:+ ws_name (run_spec run)
  +:+ "' (state: " +:+ run_current run +:+ "). Allowed: "
  +:+ join ", " (take 30 (sort_strings allowed))
  +:+ ". Use ctx_workflow(action=" +:+ DQUOTE +:+ "stop" +:+ DQUOTE +:+ ") to exit.".

Definition tool_gate (now : Time) (run : WorkflowRun) (tool : string) (passthrough : list string) :
    ToolGate :=
  if is_withheld_sentinel run then
    if bool_decide (tool = CONTROL_TOOL) || bool_decide (tool = WRAPPER_TOOL)
       || bool_decide (tool = "ctx")
    then Pass else Refuse (withheld_message tool)
  else if bool_decide (tool = CONTROL_TOOL) then Pass
  else if bool_decide (run_current run = "done") || is_run_stale now run then Expired
  else if bool_decide (tool ∈ passthrough) then Pass
  else
    match spec_state (run_spec run) (run_current run) ≫= st_allowed_tools with
    | None => Pass
    | Some allowed =>
        if any (λ permitted, bool_decide (permitted = tool)) allowed then Pass
        else Refuse (blocked_message run tool allowed)
    end.
End runs.
Arguments WorkflowRun Time : clear implicits.

(** ** Lemmas *)
Lemma spec_state_Some spec name s :
  spec_state spec name = Some s → s ∈ ws_states spec ∧ st_name s = name.
Proof. by intros [? ?%bool_decide_eq_true]%find_first_Some. Qed.

Lemma has_state_true spec name : has_state spec name = true ↔ name ∈ st_name <$> ws_states spec.
Proof.
  unfold has_state. rewrite list_elem_of_fmap. destruct (spec_state spec name) as [s|] eqn:E.
  - apply spec_state_Some in E as [? <-]. naive_solver.
  - split; [done|]. intros (s & -> & Hs). unfold spec_state in E.
    eapply find_first_None in E; [|done]. by case_bool_decide.
Qed.

(** What [validate_state_tools] asks of a state: a present tool list is not
    empty and names no blank tool. *)
Definition tools_ok (s : StateSpec) : Prop :=
  match st_allowed_tools s with
  | Some tools => tools ≠ [] ∧ ∀ t, t ∈ tools → is_blank t = false
  | None => True
  end.

Lemma validate_state_tools_Ok s : validate_state_tools s = Ok () ↔ tools_ok s.
Proof.
  unfold validate_state_tools, tools_ok. destruct (st_allowed_tools s) as [tools|]; [|done].
  rewrite exec_bind_Ok. setoid_rewrite reject_if_Ok. setoid_rewrite forM__Ok.
  setoid_rewrite reject_if_Ok. destruct tools; naive_solver.
Qed.

Lemma validate_states_Ok seen states :
  validate_states seen states = Ok () ↔
  NoDup (st_name <$> states) ∧
  ∀ s, s ∈ states → is_blank (st_name s) = false ∧ st_name s ∉ seen ∧ tools_ok s.
Proof.
  revert seen. induction states as [|s states IH]; intros seen; cbn [validate_states].
  - split; [|done]. intros _. split; [constructor|set_solver].
  - repeat setoid_rewrite exec_bind_Ok. setoid_rewrite reject_if_Ok.
    rewrite fmap_cons, NoDup_cons, list_elem_of_fmap. split.
    + intros ([] & Hb & [] & Hs%bool_decide_eq_false & [] & Ht%validate_state_tools_Ok & H).
      apply IH in H as [Hnd H]. split; [split; [|done]|].
      * intros (s' & Heq & Hs'). destruct (H _ Hs') as (_ & Hn & _). set_solver.
      * intros s' [->|Hs']%elem_of_cons; [done|]. destruct (H _ Hs') as (? & ? & ?). set_solver.
    + intros [[Hn Hnd] H]. destruct (H s) as (Hb & Hs & Ht); [left|].
      exists (). split; [done|]. exists (). split; [by apply bool_decide_eq_false|].
      exists (). split; [by apply validate_state_tools_Ok|]. apply IH. split; [done|].
      intros s' Hs'. destruct (H s') as (? & ? & ?); [by right|]. split; [done|]. split; [|done].
      rewrite elem_of_union, elem_of_singleton. intros [?|?]; naive_solver.
Qed.

Lemma find_transition_Some spec from to :
  is_Some (find_transition spec from to) ↔
  ∃ t, t ∈ ws_transitions spec ∧ tr_from t = from ∧ tr_to t = to.
Proof.
  unfold find_transition. destruct (find_first _ _) as [t|] eqn:E.
  - apply find_first_Some in E as [? [?%bool_decide_eq_true ?%bool_decide_eq_true]%andb_true_iff].
    naive_solver.
  - split; [by intros []|]. intros (t & Ht & <- & <-). eapply find_first_None in E; [|done].
    rewrite andb_false_iff, !bool_decide_eq_false in E. naive_solver.
Qed.

Lemma missing_evidence_nil spec to has_evidence :
  missing_evidence_for_state spec to has_evidence = [] ↔
  ∃ s, spec_state spec to = Some s
    ∧ ∀ k, k ∈ default [] (st_requires_evidence s) → has_evidence k = true.
Proof.
  unfold missing_evidence_for_state. destruct (spec_state spec to) as [s|];
    [|split; [done|by intros (? & ? & ?)]].
  destruct (st_requires_evidence s) as [req|] eqn:E; cbn.
  2: { split; [|done]. intros _. exists s. split; [done|]. rewrite E. set_solver. }
  split.
  - intros H. exists s. split; [done|]. rewrite E. cbn. intros k Hk.
    destruct (has_evidence k) eqn:Ek; [done|].
    assert (k ∈ filter (λ k, has_evidence k = false) req) by by apply list_elem_of_filter.
    rewrite H in *. set_solver.
  - intros (s' & [= <-] & H). rewrite E in H. cbn in H.
    destruct (filter _ req) as [|k l] eqn:Ef; [done|].
    assert (k ∈ filter (λ k, has_evidence k = false) req) as [Hk1 Hk2]%list_elem_of_filter
      by (rewrite Ef; left).
    rewrite H in Hk1 by done. done.
Qed.

Lemma validate_spec_Ok spec :
  validate_spec spec = Ok () ↔
  ws_states spec ≠ []
  ∧ is_blank (ws_name spec) = false ∧ is_blank (ws_initial spec) = false
  ∧ NoDup (st_name <$> ws_states spec)
  ∧ (∀ s, s ∈ ws_states spec → is_blank (st_name s) = false ∧ tools_ok s)
  ∧ ws_initial spec ∈ st_name <$> ws_states spec
  ∧ ∀ t, t ∈ ws_transitions spec →
      tr_from t ∈ st_name <$> ws_states spec ∧ tr_to t ∈ st_name <$> ws_states spec.
Proof.
  unfold validate_spec. repeat setoid_rewrite exec_bind_Ok. setoid_rewrite reject_if_Ok.
  setoid_rewrite forM__Ok. repeat setoid_rewrite exec_bind_Ok. setoid_rewrite reject_if_Ok.
  setoid_rewrite negb_false_iff. setoid_rewrite has_state_true. split.
  - intros ([] & H1 & [] & H2 & [] & H3 & [] & [H4 H5]%validate_states_Ok & [] & H6 & H7).
    repeat split; try done; [by destruct (ws_states spec)|set_solver..].
  - intros (H1 & H2 & H3 & H4 & H5 & H6 & H7). exists ().
    split; [by destruct (ws_states spec)|]. do 2 (exists (); split; [done|]).
    exists (). split; [apply validate_states_Ok; split; [done|set_solver]|].
    exists (). split; [done|]. intros t Ht. exists (). by destruct (H7 t Ht).
Qed.

(** The states a run of [spec] can be in when every change of state passed
    [can_transition]. *)
Inductive reachable_state (spec : WorkflowSpec) : string → Prop :=
| reach_initial : reachable_state spec (ws_initial spec)
| reach_transition from to has_evidence :
    reachable_state spec from →
    can_transition spec from to has_evidence = Ok () →
    reachable_state spec to.

Lemma reachable_state_listed spec name :
  ws_initial spec ∈ st_name <$> ws_states spec →
  reachable_state spec name → name ∈ st_name <$> ws_states spec.
Proof.
  intros Hi. induction 1 as [|from to has_evidence _ _ H]; [done|].
  unfold can_transition in H. destruct (find_transition spec from to); [|done].
  destruct (missing_evidence_for_state spec to has_evidence) eqn:E; [|done].
  apply missing_evidence_nil in E as (s & [? <-]%spec_state_Some & _).
  apply list_elem_of_fmap. eauto.
Qed.

(** ** Properties *)

(** [validate_spec] accepts exactly the specifications with a state, with
    non-blank names, pairwise distinct state names, well-formed tool lists, an
    initial state among the states and transitions between states. *)
Theorem validate_spec_iff spec :
  validate_spec spec = Ok () ↔
  ws_states spec ≠ []
  ∧ is_blank (ws_name spec) = false ∧ is_blank (ws_initial spec) = false
  ∧ NoDup (st_name <$> ws_states spec)
  ∧ (∀ s, s ∈ ws_states spec → is_blank (st_name s) = false ∧ tools_ok s)
  ∧ ws_initial spec ∈ st_name <$> ws_states spec
  ∧ ∀ t, t ∈ ws_transitions spec →
      tr_from t ∈ st_name <$> ws_states spec ∧ tr_to t ∈ st_name <$> ws_states spec.
Proof. apply validate_spec_Ok. Qed.

(** A run that starts in the initial state of a validated specification and
    moves only by transitions [can_transition] allows is always in a state of
    the specification, so the gate always finds its tool list. *)
Theorem reachable_state_known spec name :
  validate_spec spec = Ok () → reachable_state spec name → is_Some (spec_state spec name).
Proof.
  intros (_ & _ & _ & _ & _ & Hi & _)%validate_spec_Ok Hr.
  eapply reachable_state_listed, has_state_true in Hr; [|done].
  unfold has_state in Hr. by destruct (spec_state spec name).
Qed.

(** The built-in workflow reaches [done] once reads and shell runs are
    evidenced. *)
Lemma reachable_state_known_witness :
  reachable_state builtin_plan_code_test "done"
  ∧ is_Some (spec_state builtin_plan_code_test "done").
Proof.
  assert (reachable_state builtin_plan_code_test "done") as H.
  { eapply (reach_transition _ "testing" _ (λ _, true)); [|by vm_compute].
    eapply (reach_transition _ "coding" _ (λ _, true)); [|by vm_compute].
    eapply (reach_transition _ "planning" _ (λ _, true)); [|by vm_compute].
    apply reach_initial. }
  split; [exact H|]. apply reachable_state_known; [by vm_compute|exact H].
Defined.

(** [can_transition] allows a step exactly when the specification lists it,
    the target is a state and every key of evidence that state requires is
    present. *)
Theorem can_transition_iff spec from to has_evidence :
  can_transition spec from to has_evidence = Ok () ↔
  (∃ t, t ∈ ws_transitions spec ∧ tr_from t = from ∧ tr_to t = to)
  ∧ ∃ s, spec_state spec to = Some s
      ∧ ∀ k, k ∈ default [] (st_requires_evidence s) → has_evidence k = true.
Proof.
  rewrite <-find_transition_Some, <-missing_evidence_nil. unfold can_transition.
  destruct (find_transition spec from to) as [t|]; [|by split; [done|intros [[] _]]].
  destruct (missing_evidence_for_state spec to has_evidence); naive_solver.
Qed.

Section gate_properties.
Context {Time : Type} (whole_minutes_since : Time → Time → Z).

(** Whatever name the run was given and however old it is, the closed
    stand-in for a withheld workflow never expires, passes the three control
    tools and refuses every other one with a message that mentions only the
    tool's name. *)
Theorem withheld_sentinel_closed (created now : Time) reason tool passthrough :
  tool_gate whole_minutes_since now (withheld_sentinel created reason) tool passthrough =
  if bool_decide (tool ∈ ["ctx_workflow"; "ctx_call"; "ctx"]) then Pass
  else Refuse (withheld_message tool).
Proof.
  unfold tool_gate.
  change (is_withheld_sentinel (withheld_sentinel created reason)) with true. cbn iota.
  unfold CONTROL_TOOL, WRAPPER_TOOL.
  destruct (decide (tool = "ctx_workflow")) as [->|H1]; [done|].
  destruct (decide (tool = "ctx_call")) as [->|H2]; [done|].
  destruct (decide (tool = "ctx")) as [->|H3]; [done|].
  assert (tool ∉ ["ctx_workflow"; "ctx_call"; "ctx"]) as H4.
  { intros H. apply elem_of_cons in H as [?|[?|[?|?%elem_of_nil]%elem_of_cons]%elem_of_cons]; done. }
  rewrite (bool_decide_eq_false_2 _ H4), (bool_decide_eq_false_2 _ H1),
    (bool_decide_eq_false_2 _ H2), (bool_decide_eq_false_2 _ H3). done.
Qed.

(** C40: for any other run the gate passes a tool exactly when it is
    [ctx_workflow], or the run is live (not done, and last touched at most 30 whole
    minutes ago, that is less than 31 minutes) and the tool is a pass-through, or
    listed by the current state, or the current state lists no tools.  A run that
    is not live expires with every tool but [ctx_workflow], which passes and leaves
    it as it is (the comment on [tool_gate] has it expire there too); nothing else
    expires a run. *)
Theorem tool_gate_spec (now : Time) (run : WorkflowRun Time) tool passthrough :
  is_withheld_sentinel run = false →
  let live := run_current run ≠ "done"
              ∧ whole_minutes_since now (run_updated_at run) ≤ STALE_MINUTES in
  let listed := match spec_state (run_spec run) (run_current run) ≫= st_allowed_tools with
                | Some allowed => tool ∈ allowed
                | None => True
                end in
  (tool_gate whole_minutes_since now run tool passthrough = Pass ↔
     tool = CONTROL_TOOL ∨ (live ∧ (tool ∈ passthrough ∨ listed)))
  ∧ (tool_gate whole_minutes_since now run tool passthrough = Expired ↔
       tool ≠ CONTROL_TOOL ∧ ¬ live).
Proof.
  intros Hs live listed. unfold tool_gate. rewrite Hs.
  destruct (decide (tool = CONTROL_TOOL)) as [Ht|Ht].
  { rewrite bool_decide_eq_true_2 by done. naive_solver. }
  rewrite (bool_decide_eq_false_2 (tool = CONTROL_TOOL)) by done.
  assert (bool_decide (run_current run = "done") || is_run_stale whole_minutes_since now run = false
          ↔ live) as Hl.
  { unfold live, is_run_stale. rewrite Hs, orb_false_iff, bool_decide_eq_false. cbn.
    by rewrite Z.ltb_ge. }
  clearbody live.
  destruct (bool_decide (run_current run = "done")
            || is_run_stale whole_minutes_since now run) eqn:E; rewrite ?E.
  { assert (¬ live) by (intros H%Hl; done). split; [|by split].
    split; [done|]. by intros [?|[? _]]. }
  assert live by by apply Hl.
  destruct (decide (tool ∈ passthrough)) as [Hp|Hp];
    [rewrite bool_decide_eq_true_2 by done|rewrite bool_decide_eq_false_2 by done];
    [split; [split; [tauto|done]|split; [done|tauto]]|].
  unfold listed. destruct (_ ≫= st_allowed_tools) as [allowed|];
    [|split; [split; [tauto|done]|split; [done|tauto]]].
  destruct (any _ allowed) eqn:Ea.
  - apply any_true in Ea as (x & Hx & ->%bool_decide_eq_true).
    split; [split; [tauto|done]|split; [done|tauto]].
  - split; [|split; [done|tauto]]. split; [done|]. intros [?|(_ & [?|Hin])]; [done..|].
    eapply any_false in Ea; [|exact Hin]. by case_bool_decide.
Qed.

End gate_properties.

(** The built-in workflow in state [coding], five minutes after an update. *)
Lemma tool_gate_spec_witness :
  let run := MkRun builtin_plan_code_test "coding" 0 0 [] [] in
  tool_gate Z.sub 5 run "ctx_edit" [] = Pass ∧ tool_gate Z.sub 31 run "ctx_edit" [] = Expired.
Proof.
  intros run. split.
  - apply (tool_gate_spec Z.sub 5 run "ctx_edit" []); [by vm_compute|].
    right. split; [by vm_compute|]. right.
    change ("ctx_edit" ∈ ["ctx"; "ctx_workflow"; "ctx_read"; "ctx_multi_read"; "ctx_search"; "ctx_tree";
      "ctx_edit"; "ctx_delta"; "ctx_graph"; "ctx_outline"; "ctx_symbol"; "ctx_handoff"; "ctx_feedback"]).
    do 6 right. left.
  - apply (tool_gate_spec Z.sub 31 run "ctx_edit" []); [by vm_compute|].
    split; [done|]. intros [_ H]. by vm_compute in H.
Defined.
