(* ===== verification/Hex.v ===== *)
(** * Hexadecimal text

    [hex_encode] and [hex_decode] of [rust/src/core/agent_identity.rs], which
    carry keys, signatures and digests of signed tasks.  A byte vector is the
    [string] of its bytes. *)
From S2P Require Import Prelude Text.
#[local] Open Scope Z_scope.

(** One digit of [{b:02x}]. *)
Definition hex_digit (d : Z) : Ascii.ascii :=
  Ascii.ascii_of_N (Z.to_N (if d <? 10 then 48 + d else 87 + d)).

Fixpoint hex_encode (bytes : string) : string :=
  match bytes with
  | EmptyString => ""
  | String b tl =>
      String (hex_digit (byte_val b / 16)) (String (hex_digit (byte_val b mod 16)) (hex_encode tl))
  end.

(** [char::to_digit(16)] *)
Definition digit_value (a : Ascii.ascii) : option Z :=
  if byte_in 48 57 a then Some (byte_val a - 48)
  else if byte_in 97 102 a then Some (byte_val a - 87)
  else if byte_in 65 70 a then Some (byte_val a - 55)
  else None.

Definition INVALID_DIGIT : string := "invalid digit found in string".

(** [u8::from_str_radix(&s[i..i + 2], 16)]: the standard library takes one
    leading [+], and a [-] is no digit of an unsigned number. *)
Definition parse_byte (a b : Ascii.ascii) : exec string Z :=
  let a_value := if byte_in 43 43 a then Some 0 else digit_value a in
  ok_or (hi ← a_value; lo ← digit_value b; Some (hi * 16 + lo)) INVALID_DIGIT.

Fixpoint hex_pairs (s : string) : exec string string :=
  match s with
  | String a (String b tl) =>
      byte ← parse_byte a b;
      rest ← hex_pairs tl;
      Ok (String (Ascii.ascii_of_N (Z.to_N byte)) rest)
  | _ => Ok ""
  end.

Definition hex_decode (s : string) : exec string string :=
  reject_if (negb (str_len s mod 2 =? 0)) "odd-length hex string";;
  reject_if (negb (all_bytes (byte_in 0 127) s)) "non-ASCII hex string";;
  hex_pairs s.

(** [byte.is_ascii_hexdigit()] *)
Definition is_ascii_hexdigit (a : Ascii.ascii) : bool :=
  byte_in 48 57 a || byte_in 97 102 a || byte_in 65 70 a.

(** ** Lemmas *)
Lemma byte_val_range a : 0 ≤ byte_val a < 256.
Proof.
  unfold byte_val. pose proof (Ascii.N_ascii_bounded a). lia.
Qed.

Lemma byte_val_of_Z x : 0 ≤ x < 256 → byte_val (Ascii.ascii_of_N (Z.to_N x)) = x.
Proof. intros. unfold byte_val. rewrite Ascii.N_ascii_embedding; lia. Qed.

Lemma ascii_of_byte_val a : Ascii.ascii_of_N (Z.to_N (byte_val a)) = a.
Proof. unfold byte_val. by rewrite N2Z.id, Ascii.ascii_N_embedding. Qed.

Lemma hex_digit_val d : 0 ≤ d < 16 →
  byte_val (hex_digit d) = if d <? 10 then 48 + d else 87 + d.
Proof. intros. unfold hex_digit. apply byte_val_of_Z. destruct (Z.ltb_spec d 10); lia. Qed.

Lemma digit_value_hex d : 0 ≤ d < 16 → digit_value (hex_digit d) = Some d.
Proof.
  intros Hd. pose proof (hex_digit_val d Hd) as Hv. unfold digit_value.
  destruct (Z.ltb_spec d 10).
  - rewrite (proj2 (byte_in_spec 48 57 _)) by lia. f_equal. lia.
  - rewrite (proj2 (byte_in_false 48 57 _)), (proj2 (byte_in_spec 97 102 _)) by lia. f_equal. lia.
Qed.

Lemma hex_digit_lower d : 0 ≤ d < 16 → is_lower_hex (hex_digit d) = true.
Proof.
  intros Hd. pose proof (hex_digit_val d Hd) as Hv. unfold is_lower_hex.
  destruct (Z.ltb_spec d 10).
  - by rewrite (proj2 (byte_in_spec 48 57 _)) by lia.
  - rewrite (proj2 (byte_in_spec 97 102 _)) by lia. apply orb_true_r.
Qed.

Lemma nibbles a : 0 ≤ byte_val a / 16 < 16 ∧ 0 ≤ byte_val a mod 16 < 16
  ∧ byte_val a / 16 * 16 + byte_val a mod 16 = byte_val a.
Proof.
  pose proof (byte_val_range a). pose proof (Z.mod_pos_bound (byte_val a) 16).
  pose proof (Z.div_mod (byte_val a) 16). split; [split; [apply Z.div_pos; lia|]|lia].
  apply Z.div_lt_upper_bound; lia.
Qed.

Lemma hex_encode_len s : str_len (hex_encode s) = 2 * str_len s.
Proof.
  unfold str_len. induction s as [|a s IH]; [done|]. cbn [hex_encode String.length]. lia.
Qed.

Lemma hex_encode_digits s : all_bytes is_lower_hex (hex_encode s) = true.
Proof.
  induction s as [|a s IH]; [done|]. destruct (nibbles a) as (H1 & H2 & _).
  cbn [hex_encode all_bytes]. by rewrite !hex_digit_lower, IH.
Qed.

Lemma parse_byte_hex h l :
  0 ≤ h < 16 → 0 ≤ l < 16 → parse_byte (hex_digit h) (hex_digit l) = Ok (h * 16 + l).
Proof.
  intros Hh Hl. unfold parse_byte.
  assert (byte_in 43 43 (hex_digit h) = false) as ->.
  { apply byte_in_false. rewrite hex_digit_val by done. destruct (Z.ltb_spec h 10); lia. }
  by rewrite !digit_value_hex.
Qed.

Lemma hex_pairs_encode s : hex_pairs (hex_encode s) = Ok s.
Proof.
  induction s as [|a s IH]; [done|]. destruct (nibbles a) as (H1 & H2 & H3).
  cbn [hex_encode hex_pairs]. rewrite parse_byte_hex, exec_bind_ret by done.
  rewrite IH, exec_bind_ret, H3, ascii_of_byte_val. done.
Qed.

Lemma lower_hex_ascii s : all_bytes is_lower_hex s = true → all_bytes (byte_in 0 127) s = true.
Proof.
  apply all_bytes_impl. intros a. unfold is_lower_hex.
  rewrite orb_true_iff, !byte_in_spec. lia.
Qed.

Lemma digit_value_Some a : is_ascii_hexdigit a = true → is_Some (digit_value a).
Proof.
  unfold is_ascii_hexdigit, digit_value. rewrite !orb_true_iff.
  destruct (byte_in 48 57 a), (byte_in 97 102 a), (byte_in 65 70 a); naive_solver.
Qed.

Lemma parse_byte_total a b :
  match parse_byte a b with
  | Ok _ => True
  | Err _ => is_ascii_hexdigit a && is_ascii_hexdigit b = false
  | Panic | Hang => False
  end.
Proof.
  unfold parse_byte.
  destruct (is_ascii_hexdigit a && is_ascii_hexdigit b) eqn:E.
  - apply andb_true_iff in E as [[x Hx]%digit_value_Some [y Hy]%digit_value_Some].
    rewrite Hx, Hy. by destruct (byte_in 43 43 a).
  - destruct (ok_or _ _) eqn:Er; try done; by destruct (if byte_in 43 43 a then _ else _), (digit_value b).
Qed.

Lemma hex_pairs_spec s :
  str_len s mod 2 = 0 →
  match hex_pairs s with
  | Ok bytes => str_len s = 2 * str_len bytes
  | Err _ => str_len s mod 2 ≠ 0 ∨ all_bytes is_ascii_hexdigit s = false
  | Panic | Hang => False
  end.
Proof.
  remember (String.length s) as n eqn:Hn. revert s Hn.
  induction n as [n IH] using lt_wf_ind. intros [|a [|b s]] Hn He.
  - done.
  - by cbn in He.
  - assert (str_len (String a (String b s)) = str_len s + 2) as Hl
      by (unfold str_len; cbn [String.length]; lia).
    assert (str_len s mod 2 = 0) as He'.
    { rewrite Hl in He. rewrite <-(Z.mod_add (str_len s) 1 2) by done. exact He. }
    specialize (IH (String.length s) ltac:(rewrite Hn; cbn; lia) s eq_refl He').
    cbn [hex_pairs all_bytes]. pose proof (parse_byte_total a b) as Hp.
    destruct (parse_byte a b) as [x|e| |]; try done; rewrite ?exec_bind_ret.
    + destruct (hex_pairs s) as [r|e| |]; try done; rewrite ?exec_bind_ret.
      * rewrite Hl, IH. unfold str_len. cbn [String.length]. lia.
      * right. destruct IH as [?|E]; [done|]. by rewrite E, !andb_false_r.
    + right. apply andb_false_iff in Hp as [E|E]; rewrite E; [done|]. by rewrite andb_false_r.
Qed.

(** ** Round trips *)

Lemma lower_hex_hexdigit s : all_bytes is_lower_hex s = true → all_bytes is_ascii_hexdigit s = true.
Proof. apply all_bytes_impl. intros a. unfold is_lower_hex, is_ascii_hexdigit. by intros ->. Qed.

Lemma hex_encode_decode bytes :
  hex_decode (hex_encode bytes) = Ok bytes
  ∧ str_len (hex_encode bytes) = 2 * str_len bytes
  ∧ all_bytes is_lower_hex (hex_encode bytes) = true.
Proof.
  pose proof (hex_encode_len bytes) as Hl. pose proof (hex_encode_digits bytes) as Hd.
  split; [|done]. unfold hex_decode.
  rewrite Hl, Z.mul_comm, Z.mod_mul by done. cbn [Z.eqb negb reject_if]. rewrite exec_bind_ret.
  rewrite (lower_hex_ascii _ Hd). cbn [negb reject_if]. rewrite exec_bind_ret. apply hex_pairs_encode.
Qed.

(** Decoding what [hex_encode] wrote gives the bytes back, for every byte
    vector; the text has two lower-case digits per byte. *)
Theorem hex_roundtrip bytes :
  hex_decode (hex_encode bytes) = Ok bytes
  ∧ str_len (hex_encode bytes) = 2 * str_len bytes
  ∧ all_bytes is_lower_hex (hex_encode bytes) = true.
Proof. apply hex_encode_decode. Qed.

Lemma hex_decode_cases s :
  match hex_decode s with
  | Ok bytes => str_len s = 2 * str_len bytes
  | Err _ => str_len s mod 2 ≠ 0 ∨ all_bytes is_ascii_hexdigit s = false
  | Panic | Hang => False
  end.
Proof.
  unfold hex_decode. destruct (Z.eqb_spec (str_len s mod 2) 0) as [He|He]; cbn [negb reject_if].
  2: { by left. }
  destruct (all_bytes (byte_in 0 127) s) eqn:Ha; cbn [negb reject_if].
  2: { right. apply not_true_iff_false. intros Hh. apply not_true_iff_false in Ha. apply Ha.
       revert Hh. apply all_bytes_impl. intros a. unfold is_ascii_hexdigit.
       rewrite !orb_true_iff, !byte_in_spec. lia. }
  rewrite !exec_bind_ret. clear Ha. by apply hex_pairs_spec.
Qed.

(** [hex_decode] never panics, whatever bytes it is given: it returns one byte
    per pair of bytes of the text, and it fails only on text of odd length or
    with a byte that is no hexadecimal digit.  It does not fail on all of these: a
    pair that starts with a plus sign is accepted, so that ["+f"] and ["0f"] decode
    to the same byte. *)
Theorem hex_decode_spec s :
  match hex_decode s with
  | Ok bytes => str_len s = 2 * str_len bytes
  | Err _ => str_len s mod 2 ≠ 0 ∨ all_bytes is_ascii_hexdigit s = false
  | Panic | Hang => False
  end
  ∧ hex_decode "+f" = Ok (String (Ascii.ascii_of_N 15) "") ∧ hex_decode "+f" = hex_decode "0f".
Proof. split; [apply hex_decode_cases|]. by split. Qed.
