(* ===== verification/TaskModel.v ===== *)
(** * Agent-to-agent tasks

    [rust/src/core/a2a/task/model.rs]: tasks, their states and transitions, and
    the messages and artifacts they carry.  An instant is its number of
    nanoseconds ([chrono] is third-party).  The gateway that admits and serves
    text ([context_admission]) is an interface: what a task does with its answers
    is modelled, the rules that produce them are not. *)
From S2P Require Import Prelude BTree Text GraphModel.
#[local] Open Scope Z_scope.

(** Constants of [rust/src/core/a2a/task.rs]. *)
Definition MAX_HISTORY : Z := 2048.
Definition TASK_DESCRIPTOR_VERSION : Z := 1.
Definition TASK_STATUS_VERSION : Z := 1.

(** ** Refusals of the gateway ([context_admission/carrier.rs]) *)
Definition NO_SOURCE_AUTHORITY : string :=
  "stored output has no source authority; repeat the original authorized operation".
Definition RESTRICTED_CODE : string := "store.restricted_content".

Record Withheld := MkWithheld { wh_codes : list string }.

(** [Withheld::message] *)
Definition wh_message (w : Withheld) (subject : string) : string :=
  if any (λ code, starts_with code "store." && negb (bool_decide (code = RESTRICTED_CODE))) (wh_codes w)
  then NO_SOURCE_AUTHORITY +:+ " (" +:+ join ", " (wh_codes w) +:+ ")"
  else subject +:+ " withheld by the context gateway (" +:+ join ", " (wh_codes w) +:+ ")".

(** [Withheld::notice] *)
Definition wh_notice (w : Withheld) : string :=
  "[lean-ctx gateway: content withheld — " +:+ join ", " (wh_codes w) +:+ "]".

(** What [admit_for_store(text)] and [serve_stored(text, None, None)] answer
    under the rules configured at the moment of the call. *)
Class Gateway := {
  admit_for_store : string → exec Withheld string;
  serve_text : string → exec Withheld string;
}.

(** ** Reasons the engine writes itself *)
Definition REASON_CREATED : string := "task created".
Definition REASON_MATERIALIZED : string := "remote task materialized".
Definition REASON_INPUT_RECEIVED : string := "input received via A2A".
Definition REASON_CANCELED_VIA_A2A : string := "canceled via A2A".

Definition engine_reason (reason : string) : bool :=
  bool_decide (reason ∈ [REASON_CREATED; REASON_MATERIALIZED; REASON_INPUT_RECEIVED;
                         REASON_CANCELED_VIA_A2A]).

(** ** States *)
Inductive TaskState := TaskCreated | Working | InputRequired | TaskCompleted | TaskFailed | Canceled.
#[export] Instance TaskState_eq_dec : EqDecision TaskState.
Proof. solve_decision. Defined.

(** [TaskState] as [Display] writes it *)
Definition TaskState_fmt (s : TaskState) : string :=
  match s with
  | TaskCreated => "created"
  | Working => "working"
  | InputRequired => "input-required"
  | TaskCompleted => "completed"
  | TaskFailed => "failed"
  | Canceled => "canceled"
  end.

(** [TaskState::parse_str] *)
Definition parse_str (s : string) : option TaskState :=
  if bool_decide (s = "created") then Some TaskCreated
  else if bool_decide (s = "working") then Some Working
  else if bool_decide (s = "input-required") || bool_decide (s = "input_required")
  then Some InputRequired
  else if bool_decide (s = "completed") then Some TaskCompleted
  else if bool_decide (s = "failed") then Some TaskFailed
  else if bool_decide (s = "canceled") || bool_decide (s = "cancelled") then Some Canceled
  else None.

Definition is_terminal (s : TaskState) : bool :=
  match s with TaskCompleted | TaskFailed | Canceled => true | _ => false end.

Definition can_transition_to (s next : TaskState) : bool :=
  match s with
  | TaskCreated => match next with Working | Canceled | TaskFailed => true | _ => false end
  | Working =>
      match next with InputRequired | TaskCompleted | TaskFailed | Canceled => true | _ => false end
  | InputRequired => match next with Working | Canceled | TaskFailed => true | _ => false end
  | TaskCompleted | TaskFailed | Canceled => false
  end.

(** ** Data *)
Record TaskStatusV1 := MkTaskStatus {
  ts_schema_version : Z;
  ts_state : TaskState;
  ts_timestamp : Z;
}.

Inductive TaskPart :=
| PartText (text : string)
| PartData (mime_type data : string)
| PartFile (name : string) (mime_type data uri : option string).

Record TaskMessage := MkTaskMessage {
  tm_role : string;
  tm_parts : list TaskPart;
  tm_timestamp : Z;
}.

Record TaskTransition := MkTaskTransition {
  tt_from : TaskState;
  tt_to : TaskState;
  tt_timestamp : Z;
  tt_reason : option string;
}.

(** [AgentArtifactRefV1] of [authority.rs] *)
Record AgentArtifactRefV1 := MkArtifactRef {
  ar_schema_version : Z;
  ar_artifact_id : string;
  ar_digest : string;
  ar_media_type : string;
  ar_size_bytes : Z;
  ar_uri : option string;
}.

Record Task := MkTask {
  tk_id : string;
  tk_from_agent : string;
  tk_to_agent : string;
  tk_state : TaskState;
  tk_description : string;
  tk_messages : list TaskMessage;
  tk_artifacts : list TaskPart;
  tk_history : list TaskTransition;
  tk_metadata : gmap string string;
  tk_created_at : Z;
  tk_updated_at : Z;
  tk_tenant_id : option string;
  tk_project_id : option string;
  tk_action : option string;
  tk_idempotency_key : option string;
  tk_authority_key_id : option string;
  tk_descriptor_digest : option string;
  tk_artifact_refs : list AgentArtifactRefV1;
}.

(** Assignments to the fields that change. *)
Definition set_tk_progress (state : TaskState) (history : list TaskTransition) (updated : Z) (t : Task) :
    Task :=
  MkTask (tk_id t) (tk_from_agent t) (tk_to_agent t) state (tk_description t) (tk_messages t)
    (tk_artifacts t) history (tk_metadata t) (tk_created_at t) updated (tk_tenant_id t)
    (tk_project_id t) (tk_action t) (tk_idempotency_key t) (tk_authority_key_id t)
    (tk_descriptor_digest t) (tk_artifact_refs t).

Definition set_tk_content (description : string) (messages : list TaskMessage)
    (artifacts : list TaskPart) (history : list TaskTransition) (metadata : gmap string string)
    (updated : Z) (t : Task) : Task :=
  MkTask (tk_id t) (tk_from_agent t) (tk_to_agent t) (tk_state t) description messages artifacts
    history metadata (tk_created_at t) updated (tk_tenant_id t) (tk_project_id t) (tk_action t)
    (tk_idempotency_key t) (tk_authority_key_id t) (tk_descriptor_digest t) (tk_artifact_refs t).

(** ** Building *)

(** The first entry of a history. *)
Definition origin (now : Z) (reason : string) : TaskTransition :=
  MkTaskTransition TaskCreated TaskCreated now (Some reason).

(** [Task::new]: the identifier is [task-] and a random UUID, an input here. *)
Definition Task_new (uuid : string) (now : Z) (from_agent to_agent description : string) : Task := {|
  tk_id := "task-" +:+ uuid;
  tk_from_agent := from_agent;
  tk_to_agent := to_agent;
  tk_state := TaskCreated;
  tk_description := description;
  tk_messages := [MkTaskMessage from_agent [PartText description] now];
  tk_artifacts := [];
  tk_history := [origin now REASON_CREATED];
  tk_metadata := ∅;
  tk_created_at := now;
  tk_updated_at := now;
  tk_tenant_id := None;
  tk_project_id := None;
  tk_action := None;
  tk_idempotency_key := None;
  tk_authority_key_id := None;
  tk_descriptor_digest := None;
  tk_artifact_refs := [];
|}.

(** ** Serving and admitting *)
(** [xs.iter().map(f).collect::<Result<Vec<_>, _>>()] *)
Fixpoint try_collect {E A B : Type} (f : A → exec E B) (xs : list A) : exec E (list B) :=
  match xs with
  | [] => Ok []
  | x :: xs => y ← f x; ys ← try_collect f xs; Ok (y :: ys)
  end.

(** [option.map(f).transpose()] *)
Definition try_option {E A B : Type} (f : A → exec E B) (o : option A) : exec E (option B) :=
  match o with None => Ok None | Some a => b ← f a; Ok (Some b) end.

(** [TaskPart::try_map] *)
Definition try_map (text : string → exec Withheld string) (p : TaskPart) : exec Withheld TaskPart :=
  match p with
  | PartText value => value ← text value; Ok (PartText value)
  | PartData mime_type data => mime_type ← text mime_type; data ← text data; Ok (PartData mime_type data)
  | PartFile name mime_type data uri =>
      name ← text name;
      mime_type ← try_option text mime_type;
      data ← try_option text data;
      uri ← try_option text uri;
      Ok (PartFile name mime_type data uri)
  end.

(** [result.unwrap_or_else(f)]; a gateway call that panics panics here too. *)
Definition unwrap_or_else {E A : Type} (f : E → A) (x : exec E A) : exec Withheld A :=
  match x with Ok a => Ok a | Err e => Ok (f e) | Panic => Panic | Hang => Hang end.

Section gateway.
Context `{Gateway}.

Definition served_text (text : string) : exec Withheld string :=
  unwrap_or_else wh_notice (serve_text text).

Definition part_admitted (p : TaskPart) : exec Withheld TaskPart := try_map admit_for_store p.

Definition part_served (p : TaskPart) : exec Withheld TaskPart :=
  unwrap_or_else (λ w, PartText (wh_notice w)) (try_map serve_text p).

(** The loop of [Task::served] over the history. *)
Definition transition_served (t : TaskTransition) : exec Withheld TaskTransition :=
  match tt_reason t with
  | Some reason =>
      if engine_reason reason then Ok t
      else reason ← served_text reason;
           Ok (MkTaskTransition (tt_from t) (tt_to t) (tt_timestamp t) (Some reason))
  | None => Ok t
  end.

Definition message_served (m : TaskMessage) : exec Withheld TaskMessage :=
  parts ← try_collect part_served (tm_parts m);
  Ok (MkTaskMessage (tm_role m) parts (tm_timestamp m)).

(** [Task::served] *)
Definition task_served (t : Task) : exec Withheld Task :=
  description ← served_text (tk_description t);
  messages ← try_collect message_served (tk_messages t);
  artifacts ← try_collect part_served (tk_artifacts t);
  metadata ← foldM (λ metadata '(key, value),
      value ← served_text value; Ok (<[key := value]> metadata))
    (tk_metadata t) (map_to_list (tk_metadata t));
  history ← try_collect transition_served (tk_history t);
  Ok (set_tk_content description messages artifacts history metadata (tk_updated_at t) t).

(** [Task::status_v1] *)
Definition status_v1 (t : Task) : TaskStatusV1 :=
  MkTaskStatus TASK_STATUS_VERSION (tk_state t) (tk_updated_at t).

(** ** Changing *)

(** The reason as it is stored. *)
Definition stored_reason (reason : option string) : exec string (option string) :=
  match reason with
  | Some reason =>
      if engine_reason reason then Ok (Some reason)
      else match admit_for_store reason with
           | Ok reason => Ok (Some reason)
           | Err withheld => Err (wh_message withheld "task reason")
           | Panic => Panic
           | Hang => Hang
           end
  | None => Ok None
  end.

(** [Task::transition]; [now] is the clock it reads. *)
Definition transition (now : Z) (new_state : TaskState) (reason : option string) : op Task string () :=
  t ← get;
  lift (reject_if (MAX_HISTORY <=? vec_len (tk_history t)) "task transition history limit exceeded");;
  lift (reject_if ((vec_len (tk_history t) =? MAX_HISTORY - 1) && negb (is_terminal new_state))
          "task transition history reserved for terminal state");;
  lift (reject_if (negb (can_transition_to (tk_state t) new_state))
          ("invalid transition: " +:+ TaskState_fmt (tk_state t) +:+ " → " +:+ TaskState_fmt new_state));;
  lift (reject_if (now <? tk_updated_at t) "task clock precedes stored state");;
  reason ← lift (stored_reason reason);
  modify (λ t, set_tk_progress new_state
    (tk_history t ++ [MkTaskTransition (tk_state t) new_state now reason]) now t).

(** [Task::add_message], which reads the clock twice. *)
Definition add_message (now1 now2 : Z) (role : string) (parts : list TaskPart) (t : Task) : Task :=
  set_tk_content (tk_description t) (tk_messages t ++ [MkTaskMessage role parts now1])
    (tk_artifacts t) (tk_history t) (tk_metadata t) now2 t.

(** [Task::append_message] *)
Definition append_message (now1 now2 : Z) (role : string) (parts : list TaskPart) :
    op Task Withheld () :=
  parts ← lift (try_collect part_admitted parts);
  modify (add_message now1 now2 role parts).

(** [Task::add_artifact] *)
Definition add_artifact (now : Z) (artifact : TaskPart) (t : Task) : Task :=
  set_tk_content (tk_description t) (tk_messages t) (tk_artifacts t ++ [artifact])
    (tk_history t) (tk_metadata t) now t.
End gateway.
