(* ===== verification/TaskAuthority.v ===== *)
(** * Authority over agent-to-agent tasks

    [rust/src/core/a2a/task/authority.rs]: the trust policy of a receiver, the
    signed descriptors that create and control tasks, and the decision that
    authorizes them.  Ed25519, SHA-256 and the JSON serializer are parameters. *)
From S2P Require Import Prelude BTree Text Hashing Hex GraphModel TaskModel.
#[local] Open Scope Z_scope.

(** ** Constants of [task.rs] *)
Definition MAX_TASK_DESCRIPTOR_BYTES : Z := 256 * 1024.
Definition MAX_DESCRIPTOR_STRING_BYTES : Z := 256.
Definition MAX_DESCRIPTION_BYTES : Z := 64 * 1024.
Definition MAX_ARTIFACT_REFS : Z := 64.
Definition MAX_IDEMPOTENCY_KEY_BYTES : Z := 128.
Definition MAX_TASK_LIFETIME_SECONDS : Z := 24 * 60 * 60.
Definition MAX_POLICY_LIFETIME_SECONDS : Z := 366 * 24 * 60 * 60.
Definition MAX_TRUST_ENTRIES : Z := 1024.
Definition MAX_AUTHORITY_CLOCK_SKEW_SECONDS : Z := 60.
Definition TASK_DESCRIPTOR_SIGNING_DOMAIN : string := "leanctx.a2a.task.descriptor.sig.v1" +:+ NUL.
Definition TASK_CONTROL_SIGNING_DOMAIN : string := "leanctx.a2a.task.control.sig.v1" +:+ NUL.
Definition MAX_TASK_CONTROL_LIFETIME_SECONDS : Z := 15 * 60.
Definition MAX_CANCEL_REASON_BYTES : Z := 512.
Definition MAX_CONTROL_NONCE_BYTES : Z := MAX_IDEMPOTENCY_KEY_BYTES.
Definition DIGEST_PREFIX : string := "sha256:".
Definition DIGEST_HEX_LEN : Z := 64.
Definition ARTIFACT_REF_VERSION : Z := 1.
Definition CAPABILITY_GRANT_REF_VERSION : Z := 1.
Definition TASK_AUTHORITY_CONFIG_VERSION : Z := 1.
Definition TASK_ACTION_SEND : string := "tasks/send".
Definition TASK_ACTION_GET : string := "tasks/get".
Definition TASK_ACTION_CANCEL : string := "tasks/cancel".
Definition TASK_CONTROL_DESCRIPTOR_VERSION : Z := 1.
(** [delivery_authority.rs] and [delivery_delegation.rs] *)
Definition DELIVERY_CHECK : string := "delivery/check".
Definition DELIVERY_RECORD : string := "delivery/record".
Definition DELIVERY_DELEGATE : string := "delivery/delegate".

(** Instants and durations are nanoseconds. *)
Definition seconds (n : Z) : Z := n * 1000000000.
(** [duration.num_seconds()] truncates towards zero. *)
Definition num_seconds (d : Z) : Z := Z.quot d 1000000000.

(** ** Errors *)
Inductive TaskAuthorityError :=
| MalformedBounds | UnsupportedAction | UnknownKey | RevokedKey | InvalidKey | InvalidSignature
| WrongSender | WrongRecipient | WrongScope | KeyNotYetValid | KeyExpired | MissingGrant | RevokedGrant
| GrantNotYetValid | GrantExpired | GrantMismatch | DescriptorNotYetValid | DescriptorExpired
| DuplicateTrustEntry | SharedSecretReuse.
#[export] Instance TaskAuthorityError_eq_dec : EqDecision TaskAuthorityError.
Proof. solve_decision. Defined.

Notation authority := (exec TaskAuthorityError).

Definition TaskAuthorityError_fmt (e : TaskAuthorityError) : string :=
  match e with
  | MalformedBounds => "malformed task authority bounds"
  | UnsupportedAction => "unsupported task action"
  | UnknownKey => "unknown task authority key"
  | RevokedKey => "revoked task authority key"
  | InvalidKey => "invalid task authority key"
  | InvalidSignature => "invalid task descriptor signature"
  | WrongSender => "task descriptor sender mismatch"
  | WrongRecipient => "task descriptor recipient mismatch"
  | WrongScope => "task descriptor scope mismatch"
  | KeyNotYetValid => "task authority key is not yet valid"
  | KeyExpired => "task authority key is expired"
  | MissingGrant => "task capability grant is missing"
  | RevokedGrant => "task capability grant is revoked"
  | GrantNotYetValid => "task capability grant is not yet valid"
  | GrantExpired => "task capability grant is expired"
  | GrantMismatch => "task capability grant does not authorize descriptor"
  | DescriptorNotYetValid => "task descriptor is not yet valid"
  | DescriptorExpired => "task descriptor is expired"
  | DuplicateTrustEntry => "duplicate task authority trust entry"
  | SharedSecretReuse => "task authority key must not reuse a bearer or channel secret"
  end.

(** ** Field checks *)

(** [byte.is_ascii_alphanumeric() || b"._:/-".contains(&byte)] *)
Definition is_identifier_byte (a : Ascii.ascii) : bool :=
  byte_in 48 57 a || byte_in 65 90 a || byte_in 97 122 a
  || byte_in 46 46 a || byte_in 95 95 a || byte_in 58 58 a || byte_in 47 47 a || byte_in 45 45 a.

(** [validate_identifier(value, max_bytes)] *)
Definition authority_identifier (value : string) (max_bytes : Z) : authority () :=
  reject_if (str_is_empty value || (max_bytes <? str_len value)
             || negb (all_bytes (byte_in 0 127) value) || negb (all_bytes is_identifier_byte value))
    MalformedBounds.

Definition validate_digest (value : string) : authority () :=
  hex ← ok_or (strip_prefix DIGEST_PREFIX value) MalformedBounds;
  reject_if (negb (str_len hex =? DIGEST_HEX_LEN) || negb (all_bytes is_ascii_hexdigit hex))
    MalformedBounds.

Definition is_control_action (action : string) : bool :=
  bool_decide (action = TASK_ACTION_GET) || bool_decide (action = TASK_ACTION_CANCEL).

Definition is_delivery_action (action : string) : bool :=
  bool_decide (action = DELIVERY_CHECK) || bool_decide (action = DELIVERY_RECORD).

Definition is_supported_task_action (action : string) : bool :=
  bool_decide (action = TASK_ACTION_SEND) || is_control_action action
  || is_delivery_action action || bool_decide (action = DELIVERY_DELEGATE).

(** Printable ASCII: [byte.is_ascii_graphic() || byte == b' ']. *)
Definition validate_control_reason (action : string) (reason : option string) : authority () :=
  match reason with
  | None => Ok ()
  | Some reason =>
      reject_if (negb (bool_decide (action = TASK_ACTION_CANCEL)) || str_is_empty reason
                 || (MAX_CANCEL_REASON_BYTES <? str_len reason)
                 || negb (all_bytes is_printable reason)) MalformedBounds
  end.

(** A fixed-size lower-case copy: [a.eq_ignore_ascii_case(b)]. *)
Definition to_ascii_lowercase (a : Ascii.ascii) : Ascii.ascii :=
  if byte_in 65 90 a then Ascii.ascii_of_N (Z.to_N (byte_val a + 32)) else a.
Fixpoint lowercase (s : string) : string :=
  match s with EmptyString => "" | String a tl => String (to_ascii_lowercase a) (lowercase tl) end.
Definition eq_ignore_ascii_case (a b : string) : bool := bool_decide (lowercase a = lowercase b).

(** Each element is checked, then compared with those before it. *)
Fixpoint check_entries {A : Type} (check : A → authority ()) (clash : A → A → bool)
    (after : A → authority ()) (before xs : list A) : authority () :=
  match xs with
  | [] => Ok ()
  | x :: xs =>
      check x;;
      reject_if (any (λ other, clash other x) before) DuplicateTrustEntry;;
      after x;;
      check_entries check clash after (before ++ [x]) xs
  end.

(** ** References carried by a descriptor *)
Definition artifact_validate (r : AgentArtifactRefV1) : authority () :=
  reject_if (negb (ar_schema_version r =? ARTIFACT_REF_VERSION)
             || (MAX_TASK_DESCRIPTOR_BYTES <? ar_size_bytes r)) MalformedBounds;;
  authority_identifier (ar_artifact_id r) MAX_DESCRIPTOR_STRING_BYTES;;
  authority_identifier (ar_digest r) MAX_DESCRIPTOR_STRING_BYTES;;
  authority_identifier (ar_media_type r) MAX_DESCRIPTOR_STRING_BYTES;;
  match ar_uri r with
  | Some uri => authority_identifier uri MAX_DESCRIPTOR_STRING_BYTES
  | None => Ok ()
  end.

Record CapabilityGrantRefV1 := MkGrantRef { gr_schema_version : Z; gr_grant_id : string }.

Definition grant_ref_validate (r : CapabilityGrantRefV1) : authority () :=
  reject_if (negb (gr_schema_version r =? CAPABILITY_GRANT_REF_VERSION)) MalformedBounds;;
  authority_identifier (gr_grant_id r) MAX_DESCRIPTOR_STRING_BYTES.

(** ** The policy *)
Record TaskScopeV1 := MkScope {
  sc_schema_version : Z;
  sc_tenant_id : string;
  sc_project_id : string;
}.

Definition scope_validate (s : TaskScopeV1) : authority () :=
  reject_if (negb (sc_schema_version s =? TASK_AUTHORITY_CONFIG_VERSION)) MalformedBounds;;
  authority_identifier (sc_tenant_id s) MAX_DESCRIPTOR_STRING_BYTES;;
  authority_identifier (sc_project_id s) MAX_DESCRIPTOR_STRING_BYTES.

Record TaskPeerTrustV1 := MkPeer {
  pr_schema_version : Z;
  pr_key_id : string;
  pr_agent_id : string;
  pr_public_key : string;
  pr_allowed_actions : list string;
  pr_allowed_scopes : list TaskScopeV1;
  pr_not_before : Z;
  pr_expires_at : Z;
  pr_revoked : bool;
}.

Record TaskCapabilityGrantV1 := MkGrant {
  gt_schema_version : Z;
  gt_grant_id : string;
  gt_key_id : string;
  gt_action : string;
  gt_tenant_id : string;
  gt_project_id : string;
  gt_not_before : Z;
  gt_expires_at : Z;
  gt_revoked : bool;
}.

Record TaskAuthorityConfigV1 := MkAuthorityConfig {
  ac_schema_version : Z;
  ac_peers : list TaskPeerTrustV1;
  ac_grants : list TaskCapabilityGrantV1;
}.

Definition TaskAuthorityConfigV1_default : TaskAuthorityConfigV1 :=
  MkAuthorityConfig TASK_AUTHORITY_CONFIG_VERSION [] [].

Definition validate_peer (peer : TaskPeerTrustV1) : authority () :=
  reject_if (negb (pr_schema_version peer =? TASK_AUTHORITY_CONFIG_VERSION)
             || (vec_len (pr_allowed_actions peer) =? 0) || (vec_len (pr_allowed_scopes peer) =? 0)
             || (pr_expires_at peer <=? pr_not_before peer)
             || (MAX_POLICY_LIFETIME_SECONDS <? num_seconds (pr_expires_at peer - pr_not_before peer)))
    MalformedBounds;;
  authority_identifier (pr_key_id peer) MAX_DESCRIPTOR_STRING_BYTES;;
  authority_identifier (pr_agent_id peer) MAX_DESCRIPTOR_STRING_BYTES;;
  reject_if (negb (str_len (pr_public_key peer) =? 64)
             || negb (all_bytes is_ascii_hexdigit (pr_public_key peer))) InvalidKey;;
  forM_ (λ action, reject_if (negb (is_supported_task_action action)) UnsupportedAction)
    (pr_allowed_actions peer);;
  forM_ scope_validate (pr_allowed_scopes peer).

Definition validate_grant (grant : TaskCapabilityGrantV1) : authority () :=
  reject_if (negb (gt_schema_version grant =? TASK_AUTHORITY_CONFIG_VERSION)
             || (gt_expires_at grant <=? gt_not_before grant)
             || (MAX_POLICY_LIFETIME_SECONDS <? num_seconds (gt_expires_at grant - gt_not_before grant)))
    MalformedBounds;;
  authority_identifier (gt_grant_id grant) MAX_DESCRIPTOR_STRING_BYTES;;
  authority_identifier (gt_key_id grant) MAX_DESCRIPTOR_STRING_BYTES;;
  authority_identifier (gt_action grant) MAX_DESCRIPTOR_STRING_BYTES;;
  authority_identifier (gt_tenant_id grant) MAX_DESCRIPTOR_STRING_BYTES;;
  authority_identifier (gt_project_id grant) MAX_DESCRIPTOR_STRING_BYTES;;
  reject_if (negb (is_supported_task_action (gt_action grant))) UnsupportedAction.

(** The entries a policy may not hold twice. *)
Definition peers_clash (other peer : TaskPeerTrustV1) : bool :=
  bool_decide (pr_key_id other = pr_key_id peer)
  || eq_ignore_ascii_case (pr_public_key other) (pr_public_key peer).
Definition grants_clash (other grant : TaskCapabilityGrantV1) : bool :=
  bool_decide (gt_grant_id other = gt_grant_id grant).

(** [TaskAuthorityConfigV1::validate] *)
Definition config_validate (c : TaskAuthorityConfigV1) : authority () :=
  reject_if (negb (ac_schema_version c =? TASK_AUTHORITY_CONFIG_VERSION)
             || (MAX_TRUST_ENTRIES <? vec_len (ac_peers c))
             || (MAX_TRUST_ENTRIES <? vec_len (ac_grants c))) MalformedBounds;;
  check_entries validate_peer peers_clash (λ _, Ok ()) [] (ac_peers c);;
  check_entries validate_grant grants_clash
    (λ grant, reject_if (negb (any (λ peer, bool_decide (pr_key_id peer = gt_key_id grant)) (ac_peers c)))
                UnknownKey) [] (ac_grants c).

(** [TaskAuthorityConfigV1::from_json]; [parse] is [serde_json::from_str]. *)
Definition config_from_json (parse : string → exec string TaskAuthorityConfigV1) (raw : string) :
    exec string TaskAuthorityConfigV1 :=
  config ← parse raw;
  match config_validate config with
  | Ok _ => Ok config
  | Err error => Err (TaskAuthorityError_fmt error)
  | Panic => Panic
  | Hang => Hang
  end.

(** [TaskAuthorityConfigV1::reject_shared_secret] *)
Definition reject_shared_secret (c : TaskAuthorityConfigV1) (secret : string) : authority () :=
  let secret := trim secret in
  if str_is_empty secret then Ok ()
  else reject_if (any (λ peer, eq_ignore_ascii_case (pr_public_key peer) secret
                               || bool_decide (pr_key_id peer = secret)) (ac_peers c)) SharedSecretReuse.

(** ** Descriptors *)
Record TaskDescriptorV1 := MkDescriptor {
  td_schema_version : Z;
  td_sender : string;
  td_recipient : string;
  td_tenant_id : string;
  td_project_id : string;
  td_action : string;
  td_issued_at : Z;
  td_expires_at : Z;
  td_idempotency_key : string;
  td_description : string;
  td_artifact_refs : list AgentArtifactRefV1;
  td_grant_ref : CapabilityGrantRefV1;
  td_key_id : string;
  td_signature : string;
}.

Definition set_td_signature (x : string) (d : TaskDescriptorV1) : TaskDescriptorV1 :=
  MkDescriptor (td_schema_version d) (td_sender d) (td_recipient d) (td_tenant_id d)
    (td_project_id d) (td_action d) (td_issued_at d) (td_expires_at d) (td_idempotency_key d)
    (td_description d) (td_artifact_refs d) (td_grant_ref d) (td_key_id d) x.

(** [TaskDescriptorV1::new] *)
Definition TaskDescriptorV1_new (sender recipient tenant_id project_id action : string)
    (issued_at expires_at : Z) (idempotency_key description : string)
    (artifact_refs : list AgentArtifactRefV1) (grant_id key_id : string) : TaskDescriptorV1 :=
  MkDescriptor TASK_DESCRIPTOR_VERSION sender recipient tenant_id project_id action issued_at
    expires_at idempotency_key description artifact_refs
    (MkGrantRef CAPABILITY_GRANT_REF_VERSION grant_id) key_id "".

Record TaskControlDescriptorV1 := MkControl {
  cd_schema_version : Z;
  cd_sender : string;
  cd_recipient : string;
  cd_tenant_id : string;
  cd_project_id : string;
  cd_action : string;
  cd_task_id : string;
  cd_task_descriptor_digest : string;
  cd_issued_at : Z;
  cd_expires_at : Z;
  cd_nonce : string;
  cd_reason : option string;
  cd_grant_ref : CapabilityGrantRefV1;
  cd_key_id : string;
  cd_signature : string;
}.

Definition set_cd_signature (x : string) (d : TaskControlDescriptorV1) : TaskControlDescriptorV1 :=
  MkControl (cd_schema_version d) (cd_sender d) (cd_recipient d) (cd_tenant_id d)
    (cd_project_id d) (cd_action d) (cd_task_id d) (cd_task_descriptor_digest d) (cd_issued_at d)
    (cd_expires_at d) (cd_nonce d) (cd_reason d) (cd_grant_ref d) (cd_key_id d) x.

(** [TaskControlDescriptorV1::new] *)
Definition TaskControlDescriptorV1_new (sender recipient tenant_id project_id action task_id
    task_descriptor_digest : string) (issued_at expires_at : Z) (nonce : string)
    (reason : option string) (grant_id key_id : string) : TaskControlDescriptorV1 :=
  MkControl TASK_CONTROL_DESCRIPTOR_VERSION sender recipient tenant_id project_id action task_id
    task_descriptor_digest issued_at expires_at nonce reason
    (MkGrantRef CAPABILITY_GRANT_REF_VERSION grant_id) key_id "".

(** [canonical_serialize] of the two descriptor types ([serde_json]). *)
Class CanonicalJson := {
  canonical_descriptor : TaskDescriptorV1 → string;
  canonical_control : TaskControlDescriptorV1 → string;
}.

(** [ed25519_dalek]: signing, and verification of a 32-byte key and a 64-byte
    signature, including the decoding of the key. *)
Class Ed25519 := {
  SigningKey : Type;
  verifying_key : SigningKey → string;
  ed25519_sign : SigningKey → string → string;
  ed25519_verify : string → string → string → bool;
}.

(** What the code relies on: sizes, and that a signature verifies. *)
Class Ed25519Laws `{Ed25519} : Prop := {
  verifying_key_len k : str_len (verifying_key k) = 32;
  ed25519_sign_len k m : str_len (ed25519_sign k m) = 64;
  ed25519_verify_sign k m : ed25519_verify (verifying_key k) m (ed25519_sign k m) = true;
}.

(** Functions of the documented shape, on which statements are evaluated: the
    signature is the padded text of the public key and the bytes. *)
Definition sample_ed25519 : Ed25519 := {|
  SigningKey := string;
  verifying_key k := pad_hex 32 k;
  ed25519_sign k m := pad_hex 64 (pad_hex 32 k +:+ m);
  ed25519_verify pk m s := bool_decide (s = pad_hex 64 (pk +:+ m));
|}.
Lemma pad_hex_len n s : str_len (pad_hex n s) = Z.of_nat n.
Proof. unfold str_len. by rewrite pad_hex_length. Qed.
Lemma sample_ed25519_laws : @Ed25519Laws sample_ed25519.
Proof.
  split; [intros k; apply (pad_hex_len 32)|intros k m; apply (pad_hex_len 64)|].
  intros k m. by apply bool_decide_eq_true_2.
Qed.

Section descriptors.
Context `{CanonicalJson} `{Ed25519} `{Sha256}.

(** [signing_bytes] of the two descriptors. *)
Definition descriptor_signing_bytes (d : TaskDescriptorV1) : string :=
  TASK_DESCRIPTOR_SIGNING_DOMAIN +:+ canonical_descriptor (set_td_signature "" d).
Definition control_signing_bytes (d : TaskControlDescriptorV1) : string :=
  TASK_CONTROL_SIGNING_DOMAIN +:+ canonical_control (set_cd_signature "" d).

(** [content_digest] *)
Definition descriptor_content_digest (d : TaskDescriptorV1) : string :=
  "sha256:" +:+ sha256_hex (descriptor_signing_bytes d).
Definition control_content_digest (d : TaskControlDescriptorV1) : string :=
  "sha256:" +:+ sha256_hex (control_signing_bytes d).

(** [sign] *)
Definition descriptor_sign (key : SigningKey) (d : TaskDescriptorV1) : TaskDescriptorV1 :=
  let d := set_td_signature "" d in
  set_td_signature (hex_encode (ed25519_sign key (descriptor_signing_bytes d))) d.
Definition control_sign (key : SigningKey) (d : TaskControlDescriptorV1) : TaskControlDescriptorV1 :=
  let d := set_cd_signature "" d in
  set_cd_signature (hex_encode (ed25519_sign key (control_signing_bytes d))) d.

(** [TaskDescriptorV1::validate_shape] *)
Definition descriptor_validate_shape (d : TaskDescriptorV1) : authority () :=
  reject_if (negb (td_schema_version d =? TASK_DESCRIPTOR_VERSION)
             || negb (bool_decide (td_action d = TASK_ACTION_SEND))
             || (MAX_ARTIFACT_REFS <? vec_len (td_artifact_refs d))
             || (MAX_DESCRIPTION_BYTES <? str_len (td_description d))
             || (MAX_IDEMPOTENCY_KEY_BYTES <? str_len (td_idempotency_key d))
             || (td_expires_at d <=? td_issued_at d)
             || (MAX_TASK_LIFETIME_SECONDS <? num_seconds (td_expires_at d - td_issued_at d)))
    (if bool_decide (td_action d = TASK_ACTION_SEND) then MalformedBounds else UnsupportedAction);;
  forM_ (λ value, authority_identifier value MAX_DESCRIPTOR_STRING_BYTES)
    [td_sender d; td_recipient d; td_tenant_id d; td_project_id d; td_action d;
     td_idempotency_key d; td_key_id d];;
  reject_if (str_is_empty (td_description d) || str_is_empty (td_idempotency_key d)
             || negb (str_len (td_signature d) =? 128)
             || negb (all_bytes is_ascii_hexdigit (td_signature d))) MalformedBounds;;
  grant_ref_validate (td_grant_ref d);;
  check_entries artifact_validate
    (λ other artifact, bool_decide (ar_artifact_id other = ar_artifact_id artifact))
    (λ _, Ok ()) [] (td_artifact_refs d);;
  reject_if (MAX_TASK_DESCRIPTOR_BYTES <? str_len (descriptor_signing_bytes d)) MalformedBounds.

(** [TaskControlDescriptorV1::validate_shape] *)
Definition control_validate_shape (d : TaskControlDescriptorV1) : authority () :=
  reject_if (negb (is_control_action (cd_action d))) UnsupportedAction;;
  reject_if (negb (cd_schema_version d =? TASK_CONTROL_DESCRIPTOR_VERSION)
             || (cd_expires_at d <=? cd_issued_at d)
             || (seconds MAX_TASK_CONTROL_LIFETIME_SECONDS <? cd_expires_at d - cd_issued_at d)
             || negb (str_len (cd_signature d) =? 128)
             || negb (all_bytes is_ascii_hexdigit (cd_signature d))) MalformedBounds;;
  forM_ (λ value, authority_identifier value MAX_DESCRIPTOR_STRING_BYTES)
    [cd_sender d; cd_recipient d; cd_tenant_id d; cd_project_id d; cd_action d; cd_task_id d;
     cd_key_id d];;
  authority_identifier (cd_nonce d) MAX_CONTROL_NONCE_BYTES;;
  validate_digest (cd_task_descriptor_digest d);;
  validate_control_reason (cd_action d) (cd_reason d);;
  grant_ref_validate (cd_grant_ref d);;
  reject_if (MAX_TASK_DESCRIPTOR_BYTES <? str_len (control_signing_bytes d)) MalformedBounds.

(** ** The decision *)
Record TaskAuthorityExpectationV1 := MkExpectation {
  ex_sender : string;
  ex_recipient : string;
  ex_tenant_id : string;
  ex_project_id : string;
  ex_now : Z;
}.

Record AuthorityClaimV1 := MkClaim {
  cl_sender : string;
  cl_recipient : string;
  cl_tenant_id : string;
  cl_project_id : string;
  cl_action : string;
  cl_issued_at : Z;
  cl_expires_at : Z;
  cl_grant_id : string;
  cl_key_id : string;
  cl_signature : string;
  cl_signing_bytes : string;
}.

(** [agent_identity::verify_signature] *)
Definition verify_signature (public_key data signature : string) : bool :=
  (str_len public_key =? 32) && (str_len signature =? 64) && ed25519_verify public_key data signature.

Definition verify_signed_transcript (signature transcript : string) (peer : TaskPeerTrustV1) :
    authority bool :=
  public_key ← match hex_decode (pr_public_key peer) with
               | Ok bytes => Ok bytes | Err _ => Err InvalidKey | Panic => Panic | Hang => Hang end;
  signature ← match hex_decode signature with
              | Ok bytes => Ok bytes | Err _ => Err InvalidSignature | Panic => Panic | Hang => Hang end;
  Ok (verify_signature public_key transcript signature).

Definition authorize (claim : AuthorityClaimV1) (policy : TaskAuthorityConfigV1)
    (expected : TaskAuthorityExpectationV1) : authority () :=
  config_validate policy;;
  reject_if (bool_decide (cl_sender claim ≠ ex_sender expected)) WrongSender;;
  reject_if (bool_decide (cl_recipient claim ≠ ex_recipient expected)) WrongRecipient;;
  reject_if (bool_decide (cl_tenant_id claim ≠ ex_tenant_id expected)
             || bool_decide (cl_project_id claim ≠ ex_project_id expected)) WrongScope;;
  let now := ex_now expected in
  peer ← ok_or (find_first (λ peer, bool_decide (pr_key_id peer = cl_key_id claim)) (ac_peers policy))
           UnknownKey;
  reject_if (pr_revoked peer) RevokedKey;;
  reject_if (bool_decide (pr_agent_id peer ≠ cl_sender claim)) WrongSender;;
  reject_if (negb (any (λ action, bool_decide (action = cl_action claim)) (pr_allowed_actions peer)))
    UnsupportedAction;;
  reject_if (negb (any (λ scope, bool_decide (sc_tenant_id scope = cl_tenant_id claim)
                                 && bool_decide (sc_project_id scope = cl_project_id claim))
                     (pr_allowed_scopes peer))) WrongScope;;
  verified ← verify_signed_transcript (cl_signature claim) (cl_signing_bytes claim) peer;
  reject_if (negb verified) InvalidSignature;;
  reject_if (now + seconds MAX_AUTHORITY_CLOCK_SKEW_SECONDS <? cl_issued_at claim) DescriptorNotYetValid;;
  reject_if (cl_expires_at claim <=? now) DescriptorExpired;;
  reject_if ((now <? pr_not_before peer) || (cl_issued_at claim <? pr_not_before peer)) KeyNotYetValid;;
  reject_if (pr_expires_at peer <=? now) KeyExpired;;
  grant ← ok_or (find_first (λ grant, bool_decide (gt_grant_id grant = cl_grant_id claim))
                   (ac_grants policy)) MissingGrant;
  reject_if (gt_revoked grant) RevokedGrant;;
  reject_if (bool_decide (gt_key_id grant ≠ cl_key_id claim)
             || bool_decide (gt_action grant ≠ cl_action claim)
             || bool_decide (gt_tenant_id grant ≠ cl_tenant_id claim)
             || bool_decide (gt_project_id grant ≠ cl_project_id claim)) GrantMismatch;;
  reject_if ((now <? gt_not_before grant) || (cl_issued_at claim <? gt_not_before grant))
    GrantNotYetValid;;
  reject_if (gt_expires_at grant <=? now) GrantExpired;;
  reject_if ((gt_expires_at grant <? cl_expires_at claim) || (pr_expires_at peer <? cl_expires_at claim))
    GrantMismatch.

Definition descriptor_claim (d : TaskDescriptorV1) : AuthorityClaimV1 :=
  MkClaim (td_sender d) (td_recipient d) (td_tenant_id d) (td_project_id d) (td_action d)
    (td_issued_at d) (td_expires_at d) (gr_grant_id (td_grant_ref d)) (td_key_id d) (td_signature d)
    (descriptor_signing_bytes d).

Definition control_claim (d : TaskControlDescriptorV1) : AuthorityClaimV1 :=
  MkClaim (cd_sender d) (cd_recipient d) (cd_tenant_id d) (cd_project_id d) (cd_action d)
    (cd_issued_at d) (cd_expires_at d) (gr_grant_id (cd_grant_ref d)) (cd_key_id d) (cd_signature d)
    (control_signing_bytes d).

(** [verify_authority] of the two descriptors. *)
Definition descriptor_verify_authority (d : TaskDescriptorV1) (policy : TaskAuthorityConfigV1)
    (expected : TaskAuthorityExpectationV1) : authority () :=
  descriptor_validate_shape d;;
  authorize (descriptor_claim d) policy expected.

Definition control_verify_authority (d : TaskControlDescriptorV1) (policy : TaskAuthorityConfigV1)
    (expected : TaskAuthorityExpectationV1) : authority () :=
  control_validate_shape d;;
  authorize (control_claim d) policy expected.
End descriptors.
