(* ===== verification/TaskAuthorityFacts.v ===== *)
(** * Authority over tasks: what a decision means

    The decision of [authorize] as one statement about the policy, the signature
    and the clock, and what follows for signed descriptors. *)
From S2P Require Import Prelude Wp BTree Text Hashing Hex GraphModel TaskModel TaskAuthority.
#[local] Open Scope Z_scope.

(** ** Policies *)
Lemma check_entries_Ok {A} (check : A → authority ()) clash after before xs u :
  check_entries check clash after before xs = Ok u ↔
    (∀ x, x ∈ xs → check x = Ok () ∧ after x = Ok ())
    ∧ ∀ ys x zs, xs = ys ++ x :: zs → ∀ y, y ∈ before ++ ys → clash y x = false.
Proof.
  destruct u. revert before. induction xs as [|x xs IH]; intros before; cbn [check_entries].
  - split; [|done]. intros _. split; [by intros x ?%elem_of_nil|]. by intros [] ??.
  - rewrite exec_bind_Ok. setoid_rewrite exec_bind_Ok. setoid_rewrite exec_bind_Ok.
    setoid_rewrite reject_if_Ok. setoid_rewrite any_false. setoid_rewrite IH. split.
    + intros ([] & Hx & _ & Hc & [] & Ha & Hxs & Hcl). split.
      * intros y [->|Hy]%elem_of_cons; [done|by apply Hxs].
      * intros [|z ys] y zs [= <- E] w Hw.
        -- rewrite app_nil_r in Hw. by apply Hc.
        -- apply (Hcl ys y zs E). by rewrite <-(assoc_L (++)).
    + intros [Hxs Hcl]. destruct (Hxs x) as [Hx Ha]; [left|]. exists (). split; [done|].
      exists (). split; [intros y Hy; apply (Hcl [] x xs); [done|by rewrite app_nil_r]|].
      exists (). split; [done|]. split; [intros y Hy; apply Hxs; by right|].
      intros ys y zs -> w Hw. apply (Hcl (x :: ys) y zs); [done|].
      by rewrite <-(assoc_L (++)) in Hw.
Qed.

(** Two entries of a checked list that clash are the same entry. *)
Lemma check_entries_unique {A} (check : A → authority ()) clash after xs x y :
  check_entries check clash after [] xs = Ok () → (∀ a b, clash a b = clash b a) →
  x ∈ xs → y ∈ xs → clash x y = true → x = y.
Proof.
  intros [_ Hcl]%check_entries_Ok Hsym Hx Hy Hc. cbn in Hcl.
  apply list_elem_of_split in Hy as (ys & zs & ->).
  apply elem_of_app in Hx as [Hx|[->|Hx]%elem_of_cons].
  - by rewrite (Hcl ys y zs) in Hc.
  - done.
  - apply list_elem_of_split in Hx as (us & vs & ->). rewrite Hsym in Hc.
    rewrite (Hcl (ys ++ y :: us) x vs) in Hc; [done|by rewrite <-(assoc_L (++))|set_solver].
Qed.

Lemma peers_clash_sym a b : peers_clash a b = peers_clash b a.
Proof.
  unfold peers_clash, eq_ignore_ascii_case.
  f_equal; apply bool_decide_ext; split; congruence.
Qed.
Lemma grants_clash_sym a b : grants_clash a b = grants_clash b a.
Proof. unfold grants_clash. apply bool_decide_ext; split; congruence. Qed.

Lemma config_validate_Ok c :
  config_validate c = Ok () →
  check_entries validate_peer peers_clash (λ _, Ok ()) [] (ac_peers c) = Ok ()
  ∧ check_entries validate_grant grants_clash
      (λ grant, reject_if (negb (any (λ peer, bool_decide (pr_key_id peer = gt_key_id grant)) (ac_peers c)))
                  UnknownKey) [] (ac_grants c) = Ok ().
Proof.
  unfold config_validate. intros Hc. apply exec_bind_Ok in Hc as ([] & _ & Hc).
  by apply exec_bind_Ok in Hc as ([] & Hp & Hg).
Qed.

(** A valid policy has one peer per key id and one grant per grant id. *)
Lemma config_peer_unique c p q :
  config_validate c = Ok () → p ∈ ac_peers c → q ∈ ac_peers c → pr_key_id p = pr_key_id q → p = q.
Proof.
  intros [Hp _]%config_validate_Ok Hin Hin' E.
  eapply check_entries_unique; [done|apply peers_clash_sym|done|done|].
  unfold peers_clash. by rewrite bool_decide_eq_true_2.
Qed.

Lemma config_grant_unique c p q :
  config_validate c = Ok () → p ∈ ac_grants c → q ∈ ac_grants c → gt_grant_id p = gt_grant_id q → p = q.
Proof.
  intros [_ Hg]%config_validate_Ok Hin Hin' E.
  eapply check_entries_unique; [done|apply grants_clash_sym|done|done|].
  unfold grants_clash. by rewrite bool_decide_eq_true_2.
Qed.

(** In a list where [k] identifies the entries, the first one found is the one. *)
Lemma find_first_unique {A} (p : A → bool) l x :
  (∀ a b, a ∈ l → b ∈ l → p a = true → p b = true → a = b) →
  find_first p l = Some x ↔ x ∈ l ∧ p x = true.
Proof.
  intros Hu. split; [by intros ?%find_first_Some|]. intros [Hx Hp].
  destruct (find_first p l) as [y|] eqn:E.
  - apply find_first_Some in E as [Hy Hpy]. f_equal. by apply Hu.
  - rewrite find_first_None in E. specialize (E x Hx). congruence.
Qed.

Section authority.
Context `{Ed25519}.

(** The signature of a claim verifies under a peer's key. *)
Definition transcript_verifies (claim : AuthorityClaimV1) (peer : TaskPeerTrustV1) : Prop :=
  ∃ key signature, hex_decode (pr_public_key peer) = Ok key
    ∧ hex_decode (cl_signature claim) = Ok signature
    ∧ str_len key = 32 ∧ str_len signature = 64
    ∧ ed25519_verify key (cl_signing_bytes claim) signature = true.

Lemma verify_signed_transcript_true claim peer :
  verify_signed_transcript (cl_signature claim) (cl_signing_bytes claim) peer = Ok true
  ↔ transcript_verifies claim peer.
Proof.
  unfold verify_signed_transcript, transcript_verifies, verify_signature.
  destruct (hex_decode (pr_public_key peer)) as [key|e| |];
    try (split; [done|by intros (? & ? & ? & _)]).
  rewrite exec_bind_ret. destruct (hex_decode (cl_signature claim)) as [sg|e| |];
    try (split; [done|by intros (? & ? & ? & ? & _)]).
  rewrite exec_bind_ret. split.
  - intros [= Hv]. rewrite !andb_true_iff, !Z.eqb_eq in Hv. destruct Hv as [[? ?] ?]. by exists key, sg.
  - intros (k & s & [= <-] & [= <-] & Hk & Hs & Hv). f_equal. by rewrite Hk, Hs, Hv.
Qed.

(** What an authorized claim rests on: the receiver's expectation, a live peer
    that may act in this scope and signed these bytes, and a live grant for this
    action that outlives the claim. *)
Record authorized (claim : AuthorityClaimV1) (policy : TaskAuthorityConfigV1)
    (expected : TaskAuthorityExpectationV1) (peer : TaskPeerTrustV1) (grant : TaskCapabilityGrantV1) :
    Prop := {
  au_policy : config_validate policy = Ok ();
  au_sender : cl_sender claim = ex_sender expected;
  au_recipient : cl_recipient claim = ex_recipient expected;
  au_scope : cl_tenant_id claim = ex_tenant_id expected ∧ cl_project_id claim = ex_project_id expected;
  au_peer : peer ∈ ac_peers policy ∧ pr_key_id peer = cl_key_id claim;
  au_peer_live : pr_revoked peer = false;
  au_peer_agent : pr_agent_id peer = cl_sender claim;
  au_peer_action : cl_action claim ∈ pr_allowed_actions peer;
  au_peer_scope : ∃ scope, scope ∈ pr_allowed_scopes peer
    ∧ sc_tenant_id scope = cl_tenant_id claim ∧ sc_project_id scope = cl_project_id claim;
  au_signed : transcript_verifies claim peer;
  au_issued : cl_issued_at claim ≤ ex_now expected + seconds MAX_AUTHORITY_CLOCK_SKEW_SECONDS;
  au_unexpired : ex_now expected < cl_expires_at claim;
  au_peer_since : pr_not_before peer ≤ ex_now expected ∧ pr_not_before peer ≤ cl_issued_at claim;
  au_grant : grant ∈ ac_grants policy ∧ gt_grant_id grant = cl_grant_id claim;
  au_grant_live : gt_revoked grant = false;
  au_grant_for : gt_key_id grant = cl_key_id claim ∧ gt_action grant = cl_action claim
    ∧ gt_tenant_id grant = cl_tenant_id claim ∧ gt_project_id grant = cl_project_id claim;
  au_grant_since : gt_not_before grant ≤ ex_now expected ∧ gt_not_before grant ≤ cl_issued_at claim;
  au_outlived : cl_expires_at claim ≤ gt_expires_at grant ∧ cl_expires_at claim ≤ pr_expires_at peer;
}.

Lemma any_decide {A} (P : A → Prop) `{∀ x, Decision (P x)} l :
  any (λ x, bool_decide (P x)) l = true ↔ ∃ x, x ∈ l ∧ P x.
Proof. rewrite any_true. by setoid_rewrite bool_decide_eq_true. Qed.

Lemma authorize_Ok claim policy expected :
  authorize claim policy expected = Ok () ↔ ∃ peer grant, authorized claim policy expected peer grant.
Proof.
  unfold authorize. destruct (config_validate policy) as [[]|e| |] eqn:Hpol;
    try (split; [done|intros (? & ? & []); congruence]).
  rewrite exec_bind_ret.
  pose proof (config_peer_unique policy) as Hpu. pose proof (config_grant_unique policy) as Hgu.
  split.
  - intros Hrun. inv_step Hrun. 
    repeat match goal with
           | H : _ || _ = false |- _ => apply orb_false_iff in H as [??]
           | H : negb _ = false |- _ => apply negb_false_iff in H
           | H : bool_decide (_ ≠ _) = false |- _ => apply bool_decide_eq_false, dec_stable in H
           | H : (_ <? _) = false |- _ => apply Z.ltb_ge in H
           | H : (_ <=? _) = false |- _ => apply Z.leb_gt in H
           | H : find_first _ _ = Some _ |- _ => apply find_first_Some in H as [? ?%bool_decide_eq_true]
           | H : any (λ _, bool_decide _) _ = true |- _ => apply any_decide in H as (? & ? & ->)
           end.
    match goal with Hp : ?p ∈ ac_peers _, Hg : ?g ∈ ac_grants _ |- _ => exists p, g end.
    split; try done; [|by apply verify_signed_transcript_true; congruence].
    match goal with Hs : any _ _ = true |- _ => apply any_true in Hs as (scope & Hin & Hscope) end.
    rewrite andb_true_iff, !bool_decide_eq_true in Hscope. by exists scope.
  - intros (peer & grant & [_ Hse Hre [Ht Hpr] [Hpin Hpk] Hpl Hpa Hact (scope & Hsc & Hst & Hsp) Hsig
      Hiss Hun [Hps1 Hps2] [Hgin Hgid] Hgl (Hg1 & Hg2 & Hg3 & Hg4) [Hgs1 Hgs2] [Ho1 Ho2]]).
    rewrite Hse, Hre, Ht, Hpr, !reject_if_false
      by (rewrite ?orb_false_iff; repeat split; apply bool_decide_eq_false_2; tauto).
    assert (find_first (λ peer, bool_decide (pr_key_id peer = cl_key_id claim)) (ac_peers policy)
      = Some peer) as ->.
    { apply find_first_unique.
      - intros a b Ha Hb Ea%bool_decide_eq_true Eb%bool_decide_eq_true. apply Hpu; congruence.
      - by rewrite bool_decide_eq_true. }
    assert (find_first (λ grant, bool_decide (gt_grant_id grant = cl_grant_id claim)) (ac_grants policy)
      = Some grant) as ->.
    { apply find_first_unique.
      - intros a b Ha Hb Ea%bool_decide_eq_true Eb%bool_decide_eq_true. apply Hgu; congruence.
      - by rewrite bool_decide_eq_true. }
    cbn [ok_or]. rewrite exec_bind_ret, Hpl. cbn [reject_if]. rewrite exec_bind_ret.
    rewrite reject_if_false by (apply bool_decide_eq_false_2; congruence).
    rewrite reject_if_false
      by (apply negb_false_iff, any_decide; by exists (cl_action claim)).
    rewrite reject_if_false.
    2: { apply negb_false_iff, any_true. exists scope. split; [done|].
         by rewrite !bool_decide_eq_true_2 by congruence. }
    apply verify_signed_transcript_true in Hsig. rewrite Hsig, exec_bind_ret. cbn [negb reject_if].
    rewrite exec_bind_ret, !reject_if_false
      by (rewrite ?orb_false_iff, ?Z.ltb_ge, ?Z.leb_gt; lia).
    rewrite exec_bind_ret, Hgl. cbn [reject_if]. rewrite exec_bind_ret.
    rewrite reject_if_false
      by (rewrite !orb_false_iff; repeat split; apply bool_decide_eq_false_2; congruence).
    rewrite !reject_if_false by (rewrite ?orb_false_iff, ?Z.ltb_ge, ?Z.leb_gt; lia).
    apply reject_if_Ok. rewrite orb_false_iff, !Z.ltb_ge. lia.
Qed.
End authority.

(** ** Totality *)
Lemma authority_identifier_total value max : total (authority_identifier value max).
Proof. apply total_reject. Qed.
#[export] Hint Resolve authority_identifier_total : total.

Lemma check_entries_total {A} (check : A → authority ()) clash after before xs :
  (∀ x, total (check x)) → (∀ x, total (after x)) →
  total (check_entries check clash after before xs).
Proof. intros Hc Ha. revert before. induction xs as [|x xs IH]; intros before; cbn; [done|]; total. Qed.

Lemma hex_decode_total s : total (hex_decode s).
Proof.
  pose proof (hex_decode_cases s) as H. by destruct (hex_decode s).
Qed.

Lemma config_validate_total c : total (config_validate c).
Proof.
  unfold config_validate. total.
  - apply check_entries_total; [|done]. intros peer. unfold validate_peer, scope_validate. total.
  - apply check_entries_total; [|intros; total]. intros grant. unfold validate_grant. total.
Qed.
#[export] Hint Resolve config_validate_total : total.

Lemma authorize_total `{Ed25519} claim policy expected : total (authorize claim policy expected).
Proof.
  unfold authorize, verify_signed_transcript. total; try exact I.
  all: match goal with E : hex_decode ?s = _ |- _ => pose proof (hex_decode_total s); by rewrite E in * end.
Qed.

(** ** The decision *)

(** C15: [authorize] decides without panic, and it accepts a claim exactly when the
    policy is valid, the claim is the one the receiver expects, a live peer of the
    policy with the claim's key may act in this scope and signed these very bytes,
    the claim is current, and a live grant of that key for this action and scope
    outlives the claim. *)
Theorem authorize_spec `{Ed25519} claim policy expected :
  match authorize claim policy expected with
  | Ok _ => ∃ peer grant, authorized claim policy expected peer grant
  | Err _ => ¬ ∃ peer grant, authorized claim policy expected peer grant
  | Panic | Hang => False
  end.
Proof.
  pose proof (authorize_total claim policy expected) as Ht.
  pose proof (authorize_Ok claim policy expected) as Hok.
  destruct (authorize claim policy expected) as [[]|e| |]; try done; [by apply Hok|].
  intros Ha%Hok. done.
Qed.

(** The bytes signed for a task and the bytes signed for a control operation
    are never the same, whatever the serializer does; so no signature obtained
    for one verifies as the signature of the other's bytes by being replayed. *)
Theorem signing_domains_disjoint `{CanonicalJson} d c :
  descriptor_signing_bytes d ≠ control_signing_bytes c.
Proof. unfold descriptor_signing_bytes, control_signing_bytes. by intros [=]. Qed.

(** ** Signing *)
Section signing.
Context `{CanonicalJson} `{E : Ed25519} `{Sha256} `{!Ed25519Laws}.

Lemma descriptor_signed_bytes x d :
  descriptor_signing_bytes (set_td_signature x d) = descriptor_signing_bytes d.
Proof. done. Qed.
Lemma control_signed_bytes x d :
  control_signing_bytes (set_cd_signature x d) = control_signing_bytes d.
Proof. done. Qed.

Lemma signature_verifies key claim peer m :
  pr_public_key peer = hex_encode (verifying_key key) →
  cl_signature claim = hex_encode (ed25519_sign key m) → cl_signing_bytes claim = m →
  transcript_verifies claim peer
  ∧ str_len (cl_signature claim) = 128 ∧ all_bytes is_ascii_hexdigit (cl_signature claim) = true.
Proof.
  intros Hk Hs <-. rewrite Hs. destruct (hex_encode_decode (verifying_key key)) as (Hdk & _).
  destruct (hex_encode_decode (ed25519_sign key (cl_signing_bytes claim))) as (Hds & Hl & Hh).
  split; [|split].
  - exists (verifying_key key), (ed25519_sign key (cl_signing_bytes claim)).
    rewrite Hk, Hs. split; [done|]. split; [done|]. split; [apply verifying_key_len|].
    split; [apply ed25519_sign_len|apply ed25519_verify_sign].
  - rewrite Hl, ed25519_sign_len. done.
  - by apply lower_hex_hexdigit.
Qed.
End signing.

(** What a key signed verifies under that key's trust entry: the signature of
    a signed descriptor, for a task or for a control operation, decodes to 64
    bytes that verify over the descriptor's own bytes, has the form the shape
    check asks for, and does not change the content digest that detects
    duplicates. *)
Theorem sign_then_verify `{CanonicalJson, Ed25519, Sha256, !Ed25519Laws} key peer d c :
  pr_public_key peer = hex_encode (verifying_key key) →
  (transcript_verifies (descriptor_claim (descriptor_sign key d)) peer
   ∧ str_len (td_signature (descriptor_sign key d)) = 128
   ∧ all_bytes is_ascii_hexdigit (td_signature (descriptor_sign key d)) = true
   ∧ descriptor_content_digest (descriptor_sign key d) = descriptor_content_digest d)
  ∧ transcript_verifies (control_claim (control_sign key c)) peer
  ∧ str_len (cd_signature (control_sign key c)) = 128
  ∧ all_bytes is_ascii_hexdigit (cd_signature (control_sign key c)) = true
  ∧ control_content_digest (control_sign key c) = control_content_digest c.
Proof.
  intros Hk.
  destruct (signature_verifies key (descriptor_claim (descriptor_sign key d)) peer
    (descriptor_signing_bytes d)) as (? & ? & ?); [done..|].
  destruct (signature_verifies key (control_claim (control_sign key c)) peer
    (control_signing_bytes c)) as (? & ? & ?); [done..|]. done.
Qed.

(** ** Concrete values *)
Definition sample_authority_json : CanonicalJson :=
  {| canonical_descriptor := td_description; canonical_control := cd_task_id |}.
#[local] Existing Instance sample_authority_json.
#[local] Existing Instance sample_ed25519.
#[local] Existing Instance sample_ed25519_laws.
#[local] Existing Instance sample_sha256.

Definition sample_key : SigningKey := "a".
Definition sample_peer : TaskPeerTrustV1 :=
  MkPeer TASK_AUTHORITY_CONFIG_VERSION "key" "lead" (hex_encode (verifying_key sample_key))
    [TASK_ACTION_SEND; TASK_ACTION_GET; TASK_ACTION_CANCEL]
    [MkScope TASK_AUTHORITY_CONFIG_VERSION "tenant" "project"] 0 (seconds 3600) false.
Definition sample_send : TaskDescriptorV1 :=
  TaskDescriptorV1_new "lead" "worker" "tenant" "project" TASK_ACTION_SEND 0 (seconds 60) "key-1"
    "do it" [] "grant-send" "key".
Definition sample_control (action : string) : TaskControlDescriptorV1 :=
  control_sign sample_key
    (TaskControlDescriptorV1_new "lead" "worker" "tenant" "project" action "task-1"
      (descriptor_content_digest sample_send) 0 (seconds 60) "nonce" None
      ("grant-" +:+ action) "key").

Lemma sign_then_verify_witness :
  (transcript_verifies (descriptor_claim (descriptor_sign sample_key sample_send)) sample_peer
   ∧ str_len (td_signature (descriptor_sign sample_key sample_send)) = 128
   ∧ all_bytes is_ascii_hexdigit (td_signature (descriptor_sign sample_key sample_send)) = true
   ∧ descriptor_content_digest (descriptor_sign sample_key sample_send)
     = descriptor_content_digest sample_send)
  ∧ transcript_verifies (control_claim (sample_control TASK_ACTION_GET)) sample_peer.
Proof.
  destruct (sign_then_verify sample_key sample_peer sample_send
    (TaskControlDescriptorV1_new "lead" "worker" "tenant" "project" TASK_ACTION_GET "task-1"
      (descriptor_content_digest sample_send) 0 (seconds 60) "nonce" None
      ("grant-" +:+ TASK_ACTION_GET) "key") eq_refl) as [Hd (Hc & _)].
  split; [exact Hd|exact Hc].
Defined.
