(* ===== verification/TaskStore.v ===== *)
(** * The store of agent-to-agent tasks

    [rust/src/core/a2a/task/store.rs]: the tasks and the ledger of idempotency
    keys, kept in one file that is read, changed and rewritten under a lock.  The
    file is its content, or nothing when there is no file; [serde_json], the file
    system, the lock, the clock and random identifiers are parameters.  What the
    file system does in one call is an [Env]: each step may fail, and a write
    may fail before or after the rename that makes it visible. *)
From S2P Require Import Prelude BTree Text Hashing Hex GraphModel TaskModel TaskAuthority.
#[local] Open Scope Z_scope.

(** ** Constants of [task.rs] *)
Definition MAX_TASK_STORE_BYTES : Z := 8 * 1024 * 1024.
Definition MAX_TASKS : Z := 10000.
Definition MAX_IDEMPOTENCY_RECORDS : Z := 10000.
Definition IDEMPOTENCY_RETENTION_SECONDS : Z :=
  MAX_TASK_LIFETIME_SECONDS + MAX_AUTHORITY_CLOCK_SKEW_SECONDS.
Definition MAX_ID_BYTES : Z := 256.
Definition MAX_MESSAGES : Z := 1024.
Definition MAX_PARTS : Z := 1024.
Definition MAX_PARTS_PER_MESSAGE : Z := 256.
Definition MAX_METADATA_ENTRIES : Z := 256.
Definition MAX_TEXT_BYTES : Z := 1024 * 1024.
Definition MAX_METADATA_VALUE_BYTES : Z := 64 * 1024.

(** ** Data *)
Record TaskIdempotencyRecordV1 := MkIdempotency {
  ir_schema_version : Z;
  ir_key : string;
  ir_sender : string;
  ir_recipient : string;
  ir_tenant_id : string;
  ir_project_id : string;
  ir_action : string;
  ir_key_id : string;
  ir_descriptor_digest : string;
  ir_task_id : string;
  ir_created_at : Z;
}.

(** [TaskIdempotencyRecordV1::matches_authority] *)
Definition matches_authority (r : TaskIdempotencyRecordV1) (d : TaskDescriptorV1) : bool :=
  bool_decide (ir_sender r = td_sender d) && bool_decide (ir_recipient r = td_recipient d)
  && bool_decide (ir_tenant_id r = td_tenant_id d) && bool_decide (ir_project_id r = td_project_id d)
  && bool_decide (ir_action r = td_action d) && bool_decide (ir_key_id r = td_key_id d).

Record RemoteTaskMaterialization := MkMaterialization { mt_task_id : string; mt_duplicate : bool }.

Record TaskStore := MkTaskStore {
  ss_tasks : list Task;
  ss_updated_at : option Z;
  ss_idempotency : list TaskIdempotencyRecordV1;
}.
Definition TaskStore_default : TaskStore := MkTaskStore [] None [].

Definition set_ss_tasks (x : list Task) (s : TaskStore) : TaskStore :=
  MkTaskStore x (ss_updated_at s) (ss_idempotency s).
Definition set_ss_updated_at (x : option Z) (s : TaskStore) : TaskStore :=
  MkTaskStore (ss_tasks s) x (ss_idempotency s).
Definition set_ss_idempotency (x : list TaskIdempotencyRecordV1) (s : TaskStore) : TaskStore :=
  MkTaskStore (ss_tasks s) (ss_updated_at s) x.

(** ** Errors of [std::io] *)
Inductive IoKind := InvalidData | InvalidInput | AlreadyExists | PermissionDenied | OtherKind.
Record IoError := MkIoError { io_kind : IoKind; io_message : string; io_raw_os_error : option Z }.
(** [std::io::Error::new]: an error of the program's own carries no system code. *)
Definition MkIo (kind : IoKind) (message : string) : IoError := MkIoError kind message None.
Notation io := (exec IoError).

Definition invalid_data {A : Type} (message : string) : io A := Err (MkIo InvalidData message).

(** ** Validation *)
Definition validate_bounded (value field : string) (max_bytes : Z) : io () :=
  reject_if (max_bytes <? str_len value) (MkIo InvalidData ("invalid " +:+ field)).

Definition validate_bounded_nonempty (value field : string) (max_bytes : Z) : io () :=
  reject_if (str_is_empty value) (MkIo InvalidData ("invalid " +:+ field));;
  validate_bounded value field max_bytes.

Definition validate_restored_identifier (value field : string) : io () :=
  validate_bounded_nonempty value field MAX_ID_BYTES;;
  reject_if (has_control value) (MkIo InvalidData ("invalid " +:+ field)).

Definition validate_part (p : TaskPart) : io () :=
  match p with
  | PartText text => validate_bounded text "text part" MAX_TEXT_BYTES
  | PartData mime_type data =>
      validate_restored_identifier mime_type "data mime_type";;
      validate_bounded data "data part" MAX_TEXT_BYTES
  | PartFile name mime_type data uri =>
      validate_restored_identifier name "file name";;
      match mime_type with
      | Some value => validate_restored_identifier value "file mime_type"
      | None => Ok ()
      end;;
      match data with
      | Some value => validate_bounded value "file data" MAX_TEXT_BYTES
      | None => Ok ()
      end;;
      match uri with
      | Some value => validate_bounded_nonempty value "file uri" MAX_TEXT_BYTES
      | None => Ok ()
      end;;
      reject_if (is_none data && is_none uri) (MkIo InvalidData "file part requires data or uri")
  end.

Definition validate_reason (reason : option string) : io () :=
  match reason with
  | Some reason => validate_bounded reason "transition reason" MAX_DESCRIPTION_BYTES
  | None => Ok ()
  end.

(** The loop of [validate_history]: the state and the time reached so far. *)
Definition history_step (acc : TaskState * Z) (t : TaskTransition) : io (TaskState * Z) :=
  let '(state, timestamp) := acc in
  reject_if (bool_decide (tt_from t ≠ state) || negb (can_transition_to (tt_from t) (tt_to t))
             || (tt_timestamp t <? timestamp)) (MkIo InvalidData "task history is inconsistent");;
  validate_reason (tt_reason t);;
  Ok (tt_to t, tt_timestamp t).

(** [validate_history]; [&task.history[0]] panics on an empty history. *)
Definition validate_history (task : Task) : io () :=
  first ← expect (head (tk_history task));
  reject_if (bool_decide (tt_from first ≠ TaskCreated) || bool_decide (tt_to first ≠ TaskCreated))
    (MkIo InvalidData "task history has invalid origin");;
  validate_reason (tt_reason first);;
  '(state, timestamp) ← foldM history_step (TaskCreated, tt_timestamp first) (tail (tk_history task));
  reject_if (bool_decide (state ≠ tk_state task) || (tt_timestamp first <? tk_created_at task)
             || (tk_updated_at task <? timestamp))
    (MkIo InvalidData "task state does not match history").

Definition validate_message (task : Task) (m : TaskMessage) : io () :=
  validate_restored_identifier (tm_role m) "message role";;
  reject_if ((tm_timestamp m <? tk_created_at task) || (tk_updated_at task <? tm_timestamp m))
    (MkIo InvalidData "message timestamp is outside task lifetime");;
  reject_if (MAX_PARTS_PER_MESSAGE <? vec_len (tm_parts m))
    (MkIo InvalidData "message part limit exceeded");;
  forM_ validate_part (tm_parts m).

(** The body of the loop of [validate_restored], with the ids seen before.  A
    [HashMap] is iterated in no particular order: which error is reported for
    metadata with several bad entries is left to [map_to_list]. *)
Definition validate_task (task_ids : gset string) (task : Task) : io (gset string) :=
  validate_restored_identifier (tk_id task) "task id";;
  reject_if (bool_decide (tk_id task ∈ task_ids))
    (MkIo InvalidData "task store contains duplicate task ids");;
  validate_restored_identifier (tk_from_agent task) "from_agent";;
  validate_restored_identifier (tk_to_agent task) "to_agent";;
  validate_bounded_nonempty (tk_description task) "task description" MAX_DESCRIPTION_BYTES;;
  reject_if (tk_updated_at task <? tk_created_at task)
    (MkIo InvalidData "task timestamps are inconsistent");;
  reject_if ((MAX_MESSAGES <? vec_len (tk_messages task)) || (MAX_PARTS <? vec_len (tk_artifacts task))
             || (vec_len (tk_history task) =? 0) || (MAX_HISTORY <? vec_len (tk_history task))
             || (MAX_METADATA_ENTRIES <? map_len (tk_metadata task)))
    (MkIo InvalidData "task collection limit exceeded");;
  forM_ (validate_message task) (tk_messages task);;
  forM_ validate_part (tk_artifacts task);;
  forM_ (λ '(key, value),
      validate_restored_identifier key "metadata key";;
      validate_bounded value "metadata value" MAX_METADATA_VALUE_BYTES)
    (map_to_list (tk_metadata task));;
  validate_history task;;
  Ok ({[tk_id task]} ∪ task_ids).

Definition validate_restored (s : TaskStore) : io () :=
  reject_if (MAX_TASKS <? vec_len (ss_tasks s)) (MkIo InvalidData "task store entry limit exceeded");;
  foldM validate_task ∅ (ss_tasks s);;
  Ok ().

(** ** The file *)
Class StoreFile (Content : Type) := {
  to_json : TaskStore → io Content;
  of_json : Content → io TaskStore;
  content_len : Content → Z;
}.

(** How far a write gets. *)
Inductive WriteFate := Durable | NotWritten (e : IoError) | Unsynced (e : IoError).

(** What the file system answers in one call: a failure, if any, of the checks of
    the parent directories, of the lock, of reading and of the check of the
    target, and the fate of the write. *)
Record Env := MkEnv {
  env_parent : option IoError;
  env_lock : option IoError;
  env_read : option IoError;
  env_target : option IoError;
  env_write : WriteFate;
  env_now : Z;
}.

Definition answered (failure : option IoError) : io () :=
  match failure with Some e => Err e | None => Ok () end.

Section file.
Context {Content : Type} `{StoreFile Content}.

(** [load_from_path] *)
Definition load_from_path (env : Env) (file : option Content) : io TaskStore :=
  answered (env_read env);;
  match file with
  | None => Ok TaskStore_default
  | Some content =>
      reject_if (MAX_TASK_STORE_BYTES <? content_len content)
        (MkIo InvalidData "task store exceeds size limit");;
      store ← of_json content;
      reject_if (MAX_IDEMPOTENCY_RECORDS <? vec_len (ss_idempotency store))
        (MkIo InvalidData "task idempotency entry limit exceeded");;
      validate_restored store;;
      Ok store
  end.

Definition write_file (fate : WriteFate) (content : Content) : op (option Content) IoError () :=
  λ file, match fate with
          | Durable => (Some content, Ok ())
          | NotWritten e => (file, Err e)
          | Unsynced e => (Some content, Err e)
          end.

(** [save_to_path] *)
Definition save_to_path (env : Env) (s : TaskStore) : op (option Content) IoError () :=
  lift (validate_restored s);;
  lift (answered (env_target env));;
  json ← lift (to_json s);
  lift (reject_if (MAX_TASK_STORE_BYTES <? content_len json)
          (MkIo InvalidData "task store exceeds size limit"));;
  write_file (env_write env) json.

(** [result.map_err(E::from)] *)
Definition map_err {E1 E2 A : Type} (f : E1 → E2) (x : exec E1 A) : exec E2 A :=
  match x with Ok a => Ok a | Err e => Err (f e) | Panic => Panic | Hang => Hang end.
Definition op_map_err {S E1 E2 A : Type} (f : E1 → E2) (m : op S E1 A) : op S E2 A :=
  λ s, let '(s', x) := m s in (s', map_err f x).

(** [mutate_under]: the change is made to the loaded copy. *)
Definition mutate_under {E R : Type} (env : Env) (from : IoError → E) (mutate : op TaskStore E R) :
    op (option Content) E R :=
  lift (map_err from (answered (env_lock env)));;
  file ← get;
  store ← lift (map_err from (load_from_path env file));
  let '(store, answer) := mutate store in
  result ← lift answer;
  lift (reject_if (MAX_TASKS <? vec_len (ss_tasks store))
          (from (MkIo InvalidData "task store entry limit exceeded")));;
  lift (reject_if (MAX_IDEMPOTENCY_RECORDS <? vec_len (ss_idempotency store))
          (from (MkIo InvalidData "task idempotency entry limit exceeded")));;
  op_map_err from (save_to_path env (set_ss_updated_at (Some (env_now env)) store));;
  mret result.

(** [mutate_locked]; [mutate_locked_within] differs in how long it waits. *)
Definition mutate_locked {E R : Type} (env : Env) (from : IoError → E) (mutate : op TaskStore E R) :
    op (option Content) E R :=
  lift (map_err from (answered (env_parent env)));;
  mutate_under env from mutate.

(** [read_locked] *)
Definition read_locked {R : Type} (env : Env) (read : TaskStore → R) (file : option Content) : io R :=
  answered (env_parent env);;
  answered (env_lock env);;
  store ← load_from_path env file;
  Ok (read store).
End file.

(** ** Changes of the loaded store *)

(** The instants [chrono] can represent; subtraction outside them panics. *)
Class Chrono := { utc_min : Z; utc_max : Z }.

Section changes.
Context `{Chrono}.

Definition utc_sub {E : Type} (now duration : Z) : exec E Z :=
  if (utc_min <=? now - duration) && (now - duration <=? utc_max) then Ok (now - duration) else Panic.

(** [Duration::hours(n)] panics outside the range of [i64] milliseconds. *)
Definition duration_hours {E : Type} (hours : Z) : exec E Z :=
  if Z.abs (hours * 3600) <=? 9223372036854775 then Ok (seconds (hours * 3600)) else Panic.

(** [x as i64] for a [u64] *)
Definition as_i64 (x : Z) : Z := if x <=? 9223372036854775807 then x else x - 18446744073709551616.

(** [prune_idempotency] *)
Definition prune_idempotency {E : Type} (now : Z) : op TaskStore E () :=
  cutoff ← lift (utc_sub now (seconds IDEMPOTENCY_RETENTION_SECONDS));
  modify (λ s, set_ss_idempotency (filter (λ r, cutoff < ir_created_at r) (ss_idempotency s)) s).

(** [cleanup_old] *)
Definition cleanup_old {E : Type} (now max_age_hours : Z) : op TaskStore E () :=
  age ← lift (duration_hours (as_i64 max_age_hours));
  cutoff ← lift (utc_sub now age);
  modify (λ s, set_ss_tasks
    (filter (λ t, is_terminal (tk_state t) = false ∨ cutoff < tk_updated_at t) (ss_tasks s)) s);;
  prune_idempotency now.

(** [create_task] *)
Definition create_task (uuid : string) (now1 now2 : Z) (from to description : string) (s : TaskStore) :
    TaskStore * string :=
  let task := Task_new uuid now1 from to description in
  (set_ss_updated_at (Some now2) (set_ss_tasks (ss_tasks s ++ [task]) s), tk_id task).

(** [get_task] *)
Definition get_task (s : TaskStore) (task_id : string) : option Task :=
  find_first (λ t, bool_decide (tk_id t = task_id)) (ss_tasks s).

(** An assignment through [get_task_mut]: the first task with the id. *)
Fixpoint update_first (f : Task → Task) (task_id : string) (tasks : list Task) : list Task :=
  match tasks with
  | [] => []
  | t :: tasks => if bool_decide (tk_id t = task_id) then f t :: tasks
                  else t :: update_first f task_id tasks
  end.

(** [tasks_for_agent] *)
Definition tasks_for_agent (s : TaskStore) (agent_id : string) : list Task :=
  filter (λ t, tk_to_agent t = agent_id ∨ tk_from_agent t = agent_id) (ss_tasks s).

(** [pending_tasks_for] *)
Definition pending_tasks_for (s : TaskStore) (agent_id : string) : list Task :=
  filter (λ t, tk_to_agent t = agent_id ∧ is_terminal (tk_state t) = false) (ss_tasks s).

Section admitted.
Context `{Gateway} `{CanonicalJson} `{Sha256}.

(** [create_admitted] *)
Definition create_admitted (uuid : string) (now1 now2 : Z) (from to description : string) :
    op TaskStore Withheld string :=
  description ← lift (admit_for_store description);
  let task := Task_new uuid now1 from to description in
  modify (λ s, set_ss_updated_at (Some now2) (set_ss_tasks (ss_tasks s ++ [task]) s));;
  mret (tk_id task).

(** [Task::from_remote_descriptor] *)
Definition from_remote_descriptor (now : Z) (d : TaskDescriptorV1) (task_id : string) :
    exec Withheld Task :=
  description ← admit_for_store (td_description d);
  Ok {|
    tk_id := task_id;
    tk_from_agent := td_sender d;
    tk_to_agent := td_recipient d;
    tk_state := TaskCreated;
    tk_description := description;
    tk_messages := [MkTaskMessage (td_sender d) [PartText description] now];
    tk_artifacts := [];
    tk_history := [origin now REASON_MATERIALIZED];
    tk_metadata := <["action" := td_action d]>
      (<["schema_version" := pretty TASK_DESCRIPTOR_VERSION]> ∅);
    tk_created_at := now;
    tk_updated_at := now;
    tk_tenant_id := Some (td_tenant_id d);
    tk_project_id := Some (td_project_id d);
    tk_action := Some (td_action d);
    tk_idempotency_key := Some (td_idempotency_key d);
    tk_authority_key_id := Some (td_key_id d);
    tk_descriptor_digest := Some (descriptor_content_digest d);
    tk_artifact_refs := td_artifact_refs d;
  |}.

(** The record of a delivery. *)
Definition delivery_record (now : Z) (task_id : string) (d : TaskDescriptorV1) :
    TaskIdempotencyRecordV1 :=
  MkIdempotency TASK_DESCRIPTOR_VERSION (td_idempotency_key d) (td_sender d) (td_recipient d)
    (td_tenant_id d) (td_project_id d) (td_action d) (td_key_id d) (descriptor_content_digest d)
    task_id now.

(** The closure of [materialize_remote_task]; it reads the clock for the ledger
    and again for the task. *)
Definition materialize (uuid : string) (now task_now : Z) (d : TaskDescriptorV1) :
    op TaskStore IoError RemoteTaskMaterialization :=
  prune_idempotency now;;
  store ← get;
  match find_first (λ record, bool_decide (ir_key record = td_idempotency_key d))
          (ss_idempotency store) with
  | Some existing =>
      if matches_authority existing d
         && bool_decide (ir_descriptor_digest existing = descriptor_content_digest d)
      then mret (MkMaterialization (ir_task_id existing) true)
      else lift (Err (MkIo AlreadyExists "conflicting idempotency key reuse"))
  | None =>
      lift (reject_if ((MAX_IDEMPOTENCY_RECORDS <=? vec_len (ss_idempotency store))
                       || (MAX_TASKS <=? vec_len (ss_tasks store)))
              (MkIo InvalidData "task idempotency entry limit exceeded"));;
      let task_id := "task-" +:+ uuid in
      task ← lift (map_err (λ withheld, MkIo PermissionDenied (wh_message withheld "task text"))
                     (from_remote_descriptor task_now d task_id));
      modify (λ s, set_ss_tasks (ss_tasks s ++ [task]) s);;
      modify (λ s, set_ss_idempotency (ss_idempotency s ++ [delivery_record now task_id d]) s);;
      mret (MkMaterialization task_id false)
  end.

(** [materialize_remote_task] *)
Definition materialize_remote_task {Content : Type} `{StoreFile Content} (env : Env) (uuid : string)
    (now task_now : Z) (d : TaskDescriptorV1) :
    op (option Content) IoError RemoteTaskMaterialization :=
  lift (map_err (λ error, MkIo InvalidInput (TaskAuthorityError_fmt error))
          (descriptor_validate_shape d));;
  mutate_locked env id (materialize uuid now task_now d).
End admitted.
End changes.
