(* ===== verification/TaskControl.v ===== *)
(** * Control operations on tasks

    [rust/src/core/a2a/task_control.rs]: the status of a task and its
    cancellation, for a signed request of the task's owner. *)
From S2P Require Import Prelude BTree Text Hashing Hex GraphModel TaskModel TaskAuthority TaskStore.
#[local] Open Scope Z_scope.

Inductive TaskControlError :=
| Authority (e : TaskAuthorityError)
| Storage (e : IoError)
| NotFound
| ControlInvalidTransition.

Definition matches_target (task : Task) (request : TaskControlDescriptorV1) : bool :=
  is_some (tk_authority_key_id task)
  && bool_decide (tk_id task = cd_task_id request)
  && bool_decide (tk_from_agent task = cd_sender request)
  && bool_decide (tk_to_agent task = cd_recipient request)
  && bool_decide (tk_tenant_id task = Some (cd_tenant_id request))
  && bool_decide (tk_project_id task = Some (cd_project_id request))
  && bool_decide (tk_descriptor_digest task = Some (cd_task_descriptor_digest request)).

(** [store.get_task(&request.task_id).filter(|task| matches_target(task, request))] *)
Definition owned_task (s : TaskStore) (request : TaskControlDescriptorV1) : option Task :=
  match get_task s (cd_task_id request) with
  | Some task => if matches_target task request then Some task else None
  | None => None
  end.

Section control.
Context `{CanonicalJson} `{Ed25519} `{Gateway}.
Context {Content : Type} `{StoreFile Content}.

Definition get_status (env : Env) (request : TaskControlDescriptorV1)
    (policy : TaskAuthorityConfigV1) (expected : TaskAuthorityExpectationV1)
    (file : option Content) : exec TaskControlError TaskStatusV1 :=
  reject_if (bool_decide (cd_action request ≠ TASK_ACTION_GET)) (Authority UnsupportedAction);;
  map_err Authority (control_verify_authority request policy expected);;
  answer ← map_err Storage
    (read_locked env (λ store, ok_or (status_v1 <$> owned_task store request) NotFound) file);
  answer.

(** The closure of [cancel]; [now] is the clock read by the transition. *)
Definition cancel_task (now : Z) (request : TaskControlDescriptorV1) :
    op TaskStore TaskControlError TaskStatusV1 :=
  store ← get;
  task ← lift (ok_or (owned_task store request) NotFound);
  if bool_decide (tk_state task = Canceled) then mret (status_v1 task)
  else
    let '(task, answer) := transition now Canceled (cd_reason request) task in
    modify (λ s, set_ss_tasks (update_first (λ _, task) (cd_task_id request) (ss_tasks s)) s);;
    lift (map_err (λ _, ControlInvalidTransition) answer);;
    mret (status_v1 task).

Definition cancel (env : Env) (now : Z) (request : TaskControlDescriptorV1)
    (policy : TaskAuthorityConfigV1) (expected : TaskAuthorityExpectationV1) :
    op (option Content) TaskControlError TaskStatusV1 :=
  lift (reject_if (bool_decide (cd_action request ≠ TASK_ACTION_CANCEL)) (Authority UnsupportedAction));;
  lift (map_err Authority (control_verify_authority request policy expected));;
  mutate_locked env Storage (cancel_task now request).
End control.
