(* ===== verification/TaskFacts.v ===== *)
(** * Agent-to-agent tasks: transitions

    What one transition does, that histories stay consistent, that a task makes
    finitely many transitions and that an open task can always be cancelled. *)
From S2P Require Import Prelude Wp BTree Text GraphModel TaskModel TaskAuthority TaskStore.
#[local] Open Scope Z_scope.

(** ** Names of states *)

(** The name of a state is read back as the state, and the spellings
    [parse_str] reads as a state are that name and the two older ones. *)
Theorem task_state_roundtrip s x :
  parse_str (TaskState_fmt s) = Some s
  ∧ (parse_str x = Some s ↔ x = TaskState_fmt s
       ∨ s = InputRequired ∧ x = "input_required" ∨ s = Canceled ∧ x = "cancelled").
Proof.
  split; [by destruct s|]. unfold parse_str.
  split.
  - repeat (case_bool_decide; subst; cbn [orb]; [intros [= <-]; by auto|]). done.
  - intros [->|[[-> ->]|[-> ->]]]; [by destruct s|done|done].
Qed.

(** ** One transition *)
Section transitions.
Context `{Gateway}.

(** The gateway answers. *)
Class GatewayTotal : Prop := {
  admit_total text : total (admit_for_store text);
  serve_total text : total (serve_text text);
}.
Context `{!GatewayTotal}.

Lemma stored_reason_total reason : total (stored_reason reason).
Proof.
  unfold stored_reason. destruct reason as [r|]; [|done]. case_match; [done|].
  pose proof (admit_total r). by destruct (admit_for_store r).
Qed.

(** When a transition is possible, with the reason as it is stored. *)
Record steps_to (t : Task) (now : Z) (new_state : TaskState) (reason stored : option string) : Prop := {
  sp_room : vec_len (tk_history t) < MAX_HISTORY;
  sp_reserved : vec_len (tk_history t) = MAX_HISTORY - 1 → is_terminal new_state = true;
  sp_allowed : can_transition_to (tk_state t) new_state = true;
  sp_clock : tk_updated_at t ≤ now;
  sp_reason : stored_reason reason = Ok stored;
}.

(** The task after the transition. *)
Definition stepped (t : Task) (now : Z) (new_state : TaskState) (stored : option string) : Task :=
  set_tk_progress new_state
    (tk_history t ++ [MkTaskTransition (tk_state t) new_state now stored]) now t.

Lemma transition_run t now new_state reason :
  match transition now new_state reason t with
  | (t', Ok _) => ∃ stored, steps_to t now new_state reason stored ∧ t' = stepped t now new_state stored
  | (t', Err _) => t' = t ∧ ¬ ∃ stored, steps_to t now new_state reason stored
  | (_, Panic) | (_, Hang) => False
  end.
Proof.
  unfold transition, mbind, op_mbind, op_bind, lift, get, modify.
  destruct (Z.leb_spec MAX_HISTORY (vec_len (tk_history t))) as [Hr|Hr]; cbn [reject_if].
  { split; [done|]. intros (? & []). lia. }
  destruct ((vec_len (tk_history t) =? MAX_HISTORY - 1) && negb (is_terminal new_state)) eqn:Hres;
    cbn [reject_if].
  { split; [done|]. intros (? & [_ Hs]). apply andb_true_iff in Hres as [Hl%Z.eqb_eq Ht].
    rewrite Hs in Ht; done. }
  destruct (can_transition_to (tk_state t) new_state) eqn:Hc; cbn [negb reject_if].
  2: { split; [done|]. intros (? & []). congruence. }
  destruct (Z.ltb_spec now (tk_updated_at t)); cbn [reject_if].
  { split; [done|]. intros (? & []). lia. }
  pose proof (stored_reason_total reason) as Ht.
  destruct (stored_reason reason) as [r|e| |] eqn:Er; try done.
  - exists r. split; [|done]. split; try done. intros Hl.
    apply andb_false_iff in Hres as [Hn%Z.eqb_neq|Hn%negb_false_iff]; [lia|done].
  - split; [done|]. intros (? & []). congruence.
Qed.
End transitions.
Arguments GatewayTotal {_}.

(** A transition succeeds exactly when the state machine allows it, the
    history has room (the last place is kept for a terminal state), the clock has
    not run backwards and the gateway admits the reason; it then appends itself
    to the history and moves state and time.  A refused transition changes
    nothing. *)
Theorem transition_spec `{Gateway, !GatewayTotal} t now new_state reason :
  match transition now new_state reason t with
  | (t', Ok _) => ∃ stored, steps_to t now new_state reason stored ∧ t' = stepped t now new_state stored
  | (t', Err _) => t' = t ∧ ¬ ∃ stored, steps_to t now new_state reason stored
  | (_, Panic) | (_, Hang) => False
  end.
Proof. apply transition_run. Qed.

(** ** Histories *)
Lemma foldM_snoc {E S X} (f : S → X → exec E S) s xs y :
  foldM f s (xs ++ [y]) = foldM f s xs ≫= λ s', f s' y.
Proof.
  revert s. induction xs as [|x xs IH]; intros s; cbn.
  - by destruct (f s y).
  - destruct (f s x); cbn; [apply IH|done..].
Qed.

(** What [validate_history] accepts. *)
Lemma validate_history_Ok t :
  validate_history t = Ok () ↔
    ∃ first rest timestamp, tk_history t = first :: rest
      ∧ tt_from first = TaskCreated ∧ tt_to first = TaskCreated ∧ validate_reason (tt_reason first) = Ok ()
      ∧ foldM history_step (TaskCreated, tt_timestamp first) rest = Ok (tk_state t, timestamp)
      ∧ tk_created_at t ≤ tt_timestamp first ∧ timestamp ≤ tk_updated_at t.
Proof.
  unfold validate_history. destruct (tk_history t) as [|first rest]; cbn [head tail expect].
  { split; [done|]. by intros (? & ? & ? & ? & _). }
  rewrite exec_bind_ret. split.
  - intros Hrun. apply exec_bind_Ok in Hrun as ([] & Ho%reject_if_Ok & Hrun).
    apply exec_bind_Ok in Hrun as ([] & Hr & Hrun).
    apply exec_bind_Ok in Hrun as ([state timestamp] & Hf & Hrun%reject_if_Ok).
    apply orb_false_iff in Ho as [H1%bool_decide_eq_false%dec_stable H2%bool_decide_eq_false%dec_stable].
    rewrite !orb_false_iff, !Z.ltb_ge in Hrun.
    destruct Hrun as [[H3%bool_decide_eq_false%dec_stable ?] ?]. subst state.
    by exists first, rest, timestamp.
  - intros (? & ? & timestamp & [= <- <-] & H1 & H2 & Hr & Hf & Hc & Hu).
    rewrite reject_if_false by (rewrite H1, H2; done). rewrite Hr, exec_bind_ret, Hf, exec_bind_ret.
    apply reject_if_Ok. rewrite !orb_false_iff, !Z.ltb_ge. split; [split; [|done]|done].
    apply bool_decide_eq_false_2. tauto.
Qed.

Lemma stepped_history `{Gateway} t now new_state reason stored :
  validate_history t = Ok () → steps_to t now new_state reason stored →
  validate_reason stored = Ok () → validate_history (stepped t now new_state stored) = Ok ().
Proof.
  rewrite !validate_history_Ok. intros (first & rest & ts & Hh & H1 & H2 & Hr & Hf & Hc & Hu).
  intros [_ _ Hall Hclock _] Hst. exists first, (rest ++ [MkTaskTransition (tk_state t) new_state now stored]), now.
  cbn [stepped set_tk_progress tk_history tk_state tk_created_at tk_updated_at]. rewrite Hh.
  do 4 (split; [done|]). split; [|done]. rewrite foldM_snoc, Hf, exec_bind_ret. unfold history_step.
  cbn [tt_from tt_to tt_timestamp tt_reason]. rewrite reject_if_false.
  - by rewrite Hst, exec_bind_ret.
  - rewrite Hall, (bool_decide_eq_false_2 (tk_state t ≠ tk_state t)) by tauto. cbn. apply Z.ltb_ge. lia.
Qed.

(** Transitions keep the history that reloading checks: it starts where every
    task starts, each entry leaves the state the one before it reached by an
    allowed step, time does not run backwards, and the last entry is the task's
    state.  What the engine writes can therefore be loaded again. *)
Theorem transition_keeps_history `{Gateway, !GatewayTotal} t t' now new_state reason :
  validate_history t = Ok () → transition now new_state reason t = (t', Ok ()) →
  (∀ stored, stored_reason reason = Ok (Some stored) → str_len stored ≤ MAX_DESCRIPTION_BYTES) →
  validate_history t' = Ok () ∧ tk_state t' = new_state
  ∧ vec_len (tk_history t') = vec_len (tk_history t) + 1.
Proof.
  intros Hv Hrun Hb. pose proof (transition_run t now new_state reason) as Ht. rewrite Hrun in Ht.
  destruct Ht as (stored & Hs & ->). split; [|split; [done|]].
  - eapply stepped_history; [done..|]. destruct stored as [r|]; [|done]. cbn.
    apply reject_if_Ok, Z.ltb_ge. apply Hb, Hs.
  - unfold vec_len. cbn. rewrite length_app. cbn. lia.
Qed.

(** ** Runs *)
Section runs.
Context `{Gateway}.

(** What a task goes through; [n] counts the transitions. *)
Inductive runs : nat → Task → Task → Prop :=
| runs_refl t : runs 0 t t
| runs_transition n t t1 t' now new_state reason :
    transition now new_state reason t = (t1, Ok ()) → runs n t1 t' → runs (S n) t t'
| runs_message n t t' now1 now2 role parts :
    runs n (add_message now1 now2 role parts t) t' → runs n t t'
| runs_artifact n t t' now artifact :
    runs n (add_artifact now artifact t) t' → runs n t t'.

(** An open task has a free place in its history. *)
Definition has_room (t : Task) : Prop :=
  vec_len (tk_history t) ≤ MAX_HISTORY
  ∧ (is_terminal (tk_state t) = false → vec_len (tk_history t) < MAX_HISTORY).

Context `{!GatewayTotal}.

Lemma stepped_room t now new_state reason stored :
  steps_to t now new_state reason stored → has_room (stepped t now new_state stored).
Proof.
  intros [Hr Hres _ _ _]. unfold has_room, stepped, vec_len in *. cbn. rewrite length_app. cbn.
  split; [lia|]. intros Ht. destruct (decide (Z.of_nat (length (tk_history t)) = MAX_HISTORY - 1)) as [E|].
  - rewrite Hres in Ht by done. done.
  - lia.
Qed.

Lemma runs_room n t t' : runs n t t' → has_room t →
  has_room t' ∧ vec_len (tk_history t') = vec_len (tk_history t) + Z.of_nat n.
Proof.
  induction 1 as [t|n t t1 t' now s reason Hrun _ IH|n t t' now1 now2 role parts _ IH
                 |n t t' now artifact _ IH]; intros Hr; [split; [done|lia]| |by apply IH..].
  pose proof (transition_run t now s reason) as Ht. rewrite Hrun in Ht.
  destruct Ht as (stored & Hs & ->). destruct IH as [Hr' Hl]; [by eapply stepped_room|].
  split; [done|]. rewrite Hl. unfold vec_len. cbn. rewrite length_app. cbn. lia.
Qed.
End runs.

(** A clock behind the last update is what is answered, when nothing else is wrong. *)
Lemma transition_too_early `{Gateway} now t :
  is_terminal (tk_state t) = false → vec_len (tk_history t) < MAX_HISTORY → now < tk_updated_at t →
  transition now Canceled None t = (t, Err "task clock precedes stored state").
Proof.
  intros Ht Hl Hnow. unfold transition, mbind, op_mbind, op_bind, get, lift.
  rewrite (proj2 (Z.leb_gt _ _)) by done. cbn [reject_if is_terminal negb]. rewrite andb_false_r. cbn [reject_if].
  assert (can_transition_to (tk_state t) Canceled = true) as -> by by destruct (tk_state t).
  cbn [negb reject_if]. by rewrite (proj2 (Z.ltb_lt _ _)).
Qed.

(** C32: a task made by [Task::new] ends: whatever is sent to it, it makes at most 2047 transitions,
    and as long as it is open, however many transitions it already made, it can
    be cancelled at any time the clock does not read earlier than its last update;
    while the clock does, the cancellation is refused for that and changes nothing.
    Once ended it never moves again. *)
Theorem tasks_end `{Gateway, !GatewayTotal} uuid now0 from to description n t :
  runs n (Task_new uuid now0 from to description) t →
  Z.of_nat n ≤ MAX_HISTORY - 1
  ∧ (is_terminal (tk_state t) = false → ∀ now,
       if tk_updated_at t <=? now
       then ∃ t', transition now Canceled None t = (t', Ok ()) ∧ tk_state t' = Canceled
       else transition now Canceled None t = (t, Err "task clock precedes stored state"))
  ∧ (is_terminal (tk_state t) = true →
       ∀ now' new_state reason, ∃ e, transition now' new_state reason t = (t, Err e)).
Proof.
  intros Hruns. destruct (runs_room _ _ _ Hruns) as [[Hmax Hroom] Hl]; [by split|].
  split; [|split].
  - change (vec_len (tk_history (Task_new uuid now0 from to description))) with 1 in Hl. lia.
  - intros Ht now. specialize (Hroom Ht). destruct (Z.leb_spec (tk_updated_at t) now) as [Hnow|Hnow].
    + pose proof (transition_run t now Canceled None) as Hc.
      destruct (transition now Canceled None t) as [t' [[]|e| |]]; try done.
      * exists t'. split; [done|]. by destruct Hc as (? & _ & ->).
      * destruct Hc as [_ Hc]. destruct Hc. exists None. split; try done. by destruct (tk_state t).
    + by apply transition_too_early.
  - intros Ht now' s reason. pose proof (transition_run t now' s reason) as Hc.
    destruct (transition now' s reason t) as [t' [[]|e| |]]; try done.
    + destruct Hc as (? & [_ _ Ha _ _] & _). by destruct (tk_state t).
    + destruct Hc as [-> _]. by exists e.
Qed.

(** ** Concrete tasks: a gateway that lets every text through *)
Definition sample_gateway : Gateway := {| admit_for_store := Ok; serve_text := Ok |}.
Lemma sample_gateway_total : @GatewayTotal sample_gateway.
Proof. by split. Qed.

Definition sample_task : Task := Task_new "1" 10 "lead" "worker" "do it".
Definition working_task : Task :=
  (transition (H := sample_gateway) 20 Working (Some "started") sample_task).1.

Lemma transition_spec_witness :
  tk_state working_task = Working
  ∧ match transition (H := sample_gateway) 15 TaskCompleted None working_task with
    | (t', Ok _) => ∃ stored, steps_to (H := sample_gateway) working_task 15 TaskCompleted None stored
        ∧ t' = stepped working_task 15 TaskCompleted stored
    | (t', Err _) => t' = working_task
        ∧ ¬ ∃ stored, steps_to (H := sample_gateway) working_task 15 TaskCompleted None stored
    | (_, Panic) | (_, Hang) => False
    end.
Proof.
  split; [by vm_compute|].
  exact (transition_spec (H := sample_gateway) (H0 := sample_gateway_total)
    working_task 15 TaskCompleted None).
Defined.

Lemma transition_keeps_history_witness :
  validate_history sample_task = Ok () ∧ validate_history working_task = Ok ()
  ∧ tk_state working_task = Working
  ∧ vec_len (tk_history working_task) = vec_len (tk_history sample_task) + 1.
Proof.
  assert (validate_history sample_task = Ok ()) as Hv by by vm_compute.
  split; [exact Hv|].
  refine (transition_keeps_history (H := sample_gateway) (H0 := sample_gateway_total)
    sample_task working_task 20 Working (Some "started") Hv _ _); [by vm_compute|].
  intros stored Hs. cbn in Hs. injection Hs as <-. by vm_compute.
Defined.

Lemma tasks_end_witness :
  is_terminal (tk_state working_task) = false
  ∧ (∃ t', transition (H := sample_gateway) 30 Canceled None working_task = (t', Ok ())
       ∧ tk_state t' = Canceled)
  ∧ transition (H := sample_gateway) 15 Canceled None working_task
    = (working_task, Err "task clock precedes stored state").
Proof.
  assert (runs (H := sample_gateway) 1 sample_task working_task) as Hruns.
  { eapply runs_transition; [|apply runs_refl].
    by instantiate (1 := Some "started"); instantiate (1 := Working); instantiate (1 := 20). }
  assert (is_terminal (tk_state working_task) = false) as Ht by by vm_compute.
  pose proof (proj1 (proj2 (tasks_end (H := sample_gateway) (H0 := sample_gateway_total)
    "1" 10 "lead" "worker" "do it" 1 working_task Hruns)) Ht) as Hc.
  split; [exact Ht|]. split; [exact (Hc 30)|exact (Hc 15)].
Defined.
