(* ===== verification/TaskStoreFacts.v ===== *)
(** * The task store: what a change leaves behind

    A change is written whole or not at all, what is written is read back, and a
    remote delivery creates its task once. *)
From S2P Require Import Prelude Wp BTree Text Hashing Hex GraphModel TaskModel TaskAuthority.
From S2P Require Import TaskStore.
From S2P Require Import TaskFacts.
#[local] Open Scope Z_scope.

(** ** The file *)
Section file.
Context {Content : Type} `{F : StoreFile Content}.

(** The serializer returns, and reads back what it wrote. *)
Class StoreFileLaws : Prop := {
  to_json_total s : total (to_json (Content := Content) s);
  of_json_total c : total (of_json (Content := Content) c);
  of_json_to_json s c : to_json s = Ok c → of_json (Content := Content) c = Ok s;
}.

(** Nothing fails. *)
Definition clear (env : Env) : Prop :=
  env_parent env = None ∧ env_lock env = None ∧ env_read env = None ∧ env_target env = None
  ∧ env_write env = Durable.

Context `{!StoreFileLaws}.

Lemma answered_total f : total (answered f).
Proof. by destruct f. Qed.
Hint Resolve answered_total : total.

Lemma validate_history_total t : tk_history t ≠ [] → total (validate_history t).
Proof.
  intros Hh. unfold validate_history. destruct (tk_history t) as [|first rest]; [done|].
  cbn [head tail expect]. rewrite exec_bind_ret.
  unfold history_step, validate_reason, validate_bounded. total.
Qed.

Lemma validate_part_total p : total (validate_part p).
Proof.
  unfold validate_part, validate_restored_identifier, validate_bounded_nonempty, validate_bounded. total.
Qed.
Hint Resolve validate_part_total : total.

Lemma validate_restored_total s : total (validate_restored s).
Proof.
  unfold validate_restored, validate_task, validate_message, validate_restored_identifier,
    validate_bounded_nonempty, validate_bounded. total.
  apply validate_history_total. intros Hh.
  match goal with Hl : _ || (vec_len (tk_history x) =? 0) || _ || _ = false |- _ =>
    rewrite Hh in Hl; rewrite !orb_false_iff in Hl; by destruct Hl as [[[_ ?] _] _] end.
Qed.
Hint Resolve validate_restored_total to_json_total of_json_total : total.

Lemma load_total env file : total (load_from_path env file).
Proof. unfold load_from_path. total. Qed.
Hint Resolve load_total : total.

Lemma map_err_total {E1 E2 A} (f : E1 → E2) (x : exec E1 A) : total x → total (map_err f x).
Proof. by destruct x. Qed.

Lemma map_err_Ok {E1 E2 A} (f : E1 → E2) (x : exec E1 A) a : map_err f x = Ok a ↔ x = Ok a.
Proof. destruct x; cbn; naive_solver. Qed.

(** A store that was saved is loaded back. *)
Lemma load_saved env s c :
  clear env → validate_restored s = Ok () → vec_len (ss_idempotency s) ≤ MAX_IDEMPOTENCY_RECORDS →
  to_json s = Ok c → content_len c ≤ MAX_TASK_STORE_BYTES → load_from_path env (Some c) = Ok s.
Proof.
  intros (_ & _ & Hr & _) Hv Hi Hj Hl. unfold load_from_path. rewrite Hr. cbn [answered].
  rewrite exec_bind_ret, reject_if_false by by apply Z.ltb_ge.
  rewrite (of_json_to_json s c Hj), exec_bind_ret, reject_if_false by by apply Z.ltb_ge.
  by rewrite Hv, exec_bind_ret.
Qed.

(** What a change does to the file. *)
Definition changed {E R} (env : Env) (mutate : op TaskStore E R) (file file' : option Content) (r : R) :
    Prop :=
  ∃ store store' c, load_from_path env file = Ok store ∧ mutate store = (store', Ok r)
    ∧ file' = Some c ∧ to_json (set_ss_updated_at (Some (env_now env)) store') = Ok c
    ∧ ∀ env', clear env' →
        load_from_path env' file' = Ok (set_ss_updated_at (Some (env_now env)) store').

Lemma mutate_locked_run {E R} env (from : IoError → E) (mutate : op TaskStore E R) file :
  (∀ s, total ((mutate s).2)) →
  match mutate_locked env from mutate file with
  | (file', Ok r) => changed env mutate file file' r
  | (file', Err _) => file' = file ∨ ∃ e r, env_write env = Unsynced e ∧ changed env mutate file file' r
  | (_, Panic) | (_, Hang) => False
  end.
Proof.
  intros Hm. unfold mutate_locked, mutate_under, save_to_path, write_file, op_map_err.
  unfold mbind, op_mbind, op_bind, lift, get, mret, op_mret.
  destruct (answered (env_parent env)) as [[]|e| |] eqn:Ep; cbn [map_err]; try (by left);
    try (by destruct (env_parent env)).
  destruct (answered (env_lock env)) as [[]|e| |] eqn:El; cbn [map_err]; try (by left);
    try (by destruct (env_lock env)).
  pose proof (load_total env file) as Hlt.
  destruct (load_from_path env file) as [store|e| |] eqn:Eload; cbn [map_err]; try done; [|by left].
  specialize (Hm store). destruct (mutate store) as [store' answer] eqn:Em. cbn [snd] in Hm.
  destruct answer as [r|e| |]; try done; [|by left].
  destruct (Z.ltb_spec MAX_TASKS (vec_len (ss_tasks store'))); cbn [reject_if]; [by left|].
  destruct (Z.ltb_spec MAX_IDEMPOTENCY_RECORDS (vec_len (ss_idempotency store'))); cbn [reject_if];
    [by left|].
  set (saved := set_ss_updated_at (Some (env_now env)) store').
  pose proof (validate_restored_total saved) as Hvt.
  destruct (validate_restored saved) as [[]|e| |] eqn:Ev; cbn [map_err]; try done; [|by left].
  destruct (answered (env_target env)) as [[]|e| |] eqn:Et; cbn [map_err]; try (by left);
    try (by destruct (env_target env)).
  pose proof (to_json_total saved) as Hjt.
  destruct (to_json saved) as [c|e| |] eqn:Ej; cbn [map_err]; try done; [|by left].
  destruct (Z.ltb_spec MAX_TASK_STORE_BYTES (content_len c)); cbn [reject_if map_err]; [by left|].
  assert (changed env mutate file (Some c) r) as Hch.
  { exists store, store', c. do 4 (split; [done|]). intros env' Hc. by apply load_saved. }
  destruct (env_write env) as [|e|e] eqn:Ew; cbn [map_err]; [done|by left|right; by exists e, r].
Qed.
End file.
Arguments StoreFileLaws _ {_}.

(** C33: a change of the stored tasks is written whole or not at all: when
    [mutate_locked] succeeds, the file was loaded, changed and replaced, and
    loading it again gives exactly the changed store, which satisfies every check
    of a reload; when it fails, the file is untouched, unless the write itself
    was carried out and only its last flush failed: then the file holds the
    changed store. *)
Theorem mutate_locked_spec {Content E R} `{StoreFile Content, !StoreFileLaws Content} env
    (from : IoError → E) (mutate : op TaskStore E R) file :
  (∀ s, total ((mutate s).2)) →
  match mutate_locked env from mutate file with
  | (file', Ok r) => changed env mutate file file' r
  | (file', Err _) => file' = file ∨ ∃ e r, env_write env = Unsynced e ∧ changed env mutate file file' r
  | (_, Panic) | (_, Hang) => False
  end.
Proof. apply mutate_locked_run. Qed.

(** ** Remote deliveries *)
Section deliveries.
Context `{Chrono} `{Gateway} `{CanonicalJson} `{Sha256} `{!GatewayTotal}.

(** The clock is an instant from which the retention can be subtracted. *)
Definition retention : Z := seconds IDEMPOTENCY_RETENTION_SECONDS.
Definition clock_ok (now : Z) : Prop := utc_min ≤ now - retention ≤ utc_max.

(** The ledger entries that are still kept. *)
Definition live (now : Z) (s : TaskStore) : list TaskIdempotencyRecordV1 :=
  filter (λ r, now - retention < ir_created_at r) (ss_idempotency s).

Definition pruned (now : Z) (s : TaskStore) : TaskStore := set_ss_idempotency (live now s) s.

(** The descriptor a ledger entry was written for. *)
Definition records (r : TaskIdempotencyRecordV1) (d : TaskDescriptorV1) : Prop :=
  matches_authority r d = true ∧ ir_descriptor_digest r = descriptor_content_digest d.

(** The three outcomes of a delivery. *)
Definition delivered_again (now : Z) (d : TaskDescriptorV1) (s s' : TaskStore)
    (m : RemoteTaskMaterialization) : Prop :=
  mt_duplicate m = true ∧ s' = pruned now s
  ∧ ∃ r, r ∈ live now s ∧ ir_key r = td_idempotency_key d ∧ records r d ∧ ir_task_id r = mt_task_id m.

Definition delivered_first (uuid : string) (now task_now : Z) (d : TaskDescriptorV1)
    (s s' : TaskStore) (m : RemoteTaskMaterialization) : Prop :=
  mt_duplicate m = false ∧ mt_task_id m = "task-" +:+ uuid
  ∧ (∀ r, r ∈ live now s → ir_key r ≠ td_idempotency_key d)
  ∧ vec_len (live now s) < MAX_IDEMPOTENCY_RECORDS ∧ vec_len (ss_tasks s) < MAX_TASKS
  ∧ ∃ task, from_remote_descriptor task_now d (mt_task_id m) = Ok task
      ∧ s' = MkTaskStore (ss_tasks s ++ [task]) (ss_updated_at s)
               (live now s ++ [delivery_record now (mt_task_id m) d]).

Lemma prune_run {E} now s :
  clock_ok now → prune_idempotency (E := E) now s = (pruned now s, Ok ()).
Proof.
  intros [Hlo Hhi]. unfold prune_idempotency, utc_sub, mbind, op_mbind, op_bind, lift, modify.
  fold retention. rewrite (proj2 (Z.leb_le _ _) Hlo), (proj2 (Z.leb_le _ _) Hhi). done.
Qed.

Lemma materialize_run uuid now task_now d s :
  clock_ok now →
  match materialize uuid now task_now d s with
  | (s', Ok m) => delivered_again now d s s' m ∨ delivered_first uuid now task_now d s s' m
  | (s', Err e) => s' = pruned now s
      ∧ ((io_kind e = AlreadyExists ∧ ∃ r, r ∈ live now s ∧ ir_key r = td_idempotency_key d ∧ ¬ records r d)
         ∨ ∀ r, r ∈ live now s → ir_key r ≠ td_idempotency_key d)
  | (_, Panic) | (_, Hang) => False
  end.
Proof.
  intros Hc. unfold materialize, mbind, op_mbind, op_bind at 1. rewrite prune_run by done.
  unfold op_bind, get, lift, modify, mret, op_mret.
  change (ss_idempotency (pruned now s)) with (live now s).
  change (ss_tasks (pruned now s)) with (ss_tasks s).
  destruct (find_first _ (live now s)) as [r|] eqn:Ef.
  - apply find_first_Some in Ef as [Hin Hk%bool_decide_eq_true].
    destruct (matches_authority r d && bool_decide (ir_descriptor_digest r = descriptor_content_digest d))
      eqn:Em.
    + apply andb_true_iff in Em as [? ?%bool_decide_eq_true]. left. split; [done|]. split; [done|].
      by exists r.
    + split; [done|]. left. split; [done|]. exists r. split; [done|]. split; [done|].
      intros [Ha Hd]. rewrite Ha, bool_decide_eq_true_2 in Em; done.
  - rewrite find_first_None in Ef.
    assert (∀ r, r ∈ live now s → ir_key r ≠ td_idempotency_key d) as Hfresh.
    { intros r Hr E. specialize (Ef r Hr). by rewrite bool_decide_eq_true_2 in Ef. }
    destruct (_ || _) eqn:Hroom; cbn [reject_if]; [by split; [|right]|].
    apply orb_false_iff in Hroom as [?%Z.leb_gt ?%Z.leb_gt].
    destruct (from_remote_descriptor task_now d ("task-" +:+ uuid)) as [task|e| |] eqn:Et;
      cbn [map_err].
    + right. do 5 (split; [done|]). by exists task.
    + by split; [|right].
    + exfalso. revert Et. unfold from_remote_descriptor. pose proof (admit_total (td_description d)) as Ht.
      by destruct (admit_for_store (td_description d)).
    + exfalso. revert Et. unfold from_remote_descriptor. pose proof (admit_total (td_description d)) as Ht.
      by destruct (admit_for_store (td_description d)).
Qed.

(** ** Several deliveries *)

(** Deliveries of any descriptors at times before [limit]; a failed delivery
    leaves the stored file as it was. *)
Inductive deliveries (limit : Z) : TaskStore → TaskStore → Prop :=
| deliveries_none s : deliveries limit s s
| deliveries_one s s1 s2 uuid now task_now d m :
    now < limit → clock_ok now → materialize uuid now task_now d s = (s1, Ok m) →
    deliveries limit s1 s2 → deliveries limit s s2.

(** No key is in the ledger twice. *)
Definition ledger_ok (s : TaskStore) : Prop := NoDup (ir_key <$> ss_idempotency s).

Lemma live_keys now s : ledger_ok s → NoDup (ir_key <$> live now s).
Proof.
  unfold ledger_ok, live. intros Hl. eapply sublist_NoDup; [exact Hl|]. apply fmap_sublist, sublist_filter.
Qed.

Lemma materialize_ledger uuid now task_now d s s' m :
  clock_ok now → ledger_ok s → materialize uuid now task_now d s = (s', Ok m) → ledger_ok s'.
Proof.
  intros Hc Hl Hrun. pose proof (materialize_run uuid now task_now d s Hc) as Hm. rewrite Hrun in Hm.
  destruct Hm as [(_ & -> & _)|(_ & _ & Hf & _ & _ & task & _ & ->)].
  - by apply live_keys.
  - unfold ledger_ok. cbn. rewrite fmap_app. apply NoDup_app. split; [by apply live_keys|]. split.
    + intros k (r & -> & Hr)%list_elem_of_fmap ?%list_elem_of_singleton. by destruct (Hf r Hr).
    + apply NoDup_singleton.
Qed.

(** A ledger entry stays as long as it is young enough. *)
Lemma deliveries_keep limit s s' r :
  deliveries limit s s' → limit ≤ ir_created_at r + retention → ledger_ok s →
  r ∈ ss_idempotency s → r ∈ ss_idempotency s' ∧ ledger_ok s'.
Proof.
  induction 1 as [s|s s1 s2 uuid now task_now d m Hnow Hc Hrun _ IH]; intros Hlim Hl Hr; [done|].
  apply IH; [done|by eapply materialize_ledger|].
  pose proof (materialize_run uuid now task_now d s Hc) as Hm. rewrite Hrun in Hm.
  assert (r ∈ live now s) as Hlive by (apply list_elem_of_filter; split; [lia|done]).
  destruct Hm as [(_ & -> & _)|(_ & _ & _ & _ & _ & task & _ & ->)]; [done|].
  cbn. by apply elem_of_app; left.
Qed.
(** A delivery under a key the ledger still holds makes no task. *)
Lemma redelivery uuid now task_now d r s :
  ledger_ok s → clock_ok now → r ∈ ss_idempotency s → now < ir_created_at r + retention →
  ir_key r = td_idempotency_key d →
  match materialize uuid now task_now d s with
  | (s', Ok m) => m = MkMaterialization (ir_task_id r) true ∧ s' = pruned now s ∧ records r d
  | (s', Err e) => io_kind e = AlreadyExists ∧ s' = pruned now s ∧ ¬ records r d
  | (_, Panic) | (_, Hang) => False
  end.
Proof.
  intros Hl Hc Hr Hnow Hk.
  assert (r ∈ live now s) as Hlive by (apply list_elem_of_filter; split; [lia|done]).
  assert (∀ r', r' ∈ live now s → ir_key r' = td_idempotency_key d → r' = r) as Huniq.
  { intros r' Hr' Hkey. apply (NoDup_fmap_inj ir_key _ _ _ (live_keys now s Hl) Hr' Hlive). congruence. }
  pose proof (materialize_run uuid now task_now d s Hc) as Hm.
  destruct (materialize uuid now task_now d s) as [s' [m|e| |]]; try done.
  - destruct Hm as [(Hd & -> & r' & Hin & Hkey & Hrec & Hid)|(_ & _ & Hf & _)].
    + rewrite (Huniq r' Hin Hkey) in *. split; [|done]. destruct m. cbn in *. by subst.
    + by destruct (Hf r Hlive).
  - destruct Hm as [-> [(He & r' & Hin & Hkey & Hrec)|Hf]].
    + by rewrite (Huniq r' Hin Hkey) in Hrec.
    + by destruct (Hf r Hlive).
Qed.
End deliveries.

(** A delivery makes one task.  After a descriptor made its task, and whatever
    was delivered since, a descriptor with the same idempotency key makes no other
    task for as long as the key is retained: if it is the same delivery, the
    answer is the task that was made, marked as a duplicate; if not, it is refused
    as a conflict.  Either way the tasks stay as they are. *)
Theorem delivered_once `{Chrono, Gateway, CanonicalJson, Sha256, !GatewayTotal}
    s0 s1 s2 uuid now task_now d m uuid' now' task_now' d' :
  ledger_ok s0 → clock_ok now → materialize uuid now task_now d s0 = (s1, Ok m) →
  mt_duplicate m = false → deliveries (now + retention) s1 s2 →
  now' < now + retention → clock_ok now' → td_idempotency_key d' = td_idempotency_key d →
  match materialize uuid' now' task_now' d' s2 with
  | (s3, Ok m') => m' = MkMaterialization (mt_task_id m) true ∧ ss_tasks s3 = ss_tasks s2
      ∧ descriptor_content_digest d' = descriptor_content_digest d
  | (s3, Err e) => io_kind e = AlreadyExists ∧ ss_tasks s3 = ss_tasks s2
      ∧ ¬ records (delivery_record now (mt_task_id m) d) d'
  | (_, Panic) | (_, Hang) => False
  end.
Proof.
  intros Hl Hc Hrun Hnew Hdel Hnow' Hc' Hk.
  pose proof (materialize_run uuid now task_now d s0 Hc) as Hm. rewrite Hrun in Hm.
  pose proof (materialize_ledger _ _ _ _ _ _ _ Hc Hl Hrun) as Hl1.
  destruct Hm as [(? & _)|(_ & _ & _ & _ & _ & task & _ & Hs1)]; [congruence|].
  set (r := delivery_record now (mt_task_id m) d) in *.
  destruct (deliveries_keep _ _ _ r Hdel) as [Hr Hl2]; [cbn; lia|done| |].
  { rewrite Hs1. apply elem_of_app. right. by apply list_elem_of_singleton. }
  pose proof (redelivery uuid' now' task_now' d' r s2 Hl2 Hc' Hr Hnow' (eq_sym Hk)) as Hm.
  destruct (materialize uuid' now' task_now' d' s2) as [s3 [m'|e| |]]; try done.
  - destruct Hm as (-> & -> & _ & Hdig). done.
  - by destruct Hm as (? & -> & ?).
Qed.

(** ** Concrete deliveries *)
#[local] Instance sample_file : StoreFile TaskStore :=
  {| to_json := Ok; of_json := Ok; content_len s := vec_len (ss_tasks s) |}.
#[local] Instance sample_file_laws : StoreFileLaws TaskStore.
Proof. split; [done|done|]. by intros s c [= <-]. Qed.

Definition sample_env : Env := MkEnv None None None None Durable 50.
Definition sample_create : op TaskStore IoError string :=
  λ s, let '(s', id) := create_task "1" 10 20 "lead" "worker" "do it" s in (s', Ok id).

Lemma mutate_locked_spec_witness :
  (mutate_locked sample_env id sample_create None).2 = Ok "task-1"
  ∧ match mutate_locked sample_env id sample_create None with
    | (file', Ok r) => changed sample_env sample_create None file' r
    | (file', Err _) => file' = None
        ∨ ∃ e r, env_write sample_env = Unsynced e ∧ changed sample_env sample_create None file' r
    | (_, Panic) | (_, Hang) => False
    end.
Proof.
  split; [by vm_compute|].
  refine (mutate_locked_spec
    sample_env id sample_create None _). done.
Defined.

Definition sample_chrono : Chrono := {| utc_min := - seconds 10000000; utc_max := seconds 10000000 |}.
Definition sample_task_json : CanonicalJson :=
  {| canonical_descriptor := td_description; canonical_control := cd_task_id |}.
Definition sample_descriptor : TaskDescriptorV1 :=
  TaskDescriptorV1_new "lead" "worker" "tenant" "project" TASK_ACTION_SEND 0 (seconds 60) "key-1"
    "do it" [] "grant" "key".

#[local] Existing Instance sample_chrono.
#[local] Existing Instance sample_task_json.
#[local] Existing Instance sample_gateway.
#[local] Existing Instance sample_gateway_total.
#[local] Existing Instance sample_sha256.

Definition sample_delivery (uuid : string) (now : Z) (d : TaskDescriptorV1) :
    op TaskStore IoError RemoteTaskMaterialization :=
  materialize
    uuid now now d.
Definition delivered_store : TaskStore := (sample_delivery "1" 100 sample_descriptor TaskStore_default).1.

(** The same descriptor, signed again, an hour later. *)
Lemma delivered_once_witness :
  (sample_delivery "2" (seconds 3600) (set_td_signature "again" sample_descriptor) delivered_store).2
    = Ok (MkMaterialization "task-1" true)
  ∧ match sample_delivery "2" (seconds 3600) (set_td_signature "again" sample_descriptor)
            delivered_store with
    | (s3, Ok m') => m' = MkMaterialization "task-1" true ∧ ss_tasks s3 = ss_tasks delivered_store
        ∧ descriptor_content_digest
            (set_td_signature "again" sample_descriptor)
          = descriptor_content_digest sample_descriptor
    | (s3, Err e) => io_kind e = AlreadyExists ∧ ss_tasks s3 = ss_tasks delivered_store
        ∧ ¬ records
            (delivery_record 100 "task-1" sample_descriptor)
            (set_td_signature "again" sample_descriptor)
    | (_, Panic) | (_, Hang) => False
    end.
Proof.
  split; [by vm_compute|].
  refine (delivered_once TaskStore_default delivered_store delivered_store
    "1" 100 100 sample_descriptor (MkMaterialization "task-1" false) "2" (seconds 3600) (seconds 3600)
    (set_td_signature "again" sample_descriptor) _ _ _ _ _ _ _ _).
  - by apply NoDup_nil_2.
  - by vm_compute.
  - by vm_compute.
  - done.
  - apply deliveries_none.
  - by vm_compute.
  - by vm_compute.
  - done.
Defined.
