(* ===== verification/TaskControlFacts.v ===== *)
(** * Control operations: who may do what to which task *)
From S2P Require Import Prelude Wp BTree Text Hashing Hex GraphModel TaskModel TaskAuthority.
From S2P Require Import TaskAuthorityFacts TaskStore TaskControl TaskFacts TaskStoreFacts.
#[local] Open Scope Z_scope.

Section control.
Context `{CanonicalJson} `{Ed25519} `{Gateway} `{!GatewayTotal}.

(** The request was signed by a live key that holds a live grant for it. *)
Definition request_authorized (action : string) (request : TaskControlDescriptorV1)
    (policy : TaskAuthorityConfigV1) (expected : TaskAuthorityExpectationV1) : Prop :=
  cd_action request = action ∧ control_validate_shape request = Ok ()
  ∧ ∃ peer grant, authorized (control_claim request) policy expected peer grant.

(** The task is the one the request names, made by the sender's own delivery in
    the same scope. *)
Definition owns (request : TaskControlDescriptorV1) (t : Task) : Prop :=
  is_Some (tk_authority_key_id t) ∧ tk_id t = cd_task_id request
  ∧ tk_from_agent t = cd_sender request ∧ tk_to_agent t = cd_recipient request
  ∧ tk_tenant_id t = Some (cd_tenant_id request) ∧ tk_project_id t = Some (cd_project_id request)
  ∧ tk_descriptor_digest t = Some (cd_task_descriptor_digest request).

Lemma matches_target_owns t request : matches_target t request = true ↔ owns request t.
Proof.
  unfold matches_target, owns. rewrite !andb_true_iff, !bool_decide_eq_true.
  assert (is_some (tk_authority_key_id t) = true ↔ is_Some (tk_authority_key_id t)) as ->; [|tauto].
  destruct (tk_authority_key_id t); cbn; [by split|]. split; [done|by intros []].
Qed.

Lemma owned_task_Some s request t :
  owned_task s request = Some t → t ∈ ss_tasks s ∧ owns request t ∧ get_task s (cd_task_id request) = Some t.
Proof.
  unfold owned_task. destruct (get_task s (cd_task_id request)) as [x|] eqn:E; [|done].
  destruct (matches_target x request) eqn:Em; [|done]. intros [= ->].
  split; [by apply find_first_Some in E as [? _]|]. by split; [apply matches_target_owns|].
Qed.

Lemma control_verify_Ok request policy expected :
  control_verify_authority request policy expected = Ok () ↔
    control_validate_shape request = Ok ()
    ∧ ∃ peer grant, authorized (control_claim request) policy expected peer grant.
Proof.
  unfold control_verify_authority. rewrite exec_bind_Ok, <-authorize_Ok.
  split; [intros ([] & ? & ?)|intros [? ?]; exists ()]; done.
Qed.

Lemma control_shape_total request : total (control_validate_shape request).
Proof.
  unfold control_validate_shape, validate_digest, validate_control_reason, grant_ref_validate. total.
Qed.

Lemma control_verify_total request policy expected :
  total (control_verify_authority request policy expected).
Proof.
  unfold control_verify_authority.
  apply total_bind; [apply control_shape_total|intros _; apply authorize_total].
Qed.

(** ** Cancelling in the store *)
Lemma update_first_get t x id l :
  find_first (λ t, bool_decide (tk_id t = id)) l = Some t → tk_id x = id →
  find_first (λ t, bool_decide (tk_id t = id)) (update_first (λ _, x) id l) = Some x.
Proof.
  intros Hf Hx. unfold find_first in *. induction l as [|y l IH]; [done|]. cbn in *.
  destruct (bool_decide (tk_id y = id)) eqn:E; cbn.
  - by rewrite bool_decide_eq_true_2.
  - rewrite E. by apply IH.
Qed.

Lemma update_first_same t id l :
  find_first (λ t, bool_decide (tk_id t = id)) l = Some t → update_first (λ _, t) id l = l.
Proof.
  unfold find_first. induction l as [|y l IH]; [done|]. cbn.
  destruct (bool_decide (tk_id y = id)); cbn; [by intros [= ->]|]. intros Hf. by rewrite IH.
Qed.

Lemma stepped_owns t now s stored request :
  owns request t → owns request (stepped t now s stored).
Proof. done. Qed.

(** The task after it was cancelled. *)
Definition canceled_as (now : Z) (request : TaskControlDescriptorV1) (t t' : Task) : Prop :=
  if decide (tk_state t = Canceled) then t' = t
  else ∃ stored, steps_to t now Canceled (cd_reason request) stored ∧ t' = stepped t now Canceled stored.

Lemma canceled_as_same now request t : tk_state t = Canceled → canceled_as now request t t.
Proof. unfold canceled_as. by destruct (decide (tk_state t = Canceled)). Qed.

Lemma canceled_as_stepped now request t t' :
  tk_state t ≠ Canceled →
  canceled_as now request t t' ↔
    ∃ stored, steps_to t now Canceled (cd_reason request) stored ∧ t' = stepped t now Canceled stored.
Proof. unfold canceled_as. by destruct (decide (tk_state t = Canceled)). Qed.

Lemma cancel_task_run now request s :
  match cancel_task now request s with
  | (s', Ok status) => ∃ t t', owned_task s request = Some t ∧ canceled_as now request t t'
      ∧ status = status_v1 t' ∧ tk_state t' = Canceled ∧ owned_task s' request = Some t'
      ∧ (s' = s ∧ t' = t ∨ s' = set_ss_tasks (update_first (λ _, t') (cd_task_id request) (ss_tasks s)) s)
  | (s', Err NotFound) => s' = s ∧ owned_task s request = None
  | (s', Err e) => e = ControlInvalidTransition
      ∧ ∃ t, owned_task s request = Some t ∧ ¬ ∃ t', canceled_as now request t t'
  | (_, Panic) | (_, Hang) => False
  end.
Proof.
  unfold cancel_task, mbind, op_mbind, op_bind, get, lift, mret, op_mret, modify.
  destruct (owned_task s request) as [t|] eqn:Eo; cbn [ok_or]; [|done].
  destruct (owned_task_Some _ _ _ Eo) as (Hin & Hown & Hget).
  destruct (bool_decide (tk_state t = Canceled)) eqn:Ec.
  - apply bool_decide_eq_true in Ec. exists t, t. split; [done|].
    split; [by apply canceled_as_same|]. do 3 (split; [done|]). by left.
  - apply bool_decide_eq_false in Ec. pose proof (transition_run t now Canceled (cd_reason request)) as Ht.
    destruct (transition now Canceled (cd_reason request) t) as [t' [[]|e| |]]; try done; cbn [map_err].
    + destruct Ht as (stored & Hs & ->). exists t, (stepped t now Canceled stored).
      split; [done|]. split; [by apply canceled_as_stepped; [|exists stored]|]. split; [done|]. split; [done|]. split; [|by right].
      unfold owned_task, get_task. cbn [ss_tasks set_ss_tasks].
      rewrite (update_first_get t) by (done || apply Hown).
      by rewrite (proj2 (matches_target_owns _ _)) by by apply stepped_owns.
    + split; [done|]. exists t. split; [done|].
      intros (? & (stored & Hs & _)%canceled_as_stepped); [|done]. destruct Ht as [_ Ht]. destruct Ht. by exists stored.
Qed.

Lemma cancel_task_total now request s : total ((cancel_task now request s).2).
Proof.
  pose proof (cancel_task_run now request s) as Hr.
  destruct (cancel_task now request s) as [s' [?|[] | |]]; cbn; try done.
Qed.
End control.

Lemma get_status_run `{CanonicalJson, Ed25519} {Content} `{StoreFile Content, !StoreFileLaws Content}
    env request policy expected file :
  match get_status env request policy expected file with
  | Ok status => request_authorized TASK_ACTION_GET request policy expected
      ∧ ∃ store t, load_from_path env file = Ok store ∧ t ∈ ss_tasks store ∧ owns request t
          ∧ status = status_v1 t
  | Err NotFound => request_authorized TASK_ACTION_GET request policy expected
      ∧ ∃ store, load_from_path env file = Ok store ∧ owned_task store request = None
  | Err (Authority e) => ¬ request_authorized TASK_ACTION_GET request policy expected
      ∧ ∀ env' file', get_status env' request policy expected file' = Err (Authority e)
  | Err (Storage _) => request_authorized TASK_ACTION_GET request policy expected
  | Err ControlInvalidTransition | Panic | Hang => False
  end.
Proof.
  unfold get_status, request_authorized.
  destruct (decide (cd_action request = TASK_ACTION_GET)) as [Ha|Ha].
  2: { rewrite bool_decide_eq_true_2 by done. cbn. split; [tauto|done]. }
  rewrite (bool_decide_eq_false_2 (_ ≠ _)) by tauto. cbn [reject_if]. rewrite exec_bind_ret.
  pose proof (control_verify_total request policy expected) as Ht.
  pose proof (control_verify_Ok request policy expected) as Hok.
  destruct (control_verify_authority request policy expected) as [[]|e| |]; cbn [map_err]; try done.
  2: { cbn. split; [|done]. intros (_ & Hs & Hau). by discriminate (proj2 Hok (conj Hs Hau)). }
  assert (Hau : cd_action request = TASK_ACTION_GET ∧ control_validate_shape request = Ok ()
    ∧ ∃ peer grant, authorized (control_claim request) policy expected peer grant)
    by (split; [done|by apply Hok]).
  rewrite exec_bind_ret. unfold read_locked.
  destruct (env_parent env), (env_lock env); cbn [answered]; try exact Hau.
  rewrite !exec_bind_ret. pose proof (load_total env file) as Hl.
  destruct (load_from_path env file) as [store|e| |] eqn:El; try done.
  rewrite exec_bind_ret. cbn [map_err]. rewrite exec_bind_ret.
  destruct (owned_task store request) as [t|] eqn:Eo; cbn.
  - destruct (owned_task_Some _ _ _ Eo) as (? & ? & _). split; [done|]. by exists store, t.
  - split; [done|]. by exists store.
Qed.

(** [get_status] discloses a status only for a request that was authorized
    for reading, and only of a task the request's sender owns; a request without
    authority never reaches the file, and an absent task and a task of somebody
    else are answered alike. *)
Theorem get_status_spec `{CanonicalJson, Ed25519} {Content} `{StoreFile Content, !StoreFileLaws Content}
    env request policy expected file :
  match get_status env request policy expected file with
  | Ok status => request_authorized TASK_ACTION_GET request policy expected
      ∧ ∃ store t, load_from_path env file = Ok store ∧ t ∈ ss_tasks store ∧ owns request t
          ∧ status = status_v1 t
  | Err NotFound => request_authorized TASK_ACTION_GET request policy expected
      ∧ ∃ store, load_from_path env file = Ok store ∧ owned_task store request = None
  | Err (Authority e) => ¬ request_authorized TASK_ACTION_GET request policy expected
      ∧ ∀ env' file', get_status env' request policy expected file' = Err (Authority e)
  | Err (Storage _) => request_authorized TASK_ACTION_GET request policy expected
  | Err ControlInvalidTransition | Panic | Hang => False
  end.
Proof. apply get_status_run. Qed.

(** The file after a cancellation: the task is cancelled in its place, the other
    tasks and the ledger are as they were. *)
Definition canceled_file `{Gateway} {Content} `{StoreFile Content} (env : Env) (now : Z)
    (request : TaskControlDescriptorV1) (file file' : option Content) (status : TaskStatusV1) : Prop :=
  ∃ store store' t t', load_from_path env file = Ok store ∧ owned_task store request = Some t
    ∧ owns request t ∧ canceled_as now request t t' ∧ status = status_v1 t' ∧ tk_state t' = Canceled
    ∧ (∀ env', clear env' → load_from_path env' file' = Ok store')
    ∧ ss_idempotency store' = ss_idempotency store
    ∧ (ss_tasks store' = ss_tasks store ∧ t' = t
       ∨ ss_tasks store' = update_first (λ _, t') (cd_task_id request) (ss_tasks store)).

Lemma changed_canceled `{Gateway, !GatewayTotal} {Content} `{StoreFile Content} env now request
    file file' status :
  changed env (cancel_task now request) file file' status →
  canceled_file env now request file file' status.
Proof.
  intros (store & store' & c & Hload & Hrun & -> & _ & Hload').
  pose proof (cancel_task_run now request store) as Hc. rewrite Hrun in Hc.
  destruct Hc as (t & t' & Ho & Hcan & -> & Hst & _ & Hs').
  exists store, (set_ss_updated_at (Some (env_now env)) store'), t, t'.
  split; [done|]. split; [done|]. split; [by apply owned_task_Some in Ho as (? & ? & _)|].
  do 4 (split; [done|]). by destruct Hs' as [[-> ->]| ->]; (split; [done|]); [left|right].
Qed.

Lemma cancel_run `{CanonicalJson, Ed25519, Gateway, !GatewayTotal} {Content}
    `{StoreFile Content, !StoreFileLaws Content} env now request policy expected file :
  match cancel env now request policy expected file with
  | (file', Ok status) => request_authorized TASK_ACTION_CANCEL request policy expected
      ∧ canceled_file env now request file file' status
  | (file', Err e) => file' = file
      ∨ request_authorized TASK_ACTION_CANCEL request policy expected
        ∧ (∃ e', env_write env = Unsynced e') ∧ ∃ status, canceled_file env now request file file' status
  | (_, Panic) | (_, Hang) => False
  end.
Proof.
  unfold cancel, request_authorized. unfold mbind, op_mbind, op_bind, lift.
  destruct (decide (cd_action request = TASK_ACTION_CANCEL)) as [Ha|Ha].
  2: { rewrite bool_decide_eq_true_2 by done. by left. }
  rewrite (bool_decide_eq_false_2 (_ ≠ _)) by tauto. cbn [reject_if].
  pose proof (control_verify_total request policy expected) as Ht.
  pose proof (control_verify_Ok request policy expected) as Hok.
  destruct (control_verify_authority request policy expected) as [[]|e| |]; cbn [map_err]; try done;
    [|by left].
  assert (cd_action request = TASK_ACTION_CANCEL ∧ control_validate_shape request = Ok ()
    ∧ ∃ peer grant, authorized (control_claim request) policy expected peer grant) as Hau
    by (split; [done|by apply Hok]).
  pose proof (mutate_locked_run env Storage (cancel_task now request) file
    (λ s, cancel_task_total now request s)) as Hm.
  destruct (mutate_locked env Storage (cancel_task now request) file) as [file' [status|e| |]]; try done.
  - split; [exact Hau|]. by apply changed_canceled.
  - destruct Hm as [->|(e' & r & Hw & Hch)]; [by left|right]. split; [exact Hau|].
    split; [by exists e'|]. exists r. by apply changed_canceled.
Qed.

(** [cancel] changes a task only for a request that was authorized for
    cancelling, and only a task the request's sender owns: the stored file then
    holds that task cancelled, in its first place, and every other task and the
    ledger as they were.  A refused request leaves the file as it was; only a
    failed last flush leaves the change behind an error. *)
Theorem cancel_spec `{CanonicalJson, Ed25519, Gateway, !GatewayTotal} {Content}
    `{StoreFile Content, !StoreFileLaws Content} env now request policy expected file :
  match cancel env now request policy expected file with
  | (file', Ok status) => request_authorized TASK_ACTION_CANCEL request policy expected
      ∧ canceled_file env now request file file' status
  | (file', Err e) => file' = file
      ∨ request_authorized TASK_ACTION_CANCEL request policy expected
        ∧ (∃ e', env_write env = Unsynced e') ∧ ∃ status, canceled_file env now request file file' status
  | (_, Panic) | (_, Hang) => False
  end.
Proof. apply cancel_run. Qed.

(** Cancelling is idempotent: once a cancellation succeeded, the same request
    gets the same status again, whatever the clock says, and the store does not
    grow. *)
Theorem cancel_idempotent `{Gateway, !GatewayTotal} now now' request s s' status :
  cancel_task now request s = (s', Ok status) → cancel_task now' request s' = (s', Ok status).
Proof.
  intros Hrun. pose proof (cancel_task_run now request s) as Hc. rewrite Hrun in Hc.
  destruct Hc as (t & t' & _ & _ & -> & Hst & Ho & _).
  unfold cancel_task, mbind, op_mbind, op_bind, get, lift. rewrite Ho. cbn [ok_or].
  by rewrite bool_decide_eq_true_2.
Qed.

(** ** A delivered task, its status and its cancellation *)
#[local] Existing Instance sample_authority_json.
#[local] Existing Instance sample_ed25519.
#[local] Existing Instance sample_sha256.
#[local] Existing Instance sample_gateway.
#[local] Existing Instance sample_gateway_total.
#[local] Existing Instance sample_chrono.
#[local] Existing Instance sample_file.
#[local] Existing Instance sample_file_laws.

Definition sample_grant (action : string) : TaskCapabilityGrantV1 :=
  MkGrant TASK_AUTHORITY_CONFIG_VERSION ("grant-" +:+ action) "key" action "tenant" "project" 0
    (seconds 3600) false.
Definition sample_policy : TaskAuthorityConfigV1 :=
  MkAuthorityConfig TASK_AUTHORITY_CONFIG_VERSION [sample_peer]
    [sample_grant TASK_ACTION_GET; sample_grant TASK_ACTION_CANCEL].
Definition sample_expected : TaskAuthorityExpectationV1 :=
  MkExpectation "lead" "worker" "tenant" "project" (seconds 10).
Definition sample_store : TaskStore :=
  (materialize "1" 100 100 sample_send TaskStore_default).1.

Lemma get_status_spec_witness :
  (ts_state <$> match get_status sample_env (sample_control TASK_ACTION_GET) sample_policy
                        sample_expected (Some sample_store) with
                | Ok status => Some status | _ => None end) = Some TaskCreated
  ∧ match get_status sample_env (sample_control TASK_ACTION_GET) sample_policy sample_expected
            (Some sample_store) with
    | Ok status =>
        request_authorized TASK_ACTION_GET (sample_control TASK_ACTION_GET) sample_policy sample_expected
        ∧ ∃ store t, load_from_path sample_env (Some sample_store) = Ok store ∧ t ∈ ss_tasks store
            ∧ owns (sample_control TASK_ACTION_GET) t ∧ status = status_v1 t
    | _ => True
    end.
Proof.
  split; [by vm_compute|].
  pose proof (get_status_spec sample_env (sample_control TASK_ACTION_GET) sample_policy sample_expected
    (Some sample_store)) as Hs.
  destruct (get_status sample_env (sample_control TASK_ACTION_GET) sample_policy sample_expected
    (Some sample_store)); [exact Hs|exact I..].
Defined.

Definition sample_cancel : option TaskStore * exec TaskControlError TaskStatusV1 :=
  cancel sample_env (seconds 20) (sample_control TASK_ACTION_CANCEL) sample_policy sample_expected
    (Some sample_store).

Lemma cancel_spec_witness :
  (ts_state <$> match sample_cancel.2 with Ok status => Some status | _ => None end) = Some Canceled
  ∧ match sample_cancel with
    | (file', Ok status) =>
        request_authorized TASK_ACTION_CANCEL (sample_control TASK_ACTION_CANCEL) sample_policy
          sample_expected
        ∧ canceled_file sample_env (seconds 20) (sample_control TASK_ACTION_CANCEL) (Some sample_store)
            file' status
    | _ => True
    end.
Proof.
  split; [by vm_compute|]. unfold sample_cancel.
  pose proof (cancel_spec sample_env (seconds 20) (sample_control TASK_ACTION_CANCEL) sample_policy
    sample_expected (Some sample_store)) as Hs.
  destruct (cancel sample_env (seconds 20) (sample_control TASK_ACTION_CANCEL) sample_policy
    sample_expected (Some sample_store)) as [file' [status|?| |]]; [exact Hs|exact I..].
Defined.

Lemma cancel_idempotent_witness :
  cancel_task (seconds 30) (sample_control TASK_ACTION_CANCEL)
    (cancel_task (seconds 20) (sample_control TASK_ACTION_CANCEL) sample_store).1
  = cancel_task (seconds 20) (sample_control TASK_ACTION_CANCEL) sample_store.
Proof.
  destruct (cancel_task (seconds 20) (sample_control TASK_ACTION_CANCEL) sample_store) as [s' r] eqn:E.
  pose proof (f_equal snd E) as Er. vm_compute in Er. subst r.
  exact (cancel_idempotent (seconds 20) (seconds 30) _ _ _ _ E).
Defined.
