(* ===== verification/CircuitBreaker.v ===== *)
(** * The circuit breaker

    [rust/crates/lean-ctx-protocol/src/circuit_breaker.rs]: one circuit per pair
    of a task class and a provider.  An [Instant] and a [Duration] are numbers of
    nanoseconds; the functions without an instant read the clock and call the
    ones here. *)
From S2P Require Import Prelude.
#[local] Open Scope Z_scope.

(** ** The code *)
Record CircuitBreakerConfig := MkBreakerConfig {
  cf_failure_threshold : Z;
  cf_recovery_timeout : Z;
  cf_half_open_requests : Z;
}.
Definition CircuitBreakerConfig_default : CircuitBreakerConfig := MkBreakerConfig 3 30000000000 1.

(** [CircuitBreakerConfig::validate] *)
Definition breaker_validate (c : CircuitBreakerConfig) : exec string () :=
  reject_if (cf_failure_threshold c =? 0) "failure_threshold must be greater than zero";;
  reject_if (cf_recovery_timeout c =? 0) "recovery_timeout must be greater than zero";;
  reject_if (cf_half_open_requests c =? 0) "half_open_requests must be greater than zero".

Inductive CircuitBreakerState := CircuitClosed | CircuitOpen | CircuitHalfOpen.
#[export] Instance CircuitBreakerState_eq_dec : EqDecision CircuitBreakerState.
Proof. solve_decision. Defined.

Record CircuitBreakerDecision := MkDecision {
  dc_allowed : bool;
  dc_selected_model : string;
  dc_selected_provider : string;
  dc_used_fallback : bool;
}.

Record CircuitEntry := MkEntry {
  en_state : CircuitBreakerState;
  en_failures : Z;
  en_half_open_in_flight : Z;
  en_half_open_successes : Z;
  en_opened_at : option Z;
}.
Definition CircuitEntry_default : CircuitEntry := MkEntry CircuitClosed 0 0 0 None.

Definition pair_key : Type := string * string.

Record CircuitBreaker := MkBreaker {
  br_config : CircuitBreakerConfig;
  br_entries : gmap pair_key CircuitEntry;
}.

Definition breaker_new (config : CircuitBreakerConfig) : CircuitBreaker := MkBreaker config ∅.
Definition breaker_try_new (config : CircuitBreakerConfig) : exec string CircuitBreaker :=
  breaker_validate config;;
  Ok (breaker_new config).

Definition breaker_state (b : CircuitBreaker) (k : pair_key) : CircuitBreakerState :=
  match br_entries b !! k with None => CircuitClosed | Some e => en_state e end.
Definition breaker_failure_count (b : CircuitBreaker) (k : pair_key) : Z :=
  match br_entries b !! k with None => 0 | Some e => en_failures e end.

(** [self.entries.entry(key).or_default()], and the entry after its change. *)
Definition entry_or_default (b : CircuitBreaker) (k : pair_key) : CircuitEntry :=
  default CircuitEntry_default (br_entries b !! k).
Definition with_entry (k : pair_key) (e : CircuitEntry) (b : CircuitBreaker) : CircuitBreaker :=
  MkBreaker (br_config b) (<[k := e]> (br_entries b)).

(** The count is below [limit], a [u32], when it is incremented. *)
Definition reserve_half_open_request (e : CircuitEntry) (limit : Z) : CircuitEntry * bool :=
  if en_half_open_in_flight e <? limit then
    (MkEntry (en_state e) (en_failures e) (en_half_open_in_flight e + 1) (en_half_open_successes e)
       (en_opened_at e), true)
  else (e, false).

Definition open_entry (now : Z) : CircuitEntry := MkEntry CircuitOpen 0 0 0 (Some now).
Definition close_entry : CircuitEntry := MkEntry CircuitClosed 0 0 0 None.

Definition recovered (timeout now : Z) (opened_at : option Z) : bool :=
  match opened_at with
  | Some opened_at => (opened_at <=? now) && (timeout <=? now - opened_at)
  | None => false
  end.

(** [allow_request_at] *)
Definition allow_entry (c : CircuitBreakerConfig) (now : Z) (e : CircuitEntry) : CircuitEntry * bool :=
  match en_state e with
  | CircuitClosed => (e, true)
  | CircuitOpen =>
      if recovered (cf_recovery_timeout c) now (en_opened_at e) then
        reserve_half_open_request (MkEntry CircuitHalfOpen (en_failures e) 0 0 None)
          (cf_half_open_requests c)
      else (e, false)
  | CircuitHalfOpen => reserve_half_open_request e (cf_half_open_requests c)
  end.
Definition allow_request_at (k : pair_key) (now : Z) (b : CircuitBreaker) : CircuitBreaker * bool :=
  let '(e, answer) := allow_entry (br_config b) now (entry_or_default b k) in
  (with_entry k e b, answer).

(** [record_success_at] *)
Definition success_entry (c : CircuitBreakerConfig) (e : CircuitEntry) : CircuitEntry :=
  match en_state e with
  | CircuitClosed => MkEntry (en_state e) 0 (en_half_open_in_flight e) (en_half_open_successes e)
                       (en_opened_at e)
  | CircuitOpen => e
  | CircuitHalfOpen =>
      let successes := saturating_add u32_max (en_half_open_successes e) 1 in
      if cf_half_open_requests c <=? successes then close_entry
      else MkEntry (en_state e) (en_failures e) (saturating_sub (en_half_open_in_flight e) 1) successes
             (en_opened_at e)
  end.
Definition record_success_at (k : pair_key) (b : CircuitBreaker) : CircuitBreaker :=
  with_entry k (success_entry (br_config b) (entry_or_default b k)) b.

(** [record_failure_at], also [record_quality_regression_at] *)
Definition failure_entry (c : CircuitBreakerConfig) (now : Z) (e : CircuitEntry) : CircuitEntry :=
  match en_state e with
  | CircuitClosed =>
      let failures := saturating_add u32_max (en_failures e) 1 in
      if cf_failure_threshold c <=? failures then open_entry now
      else MkEntry (en_state e) failures (en_half_open_in_flight e) (en_half_open_successes e)
             (en_opened_at e)
  | CircuitOpen => e
  | CircuitHalfOpen => open_entry now
  end.
Definition record_failure_at (k : pair_key) (now : Z) (b : CircuitBreaker) : CircuitBreaker :=
  with_entry k (failure_entry (br_config b) now (entry_or_default b k)) b.

(** [record_quality_outcome] *)
Definition record_quality_outcome (k : pair_key) (now : Z) (quality_regressed : bool)
    (b : CircuitBreaker) : CircuitBreaker :=
  if quality_regressed then record_failure_at k now b else record_success_at k b.

Definition breaker_reset (k : pair_key) (b : CircuitBreaker) : CircuitBreaker :=
  MkBreaker (br_config b) (delete k (br_entries b)).

(** [route_at] *)
Definition route_at (task_class candidate_provider candidate_model baseline_provider
    baseline_model : string) (now : Z) (b : CircuitBreaker) : CircuitBreaker * CircuitBreakerDecision :=
  let '(b, admitted) := allow_request_at (task_class, candidate_provider) now b in
  (b, if admitted then MkDecision true candidate_model candidate_provider false
      else MkDecision true baseline_model baseline_provider true).

(** ** Calls in any order *)
Inductive Call := Allow | Success | Failure | Reset.
#[export] Instance Call_eq_dec : EqDecision Call.
Proof. solve_decision. Defined.
Record Event := MkEvent { ev_key : pair_key; ev_now : Z; ev_call : Call }.

(** The breaker after a call, and the answer of an admission. *)
Definition call_breaker (ev : Event) (b : CircuitBreaker) : CircuitBreaker * option bool :=
  match ev_call ev with
  | Allow => let '(b, answer) := allow_request_at (ev_key ev) (ev_now ev) b in (b, Some answer)
  | Success => (record_success_at (ev_key ev) b, None)
  | Failure => (record_failure_at (ev_key ev) (ev_now ev) b, None)
  | Reset => (breaker_reset (ev_key ev) b, None)
  end.

(** The breaker after all calls, and the answers with the pair they are about. *)
Fixpoint breaker_calls (events : list Event) (b : CircuitBreaker) :
    CircuitBreaker * list (pair_key * bool) :=
  match events with
  | [] => (b, [])
  | ev :: events =>
      let '(b, answer) := call_breaker ev b in
      let '(b, answers) := breaker_calls events b in
      (b, option_list ((ev_key ev,.) <$> answer) ++ answers)
  end.
