(* ===== verification/CircuitFacts.v ===== *)
(** * What a circuit breaker promises

    Each pair of the map behaves as a machine of its own with three states; the
    other pairs do not matter.  The machine is the specification. *)
From S2P Require Import Prelude CircuitBreaker.
#[local] Open Scope Z_scope.

(** ** The specification *)
Inductive Circuit :=
| Working (failures : Z)
| Tripped (since : Z)
| Probing (in_flight successes : Z).

Section circuit.
Context (cfg : CircuitBreakerConfig).

Definition spec_call (call : Call) (now : Z) (c : Circuit) : Circuit * option bool :=
  match call, c with
  | Allow, Working n => (c, Some true)
  | Allow, Tripped t =>
      if t + cf_recovery_timeout cfg <=? now then (Probing 1 0, Some true) else (c, Some false)
  | Allow, Probing i s =>
      if i <? cf_half_open_requests cfg then (Probing (i + 1) s, Some true) else (c, Some false)
  | Success, Working _ => (Working 0, None)
  | Success, Tripped _ => (c, None)
  | Success, Probing i s =>
      (if cf_half_open_requests cfg <=? s + 1 then Working 0 else Probing (Z.max 0 (i - 1)) (s + 1), None)
  | Failure, Working n =>
      (if cf_failure_threshold cfg <=? n + 1 then Tripped now else Working (n + 1), None)
  | Failure, Tripped _ => (c, None)
  | Failure, Probing _ _ => (Tripped now, None)
  | Reset, _ => (Working 0, None)
  end.

Fixpoint spec_run (events : list Event) (c : Circuit) : Circuit * list bool :=
  match events with
  | [] => (c, [])
  | ev :: events =>
      let '(c, answer) := spec_call (ev_call ev) (ev_now ev) c in
      let '(c, answers) := spec_run events c in
      (c, option_list answer ++ answers)
  end.

(** A configuration that was validated, with a timeout and [u32] counts. *)
Record config_ok : Prop := {
  ok_threshold : 0 < cf_failure_threshold cfg ≤ u32_max;
  ok_timeout : 0 < cf_recovery_timeout cfg;
  ok_half_open : 0 < cf_half_open_requests cfg ≤ u32_max;
}.

(** ** Entries and machines *)
Definition represents (e : CircuitEntry) (c : Circuit) : Prop :=
  match c with
  | Working n => e = MkEntry CircuitClosed n 0 0 None ∧ 0 ≤ n < cf_failure_threshold cfg
  | Tripped t => e = open_entry t
  | Probing i s => e = MkEntry CircuitHalfOpen 0 i s None
      ∧ 0 ≤ i ≤ cf_half_open_requests cfg ∧ 0 ≤ s < cf_half_open_requests cfg
  end.

Lemma allow_represents e c now :
  config_ok → represents e c →
  let '(c', answer) := spec_call Allow now c in
  let '(e', granted) := allow_entry cfg now e in
  represents e' c' ∧ answer = Some granted.
Proof.
  intros [Ht Hr Hh]. destruct c as [n|t|i s]; cbn [represents spec_call].
  - by intros [-> Hn].
  - intros ->. unfold allow_entry, recovered, reserve_half_open_request, open_entry.
    cbn [en_state en_opened_at en_failures en_half_open_in_flight en_half_open_successes].
    destruct (Z.leb_spec (t + cf_recovery_timeout cfg) now).
    + rewrite (proj2 (Z.leb_le t now)), (proj2 (Z.leb_le _ _)) by lia. cbn [andb].
      rewrite (proj2 (Z.ltb_lt 0 _)) by lia. cbn. split; [split; [done|lia]|done].
    + replace ((t <=? now) && (cf_recovery_timeout cfg <=? now - t)) with false; [done|].
      symmetry. apply andb_false_iff. rewrite !Z.leb_gt. lia.
  - intros (-> & Hi & Hs). unfold allow_entry, reserve_half_open_request. cbn.
    destruct (Z.ltb_spec i (cf_half_open_requests cfg)); cbn; (split; [split; [done|lia]|done]).
Qed.

Lemma success_represents e c now :
  config_ok → represents e c → represents (success_entry cfg e) (spec_call Success now c).1.
Proof.
  intros [Ht Hr Hh]. destruct c as [n|t|i s]; cbn [represents spec_call fst].
  - intros [-> Hn]. by split; [|lia].
  - by intros ->.
  - intros (-> & Hi & Hs). unfold success_entry, saturating_add, saturating_sub. cbn [en_state
      en_half_open_successes en_half_open_in_flight en_failures en_opened_at].
    rewrite Z.min_r by lia. destruct (Z.leb_spec (cf_half_open_requests cfg) (s + 1)); cbn.
    + split; [done|lia].
    + split; [done|lia].
Qed.

Lemma failure_represents e c now :
  config_ok → represents e c → represents (failure_entry cfg now e) (spec_call Failure now c).1.
Proof.
  intros [Ht Hr Hh]. destruct c as [n|t|i s]; cbn [represents spec_call fst].
  - intros [-> Hn]. unfold failure_entry, saturating_add. cbn [en_state en_failures
      en_half_open_in_flight en_half_open_successes en_opened_at].
    rewrite Z.min_r by lia. destruct (Z.leb_spec (cf_failure_threshold cfg) (n + 1)); cbn; [done|].
    split; [done|lia].
  - by intros ->.
  - by intros (-> & _).
Qed.

(** ** The map of entries *)
Definition refines (b : CircuitBreaker) (c : pair_key → Circuit) : Prop :=
  br_config b = cfg ∧ ∀ k, represents (entry_or_default b k) (c k).

Lemma refines_new : config_ok → refines (breaker_new cfg) (λ _, Working 0).
Proof. intros [Ht _ _]. split; [done|]. intros k. by split; [|lia]. Qed.

Lemma entry_with_entry k k' e b :
  entry_or_default (with_entry k e b) k' = if decide (k = k') then e else entry_or_default b k'.
Proof.
  unfold entry_or_default, with_entry. cbn. case_decide as E.
  - by rewrite E, lookup_insert_eq.
  - by rewrite lookup_insert_ne.
Qed.

Lemma refines_with b c k e c' :
  refines b c → represents e c' → refines (with_entry k e b) (λ k', if decide (k = k') then c' else c k').
Proof.
  intros [Hc Hr] He. split; [done|]. intros k'. rewrite entry_with_entry. case_decide; [done|apply Hr].
Qed.

(** One call changes the machine of its pair, and only that. *)
Lemma call_refines ev b c :
  config_ok → refines b c →
  let '(b', answer) := call_breaker ev b in
  let '(c', answer') := spec_call (ev_call ev) (ev_now ev) (c (ev_key ev)) in
  refines b' (λ k, if decide (ev_key ev = k) then c' else c k) ∧ answer = answer'.
Proof.
  intros Hok Href. pose proof Href as [Hc Hr]. pose proof (Hr (ev_key ev)) as Hk.
  unfold call_breaker, allow_request_at, record_success_at, record_failure_at. rewrite Hc.
  destruct (ev_call ev).
  - pose proof (allow_represents _ _ (ev_now ev) Hok Hk) as Ha.
    destruct (allow_entry cfg _ _) as [e' granted].
    destruct (spec_call Allow _ _) as [c' answer']. destruct Ha as [He ->].
    split; [|done]. by apply refines_with.
  - pose proof (success_represents _ _ (ev_now ev) Hok Hk) as He.
    destruct (spec_call Success _ _) as [c' answer'] eqn:Es. cbn in He.
    split; [by apply refines_with|]. by destruct (c (ev_key ev)); injection Es.
  - pose proof (failure_represents _ _ (ev_now ev) Hok Hk) as He.
    destruct (spec_call Failure _ _) as [c' answer'] eqn:Es. cbn in He.
    split; [by apply refines_with|]. by destruct (c (ev_key ev)); injection Es.
  - cbn. split; [|done]. split; [done|]. intros k. unfold entry_or_default, breaker_reset. cbn.
    case_decide as Ek.
    + rewrite Ek, lookup_delete_eq. destruct Hok as [? _ _]. by split; [|lia].
    + rewrite lookup_delete_ne by done. apply Hr.
Qed.

(** The calls and the answers of one pair. *)
Definition calls_of (k : pair_key) (events : list Event) : list Event :=
  filter (λ ev, ev_key ev = k) events.
Definition answers_of (k : pair_key) (answers : list (pair_key * bool)) : list bool :=
  (filter (λ a, a.1 = k) answers).*2.

Lemma answers_of_cons k k' o answers :
  answers_of k (option_list ((k',.) <$> o) ++ answers)
  = (if decide (k' = k) then option_list o else []) ++ answers_of k answers.
Proof.
  destruct o as [a|]; [|by case_decide].
  change (answers_of k ((k', a) :: answers) = (if decide (k' = k) then [a] else []) ++ answers_of k answers).
  unfold answers_of. rewrite filter_cons. cbn [fst]. by case_decide.
Qed.

Lemma run_refines events b c :
  config_ok → refines b c →
  let '(b', answers) := breaker_calls events b in
  refines b' (λ k, (spec_run (calls_of k events) (c k)).1)
  ∧ ∀ k, answers_of k answers = (spec_run (calls_of k events) (c k)).2.
Proof.
  intros Hok. revert b c. induction events as [|ev events IH]; intros b c Href; [done|]. cbn [breaker_calls].
  pose proof (call_refines ev b c Hok Href) as Hcall.
  destruct (call_breaker ev b) as [b1 answer].
  destruct (spec_call (ev_call ev) (ev_now ev) (c (ev_key ev))) as [c1 answer'] eqn:Es.
  destruct Hcall as [Href1 ->]. specialize (IH _ _ Href1).
  destruct (breaker_calls events b1) as [b2 answers]. destruct IH as [[Hc Hr] Ha].
  assert (∀ k, spec_run (calls_of k (ev :: events)) (c k)
    = let '(c', rest) := spec_run (calls_of k events) (if decide (ev_key ev = k) then c1 else c k) in
      (c', (if decide (ev_key ev = k) then option_list answer' else []) ++ rest)) as Hstep.
  { intros k. unfold calls_of. rewrite filter_cons. case_decide as Ek.
    - cbn [spec_run]. rewrite <-Ek, Es. by destruct (spec_run _ c1).
    - by destruct (spec_run _ (c k)). }
  split.
  - split; [done|]. intros k. specialize (Hr k). rewrite Hstep. by destruct (spec_run _ _).
  - intros k. rewrite answers_of_cons, Ha, Hstep. by destruct (spec_run _ _).
Qed.

Lemma represents_state e c :
  represents e c →
  en_state e = match c with Working _ => CircuitClosed | Tripped _ => CircuitOpen
               | Probing _ _ => CircuitHalfOpen end
  ∧ en_failures e = match c with Working n => n | _ => 0 end.
Proof. destruct c; cbn; [intros [-> _]|intros ->|intros [-> _]]; done. Qed.

Lemma state_entry b k : breaker_state b k = en_state (entry_or_default b k).
Proof. unfold breaker_state, entry_or_default. by destruct (br_entries b !! k). Qed.
Lemma failures_entry b k : breaker_failure_count b k = en_failures (entry_or_default b k).
Proof. unfold breaker_failure_count, entry_or_default. by destruct (br_entries b !! k). Qed.

(** ** The machine *)
Definition is_call (call : Call) (ev : Event) : Prop := ev_call ev = call.
#[local] Instance is_call_dec call ev : Decision (is_call call ev) := decide (ev_call ev = call).

(** Before the timeout nothing but a reset moves a tripped circuit. *)
Lemma tripped_stays t events :
  Forall (λ ev, ev_call ev ≠ Reset ∧ ev_now ev < t + cf_recovery_timeout cfg) events →
  (spec_run events (Tripped t)).1 = Tripped t
  ∧ ∀ a, a ∈ (spec_run events (Tripped t)).2 → a = false.
Proof.
  induction 1 as [|ev events [Hn Ht] _ IH]; [by split; [|intros a Ha; inversion Ha]|].
  cbn [spec_run]. destruct (ev_call ev) eqn:Ec; try done; cbn [spec_call].
  - rewrite (proj2 (Z.leb_gt _ _)) by lia. destruct (spec_run events (Tripped t)) as [c as'].
    cbn [fst snd] in IH. destruct IH as [-> IH]. split; [done|]. cbn. intros a [->|?]%elem_of_cons; [done|by apply IH].
  - by destruct (spec_run events (Tripped t)).
  - by destruct (spec_run events (Tripped t)).
Qed.

(** Failures without a success in between add up. *)
Lemma failures_trip n events ev :
  Forall (λ ev, ev_call ev = Allow ∨ ev_call ev = Failure) events → ev_call ev = Failure →
  n + Z.of_nat (length (filter (is_call Failure) (events ++ [ev]))) = cf_failure_threshold cfg →
  (spec_run (events ++ [ev]) (Working n)).1 = Tripped (ev_now ev).
Proof.
  intros Hall Hev. revert n. induction Hall as [|e events He _ IH]; intros n Hsum.
  - change ([] ++ [ev]) with [ev] in *. cbn [spec_run]. rewrite Hev. cbn [spec_call].
    rewrite filter_cons, decide_True in Hsum by done. cbn in Hsum. by rewrite (proj2 (Z.leb_le _ _)) by lia.
  - cbn [app spec_run]. change ((e :: events) ++ [ev]) with (e :: (events ++ [ev])) in Hsum.
    rewrite filter_cons in Hsum.
    destruct He as [He|He]; cbn [spec_run]; rewrite He; cbn [spec_call].
    + rewrite decide_False in Hsum by (unfold is_call; congruence). specialize (IH n Hsum).
      destruct (spec_run (events ++ [ev]) (Working n)) as [c as']. done.
    + rewrite decide_True in Hsum by done. cbn [length] in Hsum.
      assert (0 < Z.of_nat (length (filter (is_call Failure) (events ++ [ev])))) as Hpos.
      { rewrite filter_app, filter_cons, decide_True by done. rewrite length_app. cbn. lia. }
      rewrite (proj2 (Z.leb_gt _ _)) by lia. specialize (IH (n + 1) ltac:(lia)).
      destruct (spec_run (events ++ [ev]) (Working (n + 1))) as [c as']. done.
Qed.

(** Probes are granted up to the limit. *)
Lemma probes_granted i s events :
  Forall (is_call Allow) events → i + Z.of_nat (length events) ≤ cf_half_open_requests cfg →
  spec_run events (Probing i s) = (Probing (i + Z.of_nat (length events)) s, replicate (length events) true).
Proof.
  intros Hall. revert i. induction Hall as [|e events He _ IH]; intros i Hi; cbn [spec_run length replicate].
  - by rewrite Z.add_0_r.
  - rewrite He. cbn [spec_call]. cbn [length] in Hi. rewrite (proj2 (Z.ltb_lt _ _)) by lia.
    rewrite IH by lia. cbn. f_equal. f_equal. lia.
Qed.

(** As many successes close it. *)
Lemma successes_close i s events :
  0 ≤ s → Forall (is_call Success) events → s + Z.of_nat (length events) = cf_half_open_requests cfg →
  events ≠ [] → spec_run events (Probing i s) = (Working 0, []).
Proof.
  intros Hs Hall. revert i s Hs. induction Hall as [|e events He Hrest IH]; intros i s Hs Hsum Hne; [done|].
  cbn [spec_run]. rewrite He. cbn [spec_call length] in *.
  destruct events as [|e' events].
  - by rewrite (proj2 (Z.leb_le _ _)) by (cbn in Hsum; lia).
  - rewrite (proj2 (Z.leb_gt _ _)) by (cbn [length] in *; lia).
    rewrite IH; [done|lia|cbn [length] in *; lia|done].
Qed.

(** Without a result, no further probe is granted. *)
Lemma probes_block s events :
  Forall (is_call Allow) events →
  (spec_run events (Probing (cf_half_open_requests cfg) s)).1 = Probing (cf_half_open_requests cfg) s
  ∧ ∀ a, a ∈ (spec_run events (Probing (cf_half_open_requests cfg) s)).2 → a = false.
Proof.
  induction 1 as [|e events He _ IH]; [by split; [|intros a Ha; inversion Ha]|].
  assert (spec_run (e :: events) (Probing (cf_half_open_requests cfg) s)
    = let '(c, answers) := spec_run events (Probing (cf_half_open_requests cfg) s) in
      (c, false :: answers)) as ->.
  { cbn [spec_run]. rewrite He. cbn [spec_call]. by rewrite Z.ltb_irrefl. }
  destruct (spec_run events (Probing _ s)) as [c as']. destruct IH as [Hc IH].
  split; [done|]. intros a [->|?]%elem_of_cons; [done|by apply IH].
Qed.

Lemma spec_run_app l1 l2 c :
  spec_run (l1 ++ l2) c
  = let '(c1, a1) := spec_run l1 c in let '(c2, a2) := spec_run l2 c1 in (c2, a1 ++ a2).
Proof.
  revert c. induction l1 as [|ev l1 IH]; intros c; cbn [app spec_run].
  - by destruct (spec_run l2 c).
  - destruct (spec_call _ _ c) as [c0 a]. rewrite IH. destruct (spec_run l1 c0) as [c1 a1].
    destruct (spec_run l2 c1) as [c2 a2]. by rewrite app_assoc.
Qed.
End circuit.

(** ** The promises *)
Definition circuit_state (c : Circuit) : CircuitBreakerState :=
  match c with Working _ => CircuitClosed | Tripped _ => CircuitOpen | Probing _ _ => CircuitHalfOpen end.
Definition circuit_failures (c : Circuit) : Z := match c with Working n => n | _ => 0 end.

(** A breaker that calls brought about. *)
Definition reached (cfg : CircuitBreakerConfig) (b : CircuitBreaker) : Prop :=
  ∃ events, (breaker_calls events (breaker_new cfg)).1 = b.

Lemma reached_refines cfg b : config_ok cfg → reached cfg b → ∃ c, refines cfg b c.
Proof.
  intros Hok [events <-]. pose proof (run_refines cfg events _ _ Hok (refines_new cfg Hok)) as Hrun.
  destruct (breaker_calls events (breaker_new cfg)) as [b answers]. destruct Hrun as [Hr _]. by eexists.
Qed.

Lemma refines_state cfg b c k :
  refines cfg b c → breaker_state b k = circuit_state (c k) ∧ breaker_failure_count b k = circuit_failures (c k).
Proof. intros [_ Hr]. rewrite state_entry, failures_entry. by apply (represents_state cfg). Qed.

(** A run from a reached breaker, seen from one pair. *)
Lemma run_pair cfg events b c k :
  config_ok cfg → refines cfg b c →
  let '(b', answers) := breaker_calls events b in
  refines cfg b' (λ k, (spec_run cfg (calls_of k events) (c k)).1)
  ∧ breaker_state b' k = circuit_state ((spec_run cfg (calls_of k events) (c k)).1)
  ∧ breaker_failure_count b' k = circuit_failures ((spec_run cfg (calls_of k events) (c k)).1)
  ∧ answers_of k answers = (spec_run cfg (calls_of k events) (c k)).2.
Proof.
  intros Hok Href. pose proof (run_refines cfg events b c Hok Href) as Hrun.
  destruct (breaker_calls events b) as [b' answers]. destruct Hrun as [Hr Ha]. split; [done|].
  destruct (refines_state _ _ _ k Hr) as [-> ->]. done.
Qed.

(** C7: whatever calls arrive for whatever pairs, each pair behaves as the
    three-state machine run on that pair's own calls: the same answers to every
    admission, the same state and the same number of failures; no other pair has
    any influence. *)
Theorem breaker_refines cfg events k :
  config_ok cfg →
  let '(b, answers) := breaker_calls events (breaker_new cfg) in
  let '(c, expected) := spec_run cfg (calls_of k events) (Working 0) in
  answers_of k answers = expected
  ∧ breaker_state b k = circuit_state c ∧ breaker_failure_count b k = circuit_failures c.
Proof.
  intros Hok. pose proof (run_pair cfg events _ _ k Hok (refines_new cfg Hok)) as Hrun.
  destruct (breaker_calls events (breaker_new cfg)) as [b answers].
  destruct (spec_run cfg (calls_of k events) (Working 0)) as [c expected].
  by destruct Hrun as (_ & ? & ? & ?).
Qed.

(** A closed circuit opens with the failure that makes the threshold, when no
    success of the pair came in between, and from then on refuses the pair's
    requests and routes them to the baseline until the timeout has passed,
    whatever is recorded meanwhile short of a reset. *)
Theorem failures_open_circuit cfg b1 b2 b3 k events2 events3 before ev answers2 answers3 :
  config_ok cfg → reached cfg b1 → breaker_state b1 k = CircuitClosed →
  breaker_calls events2 b1 = (b2, answers2) → calls_of k events2 = before ++ [ev] →
  Forall (λ ev, ev_call ev = Allow ∨ ev_call ev = Failure) before → ev_call ev = Failure →
  breaker_failure_count b1 k + Z.of_nat (length (filter (λ ev, ev_call ev = Failure) (before ++ [ev])))
    = cf_failure_threshold cfg →
  breaker_calls events3 b2 = (b3, answers3) →
  Forall (λ e, ev_call e ≠ Reset ∧ ev_now e < ev_now ev + cf_recovery_timeout cfg) (calls_of k events3) →
  breaker_state b2 k = CircuitOpen ∧ breaker_state b3 k = CircuitOpen
  ∧ (∀ a, a ∈ answers_of k answers3 → a = false)
  ∧ ∀ now model bp bm, now < ev_now ev + cf_recovery_timeout cfg →
      (route_at k.1 k.2 model bp bm now b3).2 = MkDecision true bm bp true.
Proof.
  intros Hok [c Href]%reached_refines Hcl Hrun2 Hcalls Hall Hev Hsum Hrun3 Hlater; [|done].
  destruct (refines_state _ _ _ k Href) as [Hs Hf]. rewrite Hs in Hcl. rewrite Hf in Hsum.
  destruct (c k) as [n| |] eqn:Ek; try done. cbn [circuit_failures] in Hsum.
  pose proof (run_pair cfg events2 b1 c k Hok Href) as H2. rewrite Hrun2 in H2.
  destruct H2 as (Href2 & Hs2 & _ & _). rewrite Hcalls, Ek in Hs2.
  rewrite failures_trip in Hs2 by done.
  pose proof (run_pair cfg events3 b2 _ k Hok Href2) as H3. rewrite Hrun3 in H3. cbn beta in H3.
  rewrite Hcalls, Ek, failures_trip in H3 by done.
  destruct (tripped_stays cfg _ _ Hlater) as [Ht Ha].
  destruct H3 as (Href3 & Hs3 & _ & Hans3). rewrite Ht in Hs3.
  split; [done|]. split; [done|]. split; [by rewrite Hans3|].
  intros now model bp bm Hnow. destruct Href3 as [Hc Hr]. specialize (Hr k). cbn beta in Hr.
  rewrite Hcalls, Ek, failures_trip, Ht in Hr by done.
  unfold route_at, allow_request_at. rewrite Hc. destruct k as [k1 k2]. cbn [fst snd].
  pose proof (allow_represents cfg _ _ now Hok Hr) as Hal. cbn [spec_call] in Hal.
  rewrite (proj2 (Z.leb_gt _ _)) in Hal by lia.
  destruct (allow_entry cfg now _) as [e granted]. by destruct Hal as [_ [= <-]].
Qed.

(** C38: an open circuit recovers: once the timeout has passed, the configured
    number of requests of the pair is admitted, and when as many successes are
    recorded the circuit is closed with no failure on its count, whatever
    happened to other pairs meanwhile. *)
Theorem open_circuit_recovers cfg b k t events probes successes :
  config_ok cfg → reached cfg b → breaker_state b k = CircuitOpen →
  en_opened_at (entry_or_default b k) = Some t →
  calls_of k events = probes ++ successes →
  Forall (λ ev, ev_call ev = Allow ∧ t + cf_recovery_timeout cfg ≤ ev_now ev) probes →
  Forall (λ ev, ev_call ev = Success) successes →
  Z.of_nat (length probes) = cf_half_open_requests cfg → length successes = length probes →
  let '(b', answers) := breaker_calls events b in
  answers_of k answers = replicate (length probes) true
  ∧ breaker_state b' k = CircuitClosed ∧ breaker_failure_count b' k = 0.
Proof.
  intros Hok [c Href]%reached_refines Hop Ht Hcalls Hpr Hsu Hlen Hlen'; [|done].
  destruct (refines_state _ _ _ k Href) as [Hs _]. rewrite Hs in Hop.
  pose proof Href as [Hc Hr]. pose proof (Hr k) as Hk.
  destruct (c k) as [|t'|] eqn:Ek; try done. cbn in Hk. rewrite Hk in Ht. injection Ht as ->.
  pose proof (run_pair cfg events b c k Hok (conj Hc Hr)) as Hrun. rewrite Hcalls, Ek in Hrun.
  destruct (breaker_calls events b) as [b' answers].
  destruct Hok as [_ _ Hh]. destruct probes as [|p probes]; [cbn in Hlen; lia|].
  apply Forall_cons in Hpr as [[Hp1 Hp2] Hpr]. cbn [length] in Hlen, Hlen'.
  assert (spec_run cfg ((p :: probes) ++ successes) (Tripped t)
    = (Working 0, replicate (length (p :: probes)) true)) as Hspec.
  { cbn [app spec_run]. rewrite Hp1. cbn [spec_call]. rewrite (proj2 (Z.leb_le _ _)) by lia.
    rewrite spec_run_app, probes_granted; [|by eapply Forall_impl; [exact Hpr|intros x Hx; apply Hx]|lia].
    rewrite (successes_close cfg _ 0); [by rewrite app_nil_r|done|done|lia|]. by intros ->. }
  rewrite Hspec in Hrun. by destruct Hrun as (_ & ? & ? & ?).
Qed.

(** A half-open circuit waits for the results of its probes: when all of them
    were admitted and none is recorded, every further request of the pair is
    refused, however late it comes. *)
Theorem unreported_probes_block cfg b k t events probes later :
  config_ok cfg → reached cfg b → breaker_state b k = CircuitOpen →
  en_opened_at (entry_or_default b k) = Some t →
  calls_of k events = probes ++ later →
  Forall (λ ev, ev_call ev = Allow ∧ t + cf_recovery_timeout cfg ≤ ev_now ev) probes →
  Forall (λ ev, ev_call ev = Allow) later →
  Z.of_nat (length probes) = cf_half_open_requests cfg →
  let '(b', answers) := breaker_calls events b in
  breaker_state b' k = CircuitHalfOpen
  ∧ ∃ refused, answers_of k answers = replicate (length probes) true ++ refused
      ∧ ∀ a, a ∈ refused → a = false.
Proof.
  intros Hok [c Href]%reached_refines Hop Ht Hcalls Hpr Hla Hlen; [|done].
  destruct (refines_state _ _ _ k Href) as [Hs _]. rewrite Hs in Hop.
  pose proof Href as [Hc Hr]. pose proof (Hr k) as Hk.
  destruct (c k) as [|t'|] eqn:Ek; try done. cbn in Hk. rewrite Hk in Ht. injection Ht as ->.
  pose proof (run_pair cfg events b c k Hok (conj Hc Hr)) as Hrun. rewrite Hcalls, Ek in Hrun.
  destruct (breaker_calls events b) as [b' answers].
  destruct Hok as [_ _ Hh]. destruct probes as [|p probes]; [cbn in Hlen; lia|].
  apply Forall_cons in Hpr as [[Hp1 Hp2] Hpr]. cbn [length] in Hlen.
  destruct (probes_block cfg 0 later Hla) as [Hb Hf].
  assert (spec_run cfg ((p :: probes) ++ later) (Tripped t)
    = (Probing (cf_half_open_requests cfg) 0, replicate (length (p :: probes)) true
       ++ (spec_run cfg later (Probing (cf_half_open_requests cfg) 0)).2)) as Hspec.
  { cbn [app spec_run]. rewrite Hp1. cbn [spec_call]. rewrite (proj2 (Z.leb_le _ _)) by lia.
    rewrite spec_run_app, probes_granted; [|by eapply Forall_impl; [exact Hpr|intros x Hx; apply Hx]|lia].
    replace (1 + Z.of_nat (length probes)) with (cf_half_open_requests cfg) by lia.
    destruct (spec_run cfg later _) as [c2 a2]. cbn in Hb. by rewrite Hb. }
  rewrite Hspec in Hrun. destruct Hrun as (_ & ? & _ & ?). split; [done|]. by eexists.
Qed.

(** ** A concrete breaker *)
Definition sample_config : CircuitBreakerConfig := MkBreakerConfig 2 10 2.
Lemma sample_config_ok : config_ok sample_config.
Proof. by split; vm_compute. Qed.

Definition sample_pair : pair_key := ("code", "provider").
Definition other_pair : pair_key := ("code", "other").
Definition at_pair (call : Call) (now : Z) : Event := MkEvent sample_pair now call.
Definition failing : list Event :=
  [at_pair Allow 1; MkEvent other_pair 2 Failure; at_pair Failure 3; MkEvent other_pair 3 Success;
   at_pair Failure 5].
Definition failed_breaker : CircuitBreaker := (breaker_calls failing (breaker_new sample_config)).1.
Definition waiting : list Event := [at_pair Allow 6; at_pair Failure 7; MkEvent other_pair 20 Allow; at_pair Allow 14].
Definition probing : list Event := [at_pair Allow 15; MkEvent other_pair 15 Failure; at_pair Allow 16].
Definition succeeding : list Event := [at_pair Success 17; at_pair Success 18].

Lemma breaker_refines_witness :
  (breaker_calls (failing ++ waiting) (breaker_new sample_config)).2
    = [(sample_pair, true); (sample_pair, false); (other_pair, true); (sample_pair, false)]
  ∧ answers_of sample_pair (breaker_calls (failing ++ waiting) (breaker_new sample_config)).2
    = (spec_run sample_config (calls_of sample_pair (failing ++ waiting)) (Working 0)).2.
Proof.
  split; [by vm_compute|].
  pose proof (breaker_refines sample_config (failing ++ waiting) sample_pair sample_config_ok) as Hr.
  destruct (breaker_calls (failing ++ waiting) (breaker_new sample_config)) as [b answers].
  destruct (spec_run sample_config (calls_of sample_pair (failing ++ waiting)) (Working 0)) as [c expected].
  exact (proj1 Hr).
Defined.

Lemma failures_open_circuit_witness :
  breaker_state failed_breaker sample_pair = CircuitOpen
  ∧ breaker_state (breaker_calls waiting failed_breaker).1 sample_pair = CircuitOpen
  ∧ (∀ a, a ∈ answers_of sample_pair (breaker_calls waiting failed_breaker).2 → a = false)
  ∧ ∀ now model bp bm, now < 5 + 10 →
      (route_at "code" "provider" model bp bm now (breaker_calls waiting failed_breaker).1).2
      = MkDecision true bm bp true.
Proof.
  refine (failures_open_circuit sample_config (breaker_new sample_config) failed_breaker
    (breaker_calls waiting failed_breaker).1 sample_pair failing waiting
    [at_pair Allow 1; at_pair Failure 3] (at_pair Failure 5) _ _ sample_config_ok _ _ _ _ _ _ _ _ _).
  - by exists [].
  - by vm_compute.
  - by vm_compute.
  - by vm_compute.
  - by repeat constructor; auto.
  - done.
  - by vm_compute.
  - by vm_compute.
  - by repeat constructor.
Defined.

Lemma open_circuit_recovers_witness :
  breaker_state failed_breaker sample_pair = CircuitOpen
  ∧ breaker_state (breaker_calls (probing ++ succeeding) failed_breaker).1 sample_pair = CircuitClosed.
Proof.
  split; [by vm_compute|].
  assert (reached sample_config failed_breaker) as Hreach by by exists failing.
  pose proof (open_circuit_recovers sample_config failed_breaker sample_pair 5 (probing ++ succeeding)
    [at_pair Allow 15; at_pair Allow 16] succeeding sample_config_ok Hreach
    ltac:(by vm_compute) ltac:(by vm_compute) ltac:(by vm_compute) ltac:(by repeat constructor)
    ltac:(by repeat constructor) ltac:(by vm_compute) ltac:(by vm_compute)) as Hr.
  destruct (breaker_calls (probing ++ succeeding) failed_breaker) as [b' answers].
  exact (proj1 (proj2 Hr)).
Defined.

Lemma unreported_probes_block_witness :
  breaker_state failed_breaker sample_pair = CircuitOpen
  ∧ breaker_state (breaker_calls (probing ++ [at_pair Allow 1000000]) failed_breaker).1 sample_pair
    = CircuitHalfOpen.
Proof.
  split; [by vm_compute|].
  assert (reached sample_config failed_breaker) as Hreach by by exists failing.
  pose proof (unreported_probes_block sample_config failed_breaker sample_pair 5
    (probing ++ [at_pair Allow 1000000])
    [at_pair Allow 15; at_pair Allow 16] [at_pair Allow 1000000] sample_config_ok Hreach
    ltac:(by vm_compute) ltac:(by vm_compute) ltac:(by vm_compute) ltac:(by repeat constructor)
    ltac:(by repeat constructor) ltac:(by vm_compute)) as Hr.
  destruct (breaker_calls (probing ++ [at_pair Allow 1000000]) failed_breaker) as [b' answers].
  exact (proj1 Hr).
Defined.
