(* ===== verification/Relay.v ===== *)
(** * Relay records

    [rust/src/core/a2a/relay.rs]: the record that accompanies a message over
    several peers.  It names every peer it passed, is signed once by its origin
    and again, with a key shared with the next peer, at every hop.

    The crates [hex], [base64], [serde_json], [hmac] and [ed25519_dalek] are
    parameters.  A [usize] is a number; instants are nanoseconds. *)
From S2P Require Import Prelude BTree Text Hashing GraphModel TaskAuthority.
#[local] Open Scope Z_scope.

Definition RELAY_RECORD_VERSION : Z := 1.
Definition RELAY_MAX_HOPS : Z := 16.
Definition RELAY_MAX_RECORD_BYTES : Z := 32 * 1024.
Definition RELAY_MAX_DEADLINE_SECS : Z := 24 * 60 * 60.
Definition RELAY_MAX_ID_BYTES : Z := 128.

Inductive RelayError :=
| MaxHopsExceeded (hops : Z)
| CycleDetected (agent : string)
| Malformed (what : string)
| Oversize
| DeadlineExceeded
| RouteMismatch
| ScopeViolation
| UnknownRoute (recipient : string)
| AmbiguousRoute (recipient : string)
| InvalidPeer (peer : string)
| RelayInvalidSignature
| InvalidCredential
| RetryCap.
Notation relay := (exec RelayError).

(** [a2a_transport.rs] and [lean-ctx-protocol], [experiment.rs] *)
Inductive TransportContentType := HandoffBundle | ContextPackage | A2AMessage | A2ATask | EvidenceBundle.
#[export] Instance TransportContentType_eq_dec : EqDecision TransportContentType.
Proof. solve_decision. Defined.
Inductive DataClassification := Public | Internal | Confidential | Restricted.
#[export] Instance DataClassification_eq_dec : EqDecision DataClassification.
Proof. solve_decision. Defined.

(** ** The chain *)
Record RelayHop := MkHop {
  hp_agent_id : string;
  hp_received_at : Z;
  hp_forwarded_at : option Z;
  hp_processing_ms : option Z;
}.

Record RelayChain := MkChain { ch_hops : list RelayHop; ch_max_hops : Z }.
Definition chain_new (max_hops : Z) : RelayChain := MkChain [] max_hops.
Definition RelayChain_default : RelayChain := chain_new 5.

Definition chain_contains_agent (c : RelayChain) (agent_id : string) : bool :=
  any (λ hop, bool_decide (hp_agent_id hop = agent_id)) (ch_hops c).

(** The bounds of an identity, and a hop that was forwarded before it arrived. *)
Definition bad_identity (id : string) : bool := str_is_empty id || (RELAY_MAX_ID_BYTES <? str_len id).
Definition time_reversed (hop : RelayHop) : bool :=
  match hp_forwarded_at hop with Some forwarded => forwarded <? hp_received_at hop | None => false end.

Definition add_hop (hop : RelayHop) : op RelayChain RelayError () :=
  c ← get;
  lift (reject_if ((ch_max_hops c =? 0) || (RELAY_MAX_HOPS <? ch_max_hops c)
                   || (ch_max_hops c <=? vec_len (ch_hops c))) (MaxHopsExceeded (ch_max_hops c)));;
  lift (reject_if (bad_identity (hp_agent_id hop)) (Malformed "relay hop identity"));;
  lift (reject_if (chain_contains_agent c (hp_agent_id hop)) (CycleDetected (hp_agent_id hop)));;
  lift (reject_if (time_reversed hop) (Malformed "relay hop timestamps"));;
  modify (λ c, MkChain (ch_hops c ++ [hop]) (ch_max_hops c)).

Definition add_peer_hop (agent_id : string) (now : Z) : op RelayChain RelayError () :=
  add_hop (MkHop agent_id now (Some now) (Some 0)).

Definition relay_depth (c : RelayChain) : Z := vec_len (ch_hops c).

Definition total_latency_ms (c : RelayChain) : Z :=
  fold_left (saturating_add u64_max) (omap hp_processing_ms (ch_hops c)) 0.

Definition chain_origin (c : RelayChain) : option string := hp_agent_id <$> head (ch_hops c).

(** The loop of [RelayChain::validate], with the identities seen before. *)
Definition validate_hop (identities : gset string) (hop : RelayHop) : relay (gset string) :=
  reject_if (bad_identity (hp_agent_id hop)) (Malformed "relay hop identity");;
  reject_if (time_reversed hop || bool_decide (hp_agent_id hop ∈ identities))
    (CycleDetected (hp_agent_id hop));;
  Ok ({[hp_agent_id hop]} ∪ identities).

Definition chain_validate (c : RelayChain) : relay () :=
  reject_if ((ch_max_hops c =? 0) || (RELAY_MAX_HOPS <? ch_max_hops c)
             || (vec_len (ch_hops c) =? 0) || (ch_max_hops c <? vec_len (ch_hops c)))
    (MaxHopsExceeded (ch_max_hops c));;
  foldM validate_hop ∅ (ch_hops c);;
  Ok ().

(** ** The record *)
Record RelayOriginView := MkOriginView {
  ov_schema_version : Z;
  ov_payload_sha256 : string;
  ov_delivery_id : string;
  ov_origin : string;
  ov_final_recipient : string;
  ov_tenant_id : string;
  ov_project_id : string;
  ov_content_type : TransportContentType;
  ov_classification : DataClassification;
  ov_expires_at : Z;
  ov_max_hops : Z;
  ov_origin_hop : RelayHop;
}.

Record RelayRecordV1 := MkRelay {
  rr_schema_version : Z;
  rr_payload_sha256 : string;
  rr_delivery_id : string;
  rr_origin : string;
  rr_final_recipient : string;
  rr_current_peer : string;
  rr_next_peer : string;
  rr_tenant_id : string;
  rr_project_id : string;
  rr_content_type : TransportContentType;
  rr_classification : DataClassification;
  rr_expires_at : Z;
  rr_chain : RelayChain;
  rr_origin_signature : string;
  rr_hop_signature : string;
}.

(** The record with another route, chain and signatures. *)
Definition set_rr_route (current next : string) (chain : RelayChain) (r : RelayRecordV1) : RelayRecordV1 :=
  MkRelay (rr_schema_version r) (rr_payload_sha256 r) (rr_delivery_id r) (rr_origin r)
    (rr_final_recipient r) current next (rr_tenant_id r) (rr_project_id r) (rr_content_type r)
    (rr_classification r) (rr_expires_at r) chain (rr_origin_signature r) (rr_hop_signature r).
Definition set_rr_signatures (origin hop : string) (r : RelayRecordV1) : RelayRecordV1 :=
  MkRelay (rr_schema_version r) (rr_payload_sha256 r) (rr_delivery_id r) (rr_origin r)
    (rr_final_recipient r) (rr_current_peer r) (rr_next_peer r) (rr_tenant_id r) (rr_project_id r)
    (rr_content_type r) (rr_classification r) (rr_expires_at r) (rr_chain r) origin hop.
Definition set_rr_hop_signature (hop : string) (r : RelayRecordV1) : RelayRecordV1 :=
  set_rr_signatures (rr_origin_signature r) hop r.

Definition relay_identities (r : RelayRecordV1) : list (string * string) :=
  [("delivery_id", rr_delivery_id r); ("origin", rr_origin r); ("final_recipient", rr_final_recipient r);
   ("current_peer", rr_current_peer r); ("next_peer", rr_next_peer r); ("tenant_id", rr_tenant_id r);
   ("project_id", rr_project_id r)].

(** [RelayRecordV1::validate_shape] *)
Definition relay_validate_shape (r : RelayRecordV1) : relay () :=
  reject_if (negb (str_len (rr_payload_sha256 r) =? 64)
             || negb (all_bytes is_lower_hex (rr_payload_sha256 r))) (Malformed "payload digest");;
  reject_if (negb (rr_schema_version r =? RELAY_RECORD_VERSION)) (Malformed "relay record version");;
  forM_ (λ '(name, value), reject_if (bad_identity value) (Malformed name)) (relay_identities r);;
  reject_if ((RELAY_MAX_ID_BYTES * 2 <? str_len (rr_origin_signature r))
             || (RELAY_MAX_ID_BYTES * 2 <? str_len (rr_hop_signature r))) (Malformed "relay signature");;
  chain_validate (rr_chain r);;
  reject_if (bool_decide ((hp_agent_id <$> last (ch_hops (rr_chain r))) ≠ Some (rr_current_peer r))
             || bool_decide (chain_origin (rr_chain r) ≠ Some (rr_origin r)))
    (Malformed "relay chain identity").

Definition validate_deadline (now : Z) (r : RelayRecordV1) : relay () :=
  reject_if (rr_expires_at r <=? now) DeadlineExceeded;;
  reject_if (RELAY_MAX_DEADLINE_SECS <? num_seconds (rr_expires_at r - now))
    (Malformed "relay deadline exceeds cap").

Definition validate_at (now : Z) (expected_current : string) (expected_next : option string)
    (max_hops : Z) (r : RelayRecordV1) : relay () :=
  relay_validate_shape r;;
  validate_deadline now r;;
  reject_if (bool_decide (rr_current_peer r ≠ expected_current)
             || match expected_next with Some peer => bool_decide (rr_next_peer r ≠ peer) | None => false end)
    RouteMismatch;;
  reject_if ((max_hops <? ch_max_hops (rr_chain r)) || (max_hops <? relay_depth (rr_chain r)))
    (MaxHopsExceeded max_hops);;
  reject_if (str_is_empty (rr_origin_signature r) || str_is_empty (rr_hop_signature r))
    RelayInvalidSignature.

Definition origin_view (r : RelayRecordV1) : relay RelayOriginView :=
  hop ← ok_or (head (ch_hops (rr_chain r))) (Malformed "relay origin hop");
  Ok (MkOriginView (rr_schema_version r) (rr_payload_sha256 r) (rr_delivery_id r) (rr_origin r)
        (rr_final_recipient r) (rr_tenant_id r) (rr_project_id r) (rr_content_type r)
        (rr_classification r) (rr_expires_at r) (ch_max_hops (rr_chain r)) hop).

(** ** Third-party code *)

(** [hex], [base64] (URL safe, without padding) and [serde_json]. *)
Class RelayCodec := {
  hex_text : string → string;
  hex_bytes : string → option string;
  base64_text : string → string;
  base64_bytes : string → option string;
  origin_json : RelayOriginView → exec string string;
  hop_json : RelayRecordV1 → exec string string;
  record_json : RelayRecordV1 → exec string string;
  record_of_json : string → exec string RelayRecordV1;
}.

(** HMAC-SHA256, which takes a key of any length, and the strict verification of
    [ed25519_dalek]: whether 32 bytes are a key, whether the key is weak, and
    whether a 64-byte signature verifies. *)
Class RelayCrypto := {
  hmac_sha256 : string → string → string;
  public_key_ok : string → bool;
  public_key_weak : string → bool;
  ed25519_verify_strict : string → string → string → bool;
}.

(** The two byte strings are compared without an early exit. *)
Fixpoint xor_difference (xs ys : string) (difference : Z) : Z :=
  match xs, ys with
  | String a xs, String b ys =>
      xor_difference xs ys (Z.lor difference (Z.lxor (byte_val a) (byte_val b)))
  | _, _ => difference
  end.
Definition constant_time_eq (xs ys : string) : bool :=
  (str_len xs =? str_len ys) && (xor_difference xs ys 0 =? 0).

Section signing.
Context `{RelayCodec} `{RelayCrypto} `{Ed25519} `{Sha256}.

(** [serde_json::to_vec(..).map_err(|e| RelayError::Malformed(e.to_string()))] *)
Definition malformed_json {A : Type} (x : exec string A) : relay A :=
  match x with Ok a => Ok a | Err e => Err (Malformed e) | Panic => Panic | Hang => Hang end.

Definition decode_hex (text : string) (e : RelayError) : relay string := ok_or (hex_bytes text) e.

Definition origin_bytes (r : RelayRecordV1) : relay string :=
  view ← origin_view r;
  malformed_json (origin_json view).

Definition payload_digest (payload : string) : string := sha256_hex payload.

Definition origin_fingerprint (r : RelayRecordV1) : relay string :=
  bytes ← origin_bytes r;
  Ok (payload_digest bytes).

Definition verify_payload (payload : string) (r : RelayRecordV1) : relay () :=
  reject_if (bool_decide (rr_payload_sha256 r ≠ payload_digest payload)) RelayInvalidSignature.

Definition hop_bytes (r : RelayRecordV1) : relay string :=
  malformed_json (hop_json (set_rr_hop_signature "" r)).

(** [RelayRecordV1::sign] *)
Definition relay_sign (key bytes : string) : relay string :=
  reject_if (str_is_empty key) InvalidCredential;;
  Ok (hex_text (hmac_sha256 key bytes)).

Definition sign_origin (key : SigningKey) (r : RelayRecordV1) : relay string :=
  bytes ← origin_bytes r;
  Ok (hex_text (ed25519_sign key bytes)).

Definition sign_hop (key : string) (r : RelayRecordV1) : relay string :=
  bytes ← hop_bytes r;
  relay_sign key bytes.

(** [verify_signature] *)
Definition relay_verify_signature (actual expected : string) : relay () :=
  actual ← decode_hex actual RelayInvalidSignature;
  expected ← decode_hex expected RelayInvalidSignature;
  reject_if (negb (str_len actual =? str_len expected) || negb (constant_time_eq actual expected))
    RelayInvalidSignature.

Definition decode_origin_key (raw : string) : relay string :=
  reject_if (negb (str_len raw =? 64)) InvalidCredential;;
  bytes ← decode_hex raw InvalidCredential;
  reject_if (negb (str_len bytes =? 32)) InvalidCredential;;
  reject_if (negb (public_key_ok bytes)) InvalidCredential;;
  reject_if (public_key_weak bytes) InvalidCredential;;
  Ok bytes.

Definition verify_origin (key : string) (r : RelayRecordV1) : relay () :=
  key ← decode_origin_key key;
  reject_if (negb (str_len (rr_origin_signature r) =? 128)) RelayInvalidSignature;;
  signature ← decode_hex (rr_origin_signature r) RelayInvalidSignature;
  reject_if (negb (str_len signature =? 64)) RelayInvalidSignature;;
  bytes ← origin_bytes r;
  reject_if (negb (ed25519_verify_strict key bytes signature)) RelayInvalidSignature.

Definition verify_hop (key : string) (r : RelayRecordV1) : relay () :=
  expected ← sign_hop key r;
  relay_verify_signature (rr_hop_signature r) expected.

(** ** Making and moving a record *)
Definition new_signed (delivery_id origin final_recipient tenant_id project_id : string)
    (content_type : TransportContentType) (classification : DataClassification) (expires_at max_hops now : Z)
    (origin_key : SigningKey) (channel_key payload : string) : relay RelayRecordV1 :=
  let '(chain, added) := add_peer_hop origin now (chain_new max_hops) in
  added;;
  let record := MkRelay RELAY_RECORD_VERSION (payload_digest payload) delivery_id origin
    final_recipient origin final_recipient tenant_id project_id content_type classification expires_at
    chain "" "" in
  relay_validate_shape record;;
  validate_deadline now record;;
  origin_signature ← sign_origin origin_key record;
  let record := set_rr_signatures origin_signature "" record in
  hop_signature ← sign_hop channel_key record;
  Ok (set_rr_signatures origin_signature hop_signature record).

(** The record is replaced last, so an error leaves it as it was. *)
Definition route_from_origin (next_peer : string) (now : Z) (origin_public_key channel_key : string) :
    op RelayRecordV1 RelayError () :=
  r ← get;
  lift (validate_at now (rr_origin r) None (ch_max_hops (rr_chain r)) r);;
  lift (verify_origin origin_public_key r);;
  lift (reject_if (negb (relay_depth (rr_chain r) =? 1)) RouteMismatch);;
  let routed := set_rr_route (rr_current_peer r) next_peer (rr_chain r) r in
  lift (reject_if (chain_contains_agent (rr_chain routed) next_peer) (CycleDetected next_peer));;
  lift (relay_validate_shape routed);;
  signature ← lift (sign_hop channel_key routed);
  modify (λ _, set_rr_hop_signature signature routed).

Definition forward_from (local_peer next_peer : string) (now : Z) (hop_key : string) :
    op RelayRecordV1 RelayError () :=
  r ← get;
  lift (validate_at now (rr_current_peer r) None (ch_max_hops (rr_chain r)) r);;
  lift (reject_if (bool_decide (local_peer ≠ rr_next_peer r)) RouteMismatch);;
  let '(chain, added) := add_peer_hop local_peer now (rr_chain r) in
  lift added;;
  let forwarded := set_rr_route local_peer next_peer chain r in
  lift (reject_if (chain_contains_agent chain next_peer) (CycleDetected next_peer));;
  lift (relay_validate_shape forwarded);;
  signature ← lift (sign_hop hop_key forwarded);
  modify (λ _, set_rr_hop_signature signature forwarded).

(** ** The metadata field *)
Definition encode_metadata (r : RelayRecordV1) : relay string :=
  relay_validate_shape r;;
  bytes ← malformed_json (record_json r);
  reject_if (RELAY_MAX_RECORD_BYTES <? str_len bytes) Oversize;;
  Ok (base64_text bytes).

Definition decode_metadata (value : string) : relay RelayRecordV1 :=
  reject_if (str_is_empty value || (RELAY_MAX_RECORD_BYTES * 2 <? str_len value)) Oversize;;
  bytes ← ok_or (base64_bytes value) (Malformed "relay metadata encoding");
  reject_if (RELAY_MAX_RECORD_BYTES <? str_len bytes) Oversize;;
  record ← match record_of_json bytes with
           | Ok record => Ok record
           | Err e => Err (Malformed ("relay metadata: " +:+ e))
           | Panic => Panic | Hang => Hang
           end;
  relay_validate_shape record;;
  again ← encode_metadata record;
  reject_if (bool_decide (again ≠ value)) (Malformed "non-canonical relay metadata");;
  Ok record.
End signing.

(** ** Peers *)
Record RelayPeerConfigV1 := MkRelayPeer {
  rp_schema_version : Z;
  rp_peer_id : string;
  rp_endpoint_url : string;
  rp_bearer_token : string;
  rp_channel_key : string;
  rp_origin_public_key : string;
  rp_recipient_id : string;
  rp_allowed_tenant_ids : list string;
  rp_allowed_project_ids : list string;
  rp_allowed_content_types : list TransportContentType;
  rp_allowed_classifications : list DataClassification;
  rp_max_hops : Z;
  rp_max_payload_bytes : Z;
  rp_retry_count : Z;
  rp_retry_delay_ms : Z;
}.

(** [RelayPeerConfigV1::allows] *)
Definition allows (p : RelayPeerConfigV1) (r : RelayRecordV1) (payload_bytes : Z) : bool :=
  (payload_bytes <=? rp_max_payload_bytes p)
  && any (λ id, bool_decide (id = rr_tenant_id r)) (rp_allowed_tenant_ids p)
  && any (λ id, bool_decide (id = rr_project_id r)) (rp_allowed_project_ids p)
  && any (λ kind, bool_decide (kind = rr_content_type r)) (rp_allowed_content_types p)
  && any (λ kind, bool_decide (kind = rr_classification r)) (rp_allowed_classifications p)
  && (relay_depth (rr_chain r) <=? rp_max_hops p).

Record RelayPeerTableV1 := MkPeerTable { pt_schema_version : Z; pt_peers : list RelayPeerConfigV1 }.

Definition table_peer (t : RelayPeerTableV1) (peer_id : string) : option RelayPeerConfigV1 :=
  find_first (λ peer, bool_decide (rp_peer_id peer = peer_id)) (pt_peers t).

Definition route_for_recipient (t : RelayPeerTableV1) (recipient_id : string) : relay RelayPeerConfigV1 :=
  match filter (λ peer, rp_recipient_id peer = recipient_id) (pt_peers t) with
  | [] => Err (UnknownRoute recipient_id)
  | [first] => Ok first
  | _ => Err (AmbiguousRoute recipient_id)
  end.

(** Each peer is compared with those after it. *)
Fixpoint shared_secret (peers : list RelayPeerConfigV1) : bool :=
  match peers with
  | [] => false
  | peer :: peers =>
      any (λ other, bool_decide (rp_channel_key peer = rp_channel_key other)
                    || bool_decide (rp_bearer_token peer = rp_bearer_token other)) peers
      || shared_secret peers
  end.
Definition table_reject_shared_secret (t : RelayPeerTableV1) : relay () :=
  reject_if (shared_secret (pt_peers t)) InvalidCredential.
