(* ===== verification/RelayFacts.v ===== *)
(** * Relay records do not loop, and stay signed

    The shape of a record is a set of facts about its chain, which every move of
    the record keeps; the origin's signature covers what no move changes. *)
From S2P Require Import Prelude Wp BTree Text Hashing Hex GraphModel TaskAuthority Relay.
#[local] Open Scope Z_scope.

(** ** What the checks establish *)
Definition hop_ok (hop : RelayHop) : Prop :=
  bad_identity (hp_agent_id hop) = false ∧ time_reversed hop = false.

Definition agents (c : RelayChain) : list string := hp_agent_id <$> ch_hops c.

Record relay_chain_ok (c : RelayChain) : Prop := {
  co_max : ch_max_hops c ≤ RELAY_MAX_HOPS;
  co_depth : 0 < relay_depth c ≤ ch_max_hops c;
  co_hops : Forall hop_ok (ch_hops c);
  co_agents : NoDup (agents c);
}.

Record relay_ok (r : RelayRecordV1) : Prop := {
  ro_digest : str_len (rr_payload_sha256 r) = 64 ∧ all_bytes is_lower_hex (rr_payload_sha256 r) = true;
  ro_version : rr_schema_version r = RELAY_RECORD_VERSION;
  ro_identities : Forall (λ id, bad_identity id.2 = false) (relay_identities r);
  ro_signatures : str_len (rr_origin_signature r) ≤ RELAY_MAX_ID_BYTES * 2
    ∧ str_len (rr_hop_signature r) ≤ RELAY_MAX_ID_BYTES * 2;
  ro_chain : relay_chain_ok (rr_chain r);
  ro_current : hp_agent_id <$> last (ch_hops (rr_chain r)) = Some (rr_current_peer r);
  ro_origin : chain_origin (rr_chain r) = Some (rr_origin r);
}.

(** A record that may travel on. *)
Definition travelable (now : Z) (r : RelayRecordV1) : Prop :=
  relay_ok r ∧ now < rr_expires_at r ∧ num_seconds (rr_expires_at r - now) ≤ RELAY_MAX_DEADLINE_SECS.
Definition signed (r : RelayRecordV1) : Prop := rr_origin_signature r ≠ "" ∧ rr_hop_signature r ≠ "".

Lemma validate_hop_Ok ids h ids' :
  validate_hop ids h = Ok ids' ↔ hop_ok h ∧ hp_agent_id h ∉ ids ∧ ids' = {[hp_agent_id h]} ∪ ids.
Proof.
  unfold validate_hop, hop_ok. split.
  - intros Hrun. inv_step Hrun.
    match goal with H : _ || _ = false |- _ => apply orb_false_iff in H as [? Hin] end.
    apply bool_decide_eq_false in Hin. by split_and!.
  - intros ((-> & ->) & Hin & ->). by rewrite !reject_if_false by (done || by apply bool_decide_eq_false_2).
Qed.

Lemma validate_hops_Ok hops ids :
  (∃ ids', foldM validate_hop ids hops = Ok ids') ↔
    Forall hop_ok hops ∧ NoDup (hp_agent_id <$> hops) ∧ ∀ x, x ∈ hp_agent_id <$> hops → x ∉ ids.
Proof.
  revert ids. induction hops as [|h hops IH]; intros ids.
  { split; [|by exists ids]. intros _. split; [done|]. split; [constructor|]. intros x Hx. inversion Hx. }
  change (hp_agent_id <$> h :: hops) with (hp_agent_id h :: (hp_agent_id <$> hops)).
  rewrite Forall_cons, NoDup_cons. change (foldM validate_hop ids (h :: hops))
    with (validate_hop ids h ≫= λ s', foldM validate_hop s' hops). split.
  - intros (ids' & (ids1 & (Hh & Hni & ->)%validate_hop_Ok & Hrun)%exec_bind_Ok).
    destruct (proj1 (IH _) (ex_intro _ _ Hrun)) as (Hall & Hnd & Hd). split; [done|]. split.
    + split; [|done]. intros Hx. apply (Hd _ Hx), elem_of_union. by left; apply elem_of_singleton.
    + intros x [->|Hx]%elem_of_cons; [done|]. intros Hin'. apply (Hd x Hx), elem_of_union. by right.
  - intros ((Hh & Hall) & (Hni & Hnd) & Hd).
    destruct (proj2 (IH ({[hp_agent_id h]} ∪ ids))) as [ids' Hrun].
    + split; [done|]. split; [done|]. intros x Hx.
      rewrite elem_of_union, elem_of_singleton. intros [->|Hin']; [done|].
      revert Hin'. by apply Hd, elem_of_cons; right.
    + exists ids'. apply exec_bind_Ok. eexists. split; [|exact Hrun]. apply validate_hop_Ok.
      split; [done|]. split; [|done]. by apply Hd, elem_of_cons; left.
Qed.

Lemma chain_validate_Ok c : 0 ≤ ch_max_hops c → chain_validate c = Ok () ↔ relay_chain_ok c.
Proof.
  intros Hn. unfold chain_validate. rewrite exec_bind_Ok. split.
  - intros ([] & Hr%reject_if_Ok & Hrun). apply exec_bind_Ok in Hrun as (ids & Hf & _).
    rewrite !orb_false_iff, !Z.eqb_neq, !Z.ltb_ge in Hr.
    destruct (proj1 (validate_hops_Ok (ch_hops c) ∅)) as (Hall & Hnd & _); [by eexists|].
    unfold vec_len in Hr. split; [lia|unfold relay_depth, vec_len; lia|done..].
  - intros [Hm Hd Hall Hnd]. exists (). split.
    + apply reject_if_Ok. rewrite !orb_false_iff, !Z.eqb_neq, !Z.ltb_ge. unfold relay_depth in Hd. lia.
    + destruct (proj2 (validate_hops_Ok (ch_hops c) ∅)) as [ids ->]; [|done].
      split; [done|]. split; [done|]. intros x _ Hx. by apply elem_of_empty in Hx.
Qed.

(** A [usize] is not negative. *)
Definition usize_ok (r : RelayRecordV1) : Prop := 0 ≤ ch_max_hops (rr_chain r).

Lemma relay_validate_shape_Ok r : usize_ok r → relay_validate_shape r = Ok () ↔ relay_ok r.
Proof.
  intros Hu. unfold relay_validate_shape. split.
  - intros Hrun. inv_step Hrun.
    repeat match goal with
           | H : _ || _ = false |- _ => apply orb_false_iff in H as [? ?]
           | H : negb _ = false |- _ => apply negb_false_iff in H
           end.
    repeat match goal with
           | H : (_ =? _) = true |- _ => apply Z.eqb_eq in H
           | H : (_ <? _) = false |- _ => apply Z.ltb_ge in H
           | H : bool_decide (_ ≠ _) = false |- _ => apply bool_decide_eq_false, dec_stable in H
           | H : chain_validate _ = Ok ?u |- _ => destruct u; apply chain_validate_Ok in H; [|done]
           end.
    split; try done. apply Forall_forall. intros [name value] Hin.
    match goal with H : forM_ _ _ = Ok _ |- _ =>
      pose proof (proj1 (forM__Ok _ _ _) H (name, value) Hin) as Hid end.
    by apply reject_if_Ok in Hid.
  - intros [[Hd1 Hd2] Hv Hid [Hs1 Hs2] Hc Hcur Hor].
    rewrite Hd1, Hd2, Hv. cbn [negb orb]. rewrite !reject_if_false by done.
    assert (forM_ (λ '(name, value), reject_if (bad_identity value) (Malformed name)) (relay_identities r)
      = Ok ()) as ->.
    { apply (forM__Ok _ _ ()). intros [name value] Hin. apply reject_if_Ok.
      by apply (proj1 (Forall_forall _ _) Hid (name, value)). }
    rewrite exec_bind_ret, reject_if_false by (by rewrite orb_false_iff, !Z.ltb_ge).
    rewrite (proj2 (chain_validate_Ok _ Hu) Hc), exec_bind_ret. apply reject_if_Ok.
    rewrite orb_false_iff. split; apply bool_decide_eq_false_2; tauto.
Qed.

Lemma validate_deadline_Ok now r :
  validate_deadline now r = Ok () ↔
    now < rr_expires_at r ∧ num_seconds (rr_expires_at r - now) ≤ RELAY_MAX_DEADLINE_SECS.
Proof.
  unfold validate_deadline. rewrite exec_bind_Ok. split.
  - by intros ([] & ?%reject_if_Ok%Z.leb_gt & ?%reject_if_Ok%Z.ltb_ge).
  - intros [? ?]. exists (). by rewrite !reject_if_Ok, Z.leb_gt, Z.ltb_ge.
Qed.

Lemma validate_at_Ok now current next max r :
  usize_ok r →
  validate_at now current next max r = Ok () ↔
    travelable now r ∧ signed r ∧ rr_current_peer r = current ∧ (∀ p, next = Some p → rr_next_peer r = p)
    ∧ ch_max_hops (rr_chain r) ≤ max ∧ relay_depth (rr_chain r) ≤ max.
Proof.
  intros Hu. unfold validate_at, travelable, signed. rewrite !exec_bind_Ok. split.
  - intros ([] & Hs%relay_validate_shape_Ok & Hrun); [|done].
    apply exec_bind_Ok in Hrun as ([] & Hd%validate_deadline_Ok & Hrun). inv_step Hrun.
    repeat match goal with
           | H : _ || _ = false |- _ => apply orb_false_iff in H as [? ?]
           | H : (_ <? _) = false |- _ => apply Z.ltb_ge in H
           | H : bool_decide (_ ≠ _) = false |- _ => apply bool_decide_eq_false, dec_stable in H
           | H : str_is_empty _ = false |- _ => apply str_is_empty_false in H
           end.
    split_and!; try done; try tauto. intros p ->.
    by match goal with H : bool_decide _ = false |- _ => apply bool_decide_eq_false, dec_stable in H end.
  - intros ((Hs & Hd1 & Hd2) & (Ho & Hh) & Hc & Hn & Hm & Hl). exists ().
    split; [by apply relay_validate_shape_Ok|]. rewrite (proj2 (validate_deadline_Ok now r)), exec_bind_ret by done.
    rewrite !reject_if_false.
    + apply reject_if_Ok, orb_false_iff. by rewrite !str_is_empty_false.
    + by rewrite orb_false_iff, !Z.ltb_ge.
    + apply orb_false_iff. split; [by apply bool_decide_eq_false_2; intros []|].
      destruct next as [p|]; [|done]. apply bool_decide_eq_false_2. by intros []; apply Hn.
Qed.

(** What the peer that validates for its own identity asks of the record. *)
Lemma validate_self_Ok now r :
  usize_ok r →
  validate_at now (rr_current_peer r) None (ch_max_hops (rr_chain r)) r = Ok () ↔ travelable now r ∧ signed r.
Proof.
  intros Hu. rewrite validate_at_Ok by done. split; [tauto|]. intros [Hl Hs].
  do 3 (split; [done|]). split; [by intros ? [=]|]. split; [done|]. apply Hl.
Qed.

Lemma relay_shape_total r : total (relay_validate_shape r).
Proof. unfold relay_validate_shape, chain_validate, validate_hop. total. Qed.
Lemma validate_at_total now current max r : total (validate_at now current None max r).
Proof.
  unfold validate_at, validate_deadline. apply total_bind; [apply relay_shape_total|intros _]. total.
Qed.

(** ** The chain grows by a hop *)
Definition peer_hop (agent : string) (now : Z) : RelayHop := MkHop agent now (Some now) (Some 0).

Lemma contains_agent_true c a : chain_contains_agent c a = true ↔ a ∈ agents c.
Proof.
  unfold chain_contains_agent, agents. rewrite any_true, list_elem_of_fmap. split.
  - intros (h & Hin & <-%bool_decide_eq_true). by exists h.
  - intros (h & -> & Hin). exists h. by rewrite bool_decide_eq_true.
Qed.
Lemma contains_agent_false c a : chain_contains_agent c a = false ↔ a ∉ agents c.
Proof. by rewrite <-not_true_iff_false, contains_agent_true. Qed.

Definition may_add (c : RelayChain) (a : string) : Prop :=
  ch_max_hops c ≠ 0 ∧ ch_max_hops c ≤ RELAY_MAX_HOPS ∧ relay_depth c < ch_max_hops c
  ∧ bad_identity a = false ∧ a ∉ agents c.

Lemma peer_hop_time a now : time_reversed (peer_hop a now) = false.
Proof. unfold time_reversed. cbn. by rewrite Z.ltb_irrefl. Qed.

Lemma add_peer_hop_run a now c :
  match add_peer_hop a now c with
  | (c', Ok _) => may_add c a ∧ c' = MkChain (ch_hops c ++ [peer_hop a now]) (ch_max_hops c)
  | (c', Err _) => c' = c ∧ ¬ may_add c a
  | (_, Panic) | (_, Hang) => False
  end.
Proof.
  unfold add_peer_hop, add_hop. fold (peer_hop a now). unfold mbind, op_mbind, op_bind, get, lift, modify.
  cbn [hp_agent_id peer_hop]. unfold may_add, relay_depth.
  destruct (_ || _ || _) eqn:Hroom; cbn [reject_if].
  { split; [done|]. intros (Hm & Hmax & Hd & _). revert Hroom. apply not_true_iff_false.
    rewrite !orb_false_iff, Z.eqb_neq, Z.ltb_ge, Z.leb_gt. lia. }
  rewrite !orb_false_iff, Z.eqb_neq, Z.ltb_ge, Z.leb_gt in Hroom.
  destruct (bad_identity a) eqn:Ha; cbn [reject_if]; [split; [done|by intros (_ & _ & _ & ? & _)]|].
  destruct (chain_contains_agent c a) eqn:Hin; cbn [reject_if].
  { split; [done|]. intros (_ & _ & _ & _ & Hn). by apply Hn, contains_agent_true. }
  change (time_reversed _) with (time_reversed (peer_hop a now)). rewrite peer_hop_time. cbn [reject_if].
  split; [|done]. apply contains_agent_false in Hin. tauto.
Qed.

Lemma relay_chain_ok_add c a now :
  relay_chain_ok c → may_add c a → relay_chain_ok (MkChain (ch_hops c ++ [peer_hop a now]) (ch_max_hops c)).
Proof.
  intros [Hm Hd Hall Hnd] (_ & _ & Hroom & Ha & Hin). unfold relay_depth, vec_len in *.
  split; cbn [ch_hops ch_max_hops]; unfold relay_depth, vec_len, agents in *; cbn [ch_hops].
  - done.
  - rewrite length_app. cbn. lia.
  - apply Forall_app. split; [done|]. apply Forall_singleton. split; [done|apply peer_hop_time].
  - rewrite fmap_app. apply NoDup_app. split; [done|]. split; [|apply NoDup_singleton].
    intros x Hx ->%list_elem_of_singleton. done.
Qed.

(** ** What the code relies on *)
Class RelayCodecLaws `{RelayCodec} : Prop := {
  hex_bytes_text b : hex_bytes (hex_text b) = Some b;
  hex_text_len b : str_len (hex_text b) = 2 * str_len b;
  base64_bytes_text b : base64_bytes (base64_text b) = Some b;
  base64_text_len b : str_len b ≤ str_len (base64_text b) ≤ 2 * str_len b;
  origin_json_Ok v : ∃ bytes, origin_json v = Ok bytes;
  hop_json_Ok r : ∃ bytes, hop_json r = Ok bytes;
  record_json_Ok r : ∃ bytes, record_json r = Ok bytes ∧ bytes ≠ "";
  record_of_json_total bytes : total (record_of_json bytes);
}.
Class RelayCryptoLaws `{RelayCrypto} `{Ed25519Laws} : Prop := {
  hmac_len k m : str_len (hmac_sha256 k m) = 32;
  verifying_key_ok k : public_key_ok (verifying_key k) = true;
  verifying_key_strong k : public_key_weak (verifying_key k) = false;
  verify_strict_sign k m : ed25519_verify_strict (verifying_key k) m (ed25519_sign k m) = true;
}.

Section moves.
Context `{RelayCodec} `{RelayCrypto} `{EL : Ed25519Laws} `{Sha256} `{!RelayCodecLaws} `{!RelayCryptoLaws}.

Definition hop_signature (key : string) (r : RelayRecordV1) (signature : string) : Prop :=
  key ≠ "" ∧ ∃ bytes, hop_json (set_rr_hop_signature "" r) = Ok bytes
    ∧ signature = hex_text (hmac_sha256 key bytes).

Lemma sign_hop_run key r :
  match sign_hop key r with
  | Ok signature => hop_signature key r signature
  | Err _ => key = ""
  | Panic | Hang => False
  end.
Proof.
  unfold sign_hop, hop_bytes, relay_sign, hop_signature.
  destruct (hop_json_Ok (set_rr_hop_signature "" r)) as [bytes ->]. cbn [malformed_json].
  rewrite exec_bind_ret. destruct (str_is_empty key) eqn:Ek.
  - by apply str_is_empty_true in Ek.
  - apply str_is_empty_false in Ek. split; [done|]. by exists bytes.
Qed.

Lemma sign_hop_Ok key r signature : sign_hop key r = Ok signature ↔ hop_signature key r signature.
Proof.
  pose proof (sign_hop_run key r) as Hr. split; [by intros Hs; rewrite Hs in Hr|].
  intros (Hk & bytes & Hb & ->). destruct (sign_hop key r); try done.
  destruct Hr as (_ & bytes' & Hb' & ->). congruence.
Qed.

Lemma hop_signature_len key r signature : hop_signature key r signature → str_len signature = 64.
Proof. intros (_ & bytes & _ & ->). by rewrite hex_text_len, hmac_len. Qed.

(** *** Forwarding *)
Definition extended (lp : string) (now : Z) (c : RelayChain) : RelayChain :=
  MkChain (ch_hops c ++ [peer_hop lp now]) (ch_max_hops c).

Definition forwarded (lp np : string) (now : Z) (key : string) (r r' : RelayRecordV1) : Prop :=
  travelable now r ∧ signed r ∧ lp = rr_next_peer r ∧ may_add (rr_chain r) lp
  ∧ np ∉ agents (extended lp now (rr_chain r)) ∧ bad_identity np = false
  ∧ ∃ signature, r' = set_rr_hop_signature signature (set_rr_route lp np (extended lp now (rr_chain r)) r)
      ∧ hop_signature key (set_rr_route lp np (extended lp now (rr_chain r)) r) signature.

Lemma relay_ok_identity r np :
  relay_ok r → bad_identity np = false → Forall (λ id, bad_identity id.2 = false) (relay_identities r) →
  ∀ cp, bad_identity cp = false →
  Forall (λ id, bad_identity id.2 = false) (relay_identities (set_rr_route cp np (rr_chain r) r)).
Proof. intros _ Hnp Hid cp Hcp. unfold relay_identities in *. rewrite !Forall_cons in *. cbn in *. tauto. Qed.

Lemma routed_ok r lp np now :
  usize_ok r → relay_ok r → may_add (rr_chain r) lp →
  relay_validate_shape (set_rr_route lp np (extended lp now (rr_chain r)) r) = Ok ()
  ↔ bad_identity np = false.
Proof.
  intros Hu Hok Hadd. rewrite relay_validate_shape_Ok by done. split.
  - intros [_ _ Hid _ _ _ _]. unfold relay_identities in Hid. rewrite !Forall_cons in Hid. cbn in Hid. tauto.
  - intros Hnp. pose proof Hok as [Hd Hv Hid Hs Hc Hcur Hor].
    split; [done|done| |done| | |]; cbn [rr_chain set_rr_route rr_current_peer rr_origin].
    + apply (relay_ok_identity r); [done..|]. apply Hadd.
    + by apply relay_chain_ok_add.
    + unfold extended. cbn [ch_hops]. by rewrite last_snoc.
    + unfold extended, chain_origin in *. cbn [ch_hops]. by destruct (ch_hops (rr_chain r)).
Qed.

Lemma forward_from_run lp np now key r :
  usize_ok r →
  match forward_from lp np now key r with
  | (r', Ok _) => forwarded lp np now key r r'
  | (r', Err _) => r' = r ∧ ¬ ∃ r'', forwarded lp np now key r r''
  | (_, Panic) | (_, Hang) => False
  end.
Proof.
  intros Hu. unfold forward_from, forwarded. unfold mbind, op_mbind, op_bind, get, lift, modify.
  pose proof (validate_self_Ok now r Hu) as Hself. pose proof (validate_at_total now (rr_current_peer r) (ch_max_hops (rr_chain r)) r) as Hvt.
  destruct (validate_at now _ None _ r) as [[]|e| |]; try done.
  2: { split; [done|]. intros (r'' & Hl & Hs & _). by discriminate (proj2 Hself (conj Hl Hs)). }
  destruct (proj1 Hself eq_refl) as [Hlive Hsigned].
  destruct (decide (lp = rr_next_peer r)) as [Hlp|Hlp].
  2: { rewrite bool_decide_eq_true_2 by done. cbn. split; [done|]. by intros (? & _ & _ & ? & _). }
  rewrite (bool_decide_eq_false_2 (_ ≠ _)) by tauto. cbn [reject_if].
  pose proof (add_peer_hop_run lp now (rr_chain r)) as Hadd.
  destruct (add_peer_hop lp now (rr_chain r)) as [c' [[]|e| |]]; try done.
  2: { split; [done|]. destruct Hadd as [_ Hn]. by intros (? & _ & _ & _ & ? & _). }
  destruct Hadd as [Hadd ->]. fold (extended lp now (rr_chain r)).
  destruct (chain_contains_agent (extended lp now (rr_chain r)) np) eqn:Hin; cbn [reject_if].
  { apply contains_agent_true in Hin. split; [done|]. by intros (? & _ & _ & _ & _ & ? & _). }
  apply contains_agent_false in Hin.
  pose proof (routed_ok r lp np now Hu (proj1 Hlive) Hadd) as Hshape.
  pose proof (relay_shape_total (set_rr_route lp np (extended lp now (rr_chain r)) r)) as Hst.
  destruct (relay_validate_shape _) as [[]|e| |]; try done.
  2: { split; [done|]. intros (? & _ & _ & _ & _ & _ & Hnp & _). by discriminate (proj2 Hshape Hnp). }
  pose proof (proj1 Hshape eq_refl) as Hnp.
  pose proof (sign_hop_run key (set_rr_route lp np (extended lp now (rr_chain r)) r)) as Hsig.
  destruct (sign_hop key _) as [signature|e| |]; try done.
  - do 6 (split; [done|]). by exists signature.
  - split; [done|]. by intros (? & _ & _ & _ & _ & _ & _ & ? & _ & Hk & _).
Qed.

(** *** Routing at the origin *)
Definition rerouted (np : string) (now : Z) (public_key key : string) (r r' : RelayRecordV1) : Prop :=
  travelable now r ∧ signed r ∧ rr_current_peer r = rr_origin r ∧ verify_origin public_key r = Ok ()
  ∧ relay_depth (rr_chain r) = 1 ∧ np ∉ agents (rr_chain r) ∧ bad_identity np = false
  ∧ ∃ signature, r' = set_rr_hop_signature signature (set_rr_route (rr_current_peer r) np (rr_chain r) r)
      ∧ hop_signature key (set_rr_route (rr_current_peer r) np (rr_chain r) r) signature.

Lemma origin_bytes_total r : total (origin_bytes r).
Proof.
  unfold origin_bytes. apply total_bind; [unfold origin_view; total|intros v].
  by destruct (origin_json_Ok v) as [b ->].
Qed.

Lemma verify_origin_total key r : total (verify_origin key r).
Proof.
  pose proof (origin_bytes_total r). unfold verify_origin, decode_origin_key, decode_hex. total.
Qed.

Lemma same_route_ok r np :
  usize_ok r → relay_ok r →
  relay_validate_shape (set_rr_route (rr_current_peer r) np (rr_chain r) r) = Ok () ↔ bad_identity np = false.
Proof.
  intros Hu Hok. rewrite relay_validate_shape_Ok by done. split.
  - intros [_ _ Hid _ _ _ _]. unfold relay_identities in Hid. rewrite !Forall_cons in Hid. cbn in Hid. tauto.
  - intros Hnp. pose proof Hok as [Hd Hv Hid Hs Hc Hcur Hor]. split; [done|done| |done..].
    apply (relay_ok_identity r); [done..|]. unfold relay_identities in Hid.
    rewrite !Forall_cons in Hid. cbn in Hid. tauto.
Qed.

Lemma route_from_origin_run np now public_key key r :
  usize_ok r →
  match route_from_origin np now public_key key r with
  | (r', Ok _) => rerouted np now public_key key r r'
  | (r', Err _) => r' = r ∧ ¬ ∃ r'', rerouted np now public_key key r r''
  | (_, Panic) | (_, Hang) => False
  end.
Proof.
  intros Hu. unfold route_from_origin, rerouted. unfold mbind, op_mbind, op_bind, get, lift, modify.
  destruct (decide (rr_current_peer r = rr_origin r)) as [Hcur|Hcur].
  2: { pose proof (validate_at_Ok now (rr_origin r) None (ch_max_hops (rr_chain r)) r Hu) as Hv.
       pose proof (validate_at_total now (rr_origin r) (ch_max_hops (rr_chain r)) r) as Hvt.
       destruct (validate_at now (rr_origin r) None _ r) as [[]|e| |]; try done.
       - destruct (proj1 Hv eq_refl) as (_ & _ & ? & _). done.
       - split; [done|]. by intros (? & _ & _ & ? & _). }
  rewrite <-Hcur. pose proof (validate_self_Ok now r Hu) as Hself. pose proof (validate_at_total now (rr_current_peer r) (ch_max_hops (rr_chain r)) r) as Hvt.
  destruct (validate_at now _ None _ r) as [[]|e| |]; try done.
  2: { split; [done|]. intros (r'' & Hl & Hs & _). by discriminate (proj2 Hself (conj Hl Hs)). }
  destruct (proj1 Hself eq_refl) as [Hlive Hsigned].
  pose proof (verify_origin_total public_key r) as Hot.
  destruct (verify_origin public_key r) as [[]|e| |] eqn:Ho; try done.
  2: { split; [done|]. by intros (? & _ & _ & _ & ? & _). }
  destruct (Z.eqb_spec (relay_depth (rr_chain r)) 1) as [Hd|Hd]; cbn [negb reject_if].
  2: { split; [done|]. by intros (? & _ & _ & _ & _ & ? & _). }
  cbn [rr_chain set_rr_route]. destruct (chain_contains_agent (rr_chain r) np) eqn:Hin; cbn [reject_if].
  { apply contains_agent_true in Hin. split; [done|]. by intros (? & _ & _ & _ & _ & _ & ? & _). }
  apply contains_agent_false in Hin.
  pose proof (same_route_ok r np Hu (proj1 Hlive)) as Hshape.
  pose proof (relay_shape_total (set_rr_route (rr_current_peer r) np (rr_chain r) r)) as Hst.
  destruct (relay_validate_shape _) as [[]|e| |]; try done.
  2: { split; [done|]. intros (? & _ & _ & _ & _ & _ & _ & Hnp & _). by discriminate (proj2 Hshape Hnp). }
  pose proof (proj1 Hshape eq_refl) as Hnp.
  pose proof (sign_hop_run key (set_rr_route (rr_current_peer r) np (rr_chain r) r)) as Hsig.
  destruct (sign_hop key _) as [signature|e| |]; try done.
  - do 7 (split; [done|]). by exists signature.
  - split; [done|]. by intros (? & _ & _ & _ & _ & _ & _ & _ & ? & _ & Hk & _).
Qed.

(** *** Verification *)
Lemma xor_difference_0 xs ys d :
  String.length xs = String.length ys → xor_difference xs ys d = 0 ↔ d = 0 ∧ xs = ys.
Proof.
  revert ys d. induction xs as [|a xs IH]; intros [|b ys] d Hl; try done; cbn; [tauto|].
  injection Hl as Hl. rewrite IH, Z.lor_eq_0_iff, Z.lxor_eq_0_iff by done. split.
  - intros [[-> Hab] ->]. split; [done|]. f_equal. unfold byte_val in Hab. apply N2Z.inj in Hab.
    by rewrite <-(Ascii.ascii_N_embedding a), Hab, Ascii.ascii_N_embedding.
  - intros [-> [= -> ->]]. done.
Qed.

Lemma constant_time_eq_true a b : constant_time_eq a b = true ↔ a = b.
Proof.
  unfold constant_time_eq, str_len. rewrite andb_true_iff, !Z.eqb_eq. split.
  - intros [Hl%Nat2Z.inj Hx]. by apply (xor_difference_0 a b 0) in Hx as [_ ?].
  - intros ->. split; [done|]. by apply xor_difference_0.
Qed.

Lemma verify_signature_refl b : relay_verify_signature (hex_text b) (hex_text b) = Ok ().
Proof.
  unfold relay_verify_signature, decode_hex. rewrite hex_bytes_text. cbn [ok_or]. rewrite !exec_bind_ret.
  apply reject_if_Ok. rewrite Z.eqb_refl. cbn [negb orb]. by rewrite (proj2 (constant_time_eq_true b b)).
Qed.

(** A signature made for a record verifies on that record. *)
Lemma hop_verifies key r signature :
  hop_signature key r signature → verify_hop key (set_rr_hop_signature signature r) = Ok ().
Proof.
  intros Hs. unfold verify_hop. change (sign_hop key (set_rr_hop_signature signature r)) with (sign_hop key r).
  rewrite (proj2 (sign_hop_Ok key r signature) Hs), exec_bind_ret.
  destruct Hs as (_ & bytes & _ & ->). apply verify_signature_refl.
Qed.

(** The origin's check reads the origin view and the origin's signature. *)
Lemma verify_origin_same key r r' :
  origin_view r' = origin_view r → rr_origin_signature r' = rr_origin_signature r →
  verify_origin key r' = verify_origin key r.
Proof. intros Hv Hs. unfold verify_origin, origin_bytes. by rewrite Hv, Hs. Qed.

Lemma origin_view_signatures o h r : origin_view (set_rr_signatures o h r) = origin_view r.
Proof. done. Qed.

Lemma extended_view cp np lp now r :
  ch_hops (rr_chain r) ≠ [] →
  origin_view (set_rr_route cp np (extended lp now (rr_chain r)) r) = origin_view r.
Proof.
  intros Hne. unfold origin_view, extended. cbn [rr_chain set_rr_route ch_hops ch_max_hops].
  by destruct (ch_hops (rr_chain r)).
Qed.

(** *** A new record *)
Lemma decode_origin_key_verifying k : decode_origin_key (hex_text (verifying_key k)) = Ok (verifying_key k).
Proof.
  unfold decode_origin_key, decode_hex. rewrite hex_bytes_text. cbn [ok_or].
  rewrite reject_if_false by by rewrite hex_text_len, verifying_key_len.
  rewrite exec_bind_ret, reject_if_false by by rewrite verifying_key_len.
  rewrite reject_if_false by by rewrite verifying_key_ok.
  by rewrite reject_if_false by apply verifying_key_strong.
Qed.

Lemma verify_origin_intro raw r kb sb bytes :
  decode_origin_key raw = Ok kb → str_len (rr_origin_signature r) = 128 →
  hex_bytes (rr_origin_signature r) = Some sb → str_len sb = 64 → origin_bytes r = Ok bytes →
  ed25519_verify_strict kb bytes sb = true → verify_origin raw r = Ok ().
Proof.
  intros Hk Hl Hs Hsl Hb Hv. unfold verify_origin, decode_hex.
  rewrite Hk, exec_bind_ret, reject_if_false by by rewrite Hl.
  rewrite Hs. cbn [ok_or]. rewrite exec_bind_ret, reject_if_false by by rewrite Hsl.
  by rewrite Hb, exec_bind_ret, Hv.
Qed.

Lemma new_signed_Ok id origin recipient tenant project kind class expires max now key channel payload r :
  0 ≤ max →
  new_signed id origin recipient tenant project kind class expires max now key channel payload = Ok r →
  usize_ok r ∧ relay_ok r ∧ verify_origin (hex_text (verifying_key key)) r = Ok ()
  ∧ verify_payload payload r = Ok () ∧ verify_hop channel r = Ok ()
  ∧ validate_at now origin (Some recipient) max r = Ok () ∧ rr_final_recipient r = recipient.
Proof.
  intros Hmax. unfold new_signed.
  pose proof (add_peer_hop_run origin now (chain_new max)) as Hadd.
  destruct (add_peer_hop origin now (chain_new max)) as [chain [[]|e| |]]; try done.
  destruct Hadd as [Hadd ->]. rewrite exec_bind_ret. cbn [chain_new ch_hops ch_max_hops app].
  set (base := MkRelay _ _ _ _ _ _ _ _ _ _ _ _ _ _ _). intros Hrun.
  assert (usize_ok base) as Hu by done.
  apply exec_bind_Ok in Hrun as ([] & Hok%relay_validate_shape_Ok & Hrun); [|done].
  apply exec_bind_Ok in Hrun as ([] & Hdl%validate_deadline_Ok & Hrun).
  apply exec_bind_Ok in Hrun as (osig & Hos & Hrun).
  apply exec_bind_Ok in Hrun as (hsig & Hhs%sign_hop_Ok & [= <-]).
  unfold sign_origin in Hos. apply exec_bind_Ok in Hos as (bytes & Hb & [= <-]).
  set (r := set_rr_signatures (hex_text (ed25519_sign key bytes)) hsig base).
  assert (str_len (hex_text (ed25519_sign key bytes)) = 128) as Hol
    by by rewrite hex_text_len, ed25519_sign_len.
  assert (str_len hsig = 64) as Hhl by by apply (hop_signature_len channel _ _ Hhs).
  assert (relay_ok r) as Hrok.
  { destruct Hok as [Hd Hv Hid _ Hc Hcur Hor]. split; try done.
    cbn [r rr_origin_signature rr_hop_signature set_rr_signatures]. rewrite Hol, Hhl. by vm_compute. }
  split; [done|]. split; [done|]. split; [|split; [|split; [|split; [|done]]]].
  - apply (verify_origin_intro _ _ (verifying_key key) (ed25519_sign key bytes) bytes); try done.
    + apply decode_origin_key_verifying.
    + apply hex_bytes_text.
    + apply ed25519_sign_len.
    + apply verify_strict_sign.
  - apply reject_if_Ok. apply bool_decide_eq_false_2. intros Hn. by apply Hn.
  - apply (hop_verifies channel (set_rr_signatures (hex_text (ed25519_sign key bytes)) "" base) hsig Hhs).
  - apply validate_at_Ok; [done|]. split; [split; [done|exact Hdl]|]. split.
    { split; [intros E; cbn in E; rewrite E in Hol|intros E; cbn in E; rewrite E in Hhl]; done. }
    split; [done|]. split; [by intros p [= <-]|]. split; [done|].
    destruct Hrok as [_ _ _ _ [_ [_ Hle] _ _] _ _]. done.
Qed.

(** *** Journeys *)

(** A record after any successful routings and [n] forwardings, by whichever
    peers, at whatever times and with whatever keys. *)
Inductive travels : nat → RelayRecordV1 → RelayRecordV1 → Prop :=
| travels_none r : travels 0 r r
| travels_route n r r1 r2 np now public_key key :
    travels n r r1 → route_from_origin np now public_key key r1 = (r2, Ok ()) → travels n r r2
| travels_forward n r r1 r2 lp np now key :
    travels n r r1 → forward_from lp np now key r1 = (r2, Ok ()) → travels (S n) r r2.

(** What a journey of [n] hops leaves as it was, and what it adds. *)
Record journey (n : nat) (r r' : RelayRecordV1) : Prop := {
  jn_usize : usize_ok r';
  jn_shape : relay_ok r';
  jn_view : origin_view r' = origin_view r;
  jn_signature : rr_origin_signature r' = rr_origin_signature r;
  jn_payload : rr_payload_sha256 r' = rr_payload_sha256 r;
  jn_recipient : rr_final_recipient r' = rr_final_recipient r;
  jn_max : ch_max_hops (rr_chain r') = ch_max_hops (rr_chain r);
  jn_path : ∃ path, agents (rr_chain r') = agents (rr_chain r) ++ path ∧ length path = n;
}.

Lemma relay_ok_signature r signature :
  relay_ok r → str_len signature = 64 → relay_ok (set_rr_hop_signature signature r).
Proof.
  intros [Hd Hv Hid [Hs1 Hs2] Hc Hcur Hor] Hl. split; try done. split; [done|].
  cbn [rr_hop_signature set_rr_hop_signature set_rr_signatures]. rewrite Hl. by vm_compute.
Qed.

Lemma chain_nonempty r : relay_ok r → ch_hops (rr_chain r) ≠ [].
Proof. intros [_ _ _ _ [_ [Hd _] _ _] _ _] E. unfold relay_depth in Hd. by rewrite E in Hd. Qed.

Lemma travels_journey n r r' : usize_ok r → relay_ok r → travels n r r' → journey n r r'.
Proof.
  intros Hu Hok. induction 1 as [r|n r r1 r2 np now pk key _ IH Hrun|n r r1 r2 lp np now key _ IH Hrun].
  - split; try done. exists []. by rewrite app_nil_r.
  - destruct (IH Hu Hok) as [Hu1 Hok1 Hv Hs Hp Hf Hm Hpath].
    pose proof (route_from_origin_run np now pk key r1 Hu1) as Hr. rewrite Hrun in Hr.
    destruct Hr as (_ & _ & _ & _ & _ & _ & Hnp & signature & -> & Hsig).
    assert (relay_ok (set_rr_route (rr_current_peer r1) np (rr_chain r1) r1)) as Hok2.
    { apply relay_validate_shape_Ok; [done|]. by apply same_route_ok. }
    split; try done. by apply relay_ok_signature, (hop_signature_len key _ _ Hsig).
  - destruct (IH Hu Hok) as [Hu1 Hok1 Hv Hs Hp Hf Hm (path & Hpath & Hn)].
    pose proof (forward_from_run lp np now key r1 Hu1) as Hr. rewrite Hrun in Hr.
    destruct Hr as (_ & _ & _ & Hadd & _ & Hnp & signature & -> & Hsig).
    assert (relay_ok (set_rr_route lp np (extended lp now (rr_chain r1)) r1)) as Hok2.
    { apply relay_validate_shape_Ok; [done|]. by apply routed_ok. }
    split; try done.
    + by apply relay_ok_signature, (hop_signature_len key _ _ Hsig).
    + rewrite <-Hv. by apply (extended_view lp np lp now), chain_nonempty.
    + exists (path ++ [lp]). rewrite length_app, Hn. split; [|cbn; lia].
      unfold agents, extended in *. cbn. by rewrite fmap_app, Hpath, <-app_assoc.
Qed.

Lemma agents_length c : Z.of_nat (length (agents c)) = relay_depth c.
Proof. unfold agents, relay_depth, vec_len. by rewrite length_fmap. Qed.

(** A journey visits each peer once, and is short. *)
Lemma journey_bounds n r r' :
  journey n r r' → NoDup (agents (rr_chain r')) ∧ relay_depth (rr_chain r') = relay_depth (rr_chain r) + Z.of_nat n
    ∧ relay_depth (rr_chain r') ≤ ch_max_hops (rr_chain r) ≤ RELAY_MAX_HOPS.
Proof.
  intros [_ [_ _ _ _ [Hmax [_ Hd] _ Hnd] _ _] _ _ _ _ Hm (path & Hp & <-)].
  split; [done|]. rewrite <-!agents_length in *. rewrite Hp, length_app in *. rewrite Hm in *. lia.
Qed.
End moves.

(** C8: relaying terminates and does not loop: a record whose shape was accepted,
    however it is routed and forwarded afterwards, by anyone, at any time, with
    any keys, keeps an accepted shape, passes each peer once, and is forwarded at
    most as often as its hop limit, at most 16, still allows. *)
Theorem relay_does_not_loop `{RelayCodec, RelayCrypto, EL : Ed25519Laws, Sha256, !RelayCodecLaws, !RelayCryptoLaws}
    n r r' :
  usize_ok r → relay_validate_shape r = Ok () → travels n r r' →
  relay_validate_shape r' = Ok () ∧ NoDup (agents (rr_chain r'))
  ∧ (∃ path, agents (rr_chain r') = agents (rr_chain r) ++ path ∧ length path = n)
  ∧ Z.of_nat n ≤ ch_max_hops (rr_chain r) - relay_depth (rr_chain r) ≤ RELAY_MAX_HOPS - 1.
Proof.
  intros Hu Hok%relay_validate_shape_Ok Ht; [|done].
  pose proof (travels_journey _ _ _ Hu Hok Ht) as Hj.
  destruct (journey_bounds _ _ _ Hj) as (Hnd & Hn & Hmax). destruct Hj as [Hu' Hok' _ _ _ _ _ Hpath].
  split; [by apply relay_validate_shape_Ok|]. split; [done|]. split; [done|].
  destruct Hok as [_ _ _ _ [_ [Hd _] _ _] _ _]. lia.
Qed.

(** C35: a record made by [new_signed] is authentic wherever it arrives: after any
    journey it verifies under the origin's public key and for the payload it was
    made for, still names its final recipient, and the peer that moved it last
    can be checked with the key it used. *)
Theorem relayed_record_verifies `{RelayCodec, RelayCrypto, EL : Ed25519Laws, Sha256, !RelayCodecLaws, !RelayCryptoLaws}
    id origin recipient tenant project kind class expires max now key channel payload r n r1 r2 lp np now' hop_key :
  0 ≤ max →
  new_signed id origin recipient tenant project kind class expires max now key channel payload = Ok r →
  travels n r r1 → forward_from lp np now' hop_key r1 = (r2, Ok ()) →
  verify_origin (hex_text (verifying_key key)) r2 = Ok () ∧ verify_payload payload r2 = Ok ()
  ∧ verify_hop hop_key r2 = Ok () ∧ rr_final_recipient r2 = recipient ∧ rr_current_peer r2 = lp
  ∧ verify_hop channel r = Ok () ∧ validate_at now origin (Some recipient) max r = Ok ().
Proof.
  intros Hmax Hnew Ht Hf.
  destruct (new_signed_Ok _ _ _ _ _ _ _ _ _ _ _ _ _ _ Hmax Hnew) as (Hu & Hok & Hvo & Hvp & Hvh & Hat & Hrec).
  pose proof (travels_journey _ _ _ Hu Hok (travels_forward _ _ _ _ _ _ _ _ Ht Hf))
    as [Hu2 Hok2 Hv Hs Hp Hfr _ _].
  pose proof (travels_journey _ _ _ Hu Hok Ht) as [Hu1 _ _ _ _ _ _ _].
  pose proof (forward_from_run lp np now' hop_key r1 Hu1) as Hr. rewrite Hf in Hr.
  destruct Hr as (_ & _ & Hlp & _ & _ & _ & signature & E & Hsig).
  split; [by rewrite (verify_origin_same _ r r2)|].
  split; [unfold verify_payload in *; by rewrite Hp|].
  split; [rewrite E; by apply hop_verifies|].
  split; [by rewrite Hfr|]. split; [by rewrite E|]. done.
Qed.

(** The metadata field is a faithful and canonical carrier: what
    [encode_metadata] wrote is read back as the same record, when [serde_json]
    reads back what it wrote for it; and a text that is accepted is the very text
    the record is written as, so no record has two accepted spellings. *)
Theorem metadata_roundtrip `{RelayCodec, !RelayCodecLaws} r value :
  (∀ bytes, record_json r = Ok bytes → record_of_json bytes = Ok r) →
  encode_metadata r = Ok value ↔ decode_metadata value = Ok r.
Proof.
  intros Hjson. split.
  - intros Henc. pose proof Henc as Hrun. unfold encode_metadata in Hrun.
    apply exec_bind_Ok in Hrun as ([] & Hshape & Hrun).
    apply exec_bind_Ok in Hrun as (bytes & Hb & Hrun).
    apply exec_bind_Ok in Hrun as ([] & Hlen%reject_if_Ok%Z.ltb_ge & [= <-]).
    destruct (record_json_Ok r) as (bytes' & Hrec & Hne). rewrite Hrec in Hb. injection Hb as ->.
    pose proof (base64_text_len bytes). apply str_is_empty_false in Hne. unfold str_is_empty in Hne.
    apply Z.eqb_neq in Hne. pose proof (str_len_nonneg bytes).
    unfold decode_metadata. rewrite reject_if_false.
    2: { apply orb_false_iff. unfold str_is_empty. rewrite Z.eqb_neq, Z.ltb_ge. lia. }
    rewrite base64_bytes_text. cbn [ok_or]. rewrite exec_bind_ret, reject_if_false by by apply Z.ltb_ge.
    rewrite (Hjson bytes Hrec), exec_bind_ret, Hshape, exec_bind_ret, Henc, exec_bind_ret.
    rewrite reject_if_false; [done|]. apply bool_decide_eq_false_2. intros Hn. by apply Hn.
  - intros Hdec. unfold decode_metadata in Hdec.
    apply exec_bind_Ok in Hdec as ([] & _ & Hdec). apply exec_bind_Ok in Hdec as (bytes & _ & Hdec).
    apply exec_bind_Ok in Hdec as ([] & _ & Hdec). apply exec_bind_Ok in Hdec as (r' & _ & Hdec).
    apply exec_bind_Ok in Hdec as ([] & _ & Hdec). apply exec_bind_Ok in Hdec as (again & He & Hdec).
    apply exec_bind_Ok in Hdec as ([] & Heq%reject_if_Ok & [= ->]).
    by apply bool_decide_eq_false, dec_stable in Heq as ->.
Qed.

(** [reject_shared_secret] accepts a peer table exactly when no two peers
    share a channel key and no two share a bearer token. *)
Theorem secrets_distinct t :
  table_reject_shared_secret t = Ok () ↔
    NoDup (rp_channel_key <$> pt_peers t) ∧ NoDup (rp_bearer_token <$> pt_peers t).
Proof.
  unfold table_reject_shared_secret. rewrite reject_if_Ok.
  induction (pt_peers t) as [|p ps IH]; cbn [shared_secret fmap list_fmap].
  { split; [|done]. by split; constructor. }
  rewrite orb_false_iff, IH, !NoDup_cons, <-not_true_iff_false, any_true.
  assert ((¬ ∃ x, x ∈ ps ∧ bool_decide (rp_channel_key p = rp_channel_key x)
             || bool_decide (rp_bearer_token p = rp_bearer_token x) = true)
    ↔ rp_channel_key p ∉ rp_channel_key <$> ps ∧ rp_bearer_token p ∉ rp_bearer_token <$> ps) as ->; [|tauto].
  rewrite !list_elem_of_fmap. setoid_rewrite orb_true_iff. setoid_rewrite bool_decide_eq_true.
  split; [intros Hn; split; intros (x & ? & ?); apply Hn; exists x; tauto|].
  intros [Hk Ht] (x & Hx & [E|E]); [apply Hk|apply Ht]; by exists x.
Qed.

(** ** A concrete relay *)
Definition sample_record : RelayRecordV1 :=
  MkRelay 1 (pad_hex 64 "") "d-1" "lead" "worker" "lead" "worker" "tenant" "project" A2ATask Internal
    (seconds 60) (MkChain [peer_hop "lead" 0] 3) "00" "00".
Definition sample_codec : RelayCodec := {|
  hex_text := hex_encode;
  hex_bytes text := match hex_decode text with Ok bytes => Some bytes | _ => None end;
  base64_text := hex_encode;
  base64_bytes text := match hex_decode text with Ok bytes => Some bytes | _ => None end;
  origin_json v := Ok (ov_delivery_id v);
  hop_json r := Ok (rr_next_peer r);
  record_json _ := Ok "{}";
  record_of_json _ := Ok sample_record;
|}.
Definition sample_crypto : RelayCrypto := {|
  hmac_sha256 key bytes := pad_hex 32 (key +:+ bytes);
  public_key_ok _ := true;
  public_key_weak _ := false;
  ed25519_verify_strict key bytes signature := bool_decide (signature = pad_hex 64 (key +:+ bytes));
|}.
Lemma sample_codec_laws : @RelayCodecLaws sample_codec.
Proof.
  split; cbn; try (intros b; destruct (hex_encode_decode b) as (Hd & Hl & _)).
  - by rewrite Hd.
  - done.
  - by rewrite Hd.
  - pose proof (str_len_nonneg b). lia.
  - intros v. by eexists.
  - intros r. by eexists.
  - intros r. by eexists.
  - done.
Qed.
#[local] Existing Instance sample_codec.
#[local] Existing Instance sample_codec_laws.
#[local] Existing Instance sample_crypto.
#[local] Existing Instance sample_ed25519.
#[local] Existing Instance sample_ed25519_laws.
#[local] Existing Instance sample_sha256.
#[local] Instance sample_crypto_laws : RelayCryptoLaws.
Proof.
  split; [intros k m; apply (pad_hex_len 32)|done|done|]. intros k m. by apply bool_decide_eq_true_2.
Qed.

Definition sample_signed : relay RelayRecordV1 :=
  new_signed "d-1" "lead" "worker" "tenant" "project" A2ATask Internal (seconds 60) 3 0
    ("a" : SigningKey) "channel" "payload".
Definition sample_sent : RelayRecordV1 := match sample_signed with Ok r => r | _ => sample_record end.
Definition sample_routed : RelayRecordV1 * relay () :=
  route_from_origin "gateway" 1 (hex_text (verifying_key ("a" : SigningKey))) "channel" sample_sent.
Definition sample_forwarded : RelayRecordV1 * relay () :=
  forward_from "gateway" "worker" 2 "hop-key" (sample_routed.1).

Lemma run_ok {S E} (x : S * exec E ()) : x.2 = Ok () → x = (x.1, Ok ()).
Proof. destruct x. by intros [= ->]. Qed.

Lemma sample_routes : sample_routed = (sample_routed.1, Ok ()).
Proof. apply run_ok. by vm_compute. Qed.
Lemma sample_forwards : sample_forwarded = (sample_forwarded.1, Ok ()).
Proof. apply run_ok. by vm_compute. Qed.
Lemma sample_signs : sample_signed = Ok sample_sent.
Proof.
  assert (match sample_signed with Ok _ => True | _ => False end) as Hok by by vm_compute.
  unfold sample_sent. by destruct sample_signed.
Qed.

Lemma sample_travels_routed : travels 0 sample_sent sample_routed.1.
Proof.
  exact (travels_route 0 _ sample_sent _ "gateway" 1 (hex_text (verifying_key ("a" : SigningKey))) "channel"
    (travels_none _) sample_routes).
Qed.
Lemma sample_travels_forwarded : travels 1 sample_sent sample_forwarded.1.
Proof.
  exact (travels_forward 0 _ sample_routed.1 _ "gateway" "worker" 2 "hop-key" sample_travels_routed
    sample_forwards).
Qed.

Lemma relay_does_not_loop_witness :
  relay_validate_shape sample_sent = Ok ()
  ∧ relay_validate_shape sample_forwarded.1 = Ok ()
  ∧ agents (rr_chain sample_forwarded.1) = ["lead"; "gateway"]
  ∧ NoDup (agents (rr_chain sample_forwarded.1)).
Proof.
  assert (relay_validate_shape sample_sent = Ok ()) as Hs by by vm_compute.
  split; [exact Hs|].
  assert (usize_ok sample_sent) as Hu by by vm_compute.
  destruct (relay_does_not_loop 1 sample_sent sample_forwarded.1 Hu Hs
    sample_travels_forwarded) as (Hs' & Hnd & _).
  split; [exact Hs'|]. split; [by vm_compute|exact Hnd].
Defined.

Lemma relayed_record_verifies_witness :
  verify_origin (hex_text (verifying_key ("a" : SigningKey))) sample_forwarded.1 = Ok ()
  ∧ verify_payload "payload" sample_forwarded.1 = Ok () ∧ verify_hop "hop-key" sample_forwarded.1 = Ok ()
  ∧ rr_final_recipient sample_forwarded.1 = "worker" ∧ rr_current_peer sample_forwarded.1 = "gateway"
  ∧ verify_hop "channel" sample_sent = Ok ()
  ∧ validate_at 0 "lead" (Some "worker") 3 sample_sent = Ok ().
Proof.
  exact (relayed_record_verifies "d-1" "lead" "worker" "tenant" "project" A2ATask Internal (seconds 60) 3 0
    ("a" : SigningKey) "channel" "payload" sample_sent 0 sample_routed.1 sample_forwarded.1 "gateway" "worker"
    2 "hop-key" ltac:(lia) sample_signs sample_travels_routed sample_forwards).
Defined.

Lemma metadata_roundtrip_witness :
  encode_metadata sample_record = Ok (hex_encode "{}")
  ∧ (encode_metadata sample_record = Ok (hex_encode "{}")
     ↔ decode_metadata (hex_encode "{}") = Ok sample_record).
Proof.
  split; [by vm_compute|]. apply (metadata_roundtrip sample_record (hex_encode "{}")). done.
Defined.
