(* ===== verification/TaskResponse.v ===== *)
(** * Signed status replies

    [rust/src/core/a2a/task_response.rs]: the status of a task is sent back under
    a signature of the receiver's, bound to the digest of the request.  Reading a
    stored private key is a parameter. *)
From S2P Require Import Prelude BTree Text Hashing Hex GraphModel TaskModel TaskAuthority TaskStore.
#[local] Open Scope Z_scope.

Definition RESPONSE_DOMAIN : string := "leanctx.a2a.task.status.response.sig.v1" +:+ NUL.
Definition MAX_RESPONSE_BYTES : Z := 64 * 1024.
Definition RESPONSE_SECONDS : Z := 60.

Inductive InvalidTaskResponse := InvalidResponse.
Notation response := (exec InvalidTaskResponse).

Record SignedTaskStatusV1 := MkSignedStatus {
  sg_schema_version : Z;
  sg_sender : string;
  sg_recipient : string;
  sg_tenant_id : string;
  sg_project_id : string;
  sg_task_id : string;
  sg_request_digest : string;
  sg_status : TaskStatusV1;
  sg_issued_at : Z;
  sg_expires_at : Z;
  sg_key_id : string;
  sg_signature : string;
}.
Definition set_sg_signature (x : string) (r : SignedTaskStatusV1) : SignedTaskStatusV1 :=
  MkSignedStatus (sg_schema_version r) (sg_sender r) (sg_recipient r) (sg_tenant_id r) (sg_project_id r)
    (sg_task_id r) (sg_request_digest r) (sg_status r) (sg_issued_at r) (sg_expires_at r) (sg_key_id r) x.

(** [canonical_serialize] of a reply, and [serde_json::from_str]. *)
Class ReplyJson := {
  canonical_reply : SignedTaskStatusV1 → string;
  parse_reply : string → option SignedTaskStatusV1;
}.

Definition validate_response_peer (peer : TaskPeerTrustV1) (request : TaskControlDescriptorV1)
    (issued_at expires_at now : Z) : response () :=
  reject_if (pr_revoked peer || bool_decide (pr_agent_id peer ≠ cd_recipient request)
             || (now <? pr_not_before peer) || (issued_at <? pr_not_before peer)
             || (pr_expires_at peer <=? now) || (pr_expires_at peer <? expires_at)
             || negb (any (λ action, bool_decide (action = cd_action request)) (pr_allowed_actions peer))
             || negb (any (λ scope, bool_decide (sc_tenant_id scope = cd_tenant_id request)
                                    && bool_decide (sc_project_id scope = cd_project_id request))
                          (pr_allowed_scopes peer)))
    InvalidResponse.

Section reply.
Context `{CanonicalJson} `{Ed25519} `{Sha256} `{ReplyJson} `{Chrono}.

(** [SignedTaskStatusV1::signing_bytes] *)
Definition reply_signing_bytes (r : SignedTaskStatusV1) : string :=
  RESPONSE_DOMAIN +:+ canonical_reply (set_sg_signature "" r).

Definition validate_binding (r : SignedTaskStatusV1) (request : TaskControlDescriptorV1) (now : Z) :
    response () :=
  map_err (λ _, InvalidResponse) (control_validate_shape request);;
  let skew := seconds RESPONSE_SECONDS in
  reject_if (negb (sg_schema_version r =? 1)
             || negb (ts_schema_version (sg_status r) =? TASK_STATUS_VERSION)
             || bool_decide (sg_sender r ≠ cd_recipient request)
             || bool_decide (sg_recipient r ≠ cd_sender request)
             || bool_decide (sg_tenant_id r ≠ cd_tenant_id request)
             || bool_decide (sg_project_id r ≠ cd_project_id request)
             || bool_decide (sg_task_id r ≠ cd_task_id request)
             || bool_decide (sg_request_digest r ≠ control_content_digest request)
             || str_is_empty (sg_key_id r) || (256 <? str_len (sg_key_id r))
             || (sg_expires_at r <=? sg_issued_at r) || (cd_expires_at request <? sg_expires_at r)
             || (skew <? sg_expires_at r - sg_issued_at r) || (sg_expires_at r <=? now)
             || (skew <? sg_issued_at r - now) || (skew <? cd_issued_at request - sg_issued_at r)
             || (skew <? ts_timestamp (sg_status r) - sg_issued_at r)
             || (MAX_RESPONSE_BYTES <? str_len (reply_signing_bytes r)))
    InvalidResponse.

(** [now.checked_add_signed(duration)] *)
Definition checked_add_signed (now duration : Z) : option Z :=
  if (utc_min <=? now + duration) && (now + duration <=? utc_max) then Some (now + duration) else None.

Definition sign_status_until (request : TaskControlDescriptorV1) (status : TaskStatusV1)
    (key_id : string) (now not_after : Z) (sign : string → exec string string) :
    response SignedTaskStatusV1 :=
  deadline ← ok_or (checked_add_signed now (seconds RESPONSE_SECONDS)) InvalidResponse;
  let reply := MkSignedStatus 1 (cd_recipient request) (cd_sender request) (cd_tenant_id request)
    (cd_project_id request) (cd_task_id request) (control_content_digest request) status now
    (Z.min (Z.min deadline (cd_expires_at request)) not_after) key_id "" in
  validate_binding reply request now;;
  signature ← map_err (λ _, InvalidResponse) (sign (reply_signing_bytes reply));
  reject_if (negb (str_len signature =? 64)) InvalidResponse;;
  Ok (set_sg_signature (hex_encode signature) reply).

Definition sign_status_with (request : TaskControlDescriptorV1) (status : TaskStatusV1)
    (key_id : string) (now : Z) (sign : string → exec string string) : response SignedTaskStatusV1 :=
  sign_status_until request status key_id now (cd_expires_at request) sign.

Definition sign_status (request : TaskControlDescriptorV1) (status : TaskStatusV1) (key_id : string)
    (key : SigningKey) (now : Z) : response SignedTaskStatusV1 :=
  sign_status_with request status key_id now (λ bytes, Ok (ed25519_sign key bytes)).

(** [SignedTaskStatusV1::from_json] *)
Definition reply_from_json (raw : string) : response SignedTaskStatusV1 :=
  reject_if (MAX_RESPONSE_BYTES <? str_len raw) InvalidResponse;;
  ok_or (parse_reply raw) InvalidResponse.

(** [SignedTaskStatusV1::verify] *)
Definition reply_verify (r : SignedTaskStatusV1) (request : TaskControlDescriptorV1)
    (policy : TaskAuthorityConfigV1) (now : Z) : response () :=
  reject_if (negb (str_len (sg_signature r) =? 128)
             || negb (all_bytes is_ascii_hexdigit (sg_signature r))) InvalidResponse;;
  validate_binding r request now;;
  map_err (λ _, InvalidResponse) (config_validate policy);;
  peer ← ok_or (find_first (λ peer, bool_decide (pr_key_id peer = sg_key_id r)) (ac_peers policy))
           InvalidResponse;
  validate_response_peer peer request (sg_issued_at r) (sg_expires_at r) now;;
  public_key ← map_err (λ _, InvalidResponse) (hex_decode (pr_public_key peer));
  signature ← map_err (λ _, InvalidResponse) (hex_decode (sg_signature r));
  reject_if (negb (verify_signature public_key (reply_signing_bytes r) signature)) InvalidResponse.

(** ** The receiver's signer *)
Record AdmittedStatusSigner := MkSigner {
  as_request : TaskControlDescriptorV1;
  as_peer : TaskPeerTrustV1;
  as_key : SigningKey;
}.

(** [AdmittedStatusSigner::existing]; [stored] is [get_stored_signing_key]. *)
Definition signer_existing (stored : string → exec string SigningKey)
    (request : TaskControlDescriptorV1) (policy : TaskAuthorityConfigV1)
    (expected : TaskAuthorityExpectationV1) : response AdmittedStatusSigner :=
  map_err (λ _, InvalidResponse) (control_verify_authority request policy expected);;
  key ← map_err (λ _, InvalidResponse) (stored (ex_recipient expected));
  peer ← ok_or (find_first (λ peer, bool_decide (pr_agent_id peer = ex_recipient expected)
                   && match hex_decode (pr_public_key peer) with
                      | Ok bytes => bool_decide (bytes = verifying_key key)
                      | _ => false
                      end) (ac_peers policy)) InvalidResponse;
  validate_response_peer peer request (ex_now expected) (ex_now expected) (ex_now expected);;
  Ok (MkSigner request peer key).

(** [AdmittedStatusSigner::sign] *)
Definition signer_sign (s : AdmittedStatusSigner) (status : TaskStatusV1) (now : Z) :
    response SignedTaskStatusV1 :=
  reply ← sign_status_until (as_request s) status (pr_key_id (as_peer s)) now (pr_expires_at (as_peer s))
            (λ bytes, Ok (ed25519_sign (as_key s) bytes));
  validate_response_peer (as_peer s) (as_request s) (sg_issued_at reply) (sg_expires_at reply) now;;
  Ok reply.
End reply.
