(* ===== verification/TaskReceive.v ===== *)
(** * Receiving a remote task or control request

    [accept_remote_task] of [rust/crates/lean-ctx/src/http_server/handlers.rs] and
    [accept] of [http_server/task_control.rs]: the request is authorized, then
    the stored tasks are read or changed, and every outcome has a status code.

    The reply is the status code and what the JSON body says.  [serde_json] and
    the resolution of the store's path are parameters; the audit record of a
    refused request is not modelled. *)
From S2P Require Import Prelude BTree Text Hashing Hex GraphModel TaskModel TaskAuthority TaskStore.
From S2P Require Import TaskControl TaskResponse Relay.
#[local] Open Scope Z_scope.

Inductive Body :=
| BodyError (code : string)
| BodyRefused (code reason : string)
| BodyTask (duplicate : bool) (task_id : string)
| BodyStatus (reply : SignedTaskStatusV1).
Record Reply := MkReply { rp_status : Z; rp_body : Body }.

(** [http::StatusCode] *)
Definition OK : Z := 200.
Definition BAD_REQUEST : Z := 400.
Definition UNAUTHORIZED : Z := 401.
Definition NOT_FOUND : Z := 404.
Definition CONFLICT : Z := 409.
Definition PAYLOAD_TOO_LARGE : Z := 413.
Definition UNPROCESSABLE_ENTITY : Z := 422.
Definition INTERNAL_SERVER_ERROR : Z := 500.
Definition SERVICE_UNAVAILABLE : Z := 503.

(** [error(status, code)] *)
Definition error (status : Z) (code : string) : Reply := MkReply status (BodyError code).

(** The fields of [AppState] the two functions read. *)
Record AppState := MkAppState {
  ap_recipient_id : option string;
  ap_tenant_id : option string;
  ap_project_id : option string;
  ap_task_authority : TaskAuthorityConfigV1;
}.

(** The two fields of the transport envelope that matter here. *)
Record Envelope := MkEnvelope { ev_payload_json : string; ev_sender : string }.

Class RequestJson := {
  parse_control : string → option TaskControlDescriptorV1;
  parse_task : string → option TaskDescriptorV1;
  (** Whether [serde_json::to_value] gives a value for a signed status. *)
  reply_serializes : SignedTaskStatusV1 → bool;
}.

(** What the surroundings answer during one request: the instants the clock is
    read at, a fresh identifier, whether the store's path resolves, the stored
    keys, and the file system. *)
Record World `{Ed25519} := MkWorld {
  wd_entry : Z;
  wd_ledger : Z;
  wd_task : Z;
  wd_reply : Z;
  wd_uuid : string;
  wd_path : bool;
  wd_stored : string → exec string SigningKey;
  wd_env : Env;
}.
Arguments MkWorld {_}.

(** [task_text_withheld] *)
Definition task_text_withheld (e : IoError) : bool :=
  match io_kind e with PermissionDenied => negb (is_some (io_raw_os_error e)) | _ => false end.

Section receive.
Context `{CanonicalJson} `{Ed25519} `{Sha256} `{Gateway} `{Chrono} `{ReplyJson} `{RequestJson}.
Context {Content : Type} `{StoreFile Content}.

(** How [accept] answers a failed operation. *)
Definition control_failure (e : TaskControlError) : Reply :=
  match e with
  | Authority _ => error UNAUTHORIZED "unauthorized_task_authority"
  | NotFound => error NOT_FOUND "task_not_found"
  | ControlInvalidTransition => error CONFLICT "invalid_task_transition"
  | Storage _ => error INTERNAL_SERVER_ERROR "task_storage_unavailable"
  end.

(** [accept] of [task_control.rs] *)
Definition accept_control (world : World) (state : AppState) (request : TaskControlDescriptorV1)
    (expected : TaskAuthorityExpectationV1) : op (option Content) Reply Reply :=
  lift (reject_if (bool_decide (ap_recipient_id state ≠ Some (ex_recipient expected)))
          (error SERVICE_UNAVAILABLE "task_response_identity_mismatch"));;
  let policy := ap_task_authority state in
  lift (map_err (λ _, error UNAUTHORIZED "unauthorized_task_authority")
          (control_verify_authority request policy expected));;
  signer ← lift (map_err (λ _, error SERVICE_UNAVAILABLE "task_response_signer_unavailable")
                   (signer_existing (wd_stored world) request policy expected));
  lift (reject_if (negb (wd_path world)) (error INTERNAL_SERVER_ERROR "task_storage_unavailable"));;
  status ← (if bool_decide (cd_action request = TASK_ACTION_GET) then
              file ← get;
              lift (map_err control_failure (get_status (wd_env world) request policy expected file))
            else if bool_decide (cd_action request = TASK_ACTION_CANCEL) then
              op_map_err control_failure (cancel (wd_env world) (wd_task world) request policy expected)
            else lift (Err (error BAD_REQUEST "invalid_task_control")));
  reply ← lift (map_err (λ _, error SERVICE_UNAVAILABLE "task_response_signer_unavailable")
                  (signer_sign signer status (wd_reply world)));
  lift (reject_if (negb (reply_serializes reply))
          (error INTERNAL_SERVER_ERROR "task_response_unavailable"));;
  mret (MkReply OK (BodyStatus reply)).

(** How a failed materialization is answered. *)
Definition delivery_failure (e : IoError) : Reply :=
  match io_kind e with
  | AlreadyExists => error CONFLICT "idempotency_key_conflict"
  | _ => if task_text_withheld e then error UNPROCESSABLE_ENTITY "task_text_withheld"
         else error INTERNAL_SERVER_ERROR "task_persist_failed"
  end.

Definition or_else (first second : option string) : option string :=
  match first with Some x => Some x | None => second end.

(** What the receiver expects of the request: the route of the relay record when
    there is one, its own configuration otherwise. *)
Definition expectation (world : World) (state : AppState) (envelope : Envelope)
    (relay_record : option RelayRecordV1) : option TaskAuthorityExpectationV1 :=
  recipient ← or_else (rr_final_recipient <$> relay_record) (ap_recipient_id state);
  tenant_id ← or_else (rr_tenant_id <$> relay_record) (ap_tenant_id state);
  project_id ← or_else (rr_project_id <$> relay_record) (ap_project_id state);
  Some (MkExpectation (default (ev_sender envelope) (rr_origin <$> relay_record)) recipient tenant_id
          project_id (wd_entry world)).

(** [accept_remote_task] *)
Definition accept_remote_task (world : World) (state : AppState) (envelope : Envelope)
    (relay_record : option RelayRecordV1) : op (option Content) Reply Reply :=
  lift (reject_if (MAX_TASK_DESCRIPTOR_BYTES <? str_len (ev_payload_json envelope))
          (error PAYLOAD_TOO_LARGE "task_descriptor_too_large"));;
  expected ← lift (ok_or (expectation world state envelope relay_record)
                     (error SERVICE_UNAVAILABLE "task_authority_not_configured"));
  lift (reject_if (vec_len (ac_peers (ap_task_authority state)) =? 0)
          (error SERVICE_UNAVAILABLE "task_authority_not_configured"));;
  match parse_control (ev_payload_json envelope) with
  | Some request => accept_control world state request expected
  | None =>
      descriptor ← lift (ok_or (parse_task (ev_payload_json envelope))
                           (error BAD_REQUEST "invalid_task_descriptor"));
      lift (map_err (λ e, MkReply UNAUTHORIZED
                            (BodyRefused "unauthorized_task_authority" (TaskAuthorityError_fmt e)))
              (descriptor_verify_authority descriptor (ap_task_authority state) expected));;
      lift (reject_if (negb (wd_path world)) (error INTERNAL_SERVER_ERROR "task_storage_unavailable"));;
      result ← op_map_err delivery_failure
                 (materialize_remote_task (wd_env world) (wd_uuid world) (wd_ledger world) (wd_task world)
                    descriptor);
      mret (MkReply OK (BodyTask (mt_duplicate result) (mt_task_id result)))
  end.
End receive.
