(* ===== verification/TaskResponseFacts.v ===== *)
(** * A signed status reply verifies, and for its request only *)
From S2P Require Import Prelude Wp BTree Text Hashing Hex GraphModel TaskModel TaskAuthority.
From S2P Require Import TaskAuthorityFacts TaskStore TaskFacts TaskStoreFacts TaskControlFacts.
From S2P Require Import TaskResponse.
#[local] Open Scope Z_scope.

Section reply.
Context `{CanonicalJson} `{EL : Ed25519Laws} `{Sha256} `{ReplyJson} `{Chrono}.

(** A binding holds from the signing until the reply expires. *)
Lemma validate_binding_later r request now now' signature :
  validate_binding r request now = Ok () → now ≤ now' < sg_expires_at r →
  validate_binding (set_sg_signature signature r) request now' = Ok ().
Proof.
  unfold validate_binding. rewrite !exec_bind_Ok. intros ([] & Hs & Hr%reject_if_Ok) Hnow.
  exists (). split; [done|]. apply reject_if_Ok. revert Hr.
  change (reply_signing_bytes (set_sg_signature signature r)) with (reply_signing_bytes r).
  cbn [sg_schema_version sg_status sg_sender sg_recipient sg_tenant_id sg_project_id sg_task_id
    sg_request_digest sg_key_id sg_expires_at sg_issued_at set_sg_signature].
  rewrite !orb_false_iff, !Z.leb_gt, !Z.ltb_ge. intros Hr. destruct_and!. split_and!; try done; lia.
Qed.

Lemma validate_response_peer_later peer request issued expires now now' :
  validate_response_peer peer request issued expires now = Ok () → now ≤ now' < expires →
  validate_response_peer peer request issued expires now' = Ok ().
Proof.
  unfold validate_response_peer. intros Hr%reject_if_Ok Hnow. apply reject_if_Ok. revert Hr.
  rewrite !orb_false_iff, !Z.leb_gt, !Z.ltb_ge. intros Hr. destruct_and!. split_and!; try done; lia.
Qed.

Lemma sign_status_until_Ok request status key_id now not_after sign reply :
  sign_status_until request status key_id now not_after sign = Ok reply →
  ∃ base signature, validate_binding base request now = Ok () ∧ sign (reply_signing_bytes base) = Ok signature
    ∧ str_len signature = 64 ∧ reply = set_sg_signature (hex_encode signature) base
    ∧ sg_issued_at base = now ∧ sg_key_id base = key_id ∧ sg_status base = status
    ∧ sg_expires_at base ≤ now + seconds RESPONSE_SECONDS ∧ sg_expires_at base ≤ not_after.
Proof.
  unfold sign_status_until. intros Hrun.
  apply exec_bind_Ok in Hrun as (deadline & Hd%ok_or_Ok & Hrun).
  apply exec_bind_Ok in Hrun as ([] & Hb & Hrun).
  apply exec_bind_Ok in Hrun as (signature & Hs%map_err_Ok & Hrun).
  apply exec_bind_Ok in Hrun as ([] & Hl%reject_if_Ok%negb_false_iff%Z.eqb_eq & [= <-]).
  eexists _, signature. split; [exact Hb|]. split; [exact Hs|]. split; [done|]. split; [done|].
  cbn [sg_issued_at sg_key_id sg_status sg_expires_at]. do 3 (split; [done|]).
  unfold checked_add_signed in Hd. case_match; simplify_eq. lia.
Qed.

Lemma map_err_hex {A} (x : exec string A) a :
  x = Ok a → map_err (λ _, InvalidResponse) x = Ok a.
Proof. by intros ->. Qed.

Lemma signer_existing_Ok stored request policy expected s :
  signer_existing stored request policy expected = Ok s →
  control_verify_authority request policy expected = Ok () ∧ as_request s = request
  ∧ stored (ex_recipient expected) = Ok (as_key s) ∧ as_peer s ∈ ac_peers policy
  ∧ pr_agent_id (as_peer s) = ex_recipient expected
  ∧ hex_decode (pr_public_key (as_peer s)) = Ok (verifying_key (as_key s))
  ∧ validate_response_peer (as_peer s) request (ex_now expected) (ex_now expected) (ex_now expected) = Ok ().
Proof.
  unfold signer_existing. intros Hrun.
  apply exec_bind_Ok in Hrun as ([] & Ha%map_err_Ok & Hrun).
  apply exec_bind_Ok in Hrun as (key & Hk%map_err_Ok & Hrun).
  apply exec_bind_Ok in Hrun as (peer & Hp%ok_or_Ok & Hrun).
  apply exec_bind_Ok in Hrun as ([] & Hv & [= <-]).
  apply find_first_Some in Hp as [Hin [Hid%bool_decide_eq_true Hpk]%andb_true_iff].
  do 5 (split; [done|]). split; [|done]. cbn [as_key as_peer].
  destruct (hex_decode (pr_public_key peer)); try done. by apply bool_decide_eq_true in Hpk as ->.
Qed.

(** What a signer signed verifies for whoever trusts the signer's peer entry. *)
Lemma signer_sign_verifies stored request policy expected s status now reply policy' now' :
  signer_existing stored request policy expected = Ok s → signer_sign s status now = Ok reply →
  config_validate policy' = Ok () → as_peer s ∈ ac_peers policy' → now ≤ now' < sg_expires_at reply →
  reply_verify reply request policy' now' = Ok ().
Proof.
  intros (_ & Hreq & _ & _ & _ & Hpk & _)%signer_existing_Ok Hsign Hpol Hin Hnow.
  unfold signer_sign in Hsign. rewrite Hreq in Hsign.
  apply exec_bind_Ok in Hsign as (reply' & Hsu%sign_status_until_Ok & Hsign).
  apply exec_bind_Ok in Hsign as ([] & Hvp & [= ->]).
  destruct Hsu as (base & signature & Hb & [= <-] & Hl & -> & Hiss & Hkid & _).
  change (sg_issued_at (set_sg_signature ?x base)) with (sg_issued_at base) in *.
  change (sg_expires_at (set_sg_signature ?x base)) with (sg_expires_at base) in *.
  set (sig := ed25519_sign (as_key s) (reply_signing_bytes base)) in *.
  destruct (hex_encode_decode sig) as (Hdec & Hlen & Hdig).
  unfold reply_verify. rewrite reject_if_false.
  2: { cbn [sg_signature set_sg_signature]. rewrite Hlen, Hl.
       by rewrite (lower_hex_hexdigit _ Hdig). }
  rewrite (validate_binding_later base request now now' _ Hb Hnow), exec_bind_ret, Hpol.
  cbn [map_err]. rewrite exec_bind_ret.
  change (sg_key_id (set_sg_signature (hex_encode sig) base)) with (sg_key_id base). rewrite Hkid.
  assert (find_first (λ peer, bool_decide (pr_key_id peer = pr_key_id (as_peer s))) (ac_peers policy')
    = Some (as_peer s)) as ->.
  { apply find_first_unique.
    - intros a b Ha Hb' Ea%bool_decide_eq_true Eb%bool_decide_eq_true.
      apply (config_peer_unique policy' a b); [done..|congruence].
    - by rewrite bool_decide_eq_true. }
  cbn [ok_or]. rewrite exec_bind_ret.
  change (sg_issued_at (set_sg_signature ?x base)) with (sg_issued_at base).
  change (sg_expires_at (set_sg_signature ?x base)) with (sg_expires_at base).
  rewrite (validate_response_peer_later _ _ _ _ now now' Hvp Hnow), exec_bind_ret.
  rewrite (map_err_hex _ _ Hpk), exec_bind_ret.
  change (sg_signature (set_sg_signature ?x base)) with x. rewrite (map_err_hex _ _ Hdec), exec_bind_ret.
  apply reject_if_Ok. unfold verify_signature. rewrite verifying_key_len, Hl.
  change (reply_signing_bytes (set_sg_signature ?x base)) with (reply_signing_bytes base).
  subst sig. by rewrite ed25519_verify_sign.
Qed.

(** What [verify] checked. *)
Lemma reply_binding r request policy now :
  reply_verify r request policy now = Ok () →
  control_validate_shape request = Ok () ∧ sg_sender r = cd_recipient request
  ∧ sg_recipient r = cd_sender request ∧ sg_task_id r = cd_task_id request
  ∧ now < sg_expires_at r ≤ cd_expires_at request
  ∧ sg_request_digest r = control_content_digest request
  ∧ ∃ peer key signature, peer ∈ ac_peers policy ∧ pr_agent_id peer = cd_recipient request
      ∧ pr_revoked peer = false ∧ pr_not_before peer ≤ now < pr_expires_at peer
      ∧ hex_decode (pr_public_key peer) = Ok key ∧ hex_decode (sg_signature r) = Ok signature
      ∧ ed25519_verify key (reply_signing_bytes r) signature = true.
Proof.
  unfold reply_verify. intros Hrun.
  apply exec_bind_Ok in Hrun as ([] & _ & Hrun).
  apply exec_bind_Ok in Hrun as ([] & Hb & Hrun).
  apply exec_bind_Ok in Hrun as ([] & _ & Hrun).
  apply exec_bind_Ok in Hrun as (peer & [Hin _]%ok_or_Ok%find_first_Some & Hrun).
  apply exec_bind_Ok in Hrun as ([] & Hp%reject_if_Ok & Hrun).
  apply exec_bind_Ok in Hrun as (key & Hk%map_err_Ok & Hrun).
  apply exec_bind_Ok in Hrun as (signature & Hs%map_err_Ok & Hr%reject_if_Ok%negb_false_iff).
  unfold validate_binding in Hb. apply exec_bind_Ok in Hb as ([] & Hsh%map_err_Ok & Hb%reject_if_Ok).
  rewrite !orb_false_iff, !Z.leb_gt, !Z.ltb_ge in Hb. rewrite !orb_false_iff, !Z.leb_gt, !Z.ltb_ge in Hp.
  unfold verify_signature in Hr. rewrite !andb_true_iff in Hr. destruct_and!.
  repeat match goal with Hn : bool_decide (_ ≠ _) = false |- _ => apply bool_decide_eq_false, dec_stable in Hn end.
  split_and!; try done. exists peer, key, signature. by split_and!.
Qed.
End reply.

(** An answer of the receiver is accepted by the sender: what the admitted
    signer signed verifies, until it expires, for the request it answers, under
    every valid policy that lists the signer's entry. *)
Theorem signed_reply_verifies `{CanonicalJson, EL : Ed25519Laws, Sha256, ReplyJson, Chrono}
    stored request policy expected s status now reply policy' now' :
  signer_existing stored request policy expected = Ok s → signer_sign s status now = Ok reply →
  config_validate policy' = Ok () → as_peer s ∈ ac_peers policy' → now ≤ now' < sg_expires_at reply →
  reply_verify reply request policy' now' = Ok ()
  ∧ sg_status reply = status ∧ sg_request_digest reply = control_content_digest request.
Proof.
  intros He Hs Hp Hin Hnow.
  pose proof (signer_sign_verifies stored request policy expected s status now reply policy' now'
    He Hs Hp Hin Hnow) as Hv.
  split; [done|]. apply signer_existing_Ok in He as (_ & Hreq & _). split.
  - unfold signer_sign in Hs. apply exec_bind_Ok in Hs as (r & Hsu%sign_status_until_Ok & Hs).
    apply exec_bind_Ok in Hs as ([] & _ & [= ->]).
    by destruct Hsu as (base & sig & _ & _ & _ & -> & _ & _ & <- & _).
  - by apply reply_binding in Hv as (_ & _ & _ & _ & _ & Hd & _).
Qed.

(** A status reply is bound to one request and one signer: when [verify]
    accepts it, it names the request's parties, scope and task, carries the
    request's digest, is current, and was signed by the live peer of the policy
    that is the request's recipient; so a reply to an earlier request is accepted
    for a later one only if the two have the same digest. *)
Theorem reply_verify_spec `{CanonicalJson, Ed25519, Sha256, ReplyJson, Chrono} r request policy now :
  reply_verify r request policy now = Ok () →
  control_validate_shape request = Ok () ∧ sg_sender r = cd_recipient request
  ∧ sg_recipient r = cd_sender request ∧ sg_task_id r = cd_task_id request
  ∧ sg_request_digest r = control_content_digest request ∧ now < sg_expires_at r ≤ cd_expires_at request
  ∧ (∃ peer key signature, peer ∈ ac_peers policy ∧ pr_agent_id peer = cd_recipient request
      ∧ pr_revoked peer = false ∧ pr_not_before peer ≤ now < pr_expires_at peer
      ∧ hex_decode (pr_public_key peer) = Ok key ∧ hex_decode (sg_signature r) = Ok signature
      ∧ ed25519_verify key (reply_signing_bytes r) signature = true)
  ∧ ∀ request' now', reply_verify r request' policy now' = Ok () →
      control_content_digest request' = control_content_digest request.
Proof.
  intros Hv. destruct (reply_binding _ _ _ _ Hv) as (Hsh & Hs & Hr & Ht & Hnow & Hd & Hpeer).
  do 6 (split; [done|]). split; [done|].
  intros request' now' (_ & _ & _ & _ & _ & Hd' & _)%reply_binding. congruence.
Qed.

(** ** A concrete reply *)
#[local] Existing Instance sample_authority_json.
#[local] Existing Instance sample_ed25519.
#[local] Existing Instance sample_ed25519_laws.
#[local] Existing Instance sample_sha256.
#[local] Existing Instance sample_chrono.
#[export] Instance sample_reply_json : ReplyJson :=
  {| canonical_reply := sg_request_digest; parse_reply _ := None |}.

Definition receiver_key : SigningKey := "b".
Definition receiver_peer : TaskPeerTrustV1 :=
  MkPeer TASK_AUTHORITY_CONFIG_VERSION "server-key" "worker" (hex_encode (verifying_key receiver_key))
    [TASK_ACTION_GET; TASK_ACTION_CANCEL] [MkScope TASK_AUTHORITY_CONFIG_VERSION "tenant" "project"]
    0 (seconds 3600) false.
Definition receiver_policy : TaskAuthorityConfigV1 :=
  MkAuthorityConfig TASK_AUTHORITY_CONFIG_VERSION [sample_peer; receiver_peer]
    [MkGrant TASK_AUTHORITY_CONFIG_VERSION ("grant-" +:+ TASK_ACTION_SEND) "key" TASK_ACTION_SEND "tenant"
       "project" 0 (seconds 200000) false;
     sample_grant TASK_ACTION_GET; sample_grant TASK_ACTION_CANCEL].
Definition receiver_store (agent : string) : exec string SigningKey :=
  if bool_decide (agent = "worker") then Ok receiver_key else Err "no key".
Definition sample_signer : response AdmittedStatusSigner :=
  signer_existing receiver_store (sample_control TASK_ACTION_GET) receiver_policy sample_expected.
Definition sample_status : TaskStatusV1 := MkTaskStatus TASK_STATUS_VERSION Working (seconds 5).
Definition admitted_signer : AdmittedStatusSigner :=
  match sample_signer with
  | Ok s => s
  | _ => MkSigner (sample_control TASK_ACTION_GET) receiver_peer receiver_key
  end.
Lemma sample_signer_admitted : sample_signer = Ok admitted_signer.
Proof.
  assert (match sample_signer with Ok _ => True | _ => False end) as Hok by by vm_compute.
  unfold admitted_signer. by destruct sample_signer.
Qed.
Definition sample_reply : response SignedTaskStatusV1 := signer_sign admitted_signer sample_status (seconds 11).
Definition sent_reply : SignedTaskStatusV1 :=
  match sample_reply with Ok r => r | _ => MkSignedStatus 0 "" "" "" "" "" "" sample_status 0 0 "" "" end.
Lemma sample_reply_sent : sample_reply = Ok sent_reply.
Proof.
  assert (match sample_reply with Ok _ => True | _ => False end) as Hok by by vm_compute.
  unfold sent_reply. by destruct sample_reply.
Qed.
Lemma signed_reply_verifies_witness :
  reply_verify sent_reply (sample_control TASK_ACTION_GET) receiver_policy (seconds 12) = Ok ()
  ∧ sg_status sent_reply = sample_status
  ∧ sg_request_digest sent_reply = control_content_digest (sample_control TASK_ACTION_GET).
Proof.
  refine (signed_reply_verifies receiver_store (sample_control TASK_ACTION_GET) receiver_policy
    sample_expected admitted_signer sample_status (seconds 11) sent_reply receiver_policy (seconds 12)
    sample_signer_admitted sample_reply_sent _ _ _).
  - by vm_compute.
  - exact (proj1 (proj2 (proj2 (proj2 (signer_existing_Ok receiver_store (sample_control TASK_ACTION_GET)
      receiver_policy sample_expected admitted_signer sample_signer_admitted))))).
  - by vm_compute.
Defined.

Lemma reply_verify_spec_witness :
  reply_verify sent_reply (sample_control TASK_ACTION_GET) receiver_policy (seconds 12) = Ok ()
  ∧ sg_task_id sent_reply = "task-1".
Proof.
  assert (reply_verify sent_reply (sample_control TASK_ACTION_GET) receiver_policy (seconds 12) = Ok ())
    as Hv by by vm_compute.
  split; [exact Hv|].
  exact (proj1 (proj2 (proj2 (proj2 (reply_verify_spec sent_reply (sample_control TASK_ACTION_GET)
    receiver_policy (seconds 12) Hv))))).
Defined.
