(* ===== verification/TaskReceiveFacts.v ===== *)
(** * What a received request can do

    Only authorized requests reach the store, every request is answered, and a
    delivered task is delivered once, across all requests served meanwhile. *)
From S2P Require Import Prelude Wp BTree Text Hashing Hex GraphModel TaskModel TaskAuthority.
From S2P Require Import TaskAuthorityFacts TaskStore TaskControl TaskFacts TaskStoreFacts.
From S2P Require Import TaskControlFacts.
From S2P Require Import TaskResponse TaskResponseFacts Relay TaskReceive.
#[local] Open Scope Z_scope.

Section receive.
Context `{CanonicalJson} `{ED : Ed25519} `{Sha256} `{Gateway} `{Chrono} `{ReplyJson} `{RequestJson}.
Context `{!GatewayTotal} {Content : Type} `{StoreFile Content} `{!StoreFileLaws Content}.

(** The surroundings: the clock is an instant from which the retention can be
    subtracted, and reading a key returns. *)
Definition world_ok (w : World) : Prop := clock_ok (wd_ledger w) ∧ ∀ agent, total (wd_stored w agent).

Lemma signer_existing_total stored request policy expected :
  (∀ agent, total (stored agent)) → total (signer_existing stored request policy expected).
Proof.
  intros Hs. unfold signer_existing. apply total_bind; [apply map_err_total, control_verify_total|intros _].
  apply total_bind; [apply map_err_total, Hs|intros key]. unfold validate_response_peer. total.
Qed.

Lemma signer_sign_total s status now : total (signer_sign s status now).
Proof.
  unfold signer_sign, sign_status_until, validate_binding, validate_response_peer.
  pose proof (control_shape_total (as_request s)) as Hc. total; by apply map_err_total.
Qed.

(** ** What became of the file *)
Definition sent (w : World) (state : AppState) (envelope : Envelope) (rr : option RelayRecordV1)
    (file file' : option Content) (m : RemoteTaskMaterialization) : Prop :=
  parse_control (ev_payload_json envelope) = None
  ∧ ∃ expected d, expectation w state envelope rr = Some expected
      ∧ parse_task (ev_payload_json envelope) = Some d
      ∧ descriptor_verify_authority d (ap_task_authority state) expected = Ok ()
      ∧ changed (wd_env w) (materialize (wd_uuid w) (wd_ledger w) (wd_task w) d) file file' m.

Definition canceled (w : World) (state : AppState) (envelope : Envelope) (rr : option RelayRecordV1)
    (file file' : option Content) : Prop :=
  ∃ expected request status, expectation w state envelope rr = Some expected
    ∧ parse_control (ev_payload_json envelope) = Some request
    ∧ request_authorized TASK_ACTION_CANCEL request (ap_task_authority state) expected
    ∧ canceled_file (wd_env w) (wd_task w) request file file' status.

Lemma accept_control_run w state request expected file :
  world_ok w →
  match accept_control w state request expected file with
  | (file', Ok reply) => (∃ status, rp_body reply = BodyStatus status)
      ∧ (file' = file
         ∨ request_authorized TASK_ACTION_CANCEL request (ap_task_authority state) expected
           ∧ ∃ status, canceled_file (wd_env w) (wd_task w) request file file' status)
  | (file', Err _) => file' = file
      ∨ request_authorized TASK_ACTION_CANCEL request (ap_task_authority state) expected
        ∧ ∃ status, canceled_file (wd_env w) (wd_task w) request file file' status
  | (_, Panic) | (_, Hang) => False
  end.
Proof.
  intros [_ Hst]. unfold accept_control. unfold mbind, op_mbind, op_bind, lift, get, mret, op_mret, op_map_err.
  destruct (bool_decide (ap_recipient_id state ≠ _)); cbn [reject_if]; [by left|].
  pose proof (control_verify_total request (ap_task_authority state) expected) as Hv.
  destruct (control_verify_authority request _ expected) as [[]|e| |]; cbn [map_err]; try done; [|by left].
  pose proof (signer_existing_total (wd_stored w) request (ap_task_authority state) expected Hst) as Hs.
  destruct (signer_existing _ request _ expected) as [signer|e| |]; cbn [map_err]; try done; [|by left].
  destruct (negb (wd_path w)); cbn [reject_if]; [by left|].
  destruct (bool_decide (cd_action request = TASK_ACTION_GET)).
  - pose proof (get_status_run (wd_env w) request (ap_task_authority state) expected file) as Hg.
    destruct (get_status _ request _ expected file) as [status|e| |]; cbn [map_err]; try done; [|by left].
    pose proof (signer_sign_total signer status (wd_reply w)) as Hr.
    destruct (signer_sign signer status (wd_reply w)) as [reply|e| |]; cbn [map_err]; try done; [|by left].
    destruct (negb (reply_serializes reply)); cbn [reject_if]; [by left|].
    split; [by exists reply|by left].
  - destruct (bool_decide (cd_action request = TASK_ACTION_CANCEL)); [|by left].
    pose proof (cancel_run (wd_env w) (wd_task w) request (ap_task_authority state) expected file) as Hc.
    destruct (cancel _ _ request _ expected file) as [file' [status|e| |]]; cbn [map_err]; try done.
    2: { destruct Hc as [->|(? & _ & ? & ?)]; [by left|right]. eauto. }
    pose proof (signer_sign_total signer status (wd_reply w)) as Hr.
    destruct (signer_sign signer status (wd_reply w)) as [reply|e| |]; cbn [map_err]; try done.
    + destruct (negb (reply_serializes reply)); cbn [reject_if]; [right; destruct Hc; eauto|].
      split; [by exists reply|]. right. destruct Hc. eauto.
    + right. destruct Hc. eauto.
Qed.

Lemma materialize_total uuid now task_now d s : clock_ok now → total (materialize uuid now task_now d s).2.
Proof.
  intros Hc. pose proof (materialize_run uuid now task_now d s Hc) as Hm.
  by destruct (materialize uuid now task_now d s) as [s' [m|e| |]].
Qed.

Lemma shape_total d : total (descriptor_validate_shape d).
Proof.
  unfold descriptor_validate_shape, grant_ref_validate, artifact_validate. total.
  apply check_entries_total; [intros r|intros r; done]. unfold artifact_validate. total.
Qed.

Lemma accept_run w state envelope rr file :
  world_ok w →
  match accept_remote_task w state envelope rr file with
  | (file', Ok reply) =>
      (∃ m, reply = MkReply OK (BodyTask (mt_duplicate m) (mt_task_id m)) ∧ sent w state envelope rr file file' m)
      ∨ (∃ status, rp_body reply = BodyStatus status) ∧ is_Some (parse_control (ev_payload_json envelope))
        ∧ (file' = file ∨ canceled w state envelope rr file file')
  | (file', Err _) => file' = file ∨ canceled w state envelope rr file file'
      ∨ ∃ m, sent w state envelope rr file file' m
  | (_, Panic) | (_, Hang) => False
  end.
Proof.
  intros Hw. unfold accept_remote_task. unfold mbind, op_mbind, op_bind, lift, mret, op_mret.
  destruct (MAX_TASK_DESCRIPTOR_BYTES <? _); cbn [reject_if]; [by left|].
  destruct (expectation w state envelope rr) as [expected|] eqn:Eex; cbn [ok_or]; [|by left].
  destruct (vec_len _ =? 0); cbn [reject_if]; [by left|].
  destruct (parse_control (ev_payload_json envelope)) as [request|] eqn:Epc.
  - pose proof (accept_control_run w state request expected file Hw) as Hc.
    destruct (accept_control w state request expected file) as [file' [reply|e| |]]; try done.
    + right. destruct Hc as [? Hc]. split; [done|]. split; [done|].
      destruct Hc as [->|(? & status & ?)]; [by left|right]. by exists expected, request, status.
    + destruct Hc as [->|(? & status & ?)]; [by left|right; left]. by exists expected, request, status.
  - destruct (parse_task (ev_payload_json envelope)) as [d|] eqn:Ept; cbn [ok_or]; [|by left].
    assert (total (descriptor_verify_authority d (ap_task_authority state) expected)) as Hvt.
    { unfold descriptor_verify_authority. apply total_bind; [apply shape_total|intros _; apply authorize_total]. }
    destruct (descriptor_verify_authority d _ expected) as [[]|e| |] eqn:Ev; cbn [map_err]; try done; [|by left].
    destruct (negb (wd_path w)); cbn [reject_if]; [by left|].
    unfold op_map_err, materialize_remote_task. unfold mbind, op_mbind, op_bind, lift.
    pose proof (shape_total d) as Hst.
    destruct (descriptor_validate_shape d) as [[]|e| |]; cbn [map_err]; try done; [|by left].
    pose proof (mutate_locked_run (wd_env w) id (materialize (wd_uuid w) (wd_ledger w) (wd_task w) d) file
      (λ s, materialize_total _ _ _ _ s (proj1 Hw))) as Hm.
    destruct (mutate_locked (wd_env w) id _ file) as [file' [m|e| |]]; cbn [map_err]; try done.
    + left. exists m. split; [done|]. split; [done|]. by exists expected, d.
    + destruct Hm as [->|(e' & m & _ & Hch)]; [by left|right; right]. exists m. split; [done|].
      by exists expected, d.
Qed.

(** ** The ledger across requests *)
Definition stored_as (file : option Content) (s : TaskStore) : Prop :=
  ∀ env, clear env → load_from_path env file = Ok s.

Lemma load_holds env file s : load_from_path env file = Ok s → stored_as file s.
Proof.
  intros Hl env' (_ & _ & Hr & _). revert Hl. unfold load_from_path. rewrite Hr.
  by destruct (env_read env).
Qed.

Lemma holds_unique file s env s' : stored_as file s → load_from_path env file = Ok s' → s' = s.
Proof.
  intros Hs Hl. assert (clear (MkEnv None None None None Durable 0)) as Hc by done.
  pose proof (load_holds _ _ _ Hl _ Hc) as Hl'. rewrite (Hs _ Hc) in Hl'. by injection Hl'.
Qed.

(** Any requests, by anyone, in any configuration, that write the ledger before
    [limit]. *)
Inductive served (limit : Z) : option Content → option Content → Prop :=
| served_none file : served limit file file
| served_one w state envelope rr file file1 file2 answer :
    world_ok w → wd_ledger w < limit → accept_remote_task w state envelope rr file = (file1, answer) →
    served limit file1 file2 → served limit file file2.

Definition keeps (r : TaskIdempotencyRecordV1) (file : option Content) : Prop :=
  ∃ s, stored_as file s ∧ ledger_ok s ∧ r ∈ ss_idempotency s.

Lemma sent_keeps w state envelope rr file file' m r :
  world_ok w → wd_ledger w < ir_created_at r + retention → sent w state envelope rr file file' m →
  keeps r file → keeps r file'.
Proof.
  intros [Hc _] Hnow (_ & expected & d & _ & _ & _ & store & store' & c & Hload & Hrun & -> & _ & Hload')
    (s & Hs & Hl & Hr).
  pose proof (holds_unique _ _ _ _ Hs Hload) as ->.
  eexists. split; [exact Hload'|]. split; [by apply (materialize_ledger _ _ _ _ _ _ _ Hc Hl Hrun)|].
  assert (r ∈ live (wd_ledger w) s) as Hlive by (apply list_elem_of_filter; split; [lia|done]).
  pose proof (materialize_run (wd_uuid w) (wd_ledger w) (wd_task w) d s Hc) as Hm. rewrite Hrun in Hm.
  destruct Hm as [(_ & -> & _)|(_ & _ & _ & _ & _ & task & _ & ->)]; [done|].
  cbn. by apply elem_of_app; left.
Qed.

Lemma canceled_keeps w state envelope rr file file' r :
  canceled w state envelope rr file file' → keeps r file → keeps r file'.
Proof.
  intros (expected & request & status & _ & _ & _ & store & store' & t & t' & Hload & _ & _ & _ & _ & _ & Hload'
    & Hi & _) (s & Hs & Hl & Hr).
  pose proof (holds_unique _ _ _ _ Hs Hload) as ->. exists store'. split; [exact Hload'|].
  unfold ledger_ok in *. by rewrite Hi.
Qed.

Lemma served_keeps limit file file' r :
  served limit file file' → limit ≤ ir_created_at r + retention → keeps r file → keeps r file'.
Proof.
  induction 1 as [|w state envelope rr file file1 file2 answer Hw Hnow Hrun _ IH]; intros Hlim Hk; [done|].
  apply IH; [done|]. pose proof (accept_run w state envelope rr file Hw) as Ha. rewrite Hrun in Ha.
  assert (∀ m, sent w state envelope rr file file1 m → keeps r file1) as Hsent.
  { intros m Hm. eapply sent_keeps; [done| |done|done]. lia. }
  assert (canceled w state envelope rr file file1 → keeps r file1) as Hcan by (intros; by eapply canceled_keeps).
  destruct answer as [reply|reply| |]; try done.
  - destruct Ha as [(m & _ & Hm)|(_ & _ & [->|Hc])]; eauto.
  - destruct Ha as [->|[Hc|(m & Hm)]]; eauto.
Qed.

Lemma authority_window d policy expected :
  descriptor_verify_authority d policy expected = Ok () →
  td_issued_at d ≤ ex_now expected + seconds MAX_AUTHORITY_CLOCK_SKEW_SECONDS
  ∧ ex_now expected < td_expires_at d.
Proof.
  unfold descriptor_verify_authority. intros Hv. apply exec_bind_Ok in Hv as ([] & _ & Hv).
  apply authorize_Ok in Hv as (peer & grant & Ha). destruct Ha. done.
Qed.

Lemma expectation_now w state envelope rr expected :
  expectation w state envelope rr = Some expected → ex_now expected = wd_entry w.
Proof.
  unfold expectation. intros Hex. do 3 (apply bind_Some in Hex as (? & _ & Hex)). by injection Hex as <-.
Qed.

(** ** What a request writes *)

(** A delivery the ledger knows leaves the tasks as they are; any other appends
    the task it describes, and its record to the entries the ledger keeps. *)
Definition delivery_written (w : World) (d : TaskDescriptorV1) (store store' : TaskStore) : Prop :=
  (ss_tasks store' = ss_tasks store ∧ ss_idempotency store' = live (wd_ledger w) store
   ∧ ∃ r, r ∈ live (wd_ledger w) store ∧ ir_key r = td_idempotency_key d ∧ records r d)
  ∨ ∃ task, from_remote_descriptor (wd_task w) d ("task-" +:+ wd_uuid w) = Ok task
      ∧ ss_tasks store' = ss_tasks store ++ [task]
      ∧ ss_idempotency store'
        = live (wd_ledger w) store ++ [delivery_record (wd_ledger w) ("task-" +:+ wd_uuid w) d].

(** A cancellation replaces the task the request names, which is one of its
    sender's own deliveries, by the same task cancelled, and nothing else. *)
Definition cancellation_written (w : World) (request : TaskControlDescriptorV1)
    (store store' : TaskStore) : Prop :=
  ∃ t t', t ∈ ss_tasks store ∧ owns request t ∧ canceled_as (wd_task w) request t t'
    ∧ tk_state t' = Canceled ∧ ss_idempotency store' = ss_idempotency store
    ∧ ss_tasks store' = update_first (λ _, t') (cd_task_id request) (ss_tasks store).

Lemma sent_written w state envelope rr file file' m :
  world_ok w → sent w state envelope rr file file' m →
  ∃ expected store store', expectation w state envelope rr = Some expected
    ∧ load_from_path (wd_env w) file = Ok store ∧ stored_as file' store'
    ∧ parse_control (ev_payload_json envelope) = None
    ∧ ∃ d peer grant, parse_task (ev_payload_json envelope) = Some d ∧ descriptor_validate_shape d = Ok ()
      ∧ authorized (descriptor_claim d) (ap_task_authority state) expected peer grant
      ∧ delivery_written w d store store'.
Proof.
  intros [Hc _] (Hpc & expected & d & Hex & Hpt & Hv & store & store' & c & Hload & Hrun & -> & _ & Hload').
  exists expected, store, (set_ss_updated_at (Some (env_now (wd_env w))) store').
  do 4 (split; [done|]).
  unfold descriptor_verify_authority in Hv. apply exec_bind_Ok in Hv as ([] & Hs & Hv).
  apply authorize_Ok in Hv as (peer & grant & Ha). exists d, peer, grant. do 3 (split; [done|]).
  pose proof (materialize_run (wd_uuid w) (wd_ledger w) (wd_task w) d store Hc) as Hm. rewrite Hrun in Hm.
  destruct Hm as [(_ & -> & r & Hr & Hk & Hrec & _)|(_ & Hid & _ & _ & _ & task & Ht & ->)].
  - left. do 2 (split; [done|]). by exists r.
  - right. rewrite Hid in Ht |- *. by exists task.
Qed.

Lemma canceled_written w state envelope rr file file' :
  canceled w state envelope rr file file' →
  ∃ expected store store', expectation w state envelope rr = Some expected
    ∧ load_from_path (wd_env w) file = Ok store ∧ stored_as file' store'
    ∧ ∃ request, parse_control (ev_payload_json envelope) = Some request
      ∧ request_authorized TASK_ACTION_CANCEL request (ap_task_authority state) expected
      ∧ cancellation_written w request store store'.
Proof.
  intros (expected & request & status & Hex & Hpc & Hau & store & store' & t & t' & Hload & Ho & Hown & Hcan
    & _ & Hst & Hload' & Hi & Ht).
  exists expected, store, store'. do 3 (split; [done|]). exists request. do 2 (split; [done|]).
  exists t, t'. destruct (owned_task_Some _ _ _ Ho) as (Hin & _ & Hget).
  do 5 (split; [done|]). destruct Ht as [[-> ->]|]; [|done]. symmetry. by apply update_first_same.
Qed.
End receive.

(** C6: every remote request is answered, and the stored file is replaced only
    in two cases.  Either a live peer of the policy signed a task under a live
    grant for sending: then the file gets that task appended, made from the signed
    descriptor, with its record in the ledger, or, if the ledger already has a
    record of that message, the tasks stay as they were; entries past the
    retention are dropped from the ledger.  Or a cancellation was authorized in
    the same way and the task it names is one the request's sender itself
    delivered, to this recipient, in the same tenant and project and with the same
    descriptor: then that task, cancelled, takes its place and every other task
    and the ledger are as they were.  The surroundings are assumed to return: the
    store's serializer, the content gateway and the reading of a key, and the
    clock is an instant the retention can be subtracted from. *)
Theorem only_authorized_requests_write `{CanonicalJson, ED : Ed25519, Sha256, Gateway, Chrono, ReplyJson,
    RequestJson, !GatewayTotal} {Content} `{StoreFile Content, !StoreFileLaws Content}
    w state envelope rr file :
  world_ok w →
  match accept_remote_task w state envelope rr file with
  | (file', Ok _) | (file', Err _) => file' = file ∨
      ∃ expected store store', expectation w state envelope rr = Some expected
        ∧ load_from_path (wd_env w) file = Ok store ∧ stored_as file' store'
        ∧ ((parse_control (ev_payload_json envelope) = None
            ∧ ∃ d peer grant, parse_task (ev_payload_json envelope) = Some d
                ∧ descriptor_validate_shape d = Ok ()
                ∧ authorized (descriptor_claim d) (ap_task_authority state) expected peer grant
                ∧ delivery_written w d store store')
           ∨ ∃ request, parse_control (ev_payload_json envelope) = Some request
               ∧ request_authorized TASK_ACTION_CANCEL request (ap_task_authority state) expected
               ∧ cancellation_written w request store store')
  | (_, Panic) | (_, Hang) => False
  end.
Proof.
  intros Hw. pose proof (accept_run w state envelope rr file Hw) as Ha.
  pose proof (λ file' m, sent_written w state envelope rr file file' m Hw) as Hsent.
  pose proof (λ file', canceled_written w state envelope rr file file') as Hcan.
  destruct (accept_remote_task w state envelope rr file) as [file' [reply|reply| |]]; try done.
  - destruct Ha as [(m & _ & Hm)|(_ & _ & [?|Hc])]; [right|by left|right].
    + destruct (Hsent _ _ Hm) as (expected & store & store' & ? & ? & ? & ?). exists expected, store, store'. auto.
    + destruct (Hcan _ Hc) as (expected & store & store' & ? & ? & ? & ?). exists expected, store, store'. auto.
  - destruct Ha as [?|[Hc|(m & Hm)]]; [by left|right..].
    + destruct (Hcan _ Hc) as (expected & store & store' & ? & ? & ? & ?). exists expected, store, store'. auto.
    + destruct (Hsent _ _ Hm) as (expected & store & store' & ? & ? & ? & ?). exists expected, store, store'. auto.
Qed.

(** C2: authority and ledger together make delivery exactly-once: after a message
    made a task, the same message, received again before it expires and after any
    other requests, makes no second task: when it is answered with success, the
    answer is the first task, marked as a duplicate, and the tasks are unchanged.
    The message's lifetime is at most a day; the check of whole seconds lets up to
    a second more pass, for which see [late_replay_makes_second_task]. *)
Theorem replay_is_duplicate `{CanonicalJson, ED : Ed25519, Sha256, Gateway, Chrono, ReplyJson,
    RequestJson, !GatewayTotal} {Content} `{StoreFile Content, !StoreFileLaws Content}
    w1 w2 state1 state2 envelope1 envelope2 rr1 rr2 file0 file1 file2 file3 s0 id d body :
  stored_as file0 s0 → ledger_ok s0 → world_ok w1 → wd_entry w1 ≤ wd_ledger w1 →
  accept_remote_task w1 state1 envelope1 rr1 file0 = (file1, Ok (MkReply OK (BodyTask false id))) →
  parse_task (ev_payload_json envelope1) = Some d →
  td_expires_at d - td_issued_at d ≤ seconds MAX_TASK_LIFETIME_SECONDS →
  served (td_expires_at d) file1 file2 →
  world_ok w2 → wd_ledger w2 < td_expires_at d → ev_payload_json envelope2 = ev_payload_json envelope1 →
  accept_remote_task w2 state2 envelope2 rr2 file2 = (file3, Ok (MkReply OK body)) →
  body = BodyTask true id
  ∧ ∃ s2 s3, stored_as file2 s2 ∧ stored_as file3 s3 ∧ ss_tasks s3 = ss_tasks s2.
Proof.
  intros Hf0 Hl0 Hw1 Hmono Hrun1 Hpt Hlife Hserved Hw2 Hbefore Hsame Hrun2.
  pose proof (accept_run w1 state1 envelope1 rr1 file0 Hw1) as Ha. rewrite Hrun1 in Ha.
  destruct Ha as [(m1 & Hm1 & Hsent1)|([status Hb] & _)]; [|by cbn in Hb].
  injection Hm1 as Hdup Hid.
  destruct Hsent1 as (Hpc & expected1 & d1 & Hex1 & Hpt1 & Hv1 & store & store' & c & Hload & Hmat & -> & _ & Hload').
  rewrite Hpt in Hpt1. injection Hpt1 as <-.
  pose proof (holds_unique _ _ _ _ Hf0 Hload) as ->.
  destruct (authority_window _ _ _ Hv1) as [Hiss _]. rewrite (expectation_now _ _ _ _ _ Hex1) in Hiss.
  pose proof (materialize_run (wd_uuid w1) (wd_ledger w1) (wd_task w1) d s0 (proj1 Hw1)) as Hm.
  rewrite Hmat in Hm. destruct Hm as [(? & _)|(_ & _ & _ & _ & _ & task & _ & Hs')]; [congruence|].
  set (r := delivery_record (wd_ledger w1) (mt_task_id m1) d) in *.
  assert (keeps r (Some c)) as Hk1.
  { eexists. split; [exact Hload'|]. split.
    - apply (materialize_ledger _ _ _ _ _ _ _ (proj1 Hw1) Hl0 Hmat).
    - rewrite Hs'. cbn. apply elem_of_app. right. by apply list_elem_of_singleton. }
  assert (td_expires_at d ≤ ir_created_at r + retention) as Hret.
  { unfold retention, IDEMPOTENCY_RETENTION_SECONDS. cbn [ir_created_at r delivery_record].
    unfold seconds in *. lia. }
  destruct (served_keeps _ _ _ r Hserved Hret Hk1) as (s2 & Hs2 & Hl2 & Hr2).
  pose proof (accept_run w2 state2 envelope2 rr2 file2 Hw2) as Ha. rewrite Hrun2 in Ha.
  destruct Ha as [(m2 & Hm2 & Hsent2)|(_ & [request Hpc2] & _)]; [|congruence].
  destruct Hsent2 as (_ & expected2 & d2 & Hex2 & Hpt2 & Hv2 & store2 & store3 & c3 & Hload2 & Hmat2 & -> & _
      & Hload3).
  rewrite Hsame, Hpt in Hpt2. injection Hpt2 as <-. injection Hm2 as ->.
  pose proof (holds_unique _ _ _ _ Hs2 Hload2) as ->.
  pose proof (redelivery (wd_uuid w2) (wd_ledger w2) (wd_task w2) d r s2 Hl2 (proj1 Hw2) Hr2
      ltac:(lia) eq_refl) as Hm. rewrite Hmat2 in Hm. destruct Hm as (-> & -> & _). cbn. split.
  - by rewrite Hid.
  - eexists s2, _. split; [done|]. split; [exact Hload3|done].
Qed.

(** ** Concrete requests *)
#[local] Existing Instance sample_authority_json.
#[local] Existing Instance sample_ed25519.
#[local] Existing Instance sample_sha256.
#[local] Existing Instance sample_gateway.
#[local] Existing Instance sample_gateway_total.
#[local] Existing Instance sample_chrono.
#[local] Existing Instance sample_reply_json.
#[local] Existing Instance sample_file.
#[local] Existing Instance sample_file_laws.

(** A message issued at an instant, for some seconds of validity. *)
Definition message (issued expires : Z) : TaskDescriptorV1 :=
  descriptor_sign sample_key
    (TaskDescriptorV1_new "lead" "worker" "tenant" "project" TASK_ACTION_SEND issued expires "key-1"
      "do it" [] ("grant-" +:+ TASK_ACTION_SEND) "key").

(** The texts ["send"] and ["late"]: a message valid for a minute, and one issued
    a minute ahead that is valid for a day and half a second. *)
Definition late_expiry : Z := seconds (60 + 86400) + 500000000.
#[local] Instance sample_requests : RequestJson := {|
  parse_control _ := None;
  parse_task text := if bool_decide (text = "send") then Some (message 0 (seconds 60))
                     else if bool_decide (text = "late") then Some (message (seconds 60) late_expiry) else None;
  reply_serializes _ := true;
|}.

Definition long_lived_peer : TaskPeerTrustV1 :=
  MkPeer TASK_AUTHORITY_CONFIG_VERSION "key" "lead" (hex_encode (verifying_key sample_key))
    [TASK_ACTION_SEND] [MkScope TASK_AUTHORITY_CONFIG_VERSION "tenant" "project"] 0 (seconds 200000) false.
Definition sample_state : AppState :=
  MkAppState (Some "worker") (Some "tenant") (Some "project")
    (MkAuthorityConfig TASK_AUTHORITY_CONFIG_VERSION [long_lived_peer]
      [MkGrant TASK_AUTHORITY_CONFIG_VERSION ("grant-" +:+ TASK_ACTION_SEND) "key" TASK_ACTION_SEND "tenant"
         "project" 0 (seconds 200000) false]).
(** Every clock is read at the same instant. *)
Definition world_at (now : Z) (uuid : string) : World :=
  MkWorld now now now now uuid true receiver_store (MkEnv None None None None Durable now).
Definition arrives (text : string) (now : Z) (uuid : string) :
    op (option TaskStore) Reply Reply :=
  accept_remote_task (world_at now uuid) sample_state (MkEnvelope text "lead") None.

Lemma receiver_store_total agent : total (receiver_store agent).
Proof. unfold receiver_store. by case_match. Qed.
Lemma world_at_ok now uuid : clock_ok now → world_ok (world_at now uuid).
Proof. intros Hc. split; [done|apply receiver_store_total]. Qed.

Definition first_file : option TaskStore := (arrives "send" (seconds 1) "1" None).1.
Definition second_file : option TaskStore := (arrives "send" (seconds 30) "2" first_file).1.

Lemma pair_run {S A} (x : S * A) a : x.2 = a → x = (x.1, a).
Proof. destruct x. by intros [= ->]. Qed.
Lemma first_arrival : arrives "send" (seconds 1) "1" None = (first_file, Ok (MkReply OK (BodyTask false "task-1"))).
Proof. apply pair_run. by vm_compute. Qed.
Lemma second_arrival :
  arrives "send" (seconds 30) "2" first_file = (second_file, Ok (MkReply OK (BodyTask true "task-1"))).
Proof. apply pair_run. by vm_compute. Qed.

Lemma only_authorized_requests_write_witness :
  (arrives "other" (seconds 1) "1" None).2 = Err (error BAD_REQUEST "invalid_task_descriptor")
  ∧ ∃ expected store store',
      expectation (world_at (seconds 1) "1") sample_state (MkEnvelope "send" "lead") None = Some expected
      ∧ load_from_path (wd_env (world_at (seconds 1) "1")) None = Ok store ∧ stored_as first_file store'
      ∧ ∃ d peer grant, parse_task "send" = Some d ∧ descriptor_validate_shape d = Ok ()
          ∧ authorized (descriptor_claim d) (ap_task_authority sample_state) expected peer grant
          ∧ delivery_written (world_at (seconds 1) "1") d store store'.
Proof.
  split; [by vm_compute|].
  assert (world_ok (world_at (seconds 1) "1")) as Hw by (apply world_at_ok; by vm_compute).
  pose proof (only_authorized_requests_write (world_at (seconds 1) "1") sample_state
    (MkEnvelope "send" "lead") None None Hw) as Ha.
  change (accept_remote_task _ _ _ _ None) with (arrives "send" (seconds 1) "1" None) in Ha.
  rewrite first_arrival in Ha. destruct Ha as [Ha|Ha].
  - exfalso. assert (is_some first_file = true) as Hs by by vm_compute. rewrite Ha in Hs. discriminate Hs.
  - destruct Ha as (expected & store & store' & Hex & Hl & Hst & [[_ Hd]|(request & Hr & _)]); [|discriminate Hr].
    exists expected, store, store'. split; [exact Hex|]. split; [exact Hl|]. split; [exact Hst|exact Hd].
Defined.

Lemma replay_is_duplicate_witness :
  (arrives "send" (seconds 30) "2" first_file).2 = Ok (MkReply OK (BodyTask true "task-1"))
  ∧ ∃ s2 s3, stored_as first_file s2 ∧ stored_as second_file s3 ∧ ss_tasks s3 = ss_tasks s2.
Proof.
  split; [by vm_compute|].
  assert (world_ok (world_at (seconds 1) "1")) as Hw1 by (apply world_at_ok; by vm_compute).
  assert (world_ok (world_at (seconds 30) "2")) as Hw2 by (apply world_at_ok; by vm_compute).
  assert (stored_as None TaskStore_default) as Hh by by intros env (_ & _ & Hr & _); unfold load_from_path; rewrite Hr.
  refine (proj2 (replay_is_duplicate (world_at (seconds 1) "1") (world_at (seconds 30) "2") sample_state
    sample_state (MkEnvelope "send" "lead") (MkEnvelope "send" "lead") None None None first_file first_file
    second_file TaskStore_default "task-1" (message 0 (seconds 60)) (BodyTask true "task-1") Hh _ Hw1 _
    first_arrival _ _ (served_none _ _) Hw2 _ eq_refl second_arrival)).
  - by apply NoDup_nil_2.
  - done.
  - done.
  - by vm_compute.
  - by vm_compute.
Defined.

(** The message issued a minute ahead of the receiver's clock passes the check of
    its lifetime, which counts whole seconds.  Within its last half second the
    ledger has forgotten it, and it makes a second task. *)
Lemma late_replay_makes_second_task :
  let '(file1, answer1) := arrives "late" 0 "1" None in
  let '(file2, answer2) := arrives "late" (late_expiry - 200000000) "2" file1 in
  answer1 = Ok (MkReply OK (BodyTask false "task-1")) ∧ answer2 = Ok (MkReply OK (BodyTask false "task-2"))
  ∧ (tk_id <$> default [] (ss_tasks <$> file2)) = ["task-1"; "task-2"].
Proof. by vm_compute. Qed.
