(* ===== verification/SecurityEvents.v ===== *)
(** * Security events

    [rust/src/core/security_events.rs]: what the protections of one tool call
    fired on, as counts per kind, and the text by which the audit trail carries a
    count.  The thread's collector and the process's pending counts are explicit
    states.  The injection flags of a delivery (an LRU set of digests) are not
    modelled. *)
From S2P Require Import Prelude BTree Text.
#[local] Open Scope Z_scope.

Inductive SecurityKind :=
| SecretRedacted | ShellBlocked | PathBlocked | InjectionFlagged
| PiiRedacted | ContentWithheld | CoverageIncomplete.
#[export] Instance SecurityKind_eq_dec : EqDecision SecurityKind.
Proof. solve_decision. Defined.

(** [SecurityKind::as_str] *)
Definition kind_str (k : SecurityKind) : string :=
  match k with
  | SecretRedacted => "secret_redacted"
  | ShellBlocked => "shell_blocked"
  | PathBlocked => "path_blocked"
  | InjectionFlagged => "injection_flagged"
  | PiiRedacted => "pii_redacted"
  | ContentWithheld => "content_withheld"
  | CoverageIncomplete => "coverage_incomplete"
  end.

(** [SecurityKind::ALL] *)
Definition all_kinds : list SecurityKind :=
  [SecretRedacted; ShellBlocked; PathBlocked; InjectionFlagged;
   PiiRedacted; ContentWithheld; CoverageIncomplete].

Definition is_colon (a : Ascii.ascii) : bool := byte_in 58 58 a.
Definition is_bar (a : Ascii.ascii) : bool := byte_in 124 124 a.

(** [SecurityKind::from_action] *)
Definition from_action (action : string) : option SecurityKind :=
  kind ← head (split_on is_colon action);
  find_first (λ k, bool_decide (kind_str k = kind)) all_kinds.

Definition in_signed_tally (k : SecurityKind) : bool :=
  match k with
  | SecretRedacted | ShellBlocked | PathBlocked | InjectionFlagged => true
  | PiiRedacted | ContentWithheld | CoverageIncomplete => false
  end.

Record SecurityCounts := MkCounts {
  sc_secrets_redacted : Z;
  sc_shell_blocked : Z;
  sc_path_blocked : Z;
  sc_injection_flagged : Z;
  sc_pii_redacted : Z;
  sc_content_withheld : Z;
  sc_coverage_incomplete : Z;
}.
#[export] Instance SecurityCounts_eq_dec : EqDecision SecurityCounts.
Proof. solve_decision. Defined.

(** [SecurityCounts::ZERO], also the default *)
Definition ZERO : SecurityCounts := MkCounts 0 0 0 0 0 0 0.

(** [SecurityCounts::get] *)
Definition count_of (c : SecurityCounts) (k : SecurityKind) : Z :=
  match k with
  | SecretRedacted => sc_secrets_redacted c
  | ShellBlocked => sc_shell_blocked c
  | PathBlocked => sc_path_blocked c
  | InjectionFlagged => sc_injection_flagged c
  | PiiRedacted => sc_pii_redacted c
  | ContentWithheld => sc_content_withheld c
  | CoverageIncomplete => sc_coverage_incomplete c
  end.

(** [SecurityCounts::slot], assigned through. *)
Definition slot (k : SecurityKind) (f : Z → Z) (c : SecurityCounts) : SecurityCounts :=
  let '(MkCounts s sh p i pii w cov) := c in
  match k with
  | SecretRedacted => MkCounts (f s) sh p i pii w cov
  | ShellBlocked => MkCounts s (f sh) p i pii w cov
  | PathBlocked => MkCounts s sh (f p) i pii w cov
  | InjectionFlagged => MkCounts s sh p (f i) pii w cov
  | PiiRedacted => MkCounts s sh p i (f pii) w cov
  | ContentWithheld => MkCounts s sh p i pii (f w) cov
  | CoverageIncomplete => MkCounts s sh p i pii w (f cov)
  end.

(** [SecurityCounts::add] *)
Definition counts_add (k : SecurityKind) (n : Z) (c : SecurityCounts) : SecurityCounts :=
  slot k (λ x, saturating_add u64_max x n) c.

(** [SecurityCounts::merge] *)
Definition counts_merge (other c : SecurityCounts) : SecurityCounts :=
  foldl (λ c k, counts_add k (count_of other k) c) c all_kinds.

(** [SecurityCounts::since] *)
Definition counts_since (c base : SecurityCounts) : SecurityCounts :=
  foldl (λ out k, slot k (λ _, saturating_sub (count_of c k) (count_of base k)) out) ZERO all_kinds.

(** [SecurityCounts::total], [is_empty], [iter] and [signed_tally_projection] *)
Definition counts_total (c : SecurityCounts) : Z :=
  foldl (λ sum k, saturating_add u64_max sum (count_of c k)) 0 all_kinds.
Definition counts_is_empty (c : SecurityCounts) : bool := counts_total c =? 0.
Definition counts_iter (c : SecurityCounts) : list (SecurityKind * Z) :=
  filter (λ '(_, n), 0 < n) ((λ k, (k, count_of c k)) <$> all_kinds).
Definition signed_tally_projection (c : SecurityCounts) : SecurityCounts :=
  MkCounts (sc_secrets_redacted c) (sc_shell_blocked c) (sc_path_blocked c) (sc_injection_flagged c) 0 0 0.

Inductive RefusalClass := SecretPath | OutsideRoot | ProtectedPath.
#[export] Instance RefusalClass_eq_dec : EqDecision RefusalClass.
Proof. solve_decision. Defined.

(** [RefusalClass::as_str], [kind] and [ALL] *)
Definition class_str (c : RefusalClass) : string :=
  match c with
  | SecretPath => "secret_path"
  | OutsideRoot => "outside_root"
  | ProtectedPath => "protected_path"
  end.
Definition class_kind (c : RefusalClass) : SecurityKind :=
  match c with
  | SecretPath => ContentWithheld
  | OutsideRoot | ProtectedPath => PathBlocked
  end.
Definition all_classes : list RefusalClass := [SecretPath; OutsideRoot; ProtectedPath].

(** ** The collector of a tool call *)

(** The array of refusals, indexed by class. *)
Record CallTally := MkCallTally {
  ct_counts : SecurityCounts;
  ct_secret_path : Z;
  ct_outside_root : Z;
  ct_protected_path : Z;
}.
Definition CallTally_default : CallTally := MkCallTally ZERO 0 0 0.

(** [CallTally::merge], and [refusals] *)
Definition tally_merge (other t : CallTally) : CallTally :=
  MkCallTally (counts_merge (ct_counts other) (ct_counts t))
    (saturating_add u64_max (ct_secret_path t) (ct_secret_path other))
    (saturating_add u64_max (ct_outside_root t) (ct_outside_root other))
    (saturating_add u64_max (ct_protected_path t) (ct_protected_path other)).
Definition tally_refusals (t : CallTally) (c : RefusalClass) : Z :=
  match c with
  | SecretPath => ct_secret_path t
  | OutsideRoot => ct_outside_root t
  | ProtectedPath => ct_protected_path t
  end.
Definition add_refusals (c : RefusalClass) (n : Z) (t : CallTally) : CallTally :=
  let '(MkCallTally counts s o p) := t in
  match c with
  | SecretPath => MkCallTally counts (saturating_add u64_max s n) o p
  | OutsideRoot => MkCallTally counts s (saturating_add u64_max o n) p
  | ProtectedPath => MkCallTally counts s o (saturating_add u64_max p n)
  end.

(** What the thread's [COLLECTOR] holds. *)
Notation Collector := (option CallTally).

Definition note {E : Type} (k : SecurityKind) (n : Z) : op Collector E () :=
  if n =? 0 then mret ()
  else modify (fmap (λ t, MkCallTally (counts_add k n (ct_counts t))
                            (ct_secret_path t) (ct_outside_root t) (ct_protected_path t))).

Definition note_refusals {E : Type} (c : RefusalClass) (n : Z) : op Collector E () :=
  if n =? 0 then mret () else modify (fmap (add_refusals c n)).

(** [collect_call]: [f] runs with a collector of its own, which is merged into
    the one around it. *)
Definition collect_call {E T : Type} (f : op Collector E T) : op Collector E (T * CallTally) :=
  outer ← get;
  modify (λ _, Some CallTally_default);;
  value ← f;
  inner ← get;
  let tally := default CallTally_default inner in
  modify (λ _, outer);;
  match outer with
  | Some outer => modify (λ _, Some (tally_merge tally outer))
  | None => mret ()
  end;;
  mret (value, tally).

(** ** The text of an action *)

(** [session_suffix] *)
Definition session_suffix (session : option string) : string :=
  match session with Some id => "|session=" +:+ id | None => "" end.

Definition refusal_action (c : RefusalClass) (n : Z) (session : string) : string :=
  kind_str (class_kind c) +:+ ":" +:+ pretty n +:+ "|reason=" +:+ class_str c +:+ session.

(** The [action] of an entry written by [record]. *)
Definition count_action (k : SecurityKind) (n : Z) (session : string) : string :=
  kind_str k +:+ ":" +:+ pretty n +:+ session.

(** [parse_action] *)
Definition parse_action (action : string) : option (SecurityKind * Z * option string) :=
  kind ← from_action action;
  let rest := match split_once ":" action with Some (_, rest) => rest | None => "" end in
  let '(before, session) := match split_once "|session=" rest with
                            | Some (before, session) => (before, Some session)
                            | None => (rest, None)
                            end in
  let n := default before (head (split_on is_bar before)) in
  Some (kind, default 1 (parse_u64 n), session).

Example parse_action_ex :
  parse_action "secret_redacted:3|session=abc" = Some (SecretRedacted, 3, Some "abc")
  ∧ parse_action "injection_flagged:1|pattern=role_marker|object=0123|session=s1"
    = Some (InjectionFlagged, 1, Some "s1")
  ∧ parse_action "shell_blocked:1" = Some (ShellBlocked, 1, None)
  ∧ parse_action "gateway_receipt:00" = None ∧ parse_action "path_blocked:18446744073709551616" = Some (PathBlocked, 1, None).
Proof. repeat split; vm_compute; reflexivity. Qed.

(** ** Splitting *)
Lemma split_on_nonempty sep s : split_on sep s ≠ [].
Proof. destruct s as [|a s]; cbn; [done|]. destruct (sep a); [done|]. by destruct (split_on sep s). Qed.

Lemma split_on_none sep s t :
  all_bytes (λ a, negb (sep a)) s = true →
  head (split_on sep (s +:+ t)) = Some (s +:+ default "" (head (split_on sep t))).
Proof.
  induction s as [|a s IH]; cbn.
  - intros _. change ("" +:+ t) with t.
    destruct (split_on sep t) eqn:E; [by apply split_on_nonempty in E|done].
  - intros [Ha Hs]%andb_true_iff. apply negb_true_iff in Ha.
    change (String a s +:+ t) with (String a (s +:+ t)). cbn [split_on]. rewrite Ha.
    specialize (IH Hs). destruct (split_on sep (s +:+ t)) as [|p r]; [done|].
    cbn in *. by simplify_eq.
Qed.

(** ** Actions are read back *)
Lemma from_action_kind k rest : from_action (kind_str k +:+ ":" +:+ rest) = Some k.
Proof.
  unfold from_action. rewrite split_on_none by by destruct k.
  change (":" +:+ rest) with (String (Ascii.ascii_of_N 58) rest).
  by destruct k.
Qed.

Lemma split_kind k rest : split_once ":" (kind_str k +:+ ":" +:+ rest) = Some (kind_str k, rest).
Proof. rewrite split_once_skip by by destruct k. by destruct k. Qed.

(** What a suffix that starts with a bar, or is empty, leaves of the count. *)
Lemma count_read k n suffix before session :
  0 ≤ n ≤ u64_max →
  match split_once "|session=" suffix with
  | Some (before', after) => before = before' ∧ session = Some after
  | None => before = suffix ∧ session = None
  end →
  head (split_on is_bar before) = Some "" →
  parse_action (kind_str k +:+ ":" +:+ pretty n +:+ suffix) = Some (k, n, session).
Proof.
  intros Hn Hsplit Hbar. destruct (pretty_digits n ltac:(lia)) as [Hd _].
  unfold parse_action. rewrite from_action_kind, split_kind. cbn [mbind option_bind].
  rewrite split_once_skip by by apply digits_avoid.
  assert (head (split_on is_bar (pretty n +:+ before)) = Some (pretty n)) as Hhead.
  { rewrite split_on_none, Hbar; cbn [default]; [apply (f_equal Some), append_empty|].
    revert Hd. apply all_bytes_impl. intros a Ha. unfold is_bar, is_digit in *.
    apply byte_in_spec in Ha. apply negb_true_iff, byte_in_false. lia. }
  destruct (split_once "|session=" suffix) as [[before' after]|]; destruct Hsplit as [-> ->];
    cbn [fmap option_fmap option_map]; rewrite Hhead; cbn; by rewrite (parse_u64_pretty n Hn).
Qed.

Lemma count_action_read k n session : 0 ≤ n ≤ u64_max →
  parse_action (count_action k n (session_suffix session)) = Some (k, n, session).
Proof. intros Hn. apply (count_read _ _ _ ""); [done|by destruct session|done]. Qed.

Lemma refusal_action_read c n session : 0 ≤ n ≤ u64_max →
  parse_action (refusal_action c n (session_suffix session)) = Some (class_kind c, n, session).
Proof.
  intros Hn. apply (count_read _ _ _ ("|reason=" +:+ class_str c)); [done| |by destruct c].
  by destruct c, session.
Qed.

(** What the audit trail records of a count or of a refusal is read back as
    the kind, the count and the session it was recorded with. *)
Theorem action_roundtrip k c n session :
  0 ≤ n ≤ u64_max →
  parse_action (count_action k n (session_suffix session)) = Some (k, n, session)
  ∧ parse_action (refusal_action c n (session_suffix session)) = Some (class_kind c, n, session).
Proof. intros Hn. split; [by apply count_action_read|by apply refusal_action_read]. Qed.

Lemma action_roundtrip_witness :
  parse_action (count_action ShellBlocked 12 (session_suffix (Some "s1"))) = Some (ShellBlocked, 12, Some "s1").
Proof. apply (action_roundtrip ShellBlocked SecretPath 12 (Some "s1")). by vm_compute. Defined.

(** ** Nested collectors *)

(** What the code of a tool call notes, in order. *)
Inductive noted :=
| Fired (k : SecurityKind) (n : Z)
| Refused (c : RefusalClass) (n : Z).

Definition noted_count (x : noted) : Z := match x with Fired _ n | Refused _ n => n end.

Definition run_note {E : Type} (x : noted) : op Collector E () :=
  match x with Fired k n => note k n | Refused c n => note_refusals c n end.
Definition run_notes {E : Type} (l : list noted) : op Collector E () :=
  fold_op (λ _, run_note) () l.

Definition tally_note (x : noted) (t : CallTally) : CallTally :=
  match x with
  | Fired k n => MkCallTally (counts_add k n (ct_counts t)) (ct_secret_path t) (ct_outside_root t)
                   (ct_protected_path t)
  | Refused c n => add_refusals c n t
  end.

Definition tally_ok (t : CallTally) : Prop :=
  (∀ k, in_range u64_max (count_of (ct_counts t) k)) ∧ ∀ c, in_range u64_max (tally_refusals t c).

Lemma counts_merge_count other c k :
  count_of (counts_merge other c) k = saturating_add u64_max (count_of c k) (count_of other k).
Proof. destruct c, other. by destruct k. Qed.

Lemma counts_add_count k n c k' :
  count_of (counts_add k n c) k' =
    (if decide (k = k') then saturating_add u64_max (count_of c k') n else count_of c k').
Proof. destruct c. by destruct k, k'. Qed.

#[local] Arguments counts_merge : simpl never.
#[local] Arguments counts_add : simpl never.

Lemma counts_ext c c' : (∀ k, count_of c k = count_of c' k) → c = c'.
Proof.
  intros Heq. destruct c, c'.
  pose proof (Heq SecretRedacted) as E1. pose proof (Heq ShellBlocked) as E2.
  pose proof (Heq PathBlocked) as E3. pose proof (Heq InjectionFlagged) as E4.
  pose proof (Heq PiiRedacted) as E5. pose proof (Heq ContentWithheld) as E6.
  pose proof (Heq CoverageIncomplete) as E7. cbn in *. by subst.
Qed.

Lemma saturating_assoc max o a n : 0 ≤ max → 0 ≤ o → 0 ≤ n →
  saturating_add max o (saturating_add max a n) = saturating_add max (saturating_add max o a) n.
Proof. unfold saturating_add. lia. Qed.

Lemma run_note_empty {E} x : 0 ≤ noted_count x → run_note (E := E) x None = (None, Ok ()).
Proof. intros _. by destruct x as [k n|c n]; cbn; unfold note, note_refusals; destruct (n =? 0). Qed.

Lemma run_note_tally {E} x t : tally_ok t → 0 ≤ noted_count x →
  run_note (E := E) x (Some t) = (Some (tally_note x t), Ok ()).
Proof.
  intros [Hc Hr] Hn. unfold in_range in *.
  destruct x as [k n|c n]; cbn in *; unfold note, note_refusals; destruct (Z.eqb_spec n 0) as [->|_]; try done.
  - unfold mret, op_mret. do 2 f_equal. destruct t as [counts s o p]. unfold tally_note. cbn in *. f_equal.
    apply counts_ext. intros k'. rewrite counts_add_count. case_decide; [|done].
    specialize (Hc k'). unfold saturating_add. lia.
  - unfold mret, op_mret. do 2 f_equal. destruct t as [counts s o p].
    specialize (Hr c). destruct c; cbn in *; unfold saturating_add; f_equal; lia.
Qed.

Lemma tally_note_ok x t : tally_ok t → 0 ≤ noted_count x → tally_ok (tally_note x t).
Proof.
  intros [Hc Hr] Hn. unfold tally_ok, in_range in *. assert (0 ≤ u64_max) by done. destruct x as [k n|c n]; cbn in *.
  - split; [|intros c; pose proof (Hr c); by destruct c].
    intros k'. rewrite counts_add_count. specialize (Hc k'). case_decide; unfold saturating_add; lia.
  - destruct t as [counts s o p]; cbn in *.
    pose proof (Hr SecretPath). pose proof (Hr OutsideRoot). pose proof (Hr ProtectedPath).
    cbn in *. split; [by destruct c|]. intros c'. destruct c, c'; cbn; unfold saturating_add; lia.
Qed.

Lemma tally_note_merge x t outer : tally_ok outer → 0 ≤ noted_count x →
  tally_merge (tally_note x t) outer = tally_note x (tally_merge t outer).
Proof.
  intros [Hc Hr] Hn. assert (0 ≤ u64_max) by done. unfold in_range in *.
  destruct t as [counts s o p], outer as [counts' s' o' p'].
  pose proof (Hr SecretPath). pose proof (Hr OutsideRoot). pose proof (Hr ProtectedPath).
  destruct x as [k n|c n]; unfold tally_merge, tally_note; cbn in *; [f_equal|].
  - apply counts_ext. intros k'. rewrite counts_merge_count, !counts_add_count, counts_merge_count.
    case_decide; [|done]. apply saturating_assoc; [done|apply Hc|done].
  - destruct c; cbn; f_equal; apply saturating_assoc; lia.
Qed.

Lemma run_notes_tally {E} l t : tally_ok t → Forall (λ x, 0 ≤ noted_count x) l →
  run_notes (E := E) l (Some t) = (Some (foldl (flip tally_note) t l), Ok ())
  ∧ tally_ok (foldl (flip tally_note) t l)
  ∧ ∀ outer, tally_ok outer →
      tally_merge (foldl (flip tally_note) t l) outer = foldl (flip tally_note) (tally_merge t outer) l.
Proof.
  revert t. induction l as [|x l IH]; intros t Ht; [by repeat split; apply Ht|].
  intros [Hx Hl]%Forall_cons. cbn [foldl flip]. unfold run_notes. cbn [fold_op].
  unfold op_bind. rewrite run_note_tally by done.
  destruct (IH (tally_note x t) (tally_note_ok _ _ Ht Hx) Hl) as (Hrun & Hok & Hm).
  split_and!; [exact Hrun|exact Hok|]. intros outer Ho. by rewrite (Hm outer Ho), tally_note_merge.
Qed.

(** Nothing a tool call notes is lost or counted twice, however its collectors
    nest: what runs under a collector of its own leaves the collector around it
    as if it had run there, and returns the tally of its own notes; without a
    collector around it, it leaves none behind. *)
Theorem collected_once {E} l outer :
  tally_ok outer → Forall (λ x, 0 ≤ noted_count x) l →
  (collect_call (E := E) (run_notes l) (Some outer)).1 = (run_notes (E := E) l (Some outer)).1
  ∧ (∃ t, run_notes (E := E) l (Some CallTally_default) = (Some t, Ok ())
      ∧ (collect_call (E := E) (run_notes l) (Some outer)).2 = Ok ((), t)
      ∧ collect_call (E := E) (run_notes l) None = (None, Ok ((), t))).
Proof.
  intros Ho Hl.
  assert (tally_ok CallTally_default) as Hd by (split; intros []; by vm_compute).
  destruct (run_notes_tally (E := E) l _ Hd Hl) as (Hrun & _ & Hm).
  destruct (run_notes_tally (E := E) l _ Ho Hl) as (Hrun' & _ & _).
  specialize (Hm outer Ho).
  assert (tally_merge CallTally_default outer = outer) as He.
  { destruct Ho as [Hc Hr]. destruct outer as [counts s o p]. unfold tally_merge, in_range in *. cbn in *.
    pose proof (Hr SecretPath). pose proof (Hr OutsideRoot). pose proof (Hr ProtectedPath). cbn in *.
    f_equal; [|unfold saturating_add; lia..].
    apply counts_ext. intros k. rewrite counts_merge_count. specialize (Hc k).
    unfold saturating_add. destruct k; cbn in *; lia. }
  unfold collect_call, mbind, op_mbind, op_bind, get, modify. rewrite Hrun, Hrun'. cbn.
  rewrite Hm, He. split; [done|]. eexists. done.
Qed.

Lemma collected_once_witness :
  (collect_call (E := ()) (run_notes [Fired PathBlocked 2; Refused OutsideRoot 1]) (Some CallTally_default)).1
  = Some (MkCallTally (MkCounts 0 0 2 0 0 0 0) 0 1 0).
Proof.
  rewrite (proj1 (collected_once (E := ()) [Fired PathBlocked 2; Refused OutsideRoot 1] CallTally_default
    ltac:(split; intros []; by vm_compute) ltac:(by repeat constructor))).
  by vm_compute.
Defined.
