(* ===== verification/Json.v ===== *)
(** * JSON values

    [serde_json::Value], and what the code and the derived [Deserialize]s read
    off one.  Parsing and printing are third-party code: parameters. *)
From S2P Require Import Prelude BTree Text.
#[local] Open Scope Z_scope.

(** [serde_json::Value]; a float is kept by its bits. *)
Inductive JsonNumber := JPosInt (n : Z) | JNegInt (n : Z) | JFloat (bits : Z).
Inductive Value :=
| VNull
| VBool (b : bool)
| VNumber (n : JsonNumber)
| VString (s : string)
| VArray (l : list Value)
| VObject (fields : list (string * Value)).

(** [Value::get(key)], [Value::as_str], and a [u32] read from a [Value] *)
Definition assoc (k : string) (fields : list (string * Value)) : option Value :=
  snd <$> find_first (λ field, bool_decide (field.1 = k)) fields.
Definition value_get (v : Value) (k : string) : option Value :=
  match v with VObject fields => assoc k fields | _ => None end.
Definition as_str (v : Value) : option string := match v with VString s => Some s | _ => None end.
Definition value_u32 (v : Value) : option Z :=
  match v with VNumber (JPosInt n) => if n <=? u32_max then Some n else None | _ => None end.

(** A required string field, and an [Option<String>] field. *)
Definition str_field (v : Value) (k : string) : option string := value_get v k ≫= as_str.
Definition opt_str_field (v : Value) (k : string) : option (option string) :=
  match value_get v k with
  | None | Some VNull => Some None
  | Some (VString s) => Some (Some s)
  | Some _ => None
  end.

(** ** Decoding with a derived [Deserialize] *)

(** The fields of a struct: an object's by name, an array's by position. *)
Definition struct_fields (names : list string) (v : Value) : option (list (string * Value)) :=
  match v with
  | VObject fields => Some fields
  | VArray l => if (length l <=? length names)%nat then Some (zip names l) else None
  | _ => None
  end.
(** The name of a unit variant. *)
Definition variant_name (v : Value) : option string :=
  match v with
  | VString s => Some s
  | VObject [(k, VNull)] => Some k
  | _ => None
  end.
(** A [#[serde(default)]] field of type [Option<T>] *)
Definition opt_field {A : Type} (read : Value → option A) (fields : list (string * Value)) (k : string) :
    option (option A) :=
  match assoc k fields with
  | None | Some VNull => Some None
  | Some v => Some <$> read v
  end.
Definition value_u64 (v : Value) : option Z :=
  match v with VNumber (JPosInt n) => if n <=? u64_max then Some n else None | _ => None end.
(** [body[k]] *)
Definition value_index (v : Value) (k : string) : Value := default VNull (value_get v k).
(** A [#[serde(default)]] field of another type than [Option]. *)
Definition default_field {A : Type} (read : Value → option A) (a : A) (fields : list (string * Value)) (k : string) :
    option A :=
  match assoc k fields with None => Some a | Some v => read v end.
Definition as_bool (v : Value) : option bool := match v with VBool b => Some b | _ => None end.
(** A field skipped when there is nothing to write. *)
Definition some_string (k : string) (o : option string) : list (string * Value) :=
  match o with Some s => [(k, VString s)] | None => [] end.

(** ** Text *)

(** [serde_json]: [to_vec], [from_slice], and the text of its error.  Texts
    that repeat a key are not considered. *)
Class JsonText := {
  to_vec : Value → string;
  from_slice : string → option Value;
  json_error : string → string;
}.

Definition i64_max : Z := 9223372036854775807.

(** What [serde_json] writes and reads back: integers in range, no float, each
    key once, and no more nesting than its parser's limit. *)
Fixpoint json_depth (v : Value) : nat :=
  match v with
  | VArray l => S (foldr (λ v n, Nat.max (json_depth v) n) O l)
  | VObject fields => S (foldr (λ f n, Nat.max (json_depth f.2) n) O fields)
  | _ => O
  end.
Fixpoint json_plain (v : Value) : bool :=
  match v with
  | VNumber (JPosInt n) => (0 <=? n) && (n <=? u64_max)
  | VNumber (JNegInt n) => (- i64_max - 1 <=? n) && (n <? 0)
  | VNumber (JFloat _) => false
  | VArray l => forallb json_plain l
  | VObject fields =>
      bool_decide (NoDup fields.*1) && forallb (λ f, json_plain f.2) fields
  | _ => true
  end.
Definition MAX_NESTING : nat := 127.
Class JsonTextLaws `{JsonText} : Prop :=
  from_slice_to_vec v :
    json_plain v = true → (json_depth v ≤ MAX_NESTING)%nat → from_slice (to_vec v) = Some v.

(** [to_string_pretty], whose text is another one, read back the same. *)
Class PrettyText := to_string_pretty : Value → string.
Class PrettyTextLaws `{JsonText} `{PrettyText} : Prop :=
  from_slice_pretty v :
    json_plain v = true → (json_depth v ≤ MAX_NESTING)%nat → from_slice (to_string_pretty v) = Some v.

Lemma depth_items (l : list Value) n :
  (∀ v, v ∈ l → (json_depth v ≤ n)%nat) → (foldr (λ v n, Nat.max (json_depth v) n) O l ≤ n)%nat.
Proof.
  induction l as [|v l IH]; intros Hl; cbn [foldr]; [lia|].
  pose proof (Hl v ltac:(by left)). pose proof (IH ltac:(intros w Hw; apply Hl; by right)). lia.
Qed.
Lemma depth_fields (l : list (string * Value)) n :
  (∀ f, f ∈ l → (json_depth f.2 ≤ n)%nat) → (foldr (λ f n, Nat.max (json_depth f.2) n) O l ≤ n)%nat.
Proof.
  induction l as [|f l IH]; intros Hl; cbn [foldr]; [lia|].
  pose proof (Hl f ltac:(by left)). pose proof (IH ltac:(intros g Hg; apply Hl; by right)). lia.
Qed.

(** A file: its bytes, or its size and why it cannot be read. *)
Inductive dir_entry := Bytes (s : string) | Unreadable (size : nat) (why : string).

(** ** A serializer with which statements about files are evaluated *)

Definition ZERO_DIGIT : Ascii.ascii := Ascii.ascii_of_N 48.
Definition ONE_DIGIT : Ascii.ascii := Ascii.ascii_of_N 49.
Fixpoint bits (p : positive) : string :=
  match p with
  | xH => ""
  | xO p => String ZERO_DIGIT (bits p)
  | xI p => String ONE_DIGIT (bits p)
  end.
Fixpoint unbits (s : string) : option positive :=
  match s with
  | EmptyString => Some xH
  | String a s =>
      if byte_in 48 48 a then xO <$> unbits s else if byte_in 49 49 a then xI <$> unbits s else None
  end.

Lemma unbits_bits p : unbits (bits p) = Some p.
Proof. induction p as [p IH|p IH|]; cbn; by rewrite ?IH. Qed.
Lemma bits_digits p : all_bytes (byte_in 48 49) (bits p) = true.
Proof. by induction p. Qed.

(** ** Values as trees *)
Notation leaf := (string + (Z + (Z + (bool + ()))))%type.
Notation tree := (gen_tree leaf) (only parsing).
Fixpoint tree_of (v : Value) : tree :=
  match v with
  | VNull => GenLeaf (inr (inr (inr (inr ()))))
  | VBool b => GenLeaf (inr (inr (inr (inl b))))
  | VNumber (JPosInt n) => GenLeaf (inr (inl n))
  | VNumber (JNegInt n) => GenLeaf (inr (inr (inl n)))
  | VNumber (JFloat _) => GenLeaf (inr (inr (inr (inr ()))))
  | VString s => GenLeaf (inl s)
  | VArray l => GenNode 0 (tree_of <$> l)
  | VObject fields => GenNode 1 ((λ f, GenNode 2 [GenLeaf (inl f.1); tree_of f.2]) <$> fields)
  end.
Fixpoint of_tree (t : tree) : Value :=
  match t with
  | GenLeaf (inl s) => VString s
  | GenLeaf (inr (inl n)) => VNumber (JPosInt n)
  | GenLeaf (inr (inr (inl n))) => VNumber (JNegInt n)
  | GenLeaf (inr (inr (inr (inl b)))) => VBool b
  | GenLeaf _ => VNull
  | GenNode 0 l => VArray (of_tree <$> l)
  | GenNode _ fields =>
      VObject ((λ f, match f with GenNode _ [GenLeaf (inl k); v] => (k, of_tree v) | _ => ("", VNull) end) <$> fields)
  end.

(** Induction through lists and fields. *)
Fixpoint value_rect' (P : Value → Prop)
    (Hnull : P VNull) (Hbool : ∀ b, P (VBool b)) (Hnum : ∀ n, P (VNumber n)) (Hstr : ∀ s, P (VString s))
    (Harr : ∀ l, Forall P l → P (VArray l)) (Hobj : ∀ fields, Forall (λ f, P f.2) fields → P (VObject fields))
    (v : Value) : P v :=
  let go := value_rect' P Hnull Hbool Hnum Hstr Harr Hobj in
  match v with
  | VNull => Hnull
  | VBool b => Hbool b
  | VNumber n => Hnum n
  | VString s => Hstr s
  | VArray l =>
      Harr l ((fix all l : Forall P l :=
                 match l with [] => List.Forall_nil _ | v :: l => List.Forall_cons _ v l (go v) (all l) end) l)
  | VObject fields =>
      Hobj fields ((fix all l : Forall (λ f, P f.2) l :=
                      match l with
                      | [] => List.Forall_nil _
                      | (k, v) :: l => List.Forall_cons (λ f : string * Value, P f.2) (k, v) l (go v) (all l)
                      end) fields)
  end.

Lemma of_tree_of v : json_plain v = true → of_tree (tree_of v) = v.
Proof.
  induction v as [|b|[]|s|l IH|fields IH] using value_rect'; cbn; [done..| |]; intros Hp; f_equal.
  - rewrite forallb_true in Hp. rewrite <-list_fmap_compose. rewrite <-(list_fmap_id l) at 2.
    apply list_fmap_ext. intros i v Hv. eapply Forall_lookup_1 in IH; [|exact Hv].
    apply IH, Hp. by eapply list_elem_of_lookup_2.
  - apply andb_true_iff in Hp as [_ Hp]. rewrite forallb_true in Hp. rewrite <-list_fmap_compose.
    rewrite <-(list_fmap_id fields) at 2. apply list_fmap_ext. intros i [k v] Hv.
    eapply Forall_lookup_1 in IH; [|exact Hv]. cbn. f_equal.
    apply IH. apply (Hp (k, v)). by eapply list_elem_of_lookup_2.
Qed.

Definition tree_json : JsonText := {|
  to_vec v := bits (encode (tree_of v));
  from_slice s := unbits s ≫= λ p, of_tree <$> decode p;
  json_error _ := "expected value";
|}.

Lemma tree_json_laws : @JsonTextLaws tree_json.
Proof.
  intros v Hp _. unfold from_slice, to_vec, tree_json. rewrite unbits_bits. cbn.
  rewrite decode_encode. cbn. by rewrite of_tree_of.
Qed.

(** The pretty text, told from the other by its first byte. *)
Definition pretty_json : JsonText := {|
  to_vec := @to_vec tree_json;
  from_slice s := @from_slice tree_json (match s with String a s' => if byte_in 32 32 a then s' else s | _ => s end);
  json_error := @json_error tree_json;
|}.
Definition pretty_text : @PrettyText := λ v, " " +:+ @to_vec tree_json v.

Lemma pretty_json_laws : @JsonTextLaws pretty_json.
Proof.
  intros v Hp Hd. rewrite <-(tree_json_laws v Hp Hd). cbn. by destruct (encode (tree_of v)).
Qed.
Lemma pretty_text_laws : @PrettyTextLaws pretty_json pretty_text.
Proof. exact tree_json_laws. Qed.
