(* ===== verification/AuditTrail.v ===== *)
(** * The audit trail

    [rust/src/core/audit_trail.rs], [audit_trail/segments.rs] and
    [audit_trail/checkpoint.rs]: an append-only log whose entries are chained by
    hash, cut into sealed segments, and verified from a signed checkpoint when
    there is one.

    A file is its bytes.  What one call gets from the file system, the lock, the
    clock and the key store is a record of answers, so every failure the code
    handles can be given.  [serde_json]'s printing and parsing are parameters;
    what the code does with the parsed [Value] is modelled.  Counters of entries
    do not wrap.  The texts of foreign errors are left out of messages. *)
From S2P Require Import Prelude BTree Text Hashing Hex GraphModel TaskAuthority SecurityEvents Json.
#[local] Open Scope Z_scope.

(** ** JSON *)

(** [serde_json::to_string] of a [Value] and of a struct with the given fields,
    and [Deserializer::from_str(s).into_iter::<Value>()]: the values before the
    first error, and whether there was none. *)
Class AuditJson := {
  value_text : Value → string;
  struct_text : list (string * Value) → string;
  values_of : string → list Value * bool;
}.

(** ** UTF-8, as [std::str::from_utf8] accepts it *)
Definition is_continuation (a : Ascii.ascii) : bool := byte_in 128 191 a.
Definition second_byte (a b : Ascii.ascii) : bool :=
  (byte_in 224 224 a && byte_in 160 191 b) || (byte_in 225 236 a && byte_in 128 191 b)
  || (byte_in 237 237 a && byte_in 128 159 b) || (byte_in 238 239 a && byte_in 128 191 b)
  || (byte_in 240 240 a && byte_in 144 191 b) || (byte_in 241 243 a && byte_in 128 191 b)
  || (byte_in 244 244 a && byte_in 128 143 b).
Fixpoint utf8_valid (s : string) : bool :=
  match s with
  | EmptyString => true
  | String a s1 =>
      if byte_in 0 127 a then utf8_valid s1
      else match s1 with
           | EmptyString => false
           | String b s2 =>
               if byte_in 194 223 a then is_continuation b && utf8_valid s2
               else match s2 with
                    | EmptyString => false
                    | String c s3 =>
                        if byte_in 224 239 a then second_byte a b && is_continuation c && utf8_valid s3
                        else match s3 with
                             | EmptyString => false
                             | String d s4 => byte_in 240 244 a && second_byte a b && is_continuation c
                                              && is_continuation d && utf8_valid s4
                             end
                    end
           end
  end.

(** What the code relies on: an object is written from its brace on; a struct is
    written on one line of UTF-8, and what is read off that line has its fields,
    here for the values an entry has; blank text holds no value. *)
Definition flat (v : Value) : Prop :=
  match v with VNull | VString _ => True | VNumber (JPosInt n) => 0 ≤ n | _ => False end.
Definition BRACE : string := "{".
#[local] Arguments BRACE : simpl never.
Class AuditJsonLaws `{AuditJson} : Prop := {
  value_object fields : ∃ t, value_text (VObject fields) = BRACE +:+ t;
  struct_line fields : all_bytes (λ a, negb (byte_in 0 31 a)) (struct_text fields) = true;
  struct_read fields : NoDup fields.*1 → Forall flat fields.*2 →
    ∃ v, values_of (struct_text fields) = ([v], true) ∧ ∀ k, value_get v k = assoc k fields;
  struct_utf8 fields : utf8_valid (struct_text fields) = true;
  values_blank s : is_blank s = true → (values_of s).1 = [];
}.

(** ** Entries *)
Inductive AuditEventType :=
| ToolCall | ToolDenied | PathJailViolation | EventBudgetExceeded | CrossProjectAccess | RateLimited
| SecurityViolation | RoleChanged | SecretDetected | AgentRegistered | AgentSuspended | AgentResumed
| AgentDecommissioned | AgentDriftDetected | AgentDriftAcknowledged
| UnknownEvent (label : string).
#[export] Instance AuditEventType_eq_dec : EqDecision AuditEventType.
Proof. solve_decision. Defined.

Definition wire_label (e : AuditEventType) : string :=
  match e with
  | ToolCall => "tool_call"
  | ToolDenied => "tool_denied"
  | PathJailViolation => "path_jail_violation"
  | EventBudgetExceeded => "budget_exceeded"
  | CrossProjectAccess => "cross_project_access"
  | RateLimited => "rate_limited"
  | SecurityViolation => "security_violation"
  | RoleChanged => "role_changed"
  | SecretDetected => "secret_detected"
  | AgentRegistered => "agent_registered"
  | AgentSuspended => "agent_suspended"
  | AgentResumed => "agent_resumed"
  | AgentDecommissioned => "agent_decommissioned"
  | AgentDriftDetected => "agent_drift_detected"
  | AgentDriftAcknowledged => "agent_drift_acknowledged"
  | UnknownEvent label => label
  end.

Definition is_lowercase (a : Ascii.ascii) : bool := byte_in 97 122 a.
Definition valid_extension_event_label (label : string) : bool :=
  (str_len label <=? 64)
  && match strip_prefix "x-" label with
     | Some (String c rest) =>
         is_lowercase c && all_bytes (λ c, is_lowercase c || is_digit c || byte_in 95 95 c) rest
     | _ => false
     end.

(** [Serialize for AuditEventType]: [None] is the error. *)
Definition event_value (e : AuditEventType) : option Value :=
  match e with
  | UnknownEvent label => if valid_extension_event_label label then Some (VString label) else None
  | e => Some (VString (wire_label e))
  end.

(** [Deserialize for AuditEventType] *)
Definition known_events : list AuditEventType :=
  [ToolCall; ToolDenied; PathJailViolation; EventBudgetExceeded; CrossProjectAccess; RateLimited;
   SecurityViolation; RoleChanged; SecretDetected; AgentRegistered; AgentSuspended; AgentResumed;
   AgentDecommissioned; AgentDriftDetected; AgentDriftAcknowledged].
Definition event_of_label (label : string) : option AuditEventType :=
  match find_first (λ e, bool_decide (wire_label e = label)) known_events with
  | Some e => Some e
  | None => if valid_extension_event_label label then Some (UnknownEvent label) else None
  end.

Record AuditEntry := MkAuditEntry {
  ae_timestamp : string;
  ae_agent_id : string;
  ae_tool : string;
  ae_action : option string;
  ae_input_hash : string;
  ae_output_tokens : Z;
  ae_role : string;
  ae_event_type : AuditEventType;
  ae_prev_hash : string;
  ae_entry_hash : string;
  ae_signature : option string;
}.
Record AuditEntryData := MkEntryData {
  ad_agent_id : string;
  ad_tool : string;
  ad_action : option string;
  ad_input_hash : string;
  ad_output_tokens : Z;
  ad_role : string;
  ad_event_type : AuditEventType;
}.

(** What the derived [Deserialize for AuditEntry] reads off an object. *)
Definition entry_of_value (v : Value) : option AuditEntry :=
  timestamp ← str_field v "timestamp";
  agent_id ← str_field v "agent_id";
  tool ← str_field v "tool";
  action ← opt_str_field v "action";
  input_hash ← str_field v "input_hash";
  output_tokens ← value_get v "output_tokens" ≫= value_u32;
  role ← str_field v "role";
  event_type ← str_field v "event_type" ≫= event_of_label;
  prev_hash ← str_field v "prev_hash";
  entry_hash ← str_field v "entry_hash";
  signature ← opt_str_field v "signature";
  Some (MkAuditEntry timestamp agent_id tool action input_hash output_tokens role event_type
          prev_hash entry_hash signature).

Definition opt_value (o : option string) : Value := match o with Some s => VString s | None => VNull end.

(** The fields a chain hash covers: as the writer builds them, and as a reader
    takes them off an object ([hashed_fields]). *)
Definition hashed_object (agent_id tool action input_hash output_tokens role event_type : Value) : Value :=
  VObject [("agent_id", agent_id); ("tool", tool); ("action", action); ("input_hash", input_hash);
           ("output_tokens", output_tokens); ("role", role); ("event_type", event_type)].
Definition partial_fields (d : AuditEntryData) (event : Value) : Value :=
  hashed_object (VString (ad_agent_id d)) (VString (ad_tool d)) (opt_value (ad_action d))
    (VString (ad_input_hash d)) (VNumber (JPosInt (ad_output_tokens d))) (VString (ad_role d)) event.
Definition hashed_fields (v : Value) : option Value :=
  agent_id ← value_get v "agent_id";
  tool ← value_get v "tool";
  input_hash ← value_get v "input_hash";
  output_tokens ← value_get v "output_tokens";
  role ← value_get v "role";
  event_type ← value_get v "event_type";
  Some (hashed_object agent_id tool (default VNull (value_get v "action")) input_hash output_tokens role
          event_type).

(** ** Segments: names of seals *)
Definition SEGMENT_MAX_BYTES : Z := 64 * 1024 * 1024.
Definition SEAL_EVENT : string := "x-segment_sealed".
Definition seal_action (seq : Z) : string := "segment=" +:+ pretty seq.
Definition sealed_seq (action : option string) : option Z :=
  action ← action; digits ← strip_prefix "segment=" action; parse_u64 digits.
Definition is_seal (e : AuditEventType) : bool :=
  match e with UnknownEvent label => bool_decide (label = SEAL_EVENT) | _ => false end.
Definition is_unknown_event (e : AuditEventType) : bool :=
  match e with UnknownEvent _ => true | _ => false end.

(** ** The state of a verified prefix *)
Record SignedTallyEvidence := MkEvidence {
  te_counts : SecurityCounts;
  te_entries : Z;
  te_first_hash : option string;
  te_last_hash : option string;
}.
Definition SignedTallyEvidence_default : SignedTallyEvidence := MkEvidence ZERO 0 None None.
(** [SignedTallyEvidence::record] *)
Definition evidence_record (kind : SecurityKind) (n : Z) (hash : string) (e : SignedTallyEvidence) :
    SignedTallyEvidence :=
  MkEvidence (counts_add kind n (te_counts e)) (te_entries e + 1)
    (Some (default hash (te_first_hash e))) (Some hash).

Record ChainState := MkChainState {
  cs_prev_hash : string;
  cs_total : Z;
  cs_unknown : Z;
  cs_pending : gmap string (string * string);
  cs_tally : SignedTallyEvidence;
  cs_security : SignedTallyEvidence;
  cs_sealed : option Z;
}.
(** [ChainState::genesis] *)
Definition chain_genesis : ChainState :=
  MkChainState "genesis" 0 0 ∅ SignedTallyEvidence_default SignedTallyEvidence_default None.
Definition set_cs_kind (unknown : Z) (sealed : option Z) (c : ChainState) : ChainState :=
  MkChainState (cs_prev_hash c) (cs_total c) unknown (cs_pending c) (cs_tally c) (cs_security c) sealed.
Definition set_cs_evidence (tally security : SignedTallyEvidence) (c : ChainState) : ChainState :=
  MkChainState (cs_prev_hash c) (cs_total c) (cs_unknown c) (cs_pending c) tally security (cs_sealed c).
Definition set_cs_pending (pending : gmap string (string * string)) (c : ChainState) : ChainState :=
  MkChainState (cs_prev_hash c) (cs_total c) (cs_unknown c) pending (cs_tally c) (cs_security c)
    (cs_sealed c).
Definition set_cs_head (prev_hash : string) (total : Z) (c : ChainState) : ChainState :=
  MkChainState prev_hash total (cs_unknown c) (cs_pending c) (cs_tally c) (cs_security c) (cs_sealed c).

Section trail.
Context `{AuditJson} `{Sha256} `{ED : Ed25519}.

Definition compute_entry_hash (prev_hash data_json : string) : string :=
  sha256_hex (prev_hash +:+ data_json).

(** ** Verifying entries *)

(** The signature of an entry, under the public key the store has, if any. *)
Definition check_signature (key : option string) (entry : AuditEntry) : exec () () :=
  match ae_signature entry with
  | None => Ok ()
  | Some signature =>
      match hex_decode signature, key with
      | Ok signature, Some key =>
          reject_if (negb (verify_signature key (ae_entry_hash entry) signature)) ()
      | _, _ => Err ()
      end
  end.

(** Drift and seal entries must be signed. *)
Definition signature_required (e : AuditEventType) : bool :=
  is_seal e || bool_decide (e = AgentDriftDetected) || bool_decide (e = AgentDriftAcknowledged).

Definition record_evidence (entry : AuditEntry) (c : ChainState) : ChainState :=
  match ae_action entry ≫= parse_action with
  | Some (kind, n, _) =>
      set_cs_evidence
        (if in_signed_tally kind then evidence_record kind n (ae_entry_hash entry) (cs_tally c)
         else cs_tally c)
        (evidence_record kind n (ae_entry_hash entry) (cs_security c)) c
  | None => c
  end.

Definition drift_evidence (entry : AuditEntry) (evidence : string) : string * string :=
  (ae_timestamp entry, evidence +:+ " observation=" +:+ ae_entry_hash entry).

Definition pending_after (entry : AuditEntry) (pending : gmap string (string * string)) :
    gmap string (string * string) :=
  match ae_event_type entry with
  | AgentDriftDetected =>
      match ae_action entry with
      | Some evidence => <[ae_agent_id entry := drift_evidence entry evidence]> pending
      | None => pending
      end
  | AgentDriftAcknowledged =>
      match pending !! ae_agent_id entry with
      | Some (_, evidence) =>
          if bool_decide (ae_action entry = Some evidence) then delete (ae_agent_id entry) pending
          else pending
      | None => pending
      end
  | _ => pending
  end.

(** The segment an entry seals; a seal that names none is an error. *)
Definition sealed_by (entry : AuditEntry) : exec () (option Z) :=
  if is_seal (ae_event_type entry) then
    match sealed_seq (ae_action entry) with Some seq => Ok (Some seq) | None => Err () end
  else Ok None.

(** [ChainState::advance] *)
Definition advance (key : option string) (value : Value) : op ChainState () () :=
  c ← get;
  entry_prev ← lift (ok_or (str_field value "prev_hash") ());
  entry_hash ← lift (ok_or (str_field value "entry_hash") ());
  partial ← lift (ok_or (hashed_fields value) ());
  lift (reject_if (bool_decide (entry_prev ≠ cs_prev_hash c)) ());;
  let data_json := value_text partial in
  lift (reject_if (bool_decide (entry_hash ≠ compute_entry_hash (cs_prev_hash c) data_json)) ());;
  entry ← lift (ok_or (entry_of_value value) ());
  let seal := is_seal (ae_event_type entry) in
  let unknown := if is_unknown_event (ae_event_type entry) && negb seal then cs_unknown c + 1
                 else cs_unknown c in
  modify (λ c, set_cs_kind unknown (cs_sealed c) c);;
  sealed ← lift (sealed_by entry);
  modify (λ c, set_cs_kind (cs_unknown c) sealed c);;
  lift (reject_if (signature_required (ae_event_type entry)
                   && bool_decide (ae_signature entry = None)) ());;
  lift (check_signature key entry);;
  modify (record_evidence entry);;
  modify (λ c, set_cs_pending (pending_after entry (cs_pending c)) c);;
  modify (λ c, set_cs_head entry_hash (cs_total c + 1) c).

(** ** Verifying bytes *)

(** What a buffered reader yields: bytes, and whether it failed after them. *)
Record Reader := MkReader { rd_bytes : string; rd_failed : bool }.

(** The lines [read_until(b'\n')] cuts, without the newline, each with
    whether it had one. *)
Definition is_newline (a : Ascii.ascii) : bool := byte_in 10 10 a.
Fixpoint read_lines (s : string) : list (string * bool) :=
  match s with
  | EmptyString => []
  | String a tl =>
      if is_newline a then ("", true) :: read_lines tl
      else match read_lines tl with
           | (line, ended) :: rest => (String a line, ended) :: rest
           | [] => [(String a "", false)]
           end
  end.

(** A carriage return before the newline is dropped. *)
Fixpoint pop_cr (s : string) : string :=
  match s with
  | EmptyString => EmptyString
  | String a tl =>
      match tl with
      | EmptyString => if byte_in 13 13 a then EmptyString else s
      | _ => String a (pop_cr tl)
      end
  end.
Definition line_text (l : string * bool) : string := if l.2 then pop_cr l.1 else l.1.

Definition verify_line (key : option string) (l : string * bool) : op ChainState () () :=
  let line := line_text l in
  lift (reject_if (negb (utf8_valid line)) ());;
  let '(values, clean) := values_of line in
  fold_op (λ _, advance key) () values;;
  lift (reject_if (negb clean || match values with [] => true | _ => false end) ()).

Definition ends_on_newline (s : string) : bool :=
  match last (read_lines s) with Some (_, ended) => ended | None => true end.

(** [ChainState::verify_stream] *)
Definition verify_stream (key : option string) (r : Reader) : op ChainState () (Z * bool) :=
  let lines := read_lines (rd_bytes r) in
  fold_op (λ _, verify_line key) () (if rd_failed r then filter (λ l, l.2 = true) lines else lines);;
  lift (reject_if (rd_failed r) ());;
  mret (str_len (rd_bytes r), ends_on_newline (rd_bytes r)).

(** ** Checkpoints *)
Definition CHECKPOINT_VERSION : Z := 5.
Definition EDGE_BYTES : Z := 64 * 1024.
Definition FULL_REVERIFY_SECS : Z := 24 * 60 * 60.
Definition CLOCK_SKEW_SECS : Z := 300.

Record FileStamp := MkFileStamp {
  fs_size : Z;
  fs_dev : Z;
  fs_ino : Z;
  fs_mtime_secs : Z;
  fs_mtime_nanos : Z;
}.
#[export] Instance FileStamp_eq_dec : EqDecision FileStamp.
Proof. solve_decision. Defined.

Record Payload := MkPayload {
  pl_version : Z;
  pl_trail : string;
  pl_stamp : FileStamp;
  pl_head_digest : string;
  pl_tail_digest : string;
  pl_full_verified_at : Z;
  pl_start_hash : string;
  pl_start_total : Z;
  pl_state : ChainState;
}.
Record CheckpointEnvelope := MkCheckpoint { ck_payload : string; ck_signature : string }.

(** [serde_json] of a [Payload] *)
Class CheckpointJson := { payload_text : Payload → string; payload_of : string → option Payload }.
Context `{CheckpointJson}.

(** [checkpoint::Store]: the trail it is for and what its file holds; [None] is
    a file that is absent, unreadable, too large or no [Envelope]. *)
Record Store := MkStore { st_trail : string; st_file : option CheckpointEnvelope }.
Definition set_st_file (file : option CheckpointEnvelope) (s : Store) : Store := MkStore (st_trail s) file.

(** What the key store answers: [load_public_key] and [get_stored_signing_key]. *)
Record Keys := MkKeys { ks_public : option string; ks_signing : option SigningKey }.

Definition bytes_at (start n : Z) (s : string) : string := String.substring (Z.to_nat start) (Z.to_nat n) s.

Definition edge_digests (bytes : string) (offset : Z) : option (string * string) :=
  let window := Z.min offset EDGE_BYTES in
  let digest_at start := if start + window <=? str_len bytes
                         then Some (sha256_hex (bytes_at start window bytes)) else None in
  head ← digest_at 0;
  tail ← digest_at (offset - window);
  Some (head, tail).

(** [Store::authentic_prefix_of] *)
Definition authentic_prefix_of (keys : Keys) (store : Store) (bytes : string) (stamp : FileStamp) :
    option Payload :=
  envelope ← st_file store;
  signature ← match hex_decode (ck_signature envelope) with Ok s => Some s | _ => None end;
  public_key ← ks_public keys;
  if negb (verify_signature public_key (ck_payload envelope) signature) then None
  else
    payload ← payload_of (ck_payload envelope);
    if negb (pl_version payload =? CHECKPOINT_VERSION) || bool_decide (pl_trail payload ≠ st_trail store)
    then None
    else
      let offset := fs_size (pl_stamp payload) in
      if bool_decide ((fs_dev stamp, fs_ino stamp) ≠ (fs_dev (pl_stamp payload), fs_ino (pl_stamp payload)))
         || (fs_size stamp <? offset) then None
      else if (fs_size stamp =? offset) && bool_decide (stamp ≠ pl_stamp payload) then None
      else
        '(head, tail) ← edge_digests bytes offset;
        if bool_decide (head ≠ pl_head_digest payload) || bool_decide (tail ≠ pl_tail_digest payload)
        then None
        else Some payload.

Record Resumed := MkResumed { rs_offset : Z; rs_state : ChainState; rs_full_verified_at : Z }.

(** [Store::resume] *)
Definition resume (keys : Keys) (store : Store) (bytes : string) (stamp : FileStamp) (start : ChainState)
    (max_age : option Z) (now : Z) : option Resumed :=
  payload ← authentic_prefix_of keys store bytes stamp;
  if bool_decide (pl_start_hash payload ≠ cs_prev_hash start) || negb (pl_start_total payload =? cs_total start)
  then None
  else
    let age := now - pl_full_verified_at payload in
    if (age <? - CLOCK_SKEW_SECS) || match max_age with Some max_age => max_age <=? age | None => false end
    then None
    else Some (MkResumed (fs_size (pl_stamp payload)) (pl_state payload) (pl_full_verified_at payload)).

(** [Store::holds_prefix_of] *)
Definition holds_prefix_of (keys : Keys) (store : Store) (bytes : string) (stamp : FileStamp) : bool :=
  match authentic_prefix_of keys store bytes stamp with
  | Some payload => 0 <? fs_size (pl_stamp payload)
  | None => false
  end.

(** [Store::save]; [written] says whether the checkpoint file could be replaced. *)
Definition save (keys : Keys) (written : bool) (bytes : string) (stamp : FileStamp)
    (start state : ChainState) (full_verified_at : Z) (store : Store) : Store :=
  if fs_size stamp =? 0 then store
  else match edge_digests bytes (fs_size stamp), ks_signing keys with
       | Some (head, tail), Some key =>
           let payload := payload_text (MkPayload CHECKPOINT_VERSION (st_trail store) stamp head tail
             full_verified_at (cs_prev_hash start) (cs_total start) state) in
           let signature := hex_encode (ed25519_sign key payload) in
           if written then set_st_file (Some (MkCheckpoint payload signature)) store else store
       | _, _ => store
       end.

(** ** Verifying a trail *)

(** What one call sees of one file: the lock, [FileStamp::of], [metadata], the
    bytes [file[..len]], and how the two passes over them go: whether the seek
    works, after how many bytes a read fails, and whether the file still holds
    the bytes afterwards; last, whether a checkpoint can be written and whether
    it can be removed. *)
Record Pass := MkPass { ps_seek : bool; ps_fails_after : option Z; ps_still : bool }.
Record FileView := MkFileView {
  fv_locked : bool;
  fv_stamp : option FileStamp;
  fv_len : option Z;
  fv_bytes : string;
  fv_resumed : Pass;
  fv_full : Pass;
  fv_saved : bool;
  fv_removed : bool;
}.

(** [Store::discard]; [removed] says whether the checkpoint file could be removed. *)
Definition discard (removed : bool) (store : Store) : Store :=
  if removed then set_st_file None store else store.

Definition reader_of (pass : Pass) (bytes : string) : Reader :=
  match ps_fails_after pass with
  | Some n => MkReader (bytes_at 0 n bytes) true
  | None => MkReader bytes false
  end.

Inductive Verified := Missing | Unavailable | Invalid (state : ChainState) | Valid (state : ChainState).

(** The full pass of [verify_file], which refreshes or discards the checkpoint. *)
Definition verify_full (keys : Keys) (view : FileView) (store : option Store) (start : ChainState)
    (now : Z) : Verified * option Store :=
  if negb (ps_seek (fv_full view)) then (Unavailable, store)
  else
    let '(state, pass) := verify_stream (ks_public keys) (reader_of (fv_full view) (fv_bytes view)) start in
    if negb (ps_still (fv_full view)) then (Unavailable, store)
    else match pass with
         | Ok (read, clean) =>
             (Valid state,
              match store, fv_stamp view with
              | Some store, Some stamp =>
                  if clean && (read =? fs_size stamp)
                  then Some (save keys (fv_saved view) (fv_bytes view) stamp start state now store)
                  else Some store
              | store, _ => store
              end)
         | _ => (Invalid state, discard (fv_removed view) <$> store)
         end.

(** [verify_file] *)
Definition verify_file (keys : Keys) (view : FileView) (store : option Store) (start : ChainState)
    (force_full : bool) (max_age : option Z) (now : Z) : Verified * option Store :=
  if negb (fv_locked view) then (Unavailable, store)
  else match (match fv_stamp view with Some stamp => Some (fs_size stamp) | None => fv_len view end) with
  | None => (Unavailable, store)
  | Some _ =>
      let full := verify_full keys view store start now in
      match force_full, store, fv_stamp view with
      | false, Some s, Some stamp =>
          match resume keys s (fv_bytes view) stamp start max_age now with
          | Some resumed =>
              if rs_offset resumed =? fs_size stamp then (Valid (rs_state resumed), store)
              else if ps_seek (fv_resumed view) then
                let suffix := drop_bytes (Z.to_nat (rs_offset resumed)) (fv_bytes view) in
                let '(state, pass) := verify_stream (ks_public keys) (reader_of (fv_resumed view) suffix)
                                        (rs_state resumed) in
                if negb (ps_still (fv_resumed view)) then (Unavailable, store)
                else match pass with
                     | Ok (read, clean) =>
                         (Valid state,
                          if clean && (rs_offset resumed + read =? fs_size stamp)
                          then Some (save keys (fv_saved view) (fv_bytes view) stamp start state
                                       (rs_full_verified_at resumed) s)
                          else store)
                     | _ => full
                     end
              else full
          | None => full
          end
      | _, _, _ => full
      end
  end.

(** A file of the trail: [None] when it cannot be opened; and its checkpoint. *)
Record TrailFile := MkTrailFile { tf_view : option FileView; tf_store : option Store }.

Fixpoint verify_segments (keys : Keys) (force_full : bool) (now : Z) (sample : option Z) (index : Z)
    (segments : list (Z * TrailFile)) (state : ChainState) : Verified * list (Z * TrailFile) :=
  match segments with
  | [] => (Valid state, [])
  | (seq, file) :: rest =>
      match tf_view file with
      | None => (Unavailable, segments)
      | Some view =>
          let max_age := if bool_decide (Some index = sample) then Some FULL_REVERIFY_SECS else None in
          let '(verdict, store) := verify_file keys view (tf_store file) state force_full max_age now in
          let file := MkTrailFile (Some view) store in
          match verdict with
          | Valid state =>
              if bool_decide (cs_sealed state = Some seq) then
                let '(verdict, rest) :=
                  verify_segments keys force_full now sample (index + 1) rest state in
                (verdict, (seq, file) :: rest)
              else (Invalid state, (seq, file) :: rest)
          | verdict => (verdict, (seq, file) :: rest)
          end
      end
  end.

(** [verify_snapshot] *)
Definition verify_snapshot (keys : Keys) (segments : list (Z * TrailFile))
    (active : option (FileView * option Store)) (force_full : bool) (now : Z) :
    Verified * (list (Z * TrailFile) * option (FileView * option Store)) :=
  match segments, active with
  | [], None => (Missing, (segments, active))
  | _, _ =>
      let day := Z.max 0 (now / (24 * 60 * 60)) in
      let sample := match segments with [] => None | _ => Some (day mod vec_len segments) end in
      let '(verdict, segments) := verify_segments keys force_full now sample 0 segments chain_genesis in
      match verdict, active with
      | Valid state, Some (view, store) =>
          let '(verdict, store) :=
            verify_file keys view store state force_full (Some FULL_REVERIFY_SECS) now in
          (verdict, (segments, Some (view, store)))
      | verdict, active => (verdict, (segments, active))
      end
  end.

(** One attempt of [verify_state_at]: the segments listed, the active file
    ([Err] when it cannot be opened although it is there), and whether the list
    was the same afterwards. *)
Record Attempt := MkAttempt {
  at_segments : list (Z * TrailFile);
  at_active : exec () (option (FileView * option Store));
  at_unmoved : bool;
}.
Definition SNAPSHOT_ATTEMPTS : nat := 3.

Fixpoint verify_attempts (keys : Keys) (force_full : bool) (now : Z) (attempts : list Attempt) : Verified :=
  match attempts with
  | [] => Unavailable
  | a :: attempts =>
      match at_active a with
      | Ok active =>
          if at_unmoved a then (verify_snapshot keys (at_segments a) active force_full now).1
          else verify_attempts keys force_full now attempts
      | _ => Unavailable
      end
  end.
(** [verify_state_at] *)
Definition verify_state_at (keys : Keys) (force_full : bool) (now : Z) (attempts : list Attempt) : Verified :=
  verify_attempts keys force_full now (take SNAPSHOT_ATTEMPTS attempts).

Record ChainVerifyResult := MkChainVerify {
  cv_total_entries : Z;
  cv_valid : bool;
  cv_first_invalid_at : option Z;
  cv_source_present : bool;
  cv_unknown_event_types : Z;
}.
(** [unavailable], [invalid_at] and [ChainState::valid] *)
Definition chain_unavailable : ChainVerifyResult := MkChainVerify 0 false (Some 0) false 0.
Definition invalid_at (total unknown : Z) : ChainVerifyResult :=
  MkChainVerify total false (Some total) true unknown.
Definition chain_valid (c : ChainState) (agent_id : option string) :
    ChainVerifyResult * option (string * string) :=
  (MkChainVerify (cs_total c) true None true (cs_unknown c), agent_id ≫= λ id, cs_pending c !! id).

(** [verify_chain_mode_at] *)
Definition chain_report (agent_id : option string) (v : Verified) :
    ChainVerifyResult * option (string * string) :=
  match v with
  | Missing => (MkChainVerify 0 true None false 0, None)
  | Unavailable => (chain_unavailable, None)
  | Invalid c => (invalid_at (cs_total c) (cs_unknown c), None)
  | Valid c => chain_valid c agent_id
  end.

(** [verified_signed_tally_at] and [verified_security_at] *)
Definition verified_signed_tally (v : Verified) : option SignedTallyEvidence :=
  match v with
  | Missing => Some SignedTallyEvidence_default
  | Valid c => Some (cs_tally c)
  | Unavailable | Invalid _ => None
  end.
Definition verified_security (v : Verified) : ChainVerifyResult * option SignedTallyEvidence :=
  ((chain_report None v).1,
   match v with
   | Missing => Some SignedTallyEvidence_default
   | Valid c => Some (cs_security c)
   | Unavailable | Invalid _ => None
   end).

(** [latest_unacknowledged_drift], on what [verify_chain_with_drift] found *)
Definition latest_unacknowledged_drift (agent_id : string) (v : Verified) :
    exec string (option (string * string)) :=
  let '(chain, pending) := chain_report (Some agent_id) v in
  reject_if (negb (cv_source_present chain)) "audit trail unavailable";;
  reject_if (negb (cv_valid chain))
    ("audit chain invalid at entry "
     +:+ pretty (default (cv_total_entries chain) (cv_first_invalid_at chain)));;
  reject_if (cv_total_entries chain =? 0) "audit trail unavailable";;
  Ok pending.

(** ** Appending *)

(** The trail on disk: its sealed segments in the order of their numbers, its
    active file, and until when the process does not seal. *)
Record Trail := MkTrail {
  tr_sealed : list (Z * string);
  tr_active : option string;
  tr_back_off : Z;
}.
Definition set_tr_active (bytes : string) (t : Trail) : Trail :=
  MkTrail (tr_sealed t) (Some bytes) (tr_back_off t).

(** [DateTime::parse_from_rfc3339] and [date_naive]: the UTC day of a time stamp
    and of an instant. *)
Class Calendar := { rfc3339_day : string → option Z; utc_day : Z → Z }.
Context `{Calendar}.

(** How one write ends: complete; failed and cut back; or failed and not cut
    back, with some bytes left behind. *)
Inductive AppendFate := Written | RolledBack | Torn (n : Z).

(** What one try to open the active file gets: an error of the open, one of the
    lock, and whether the file is still the one at its path ([is_current]). *)
Record OpenAnswer := MkOpenAnswer { oa_open : option string; oa_lock : option string; oa_current : bool }.

(** What one attempt to append gets from the system: the tries to open the file,
    then for each step an error or none, the signing key or why there is none, the
    clocks, the outcome of each write, and whether this build has verified the
    trail ([verified_once]). *)
Record AppendEnv := MkAppendEnv {
  ax_open : list OpenAnswer;
  ax_tail : option string;
  ax_segment : option string;
  ax_stat : option string;
  ax_checkpoint : bool;
  ax_unix_now : Z;
  ax_key : string + SigningKey;
  ax_timestamp : string;
  ax_seal_timestamp : string;
  ax_seal_write : AppendFate;
  ax_retire : option string;
  ax_tail_again : option string;
  ax_write : AppendFate;
}.
Definition io_step (error : option string) : exec string () :=
  match error with Some e => Err e | None => Ok () end.

Definition entry_fields (e : AuditEntry) (event : Value) : list (string * Value) :=
  [("timestamp", VString (ae_timestamp e)); ("agent_id", VString (ae_agent_id e));
   ("tool", VString (ae_tool e)); ("action", opt_value (ae_action e));
   ("input_hash", VString (ae_input_hash e)); ("output_tokens", VNumber (JPosInt (ae_output_tokens e)));
   ("role", VString (ae_role e)); ("event_type", event); ("prev_hash", VString (ae_prev_hash e));
   ("entry_hash", VString (ae_entry_hash e))]
  ++ match ae_signature e with Some s => [("signature", VString s)] | None => [] end.

Definition NEWLINE : string := String (Ascii.ascii_of_N 10) "".

(** [append_locked], on the bytes of the locked file *)
Definition append_locked (signing : string + SigningKey) (timestamp : string) (fate : AppendFate)
    (data : AuditEntryData) (prev_hash : string) : op string string AuditEntry :=
  let authenticated_drift := signature_required (ad_event_type data) in
  event ← lift (expect (event_value (ad_event_type data)));
  let entry_hash := compute_entry_hash prev_hash (value_text (partial_fields data event)) in
  signature ← lift match signing with
                   | inr key => Ok (Some (hex_encode (ed25519_sign key entry_hash)))
                   | inl e => if authenticated_drift then Err ("audit signature: " +:+ e) else Ok None
                   end;
  let entry := MkAuditEntry timestamp (ad_agent_id data) (ad_tool data) (ad_action data)
                 (ad_input_hash data) (ad_output_tokens data) (ad_role data) (ad_event_type data)
                 prev_hash entry_hash signature in
  let line := struct_text (entry_fields entry event) +:+ NEWLINE in
  match fate with
  | Written => modify (λ bytes, bytes +:+ line);; mret entry
  | RolledBack => lift (Err "audit append")
  | Torn n => modify (λ bytes, bytes +:+ bytes_at 0 n line);; lift (Err "audit append")
  end.

(** [segments::due] *)
Definition due (len : Z) (last : option string) (now : Z) : bool :=
  if len =? 0 then false
  else if SEGMENT_MAX_BYTES <=? len then true
  else match last ≫= rfc3339_day with Some day => day <? utc_day now | None => false end.

Definition BACK_OFF_SECS : Z := 60 * 60.

(** [read_tail_entry] *)
Definition TAIL : Z := 64 * 1024.
Definition has_hash (v : Value) : bool := bool_decide (is_Some (str_field v "entry_hash")).
Fixpoint tail_entry (lines : list (string * bool)) : exec string (option Value) :=
  match lines with
  | [] => Err "audit tail: no readable chain head"
  | l :: lines =>
      let line := line_text l in
      if is_blank line then tail_entry lines
      else
        let '(values, clean) := values_of line in
        if negb clean then Err "audit tail parse"
        else match last (filter (λ v, has_hash v = true) values) with
             | Some v => Ok (Some v)
             | None => tail_entry lines
             end
  end.
Definition read_tail_entry (bytes : string) : exec string (option Value) :=
  if str_len bytes =? 0 then Ok None
  else
    let tail := drop_bytes (Z.to_nat (str_len bytes - TAIL)) bytes in
    reject_if (negb (utf8_valid tail)) "audit tail read";;
    tail_entry (rev (read_lines tail)).
(** [read_last_hash_tail] *)
Definition read_last_hash_tail (bytes : string) : exec string string :=
  last ← read_tail_entry bytes;
  Ok (default "genesis" (last ≫= λ v, str_field v "entry_hash")).

Definition seal_data (seq : Z) : AuditEntryData :=
  MkEntryData "lean-ctx" "audit_trail" (Some (seal_action seq)) "" 0 "system" (UnknownEvent SEAL_EVENT).

(** A write to the active file. *)
Definition on_active {A : Type} (m : op string string A) : op Trail string A :=
  λ t, let '(bytes, r) := m (default "" (tr_active t)) in (set_tr_active bytes t, r).

Definition next_seq (t : Trail) : Z := match last (tr_sealed t) with Some (seq, _) => seq + 1 | None => 0 end.

Fixpoint insert_segment (seq : Z) (bytes : string) (l : list (Z * string)) : list (Z * string) :=
  match l with
  | [] => [(seq, bytes)]
  | (s, b) :: l => if seq <? s then (seq, bytes) :: (s, b) :: l else (s, b) :: insert_segment seq bytes l
  end.

(** [segments::retire] *)
Definition retire (error : option string) (seq : Z) : op Trail string () :=
  t ← get;
  lift (reject_if (bool_decide (seq ∈ (tr_sealed t).*1)) "audit segment already exists");;
  lift (io_step error);;
  modify (λ t, MkTrail (insert_segment seq (default "" (tr_active t)) (tr_sealed t)) None (tr_back_off t)).

Inductive Appended := Done (entry : AuditEntry) | Moved (data : AuditEntryData).

(** [append_or_seal] after the decision to retire segment [seq]. *)
Definition retire_or_append (ax : AppendEnv) (data : AuditEntryData) (seq : Z) : op Trail string Appended :=
  λ t, match retire (ax_retire ax) seq t with
       | (t, Ok _) => (t, Ok (Moved data))
       | (t, Err _) =>
           (modify (λ t, MkTrail (tr_sealed t) (tr_active t) (ax_unix_now ax + BACK_OFF_SECS));;
            t ← get;
            lift (io_step (ax_tail_again ax));;
            prev_hash ← lift (read_last_hash_tail (default "" (tr_active t)));
            entry ← on_active (append_locked (ax_key ax) (ax_timestamp ax) (ax_write ax) data prev_hash);
            mret (Done entry)) t
       | (t, Panic) => (t, Panic)
       | (t, Hang) => (t, Hang)
       end.

(** [append_or_seal] *)
Definition append_or_seal (ax : AppendEnv) (now : Z) (data : AuditEntryData) : op Trail string Appended :=
  t ← get;
  let bytes := default "" (tr_active t) in
  lift (io_step (ax_tail ax));;
  last_entry ← lift (read_tail_entry bytes);
  match last_entry with
  | None =>
      prev_hash ← lift match last (tr_sealed t) with
                       | Some (_, segment) => io_step (ax_segment ax);; read_last_hash_tail segment
                       | None => Ok "genesis"
                       end;
      entry ← on_active (append_locked (ax_key ax) (ax_timestamp ax) (ax_write ax) data prev_hash);
      mret (Done entry)
  | Some v =>
      let last_hash := default "" (str_field v "entry_hash") in
      let next := next_seq t in
      let sealed := if bool_decide (str_field v "event_type" = Some SEAL_EVENT)
                    then sealed_seq (str_field v "action") else None in
      lift (io_step (ax_stat ax));;
      if bool_decide (sealed = Some next) then retire_or_append ax data next
      else if match sealed with Some seq => seq <? next | None => false end then mret (Moved data)
      else if due (str_len bytes) (str_field v "timestamp") now
              && negb (ax_unix_now ax <? tr_back_off t) && ax_checkpoint ax
      then
        on_active (append_locked (ax_key ax) (ax_seal_timestamp ax) (ax_seal_write ax) (seal_data next)
                     last_hash);;
        retire_or_append ax data next
      else
        entry ← on_active (append_locked (ax_key ax) (ax_timestamp ax) (ax_write ax) data last_hash);
        mret (Done entry)
  end.

(** [open_active_locked]: the file is created if it was not there. *)
Fixpoint open_attempts (tries : list OpenAnswer) : op Trail string () :=
  match tries with
  | [] => lift (Err "audit trail: the active file kept moving")
  | a :: tries =>
      lift (io_step (oa_open a));;
      modify (λ t, set_tr_active (default "" (tr_active t)) t);;
      lift (io_step (oa_lock a));;
      if oa_current a then mret () else open_attempts tries
  end.
Definition open_active_locked (ax : AppendEnv) : op Trail string () :=
  open_attempts (take SNAPSHOT_ATTEMPTS (ax_open ax)).

(** [try_record_at_time] *)
Fixpoint record_attempts (now : Z) (envs : list AppendEnv) (data : AuditEntryData) :
    op Trail string AuditEntry :=
  match envs with
  | [] => lift (Err "audit trail: the active file kept moving")
  | ax :: envs =>
      open_active_locked ax;;
      appended ← append_or_seal ax now data;
      match appended with
      | Done entry => mret entry
      | Moved data => record_attempts now envs data
      end
  end.
Definition try_record_at_time (now : Z) (envs : list AppendEnv) (data : AuditEntryData) :
    op Trail string AuditEntry :=
  record_attempts now (take SNAPSHOT_ATTEMPTS envs) data.
End trail.
