(* ===== verification/AuditFacts.v ===== *)
(** * What a verified audit trail guarantees

    A pass accepts exactly the chained entries it can authenticate; its head
    binds every entry before it; passes compose, so that a pass resumed from a
    checkpoint decides what a full pass decides. *)
From S2P Require Import Prelude BTree Text Hashing Hex GraphModel TaskAuthority SecurityEvents.
From S2P Require Import Json AuditTrail.
#[local] Open Scope Z_scope.

(** ** Loops *)
Lemma fold_op_app {S E A X} (f : A → X → op S E A) a xs ys s :
  fold_op f a (xs ++ ys) s = (fold_op f a xs ≫= λ a', fold_op f a' ys) s.
Proof.
  revert a s. induction xs as [|x xs IH]; intros a s; [done|].
  cbn. unfold mbind, op_mbind, op_bind. destruct (f a x s) as [s' [a'| | |]]; [apply IH|done..].
Qed.

Lemma fold_op_cons {S E X} (f : X → op S E ()) x xs s s' :
  fold_op (λ _, f) () (x :: xs) s = (s', Ok ()) ↔
    ∃ s1, f x s = (s1, Ok ()) ∧ fold_op (λ _, f) () xs s1 = (s', Ok ()).
Proof.
  change (fold_op (λ _, f) () (x :: xs) s) with ((f x ≫= λ a, fold_op (λ _, f) a xs) s).
  rewrite op_bind_Ok. split; [intros (s1 & [] & H1 & H2)|intros (s1 & H1 & H2)]; [by exists s1|by exists s1, ()].
Qed.

Lemma fold_op_app_Ok {S E X} (f : X → op S E ()) xs ys s s' :
  fold_op (λ _, f) () (xs ++ ys) s = (s', Ok ()) ↔
    ∃ s1, fold_op (λ _, f) () xs s = (s1, Ok ()) ∧ fold_op (λ _, f) () ys s1 = (s', Ok ()).
Proof.
  rewrite fold_op_app, op_bind_Ok.
  split; [intros (s1 & [] & H1 & H2)|intros (s1 & H1 & H2)]; [by exists s1|by exists s1, ()].
Qed.

Section audit.
Context `{AJ : AuditJson} `{SH : Sha256} `{ED : Ed25519}.

(** ** One entry *)

(** What [advance] asks of a value, and the state it reaches. *)
Record accepted (key : option string) (c : ChainState) (v : Value) (entry : AuditEntry) (partial : Value)
    (sealed : option Z) : Prop := {
  acc_prev : str_field v "prev_hash" = Some (cs_prev_hash c);
  acc_fields : hashed_fields v = Some partial;
  acc_hash : str_field v "entry_hash" = Some (compute_entry_hash (cs_prev_hash c) (value_text partial));
  acc_entry : entry_of_value v = Some entry;
  acc_sealed : sealed_by entry = Ok sealed;
  acc_required : signature_required (ae_event_type entry) = true → ae_signature entry ≠ None;
  acc_signature : check_signature key entry = Ok ();
}.

Definition advanced (c : ChainState) (entry : AuditEntry) (sealed : option Z) : ChainState :=
  let unknown := if is_unknown_event (ae_event_type entry) && negb (is_seal (ae_event_type entry))
                 then cs_unknown c + 1 else cs_unknown c in
  let c1 := record_evidence entry (set_cs_kind unknown sealed c) in
  set_cs_head (ae_entry_hash entry) (cs_total c + 1) (set_cs_pending (pending_after entry (cs_pending c)) c1).

Lemma entry_of_value_hash v entry :
  entry_of_value v = Some entry →
  str_field v "entry_hash" = Some (ae_entry_hash entry) ∧ str_field v "prev_hash" = Some (ae_prev_hash entry).
Proof.
  unfold entry_of_value. intros Hv. repeat (apply bind_Some in Hv as (? & ? & Hv)).
  injection Hv as <-. done.
Qed.

Lemma record_evidence_rest entry c :
  cs_prev_hash (record_evidence entry c) = cs_prev_hash c ∧ cs_total (record_evidence entry c) = cs_total c
  ∧ cs_pending (record_evidence entry c) = cs_pending c ∧ cs_sealed (record_evidence entry c) = cs_sealed c
  ∧ cs_unknown (record_evidence entry c) = cs_unknown c.
Proof. unfold record_evidence. by destruct (ae_action entry ≫= parse_action) as [[[]]|]. Qed.

Lemma advanced_steps h entry unknown sealed c :
  let c1 := record_evidence entry (set_cs_kind unknown sealed c) in
  let c2 := set_cs_pending (pending_after entry (cs_pending c1)) c1 in
  set_cs_head h (cs_total c2 + 1) c2
  = set_cs_head h (cs_total c + 1) (set_cs_pending (pending_after entry (cs_pending c)) c1).
Proof. unfold record_evidence. by destruct (ae_action entry ≫= parse_action) as [[[]]|]. Qed.

Lemma advance_Ok key v c c' :
  advance key v c = (c', Ok ()) ↔
    ∃ entry partial sealed, accepted key c v entry partial sealed ∧ c' = advanced c entry sealed.
Proof.
  split.
  - intros Hrun. unfold advance in Hrun. inv_op Hrun.
    destruct (entry_of_value_hash _ _ ltac:(eassumption)) as [Hh Hp].
    repeat match goal with
           | H : bool_decide (¬ _) = false |- _ => apply bool_decide_eq_false, dec_stable in H
           | H : _ && _ = false |- _ => apply andb_false_iff in H
           | u : () |- _ => destruct u
           end.
    subst. eexists _, _, _. split.
    + split; try eassumption. intros Hr.
      match goal with H : _ ∨ _ |- _ => destruct H as [Hf|Hf] end;
        [by rewrite Hr in Hf|by apply bool_decide_eq_false in Hf].
    + replace (compute_entry_hash _ _) with (ae_entry_hash a4) by congruence. apply advanced_steps.
  - intros (entry & partial & sealed & [] & ->).
    destruct (entry_of_value_hash _ _ acc_entry0) as [Hh Hp].
    assert (compute_entry_hash (cs_prev_hash c) (value_text partial) = ae_entry_hash entry) as Hhash
      by congruence.
    unfold advance, mbind, op_mbind, op_bind, get, lift, modify.
    rewrite acc_prev0, acc_hash0, acc_fields0, acc_entry0. cbn [ok_or].
    rewrite !bool_decide_eq_false_2 by tauto. cbn [reject_if]. rewrite acc_sealed0, acc_signature0.
    replace (signature_required _ && _) with false; [cbn [reject_if]|].
    + rewrite Hhash. f_equal. apply advanced_steps.
    + destruct (signature_required _); [|done]. symmetry. by apply bool_decide_eq_false_2, acc_required0.
Qed.

(** ** Streams *)
Notation advance_all key := (fold_op (λ _, advance key) ()).

Definition line_values (l : string * bool) : list Value := (values_of (line_text l)).1.
Definition values_in (bytes : string) : list Value := mjoin (line_values <$> read_lines bytes).
Definition line_ok (l : string * bool) : Prop :=
  utf8_valid (line_text l) = true ∧ (values_of (line_text l)).2 = true ∧ line_values l ≠ [].

Lemma verify_line_Ok key l c c' :
  verify_line key l c = (c', Ok ()) ↔ line_ok l ∧ advance_all key (line_values l) c = (c', Ok ()).
Proof.
  unfold verify_line, line_ok, line_values. destruct (values_of (line_text l)) as [values clean]. cbn [fst snd].
  split.
  - intros Hrun. inv_op Hrun.
    repeat match goal with
           | H : _ || _ = false |- _ => apply orb_false_iff in H as [? ?]
           | H : negb _ = false |- _ => apply negb_false_iff in H
           | u : () |- _ => destruct u
           end. by destruct values.
  - intros [(Hu & -> & Hv) Hrun]. unfold mbind, op_mbind, op_bind, lift. rewrite Hu. cbn [negb reject_if].
    rewrite Hrun. by destruct values.
Qed.

Lemma verify_lines_Ok key ls c c' :
  fold_op (λ _, verify_line key) () ls c = (c', Ok ()) ↔
    Forall line_ok ls ∧ advance_all key (mjoin (line_values <$> ls)) c = (c', Ok ()).
Proof.
  revert c. induction ls as [|l ls IH]; intros c; [by split; [|intros [_ ?]]|].
  rewrite fold_op_cons, Forall_cons. cbn [fmap list_fmap mjoin list_join]. rewrite fold_op_app_Ok.
  setoid_rewrite verify_line_Ok. setoid_rewrite IH. naive_solver.
Qed.

Lemma verify_stream_Ok key b c c' r :
  verify_stream key (MkReader b false) c = (c', Ok r) ↔
    r = (str_len b, ends_on_newline b) ∧ Forall line_ok (read_lines b)
    ∧ advance_all key (values_in b) c = (c', Ok ()).
Proof.
  unfold verify_stream, values_in. cbn [rd_failed rd_bytes]. rewrite <-verify_lines_Ok. split.
  - intros Hrun. inv_op Hrun. by destruct a.
  - intros [-> Hrun]. unfold mbind, op_mbind, op_bind. by rewrite Hrun.
Qed.

(** ** Lines *)
Lemma read_lines_nil s : read_lines s = [] ↔ s = "".
Proof.
  destruct s as [|a s]; [done|]. cbn. destruct (is_newline a); [done|].
  by destruct (read_lines s) as [|[]].
Qed.

Lemma ends_on_newline_cons a s : s ≠ "" → ends_on_newline (String a s) = ends_on_newline s.
Proof.
  intros Hs. unfold ends_on_newline. cbn. destruct (read_lines s) as [|[line ended] rest] eqn:E.
  - by apply read_lines_nil in E.
  - destruct (is_newline a); [done|]. by destruct rest.
Qed.

Lemma read_lines_app p q : ends_on_newline p = true → read_lines (p +:+ q) = read_lines p ++ read_lines q.
Proof.
  induction p as [|a p IH]; intros Hp; [done|].
  change (String a p +:+ q) with (String a (p +:+ q)). cbn [read_lines].
  destruct (decide (p = "")) as [->|Hne].
  - change ("" +:+ q) with q. unfold ends_on_newline in Hp. cbn in Hp |- *.
    by destruct (is_newline a).
  - rewrite ends_on_newline_cons in Hp by done. rewrite IH by done.
    destruct (is_newline a); [done|].
    destruct (read_lines p) as [|[line ended] rest] eqn:E; [by apply read_lines_nil in E|done].
Qed.

Lemma ends_on_newline_app p q :
  ends_on_newline p = true → ends_on_newline q = true → ends_on_newline (p +:+ q) = true.
Proof.
  intros Hp Hq. unfold ends_on_newline. rewrite read_lines_app by done. rewrite last_app.
  unfold ends_on_newline in *. by destruct (last (read_lines q)) as [[]|].
Qed.

Lemma values_in_app p q : ends_on_newline p = true → values_in (p +:+ q) = values_in p ++ values_in q.
Proof. intros Hp. unfold values_in. by rewrite read_lines_app, fmap_app, join_app. Qed.

(** A stream that ends on a newline is verified like its two parts. *)
Lemma verify_stream_app key p q c :
  ends_on_newline p = true →
  verify_stream key (MkReader (p +:+ q) false) c =
    match verify_stream key (MkReader p false) c with
    | (c1, Ok _) =>
        match verify_stream key (MkReader q false) c1 with
        | (c2, Ok _) => (c2, Ok (str_len (p +:+ q), ends_on_newline (p +:+ q)))
        | r => r
        end
    | r => r
    end.
Proof.
  intros Hp. unfold verify_stream. cbn [rd_failed rd_bytes]. rewrite read_lines_app by done.
  unfold mbind, op_mbind, op_bind. rewrite fold_op_app. unfold mbind, op_mbind, op_bind.
  destruct (fold_op _ () (read_lines p) c) as [c1 [[]| | |]]; try done. cbn.
  by destruct (fold_op _ () (read_lines q) c1) as [c2 [[]| | |]].
Qed.

(** ** The head binds the history *)
Definition hashed_text (v : Value) : string :=
  match hashed_fields v with Some partial => value_text partial | None => "" end.
Definition chain_head (start : string) (texts : list string) : string := foldl compute_entry_hash start texts.

(** The strings a pass hashes. *)
Fixpoint hash_inputs (prev : string) (texts : list string) : list string :=
  match texts with
  | [] => []
  | x :: texts => (prev +:+ x) :: hash_inputs (compute_entry_hash prev x) texts
  end.

Lemma hash_inputs_snoc prev texts x :
  hash_inputs prev (texts ++ [x]) = hash_inputs prev texts ++ [chain_head prev texts +:+ x].
Proof. revert prev. induction texts as [|y texts IH]; intros prev; [done|]. cbn. by rewrite IH. Qed.

Definition not_brace (a : Ascii.ascii) : bool := negb (byte_in 123 123 a).

Lemma brace_split p p' t t' :
  all_bytes not_brace p = true → all_bytes not_brace p' = true →
  p +:+ BRACE +:+ t = p' +:+ BRACE +:+ t' → p = p' ∧ t = t'.
Proof.
  revert p'. induction p as [|a p IH]; intros [|b p']; cbn [all_bytes].
  - intros _ _ E. by injection E.
  - intros _ [Hb _]%andb_true_iff E. injection E as <- _. done.
  - intros [Ha _]%andb_true_iff _ E. injection E as -> _. done.
  - intros [_ Hp]%andb_true_iff [_ Hp']%andb_true_iff E. injection E as -> E.
    by destruct (IH p' Hp Hp' E) as [-> ->].
Qed.

Lemma chain_head_plain `{!Sha256Hex} texts : all_bytes not_brace (chain_head "genesis" texts) = true.
Proof.
  destruct texts as [|x texts _] using rev_ind; [done|].
  unfold chain_head. rewrite foldl_snoc. eapply all_bytes_impl; [|apply sha256_hex_digits].
  intros a Ha. unfold is_lower_hex, not_brace in *.
  apply orb_true_iff in Ha. rewrite !byte_in_spec in Ha. apply negb_true_iff, byte_in_false. lia.
Qed.

Lemma chain_head_start `{!Sha256Hex} texts x : chain_head "genesis" (texts ++ [x]) ≠ "genesis".
Proof.
  unfold chain_head. rewrite foldl_snoc. intros E.
  pose proof (sha256_hex_len (foldl compute_entry_hash "genesis" texts +:+ x)) as Hlen.
  unfold compute_entry_hash in E at 1. by rewrite E in Hlen.
Qed.

Definition starts_with_brace (x : string) : Prop := ∃ t, x = BRACE +:+ t.

Lemma chain_head_binds `{!Sha256Hex} xs ys :
  Forall starts_with_brace xs → Forall starts_with_brace ys →
  chain_head "genesis" xs = chain_head "genesis" ys →
  xs = ys ∨ ∃ x y, x ∈ hash_inputs "genesis" xs ∧ y ∈ hash_inputs "genesis" ys ∧ x ≠ y
    ∧ sha256_hex x = sha256_hex y.
Proof.
  revert ys. induction xs as [|x xs IH] using rev_ind; intros ys Hxs Hys E;
    destruct ys as [|y ys _] using rev_ind.
  - by left.
  - symmetry in E. by apply chain_head_start in E.
  - by apply chain_head_start in E.
  - apply Forall_app in Hxs as [Hxs [[t ->] _]%Forall_cons].
    apply Forall_app in Hys as [Hys [[t' ->] _]%Forall_cons].
    unfold chain_head in E. rewrite !foldl_snoc in E. fold (chain_head "genesis" xs) in E.
    fold (chain_head "genesis" ys) in E. rewrite !hash_inputs_snoc.
    destruct (decide (chain_head "genesis" xs +:+ BRACE +:+ t = chain_head "genesis" ys +:+ BRACE +:+ t'))
      as [Heq|Hne].
    + apply brace_split in Heq as [Heq ->]; [|apply chain_head_plain..].
      destruct (IH ys Hxs Hys Heq) as [->|(a & b & Ha & Hb & Hab)]; [by left|].
      right. exists a, b. rewrite !elem_of_app. tauto.
    + right. eexists _, _. rewrite !elem_of_app, !list_elem_of_singleton. split_and!; [by right|by right|done..].
Qed.

Lemma advance_all_head `{!AuditJsonLaws} key vs c c' :
  advance_all key vs c = (c', Ok ()) →
  cs_prev_hash c' = chain_head (cs_prev_hash c) (hashed_text <$> vs)
  ∧ cs_total c' = cs_total c + Z.of_nat (length vs)
  ∧ Forall starts_with_brace (hashed_text <$> vs).
Proof.
  revert c. induction vs as [|v vs IH]; intros c Hrun.
  - injection Hrun as <-. repeat split; [cbn; lia|constructor].
  - apply fold_op_cons in Hrun as (c1 & (entry & partial & sealed & Hacc & ->)%advance_Ok & Hrun).
    destruct (IH _ Hrun) as (-> & -> & Hb). destruct Hacc as [Hprev Hf Hh He _ _ _].
    destruct (entry_of_value_hash _ _ He) as [Hh' _].
    assert (hashed_text v = value_text partial) as Ht by (unfold hashed_text; by rewrite Hf).
    cbn [fmap list_fmap chain_head foldl length advanced set_cs_head cs_prev_hash cs_total]. rewrite Ht.
    split_and!; [by replace (ae_entry_hash entry) with (compute_entry_hash (cs_prev_hash c) (value_text partial))
                   by congruence|lia|].
    constructor; [|done]. unfold hashed_fields in Hf.
    repeat (apply bind_Some in Hf as (? & ? & Hf)). injection Hf as <-. apply value_object.
Qed.

(** ** A full pass over a trail *)

(** One sealed segment must end with the seal that names it. *)
Definition segment_pass (key : option string) (segment : Z * string) : op ChainState () () :=
  verify_stream key (MkReader segment.2 false);;
  c ← get;
  lift (reject_if (bool_decide (cs_sealed c ≠ Some segment.1)) ()).
Definition full_pass (key : option string) (t : Trail) : op ChainState () () :=
  fold_op (λ _, segment_pass key) () (tr_sealed t);;
  match tr_active t with
  | Some bytes => verify_stream key (MkReader bytes false);; mret ()
  | None => mret ()
  end.

(** Every value of the trail, oldest first. *)
Definition history (t : Trail) : list Value :=
  mjoin ((λ s, values_in s.2) <$> tr_sealed t) ++ values_in (default "" (tr_active t)).

Lemma segment_pass_Ok key s c c' :
  segment_pass key s c = (c', Ok ()) ↔
    Forall line_ok (read_lines s.2) ∧ advance_all key (values_in s.2) c = (c', Ok ()) ∧ cs_sealed c' = Some s.1.
Proof.
  unfold segment_pass. split.
  - intros Hrun. inv_op Hrun.
    match goal with H : verify_stream _ _ _ = _ |- _ => apply verify_stream_Ok in H as (_ & Hl & Hv) end.
    match goal with H : bool_decide _ = false |- _ => apply bool_decide_eq_false, dec_stable in H end. done.
  - intros (Hl & Hv & Hs). unfold mbind, op_mbind, op_bind, get, lift.
    rewrite (proj2 (verify_stream_Ok _ _ _ _ _) (conj eq_refl (conj Hl Hv))).
    by rewrite Hs, bool_decide_eq_false_2 by tauto.
Qed.

Lemma full_pass_Ok key t c c' :
  full_pass key t c = (c', Ok ()) ↔
    ∃ c1, fold_op (λ _, segment_pass key) () (tr_sealed t) c = (c1, Ok ())
    ∧ Forall line_ok (read_lines (default "" (tr_active t)))
    ∧ advance_all key (values_in (default "" (tr_active t))) c1 = (c', Ok ()).
Proof.
  unfold full_pass. rewrite op_bind_Ok. split.
  - intros (c1 & [] & Hs & Ha). exists c1. split; [done|]. destruct (tr_active t) as [bytes|].
    + apply op_bind_Ok in Ha as (c2 & r & Hv & [-> _]%mret_Ok). by apply verify_stream_Ok in Hv as (_ & ?).
    + apply mret_Ok in Ha as [-> _]. split; [constructor|done].
  - intros (c1 & Hs & Hl & Ha). exists c1, (). split; [done|]. destruct (tr_active t) as [bytes|].
    + unfold mbind, op_mbind, op_bind.
      by rewrite (proj2 (verify_stream_Ok key bytes c1 c' _) (conj eq_refl (conj Hl Ha))).
    + by injection Ha as <-.
Qed.

Lemma segments_advance key ss c c' :
  fold_op (λ _, segment_pass key) () ss c = (c', Ok ()) →
  advance_all key (mjoin ((λ s, values_in s.2) <$> ss)) c = (c', Ok ()).
Proof.
  revert c. induction ss as [|s ss IH]; intros c; [done|].
  intros (c1 & (_ & Hv & _)%segment_pass_Ok & Hss)%fold_op_cons.
  cbn [fmap list_fmap mjoin list_join]. apply fold_op_app_Ok. eauto.
Qed.

Lemma full_pass_history key t c c' :
  full_pass key t c = (c', Ok ()) → advance_all key (history t) c = (c', Ok ()).
Proof.
  intros (c1 & Hs & _ & Ha)%full_pass_Ok. apply fold_op_app_Ok. exists c1. eauto using segments_advance.
Qed.

(** C4: the head of a verified trail binds all of it: two trails that both
    verify and end in the same entry hash hold, entry by entry, the same hashed
    fields, unless the passes over them hashed two different strings to the same
    digest.  An entry cannot be edited, dropped, inserted or moved anywhere before
    a head that is known without such a collision.  Time stamps and signatures are
    not hashed. *)
Theorem chain_binds_history `{!AuditJsonLaws, !Sha256Hex} key key' t t' c c' :
  full_pass key t chain_genesis = (c, Ok ()) → full_pass key' t' chain_genesis = (c', Ok ()) →
  cs_prev_hash c = cs_prev_hash c' →
  (hashed_text <$> history t = hashed_text <$> history t' ∧ cs_total c = cs_total c')
  ∨ ∃ x y, x ∈ hash_inputs "genesis" (hashed_text <$> history t)
      ∧ y ∈ hash_inputs "genesis" (hashed_text <$> history t') ∧ x ≠ y ∧ sha256_hex x = sha256_hex y.
Proof.
  intros Hc%full_pass_history Hc'%full_pass_history Heq.
  destruct (advance_all_head _ _ _ _ Hc) as (Hh & Ht & Hb).
  destruct (advance_all_head _ _ _ _ Hc') as (Hh' & Ht' & Hb').
  rewrite Hh, Hh' in Heq. destruct (chain_head_binds _ _ Hb Hb' Heq) as [Hsame|?]; [left|by right].
  split; [done|]. rewrite Ht, Ht'. apply (f_equal length) in Hsame. rewrite !length_fmap in Hsame. by rewrite Hsame.
Qed.
End audit.

(** ** Which drift of an agent is outstanding *)

(** The drift an entry reports about an agent. *)
Definition drift_of (id : string) (e : AuditEntry) : option (string * string) :=
  match ae_event_type e with
  | AgentDriftDetected =>
      if bool_decide (ae_agent_id e = id) then drift_evidence e <$> ae_action e else None
  | _ => None
  end.

(** An entry after which the drift with this evidence is no longer the agent's
    outstanding one: a newer drift, or an acknowledgement of exactly this one. *)
Definition settles (id evidence : string) (e : AuditEntry) : bool :=
  bool_decide (ae_agent_id e = id)
  && match ae_event_type e, ae_action e with
     | AgentDriftDetected, Some _ => true
     | AgentDriftAcknowledged, Some a => bool_decide (a = evidence)
     | _, _ => false
     end.

Lemma pending_after_other id e p : ae_agent_id e ≠ id → pending_after e p !! id = p !! id.
Proof.
  intros Hid. unfold pending_after. destruct (ae_event_type e); try done.
  - destruct (ae_action e); [by rewrite lookup_insert_ne|done].
  - destruct (p !! ae_agent_id e) as [[]|]; [|done]. case_bool_decide; [by rewrite lookup_delete_ne|done].
Qed.

Lemma pending_after_lookup id e p d :
  pending_after e p !! id = Some d ↔
    drift_of id e = Some d ∨ p !! id = Some d ∧ settles id d.2 e = false.
Proof.
  destruct (decide (ae_agent_id e = id)) as [Hid|Hid].
  - unfold drift_of, settles, pending_after. rewrite Hid, bool_decide_eq_true_2 by done. destruct d as [ts ev].
    destruct (ae_event_type e), (ae_action e) as [a|]; cbn; try intuition congruence.
    + rewrite lookup_insert_eq. intuition congruence.
    + destruct (p !! id) as [[ts' ev']|] eqn:Hp; [|intuition congruence].
      destruct (decide (a = ev')) as [->|Hne].
      * rewrite bool_decide_eq_true_2, lookup_delete_eq by done. case_bool_decide; intuition congruence.
      * rewrite bool_decide_eq_false_2, Hp by intuition congruence. case_bool_decide; intuition congruence.
    + destruct (p !! id) as [[ts' ev']|] eqn:Hp; [|intuition congruence].
      rewrite bool_decide_eq_false_2, Hp by done. intuition congruence.
  - rewrite pending_after_other by done. unfold drift_of, settles. rewrite bool_decide_eq_false_2 by done.
    destruct (ae_event_type e); intuition congruence.
Qed.

Definition pending_all (es : list AuditEntry) : gmap string (string * string) :=
  foldl (λ p e, pending_after e p) ∅ es.

Lemma pending_all_lookup id es d :
  pending_all es !! id = Some d ↔
    ∃ pre e post, es = pre ++ e :: post ∧ drift_of id e = Some d
      ∧ Forall (λ e', settles id d.2 e' = false) post.
Proof.
  unfold pending_all. induction es as [|e es IH] using rev_ind.
  - split; [done|]. by intros ([] & ? & ? & ? & _).
  - rewrite foldl_snoc, pending_after_lookup, IH. split.
    + intros [He|[(pre & x & post & -> & Hx & Hpost) He]].
      * by exists es, e, [].
      * exists pre, x, (post ++ [e]). split; [by rewrite <-app_assoc|]. split; [done|].
        apply Forall_app. by split; [|constructor].
    + intros (pre & x & post & Heq & Hx & Hpost). destruct post as [|y post _] using rev_ind.
      * apply app_inj_tail in Heq as [-> ->]. by left.
      * rewrite app_comm_cons, app_assoc in Heq. apply app_inj_tail in Heq as [-> ->].
        apply Forall_app in Hpost as [Hpost [Hy _]%Forall_cons]. right. split; [|done].
        by exists pre, x, post.
Qed.

Section drift.
Context `{AJ : AuditJson} `{SH : Sha256} `{ED : Ed25519}.
Notation advance_all key := (fold_op (λ _, advance key) ()).

(** A drift entry carries a signature that verifies. *)
Definition authentic (key : option string) (e : AuditEntry) : Prop :=
  ∃ public signature bytes, key = Some public ∧ ae_signature e = Some signature
    ∧ hex_decode signature = Ok bytes ∧ verify_signature public (ae_entry_hash e) bytes = true.

Lemma authentic_of key c v e partial sealed :
  accepted key c v e partial sealed → signature_required (ae_event_type e) = true → authentic key e.
Proof.
  intros [_ _ _ _ _ Hreq Hsig] Hr. specialize (Hreq Hr). unfold check_signature in Hsig.
  destruct (ae_signature e) as [s|] eqn:Hs; [|done].
  destruct (hex_decode s) as [bytes| | |] eqn:Hd; try done. destruct key as [public|]; [|done].
  apply reject_if_Ok, negb_false_iff in Hsig. by exists public, s, bytes.
Qed.

Lemma advance_all_entries key vs c c' :
  advance_all key vs c = (c', Ok ()) →
  ∃ es, Forall2 (λ v e, entry_of_value v = Some e) vs es
  ∧ cs_pending c' = foldl (λ p e, pending_after e p) (cs_pending c) es
  ∧ Forall (λ e, signature_required (ae_event_type e) = true → authentic key e) es
  ∧ cs_total c' = cs_total c + vec_len vs.
Proof.
  revert c. induction vs as [|v vs IH]; intros c Hrun.
  - injection Hrun as <-. exists []. split_and!; try done. unfold vec_len. cbn. lia.
  - apply fold_op_cons in Hrun as (c1 & (e & partial & sealed & Hacc & ->)%advance_Ok & Hrun).
    destruct (IH _ Hrun) as (es & He & -> & Hauth & ->). exists (e :: es). split_and!.
    + constructor; [by destruct Hacc|done].
    + done.
    + constructor; [by eapply authentic_of|done].
    + unfold advanced, vec_len. cbn [set_cs_head cs_total length]. lia.
Qed.

(** C19: on a trail that verifies and has entries, [latest_unacknowledged_drift]
    reports for an agent exactly the last drift entry of that agent that no later
    entry of the agent has acknowledged by its evidence, and that entry is
    authentically signed; other agents' entries, unsigned ones and
    acknowledgements of other evidence neither hide nor clear it. *)
Theorem drift_outstanding_iff key t c id d :
  full_pass key t chain_genesis = (c, Ok ()) → history t ≠ [] →
  ∃ es, Forall2 (λ v e, entry_of_value v = Some e) (history t) es ∧
  (latest_unacknowledged_drift id (Valid c) = Ok (Some d) ↔
   ∃ pre e post, es = pre ++ e :: post ∧ drift_of id e = Some d ∧ authentic key e
     ∧ Forall (λ e', settles id d.2 e' = false) post).
Proof.
  intros Hp%full_pass_history Hne.
  destruct (advance_all_entries _ _ _ _ Hp) as (es & Hes & Hpend & Hauth & Htotal).
  exists es. split; [done|]. unfold latest_unacknowledged_drift. cbn. rewrite Hpend, Htotal. cbn.
  assert (vec_len (history t) ≠ 0) by (unfold vec_len; destruct (history t); [done|cbn; lia]).
  rewrite (proj2 (Z.eqb_neq (0 + vec_len (history t)) 0)) by lia. cbn.
  assert (∀ o : option (string * string), Ok (E := string) o = Ok (Some d) ↔ o = Some d) as Hok by (intros o; split; congruence).
  etransitivity; [exact (Hok _)|]. change (foldl _ ∅ es) with (pending_all es).
  rewrite pending_all_lookup. split; intros (pre & e & post & -> & Hd & Hrest); exists pre, e, post.
  - split_and!; try done. rewrite Forall_app, Forall_cons in Hauth. apply Hauth.
    unfold drift_of in Hd. by destruct (ae_event_type e).
  - by destruct Hrest.
Qed.
End drift.
