(* ===== verification/AuditResumeFacts.v ===== *)
(** * Verifying from a checkpoint

    A pass that resumes from a checkpoint decides what a full pass decides, as
    long as the checkpoint was written by such a pass and files only grew since;
    and what the pass writes is such a checkpoint again. *)
From S2P Require Import Prelude BTree Text Hashing Hex GraphModel TaskAuthority SecurityEvents.
From S2P Require Import Json AuditTrail.
From S2P Require Import AuditFacts.
#[local] Open Scope Z_scope.

(** [serde_json] reads a payload back as it was written. *)
Class CheckpointJsonLaws `{CheckpointJson} : Prop :=
  payload_read p : payload_of (payload_text p) = Some p.

(** The verdict on the state and the result of a pass. *)
Definition verdict {A : Type} (r : ChainState * exec () A) : Verified :=
  match r with (c, Ok _) => Valid c | (c, _) => Invalid c end.

Definition ok_pass : Pass := MkPass true None true.

(** A view of a file that holds [bytes], with nothing in the way. *)
Record quiet_view (bytes : string) (view : FileView) : Prop := {
  qu_locked : fv_locked view = true;
  qu_bytes : fv_bytes view = bytes;
  qu_stamp : ∃ stamp, fv_stamp view = Some stamp ∧ fs_size stamp = str_len bytes;
  qu_resumed : fv_resumed view = ok_pass;
  qu_full : fv_full view = ok_pass;
}.

#[local] Arguments verify_stream : simpl never.
#[local] Arguments save : simpl never.
#[local] Arguments resume : simpl never.

Section resume.
Context `{AJ : AuditJson} `{SH : Sha256} `{ED : Ed25519} `{CJ : CheckpointJson}.
Context (keys : Keys).
Notation stream bytes := (verify_stream (ks_public keys) (MkReader bytes false)).

(** A checkpoint that the key store's key signed records what a pass over a
    prefix of the file found, from the state it says it started from. *)
Definition prefix_verified (bytes : string) (start : ChainState) (p : Payload) : Prop :=
  ∃ pre post, bytes = pre +:+ post ∧ str_len pre = fs_size (pl_stamp p)
    ∧ stream pre start = (pl_state p, Ok (str_len pre, true)).
Definition sound (store : Store) (bytes : string) (start : ChainState) : Prop :=
  ∀ envelope signature key p, st_file store = Some envelope →
    hex_decode (ck_signature envelope) = Ok signature → ks_public keys = Some key →
    verify_signature key (ck_payload envelope) signature = true →
    payload_of (ck_payload envelope) = Some p →
    pl_start_hash p = cs_prev_hash start → pl_start_total p = cs_total start →
    prefix_verified bytes start p.

Lemma sound_grows store bytes more start : sound store bytes start → sound store (bytes +:+ more) start.
Proof.
  intros Hs envelope signature key p Hf Hd Hk Hv Hp Hh Ht.
  destruct (Hs _ _ _ _ Hf Hd Hk Hv Hp Hh Ht) as (pre & post & -> & Hl & Hpass).
  exists pre, (post +:+ more). by rewrite append_assoc.
Qed.

Lemma resume_sound store bytes stamp start max_age now r :
  sound store bytes start → resume keys store bytes stamp start max_age now = Some r →
  ∃ pre post, bytes = pre +:+ post ∧ str_len pre = rs_offset r
    ∧ stream pre start = (rs_state r, Ok (str_len pre, true)).
Proof.
  intros Hs Hr. unfold resume in Hr. apply bind_Some in Hr as (p & Hp & Hr).
  destruct (bool_decide _ || _) eqn:Hstart; [done|].
  apply orb_false_iff in Hstart as [Hh%bool_decide_eq_false%dec_stable Ht%negb_false_iff%Z.eqb_eq].
  destruct (_ || _); [done|]. injection Hr as <-. cbn.
  unfold authentic_prefix_of in Hp.
  apply bind_Some in Hp as (envelope & Hf & Hp). apply bind_Some in Hp as (signature & Hd & Hp).
  apply bind_Some in Hp as (key & Hk & Hp).
  destruct (hex_decode _) as [bs| | |] eqn:Hhex; try done. injection Hd as <-.
  destruct (verify_signature _ _ _) eqn:Hv; [|done]. cbn [negb] in Hp.
  apply bind_Some in Hp as (p' & Hp' & Hp).
  repeat (destruct (_ || _); [done|]). destruct (_ && _); [done|].
  apply bind_Some in Hp as ([head tail] & _ & Hp). destruct (_ || _); [done|]. injection Hp as ->.
  by apply (Hs envelope bs key p).
Qed.

Lemma save_sound `{!CheckpointJsonLaws} written bytes stamp start state at_ store :
  fs_size stamp = str_len bytes → stream bytes start = (state, Ok (str_len bytes, true)) →
  sound store bytes start → sound (save keys written bytes stamp start state at_ store) bytes start.
Proof.
  intros Hsize Hpass Hs. unfold save. destruct (_ =? 0); [done|].
  destruct (edge_digests _ _) as [[head tail]|]; [|done]. destruct (ks_signing keys); [|done].
  destruct written; [|done].
  intros envelope signature key p [= <-] _ _ _ Hp _ _. cbn in Hp. rewrite payload_read in Hp.
  injection Hp as <-. exists bytes, "". by rewrite append_empty.
Qed.

Lemma verify_stream_read key bytes c c' r :
  verify_stream key (MkReader bytes false) c = (c', Ok r) → r = (str_len bytes, ends_on_newline bytes).
Proof. by intros [-> _]%verify_stream_Ok. Qed.

Definition store_sound (store : option Store) (bytes : string) (start : ChainState) : Prop :=
  ∀ s, store = Some s → sound s bytes start.

Lemma store_sound_Some s bytes start : sound s bytes start → store_sound (Some s) bytes start.
Proof. by intros Hs s' [= <-]. Qed.

Lemma discard_sound removed store bytes start :
  store_sound store bytes start → store_sound (discard removed <$> store) bytes start.
Proof.
  intros Hs s' Hs'. destruct store as [s|]; [|done]. injection Hs' as <-. unfold discard.
  destruct removed; [by intros ?|by apply Hs].
Qed.

Lemma verify_full_spec `{!CheckpointJsonLaws} bytes view store start now :
  quiet_view bytes view → store_sound store bytes start →
  (verify_full keys view store start now).1 = verdict (stream bytes start)
  ∧ store_sound (verify_full keys view store start now).2 bytes start.
Proof.
  intros [_ Hb (stamp & Hst & Hsize) _ Hf] Hs. unfold verify_full. rewrite Hf, Hb, Hst. cbn.
  destruct (stream bytes start) as [c [[n clean]| | |]] eqn:Hpass; cbn.
  - split; [done|]. destruct store as [s|]; [|done].
    apply verify_stream_read in Hpass as Hr. injection Hr as -> ->.
    destruct (ends_on_newline bytes) eqn:Hend; [|done]. destruct (_ =? _); [|done]. cbn.
    intros s' [= <-]. apply save_sound; [done|exact Hpass|by apply Hs].
  - split; [done|]. by apply discard_sound.
  - split; [done|]. by apply discard_sound.
  - split; [done|]. by apply discard_sound.
Qed.

Lemma drop_prefix p q : drop_bytes (Z.to_nat (str_len p)) (p +:+ q) = q.
Proof. unfold str_len. rewrite Nat2Z.id. apply drop_bytes_app. Qed.

Lemma verify_file_spec `{!CheckpointJsonLaws} bytes view store start force_full max_age now :
  quiet_view bytes view → store_sound store bytes start →
  (verify_file keys view store start force_full max_age now).1 = verdict (stream bytes start)
  ∧ store_sound (verify_file keys view store start force_full max_age now).2 bytes start.
Proof.
  intros Hq Hs. pose proof (verify_full_spec bytes view store start now Hq Hs) as Hfull.
  unfold verify_file. destruct Hq as [-> Hb (stamp & Hst & Hsize) Hr Hf]. cbn [negb]. rewrite Hst.
  destruct force_full; [done|]. destruct store as [s|]; [|done].
  destruct (resume _ _ _ _ _ _ _) as [r|] eqn:Hres; [|done].
  rewrite Hb in Hres. apply resume_sound in Hres as (pre & post & -> & Hl & Hpre); [|by apply Hs].
  assert (stream (pre +:+ post) start
          = match stream post (rs_state r) with
            | (c2, Ok _) => (c2, Ok (str_len (pre +:+ post), ends_on_newline (pre +:+ post)))
            | r => r
            end) as Happ.
  { rewrite verify_stream_app, Hpre; [done|]. apply verify_stream_read in Hpre. congruence. }
  destruct (Z.eqb_spec (rs_offset r) (fs_size stamp)) as [Heq|_].
  - assert (post = "") as ->.
    { apply str_is_empty_true, Z.eqb_eq. rewrite str_len_app in Hsize. lia. }
    rewrite append_empty in *. rewrite Hpre. done.
  - rewrite Hr. cbn [ok_pass ps_seek ps_still reader_of ps_fails_after]. rewrite Hb, <-Hl, drop_prefix.
    change (reader_of ok_pass post) with (MkReader post false). rewrite Happ in Hfull |- *.
    destruct (stream post (rs_state r)) as [c [[n clean]| | |]] eqn:Hpost; cbn [negb ps_still]; [|done..].
    split; [done|]. destruct (clean && _) eqn:Hc; [|done].
    apply andb_true_iff in Hc as [-> _]. intros s' [= <-].
    apply save_sound; [done| |by apply Hs].
    rewrite Happ. do 2 f_equal.
    assert (ends_on_newline post = true) by (apply verify_stream_read in Hpost; congruence).
    rewrite ends_on_newline_app; [done| |done]. apply verify_stream_read in Hpre. congruence.
Qed.

(** ** Segments and the whole trail *)
Fixpoint segments_sound (ss : list (Z * string)) (fs : list (Z * TrailFile)) (c : ChainState) : Prop :=
  match ss, fs with
  | s :: ss, f :: fs =>
      store_sound (tf_store f.2) s.2 c
      ∧ ∀ c', segment_pass (ks_public keys) s c = (c', Ok ()) → segments_sound ss fs c'
  | _, _ => True
  end.
Definition segment_quiet (s : Z * string) (f : Z * TrailFile) : Prop :=
  f.1 = s.1 ∧ ∃ view, tf_view f.2 = Some view ∧ quiet_view s.2 view.

Lemma verify_segments_spec `{!CheckpointJsonLaws} force_full now sample i ss fs c :
  Forall2 segment_quiet ss fs → segments_sound ss fs c →
  (verify_segments keys force_full now sample i fs c).1
  = verdict (fold_op (λ _, segment_pass (ks_public keys)) () ss c)
  ∧ segments_sound ss (verify_segments keys force_full now sample i fs c).2 c.
Proof.
  intros Hq. revert i c. induction Hq as [|[seq bytes] [seq' f] ss fs (Hseq & view & Hv & Hquiet) Hq IH];
    intros i c Hs; [done|].
  cbn in Hseq, Hv, Hs |- *. subst seq'. rewrite Hv. destruct Hs as [Hstore Hnext].
  match goal with |- context [verify_file keys view ?st c force_full ?age now] =>
    destruct (verify_file_spec bytes view st c force_full age now Hquiet Hstore) as [Hverdict Hsound];
    destruct (verify_file keys view st c force_full age now) as [v store] end.
  cbn [fst snd] in Hverdict, Hsound. subst v.
  unfold segment_pass, mbind, op_mbind, op_bind, get, lift. unfold segment_pass, mbind, op_mbind, op_bind, get, lift in Hnext.
  cbn [fst snd] in Hnext |- *.
  destruct (stream bytes c) as [c1 [r| | |]] eqn:Hpass; cbn [verdict] in *; try done.
  destruct (decide (cs_sealed c1 = Some seq)) as [Heq|Hne].
  - rewrite bool_decide_eq_true_2, bool_decide_eq_false_2 by tauto. cbn [reject_if].
    rewrite bool_decide_eq_false_2 in Hnext by tauto. cbn [reject_if] in Hnext.
    specialize (IH (i + 1) c1 (Hnext c1 eq_refl)).
    destruct (verify_segments keys force_full now sample (i + 1) fs c1) as [v fs'].
    destruct IH as [IHv IHs]. split; [exact IHv|]. split; [exact Hsound|].
    by intros c' [= <-].
  - rewrite bool_decide_eq_false_2, bool_decide_eq_true_2 by tauto. cbn [reject_if verdict]. split; [done|].
    by split; [exact Hsound|].
Qed.

Definition trail_quiet (t : Trail) (segments : list (Z * TrailFile))
    (active : option (FileView * option Store)) : Prop :=
  Forall2 segment_quiet (tr_sealed t) segments
  ∧ match tr_active t, active with
    | Some bytes, Some (view, _) => quiet_view bytes view
    | None, None => True
    | _, _ => False
    end.
Definition checkpoints_sound (t : Trail) (segments : list (Z * TrailFile))
    (active : option (FileView * option Store)) : Prop :=
  segments_sound (tr_sealed t) segments chain_genesis
  ∧ ∀ bytes view store c, tr_active t = Some bytes → active = Some (view, store) →
      fold_op (λ _, segment_pass (ks_public keys)) () (tr_sealed t) chain_genesis = (c, Ok ()) →
      store_sound store bytes c.

(** The trail after more was appended to its active file. *)
Definition grown (more : string) (t : Trail) : Trail :=
  MkTrail (tr_sealed t) ((λ bytes, bytes +:+ more) <$> tr_active t) (tr_back_off t).

(** The verdict of a full pass over the files of a trail, if it has any. *)
Definition trail_verdict (t : Trail) : Verified :=
  match tr_sealed t, tr_active t with
  | [], None => Missing
  | _, _ => verdict (full_pass (ks_public keys) t chain_genesis)
  end.

Lemma grown_sound t segments active more :
  checkpoints_sound t segments active → checkpoints_sound (grown more t) segments active.
Proof.
  intros [Hs Ha]. split; [done|]. intros bytes view store c Hb E Hc s Hst. cbn in Hb.
  destruct (tr_active t) as [b|] eqn:Hb'; [|done]. injection Hb as <-. apply sound_grows.
  by apply (Ha b view store c).
Qed.

Lemma verify_files_spec `{!CheckpointJsonLaws} t segments active force_full now sample :
  trail_quiet t segments active → checkpoints_sound t segments active →
  let '(v, segments') := verify_segments keys force_full now sample 0 segments chain_genesis in
  match v, active with
  | Valid c, Some (view, store) =>
      let '(v, store') := verify_file keys view store c force_full (Some FULL_REVERIFY_SECS) now in
      v = verdict (full_pass (ks_public keys) t chain_genesis)
      ∧ checkpoints_sound t segments' (Some (view, store'))
  | v, active => v = verdict (full_pass (ks_public keys) t chain_genesis) ∧ checkpoints_sound t segments' active
  end.
Proof.
  intros [Hq Hqa] [Hs Ha].
  pose proof (verify_segments_spec force_full now sample 0 _ _ _ Hq Hs) as [Hv Hs'].
  destruct (verify_segments keys force_full now sample 0 segments chain_genesis) as [v segments'].
  cbn [fst snd] in Hv, Hs'. subst v. unfold checkpoints_sound, full_pass, mbind, op_mbind, op_bind.
  destruct (fold_op _ () (tr_sealed t) chain_genesis) as [c [[]| | |]] eqn:Hpass; cbn [verdict];
    [|by split; [|split; [|intros; congruence]]..].
  destruct active as [[view store]|].
  - destruct (tr_active t) as [bytes|] eqn:Hb; [|done].
    destruct (verify_file_spec bytes view store c force_full (Some FULL_REVERIFY_SECS) now Hqa
      (Ha bytes view store c eq_refl eq_refl eq_refl)) as [Hv Hsound].
    destruct (verify_file keys view store c _ _ _) as [v store']. cbn [fst snd] in Hv, Hsound. subst v.
    split; [by destruct (stream bytes c) as [c2 [r| | |]]|]. split; [done|].
    intros bytes' view' store'' c' [= <-] [= <- <-] [= <-]. done.
  - destruct (tr_active t) as [bytes|]; [done|]. by split; [|split].
Qed.

(** C17: a verification that resumes from checkpoints decides what a full pass over
    every file decides, with the same state, as long as the files only grew since
    the checkpoints were written by such verifications; forced or not, it leaves
    checkpoints of that kind behind, so the next one, after any appends, decides
    right again. *)
Theorem resumed_verdict_is_full `{!CheckpointJsonLaws} t segments active force_full now :
  trail_quiet t segments active → checkpoints_sound t segments active →
  let '(v, (segments', active')) := verify_snapshot keys segments active force_full now in
  v = trail_verdict t ∧ ∀ more, checkpoints_sound (grown more t) segments' active'.
Proof.
  intros [Hq Hqa] Hs. unfold verify_snapshot, trail_verdict.
  pose proof (verify_files_spec t segments active force_full now
    (match segments with [] => None | _ => Some (Z.max 0 (now / (24 * 60 * 60)) mod vec_len segments) end)
    (conj Hq Hqa) Hs) as Hspec.
  destruct segments as [|f fs], active as [[view store]|].
  - destruct (tr_active t) eqn:Hb; [|done].
    replace (match tr_sealed t with [] => _ | _ => _ end)
      with (verdict (full_pass (ks_public keys) t chain_genesis)) by by destruct (tr_sealed t).
    destruct (verify_segments _ _ _ _ _ _ _) as [[| |c|c] segments'];
      [| | |destruct (verify_file _ _ _ _ _ _ _) as [v store']];
      destruct Hspec as [-> ?]; auto using grown_sound.
  - apply Forall2_nil_inv_r in Hq. rewrite Hq. destruct (tr_active t); [done|]. split; [done|].
    intros more. by apply grown_sound.
  - apply Forall2_cons_inv_r in Hq as (s & ss & _ & _ & Hss). rewrite Hss.
    destruct (verify_segments _ _ _ _ _ _ _) as [[| |c|c] segments'];
      [| | |destruct (verify_file _ _ _ _ _ _ _) as [v store']];
      destruct Hspec as [-> ?]; auto using grown_sound.
  - apply Forall2_cons_inv_r in Hq as (s & ss & _ & _ & Hss). rewrite Hss.
    destruct (verify_segments _ _ _ _ _ _ _) as [[| |c|c] segments'];
      destruct Hspec as [-> ?]; auto using grown_sound.
Qed.
End resume.
