(* ===== verification/AuditAppendFacts.v ===== *)
(** * Appending keeps the audit trail verifiable

    What an append writes is one line that a pass accepts from the head it was
    chained to; the head it finds is the head of the trail. *)
From S2P Require Import Prelude BTree Text Hashing Hex GraphModel TaskAuthority SecurityEvents.
From S2P Require Import Json AuditTrail.
From S2P Require Import AuditFacts AuditResumeFacts.
#[local] Open Scope Z_scope.

(** ** The last line of a file *)
Definition line_bytes (line : string) : string := line +:+ NEWLINE.
Definition no_newline (line : string) : bool := all_bytes (λ a, negb (is_newline a)) line.

Lemma read_line_bytes line : no_newline line = true → read_lines (line_bytes line) = [(line, true)].
Proof.
  unfold no_newline, line_bytes. induction line as [|a line IH]; [done|].
  intros [Ha Hl]%andb_true_iff. apply negb_true_iff in Ha.
  change (String a line +:+ NEWLINE) with (String a (line +:+ NEWLINE)). cbn [read_lines].
  by rewrite Ha, (IH Hl).
Qed.

Lemma ends_line_bytes line : no_newline line = true → ends_on_newline (line_bytes line) = true.
Proof. intros Hl. unfold ends_on_newline. by rewrite read_line_bytes. Qed.

(** A file that ends on a newline ends with a line. *)
Lemma last_line bytes : ends_on_newline bytes = true → bytes ≠ "" →
  ∃ p line, bytes = p +:+ line_bytes line ∧ ends_on_newline p = true ∧ no_newline line = true.
Proof.
  induction bytes as [|a bytes IH]; [done|]. intros He _.
  destruct (decide (bytes = "")) as [->|Hne].
  - exists "", "". unfold ends_on_newline in He. cbn in He. destruct (is_newline a) eqn:Ha; [|done].
    unfold is_newline in Ha. apply byte_in_spec in Ha. split; [|done].
    unfold line_bytes. cbn. f_equal. rewrite <-(ascii_of_byte_val a). by replace (byte_val a) with 10 by lia.
  - rewrite ends_on_newline_cons in He by done. destruct (IH He Hne) as (p & line & -> & Hp & Hl).
    destruct (decide (p = "")) as [->|Hpne].
    + destruct (is_newline a) eqn:Ha.
      * exists (String a ""), line. split; [done|]. split; [|done]. unfold ends_on_newline. cbn. by rewrite Ha.
      * exists "", (String a line). split; [done|]. split; [done|]. unfold no_newline. cbn. by rewrite Ha.
    + exists (String a p), line. split; [done|]. split; [|done]. by rewrite ends_on_newline_cons.
Qed.

Lemma ends_drop n p : ends_on_newline p = true → ends_on_newline (drop_bytes n p) = true.
Proof.
  revert p. induction n as [|n IH]; intros [|a p] Hp; try done. cbn. apply IH.
  destruct (decide (p = "")) as [->|Hne]; [done|]. by rewrite ends_on_newline_cons in Hp.
Qed.

Lemma drop_app n p q : (n ≤ String.length p)%nat → drop_bytes n (p +:+ q) = drop_bytes n p +:+ q.
Proof.
  revert p. induction n as [|n IH]; intros p Hn; [done|].
  destruct p as [|a p]; cbn in Hn; [lia|]. cbn. apply IH. lia.
Qed.

Lemma filter_all {A} (P : A → Prop) `{∀ x, Decision (P x)} l : Forall P l → filter P l = l.
Proof. induction 1 as [|x l Hx _ IH]; [done|]. by rewrite filter_cons_True, IH. Qed.

(** The last line lies within what [read_tail_entry] reads. *)
Definition short_tail (bytes : string) : Prop :=
  match last (read_lines bytes) with Some (line, _) => str_len line < TAIL | None => True end.

Section append.
Context `{AJ : AuditJson} `{SH : Sha256} `{ED : Ed25519} `{CAL : Calendar} {AL : AuditJsonLaws}.
Notation advance_all key := (fold_op (λ _, advance key) ()).

Lemma advance_all_hashes key vs c c' :
  advance_all key vs c = (c', Ok ()) → Forall (λ v, has_hash v = true) vs
  ∧ ∀ v, last vs = Some v → str_field v "entry_hash" = Some (cs_prev_hash c').
Proof.
  revert c. induction vs as [|v vs IH]; intros c Hrun; [done|].
  apply fold_op_cons in Hrun as (c1 & (entry & partial & sealed & Hacc & ->)%advance_Ok & Hrun).
  destruct (IH _ Hrun) as [Hall Hlast]. destruct Hacc as [_ _ Hh He _ _ _].
  destruct (entry_of_value_hash _ _ He) as [Hh' _]. split.
  - constructor; [|done]. unfold has_hash. by rewrite Hh, bool_decide_eq_true_2 by by eexists.
  - intros w Hw. destruct vs as [|v' vs]; [|by apply Hlast]. injection Hw as <-. injection Hrun as <-. done.
Qed.

(** The head of a verified file is what the tail of the file shows. *)
Lemma read_tail_verified key bytes c c' :
  Forall line_ok (read_lines bytes) → advance_all key (values_in bytes) c = (c', Ok ()) →
  ends_on_newline bytes = true → short_tail bytes →
  match read_tail_entry bytes with
  | Ok None => bytes = ""
  | Ok (Some v) => last (values_in bytes) = Some v ∧ str_field v "entry_hash" = Some (cs_prev_hash c')
  | Err _ => True
  | Panic | Hang => False
  end.
Proof.
  intros Hok Hrun Hend Hshort. unfold read_tail_entry.
  destruct (Z.eqb_spec (str_len bytes) 0) as [Hz|Hne].
  { by apply str_is_empty_true, Z.eqb_eq. }
  destruct (last_line bytes Hend) as (p & line & -> & Hp & Hl); [by intros ->|].
  rewrite read_lines_app in Hok by done. rewrite read_line_bytes in Hok by done.
  unfold short_tail in Hshort. rewrite read_lines_app, read_line_bytes, last_app in Hshort by done.
  cbn in Hshort. rewrite drop_app.
  2: { rewrite str_len_app. unfold line_bytes. rewrite str_len_app. unfold str_len in *. cbn. lia. }
  destruct (utf8_valid _); [|done]. cbn [negb reject_if]. rewrite exec_bind_ret.
  rewrite read_lines_app, read_line_bytes, rev_app_distr by (try apply ends_drop; done).
  cbn [rev app tail_entry].
  apply Forall_app in Hok as [_ [(_ & Hclean & Hvs) _]%Forall_cons].
  rewrite values_in_app in Hrun |- * by done. unfold values_in at 2 in Hrun. unfold values_in at 2.
  rewrite read_line_bytes in Hrun |- * by done. cbn [fmap list_fmap mjoin list_join] in Hrun |- *.
  rewrite app_nil_r in Hrun |- *. unfold line_values in *.
  destruct (is_blank (line_text (line, true))) eqn:Hblank; [by apply values_blank in Hblank|].
  destruct (values_of (line_text (line, true))) as [values clean]. cbn [fst snd] in *. subst clean. cbn [negb].
  destruct (advance_all_hashes _ _ _ _ Hrun) as [Hall Hlast]. apply Forall_app in Hall as [_ Hall].
  rewrite filter_all by done.
  destruct (last values) as [v|] eqn:Hv; [|by apply last_None in Hv].
  assert (last (values_in p ++ values) = Some v) as Hvv by by rewrite last_app, Hv.
  auto.
Qed.

(** ** What an append writes *)
Definition entry_written (signing : string + SigningKey) (timestamp : string) (data : AuditEntryData)
    (prev_hash : string) (event : Value) : AuditEntry :=
  let entry_hash := compute_entry_hash prev_hash (value_text (partial_fields data event)) in
  MkAuditEntry timestamp (ad_agent_id data) (ad_tool data) (ad_action data) (ad_input_hash data)
    (ad_output_tokens data) (ad_role data) (ad_event_type data) prev_hash entry_hash
    (match signing with inr key => Some (hex_encode (ed25519_sign key entry_hash)) | inl _ => None end).
(** What a caller said, as the entry has it. *)
Definition entry_data (e : AuditEntry) : AuditEntryData :=
  MkEntryData (ae_agent_id e) (ae_tool e) (ae_action e) (ae_input_hash e) (ae_output_tokens e) (ae_role e)
    (ae_event_type e).
Definition line_written signing timestamp data prev_hash event : string :=
  struct_text (entry_fields (entry_written signing timestamp data prev_hash event) event).

Lemma append_locked_run signing timestamp fate data prev_hash bytes :
  match event_value (ad_event_type data) with
  | None => append_locked signing timestamp fate data prev_hash bytes = (bytes, Panic)
  | Some event =>
      let line := line_bytes (line_written signing timestamp data prev_hash event) in
      match fate, append_locked signing timestamp fate data prev_hash bytes with
      | Written, (bytes', Ok e) => bytes' = bytes +:+ line
          ∧ e = entry_written signing timestamp data prev_hash event
          ∧ (signature_required (ad_event_type data) = true → ∃ key, signing = inr key)
      | Torn n, (bytes', Err _) => bytes' = bytes ∨ bytes' = bytes +:+ bytes_at 0 n line
      | _, (bytes', Err _) => bytes' = bytes
      | _, _ => False
      end
  end.
Proof.
  unfold append_locked. destruct (event_value _) as [event|]; [|done]. cbn [expect].
  unfold mbind, op_mbind, op_bind, lift, modify, mret, op_mret. cbn zeta.
  destruct signing as [e|key]; [destruct (signature_required _) eqn:Hr|]; destruct fate; cbn;
    try done; eauto.
  all: split; [done|]; split; [done|]; try done; eauto.
Qed.

Lemma event_value_label e event :
  event_value e = Some event → event = VString (wire_label e) ∧ event_of_label (wire_label e) = Some e.
Proof.
  destruct e as [| | | | | | | | | | | | | | |label]; try (by intros [= <-]). cbn [event_value wire_label].
  destruct (valid_extension_event_label label) eqn:Hv; [|done]. intros [= <-]. split; [done|].
  unfold event_of_label. rewrite Hv. rewrite (proj2 (find_first_None _ _)); [done|].
  intros e He. apply bool_decide_eq_false. intros <-. revert He.
  unfold known_events. rewrite !elem_of_cons. intros He. destruct_or! He; subst; try done.
  by apply elem_of_nil in He.
Qed.

Lemma pop_cr_id s : all_bytes (λ a, negb (byte_in 0 31 a)) s = true → pop_cr s = s.
Proof.
  induction s as [|a s IH]; [done|]. intros [Ha Hs]%andb_true_iff. cbn [pop_cr].
  destruct s as [|b s]; [|by rewrite IH].
  apply negb_true_iff, byte_in_false in Ha. destruct (byte_in 13 13 a) eqn:E; [|done].
  apply byte_in_spec in E. lia.
Qed.

Lemma entry_fields_read e event v :
  (∀ k, value_get v k = assoc k (entry_fields e event)) →
  event_value (ae_event_type e) = Some event → in_range u32_max (ae_output_tokens e) →
  entry_of_value v = Some e
  ∧ hashed_fields v = Some (partial_fields (MkEntryData (ae_agent_id e) (ae_tool e) (ae_action e)
      (ae_input_hash e) (ae_output_tokens e) (ae_role e) (ae_event_type e)) event).
Proof.
  intros Hget [-> Hlabel]%event_value_label [_ Ht]. unfold entry_of_value, str_field, opt_str_field, hashed_fields.
  rewrite !Hget.
  change (assoc "timestamp" (entry_fields e _)) with (Some (VString (ae_timestamp e))).
  change (assoc "agent_id" (entry_fields e _)) with (Some (VString (ae_agent_id e))).
  change (assoc "tool" (entry_fields e _)) with (Some (VString (ae_tool e))).
  change (assoc "action" (entry_fields e _)) with (Some (opt_value (ae_action e))).
  change (assoc "input_hash" (entry_fields e _)) with (Some (VString (ae_input_hash e))).
  change (assoc "output_tokens" (entry_fields e _)) with (Some (VNumber (JPosInt (ae_output_tokens e)))).
  change (assoc "role" (entry_fields e _)) with (Some (VString (ae_role e))).
  change (assoc "event_type" (entry_fields e _)) with (Some (VString (wire_label (ae_event_type e)))).
  change (assoc "prev_hash" (entry_fields e _)) with (Some (VString (ae_prev_hash e))).
  change (assoc "entry_hash" (entry_fields e _)) with (Some (VString (ae_entry_hash e))).
  assert (assoc "signature" (entry_fields e (VString (wire_label (ae_event_type e))))
          = VString <$> ae_signature e) as Hsig.
  { unfold entry_fields. by destruct (ae_signature e). }
  rewrite Hsig. apply Z.leb_le in Ht. cbn. rewrite Ht, Hlabel. cbn.
  destruct e as [? ? ? [] ? ? ? ? ? ? []]; done.
Qed.

(** ** An appended line is accepted *)
Context {EL : Ed25519Laws}.

(** The key store's public key is the one of the key that signs. *)
Definition key_agrees (public : option string) (signing : string + SigningKey) : Prop :=
  ∀ key, signing = inr key → public = Some (verifying_key key).

(** What a caller hands over: a [u32], and no seal but one that names its segment. *)
Definition data_ok (data : AuditEntryData) (sealed : option Z) : Prop :=
  in_range u32_max (ad_output_tokens data)
  ∧ (if is_seal (ad_event_type data) then ∃ seq, sealed_seq (ad_action data) = Some seq ∧ sealed = Some seq
     else sealed = None).

Lemma signed_verifies public signing timestamp data prev_hash event :
  key_agrees public signing →
  check_signature public (entry_written signing timestamp data prev_hash event) = Ok ().
Proof.
  intros Hkey. destruct signing as [|key]; [done|]. unfold check_signature. cbn.
  rewrite (proj1 (hex_encode_decode _)), (Hkey key eq_refl). unfold verify_signature.
  rewrite verifying_key_len, ed25519_sign_len, ed25519_verify_sign. done.
Qed.

Lemma line_written_plain signing timestamp data prev event :
  no_newline (line_written signing timestamp data prev event) = true.
Proof.
  unfold no_newline. eapply all_bytes_impl; [|apply struct_line]. intros a Ha.
  apply negb_true_iff, byte_in_false in Ha. apply negb_true_iff, byte_in_false. lia.
Qed.

Lemma line_written_ok public signing timestamp data event sealed c :
  key_agrees public signing → data_ok data sealed → event_value (ad_event_type data) = Some event →
  (signature_required (ad_event_type data) = true → ∃ key, signing = inr key) →
  let e := entry_written signing timestamp data (cs_prev_hash c) event in
  let line := line_written signing timestamp data (cs_prev_hash c) event in
  no_newline line = true ∧ line_ok (line, true)
  ∧ ∃ v, line_values (line, true) = [v] ∧ entry_of_value v = Some e
      ∧ advance public v c = (advanced c e sealed, Ok ()).
Proof.
  intros Hkey [Htokens Hseal] Hevent Hreq e line.
  assert (all_bytes (λ a, negb (byte_in 0 31 a)) line = true) as Hbytes by apply struct_line.
  destruct (struct_read (entry_fields e event)) as (v & Hread & Hget).
  { unfold entry_fields. destruct (ae_signature e); cbn [fmap list_fmap fst app];
      by apply (bool_decide_eq_true_1 (NoDup _)). }
  { apply event_value_label in Hevent as [-> _]. destruct Htokens as [Ht _]. unfold entry_fields.
    destruct (ae_signature e); cbn; repeat constructor; try done; by destruct (ad_action data). }
  destruct (entry_fields_read e event v Hget Hevent Htokens) as [Hentry Hfields].
  assert (line_text (line, true) = line) as Htext by (unfold line_text; cbn; by apply pop_cr_id).
  assert (values_of (line_text (line, true)) = ([v], true)) as Hvalues by by rewrite Htext.
  split_and!.
  - apply line_written_plain.
  - unfold line_ok, line_values. rewrite Hvalues. split; [|done]. rewrite Htext. apply struct_utf8.
  - exists v. unfold line_values. rewrite Hvalues. split; [done|]. split; [done|].
    destruct (entry_of_value_hash _ _ Hentry) as [Hh Hp].
    apply advance_Ok. eexists e, _, sealed. split; [|done]. split; try done.
    + change (ae_event_type e) with (ad_event_type data). unfold sealed_by.
      change (ae_event_type e) with (ad_event_type data). change (ae_action e) with (ad_action data).
      destruct (is_seal _); [|by subst sealed]. by destruct Hseal as (seq & -> & ->).
    + by intros [key ->]%Hreq.
    + by apply signed_verifies.
Qed.

(** ** The invariant of a trail *)
Record trail_ok (public : option string) (t : Trail) (c : ChainState) : Prop := {
  ok_verified : full_pass public t chain_genesis = (c, Ok ());
  ok_active : ends_on_newline (default "" (tr_active t)) = true;
  ok_sealed s : s ∈ tr_sealed t → ends_on_newline s.2 = true ∧ s.2 ≠ "" ∧ 0 ≤ s.1 < next_seq t;
}.

(** What an append may read is short: the last lines of the active file and of
    the newest segment. *)
Definition short_tails (t : Trail) : Prop :=
  short_tail (default "" (tr_active t)) ∧ ∀ s, last (tr_sealed t) = Some s → short_tail s.2.

(** The same files, whether or not an empty active file is there. *)
Definition same_files (t t' : Trail) : Prop :=
  tr_sealed t' = tr_sealed t ∧ default "" (tr_active t') = default "" (tr_active t).

Lemma same_files_ok public t t' c : same_files t t' → trail_ok public t c → trail_ok public t' c.
Proof.
  intros [Hs Ha] [Hp He Hok]. split.
  - apply full_pass_Ok. apply full_pass_Ok in Hp. by rewrite Hs, Ha.
  - by rewrite Ha.
  - intros s. unfold next_seq. rewrite Hs. apply Hok.
Qed.
Lemma same_files_history t t' : same_files t t' → history t' = history t.
Proof. intros [Hs Ha]. unfold history. by rewrite Hs, Ha. Qed.
Lemma same_files_short t t' : same_files t t' → short_tails t → short_tails t'.
Proof. intros [Hs Ha]. unfold short_tails. by rewrite Hs, Ha. Qed.
Lemma same_files_opened t : same_files t (set_tr_active (default "" (tr_active t)) t).
Proof. done. Qed.

Lemma append_line_ok public t c c' line v :
  trail_ok public t c → no_newline line = true → line_ok (line, true) → line_values (line, true) = [v] →
  advance public v c = (c', Ok ()) →
  let t' := set_tr_active (default "" (tr_active t) +:+ line_bytes line) t in
  trail_ok public t' c' ∧ history t' = history t ++ [v].
Proof.
  intros [(c1 & Hs & Hl & Ha)%full_pass_Ok He Hok] Hline Hlok Hv Hadv t'.
  assert (values_in (default "" (tr_active t) +:+ line_bytes line) = values_in (default "" (tr_active t)) ++ [v])
    as Hvalues.
  { rewrite values_in_app by done. f_equal. unfold values_in. rewrite read_line_bytes by done. cbn.
    by rewrite Hv. }
  split; [split|].
  - apply full_pass_Ok. exists c1. split; [done|].
    change (default "" (tr_active t')) with (default "" (tr_active t) +:+ line_bytes line). split.
    + rewrite read_lines_app, read_line_bytes by done. apply Forall_app. by split; [|constructor].
    + rewrite Hvalues. apply fold_op_app_Ok. exists c. split; [done|]. cbn. unfold op_bind. by rewrite Hadv.
  - apply ends_on_newline_app; [done|by apply ends_line_bytes].
  - apply Hok.
  - unfold history. change (default "" (tr_active t')) with (default "" (tr_active t) +:+ line_bytes line).
    by rewrite Hvalues, app_assoc.
Qed.

Definition whole (fate : AppendFate) : Prop := ∀ n, fate ≠ Torn n.

Lemma write_spec public signing timestamp fate data sealed t c :
  trail_ok public t c → key_agrees public signing → data_ok data sealed → whole fate →
  match on_active (append_locked signing timestamp fate data (cs_prev_hash c)) t with
  | (t', Ok e) => ∃ v event, event_value (ad_event_type data) = Some event
      ∧ t' = set_tr_active (default "" (tr_active t)
               +:+ line_bytes (line_written signing timestamp data (cs_prev_hash c) event)) t
      ∧ trail_ok public t' (advanced c e sealed) ∧ history t' = history t ++ [v]
      ∧ entry_of_value v = Some e ∧ entry_data e = data
      ∧ (signature_required (ad_event_type data) = true → ∃ key, signing = inr key)
  | (t', Err _) => same_files t t'
  | (_, Panic) => event_value (ad_event_type data) = None
  | (_, Hang) => False
  end.
Proof.
  intros Hok Hkey Hdata Hwhole. unfold on_active.
  pose proof (append_locked_run signing timestamp fate data (cs_prev_hash c) (default "" (tr_active t))) as Hrun.
  destruct (event_value (ad_event_type data)) as [event|] eqn:Hevent; [|by rewrite Hrun].
  cbn zeta in Hrun.
  destruct fate as [| |n]; destruct (append_locked _ _ _ _ _ _) as [bytes [e| | |]]; try done; try (by destruct (Hwhole n)); try (rewrite Hrun; apply same_files_opened).
  destruct Hrun as (-> & -> & Hreq).
  destruct (line_written_ok public signing timestamp data event sealed c Hkey Hdata Hevent Hreq)
    as (Hl & Hlok & v & Hv & Hentry & Hadv).
  destruct (append_line_ok public t c _ _ v Hok Hl Hlok Hv Hadv) as [Hok' Hhist].
  exists v, event. split_and!; try done. by destruct data.
Qed.

(** ** Finding the head *)
Lemma trail_tail public t c :
  trail_ok public t c → short_tails t →
  match read_tail_entry (default "" (tr_active t)) with
  | Ok None => default "" (tr_active t) = ""
  | Ok (Some v) => default "" (tr_active t) ≠ "" ∧ str_field v "entry_hash" = Some (cs_prev_hash c)
      ∧ last (values_in (default "" (tr_active t))) = Some v
  | Err _ => True
  | Panic | Hang => False
  end.
Proof.
  intros [(c1 & _ & Hl & Ha)%full_pass_Ok He _] [Hs _].
  pose proof (read_tail_verified _ _ _ _ Hl Ha He Hs) as Ht. unfold read_tail_entry in *.
  destruct (Z.eqb_spec (str_len (default "" (tr_active t))) 0) as [Hz|Hz]; [done|].
  destruct (reject_if _ _ ≫= _) as [[v|]| | |]; try done.
  destruct Ht as [Hv Hh]. split_and!; [by intros E; rewrite E in Hz|done..].
Qed.

Lemma trail_head public t c :
  trail_ok public t c → short_tails t → default "" (tr_active t) = "" →
  match last (tr_sealed t) with
  | Some s => match read_last_hash_tail s.2 with Ok h => h = cs_prev_hash c | Err _ => True | _ => False end
  | None => cs_prev_hash c = "genesis"
  end.
Proof.
  intros [(c1 & Hs & _ & Ha)%full_pass_Ok _ Hok] [_ Hshort] Hempty. rewrite Hempty in Ha. injection Ha as <-.
  destruct (last (tr_sealed t)) as [s|] eqn:Hlast.
  - pose proof (last_Some_elem_of _ _ Hlast) as Hin. specialize (Hshort s eq_refl).
    apply last_Some in Hlast as [ss Hss].
    rewrite Hss in Hs. apply fold_op_app_Ok in Hs as (c0 & _ & (c2 & Hs & Hc)%fold_op_cons).
    injection Hc as ->. apply segment_pass_Ok in Hs as (Hl & Ha & _).
    destruct (Hok s Hin) as (He & Hne & _).
    pose proof (read_tail_verified _ _ _ _ Hl Ha He Hshort) as Ht. unfold read_last_hash_tail.
    destruct (read_tail_entry s.2) as [[v|]| | |]; try done. destruct Ht as [_ Hv]. cbn. by rewrite Hv.
  - apply last_None in Hlast. rewrite Hlast in Hs. by injection Hs as <-.
Qed.

Lemma entry_of_value_kind v e :
  entry_of_value v = Some e →
  (∃ l, str_field v "event_type" = Some l ∧ event_of_label l = Some (ae_event_type e))
  ∧ opt_str_field v "action" = Some (ae_action e).
Proof.
  unfold entry_of_value. intros Hv. repeat (apply bind_Some in Hv as (? & ? & Hv)). injection Hv as <-.
  match goal with H : str_field v "event_type" ≫= _ = Some _ |- _ => apply bind_Some in H as (l & Hl & He) end.
  split; [by exists l|done].
Qed.

Lemma advanced_sealed c e sealed : cs_sealed (advanced c e sealed) = sealed.
Proof.
  unfold advanced, record_evidence. by destruct (ae_action e ≫= parse_action) as [[[]]|].
Qed.

(** A seal at the end of a verified file is the state's seal. *)
Lemma last_seal key vs c c' v seq :
  advance_all key vs c = (c', Ok ()) → last vs = Some v → str_field v "event_type" = Some SEAL_EVENT →
  sealed_seq (str_field v "action") = Some seq → cs_sealed c' = Some seq.
Proof.
  intros Hrun [us ->]%last_Some Hevent Hseq.
  apply fold_op_app_Ok in Hrun as (c1 & _ & (c2 & (e & partial & sealed & Hacc & ->)%advance_Ok & Hc)%fold_op_cons).
  injection Hc as <-. destruct Hacc as [_ _ _ He Hs _ _].
  apply entry_of_value_kind in He as [(l & Hl & He) Haction]. rewrite Hevent in Hl. injection Hl as <-.
  assert (ae_event_type e = UnknownEvent SEAL_EVENT) as Htype.
  { change (event_of_label SEAL_EVENT) with (Some (UnknownEvent SEAL_EVENT)) in He. by injection He. }
  unfold sealed_by in Hs. rewrite Htype in Hs. cbn [is_seal] in Hs. rewrite bool_decide_eq_true_2 in Hs by done.
  assert (str_field v "action" = ae_action e) as Heq.
  { unfold str_field, opt_str_field in *. by destruct (value_get v "action") as [[]|]; simplify_eq/=. }
  rewrite <-Heq, Hseq in Hs. rewrite advanced_sealed. by injection Hs as <-.
Qed.

(** ** Sealing *)
Lemma insert_segment_last seq bytes l :
  (∀ s, s ∈ l → s.1 < seq) → insert_segment seq bytes l = l ++ [(seq, bytes)].
Proof.
  induction l as [|[s b] l IH]; intros Hl; [done|]. cbn.
  assert (s < seq) by (apply (Hl (s, b)), elem_of_cons; by left).
  destruct (Z.ltb_spec seq s); [lia|]. rewrite IH; [done|]. intros s' Hs'. apply Hl, elem_of_cons. by right.
Qed.

Lemma retire_ok public t c back_off :
  trail_ok public t c → cs_sealed c = Some (next_seq t) → default "" (tr_active t) ≠ "" → 0 ≤ next_seq t →
  let t' := MkTrail (insert_segment (next_seq t) (default "" (tr_active t)) (tr_sealed t)) None back_off in
  trail_ok public t' c ∧ history t' = history t ∧ tr_sealed t' = tr_sealed t ++ [(next_seq t, default "" (tr_active t))].
Proof.
  intros [(c1 & Hs & Hl & Ha)%full_pass_Ok He Hok] Hseal Hne H0 t'.
  assert (tr_sealed t' = tr_sealed t ++ [(next_seq t, default "" (tr_active t))]) as Hsealed.
  { apply insert_segment_last. intros s Hin. by apply Hok. }
  split; [split|split].
  - apply full_pass_Ok. exists c. split; [|by split; [constructor|]].
    rewrite Hsealed. apply fold_op_app_Ok. exists c1. split; [done|]. apply fold_op_cons. exists c.
    split; [|done]. by apply segment_pass_Ok.
  - done.
  - intros s. unfold next_seq. rewrite Hsealed, last_snoc.
    intros [Hin|Hin%list_elem_of_singleton]%elem_of_app; [|subst s]; cbn.
    + destruct (Hok s Hin) as (? & ? & ?). split_and!; [done..|lia|]. lia.
    + split_and!; [done..|lia|lia].
  - unfold history. rewrite Hsealed, fmap_app, join_app. cbn. by rewrite !app_nil_r.
  - done.
Qed.

(** ** One attempt *)
Definition is_seal_value (v : Value) : Prop :=
  ∃ e, entry_of_value v = Some e ∧ is_seal (ae_event_type e) = true.

(** The attempt's key is the store's, and no write is left torn. *)
Definition attempt_ok (public : option string) (ax : AppendEnv) : Prop :=
  key_agrees public (ax_key ax) ∧ whole (ax_write ax) ∧ whole (ax_seal_write ax).

(** When the attempt may seal the active file, the number of the segment is a
    [u64] and the line of the seal is short. *)
Definition can_seal (ax : AppendEnv) (t : Trail) (c : ChainState) : Prop :=
  default "" (tr_active t) ≠ "" → ax_checkpoint ax = true →
  next_seq t ≤ u64_max ∧ ∀ key, ax_key ax = inr key →
    str_len (line_written (inr key) (ax_seal_timestamp ax) (seal_data (next_seq t)) (cs_prev_hash c)
               (VString SEAL_EVENT)) < TAIL.

(** What an attempt leaves behind, given the history before it. *)
Definition outcome (public : option string) (data : AuditEntryData) (past : list Value)
    (moved : Trail → ChainState → Prop) (r : Trail * exec string Appended) : Prop :=
  match r with
  | (t', Ok (Done e)) => ∃ vs v c', Forall is_seal_value vs ∧ trail_ok public t' c'
      ∧ history t' = past ++ vs ++ [v] ∧ entry_of_value v = Some e ∧ entry_data e = data
      ∧ cs_prev_hash c' = ae_entry_hash e
  | (t', Ok (Moved d)) => ∃ vs c', Forall is_seal_value vs ∧ trail_ok public t' c' ∧ history t' = past ++ vs
      ∧ d = data ∧ short_tails t' ∧ moved t' c'
  | (t', Err _) => ∃ vs c', Forall is_seal_value vs ∧ trail_ok public t' c' ∧ history t' = past ++ vs
  | (_, Panic) => event_value (ad_event_type data) = None
  | (_, Hang) => False
  end.

Lemma outcome_after public data past v moved r :
  is_seal_value v → outcome public data (past ++ [v]) moved r → outcome public data past moved r.
Proof.
  intros Hv. destruct r as [t' [[e|d]|e| |]]; cbn; try done.
  - intros (vs & w & c' & Hvs & Ht & Hh & He). exists (v :: vs), w, c'.
    split; [by constructor|]. split; [done|]. split; [|done]. by rewrite Hh, <-app_assoc.
  - intros (vs & c' & Hvs & Ht & Hh & Hd). exists (v :: vs), c'.
    split; [by constructor|]. split; [done|]. split; [|done]. by rewrite Hh, <-app_assoc.
  - intros (vs & c' & Hvs & Ht & Hh). exists (v :: vs), c'.
    split; [by constructor|]. split; [done|]. by rewrite Hh, <-app_assoc.
Qed.

Lemma outcome_same public data t c e moved t' :
  trail_ok public t c → same_files t t' → outcome public data (history t) moved (t', Err e).
Proof.
  intros Hok Hs. exists [], c. rewrite app_nil_r. split; [done|].
  split; [by apply (same_files_ok _ t)|by apply same_files_history].
Qed.

(** Appending the entry to the active file. *)
Lemma append_outcome public ax data t c moved prev_hash :
  trail_ok public t c → attempt_ok public ax → data_ok data None → prev_hash = cs_prev_hash c →
  outcome public data (history t) moved
    ((entry ← on_active (append_locked (ax_key ax) (ax_timestamp ax) (ax_write ax) data prev_hash);
      mret (Done entry)) t).
Proof.
  intros Hok (Hkey & Hw & _) Hdata ->. unfold mbind, op_mbind, op_bind.
  pose proof (write_spec public (ax_key ax) (ax_timestamp ax) (ax_write ax) data None t c Hok Hkey Hdata Hw) as Hs.
  destruct (on_active _ t) as [t' [a|e| |]]; cbn; try done.
  - destruct Hs as (v & event & _ & _ & Hok' & Hh & He & Hd & _). exists [], v, (advanced c a None).
    split_and!; done.
  - by apply (outcome_same public data t c e moved).
Qed.

Lemma next_seq_nonneg public t c : trail_ok public t c → 0 ≤ next_seq t.
Proof.
  intros [_ _ Hok]. unfold next_seq. destruct (last (tr_sealed t)) as [[seq b]|] eqn:E; [|lia].
  apply last_Some_elem_of in E. destruct (Hok _ E) as (_ & _ & H). cbn in H. lia.
Qed.

Lemma retire_outcome public ax data t c :
  trail_ok public t c → attempt_ok public ax → data_ok data None → short_tails t →
  cs_sealed c = Some (next_seq t) → default "" (tr_active t) ≠ "" →
  outcome public data (history t) (λ t' _, default "" (tr_active t') = "")
    (retire_or_append ax data (next_seq t) t).
Proof.
  intros Hok Hax Hdata Hshort Hseal Hne. unfold retire_or_append, retire, mbind, op_mbind, op_bind, get, lift, modify.
  rewrite bool_decide_eq_false_2.
  2: { intros (s & Hseq & Hin)%list_elem_of_fmap. destruct Hok as [_ _ Hok]. destruct (Hok s Hin) as (_ & _ & ?). lia. }
  cbn [reject_if]. destruct (ax_retire ax) as [e|]; cbn [io_step].
  - set (t1 := MkTrail (tr_sealed t) (tr_active t) (ax_unix_now ax + BACK_OFF_SECS)).
    assert (same_files t t1) as Hsame by done.
    destruct (ax_tail_again ax) as [e'|]; cbn [io_step]; [by apply (outcome_same public data t c e' (λ _ _, True))|].
    pose proof (trail_tail public t1 c (same_files_ok _ _ _ _ Hsame Hok) (same_files_short _ _ Hsame Hshort)) as Ht.
    unfold read_last_hash_tail. destruct (read_tail_entry _) as [[v|]| | |]; try done.
    + destruct Ht as (_ & Hv & _). cbn. rewrite Hv. cbn.
      exact (append_outcome public ax data t1 c _ _ (same_files_ok _ _ _ _ Hsame Hok) Hax Hdata eq_refl).
    + by apply (outcome_same public data t c "" (λ _ _, True)).
  - destruct (retire_ok public t c (tr_back_off t) Hok Hseal Hne (next_seq_nonneg _ _ _ Hok)) as (Hok' & Hh & Hs).
    exists [], c. rewrite app_nil_r. split_and!; try done. split; [done|]. intros s. cbn in Hs |- *. rewrite Hs, last_snoc.
    intros [= <-]. apply (proj1 Hshort).
Qed.
Lemma outcome_mono public data past (moved moved' : Trail → ChainState → Prop) r :
  (∀ t c, moved t c → moved' t c) → outcome public data past moved r → outcome public data past moved' r.
Proof.
  intros Himpl. destruct r as [t' [[e|d]|e| |]]; cbn; try done.
  intros (vs & c' & ? & ? & ? & ? & ? & ?). exists vs, c'. split_and!; auto.
Qed.

Lemma seal_data_ok seq : 0 ≤ seq ≤ u64_max → data_ok (seal_data seq) (Some seq).
Proof.
  intros Hseq. split; [by split|]. exists seq. split; [|done]. unfold sealed_seq. cbn.
  change (strip_prefix "segment=" ("segment=" +:+ pretty seq) ≫= parse_u64 = Some seq).
  rewrite (proj2 (strip_prefix_Some "segment=" _ _) eq_refl). by apply parse_u64_pretty.
Qed.

Lemma short_tail_line p line :
  ends_on_newline p = true → no_newline line = true → str_len line < TAIL → short_tail (p +:+ line_bytes line).
Proof. intros Hp Hl Hlen. unfold short_tail. by rewrite read_lines_app, read_line_bytes, last_app. Qed.

Lemma line_bytes_nonempty p line : p +:+ line_bytes line ≠ "".
Proof.
  intros E%(f_equal str_len). revert E. unfold line_bytes. rewrite !str_len_app. unfold str_len. cbn. lia.
Qed.

(** Sealing the active file, and retiring it. *)
Lemma seal_outcome public ax data t c :
  trail_ok public t c → attempt_ok public ax → data_ok data None → short_tails t → can_seal ax t c →
  default "" (tr_active t) ≠ "" → ax_checkpoint ax = true →
  outcome public data (history t) (λ t' _, default "" (tr_active t') = "")
    ((on_active (append_locked (ax_key ax) (ax_seal_timestamp ax) (ax_seal_write ax) (seal_data (next_seq t))
                   (cs_prev_hash c));;
      retire_or_append ax data (next_seq t)) t).
Proof.
  intros Hok Hax Hdata Hshort Hcan Hne Hck. destruct (Hcan Hne Hck) as [Hmax Hline].
  pose proof Hax as (Hkey & Hw & Hsw).
  assert (data_ok (seal_data (next_seq t)) (Some (next_seq t))) as Hsd.
  { apply seal_data_ok. split; [by apply (next_seq_nonneg public t c)|done]. }
  pose proof (write_spec public (ax_key ax) (ax_seal_timestamp ax) (ax_seal_write ax) (seal_data (next_seq t))
                _ t c Hok Hkey Hsd Hsw) as Hs.
  unfold mbind, op_mbind, op_bind. destruct (on_active _ t) as [t' [a|e| |]]; try done.
  - destruct Hs as (v & event & [= <-] & Ht' & Hok' & Hh & He & Htype & Hreq).
    destruct (Hreq eq_refl) as [key Hk].
    apply (outcome_after public data (history t) v).
    { exists a. split; [done|]. apply (f_equal ad_event_type) in Htype. change (is_seal (ad_event_type (entry_data a)) = true). by rewrite Htype. }
    rewrite <-Hh. assert (next_seq t' = next_seq t) as <- by by rewrite Ht'.
    apply (retire_outcome public ax data t' _ Hok'); [done..| | |].
    + destruct Hshort as [_ Hseg]. split; [|by rewrite Ht'].
      rewrite Ht'. cbn [set_tr_active tr_active default from_option id].
      destruct Hok. apply short_tail_line; [done|apply line_written_plain|]. rewrite Hk. by apply Hline.
    + rewrite advanced_sealed. by rewrite Ht'.
    + rewrite Ht'. apply line_bytes_nonempty.
  - by apply (outcome_same public data t c e (λ _ _, True)).
Qed.

Lemma append_or_seal_spec public ax now data t c :
  trail_ok public t c → attempt_ok public ax → data_ok data None → short_tails t → can_seal ax t c →
  outcome public data (history t) (λ t' c', default "" (tr_active t') = "" ∨ t' = t ∧ c' = c)
    (append_or_seal ax now data t).
Proof.
  intros Hok Hax Hdata Hshort Hcan.
  pose proof (λ e, outcome_same public data t c e (λ t' c', default "" (tr_active t') = "" ∨ t' = t ∧ c' = c)
                t Hok ltac:(done)) as Hsame.
  pose proof (append_outcome public ax data t c (λ t' c', default "" (tr_active t') = "" ∨ t' = t ∧ c' = c))
    as Happend.
  assert (∀ r, outcome public data (history t) (λ t' _, default "" (tr_active t') = "") r →
    outcome public data (history t) (λ t' c', default "" (tr_active t') = "" ∨ t' = t ∧ c' = c) r) as Hmono.
  { intros r. apply outcome_mono. by left. }
  pose proof (trail_tail public t c Hok Hshort) as Htail.
  pose proof (trail_head public t c Hok Hshort) as Hhead.
  unfold append_or_seal. do 3 (unfold mbind at 1, op_mbind at 1, op_bind at 1). unfold get, lift.
  destruct (ax_tail ax) as [e|]; cbn [io_step]; [apply Hsame|].
  destruct (read_tail_entry _) as [[v|]|e| |]; try done.
  - destruct Htail as (Hne & Hh & Hlast). rewrite Hh. cbn [default from_option id]. cbn zeta.
    unfold mbind at 1, op_mbind at 1, op_bind at 1.
    destruct (ax_stat ax) as [e|]; cbn [io_step]; [apply Hsame|].
    case_bool_decide as Hsealed.
    { apply Hmono, (retire_outcome public ax data t c); [done..| |done].
      case_bool_decide as Hev; [|done]. destruct Hok as [(c1 & _ & _ & Ha)%full_pass_Ok _ _].
      by eapply last_seal. }
    destruct (match _ with Some seq => _ | None => false end).
    { exists [], c. rewrite app_nil_r. split_and!; try done. by right. }
    destruct (due _ _ _ && _ && ax_checkpoint ax) eqn:Hdue; [|by apply Happend].
    apply andb_true_iff in Hdue as [_ Hck]. by apply Hmono, (seal_outcome public ax data t c).
  - specialize (Hhead Htail). unfold mbind at 1, op_mbind at 1, op_bind at 1.
    destruct (last (tr_sealed t)) as [[seq segment]|]; [|by apply Happend].
    destruct (ax_segment ax) as [e|]; [apply Hsame|]. cbn in Hhead |- *.
    destruct (read_last_hash_tail segment) as [h|e'| |]; try done. by apply Happend.
Qed.

(** ** A call: attempts until the entry is in the active file *)
Definition kept (public : option string) (data : AuditEntryData) (past : list Value)
    (r : Trail * exec string AuditEntry) : Prop :=
  outcome public data past (λ _ _, True) (r.1, e ← r.2; Ok (Done e)).

Lemma can_seal_same ax t t' c : same_files t t' → can_seal ax t c → can_seal ax t' c.
Proof. intros [Hs Ha]. unfold can_seal, next_seq. by rewrite Hs, Ha. Qed.

Lemma can_seal_empty ax t c : default "" (tr_active t) = "" → can_seal ax t c.
Proof. by intros H ?. Qed.

Lemma kept_after public data past vs r :
  Forall is_seal_value vs → kept public data (past ++ vs) r → kept public data past r.
Proof.
  revert past. induction vs as [|v vs IH]; intros past Hvs Hr; [by rewrite app_nil_r in Hr|].
  apply Forall_cons in Hvs as [Hv Hvs]. apply (outcome_after public data past v); [done|].
  apply IH; [done|]. by rewrite <-app_assoc.
Qed.

Lemma open_attempts_same tries t :
  ∃ t' r, open_attempts tries t = (t', r) ∧ same_files t t'
  ∧ match r with Ok _ | Err _ => True | _ => False end.
Proof.
  revert t. induction tries as [|a tries IH]; intros t; [by eexists _, _|].
  cbn [open_attempts]. unfold mbind, op_mbind, op_bind, lift, modify.
  destruct (oa_open a); cbn [io_step]; [by eexists _, _|].
  pose proof (same_files_opened t) as [Hs Ha]. set (t0 := set_tr_active _ t) in *.
  destruct (oa_lock a); cbn [io_step]; [by eexists _, _|].
  destruct (oa_current a); [by eexists _, _|].
  destruct (IH t0) as (t' & r & -> & [Hs' Ha'] & Hr). exists t', r. split; [done|]. split; [|done].
  split; congruence.
Qed.

Lemma record_attempts_kept public now envs data t c :
  trail_ok public t c → data_ok data None → short_tails t →
  Forall (attempt_ok public) envs → Forall (λ ax, can_seal ax t c) envs →
  kept public data (history t) (record_attempts now envs data t).
Proof.
  revert t c. induction envs as [|ax envs IH]; intros t c Hok Hdata Hshort Hax Hcan.
  { by apply (outcome_same public data t c "" (λ _ _, True)). }
  apply Forall_cons in Hax as [Hax Haxs]. apply Forall_cons in Hcan as [Hc Hcs].
  cbn [record_attempts]. unfold mbind at 1, op_mbind at 1, op_bind at 1. unfold open_active_locked.
  destruct (open_attempts_same (take SNAPSHOT_ATTEMPTS (ax_open ax)) t) as (t0 & r & -> & Hsame & Hr).
  destruct r as [[]|e| |]; [|by apply (outcome_same public data t c e (λ _ _, True))|done..].
  rewrite <-(same_files_history _ _ Hsame). apply (same_files_ok _ _ _ _ Hsame) in Hok.
  pose proof (append_or_seal_spec public ax now data t0 c Hok Hax Hdata (same_files_short _ _ Hsame Hshort)
    (can_seal_same _ _ _ _ Hsame Hc)) as Hrun.
  unfold mbind, op_mbind, op_bind. destruct (append_or_seal _ _ _ _) as [t' [[e|d]|e| |]]; try done.
  destruct Hrun as (vs & c' & Hvs & Hok' & Hh & -> & Hshort' & Hmoved).
  apply (kept_after public data _ vs); [done|]. rewrite <-Hh. apply (IH t' c'); try done.
  destruct Hmoved as [Hempty|[-> ->]].
  - apply Forall_forall. intros ax' _. by apply can_seal_empty.
  - eapply Forall_impl; [exact Hcs|]. intros ax'. by apply can_seal_same.
Qed.

(** When the last 64 KiB of the active file begin inside a character, its tail
    cannot be read, and no append succeeds any more. *)
Lemma cut_character_blocks now envs data t :
  str_len (default "" (tr_active t)) ≠ 0 →
  utf8_valid (drop_bytes (Z.to_nat (str_len (default "" (tr_active t)) - TAIL)) (default "" (tr_active t))) = false →
  ∃ t' e, try_record_at_time now envs data t = (t', Err e) ∧ same_files t t'.
Proof.
  intros Hlen Hcut. unfold try_record_at_time. destruct (take SNAPSHOT_ATTEMPTS envs) as [|ax rest]; [by eexists _, _|].
  cbn [record_attempts]. unfold mbind, op_mbind, op_bind, open_active_locked.
  destruct (open_attempts_same (take SNAPSHOT_ATTEMPTS (ax_open ax)) t) as (t0 & r & -> & [Hs Ha] & Hr).
  destruct r as [[]|e| |]; [|by eexists _, _|done..].
  unfold append_or_seal, mbind, op_mbind, op_bind, get, lift.
  destruct (ax_tail ax); cbn [io_step]; [by eexists _, _|]. unfold read_tail_entry.
  rewrite Ha, Hcut, (proj2 (Z.eqb_neq _ _) Hlen). by eexists _, _.
Qed.

(** C3: an append keeps the trail verifiable, as long as the key that signs is
    the one passes verify with.  Take a trail that a full pass accepts, each of
    whose files ends a line, whose segments are not empty and have numbers below
    the next one, and whose active file and newest segment have their last line
    within the last 64 KiB; data with a [u32] of tokens that is no seal;
    and any answers of the file system, the lock and the clock, an appended line
    left torn excepted.  Wherever a signing key is read, the stored public key is
    its public key ([attempt_ok]; [lost_public_key] shows an append that returns
    its entry and ends the trail's verification where the public key file is
    gone), and where the active file may be sealed, the number of the segment is
    a [u64] and the line of the seal shorter than 64 KiB ([can_seal]).  Then a
    call of [try_record] returns the entry it wrote or an error; it panics only
    for an event label the serializer refuses, and it returns.  In both other
    cases a full pass over the trail still succeeds, and what the trail held
    before is still there, in order, followed only by seals of the active file
    and, on success, by one value that reads back as the returned entry, with the
    data handed over, and is the new head. *)
Theorem append_keeps_chain public now envs data t c :
  full_pass public t chain_genesis = (c, Ok ()) →
  ends_on_newline (default "" (tr_active t)) = true →
  (∀ s, s ∈ tr_sealed t → ends_on_newline s.2 = true ∧ s.2 ≠ "" ∧ 0 ≤ s.1 < next_seq t) →
  short_tails t → in_range u32_max (ad_output_tokens data) → is_seal (ad_event_type data) = false →
  Forall (attempt_ok public) envs → Forall (λ ax, can_seal ax t c) envs →
  match try_record_at_time now envs data t with
  | (t', Ok e) => ∃ seals v c', Forall is_seal_value seals ∧ full_pass public t' chain_genesis = (c', Ok ())
      ∧ history t' = history t ++ seals ++ [v] ∧ entry_of_value v = Some e ∧ entry_data e = data
      ∧ cs_prev_hash c' = ae_entry_hash e
  | (t', Err _) => ∃ seals c', Forall is_seal_value seals ∧ full_pass public t' chain_genesis = (c', Ok ())
      ∧ history t' = history t ++ seals
  | (_, Panic) => event_value (ad_event_type data) = None
  | (_, Hang) => False
  end.
Proof.
  intros Hp He Hs Hshort Htok Hseal Hax Hcan.
  pose proof (record_attempts_kept public now (take SNAPSHOT_ATTEMPTS envs) data t c
    (Build_trail_ok _ _ _ Hp He Hs) ltac:(split; [done|by rewrite Hseal]) Hshort
    (Forall_take _ _ _ Hax) (Forall_take _ _ _ Hcan)) as Hk.
  unfold kept, try_record_at_time in *. destruct (record_attempts _ _ _ _) as [t' [e|e| |]]; cbn in Hk |- *; [| |done..].
  - destruct Hk as (vs & v & c' & Hvs & [Hp' _ _] & ? & ? & ? & ?). by exists vs, v, c'.
  - destruct Hk as (vs & c' & Hvs & [Hp' _ _] & ?). by exists vs, c'.
Qed.
End append.
