(* ===== verification/AuditWitness.v ===== *)
(** * The audit trail at concrete inputs

    A trail with one signed entry, on which the theorems about the audit trail
    are applied. *)
From stdpp Require Import countable gmap.
From S2P Require Import Prelude BTree Text Hashing Hex GraphModel TaskAuthority SecurityEvents.
From S2P Require Import Json AuditTrail.
From S2P Require Import AuditFacts AuditResumeFacts AuditAppendFacts.
#[local] Open Scope Z_scope.

(** ** A serializer

    An object is written as a brace and the binary digits of its fields; a
    payload as the binary digits of its parts. *)
Notation atom := (string + (Z + ()))%type.
Definition atom_of (v : Value) : atom :=
  match v with
  | VString s => inl s
  | VNumber (JPosInt n) => inr (inl n)
  | _ => inr (inr ())
  end.
Definition of_atom (a : atom) : Value :=
  match a with
  | inl s => VString s
  | inr (inl n) => VNumber (JPosInt n)
  | inr (inr _) => VNull
  end.

Definition object_text (fields : list (string * Value)) : string :=
  BRACE +:+ bits (encode (prod_map id atom_of <$> fields)).
Definition object_values (s : string) : list Value * bool :=
  match strip_prefix BRACE s with
  | Some rest =>
      match unbits rest ≫= decode (A := list (string * atom)) with
      | Some l => ([VObject (prod_map id of_atom <$> l)], true)
      | None => ([], false)
      end
  | None => ([], is_blank s)
  end.
Definition sample_audit_json : AuditJson := {|
  value_text v := match v with VObject fields => object_text fields | _ => "" end;
  struct_text := object_text;
  values_of := object_values;
|}.

Lemma flat_atom v : flat v → of_atom (atom_of v) = v.
Proof. by destruct v as [| |[]| | |]. Qed.

Lemma utf8_ascii s : all_bytes (byte_in 0 127) s = true → utf8_valid s = true.
Proof. induction s as [|a s IH]; [done|]. cbn [all_bytes utf8_valid]. by intros [-> ?%IH]%andb_true_iff. Qed.

Lemma object_text_digits fields (p : Ascii.ascii → bool) :
  p (Ascii.ascii_of_N 123) = true → (∀ a, byte_in 48 49 a = true → p a = true) → all_bytes p (object_text fields) = true.
Proof.
  intros Hb Hp. unfold object_text. rewrite all_bytes_app.
  rewrite (andb_true_intro (conj Hb eq_refl) : all_bytes p BRACE = true). cbn [andb].
  eapply all_bytes_impl; [exact Hp|apply bits_digits].
Qed.

Lemma sample_audit_json_laws : @AuditJsonLaws sample_audit_json.
Proof.
  split; cbn.
  - intros fields. by eexists.
  - intros fields. apply object_text_digits; [done|].
    intros a Ha%byte_in_spec. apply negb_true_iff, byte_in_false. lia.
  - intros fields _ Hflat. exists (VObject fields). split; [|done].
    unfold object_values, object_text.
    rewrite (proj2 (strip_prefix_Some BRACE _ _) eq_refl), unbits_bits. cbn [mbind option_bind].
    rewrite decode_encode. do 3 f_equal. rewrite <-list_fmap_compose.
    rewrite <-(list_fmap_id fields) at 2. apply list_fmap_ext. intros i [k v] Hl. cbn. f_equal.
    apply flat_atom. rewrite Forall_forall in Hflat. apply Hflat, list_elem_of_fmap.
    exists (k, v). split; [done|]. by eapply list_elem_of_lookup_2.
  - intros fields. apply utf8_ascii, object_text_digits; [done|].
    intros a Ha%byte_in_spec. apply byte_in_spec. lia.
  - intros s Hs. unfold object_values. destruct (strip_prefix BRACE s) as [rest|] eqn:E; [|done].
    apply strip_prefix_Some in E as ->. by destruct rest as [|b [|c rest]].
Qed.

(** Payloads, part by part. *)
Notation evidence_parts := ((Z * Z * Z * Z * Z * Z * Z) * Z * option string * option string)%type.
Notation payload_parts :=
  (Z * string * (Z * Z * Z * Z * Z) * string * string * Z * string * Z
   * (string * Z * Z * gmap string (string * string) * evidence_parts * evidence_parts * option Z))%type.

Definition counts_parts (c : SecurityCounts) : Z * Z * Z * Z * Z * Z * Z :=
  (sc_secrets_redacted c, sc_shell_blocked c, sc_path_blocked c, sc_injection_flagged c, sc_pii_redacted c,
   sc_content_withheld c, sc_coverage_incomplete c).
Definition evidence_to (e : SignedTallyEvidence) : evidence_parts :=
  (counts_parts (te_counts e), te_entries e, te_first_hash e, te_last_hash e).
Definition evidence_from (x : evidence_parts) : SignedTallyEvidence :=
  let '((a, b, c, d, e, f, g), n, first, last) := x in MkEvidence (MkCounts a b c d e f g) n first last.
Definition payload_to (p : Payload) : payload_parts :=
  let s := pl_stamp p in
  let c := pl_state p in
  (pl_version p, pl_trail p, (fs_size s, fs_dev s, fs_ino s, fs_mtime_secs s, fs_mtime_nanos s),
   pl_head_digest p, pl_tail_digest p, pl_full_verified_at p, pl_start_hash p, pl_start_total p,
   (cs_prev_hash c, cs_total c, cs_unknown c, cs_pending c, evidence_to (cs_tally c),
    evidence_to (cs_security c), cs_sealed c)).
Definition payload_from (x : payload_parts) : Payload :=
  let '(version, trail, (size, dev, ino, secs, nanos), head, tail, at_, start, total,
        (prev, n, unknown, pending, tally, security, sealed)) := x in
  MkPayload version trail (MkFileStamp size dev ino secs nanos) head tail at_ start total
    (MkChainState prev n unknown pending (evidence_from tally) (evidence_from security) sealed).

Definition sample_checkpoint_json : CheckpointJson := {|
  payload_text p := bits (encode (payload_to p));
  payload_of s := payload_from <$> (unbits s ≫= decode (A := payload_parts));
|}.
Lemma sample_checkpoint_laws : @CheckpointJsonLaws sample_checkpoint_json.
Proof.
  intros p. cbn. rewrite unbits_bits. cbn [mbind option_bind]. rewrite decode_encode. cbn. f_equal.
  by destruct p as [? ? [] ? ? ? ? ? [? ? ? ? [[] ? ? ?] [[] ? ? ?] ?]].
Qed.

(** Every time stamp is on the first day. *)
Definition sample_calendar : Calendar := {| rfc3339_day _ := Some 0; utc_day now := now / (24 * 60 * 60) |}.

(** ** A trail with one entry *)
#[local] Existing Instance sample_audit_json.
#[local] Existing Instance sample_audit_json_laws.
#[local] Existing Instance sample_checkpoint_json.
#[local] Existing Instance sample_checkpoint_laws.
#[local] Existing Instance sample_calendar.
#[local] Existing Instance sample_ed25519.
#[local] Existing Instance sample_ed25519_laws.
#[local] Existing Instance sample_sha256.
#[local] Existing Instance sample_sha256_hex.

Definition audit_key : SigningKey := "k".
Definition audit_public : option string := Some (verifying_key audit_key).
Definition drift_data : AuditEntryData :=
  MkEntryData "agent" "ctx_read" (Some "calls=9") "" 10 "developer" AgentDriftDetected.
Definition drift_event : Value := VString "agent_drift_detected".
Definition drift_entry (timestamp : string) : AuditEntry :=
  entry_written (inr audit_key) timestamp drift_data "genesis" drift_event.
Definition drift_line (timestamp : string) : string :=
  line_written (inr audit_key) timestamp drift_data "genesis" drift_event.
Definition empty_trail : Trail := MkTrail [] None 0.
Definition drift_trail (timestamp : string) : Trail :=
  set_tr_active (line_bytes (drift_line timestamp)) empty_trail.
Definition drift_state (timestamp : string) : ChainState := advanced chain_genesis (drift_entry timestamp) None.

Lemma audit_key_agrees : key_agrees audit_public (inr audit_key).
Proof. by intros key [= <-]. Qed.

Lemma drift_trail_ok timestamp :
  trail_ok audit_public (drift_trail timestamp) (drift_state timestamp)
  ∧ ∃ v, history (drift_trail timestamp) = [v] ∧ entry_of_value v = Some (drift_entry timestamp).
Proof.
  assert (data_ok drift_data None) as Hdata by by split.
  destruct (line_written_ok audit_public (inr audit_key) timestamp drift_data drift_event None chain_genesis
    audit_key_agrees Hdata eq_refl ltac:(intros _; by exists audit_key)) as (Hl & Hlok & v & Hv & Hentry & Hadv).
  assert (trail_ok audit_public empty_trail chain_genesis) as H0.
  { split; [reflexivity|reflexivity|intros s Hs%elem_of_nil; destruct Hs]. }
  destruct (append_line_ok audit_public empty_trail chain_genesis _ _ v H0 Hl Hlok Hv Hadv) as [Hok Hh].
  split; [exact Hok|]. exists v. split; [exact Hh|exact Hentry].
Qed.

(** Two trails that differ in a time stamp, which no hash covers. *)
Lemma chain_binds_history_witness :
  cs_prev_hash (drift_state "t1") = cs_prev_hash (drift_state "t2") ∧
  ((hashed_text <$> history (drift_trail "t1") = hashed_text <$> history (drift_trail "t2")
    ∧ cs_total (drift_state "t1") = cs_total (drift_state "t2"))
   ∨ ∃ x y, x ∈ hash_inputs "genesis" (hashed_text <$> history (drift_trail "t1"))
      ∧ y ∈ hash_inputs "genesis" (hashed_text <$> history (drift_trail "t2")) ∧ x ≠ y
      ∧ sha256_hex x = sha256_hex y).
Proof.
  split; [reflexivity|].
  exact (chain_binds_history audit_public audit_public (drift_trail "t1") (drift_trail "t2") _ _
    (ok_verified _ _ _ (proj1 (drift_trail_ok "t1"))) (ok_verified _ _ _ (proj1 (drift_trail_ok "t2"))) eq_refl).
Defined.

(** A trail that grew by a line since its checkpoint was saved. *)
Definition audit_keys : Keys := MkKeys audit_public (Some audit_key).
Definition audit_view (bytes : string) : FileView :=
  MkFileView true (Some (MkFileStamp (str_len bytes) 1 2 3 4)) (Some (str_len bytes)) bytes ok_pass ok_pass true true.
Definition saved_store (bytes : string) (state : ChainState) : Store :=
  save audit_keys true bytes (MkFileStamp (str_len bytes) 1 2 3 4) chain_genesis state 0 (MkStore "trail" None).
Definition grown_trail : Trail := grown (line_bytes (drift_line "t2")) (drift_trail "t1").
Definition grown_active : option (FileView * option Store) :=
  Some (audit_view (line_bytes (drift_line "t1") +:+ line_bytes (drift_line "t2")),
        Some (saved_store (line_bytes (drift_line "t1")) (drift_state "t1"))).

Lemma saved_store_sound : checkpoints_sound audit_keys grown_trail [] grown_active.
Proof.
  split; [done|]. intros bytes view store c [= <-] [= <- <-] Hc. injection Hc as <-. apply store_sound_Some.
  apply sound_grows. unfold saved_store. apply save_sound; [exact sample_checkpoint_laws|reflexivity| |by intros ? ? ? ? ?].
  apply verify_stream_Ok. destruct (proj1 (drift_trail_ok "t1")) as [(c1 & Hs & Hl & Ha)%full_pass_Ok He _].
  injection Hs as <-. split; [|split; [exact Hl|exact Ha]].
  change (default "" (tr_active (drift_trail "t1"))) with (line_bytes (drift_line "t1")) in He. by rewrite He.
Qed.

Lemma resumed_verdict_is_full_witness :
  let '(v, (segments', active')) := verify_snapshot audit_keys [] grown_active false 60 in
  v = trail_verdict audit_keys grown_trail
  ∧ ∀ more, checkpoints_sound audit_keys (grown more grown_trail) segments' active'.
Proof.
  refine (resumed_verdict_is_full audit_keys grown_trail [] grown_active false 60 _ saved_store_sound).
  split; [constructor|]. split; try reflexivity. eexists. split; reflexivity.
Defined.

(** The day after the entry: the active file is sealed, and the entry goes into
    the next one. *)
Definition audit_env : AppendEnv :=
  MkAppendEnv [MkOpenAnswer None None false; MkOpenAnswer None None true] None None None true 86400 (inr audit_key) "t2" "t2" Written None None Written.
Definition call_data : AuditEntryData := MkEntryData "agent" "ctx_read" None "" 10 "developer" ToolCall.

Lemma audit_env_ok : attempt_ok audit_public audit_env.
Proof. split; [exact audit_key_agrees|by split]. Qed.
Lemma audit_env_can_seal : can_seal audit_env (drift_trail "t1") (drift_state "t1").
Proof. intros _ _. split; [by vm_compute|]. intros key [= <-]. by vm_compute. Qed.
Lemma drift_trail_short : short_tails (drift_trail "t1").
Proof.
  split; [|intros s Hs; discriminate Hs].
  apply (short_tail_line "" (drift_line "t1")); [reflexivity|apply line_written_plain|by vm_compute].
Qed.

Lemma append_keeps_chain_witness :
  match try_record_at_time 86400 [audit_env; audit_env] call_data (drift_trail "t1") with
  | (t', Ok e) => ∃ seals v c', Forall is_seal_value seals ∧ full_pass audit_public t' chain_genesis = (c', Ok ())
      ∧ history t' = history (drift_trail "t1") ++ seals ++ [v] ∧ entry_of_value v = Some e
      ∧ entry_data e = call_data ∧ cs_prev_hash c' = ae_entry_hash e
  | (t', Err _) => ∃ seals c', Forall is_seal_value seals ∧ full_pass audit_public t' chain_genesis = (c', Ok ())
      ∧ history t' = history (drift_trail "t1") ++ seals
  | (_, Panic) => event_value (ad_event_type call_data) = None
  | (_, Hang) => False
  end.
Proof.
  pose proof (append_keeps_chain audit_public 86400 [audit_env; audit_env] call_data (drift_trail "t1")
    (drift_state "t1") (ok_verified _ _ _ (proj1 (drift_trail_ok "t1")))) as H.
  specialize (H (ok_active _ _ _ (proj1 (drift_trail_ok "t1")))).
  apply H.
  - intros s Hs%elem_of_nil. destruct Hs.
  - exact drift_trail_short.
  - split; vm_compute; discriminate.
  - reflexivity.
  - constructor; [exact audit_env_ok|constructor; [exact audit_env_ok|constructor]].
  - constructor; [exact audit_env_can_seal|constructor; [exact audit_env_can_seal|constructor]].
Defined.

(** The same append where the public key file is gone and the private key is
    not: it returns its entry, and no pass accepts the trail from then on. *)
Example lost_public_key :
  full_pass None empty_trail chain_genesis = (chain_genesis, Ok ())
  ∧ match try_record_at_time 86400 [audit_env; audit_env] call_data empty_trail with
    | (t, Ok _) => match full_pass None t chain_genesis with (_, Err _) => True | _ => False end
    | _ => False
    end.
Proof. by vm_compute. Qed.

Lemma drift_outstanding_iff_witness :
  ∃ es, Forall2 (λ v e, entry_of_value v = Some e) (history (drift_trail "t1")) es ∧
  (latest_unacknowledged_drift "agent" (Valid (drift_state "t1"))
   = Ok (Some (drift_evidence (drift_entry "t1") "calls=9")) ↔
   ∃ pre e post, es = pre ++ e :: post
     ∧ drift_of "agent" e = Some (drift_evidence (drift_entry "t1") "calls=9") ∧ authentic audit_public e
     ∧ Forall (λ e', settles "agent" (drift_evidence (drift_entry "t1") "calls=9").2 e' = false) post).
Proof.
  apply (drift_outstanding_iff audit_public (drift_trail "t1")).
  - exact (ok_verified _ _ _ (proj1 (drift_trail_ok "t1"))).
  - destruct (proj2 (drift_trail_ok "t1")) as (v & -> & _). discriminate.
Defined.
