(* ===== verification/SecurityRecord.v ===== *)
(** * Recording a call's security tally

    The writing half of [rust/src/core/security_events.rs]: the counts of a tool
    call become entries of the audit trail, whose failures are swallowed, and
    pending counts of the process.  An entry that was written is proved by the
    trail: a pass that accepts the trail adds exactly its count. *)
From S2P Require Import Prelude BTree Text Hashing Hex GraphModel TaskAuthority SecurityEvents Json.
From S2P Require Import AuditTrail.
From S2P Require Import AuditFacts AuditResumeFacts AuditAppendFacts AuditWitness.
#[local] Open Scope Z_scope.

(** [SecurityKind::audit_event_type] *)
Definition audit_event_type (k : SecurityKind) : AuditEventType :=
  match k with
  | SecretRedacted | PiiRedacted => SecretDetected
  | ShellBlocked | ContentWithheld => ToolDenied
  | PathBlocked => PathJailViolation
  | InjectionFlagged | CoverageIncomplete => SecurityViolation
  end.

(** [PathJailError], and [RefusalClass::of_jail_error] *)
Inductive PathJailError :=
| EscapesRoot | PostCanonicalizeEscape | OutsideWorkspace | WorkspaceUnavailable
| ProtectedContext | JailSymlink | NullByte | NoExistingAncestor.
Definition of_jail_error (e : PathJailError) : option RefusalClass :=
  match e with
  | EscapesRoot | PostCanonicalizeEscape | OutsideWorkspace | WorkspaceUnavailable => Some OutsideRoot
  | ProtectedContext | JailSymlink => Some ProtectedPath
  | NullByte | NoExistingAncestor => None
  end.

(** What the process holds: the trail, and [PENDING]. *)
Record Recorder := MkRecorder { rc_trail : Trail; rc_pending : SecurityCounts }.
Definition set_rc_trail (t : Trail) (r : Recorder) : Recorder := MkRecorder t (rc_pending r).
Definition set_rc_pending (f : SecurityCounts → SecurityCounts) (r : Recorder) : Recorder :=
  MkRecorder (rc_trail r) (f (rc_pending r)).

Section recording.
Context `{AuditJson} `{Sha256} `{ED : Ed25519} `{Calendar}.

(** What one append gets: whether the trail has a path, the clock, and the
    answers of the system to each attempt. *)
Record AppendCall := MkAppendCall { ac_path : bool; ac_now : Z; ac_envs : list AppendEnv }.

(** What one recording gets: the role, the session, the answers to the append
    of each kind and of each class, and whether [PENDING] can be locked. *)
Record RecordEnv := MkRecordEnv {
  re_role : string;
  re_session : option string;
  re_kind : SecurityKind → AppendCall;
  re_class : RefusalClass → AppendCall;
  re_pending : bool;
}.

(** [try_record] and [record] of the audit trail *)
Definition try_record (call : AppendCall) (data : AuditEntryData) : op Trail string AuditEntry :=
  if ac_path call then try_record_at_time (ac_now call) (ac_envs call) data
  else lift (Err "audit trail unavailable").
Definition audit_record {E : Type} (call : AppendCall) (data : AuditEntryData) : op Recorder E () :=
  λ r, let '(t, result) := try_record call data (rc_trail r) in
       (set_rc_trail t r, match result with Ok _ | Err _ => Ok () | Panic => Panic | Hang => Hang end).

Definition add_pending {E : Type} (locked : bool) (f : SecurityCounts → SecurityCounts) : op Recorder E () :=
  if locked then modify (set_rc_pending f) else mret ().

Definition count_data (role tool agent_id : string) (session : option string) (k : SecurityKind) (n : Z) :
    AuditEntryData :=
  MkEntryData agent_id tool (Some (count_action k n (session_suffix session))) "" 0 role (audit_event_type k).
Definition refusal_data (role tool agent_id : string) (session : option string) (c : RefusalClass) (n : Z) :
    AuditEntryData :=
  MkEntryData agent_id tool (Some (refusal_action c n (session_suffix session))) "" 0 role
    (audit_event_type (class_kind c)).

(** [record] *)
Definition record_counts {E : Type} (env : RecordEnv) (tool agent_id : string) (counts : SecurityCounts) :
    op Recorder E () :=
  if counts_is_empty counts then mret ()
  else
    fold_op (λ _ '(k, n), audit_record (re_kind env k)
                            (count_data (re_role env) tool agent_id (re_session env) k n))
      () (counts_iter counts);;
    add_pending (re_pending env) (counts_merge counts).

Definition record_refusals {E : Type} (env : RecordEnv) (tool agent_id : string) (c : RefusalClass) (n : Z) :
    op Recorder E () :=
  if n =? 0 then mret ()
  else
    audit_record (re_class env c) (refusal_data (re_role env) tool agent_id (re_session env) c n);;
    add_pending (re_pending env) (counts_add (class_kind c) n).

Definition record_call {E : Type} (env : RecordEnv) (tool agent_id : string) (tally : CallTally) :
    op Recorder E () :=
  record_counts env tool agent_id (ct_counts tally);;
  fold_op (λ _ c, record_refusals env tool agent_id c (tally_refusals tally c)) () all_classes.

(** [record_one] and [drain_pending] *)
Definition record_one {E : Type} (env : RecordEnv) (tool agent_id : string) (k : SecurityKind) :
    op Recorder E () :=
  record_counts env tool agent_id (counts_add k 1 ZERO).
Definition drain_pending {E : Type} (env : RecordEnv) : op Recorder E SecurityCounts :=
  if re_pending env then r ← get; modify (set_rc_pending (λ _, ZERO));; mret (rc_pending r)
  else mret ZERO.

(** ** What a written entry adds to the evidence *)
Context {AL : AuditJsonLaws} {EL : Ed25519Laws}.
Notation advance_all key := (fold_op (λ _, advance key) ()).

(** The evidence of one more count, as a pass records it. *)
Definition proved (k : SecurityKind) (n : Z) (hash : string) (c c' : ChainState) : Prop :=
  cs_security c' = evidence_record k n hash (cs_security c)
  ∧ cs_tally c' = (if in_signed_tally k then evidence_record k n hash (cs_tally c) else cs_tally c).
Definition same_evidence (c c' : ChainState) : Prop := cs_security c' = cs_security c ∧ cs_tally c' = cs_tally c.

Lemma seal_no_action e sealed : is_seal (ae_event_type e) = true → sealed_by e = Ok sealed →
  ae_action e ≫= parse_action = None.
Proof.
  unfold sealed_by. intros ->. destruct (sealed_seq (ae_action e)) as [seq|] eqn:Hs; [|done]. intros _.
  unfold sealed_seq in Hs. apply bind_Some in Hs as (a & -> & Hs). apply bind_Some in Hs as (digits & Hd & _).
  apply strip_prefix_Some in Hd as ->. cbn [mbind option_bind]. unfold parse_action, from_action.
  rewrite split_on_none by done. cbn [mbind option_bind]. generalize (default "" (head (split_on is_colon digits))).
  intros rest. cbn. reflexivity.
Qed.

Lemma advanced_same c e sealed : ae_action e ≫= parse_action = None → same_evidence c (advanced c e sealed).
Proof. intros Ha. unfold advanced, record_evidence, same_evidence. by rewrite Ha. Qed.

Lemma advanced_proved c e sealed k n session :
  ae_action e ≫= parse_action = Some (k, n, session) → proved k n (ae_entry_hash e) c (advanced c e sealed).
Proof. intros Ha. unfold advanced, record_evidence, proved. by rewrite Ha. Qed.

Lemma seals_same key vs c c' :
  Forall is_seal_value vs → advance_all key vs c = (c', Ok ()) → same_evidence c c'.
Proof.
  revert c. induction vs as [|v vs IH]; intros c Hvs Hrun; [by injection Hrun as <-|].
  apply Forall_cons in Hvs as [(e & He & Hseal) Hvs].
  apply fold_op_cons in Hrun as (c1 & (e' & partial & sealed & Hacc & ->)%advance_Ok & Hrun).
  destruct Hacc as [_ _ _ He' Hs _ _]. rewrite He in He'. injection He' as <-.
  destruct (IH _ Hvs Hrun) as [Hsec Htal]. destruct (advanced_same c e sealed) as [Hsec0 Htal0].
  { by eapply seal_no_action. }
  split; congruence.
Qed.

Lemma history_grows public t t' c c' vs :
  full_pass public t chain_genesis = (c, Ok ()) → full_pass public t' chain_genesis = (c', Ok ()) →
  history t' = history t ++ vs → advance_all public vs c = (c', Ok ()).
Proof.
  intros Hc%full_pass_history Hc'%full_pass_history Hh. rewrite Hh in Hc'.
  apply fold_op_app_Ok in Hc' as (c1 & Hc1 & Hrest). by rewrite Hc in Hc1; injection Hc1 as <-.
Qed.

Lemma append_evidence public now envs data t c k n session :
  trail_ok public t c → short_tails t → data_ok data None → event_value (ad_event_type data) ≠ None →
  ad_action data ≫= parse_action = Some (k, n, session) →
  Forall (attempt_ok public) envs → Forall (λ ax, can_seal ax t c) envs →
  match try_record_at_time now envs data t with
  | (t', Ok e) => ∃ c', full_pass public t' chain_genesis = (c', Ok ()) ∧ proved k n (ae_entry_hash e) c c'
  | (t', Err _) => ∃ c', full_pass public t' chain_genesis = (c', Ok ()) ∧ same_evidence c c'
  | (_, Panic) | (_, Hang) => False
  end.
Proof.
  intros Hok Hshort Hdata Hevent Haction Hax Hcan. pose proof (ok_verified _ _ _ Hok) as Hp.
  pose proof (record_attempts_kept public now (take SNAPSHOT_ATTEMPTS envs) data t c Hok Hdata Hshort
    (Forall_take _ _ _ Hax) (Forall_take _ _ _ Hcan)) as Hk.
  unfold kept, try_record_at_time in *.
  destruct (record_attempts _ _ _ _) as [t' [e|e| |]]; cbn in Hk |- *; try done.
  - destruct Hk as (vs & v & c' & Hvs & [Hp' _ _] & Hh & He & Hd & _). exists c'. split; [done|].
    pose proof (history_grows _ _ _ _ _ _ Hp Hp' Hh) as Hrun.
    apply fold_op_app_Ok in Hrun as (c1 & [Hs Ht]%seals_same & Hrun); [|done].
    apply fold_op_cons in Hrun as (c2 & (e' & partial & sealed & Hacc & ->)%advance_Ok & Hrun).
    injection Hrun as <-. destruct Hacc as [_ _ _ He' _ _ _]. rewrite He in He'. injection He' as <-.
    assert (ae_action e ≫= parse_action = Some (k, n, session)) as Ha by by subst data.
    destruct (advanced_proved c1 e sealed _ _ _ Ha) as [Hsec Htal]. split; [by rewrite Hsec, Hs|by rewrite Htal, Ht].
  - destruct Hk as (vs & c' & Hvs & [Hp' _ _] & Hh). exists c'. split; [done|].
    by eapply seals_same, history_grows.
Qed.

Lemma event_written k : event_value (audit_event_type k) ≠ None ∧ is_seal (audit_event_type k) = false.
Proof. by destruct k. Qed.

(** C18: the trail proves what was recorded, under the conditions of C3: a full
    pass accepts the trail, each file ends a line, the segments are not empty and
    have numbers below the next one, the last lines are within 64 KiB, no write leaves a torn line, wherever a signing key is read the stored
    public key is its public key, and a seal has a [u64] number and a line
    shorter than 64 KiB.  When the append of a count of security events, or of
    refusals, returns the entry, a full pass over the new trail finds exactly that
    count, kind and hash more in the security evidence, and in the signed tally
    just for its four kinds; when it fails, a full pass still succeeds and the
    evidence is unchanged; it neither panics nor hangs.  Counts saturate at
    [u64::MAX]. *)
Theorem recorded_count_proved public now envs role tool agent_id session (x : noted) t c :
  full_pass public t chain_genesis = (c, Ok ()) →
  ends_on_newline (default "" (tr_active t)) = true →
  (∀ s, s ∈ tr_sealed t → ends_on_newline s.2 = true ∧ s.2 ≠ "" ∧ 0 ≤ s.1 < next_seq t) →
  short_tails t → in_range u64_max (noted_count x) →
  Forall (attempt_ok public) envs → Forall (λ ax, can_seal ax t c) envs →
  let k := match x with Fired k _ => k | Refused class _ => class_kind class end in
  let data := match x with
              | Fired k n => count_data role tool agent_id session k n
              | Refused class n => refusal_data role tool agent_id session class n
              end in
  match try_record_at_time now envs data t with
  | (t', Ok e) => ∃ c', full_pass public t' chain_genesis = (c', Ok ())
      ∧ cs_security c' = evidence_record k (noted_count x) (ae_entry_hash e) (cs_security c)
      ∧ cs_tally c' = if in_signed_tally k then evidence_record k (noted_count x) (ae_entry_hash e) (cs_tally c)
                      else cs_tally c
  | (t', Err _) => ∃ c', full_pass public t' chain_genesis = (c', Ok ())
      ∧ cs_security c' = cs_security c ∧ cs_tally c' = cs_tally c
  | (_, Panic) | (_, Hang) => False
  end.
Proof.
  intros Hp He Hs Hshort Hn Hax Hcan k data.
  assert (is_seal (ad_event_type data) = false ∧ event_value (ad_event_type data) ≠ None
    ∧ in_range u32_max (ad_output_tokens data)) as (Hseal & Hev & Htok).
  { destruct x; cbn; split_and!; try apply event_written; by split. }
  eapply (append_evidence public now envs data t c k _ session); try done.
  - split; [done|by rewrite Hseal].
  - destruct x; [by apply count_action_read|by apply refusal_action_read].
Qed.

(** ** Recording fails no call *)

(** The result is a value with the property, or an error. *)
Definition calm_result {A B : Type} (Q : B → Prop) (r : exec A B) : Prop :=
  match r with Ok b => Q b | Err _ => True | _ => False end.
Definition calm {S E' A : Type} (Q : A → Prop) (m : op S E' A) : Prop := ∀ s, calm_result Q (m s).2.

Lemma calm_bind {S E' A B} P (Q : B → Prop) (m : op S E' A) (f : A → op S E' B) :
  calm P m → (∀ a, P a → calm Q (f a)) → calm Q (m ≫= f).
Proof.
  intros Hm Hf s. specialize (Hm s). unfold mbind, op_mbind, op_bind. destruct (m s) as [s' [a|e| |]]; try done.
  by apply Hf.
Qed.
Definition anything {A : Type} (_ : A) : Prop := True.
Lemma calm_then {S E' A B} (Q : B → Prop) (m : op S E' A) (f : A → op S E' B) :
  calm anything m → (∀ a, calm Q (f a)) → calm Q (m ≫= f).
Proof. intros Hm Hf. by apply (calm_bind anything). Qed.
Lemma calm_lift {S E' A} Q (r : exec E' A) : calm_result Q r → calm (S := S) Q (lift r).
Proof. by intros Hr s. Qed.
Lemma calm_ret {S E' A} (Q : A → Prop) a : Q a → calm Q (mret a : op S E' A).
Proof. by intros Hq s. Qed.
Lemma calm_modify {S E'} (f : S → S) : calm anything (modify f : op S E' ()).
Proof. by intros s. Qed.
Lemma calm_get {S E'} : calm anything (get : op S E' S).
Proof. by intros s. Qed.
Lemma calm_io error : calm_result anything (io_step error).
Proof. by destruct error. Qed.

Lemma calm_tail lines : calm_result anything (tail_entry lines).
Proof.
  induction lines as [|l lines IH]; [done|]. cbn. destruct (is_blank _); [done|].
  destruct (values_of _) as [values []]; [cbn|done]. by destruct (last _).
Qed.
Lemma calm_read bytes : calm_result anything (read_tail_entry bytes).
Proof.
  unfold read_tail_entry. destruct (_ =? 0); [done|]. destruct (utf8_valid _); [cbn; apply calm_tail|done].
Qed.
Lemma calm_head bytes : calm_result anything (read_last_hash_tail bytes).
Proof. unfold read_last_hash_tail. pose proof (calm_read bytes). by destruct (read_tail_entry bytes). Qed.

Lemma calm_write signing timestamp fate data prev_hash :
  event_value (ad_event_type data) ≠ None →
  calm anything (on_active (append_locked signing timestamp fate data prev_hash)).
Proof.
  intros Hev t. unfold on_active. pose proof (append_locked_run signing timestamp fate data prev_hash
    (default "" (tr_active t))) as Hrun.
  destruct (event_value _); [|done]. destruct fate, (append_locked _ _ _ _ _ _) as [b [| | |]]; done.
Qed.
#[local] Hint Resolve calm_then calm_lift calm_ret calm_modify calm_get calm_io calm_read calm_head calm_write : calm.

(** What is handed back is what was handed over. *)
Definition handed (data : AuditEntryData) (a : Appended) : Prop :=
  match a with Done _ => True | Moved d => d = data end.

Lemma calm_done signing timestamp fate data prev_hash :
  event_value (ad_event_type data) ≠ None →
  calm (handed data)
    (entry ← on_active (append_locked signing timestamp fate data prev_hash); mret (Done entry)).
Proof. intros Hev. apply calm_then; [by apply calm_write|]. intros e. by apply calm_ret. Qed.

Lemma calm_retire ax data seq :
  event_value (ad_event_type data) ≠ None → calm (handed data) (retire_or_append ax data seq).
Proof.
  intros Hev t. unfold retire_or_append.
  assert (calm anything (retire (ax_retire ax) seq)) as Hr.
  { unfold retire. apply calm_then; [apply calm_get|]. intros t'. apply calm_then; [|auto 6 with calm].
    apply calm_lift. by destruct (bool_decide _). }
  specialize (Hr t). destruct (retire _ _ t) as [t' [| | |]]; try done.
  apply calm_then; [auto with calm|]. intros _. apply calm_then; [auto with calm|]. intros t1.
  apply calm_then; [auto with calm|]. intros _. apply calm_then; [auto with calm|]. intros h. by apply calm_done.
Qed.

Lemma calm_append ax now data :
  event_value (ad_event_type data) ≠ None → calm (handed data) (append_or_seal ax now data).
Proof.
  intros Hev. unfold append_or_seal. apply calm_then; [apply calm_get|]. intros t.
  apply calm_then; [auto with calm|]. intros _. apply calm_then; [auto with calm|]. intros [v|].
  - apply calm_then; [auto with calm|]. intros _. destruct (bool_decide _); [by apply calm_retire|].
    destruct (match _ with Some seq => _ | None => false end); [by apply calm_ret|].
    destruct (_ && ax_checkpoint ax); [|by apply calm_done].
    apply calm_then; [by apply calm_write|]. intros _. by apply calm_retire.
  - apply calm_then; [|intros h; by apply calm_done]. apply calm_lift.
    destruct (last (tr_sealed t)) as [[]|]; [|done]. destruct (ax_segment ax); [done|]. apply calm_head.
Qed.

Lemma calm_open tries : calm anything (open_attempts tries).
Proof.
  induction tries as [|a tries IH]; [done|]. cbn. apply calm_then; [auto with calm|]. intros _.
  apply calm_then; [auto with calm|]. intros _. apply calm_then; [auto with calm|]. intros _.
  destruct (oa_current a); [by apply calm_ret|done].
Qed.

Lemma calm_record call data : event_value (ad_event_type data) ≠ None → calm anything (try_record call data).
Proof.
  intros Hev. unfold try_record, try_record_at_time. destruct (ac_path call); [|done].
  induction (take SNAPSHOT_ATTEMPTS (ac_envs call)) as [|ax envs IH]; [done|]. cbn.
  apply calm_then; [apply calm_open|]. intros _.
  apply (calm_bind (handed data)); [by apply calm_append|]. intros [e|d]; [by intros _; apply calm_ret|by intros ->].
Qed.

(** One entry of a tally: its pending counts are added, whatever its append does. *)
Lemma audit_record_run {E : Type} call data r : event_value (ad_event_type data) ≠ None →
  ∃ t, audit_record (E := E) call data r = (set_rc_trail t r, Ok ()).
Proof.
  intros Hev. unfold audit_record. pose proof (calm_record call data Hev (rc_trail r)) as Hr.
  destruct (try_record _ _ _) as [t [| | |]]; try done; by exists t.
Qed.

Lemma record_entries_run {E : Type} env tool agent_id l r :
  ∃ t, fold_op (λ _ '(k, n), audit_record (E := E) (re_kind env k)
                   (count_data (re_role env) tool agent_id (re_session env) k n)) () l r
       = (set_rc_trail t r, Ok ()).
Proof.
  revert r. induction l as [|[k n] l IH]; intros r; [exists (rc_trail r); by destruct r|].
  cbn. unfold mbind, op_mbind, op_bind.
  destruct (audit_record_run (E := E) (re_kind env k)
    (count_data (re_role env) tool agent_id (re_session env) k n) r) as [t ->]; [apply event_written|].
  destruct (IH (set_rc_trail t r)) as [t' ->]. by exists t'.
Qed.

(** What a call's tally adds to the pending counts. *)
Definition pending_of (tally : CallTally) (p : SecurityCounts) : SecurityCounts :=
  foldl (λ p c, counts_add (class_kind c) (tally_refusals tally c) p) (counts_merge (ct_counts tally) p)
    all_classes.

Definition counts_ok (p : SecurityCounts) : Prop := ∀ k, in_range u64_max (count_of p k).

Lemma counts_add_ok k n p : counts_ok p → 0 ≤ n → counts_ok (counts_add k n p).
Proof.
  intros Hp Hn k'. rewrite counts_add_count. specialize (Hp k'). destruct (decide _); [|done].
  unfold in_range, saturating_add in *. lia.
Qed.
Lemma counts_merge_ok c p : counts_ok p → counts_ok c → counts_ok (counts_merge c p).
Proof.
  intros Hp Hc k. rewrite counts_merge_count. specialize (Hp k). specialize (Hc k).
  unfold in_range, saturating_add in *. lia.
Qed.
Lemma counts_add_0 k p : counts_ok p → counts_add k 0 p = p.
Proof.
  intros Hp. apply counts_ext. intros k'. rewrite counts_add_count. specialize (Hp k').
  destruct (decide _); [|done]. unfold in_range, saturating_add in *. lia.
Qed.

Lemma counts_empty_merge c p : counts_ok c → counts_ok p → counts_is_empty c = true → counts_merge c p = p.
Proof.
  intros Hc Hp He. apply counts_ext. intros k. rewrite counts_merge_count.
  assert (count_of c k = 0) as ->.
  { unfold counts_is_empty, counts_total in He. cbn in He. apply Z.eqb_eq in He.
    pose proof (Hc SecretRedacted). pose proof (Hc ShellBlocked). pose proof (Hc PathBlocked).
    pose proof (Hc InjectionFlagged). pose proof (Hc PiiRedacted). pose proof (Hc ContentWithheld).
    pose proof (Hc CoverageIncomplete). unfold in_range, saturating_add, u64_max in *. destruct k; cbn in *; lia. }
  specialize (Hp k). unfold in_range, saturating_add in *. lia.
Qed.

Lemma record_counts_run {E : Type} env tool agent_id counts r :
  re_pending env = true → counts_ok counts → counts_ok (rc_pending r) →
  ∃ t, record_counts (E := E) env tool agent_id counts r
       = (MkRecorder t (counts_merge counts (rc_pending r)), Ok ()).
Proof.
  intros Hlock Hc Hp. unfold record_counts. destruct (counts_is_empty counts) eqn:He.
  - exists (rc_trail r). rewrite counts_empty_merge by done. by destruct r.
  - unfold mbind, op_mbind, op_bind, add_pending. rewrite Hlock.
    destruct (record_entries_run (E := E) env tool agent_id (counts_iter counts) r) as [t ->]. by exists t.
Qed.

Lemma record_refusals_run {E : Type} env tool agent_id c n r :
  re_pending env = true → counts_ok (rc_pending r) →
  ∃ t, record_refusals (E := E) env tool agent_id c n r
       = (MkRecorder t (counts_add (class_kind c) n (rc_pending r)), Ok ()).
Proof.
  intros Hlock Hp. unfold record_refusals. destruct (Z.eqb_spec n 0) as [->|_].
  - exists (rc_trail r). rewrite counts_add_0 by done. by destruct r.
  - unfold mbind, op_mbind, op_bind, add_pending. rewrite Hlock.
    destruct (audit_record_run (E := E) (re_class env c)
      (refusal_data (re_role env) tool agent_id (re_session env) c n) r) as [t ->]; [apply event_written|].
    by exists t.
Qed.

Lemma record_classes_run {E : Type} env tool agent_id tally l r :
  re_pending env = true → tally_ok tally → counts_ok (rc_pending r) →
  ∃ t, fold_op (λ _ c, record_refusals (E := E) env tool agent_id c (tally_refusals tally c)) () l r
       = (MkRecorder t (foldl (λ p c, counts_add (class_kind c) (tally_refusals tally c) p) (rc_pending r) l), Ok ()).
Proof.
  intros Hlock Ht. revert r. induction l as [|c l IH]; intros r Hp; [exists (rc_trail r); by destruct r|].
  cbn [fold_op foldl]. unfold mbind, op_mbind, op_bind.
  destruct (record_refusals_run (E := E) env tool agent_id c (tally_refusals tally c) r Hlock Hp) as [t ->].
  apply (IH (MkRecorder t (counts_add (class_kind c) (tally_refusals tally c) (rc_pending r)))).
  apply counts_add_ok; [done|]. apply Ht.
Qed.

(** C39: recording a call's tally fails no call.  Whatever the file system, the
    lock, the key store and the clock answer to each append, and even if the trail
    has no path, [record_call] returns: it neither fails, panics nor hangs, and
    the pending counts of the process have the whole tally added, every kind by its
    count and the refusals of each class by theirs. *)
Theorem record_call_returns {E : Type} env tool agent_id tally r :
  re_pending env = true → tally_ok tally → (∀ k, in_range u64_max (count_of (rc_pending r) k)) →
  ∃ t, record_call (E := E) env tool agent_id tally r
    = (MkRecorder t (pending_of tally (rc_pending r)), Ok ()).
Proof.
  intros Hlock Ht Hp. unfold record_call, mbind, op_mbind, op_bind.
  destruct (record_counts_run (E := E) env tool agent_id (ct_counts tally) r Hlock (proj1 Ht) Hp) as [t ->].
  apply (record_classes_run env tool agent_id tally all_classes
    (MkRecorder t (counts_merge (ct_counts tally) (rc_pending r)))); [done..|].
  apply counts_merge_ok; [done|exact (proj1 Ht)].
Qed.
End recording.

(** ** At a concrete input *)
#[local] Existing Instance sample_audit_json.
#[local] Existing Instance sample_audit_json_laws.
#[local] Existing Instance sample_calendar.
#[local] Existing Instance sample_ed25519.
#[local] Existing Instance sample_ed25519_laws.
#[local] Existing Instance sample_sha256.

Lemma recorded_count_proved_witness :
  match try_record_at_time 86400 [audit_env; audit_env]
          (count_data "developer" "ctx_read" "agent" (Some "s1") SecretRedacted 3) (drift_trail "t1") with
  | (t', Ok e) => ∃ c', full_pass audit_public t' chain_genesis = (c', Ok ())
      ∧ cs_security c' = evidence_record SecretRedacted 3 (ae_entry_hash e) (cs_security (drift_state "t1"))
      ∧ cs_tally c' = evidence_record SecretRedacted 3 (ae_entry_hash e) (cs_tally (drift_state "t1"))
  | (t', Err _) => ∃ c', full_pass audit_public t' chain_genesis = (c', Ok ())
      ∧ cs_security c' = cs_security (drift_state "t1") ∧ cs_tally c' = cs_tally (drift_state "t1")
  | (_, Panic) | (_, Hang) => False
  end.
Proof.
  apply (recorded_count_proved audit_public 86400 [audit_env; audit_env] "developer" "ctx_read" "agent"
    (Some "s1") (Fired SecretRedacted 3) (drift_trail "t1") (drift_state "t1")).
  - exact (ok_verified _ _ _ (proj1 (drift_trail_ok "t1"))).
  - exact (ok_active _ _ _ (proj1 (drift_trail_ok "t1"))).
  - intros s Hs%elem_of_nil. destruct Hs.
  - exact drift_trail_short.
  - split; vm_compute; discriminate.
  - constructor; [exact audit_env_ok|constructor; [exact audit_env_ok|constructor]].
  - constructor; [exact audit_env_can_seal|constructor; [exact audit_env_can_seal|constructor]].
Defined.

Lemma record_call_returns_witness :
  let nothing := MkAppendCall false 0 [] in
  ∃ t, record_call (E := ()) (MkRecordEnv "developer" None (λ _, nothing) (λ _, nothing) true) "ctx_read" "agent"
         (MkCallTally (MkCounts 2 0 0 0 0 0 0) 1 0 0) (MkRecorder empty_trail (MkCounts 5 0 0 0 0 0 0))
       = (MkRecorder t (MkCounts 7 0 0 0 0 1 0), Ok ()).
Proof.
  apply (record_call_returns (E := ())).
  - reflexivity.
  - split; intros []; split; vm_compute; discriminate.
  - intros []; split; vm_compute; discriminate.
Defined.
