(* ===== verification/HiveError.v ===== *)
(** * Errors of the Hive client

    [rust/crates/lean-ctx-hive/src/error.rs], and the error body of
    [lean-ctx-protocol]'s [hive/error.rs] it decodes: how an answer of the
    service becomes an error, what is shown of it on a terminal, and whether and
    when it may be tried again.  [chrono]'s reading and writing of times is a
    parameter. *)
From S2P Require Import Prelude BTree Text Json.
#[local] Open Scope Z_scope.

(** ** The error body *)

Inductive HiveErrorCode :=
| AuthorizationPending | SlowDown | ExpiredToken | AccessDenied | InvalidRequest | CodeUnauthorized
| CodePlanRequired | ForbiddenRight | CodeUploadDisabled | CodeNotFound | CodeInstanceLimit
| RevisionConflict | InvalidState | LeaseExpired | ScreeningRequired | CodeRateLimited
| CodeUpgradeRequired | InstanceRevoked | CodeQuotaExceeded | CodePolicyDenied | CodeUnknown.
#[export] Instance HiveErrorCode_eq_dec : EqDecision HiveErrorCode.
Proof. solve_decision. Defined.

Definition code_names : list (HiveErrorCode * string) :=
  [(AuthorizationPending, "authorization_pending"); (SlowDown, "slow_down");
   (ExpiredToken, "expired_token"); (AccessDenied, "access_denied"); (InvalidRequest, "invalid_request");
   (CodeUnauthorized, "unauthorized"); (CodePlanRequired, "plan_required");
   (ForbiddenRight, "forbidden_right"); (CodeUploadDisabled, "upload_disabled"); (CodeNotFound, "not_found");
   (CodeInstanceLimit, "instance_limit"); (RevisionConflict, "revision_conflict");
   (InvalidState, "invalid_state"); (LeaseExpired, "lease_expired");
   (ScreeningRequired, "screening_required"); (CodeRateLimited, "rate_limited");
   (CodeUpgradeRequired, "upgrade_required"); (InstanceRevoked, "instance_revoked");
   (CodeQuotaExceeded, "quota_exceeded"); (CodePolicyDenied, "policy_denied"); (CodeUnknown, "unknown")].
Definition code_name (c : HiveErrorCode) : string :=
  default "unknown" (snd <$> find_first (λ p, bool_decide (p.1 = c)) code_names).
Definition code_of_name (s : string) : HiveErrorCode :=
  default CodeUnknown (fst <$> find_first (λ p, bool_decide (p.2 = s)) code_names).

Inductive HiveUploadKind := Metrics | Receipts | UploadUnknown.
Definition upload_kind_of_name (s : string) : HiveUploadKind :=
  if bool_decide (s = "metrics") then Metrics
  else if bool_decide (s = "receipts") then Receipts else UploadUnknown.

Record HiveErrorDetailV1 := MkDetail {
  hd_code : HiveErrorCode;
  hd_message : string;
  hd_retry_after_s : option Z;
  hd_limit : option Z;
  hd_used : option Z;
  hd_resource : option string;
  hd_reset_at : option string;
  hd_cooldown_days : option Z;
  hd_member : option string;
  hd_level : option string;
  hd_action : option string;
  hd_expected : option Z;
  hd_actual : option Z;
  hd_min_instance : option string;
  hd_kind : option HiveUploadKind;
  hd_reason : option string;
  hd_field : option string;
  hd_number : option Z;
  hd_check : option string;
  hd_role : option string;
  hd_agent_role : option string;
  hd_feature : option string;
  hd_plan_needed : option string;
}.
Definition detail_names : list string :=
  ["code"; "message"; "retry_after_s"; "limit"; "used"; "resource"; "reset_at"; "cooldown_days"; "member";
   "level"; "action"; "expected"; "actual"; "min_instance"; "kind"; "reason"; "field"; "number"; "check";
   "role"; "agent_role"; "feature"; "plan_needed"].

(** [Deserialize for HiveErrorDetailV1] and [HiveErrorBody] *)
Definition detail_of_value (v : Value) : option HiveErrorDetailV1 :=
  f ← struct_fields detail_names v;
  let str := opt_field as_str f in
  let num := opt_field value_u64 f in
  code ← assoc "code" f ≫= variant_name;
  message ← assoc "message" f ≫= as_str;
  retry_after_s ← num "retry_after_s";
  limit ← num "limit";
  used ← num "used";
  resource ← str "resource";
  reset_at ← str "reset_at";
  cooldown_days ← opt_field value_u32 f "cooldown_days";
  member ← str "member";
  level ← str "level";
  action ← str "action";
  expected ← num "expected";
  actual ← num "actual";
  min_instance ← str "min_instance";
  kind ← opt_field variant_name f "kind";
  reason ← str "reason";
  field ← str "field";
  number ← num "number";
  check ← str "check";
  role ← str "role";
  agent_role ← str "agent_role";
  feature ← str "feature";
  plan_needed ← str "plan_needed";
  Some (MkDetail (code_of_name code) message retry_after_s limit used resource reset_at cooldown_days member
          level action expected actual min_instance (upload_kind_of_name <$> kind) reason field number check
          role agent_role feature plan_needed).
Definition body_of_value (v : Value) : option HiveErrorDetailV1 :=
  f ← struct_fields ["error"] v; assoc "error" f ≫= detail_of_value.

(** ** Errors *)
Inductive HivePlan := NoPlan | Personal | Team | Enterprise | PlanUnknown.
#[export] Instance HivePlan_eq_dec : EqDecision HivePlan.
Proof. solve_decision. Defined.
Definition display_name (p : HivePlan) : string :=
  match p with
  | NoPlan => "No plan"
  | Personal => "Personal"
  | Team => "Team"
  | Enterprise => "Enterprise"
  | PlanUnknown => "unknown"
  end.

Record Quota := MkQuota {
  qt_status : Z;
  qt_resource : string;
  qt_limit : option Z;
  qt_used : option Z;
  qt_reset_at : option string;
  qt_retry_after : option Z;
  qt_cooldown_days : option Z;
}.
Record PlanNeed := MkPlanNeed {
  pn_feature : option string;
  pn_plan_needed : option string;
  pn_limit : option Z;
  pn_used : option Z;
  pn_message : option string;
  pn_plan : option HivePlan;
  pn_reason : option string;
}.
Record PolicyDenial := MkDenial {
  dn_member : option string;
  dn_level : option string;
  dn_action : option string;
}.
Record Revocation := MkRevocation {
  rv_workspace : option string;
  rv_reason : option string;
  rv_revoked_at : option Z;
  rv_instance_id : option string;
}.
Inductive PermitCheck := Presence | RoleCheck | CheckUnknown.
Inductive TaskRefusal :=
| Claimed | NotOpen | StaleClaim | Closed | SelfVerify | NotSubmitted
| NotPermitted (c : PermitCheck)
| OptinScope | OptinChanged | OptinInactive
| DailyBudget (retry_after : option Z).

Inductive HiveError :=
| Offline (why : string)
| NotConnected
| Unauthorized
| PlanRequired (need : PlanNeed)
| InstanceLimit (limit used : option Z)
| QuotaExceeded (q : Quota)
| PolicyDenied (d : PolicyDenial)
| LeaseLapsed
| Revoked (r : Revocation)
| Forbidden
| Vetoed
| UploadDisabled (kind : HiveUploadKind)
| NotFound
| Conflict (expected actual : option Z)
| ScreeningBlocked
| UpgradeRequired (min : option string)
| RateLimited (retry_after : option Z)
| DeviceFlow (why : string)
| ProtocolError (why : string)
| ConfigError (why : string)
| LocalError (why : string)
| RefusedError (why : string)
| TaskError (refusal : TaskRefusal) (number : option Z) (detail : option string)
| ServerError (status : Z) (code : string).

(** ** What reaches a terminal *)

(** [chrono]: [parse_from_rfc3339], [to_rfc3339_opts] to the second and to the
    millisecond, the year and month of an instant, and the start of a month.
    Instants are nanoseconds. *)
Class HiveClock := {
  parse_rfc3339 : string → option Z;
  stamp_secs : Z → string;
  stamp_millis : Z → string;
  year_month : Z → Z * Z;
  month_start : Z → Z → option Z;
}.
Definition NANOS : Z := 1000000000.
(** Until the year 10000 what is written is read back, cut to its precision. *)
Definition YEAR_10000 : Z := 253402300800 * NANOS.
Class HiveClockLaws `{HiveClock} : Prop := {
  stamp_secs_printable t : all_bytes is_printable (stamp_secs t) = true;
  parse_stamp_secs t : 0 ≤ t < YEAR_10000 → parse_rfc3339 (stamp_secs t) = Some (t / NANOS * NANOS);
  parse_stamp_millis t : 0 ≤ t < YEAR_10000 → parse_rfc3339 (stamp_millis t) = Some (t / 1000000 * 1000000);
}.

Definition is_token_byte (a : Ascii.ascii) : bool :=
  byte_in 97 122 a || byte_in 48 57 a || byte_in 95 95 a || byte_in 46 46 a || byte_in 45 45 a.
Definition within (max : Z) (s : string) : bool := (1 <=? str_len s) && (str_len s <=? max).
Definition filter_opt {A : Type} (p : A → bool) (o : option A) : option A :=
  match o with Some x => if p x then Some x else None | None => None end.
Definition wire_token (value : option string) (max : Z) : option string :=
  filter_opt (λ s, within max s && all_bytes is_token_byte s) value.

Definition is_name_byte (a : Ascii.ascii) : bool :=
  byte_in 97 122 a || byte_in 48 57 a || byte_in 45 45 a.
Definition bus_role (role : option string) : option string :=
  filter_opt (λ s, within 64 s && all_bytes is_name_byte s) role.

Definition safe_message (message : string) : option string :=
  let text := of_chars (take 300 ((λ c, if is_control c then " " else c) <$> chars message)) in
  let text := trim text in
  if str_is_empty text then None else Some text.

(** [Revocation::of_statement] *)
Definition of_statement (statement : Value) : Revocation :=
  let token k max :=
    filter_opt (λ s, within max s && all_bytes (λ a, is_name_byte a || byte_in 95 95 a) s)
      (as_str (value_index statement k)) in
  MkRevocation None (token "reason" 32) (value_u64 (value_index statement "revoked_at"))
    (token "instance_id" 36).

Definition plus_opt (o : option string) (f : string → string) : string :=
  match o with Some s => f s | None => "" end.

(** [Display for TaskRefusal] *)
Definition refusal_fmt (r : TaskRefusal) : string :=
  match r with
  | Claimed => "another agent holds the task"
  | NotOpen => "the task is not open"
  | StaleClaim => "this claim is no longer the task's claim"
  | Closed => "the task is closed"
  | SelfVerify =>
      "the agent that did the work does not check its own result; another agent verifies it"
  | NotSubmitted => "the task has no result waiting for a check"
  | NotPermitted Presence =>
      "this agent is not on the bus: its session (or the relay) must be running and announce it with the task's role"
  | NotPermitted RoleCheck => "this agent is on the bus in another role than the task needs"
  | NotPermitted CheckUnknown => "the task's role or the owner's worker consent does not allow this agent"
  | OptinScope => "this instance's opt-in does not cover this vault"
  | OptinChanged => "the opt-in changed; it is read again"
  | OptinInactive => "this instance is not opted in (or the owner stopped worker mode on the web)"
  | DailyBudget (Some s) => "today's task budget is used up (resets in " +:+ pretty s +:+ " s)"
  | DailyBudget None => "today's task budget is used up"
  end.

(** [TaskRefusal::from_reason] and [ends_claim] *)
Definition from_reason (code : HiveErrorCode) (reason : option string) (retry_after : option Z)
    (check : option string) : option TaskRefusal :=
  reason ← reason;
  match code with
  | InvalidState =>
      if bool_decide (reason = "task_claimed") then Some Claimed
      else if bool_decide (reason = "task_not_open") then Some NotOpen
      else if bool_decide (reason = "stale_claim") then Some StaleClaim
      else if bool_decide (reason = "task_closed") then Some Closed
      else if bool_decide (reason = "not_submitted") then Some NotSubmitted
      else if bool_decide (reason = "optin_changed") then Some OptinChanged
      else if bool_decide (reason = "optin_inactive") then Some OptinInactive
      else None
  | ForbiddenRight =>
      if bool_decide (reason = "self_verify") then Some SelfVerify
      else if bool_decide (reason = "not_permitted") then
        Some (NotPermitted (if bool_decide (check = Some "presence") then Presence
                            else if bool_decide (check = Some "role") then RoleCheck else CheckUnknown))
      else if bool_decide (reason = "optin_scope") then Some OptinScope
      else None
  | CodeRateLimited => if bool_decide (reason = "daily_budget") then Some (DailyBudget retry_after) else None
  | _ => None
  end.
Definition ends_claim (r : TaskRefusal) : bool :=
  match r with StaleClaim | Closed | OptinInactive => true | _ => false end.

Definition permit_roles (r : TaskRefusal) (detail : HiveErrorDetailV1) : option string :=
  role ← bus_role (hd_role detail);
  match r with
  | NotPermitted Presence => Some ("the task needs role " +:+ role)
  | NotPermitted RoleCheck =>
      Some match bus_role (hd_agent_role detail) with
           | Some agent_role => "the agent works as " +:+ agent_role +:+ ", the task needs " +:+ role
           | None => "the task needs role " +:+ role
           end
  | _ => None
  end.
Definition permit_line (r : TaskRefusal) (detail : HiveErrorDetailV1) : option string :=
  match r with
  | NotPermitted check =>
      let line := match safe_message (hd_message detail) with
                  | Some message => message
                  | None => match permit_roles r detail with
                            | Some roles => refusal_fmt r +:+ " (" +:+ roles +:+ ")"
                            | None => refusal_fmt r
                            end
                  end in
      Some (line +:+ match check with
                     | Presence => " [check: presence] Run `lean-ctx hive bus relay --for 30` (it relays, or makes the running relay announce the agent now) and claim again."
                     | RoleCheck => " [check: role]"
                     | CheckUnknown => ""
                     end)
  | _ => None
  end.

Definition QUOTE : string := String (Ascii.ascii_of_N 34) "".
Definition CODE_EXPIRED : string :=
  "the code expired before it was approved; run `lean-ctx hive connect` again for a new one".
Definition RETRY_AFTER_CAP_S : Z := 32 * 86400.

Section hive_error.
Context `{HiveClock}.

Definition wire_time (value : option string) : option string :=
  value ← value; at_ ← parse_rfc3339 value; Some (stamp_secs at_).

(** [HiveError::from_response] *)
Definition from_response (status : Z) (body : Value) : HiveError :=
  let value_reason := value_index (value_index body "error") "reason" in
  let revocation := value_index (value_index body "error") "revocation" in
  match body_of_value body with
  | None => ServerError status "unknown"
  | Some detail =>
      let retry_after_s := (λ s, Z.min s RETRY_AFTER_CAP_S) <$> hd_retry_after_s detail in
      match from_reason (hd_code detail) (hd_reason detail) retry_after_s (hd_check detail) with
      | Some refusal => TaskError refusal (hd_number detail) (permit_line refusal detail)
      | None =>
          match hd_code detail with
          | CodeUnauthorized => Unauthorized
          | LeaseExpired => LeaseLapsed
          | InstanceRevoked => Revoked (of_statement revocation)
          | CodePlanRequired =>
              PlanRequired (MkPlanNeed (wire_token (hd_feature detail) 64)
                (wire_token (hd_plan_needed detail) 32) (hd_limit detail) (hd_used detail)
                (safe_message (hd_message detail)) None (wire_token (hd_reason detail) 32))
          | CodeInstanceLimit => InstanceLimit (hd_limit detail) (hd_used detail)
          | CodeQuotaExceeded =>
              QuotaExceeded (MkQuota status (default "unknown" (wire_token (hd_resource detail) 64))
                (hd_limit detail) (hd_used detail) (wire_time (hd_reset_at detail)) retry_after_s
                (hd_cooldown_days detail))
          | CodePolicyDenied =>
              PolicyDenied (MkDenial
                (wire_token (match hd_member detail with Some m => Some m | None => hd_field detail end) 80)
                (wire_token
                   (match hd_level detail with
                    | Some level => Some level
                    | None => filter_opt (λ r, bool_decide (r ∈ ["org"; "workspace"; "vault"; "instance"]))
                                (hd_reason detail)
                    end) 16)
                (wire_token (hd_action detail) 64))
          | ForbiddenRight => if bool_decide (as_str value_reason = Some "vetoed") then Vetoed else Forbidden
          | CodeUploadDisabled => UploadDisabled (default UploadUnknown (hd_kind detail))
          | CodeNotFound => NotFound
          | RevisionConflict => Conflict (hd_expected detail) (hd_actual detail)
          | ScreeningRequired => ScreeningBlocked
          | CodeUpgradeRequired => UpgradeRequired (hd_min_instance detail)
          | CodeRateLimited => RateLimited retry_after_s
          | ExpiredToken => DeviceFlow CODE_EXPIRED
          | AccessDenied =>
              DeviceFlow ("you chose " +:+ QUOTE +:+ "Not mine" +:+ QUOTE
                          +:+ " in the browser; nothing changed on this machine")
          | other => ServerError status (code_name other)
          end
      end
  end.

(** ** Quotas *)
Definition MONTHLY_RESOURCES : list string := ["transfer_bytes"; "bus_messages"].
(** [Quota::waits] and [cooling_slot] *)
Definition waits (q : Quota) : bool :=
  (qt_status q =? 429) || bool_decide (qt_resource q ∈ MONTHLY_RESOURCES).
Definition cooling_slot (q : Quota) : bool :=
  bool_decide (qt_resource q = "registered_instances")
  && match qt_cooldown_days q with Some d => 0 <? d | None => false end
  && bool_decide (is_Some (qt_reset_at q)).

(** [is_transient] and [retry_after_at] *)
Definition is_transient (e : HiveError) : bool :=
  match e with
  | QuotaExceeded q => waits q
  | Offline _ | RateLimited _ => true
  | ServerError status _ => 500 <=? status
  | _ => false
  end.
Definition retry_after_at (e : HiveError) (now : Z) : option Z :=
  match e with
  | RateLimited retry_after => retry_after
  | QuotaExceeded q =>
      if waits q then
        match qt_retry_after q with
        | Some s => Some s
        | None =>
            reset_at ← qt_reset_at q;
            reset ← parse_rfc3339 reset_at;
            Some (Z.max (Z.quot (reset - now) NANOS) 1)
        end
      else None
  | _ => None
  end.
End hive_error.

(** ** The line of an error *)

(** [PlanNeed::locked], [plan_word], [locked_line] and [plans_from] *)
Definition locked (need : PlanNeed) : option string :=
  filter_opt (λ r, bool_decide (r ∈ ["trial_ended"; "plan_ended"])) (pn_reason need).
Definition plan_word (need : PlanNeed) : string :=
  if bool_decide (pn_plan_needed need = Some "team")
     || bool_decide (pn_plan need = Some Team) || bool_decide (pn_plan need = Some Enterprise)
  then "Team" else "Personal".
Definition LOCKED_MARK : string := "this workspace is locked (read and export only)".
Definition locked_line (reason plan_word : string) : string :=
  (if bool_decide (reason = "trial_ended") then "Your " +:+ plan_word +:+ " trial has ended"
   else "Your plan has ended")
  +:+ ": " +:+ LOCKED_MARK +:+ ". Choose a plan in Hive to sync again.".
Definition plans_from (needed : string) : option string :=
  if bool_decide (needed = "personal") then Some "Personal, Team and Enterprise"
  else if bool_decide (needed = "team") then Some "Team and Enterprise"
  else if bool_decide (needed = "enterprise") then Some "Enterprise" else None.
Definition PLAN_LIMITS : string :=
  "Personal 3 instances, 2 connected at once; Team 5 per seat, 3 connected at once per seat; Enterprise on request".

Definition counted (used limit : option Z) : string :=
  match used, limit with
  | Some used, Some limit => " (" +:+ pretty used +:+ " of " +:+ pretty limit +:+ ")"
  | _, _ => ""
  end.

Definition write_plan_need (need : PlanNeed) : string :=
  match locked need with
  | Some reason => locked_line reason (plan_word need)
  | None =>
      match pn_feature need with
      | None => "this workspace's plan does not include Hive here (" +:+ PLAN_LIMITS +:+ ")"
      | Some feature =>
          let plans := pn_plan_needed need ≫= plans_from in
          let on := match pn_plan need with
                    | None | Some PlanUnknown => ""
                    | Some NoPlan => "; this workspace has no plan"
                    | Some p => "; this workspace is on " +:+ display_name p
                    end in
          if bool_decide (feature ∈ ["repos"; "vaults"; "private_vaults"]) then
            "this workspace has used all its vaults" +:+ counted (pn_used need) (pn_limit need)
            +:+ plus_opt plans (λ plans, "; more are included in " +:+ plans)
            +:+ on +:+ "; remove or publish a vault in Hive, or upgrade the plan"
          else
            match pn_message need, plans with
            | Some message, _ => trim_dots message
            | None, Some plans => spaced feature +:+ " is included in " +:+ plans
            | None, None => "this workspace's plan does not include " +:+ spaced feature
            end +:+ on
      end
  end.

Definition RECOVER_HINT : string :=
  "for a lost or broken device, recover its slot now on the Hive web (Settings › Connected instances › Recover, with your second factor; once per 30 days)".
Definition write_quota (q : Quota) : string :=
  let what :=
    if bool_decide (qt_resource q = "transfer_bytes") then "monthly transfer"
    else if bool_decide (qt_resource q = "bus_messages") then "monthly bus messages"
    else if bool_decide (qt_resource q = "registered_instances") then "instance slots"
    else if bool_decide (qt_resource q = "private_vaults") then "private vaults"
    else if bool_decide (qt_resource q = "connected_instances") then "connected instances"
    else qt_resource q in
  "this workspace has used all its " +:+ what +:+ counted (qt_used q) (qt_limit q)
  +:+ "; nothing is charged for more"
  +:+ (if bool_decide (qt_resource q = "registered_instances") && cooling_slot q then
         "; a revoked instance's slot frees at " +:+ default "?" (qt_reset_at q) +:+ " ("
         +:+ pretty (default 0 (qt_cooldown_days q)) +:+ "-day cool-down), or " +:+ RECOVER_HINT
       else if bool_decide (qt_resource q = "registered_instances") then
         "; revoke an instance you no longer use in Hive (Settings › Connected instances), or upgrade the plan"
       else if bool_decide (qt_resource q = "private_vaults") then
         "; remove or publish a vault in Hive, or upgrade the plan"
       else if waits q then
         match qt_reset_at q with
         | Some at_ => "; uploads wait in the local outbox until " +:+ at_
         | None => "; uploads wait in the local outbox until it frees"
         end
       else "").

(** [Display for HiveError] *)
Definition hive_fmt (e : HiveError) : string :=
  match e with
  | Offline why => "Hive is not reachable (" +:+ why +:+ ")"
  | NotConnected => "not connected to Hive (run `lean-ctx hive connect`)"
  | Unauthorized => "Hive does not accept this instance any more (run `lean-ctx hive connect` again)"
  | PlanRequired need => write_plan_need need
  | InstanceLimit (Some limit) (Some used) =>
      "all instances of the workspace are in use (" +:+ pretty used +:+ " of " +:+ pretty limit
      +:+ "); remove one in Hive or upgrade the plan"
  | InstanceLimit _ _ =>
      "all instances of the workspace are in use; remove one in Hive or upgrade the plan"
  | QuotaExceeded q => write_quota q
  | PolicyDenied d =>
      "Hive policy refuses this"
      +:+ plus_opt (dn_member d) (λ member,
            " (" +:+ member +:+ plus_opt (dn_level d) (λ level, ", set at the " +:+ level +:+ " level")
            +:+ ")")
      +:+ match dn_action d with
          | Some action => "; a person does this on the Hive web (" +:+ spaced action +:+ ")"
          | None => "; it is not retried until an admin changes the policy in Hive"
          end
  | LeaseLapsed => "the Hive lease has lapsed (run `lean-ctx hive connect` again)"
  | Revoked r =>
      "this instance was revoked by " +:+ default "its workspace" (rv_workspace r)
      +:+ plus_opt (rv_reason r) (λ reason, " (" +:+ spaced reason +:+ ")")
      +:+ "; reconnect with `lean-ctx hive connect` after an admin allows it"
  | Forbidden => "this instance's lease does not allow that"
  | Vetoed => "a workspace veto bars it until the veto is lifted"
  | UploadDisabled Metrics => "the workspace has switched metrics upload off"
  | UploadDisabled Receipts => "the workspace has switched receipts upload off"
  | UploadDisabled UploadUnknown => "the workspace has switched this upload off"
  | NotFound => "Hive does not know that item"
  | Conflict (Some expected) (Some actual) =>
      "knowledge moved on (expected revision " +:+ pretty expected +:+ ", now " +:+ pretty actual +:+ ")"
  | Conflict _ _ => "knowledge moved on"
  | ScreeningBlocked => "Hive screening refused the content"
  | UpgradeRequired (Some min) => "Hive needs lean-ctx " +:+ min +:+ " or newer (run `lean-ctx update`)"
  | UpgradeRequired None => "Hive needs a newer lean-ctx (run `lean-ctx update`)"
  | RateLimited (Some s) => "Hive asks to retry in " +:+ pretty s +:+ " s"
  | RateLimited None => "Hive asks to retry later"
  | DeviceFlow why => "connection not approved: " +:+ why
  | ProtocolError why => "unexpected answer from Hive: " +:+ why
  | ConfigError why => "Hive configuration: " +:+ why
  | LocalError why => "local Hive state: " +:+ why
  | RefusedError why => why
  | TaskError refusal number detail =>
      match number with Some number => "task #" +:+ pretty number +:+ ": " | None => "" end
      +:+ match detail, refusal with
          | Some detail, NotPermitted _ => detail
          | Some detail, _ => refusal_fmt refusal +:+ " (" +:+ detail +:+ ")"
          | None, _ => refusal_fmt refusal
          end
  | ServerError status code => "Hive answered " +:+ pretty status +:+ " (" +:+ code +:+ ")"
  end.

(** [HiveError::with_plan] *)
Definition with_plan (plan : HivePlan) (e : HiveError) : HiveError :=
  match e with
  | PlanRequired need =>
      if (bool_decide (is_Some (pn_feature need)) || bool_decide (is_Some (locked need)))
         && bool_decide (plan ≠ PlanUnknown)
      then PlanRequired (MkPlanNeed (pn_feature need) (pn_plan_needed need) (pn_limit need) (pn_used need)
             (pn_message need) (Some (default plan (pn_plan need))) (pn_reason need))
      else e
  | e => e
  end.
