(* ===== verification/HiveErrorFacts.v ===== *)
(** * What an answer of Hive can do

    What the service puts into an answer cannot reach a terminal as a control
    character, nor make the client wait longer than a cap. *)
From S2P Require Import Prelude BTree Text Json HiveError.
#[local] Open Scope Z_scope.

(** ** Pieces of a line *)
Lemma digit_printable a : is_digit a = true → is_printable a = true.
Proof. unfold is_digit, is_printable. rewrite !byte_in_spec. lia. Qed.

Lemma pretty_printable (n : Z) : all_bytes is_printable (pretty n) = true.
Proof.
  destruct n as [|p|p]; [done| |].
  - eapply all_bytes_impl, (pretty_digits (Z.pos p)); [apply digit_printable|lia].
  - change (pretty (Z.neg p)) with ("-" +:+ pretty (Z.pos p)). rewrite all_bytes_app. cbn [andb].
    eapply all_bytes_impl, (pretty_digits (Z.pos p)); [apply digit_printable|lia].
Qed.

Lemma filter_opt_Some {A} (p : A → bool) o x : filter_opt p o = Some x → o = Some x ∧ p x = true.
Proof. destruct o as [y|]; [|done]. cbn. destruct (p y) eqn:E; [|done]. by intros [= ->]. Qed.

Lemma wire_token_printable value max s : wire_token value max = Some s → all_bytes is_printable s = true.
Proof.
  intros [_ [_ Hs]%andb_true_iff]%filter_opt_Some. revert Hs. apply all_bytes_impl. intros a.
  unfold is_token_byte, is_printable. rewrite !orb_true_iff, !byte_in_spec. lia.
Qed.
Lemma bus_role_printable role s : bus_role role = Some s → all_bytes is_printable s = true.
Proof.
  intros [_ [_ Hs]%andb_true_iff]%filter_opt_Some. revert Hs. apply all_bytes_impl. intros a.
  unfold is_name_byte, is_printable. rewrite !orb_true_iff, !byte_in_spec. lia.
Qed.

(** The service's own words, as they are shown. *)
Lemma safe_message_plain message s : safe_message message = Some s → has_control s = false.
Proof.
  unfold safe_message. destruct (str_is_empty _); [done|]. intros [= <-]. apply trim_plain, of_chars_plain.
  - rewrite skipn_firstn_comm. apply well_cut_take. rewrite skipn_map.
    eapply Forall_fmap, Forall_impl; [apply chars_cut|]. intros c [Hc Hne]. cbn. by destruct (is_control c).
  - apply Forall_take, Forall_fmap, Forall_forall. intros c _. cbn. by destruct (is_control c) eqn:E.
Qed.

(** ** What an error carries *)
Definition printable (s : string) : Prop := all_bytes is_printable s = true.
Definition plain (s : string) : Prop := has_control s = false.
Definition opt_all {A : Type} (P : A → Prop) (o : option A) : Prop := match o with Some x => P x | None => True end.

Definition clean (e : HiveError) : Prop :=
  match e with
  | PlanRequired need => opt_all printable (pn_feature need) ∧ opt_all plain (pn_message need)
  | QuotaExceeded q => printable (qt_resource q) ∧ opt_all printable (qt_reset_at q)
  | PolicyDenied d => opt_all printable (dn_member d) ∧ opt_all printable (dn_level d)
      ∧ opt_all printable (dn_action d)
  | Revoked r => opt_all printable (rv_workspace r) ∧ opt_all printable (rv_reason r)
  | UpgradeRequired min => opt_all plain min
  | TaskError _ _ detail => opt_all plain detail
  | ServerError _ code => printable code
  | Offline why | DeviceFlow why | ProtocolError why | ConfigError why | LocalError why | RefusedError why =>
      plain why
  | _ => True
  end.

Lemma printable_is_plain s : printable s → plain s.
Proof. apply printable_no_control. Qed.

(** A literal piece: printable by computation. *)
Ltac literal := vm_compute; reflexivity.
Create HintDb plain.
#[local] Hint Resolve pretty_printable spaced_printable printable_is_plain : plain.
(** One piece of a line after the other. *)
Ltac pieces :=
  repeat first
    [ done
    | reflexivity
    | assumption
    | solve [auto with plain]
    | match goal with
      | |- has_control ((if ?b then _ else _) +:+ _) = false => destruct b
      | |- has_control (?a +:+ ?b) = false => apply plain_after; [solve [literal | auto with plain]|]
      | |- has_control (?a +:+ ?b) = false =>
          apply plain_before; [solve [auto with plain]|reflexivity|]
      end ].

Lemma refusal_plain r : plain (refusal_fmt r).
Proof.
  unfold plain. destruct r as [| | | | | |[]| | | |[s|]]; try reflexivity. cbn [refusal_fmt]. pieces.
Qed.

Lemma counted_plain used limit t : plain t → plain (counted used limit +:+ t).
Proof. unfold plain, counted. destruct used, limit; try done. intros Ht. rewrite !append_assoc. pieces. Qed.

Lemma locked_plain reason word t : printable word → plain t → plain (locked_line reason word +:+ t).
Proof.
  unfold plain, printable, locked_line. intros Hw Ht. destruct (bool_decide _); rewrite !append_assoc; pieces.
Qed.

Lemma plan_word_printable need : printable (plan_word need).
Proof. unfold plan_word. by destruct (_ || _). Qed.

Lemma write_plan_need_plain need :
  opt_all printable (pn_feature need) → opt_all plain (pn_message need) → plain (write_plan_need need).
Proof.
  unfold write_plan_need. intros Hf Hm. destruct (locked need) as [reason|].
  { rewrite <-(append_empty (locked_line _ _)). by apply locked_plain; [apply plan_word_printable|]. }
  destruct (pn_feature need) as [feature|]; [|reflexivity]. cbn in Hf.
  assert (∀ t, plain t → plain (match pn_plan need with
    | None | Some PlanUnknown => ""
    | Some NoPlan => "; this workspace has no plan"
    | Some p => "; this workspace is on " +:+ display_name p end +:+ t)) as Hon.
  { intros t Ht. unfold plain in *. destruct (pn_plan need) as [[]|]; try done; pieces. }
  destruct (bool_decide _).
  - apply plain_after; [literal|]. apply counted_plain.
    assert (∀ o t, o = pn_plan_needed need ≫= plans_from → plain t →
      plain (plus_opt o (λ plans, "; more are included in " +:+ plans) +:+ t)) as Hplans.
    { intros o t -> Ht. destruct (pn_plan_needed need) as [needed|]; [|done]. cbn [mbind option_bind].
      unfold plans_from. repeat case_bool_decide; try done; unfold plain, plus_opt in *; pieces. }
    apply Hplans; [done|]. apply Hon. reflexivity.
  - pose proof (Hon "" eq_refl) as Hon'. rewrite append_empty in Hon'.
    assert (∀ s t, plain s → starts_char t = true → plain t → plain (s +:+ t)) as Hb.
    { intros s t. apply plain_before. }
    destruct (pn_message need) as [message|].
    + apply Hb; [by apply trim_dots_plain| |done]. by destruct (pn_plan need) as [[]|].
    + assert (printable (spaced feature)) by by apply spaced_printable.
      destruct (pn_plan_needed need ≫= plans_from) as [plans|] eqn:E.
      * apply Hb; [| |done]; [|by destruct (pn_plan need) as [[]|]].
        apply plain_after; [done|]. apply bind_Some in E as (needed & _ & E). unfold plans_from in E.
        repeat case_bool_decide; simplify_eq; reflexivity.
      * apply Hb; [|by destruct (pn_plan need) as [[]|]|done]. apply plain_after; [literal|].
        by apply printable_is_plain.
Qed.

Lemma write_quota_plain q : printable (qt_resource q) → opt_all printable (qt_reset_at q) → plain (write_quota q).
Proof.
  intros Hr Ht. unfold write_quota. cbv zeta. apply plain_after; [literal|].
  assert (printable (if bool_decide (qt_resource q = "transfer_bytes") then "monthly transfer"
    else if bool_decide (qt_resource q = "bus_messages") then "monthly bus messages"
    else if bool_decide (qt_resource q = "registered_instances") then "instance slots"
    else if bool_decide (qt_resource q = "private_vaults") then "private vaults"
    else if bool_decide (qt_resource q = "connected_instances") then "connected instances"
    else qt_resource q)) as Hwhat by by repeat case_bool_decide.
  apply plain_after; [exact Hwhat|]. clear Hwhat. apply counted_plain, plain_after; [literal|].
  destruct (bool_decide _ && _).
  { destruct (qt_reset_at q) as [at_|]; cbn [default from_option]; unfold plain; pieces; exact Ht. }
  destruct (bool_decide _); [reflexivity|]. destruct (bool_decide _); [reflexivity|].
  destruct (waits q); [|done]. destruct (qt_reset_at q) as [at_|]; [|reflexivity].
  apply plain_after; [literal|]. by apply printable_is_plain.
Qed.

(** The line of an error shows no control character if its parts have none. *)
Lemma hive_fmt_plain e : clean e → plain (hive_fmt e).
Proof.
  destruct e as [why| | |need|limit used|q|d| |r| | |kind| |expected actual| |min|after|why|why|why|why|why
    |refusal number detail|status code]; cbn [clean hive_fmt]; intros Hc; try reflexivity; unfold plain.
  - pieces.
  - destruct Hc. by apply write_plan_need_plain.
  - destruct limit, used; try reflexivity; pieces.
  - destruct Hc. by apply write_quota_plain.
  - destruct Hc as (Hm & Hl & Ha). destruct (dn_member d) as [member|], (dn_action d) as [action|];
      cbn in Hm, Ha; cbn [plus_opt]; try destruct (dn_level d) as [level|]; cbn [plus_opt] in *;
      rewrite ?append_assoc; pieces.
  - destruct Hc as [Hw Hr]. destruct (rv_workspace r), (rv_reason r); cbn in *; rewrite ?append_assoc; pieces.
  - by destruct kind.
  - destruct expected, actual; try reflexivity; pieces.
  - destruct min; [|reflexivity]. pieces.
  - destruct after; [|reflexivity]. pieces.
  - pieces.
  - pieces.
  - pieces.
  - pieces.
  - pieces.
  - assert (∀ b, plain b → plain (match number with
      | Some number => "task #" +:+ pretty number +:+ ": " | None => "" end +:+ b)) as Hn.
    { intros b Hb. unfold plain in *. destruct number; [rewrite !append_assoc; pieces|done]. }
    apply Hn. destruct detail as [d|]; [|apply refusal_plain].
    assert (plain (refusal_fmt refusal +:+ " (" +:+ d +:+ ")")) as Hd.
    { apply plain_before; [apply refusal_plain|reflexivity|]. unfold plain in *. cbn in Hc. pieces. }
    by destruct refusal.
  - pieces.
Qed.

Lemma permit_line_plain r detail s : permit_line r detail = Some s → plain s.
Proof.
  destruct r as [| | | | | |check| | | |]; try done. intros [= <-].
  apply plain_before; [|by destruct check|by destruct check].
  destruct (safe_message _) as [m|] eqn:Hm; [by apply safe_message_plain in Hm|].
  destruct (permit_roles _ _) as [roles|] eqn:Hr; [|apply (refusal_plain (NotPermitted check))].
  apply plain_before; [apply (refusal_plain (NotPermitted check))|reflexivity|].
  assert (printable roles) as Hroles.
  { apply bind_Some in Hr as (role & Hrole%bus_role_printable & Hr).
    assert (∀ a b, printable a → printable b → printable (a +:+ b)) as Happ.
    { intros a b Ha Hb. unfold printable in *. by rewrite all_bytes_app, Ha, Hb. }
    destruct check; [injection Hr as <-; by apply Happ| |done].
    destruct (bus_role (hd_agent_role detail)) as [agent|] eqn:Ha; injection Hr as <-; repeat apply Happ; try done.
    by apply bus_role_printable in Ha. }
  unfold plain. pieces.
Qed.

Section hive_error.
Context `{HC : HiveClock} {HCL : HiveClockLaws}.

Lemma wire_token_opt value max : opt_all printable (wire_token value max).
Proof. destruct (wire_token value max) eqn:E; [|done]. by apply wire_token_printable in E. Qed.
Lemma wire_time_opt value : opt_all printable (wire_time value).
Proof.
  destruct value as [v|]; [|done]. cbn. destruct (parse_rfc3339 v); [|done]. apply stamp_secs_printable.
Qed.
Lemma safe_message_opt message : opt_all plain (safe_message message).
Proof. destruct (safe_message message) eqn:E; [|done]. by apply safe_message_plain in E. Qed.
Lemma of_statement_printable v : opt_all printable (rv_reason (of_statement v)).
Proof.
  unfold of_statement. cbn [rv_reason]. destruct (filter_opt _ _) as [s|] eqn:E; [|done].
  apply filter_opt_Some in E as [_ [_ Hs]%andb_true_iff]. revert Hs. apply all_bytes_impl. intros a.
  unfold is_name_byte, is_printable. rewrite !orb_true_iff, !byte_in_spec. lia.
Qed.

Lemma code_name_printable c : printable (code_name c).
Proof. by destruct c. Qed.

Lemma from_response_clean status body :
  (∀ min, from_response status body = UpgradeRequired (Some min) → plain min) →
  clean (from_response status body).
Proof.
  intros Hmin. unfold from_response in *. destruct (body_of_value body) as [d|]; [|reflexivity].
  cbv zeta in *. destruct (from_reason _ _ _ _) as [r|].
  { cbn. destruct (permit_line r d) eqn:E; [|done]. by apply permit_line_plain in E. }
  destruct (hd_code d); cbn [clean];
    try match goal with
        | |- True => exact I
        | |- printable (code_name _) => apply code_name_printable
        | |- plain _ => reflexivity
        end.
  - split; [apply wire_token_opt|apply safe_message_opt].
  - by case_bool_decide.
  - destruct (hd_min_instance d) as [min|]; [by apply Hmin|done].
  - split; [done|apply of_statement_printable].
  - split; [|apply wire_time_opt]. pose proof (wire_token_opt (hd_resource d) 64) as Hr.
    by destruct (wire_token _ _).
  - split_and!; apply wire_token_opt.
Qed.

(** C30: no answer of Hive puts a control character on the terminal, and so no
    escape sequence.  Whatever the status and the body, known or unknown code,
    malformed or not, the line shown for the error the answer becomes, and for the
    one that also names the plan, holds none; the single exception is an
    [upgrade_required] answer, whose version is shown as it came. *)
Theorem answer_is_terminal_safe status body plan :
  (∀ min, from_response status body = UpgradeRequired (Some min) → has_control min = false) →
  has_control (hive_fmt (from_response status body)) = false
  ∧ has_control (hive_fmt (with_plan plan (from_response status body))) = false.
Proof.
  intros Hmin. pose proof (from_response_clean status body Hmin) as Hc.
  split; [by apply hive_fmt_plain|]. apply hive_fmt_plain. unfold with_plan.
  destruct (from_response status body); try done. destruct (_ && _); [|done]. exact Hc.
Qed.

(** An answer cannot make the client wait longer than a cap: the seconds an
    error carries, from whatever body, are at most [RETRY_AFTER_CAP_S], 32 days. *)
Lemma answer_wait_capped status body s :
  match from_response status body with
  | RateLimited retry_after => retry_after = Some s
  | QuotaExceeded q => qt_retry_after q = Some s
  | TaskError (DailyBudget retry_after) _ _ => retry_after = Some s
  | _ => False
  end → s ≤ RETRY_AFTER_CAP_S.
Proof.
  unfold from_response. destruct (body_of_value body) as [d|]; [|done]. cbv zeta.
  assert (∀ o, (λ s, Z.min s RETRY_AFTER_CAP_S) <$> o = Some s → s ≤ RETRY_AFTER_CAP_S) as Ho.
  { intros [x|]; [|done]. cbn. intros [= <-]. lia. }
  destruct (from_reason _ _ _ _) as [r|] eqn:Hr.
  - destruct r; try done. intros ->. unfold from_reason in Hr. apply bind_Some in Hr as (reason & _ & Hr).
    destruct (hd_code d); try done; repeat case_bool_decide; simplify_eq. by eapply Ho.
  - destruct (hd_code d); try done; try (by case_bool_decide); cbn; apply Ho.
Qed.
End hive_error.

(** ** A clock on which statements are evaluated

    An instant is written as its count of seconds, or as the letter m and its
    count of milliseconds; a month has thirty days. *)
Definition sample_hive_clock : HiveClock := {|
  parse_rfc3339 s :=
    match strip_prefix "m" s with
    | Some digits => (λ n, n * 1000000) <$> parse_u64 digits
    | None => (λ n, n * NANOS) <$> parse_u64 s
    end;
  stamp_secs t := pretty (t / NANOS);
  stamp_millis t := "m" +:+ pretty (t / 1000000);
  year_month t := let months := t / (30 * 86400 * NANOS) in (months / 12, months mod 12 + 1);
  month_start year month := Some ((year * 12 + month - 1) * (30 * 86400 * NANOS));
|}.

Lemma digits_no_prefix s : all_bytes is_digit s = true → strip_prefix "m" s = None.
Proof.
  destruct s as [|a s]; [done|]. cbn. intros [Ha _]%andb_true_iff. case_bool_decide as E; [|done].
  subst a. done.
Qed.

Lemma sample_hive_clock_laws : @HiveClockLaws sample_hive_clock.
Proof.
  split; intros t; unfold parse_rfc3339, stamp_millis, stamp_secs, sample_hive_clock.
  - apply pretty_printable.
  - intros Ht. unfold YEAR_10000, NANOS in *.
    assert (0 ≤ t / 1000000000 ≤ u64_max) as Hn.
    { split; [by apply Z.div_pos; lia|]. unfold u64_max. apply Z.lt_le_incl, Z.div_lt_upper_bound; lia. }
    rewrite digits_no_prefix by by apply pretty_digits; lia. by rewrite parse_u64_pretty.
  - intros Ht. unfold YEAR_10000, NANOS in *.
    assert (0 ≤ t / 1000000 ≤ u64_max) as Hn.
    { split; [by apply Z.div_pos; lia|]. unfold u64_max. apply Z.lt_le_incl, Z.div_lt_upper_bound; lia. }
    rewrite (proj2 (strip_prefix_Some "m" _ _) eq_refl). by rewrite parse_u64_pretty.
Qed.

(** An escape sequence, in the words of a service. *)
Definition ESCAPE : string := String (Ascii.ascii_of_N 27) "[2J".
Definition sample_answer (fields : list (string * Value)) : Value :=
  VObject [("error", VObject (("message", VString ("cleared" +:+ ESCAPE)) :: fields))].
Definition sample_plan_answer : Value :=
  sample_answer [("code", VString "plan_required"); ("feature", VString "internal_vaults")].

Lemma answer_is_terminal_safe_witness :
  has_control (hive_fmt (from_response (H := sample_hive_clock) 402 sample_plan_answer)) = false
  ∧ has_control (hive_fmt (with_plan Team (from_response (H := sample_hive_clock) 402 sample_plan_answer))) = false
  ∧ hive_fmt (with_plan Team (from_response (H := sample_hive_clock) 402 sample_plan_answer))
    = "cleared [2J; this workspace is on Team".
Proof.
  destruct (answer_is_terminal_safe (HC := sample_hive_clock) (HCL := sample_hive_clock_laws) 402
    sample_plan_answer Team) as [H1 H2].
  - vm_compute. discriminate.
  - split; [exact H1|]. split; [exact H2|vm_compute; reflexivity].
Defined.

(** The exception: the version an [upgrade_required] answer names is shown as
    it came. *)
Example upgrade_line_unfiltered :
  has_control (hive_fmt (from_response (H := sample_hive_clock) 426
    (sample_answer [("code", VString "upgrade_required"); ("min_instance", VString ESCAPE)]))) = true.
Proof. vm_compute. reflexivity. Qed.
