(* ===== verification/HiveState.v ===== *)
(** * State files of the Hive client

    [rust/crates/lean-ctx-hive/src/state.rs]: reading, replacing and locking a
    state file, and moving a damaged one aside.  A directory is a map from names
    to files.  What the system answers to a call ([Io]) and [serde_json]'s text
    are parameters; a file is replaced whole or not at all. *)
From stdpp Require Import sorting.
From S2P Require Import Prelude BTree Text Json HiveError.
#[local] Open Scope Z_scope.

(** ** Files *)
Notation dir := (gmap string dir_entry) (only parsing).

(** The system's answers: the error of a call, if it fails. *)
Record Io := MkIo {
  io_path : string → string;           (* [dir.join(name).display()] *)
  io_scan : option string;             (* [read_dir] *)
  io_rename : string → option string;
  io_remove : string → option string;
  io_lock : string → option string;    (* [open], [acquire_exclusive_timeout] *)
  io_write : string → option string;   (* [secure_fs::write_private] *)
}.

Definition DAMAGED_KEPT : nat := 3.
Definition damaged_prefix (name : string) : string := name +:+ ".damaged-".

Definition copy_le (p q : Z * string) : Prop := p.1 < q.1 ∨ p.1 = q.1 ∧ String.le p.2 q.2.
#[export] Instance copy_le_dec : RelDecision copy_le.
Proof. intros p q. unfold copy_le. apply _. Defined.

(** The damaged copies of [name], by number. *)
Definition copies (name : string) (d : dir) : list (Z * string) :=
  merge_sort copy_le
    (omap (λ k, n ← strip_prefix (damaged_prefix name) k ≫= parse_u64; Some (n, k)) (bt_keys d)).

Definition rename (from to : string) (d : dir) : dir :=
  match d !! from with Some file => <[to := file]> (delete from d) | None => d end.

Section state.
Context `{JsonText} (io : Io).

(** [let _ = std::fs::remove_file(name)] *)
Definition remove_file (d : dir) (name : string) : dir :=
  match io_remove io name with None => delete name d | Some _ => d end.

Definition read_optional (name : string) : op dir HiveError (option string) := λ d,
  match d !! name with
  | None => (d, Ok None)
  | Some (Bytes s) => (d, Ok (Some s))
  | Some (Unreadable _ why) => (d, Err (LocalError ("read " +:+ io_path io name +:+ ": " +:+ why)))
  end.

Definition read_json {A : Type} (decode : Value → option A) (name : string) : op dir HiveError (option A) :=
  bytes ← read_optional name;
  match bytes with
  | None => mret None
  | Some s =>
      match from_slice s ≫= decode with
      | Some a => mret (Some a)
      | None => lift (Err (LocalError (io_path io name +:+ " is damaged: " +:+ json_error s)))
      end
  end.

Definition remove_optional (name : string) : op dir HiveError () := λ d,
  match d !! name, io_remove io name with
  | None, _ => (d, Ok ())
  | Some _, None => (delete name d, Ok ())
  | Some _, Some why => (d, Err (LocalError ("remove " +:+ io_path io name +:+ ": " +:+ why)))
  end.

Definition write_private (name bytes : string) : op dir HiveError () := λ d,
  match io_write io name with
  | None => (<[name := Bytes bytes]> d, Ok ())
  | Some why => (d, Err (LocalError why))
  end.

Definition quarantine (name : string) : op dir HiveError string := λ d,
  let failed why := (d, Err (LocalError ("quarantine " +:+ io_path io name +:+ ": " +:+ why))) in
  match io_scan io with
  | Some why => failed why
  | None =>
      let found := copies name d in
      let next := match last found with Some (n, _) => wrapping_add u64_max n 1 | None => 1 end in
      let moved := damaged_prefix name +:+ pretty next in
      match io_rename io name with
      | Some why => failed why
      | None =>
          let found := found ++ [(next, moved)] in
          let excess := (length found - DAMAGED_KEPT)%nat in
          (foldl remove_file (rename name moved d) (take excess found).*2, Ok (io_path io moved))
      end
  end.

Definition load_or_quarantine {A : Type} (decode : Value → option A) (accept : A → bool) (name : string) :
    op dir HiveError (option A) :=
  bytes ← read_optional name;
  match bytes with
  | None => mret None
  | Some s =>
      match from_slice s ≫= decode with
      | Some a =>
          if accept a then mret (Some a)
          else
            moved ← quarantine name;
            lift (Err (LocalError (io_path io name +:+ " is damaged (a version this build does not know); moved to "
                                   +:+ moved)))
      | None =>
          moved ← quarantine name;
          lift (Err (LocalError (io_path io name +:+ " is damaged (" +:+ json_error s +:+ "); moved to " +:+ moved)))
      end
  end.

(** [lock_state]: the lock is held until the caller is done. *)
Definition lock_state (name : string) : op dir HiveError () := λ d,
  match io_lock io name with None => (d, Ok ()) | Some why => (d, Err (LocalError why)) end.
End state.

(** ** Damaged state files are kept *)

#[export] Instance copy_le_total : Total copy_le.
Proof.
  intros [n s] [m t]. unfold copy_le; cbn.
  destruct (Z.lt_trichotomy n m) as [?|[->|?]]; [by left; left| |by right; left].
  destruct (String.le_total s t); [left|right]; by right.
Qed.
#[export] Instance copy_le_trans : Transitive copy_le.
Proof.
  intros [n s] [m t] [k u]. unfold copy_le; cbn. intros [H1|[-> H1]] [H2|[-> H2]]; try (left; lia).
  right. split; [done|]. by etrans.
Qed.

(** ** The copies of a name *)
Lemma elem_of_copies name d n k :
  (n, k) ∈ copies name d ↔ is_Some (d !! k) ∧ strip_prefix (damaged_prefix name) k ≫= parse_u64 = Some n.
Proof.
  unfold copies. rewrite merge_sort_Permutation, list_elem_of_omap. split.
  - intros (k' & Hk%elem_of_bt_keys & E). destruct (_ ≫= parse_u64) eqn:Hp; [|done].
    cbn in E. injection E as -> ->. split; [done|]. by rewrite Hp.
  - intros [Hk Hn]. exists k. split; [by apply elem_of_bt_keys|]. by rewrite Hn.
Qed.

Lemma NoDup_copies name d : NoDup (copies name d).
Proof.
  unfold copies. rewrite merge_sort_Permutation. generalize (NoDup_bt_keys d). generalize (bt_keys d) as l.
  induction l as [|k l IH]; [constructor|]. intros [Hk Hl]%NoDup_cons. cbn [omap list_omap].
  destruct (_ ≫= parse_u64) as [n|] eqn:E; cbn; [|by apply IH].
  constructor; [|by apply IH]. intros (k' & Hk' & E')%list_elem_of_omap.
  destruct (strip_prefix _ k' ≫= parse_u64); [|done]. cbn in E'. injection E' as _ ->. done.
Qed.

Lemma last_copy_max name d n k p : last (copies name d) = Some (n, k) → p ∈ copies name d → p.1 ≤ n.
Proof.
  intros Hl Hp. assert (StronglySorted copy_le (copies name d)) as Hs
    by (apply Sorted_StronglySorted; [apply _|]; apply Sorted_merge_sort; apply _).
  revert Hl Hp Hs. generalize (copies name d) as l. intros l [l' ->]%last_Some Hp Hs.
  apply elem_of_app in Hp as [Hp| ->%list_elem_of_singleton]; [|done].
  assert (copy_le p (n, k)) as [?|[? _]]; [|cbn in *; lia..].
  eapply StronglySorted_app; [exact Hs|done|]. by apply list_elem_of_singleton.
Qed.

(** The number the next copy gets. *)
Definition next_copy (name : string) (d : dir) : Z :=
  match last (copies name d) with Some (n, _) => wrapping_add u64_max n 1 | None => 1 end.
Definition copy_name (name : string) (n : Z) : string := damaged_prefix name +:+ pretty n.
(** No copy has the last number there is. *)
Definition numbers_left (name : string) (d : dir) : Prop :=
  ∀ n k, (n, k) ∈ copies name d → 0 ≤ n < u64_max.

Lemma copy_name_number name n : 0 ≤ n ≤ u64_max →
  strip_prefix (damaged_prefix name) (copy_name name n) ≫= parse_u64 = Some n.
Proof.
  intros Hn. unfold copy_name. rewrite (proj2 (strip_prefix_Some _ _ _) eq_refl). by apply parse_u64_pretty.
Qed.

Lemma next_copy_above name d : numbers_left name d →
  0 ≤ next_copy name d ≤ u64_max ∧ ∀ n k, (n, k) ∈ copies name d → n < next_copy name d.
Proof.
  intros Hleft. unfold next_copy. destruct (last (copies name d)) as [[m k']|] eqn:E.
  - assert (0 ≤ m < u64_max) as Hm by (eapply Hleft, last_Some_elem_of, E).
    unfold wrapping_add. rewrite Z.mod_small by lia. split; [lia|].
    intros n k Hk. pose proof (last_copy_max _ _ _ _ _ E Hk). cbn in *. lia.
  - apply last_None in E. rewrite E. split; [done|]. by intros n k ?%elem_of_nil.
Qed.

Lemma next_copy_free name d : numbers_left name d → d !! copy_name name (next_copy name d) = None.
Proof.
  intros Hleft. destruct (next_copy_above _ _ Hleft) as [Hn Hlt].
  destruct (d !! _) eqn:E; [|done].
  assert ((next_copy name d, copy_name name (next_copy name d)) ∈ copies name d) as Hin.
  { apply elem_of_copies. split; [by rewrite E|]. by apply copy_name_number. }
  apply Hlt in Hin. lia.
Qed.

Lemma not_own_copy name n : name ≠ copy_name name n.
Proof.
  intros E. apply (f_equal str_len) in E. unfold copy_name, damaged_prefix in E. rewrite !str_len_app in E.
  pose proof (str_len_nonneg (pretty n)). change (str_len ".damaged-") with 9 in E. lia.
Qed.

(** ** Moving a file aside *)
Section moving.
Context `{JsonText} (io : Io).
(** The system answers every call but the writes. *)
Definition files_move : Prop :=
  io_scan io = None ∧ (∀ name, io_rename io name = None) ∧ ∀ name, io_remove io name = None.
Context (Hio : files_move).

Lemma lookup_removed (d : dir) names k :
  foldl (remove_file io) d names !! k = if bool_decide (k ∈ names) then None else d !! k.
Proof.
  destruct Hio as (_ & _ & Hrm). revert d. induction names as [|name names IH]; intros d; cbn [foldl].
  - by rewrite bool_decide_eq_false_2 by apply not_elem_of_nil.
  - rewrite IH. unfold remove_file. rewrite Hrm. case_bool_decide as Hk.
    + by rewrite bool_decide_eq_true_2 by by right.
    + destruct (decide (k = name)) as [->|Hne].
      * by rewrite bool_decide_eq_true_2, lookup_delete_eq by by left.
      * rewrite lookup_delete_ne by done. rewrite bool_decide_eq_false_2; [done|]. set_solver.
Qed.

Lemma quarantine_moves name d file : d !! name = Some file → numbers_left name d →
  let next := next_copy name d in
  ∃ d', quarantine io name d = (d', Ok (io_path io (copy_name name next)))
        ∧ d' !! name = None ∧ d' !! copy_name name next = Some file
        ∧ (length (copies name d') ≤ DAMAGED_KEPT)%nat
        ∧ (∀ k, k ≠ name → strip_prefix (damaged_prefix name) k ≫= parse_u64 = None → d' !! k = d !! k).
Proof.
  intros Hfile Hleft next. pose proof Hio as (Hscan & Hren & _).
  pose proof (next_copy_above _ _ Hleft) as [Hnext Hlt]. pose proof (next_copy_free _ _ Hleft) as Hfree.
  pose proof (copy_name_number name next Hnext) as Hnum. fold next in Hlt, Hfree.
  set (moved := copy_name name next) in *. set (found := copies name d ++ [(next, moved)]).
  set (excess := (length found - DAMAGED_KEPT)%nat).
  exists (foldl (remove_file io) (rename name moved d) (take excess found).*2).
  assert (∀ k n, (n, k) ∈ found → strip_prefix (damaged_prefix name) k ≫= parse_u64 = Some n) as Hfound.
  { intros k n [[_ ?]%elem_of_copies|[= -> ->]%list_elem_of_singleton]%elem_of_app; done. }
  assert (∀ k, k ∈ (take excess found).*2 → ∃ n, strip_prefix (damaged_prefix name) k ≫= parse_u64 = Some n
                                                 ∧ (n, k) ∈ take excess found) as Htake.
  { intros k ([n k'] & -> & Hin)%list_elem_of_fmap. exists n. split; [|done]. cbn.
    eapply Hfound, subseteq_take, Hin. }
  assert (strip_prefix (damaged_prefix name) name = None) as Hself.
  { destruct (strip_prefix _ name) as [r|] eqn:E; [|done]. apply strip_prefix_Some in E.
    apply (f_equal str_len) in E. unfold damaged_prefix in E. rewrite !str_len_app in E.
    pose proof (str_len_nonneg r). change (str_len ".damaged-") with 9 in E. lia. }
  assert (NoDup found) as Hnd.
  { apply NoDup_app. split; [apply NoDup_copies|]. split; [|apply NoDup_singleton].
    intros [n k] Hin [= -> ->]%list_elem_of_singleton. apply Hlt in Hin. lia. }
  unfold rename. rewrite Hfile. split; [|split; [|split; [|split]]].
  - unfold quarantine. rewrite Hscan, Hren. unfold rename. by rewrite Hfile.
  - rewrite lookup_removed. case_bool_decide; [done|].
    rewrite lookup_insert_ne by (apply not_eq_sym, not_own_copy). apply lookup_delete_eq.
  - rewrite lookup_removed. rewrite bool_decide_eq_false_2; [by rewrite lookup_insert_eq|].
    intros (n & Hn & Hin)%Htake. rewrite Hnum in Hn. injection Hn as <-.
    unfold found in Hin. rewrite take_app_le in Hin by (subst excess found; rewrite length_app; unfold DAMAGED_KEPT; cbn [length]; lia).
    apply subseteq_take, Hlt in Hin. lia.
  - trans (length (drop excess found)); [|rewrite length_drop; subst excess; lia].
    apply submseteq_length, NoDup_submseteq; [apply NoDup_copies|].
    intros [n k] [[file' Hk] Hn]%elem_of_copies. rewrite lookup_removed in Hk.
    case_bool_decide as Hout; [done|].
    assert ((n, k) ∈ found) as Hin.
    { apply elem_of_app. destruct (decide (k = moved)) as [->|Hne].
      - right. rewrite Hnum in Hn. injection Hn as <-. by apply list_elem_of_singleton.
      - left. apply elem_of_copies. split; [|done]. rewrite lookup_insert_ne in Hk by done.
        apply lookup_delete_Some in Hk as [_ ?]. eauto. }
    rewrite <-(take_drop excess found) in Hin. apply elem_of_app in Hin as [Hin|?]; [|done].
    destruct Hout. apply list_elem_of_fmap. by exists (n, k).
  - intros k Hne Hk. rewrite lookup_removed. rewrite bool_decide_eq_false_2.
    + rewrite lookup_insert_ne, lookup_delete_ne; [done|done|]. intros <-. congruence.
    + intros (n & Hn & _)%Htake. congruence.
Qed.

(** [load_or_quarantine] gives what the file holds when it decodes and the
    caller accepts it, and leaves it; else it is an error, and the file's bytes
    are under a name no copy had, the newest three copies at most are left, and
    no other file is touched. *)
Theorem damaged_state_kept {A : Type} (decode : Value → option A) (accept : A → bool) name d s :
  d !! name = Some (Bytes s) → numbers_left name d →
  let n := next_copy name d in
  (∃ a, from_slice s ≫= decode = Some a ∧ accept a = true
        ∧ load_or_quarantine io decode accept name d = (d, Ok (Some a)))
  ∨ ((∀ a, from_slice s ≫= decode = Some a → accept a = false)
     ∧ ∃ d' why, load_or_quarantine io decode accept name d = (d', Err why)
       ∧ d !! copy_name name n = None ∧ d' !! name = None ∧ d' !! copy_name name n = Some (Bytes s)
       ∧ (length (copies name d') ≤ DAMAGED_KEPT)%nat
       ∧ ∀ k, k ≠ name → strip_prefix (damaged_prefix name) k ≫= parse_u64 = None → d' !! k = d !! k).
Proof.
  intros Hs Hleft n. destruct (quarantine_moves _ _ _ Hs Hleft) as (d' & Hq & Hmoved).
  pose proof (next_copy_free _ _ Hleft) as Hfree.
  assert (read_optional io name d = (d, Ok (Some s))) as Hread by (unfold read_optional; by rewrite Hs).
  unfold load_or_quarantine. rewrite (op_bind_run _ _ _ _ _ Hread).
  destruct (from_slice s ≫= decode) as [a|]; [destruct (accept a) eqn:Ha|].
  - left. exists a. done.
  - right. split; [by intros a' [= <-]|]. rewrite (op_bind_run _ _ _ _ _ Hq). do 2 eexists. split; [done|]. tauto.
  - right. split; [done|]. rewrite (op_bind_run _ _ _ _ _ Hq). do 2 eexists. split; [done|]. tauto.
Qed.
End moving.

(** ** A damaged file beside two copies *)
Definition word_json : JsonText :=
  {| to_vec := λ _, "null"; from_slice := λ s, if bool_decide (s = "null") then Some VNull else None;
     json_error := λ _, "expected value" |}.
Definition quiet_io : Io := MkIo (λ name, name) None (λ _, None) (λ _, None) (λ _, None) (λ _, None).
Definition quiet_box (path : string) : Io := quiet_io.
Definition damaged_dir : dir :=
  {["s.json" := Bytes "broken"; "s.json.damaged-9" := Bytes "old"; "s.json.damaged-10" := Bytes "newer";
    "other" := Bytes "kept"]}.

Lemma damaged_state_kept_witness :
  (∃ a, @from_slice word_json "broken" ≫= as_str = Some a ∧ (λ _, true) a = true
        ∧ @load_or_quarantine word_json quiet_io _ as_str (λ _, true) "s.json" damaged_dir
          = (damaged_dir, Ok (Some a)))
  ∨ ((∀ a, @from_slice word_json "broken" ≫= as_str = Some a → (λ _ : string, true) a = false)
     ∧ ∃ d' why, @load_or_quarantine word_json quiet_io _ as_str (λ _, true) "s.json" damaged_dir = (d', Err why)
       ∧ damaged_dir !! "s.json.damaged-11" = None ∧ d' !! "s.json" = None
       ∧ d' !! "s.json.damaged-11" = Some (Bytes "broken")
       ∧ (length (copies "s.json" d') ≤ 3)%nat
       ∧ ∀ k, k ≠ "s.json" → strip_prefix "s.json.damaged-" k ≫= parse_u64 = None → d' !! k = damaged_dir !! k).
Proof.
  assert (copies "s.json" damaged_dir = [(9, "s.json.damaged-9"); (10, "s.json.damaged-10")]) as Hc
    by (vm_compute; reflexivity).
  refine (@damaged_state_kept word_json quiet_io _ string as_str (λ _, true) "s.json" damaged_dir "broken" _ _).
  - by repeat split.
  - vm_compute; reflexivity.
  - unfold numbers_left. rewrite Hc. intros n k. set_unfold. intros [[= -> ->]|[[= -> ->]|[]]]; by split.
Defined.
