(* ===== verification/HiveOutbox.v ===== *)
(** * The Hive client's outbox

    [rust/crates/lean-ctx-hive/src/outbox.rs]: everything bound for Hive waits
    here as one file per item.  The outbox is a map from the paths below its
    root to directories; randomness and the time are arguments. *)
From S2P Require Import Prelude BTree Text Hex Json HiveError HiveState.
#[local] Open Scope Z_scope.

Definition CHANNEL_KNOWLEDGE : string := "knowledge".
Definition CHANNEL_METRICS : string := "metrics".
Definition CHANNEL_RECEIPTS : string := "receipts".
Definition CHANNEL_TASKS : string := "tasks".
Definition CHANNELS : list string := [CHANNEL_KNOWLEDGE; CHANNEL_METRICS; CHANNEL_RECEIPTS; CHANNEL_TASKS].
Definition MAX_ITEMS : Z := 10000.
Definition MAX_BYTES : Z := 50 * 1024 * 1024.
Definition MAX_FAILED : nat := 500.
Definition MAX_DAMAGED : nat := 20.
Definition BACKOFF_START_SECONDS : Z := 30.
Definition BACKOFF_MAX_SECONDS : Z := 3600.
Definition RETRY_AFTER_MAX_SECONDS : Z := 7 * 24 * 3600.

Record OutboxItem := MkItem {
  ob_id : string;
  ob_channel : string;
  ob_created_at : string;
  ob_attempts : Z;
  ob_next_attempt_at : option string;
  ob_last_error : option string;
  ob_policy_hold : bool;
  ob_payload : Value;
}.

(** [Deserialize for OutboxItem] and [Serialize for OutboxItem] *)
Definition item_names : list string :=
  ["id"; "channel"; "created_at"; "attempts"; "next_attempt_at"; "last_error"; "policy_hold"; "payload"].
Definition item_of_value (v : Value) : option OutboxItem :=
  f ← struct_fields item_names v;
  id ← assoc "id" f ≫= as_str;
  channel ← assoc "channel" f ≫= as_str;
  created_at ← assoc "created_at" f ≫= as_str;
  attempts ← default_field value_u32 0 f "attempts";
  next_attempt_at ← opt_field as_str f "next_attempt_at";
  last_error ← opt_field as_str f "last_error";
  policy_hold ← default_field as_bool false f "policy_hold";
  payload ← assoc "payload" f;
  Some (MkItem id channel created_at attempts next_attempt_at last_error policy_hold payload).

Definition item_value (i : OutboxItem) : Value :=
  VObject
    ([("id", VString (ob_id i)); ("channel", VString (ob_channel i)); ("created_at", VString (ob_created_at i));
      ("attempts", VNumber (JPosInt (ob_attempts i)))]
     ++ some_string "next_attempt_at" (ob_next_attempt_at i)
     ++ some_string "last_error" (ob_last_error i)
     ++ (if ob_policy_hold i then [("policy_hold", VBool true)] else [])
     ++ [("payload", ob_payload i)]).

(** ** Directories *)
Notation Outbox := (gmap string (gmap string dir_entry)) (only parsing).
Definition dir_at (b : Outbox) (path : string) : gmap string dir_entry := default ∅ (b !! path).
Definition failed_dir (channel : string) : string := "failed/" +:+ channel.
Definition valid_channel (channel : string) : bool := bool_decide (channel ∈ CHANNELS).
Definition item_file (id : string) : string := id +:+ ".json".

(** [s.ends_with(t)] *)
Definition ends_with (s t : string) : bool :=
  (String.length t <=? String.length s)%nat
  && bool_decide (drop_bytes (String.length s - String.length t) s = t).
Definition entry_size (e : dir_entry) : Z :=
  match e with Bytes s => str_len s | Unreadable size _ => Z.of_nat size end.
(** The entries [read_dir] gives, in order. *)
Definition scan (io : Io) (d : gmap string dir_entry) : list (string * dir_entry) :=
  match io_scan io with None => bt_iter d | Some _ => [] end.
Definition files (io : Io) (d : gmap string dir_entry) : list (string * Z) :=
  (λ p, (p.1, entry_size p.2)) <$> List.filter (λ p, ends_with p.1 ".json") (scan io d).
(** [path.with_extension("damaged")], of a name ending in [.json] *)
Definition damaged_name (name : string) : string :=
  if bool_decide (name = ".json") then ".json.damaged"
  else String.substring 0 (String.length name - 5) name +:+ ".damaged".

(** [{:013}] *)
Fixpoint zeros (n : nat) : string := match n with O => "" | S n => "0" +:+ zeros n end.
Definition pad13 (n : Z) : string := let s := pretty n in zeros (13 - String.length s) +:+ s.

(** [OutboxDepth] *)
Record OutboxDepth := MkDepth { od_pending : nat; od_failed : nat }.

Section outbox.
Context `{HiveClock} `{JsonText}.
Context (io : string → Io) (debug_str : string → string).

(** An operation in one directory. *)
Definition in_dir {A : Type} (path : string) (m : op (gmap string dir_entry) HiveError A) :
    op Outbox HiveError A := λ b,
  let '(d, r) := m (dir_at b path) in (<[path := d]> b, r).

(** [OutboxItem::due] *)
Definition item_due (i : OutboxItem) (now : Z) : bool :=
  match ob_next_attempt_at i ≫= parse_rfc3339 with Some t => t <=? now | None => true end.

Definition keep_newest (io : Io) (suffix : string) (keep : nat) (d : gmap string dir_entry) : gmap string dir_entry :=
  let names := List.filter (λ name, ends_with name suffix) (scan io d).*1 in
  foldl (remove_file io) d (take (length names - keep) names).

(** ** Queueing *)
Definition full (count bytes incoming : Z) : bool :=
  (MAX_ITEMS <? count + 1) || (MAX_BYTES <? bytes + incoming).
Definition outbox_full (channel : string) : HiveError :=
  LocalError ("the Hive outbox is full; " +:+ channel +:+ " is kept back until Hive is reachable again").

(** The loop of [make_room]. *)
Fixpoint give_way (channel : string) (incoming : Z) (metrics : list (string * Z)) (count bytes : Z) :
    op (gmap string dir_entry) HiveError () := λ d,
  if full count bytes incoming then
    match metrics with
    | [] => (d, Err (outbox_full channel))
    | (oldest, size) :: metrics =>
        give_way channel incoming metrics (count - 1) (saturating_sub bytes size)
          (remove_file (io CHANNEL_METRICS) d oldest)
    end
  else (d, Ok ()).

Definition pending_files (b : Outbox) : list (string * Z) := CHANNELS ≫= λ c, files (io c) (dir_at b c).
Definition total_size (l : list (string * Z)) : Z := foldr (λ p n, p.2 + n) 0 l.

Definition make_room (channel : string) (incoming : Z) : op Outbox HiveError () := λ b,
  in_dir CHANNEL_METRICS
    (give_way channel incoming (files (io CHANNEL_METRICS) (dir_at b CHANNEL_METRICS)) (Z.of_nat (length (pending_files b)))
       (total_size (pending_files b))) b.

Definition item_id (now : Z) (random : string) : string := pad13 (Z.max 0 (now / 1000000)) +:+ hex_encode random.
Definition new_item (channel : string) (payload : Value) (now : Z) (random : string) : OutboxItem :=
  MkItem (item_id now random) channel (stamp_millis now) 0 None None false payload.

(** [Outbox::enqueue]; [random] is [getrandom]'s answer. *)
Definition enqueue (channel : string) (payload : Value) (random : exec string string) (now : Z) :
    op Outbox HiveError string :=
  lift (reject_if (negb (valid_channel channel)) (LocalError ("unknown outbox channel " +:+ debug_str channel)));;
  random ← lift match random with
                | Err why => Err (LocalError ("random: " +:+ why))
                | Ok s => Ok s
                | Panic => Panic
                | Hang => Hang
                end;
  let item := new_item channel payload now random in
  let bytes := to_vec (item_value item) in
  make_room channel (str_len bytes);;
  in_dir channel (write_private (io channel) (item_file (ob_id item)) bytes);;
  mret (ob_id item).

(** ** Reading *)

(** One file of [list]. *)
Definition read_item (io : Io) (name : string) (d : gmap string dir_entry) : gmap string dir_entry * option OutboxItem :=
  let parsed := match d !! name with Some (Bytes s) => from_slice s ≫= item_of_value | _ => None end in
  match parsed with
  | Some i => (d, Some i)
  | None =>
      let d := match io_rename io name with None => rename name (damaged_name name) d | Some _ => d end in
      (keep_newest io ".damaged" MAX_DAMAGED d, None)
  end.
Fixpoint read_items (io : Io) (names : list string) (d : gmap string dir_entry) :
    gmap string dir_entry * list OutboxItem :=
  match names with
  | [] => (d, [])
  | name :: names =>
      let '(d, i) := read_item io name d in
      let '(d, l) := read_items io names d in
      (d, option_list i ++ l)
  end.
(** [Outbox::list] *)
Definition list_items (channel : string) : op Outbox HiveError (list OutboxItem) :=
  in_dir channel (λ d, let '(d, l) := read_items (io channel) (files (io channel) d).*1 d in (d, Ok l)).

(** [Outbox::failed] and [Outbox::depth] *)
Definition failed_items (channel : string) (b : Outbox) : list OutboxItem :=
  let d := dir_at b (failed_dir channel) in
  omap (λ name, match d !! name with Some (Bytes s) => from_slice s ≫= item_of_value | _ => None end)
    (files (io (failed_dir channel)) d).*1.
Definition depth (channel : string) (b : Outbox) : OutboxDepth :=
  MkDepth (length (files (io channel) (dir_at b channel)))
    (length (files (io (failed_dir channel)) (dir_at b (failed_dir channel)))).

(** ** What becomes of an item *)

(** [Outbox::remove] *)
Definition remove (i : OutboxItem) : op Outbox HiveError () :=
  in_dir (ob_channel i) (λ d,
    match d !! item_file (ob_id i), io_remove (io (ob_channel i)) (item_file (ob_id i)) with
    | None, _ => (d, Ok ())
    | Some _, None => (delete (item_file (ob_id i)) d, Ok ())
    | Some _, Some why => (d, Err (LocalError ("outbox: " +:+ why)))
    end).

(** [Outbox::update] *)
Definition update (i : OutboxItem) : op Outbox HiveError () :=
  in_dir (ob_channel i) (write_private (io (ob_channel i)) (item_file (ob_id i)) (to_vec (item_value i))).

(** What [Outbox::wait] makes of an item; [jitter] is the random [u16], zero
    when there is none. *)
Definition backoff (attempts : Z) : Z :=
  Z.min (Z.shiftl BACKOFF_START_SECONDS (Z.min (saturating_sub attempts 1) 7)) BACKOFF_MAX_SECONDS.
Definition wait_seconds (attempts : Z) (retry_after : option Z) (jitter : Z) : Z :=
  let backoff := backoff attempts in
  let wait := match retry_after with
              | None => backoff + jitter mod (backoff / 4 + 1)
              | Some s => Z.min s i64_max
              end in
  clamp wait 0 RETRY_AFTER_MAX_SECONDS.
Definition item_waiting (i : OutboxItem) (hold : bool) (error : string) (retry_after : option Z) (jitter now : Z) :
    OutboxItem :=
  let attempts := saturating_add u32_max (ob_attempts i) 1 in
  MkItem (ob_id i) (ob_channel i) (ob_created_at i) attempts
    (Some (stamp_millis (now + wait_seconds attempts retry_after jitter * NANOS)))
    (Some (take_chars 300 error)) hold (ob_payload i).

(** [Outbox::retry_later] and [Outbox::hold_for_policy]: the item is left as
    [item_waiting] makes it. *)
Definition retry_later (i : OutboxItem) (error : string) (retry_after : option Z) (jitter now : Z) :
    op Outbox HiveError () := update (item_waiting i false error retry_after jitter now).
Definition hold_for_policy (i : OutboxItem) (error : string) (retry_after : option Z) (jitter now : Z) :
    op Outbox HiveError () := update (item_waiting i true error retry_after jitter now).

(** [Outbox::release_policy_holds] *)
Definition released (i : OutboxItem) : OutboxItem :=
  MkItem (ob_id i) (ob_channel i) (ob_created_at i) (ob_attempts i) None (ob_last_error i) false (ob_payload i).
Fixpoint release_items (items : list OutboxItem) : op Outbox HiveError nat := λ b,
  match items with
  | [] => (b, Ok 0%nat)
  | i :: items =>
      let '(b, r) := update (released i) b in
      let '(b, n) := release_items items b in
      (b, n' ← n; Ok (match r with Ok _ => S n' | _ => n' end))
  end.
Fixpoint release_channels (channels : list string) : op Outbox HiveError nat :=
  match channels with
  | [] => mret 0%nat
  | channel :: channels =>
      items ← list_items channel;
      n ← release_items (List.filter ob_policy_hold items);
      m ← release_channels channels;
      mret (n + m)%nat
  end.
Definition release_policy_holds : op Outbox HiveError nat := release_channels CHANNELS.

(** [Outbox::fail] *)
Definition with_error (i : OutboxItem) (error : string) : OutboxItem :=
  MkItem (ob_id i) (ob_channel i) (ob_created_at i) (ob_attempts i) (ob_next_attempt_at i)
    (Some (take_chars 300 error)) (ob_policy_hold i) (ob_payload i).
Definition fail_item (i : OutboxItem) (error : string) : op Outbox HiveError () :=
  let i := with_error i error in
  let dir := failed_dir (ob_channel i) in
  in_dir dir (write_private (io dir) (item_file (ob_id i)) (to_vec (item_value i)));;
  in_dir dir (λ d, (keep_newest (io dir) ".json" MAX_FAILED d, Ok ()));;
  remove i.
End outbox.
