(* ===== verification/HiveThrottle.v ===== *)
(** * Throttles of the Hive client

    [rust/crates/lean-ctx-hive/src/throttle.rs]: what a refused quota or a
    policy refusal holds, and until when.  Instants are nanoseconds; the file
    [throttles.json] is in the client's data directory, beside the outbox. *)
From S2P Require Import Prelude BTree Text Json HiveError HiveState HiveOutbox.
#[local] Open Scope Z_scope.

Definition THROTTLE_FILE : string := "throttles.json".
Definition MIN_WAIT_S : Z := 60.
Definition MAX_WAIT_S : Z := 32 * 86400.
Definition POLICY_HOLD_S : Z := 15 * 60.
Definition QUOTA_PROBE_S : Z := 3600.
(** [chrono::Duration::seconds] *)
Definition secs (s : Z) : Z := s * NANOS.

Inductive Scope := ScopeSync | ScopeBus | ScopeTasks | ScopeConnect.
#[export] Instance Scope_eq_dec : EqDecision Scope.
Proof. solve_decision. Defined.
(** [Scope::as_str] *)
Definition scope_str (s : Scope) : string :=
  match s with
  | ScopeSync => "sync"
  | ScopeBus => "bus"
  | ScopeTasks => "tasks"
  | ScopeConnect => "connect"
  end.
Definition resource_scopes (resource : string) : list Scope :=
  if bool_decide (resource = "transfer_bytes") then [ScopeSync]
  else if bool_decide (resource = "bus_messages") then [ScopeBus]
  else if bool_decide (resource = "registered_instances") then [ScopeConnect]
  else [].

Record Throttle := MkThrottle {
  th_scopes : list string;
  th_until : string;
  th_line : string;
  th_probe_at : option string;
}.
Notation Throttles := (gmap string Throttle) (only parsing).

(** [Deserialize] and [Serialize] of [Throttle] and [Throttles] *)
Definition throttle_of_value (v : Value) : option Throttle :=
  f ← struct_fields ["scopes"; "until"; "line"; "probe_at"] v;
  scopes ← assoc "scopes" f ≫= λ v, match v with VArray l => mapM as_str l | _ => None end;
  until ← assoc "until" f ≫= as_str;
  line ← assoc "line" f ≫= as_str;
  probe_at ← opt_field as_str f "probe_at";
  Some (MkThrottle scopes until line probe_at).
Definition throttle_value (t : Throttle) : Value :=
  VObject
    ([("scopes", VArray (VString <$> th_scopes t)); ("until", VString (th_until t));
      ("line", VString (th_line t))]
     ++ some_string "probe_at" (th_probe_at t)).
Definition throttles_of_value (v : Value) : option Throttles :=
  f ← struct_fields ["items"] v;
  match assoc "items" f with
  | None => Some ∅
  | Some (VObject items) =>
      items ← mapM (λ item, t ← throttle_of_value item.2; Some (item.1, t)) items;
      Some (foldl (λ m item, <[item.1 := item.2]> m) ∅ items)
  | Some _ => None
  end.
Definition throttles_value (m : Throttles) : Value :=
  VObject [("items", VObject ((λ item, (item.1, throttle_value item.2)) <$> bt_iter m))].

(** [map.retain(p)] *)
Definition retain {V : Type} (p : string → V → bool) (m : gmap string V) : gmap string V :=
  filter (λ item, p item.1 item.2 = true) m.
Definition is_quota (key : string) : bool := starts_with key "quota:".
Definition is_policy (key : string) : bool := starts_with key "policy:".

(** [max_by] on [until]: the last of the greatest. *)
Definition ends_later (best : option Throttle) (t : Throttle) : option Throttle :=
  match best with
  | Some b => if bool_decide (String.le (th_until b) (th_until t)) then Some t else Some b
  | None => Some t
  end.
Definition ends_last (l : list Throttle) : option Throttle := foldl ends_later None l.

Section throttle.
Context `{HiveClock}.

(** [Throttle::holds], [active_at] and [refusal] *)
Definition throttle_holds (t : Throttle) (s : Scope) : bool := bool_decide (scope_str s ∈ th_scopes t).
Definition active_at (t : Throttle) (now : Z) : bool :=
  match parse_rfc3339 (th_until t) with Some until => now <? until | None => false end.
Definition refusal (t : Throttle) : HiveError :=
  RefusedError ("waiting for Hive until " +:+ th_until t +:+ ": " +:+ th_line t).

Definition next_month (now : Z) : Z :=
  let '(year, month) := year_month now in
  let '(year, month) := if month =? 12 then (year + 1, 1) else (year, month + 1) in
  default (now + secs (31 * 86400)) (month_start year month).

(** [clamp] *)
Definition clamp_until (now until : Z) : Z :=
  let wait := Z.quot (until - now) NANOS in
  if (MIN_WAIT_S <=? wait) && (wait <=? MAX_WAIT_S) then until
  else now + secs (clamp wait MIN_WAIT_S MAX_WAIT_S).

(** The key, the scopes and the end of the throttle an error sets. *)
Definition terms (scope : option Scope) (error : HiveError) (now : Z) : option (string * list Scope * Z) :=
  match error with
  | QuotaExceeded q =>
      if waits q then
        let until := match retry_after_at error now with
                     | Some s =>
                         now + secs (clamp (if s <=? i64_max then s else MAX_WAIT_S) MIN_WAIT_S MAX_WAIT_S)
                     | None => next_month now
                     end in
        Some ("quota:" +:+ qt_resource q, resource_scopes (qt_resource q), clamp_until now until)
      else if cooling_slot q then
        reset_at ← qt_reset_at q;
        reset ← parse_rfc3339 reset_at;
        Some ("quota:" +:+ qt_resource q, resource_scopes (qt_resource q), clamp_until now reset)
      else None
  | PolicyDenied d =>
      scope ← scope;
      Some ("policy:" +:+ default "unknown" (dn_member d) +:+ ":" +:+ scope_str scope, [],
            now + secs POLICY_HOLD_S)
  | _ => None
  end.
Definition of_error (scope : option Scope) (error : HiveError) (now : Z) : option (string * Throttle) :=
  '(key, scopes, until) ← terms scope error now;
  let names := dedup (sort_strings (scope_str <$> option_list scope ++ scopes)) in
  if bool_decide (names = []) then None
  else
    let probe := now + secs QUOTA_PROBE_S in
    let probe_at := if is_quota key && (probe <? until) then Some (stamp_secs probe) else None in
    Some (key, MkThrottle names (stamp_secs until) (hive_fmt error) probe_at).

(** ** The file *)
Context `{JsonText} (io : Io).

Definition read : op (gmap string dir_entry) HiveError Throttles := λ d,
  match load_or_quarantine io throttles_of_value (λ _, true) THROTTLE_FILE d with
  | (d, Ok (Some t)) => (d, Ok t)
  | (d, _) => (d, Ok ∅)
  end.
Definition change (edit : Throttles → Throttles) : op (gmap string dir_entry) HiveError () :=
  lock_state io THROTTLE_FILE;;
  throttles ← read;
  write_private io THROTTLE_FILE (to_vec (throttles_value (edit throttles))).
(** [let _ = change(..)] *)
Definition change_quietly (edit : Throttles → Throttles) : op (gmap string dir_entry) HiveError () :=
  λ d, ((change edit d).1, Ok ()).

(** [note_on], which [note] calls with [Some scope]: the error passes on. *)
Definition note_on (scope : option Scope) (error : HiveError) (now : Z) :
    op (gmap string dir_entry) HiveError HiveError :=
  match of_error scope error now with
  | Some (key, throttle) =>
      change_quietly (λ t, <[key := throttle]> (retain (λ _ v, active_at v now) t));; mret error
  | None => mret error
  end.
Definition throttle_note (scope : Scope) (error : HiveError) (now : Z) : op (gmap string dir_entry) HiveError HiveError :=
  note_on (Some scope) error now.

Definition holding (scope : Scope) (now : Z) : op (gmap string dir_entry) HiveError (option Throttle) :=
  throttles ← read;
  mret (ends_last (List.filter (λ t, throttle_holds t scope && active_at t now) (bt_values throttles))).

Definition probe_due (now : Z) (t : Throttle) : bool :=
  match th_probe_at t ≫= parse_rfc3339 with Some p => p <=? now | None => false end.
Definition set_probe (next : string) (t : Throttle) : Throttle :=
  MkThrottle (th_scopes t) (th_until t) (th_line t) (Some next).
Definition active_on (scope : Scope) (now : Z) (throttles : Throttles) : list (string * Throttle) :=
  List.filter (λ item, throttle_holds item.2 scope && active_at item.2 now) (bt_iter throttles).
Definition check (scope : Scope) (now : Z) : op (gmap string dir_entry) HiveError () :=
  path_held ← holding scope now;
  match path_held with
  | None => mret ()
  | Some path_held =>
      throttles ← read;
      let active := active_on scope now throttles in
      if negb (forallb (λ item, is_quota item.1 && probe_due now item.2) active) then lift (Err (refusal path_held))
      else
        let next := stamp_secs (now + secs QUOTA_PROBE_S) in
        change_quietly (λ t, foldl (λ t key, alter (set_probe next) key t) t active.*1)
  end.

Definition quota_holds (scope : Scope) (now : Z) : op (gmap string dir_entry) HiveError bool :=
  throttles ← read;
  mret (any (λ item, is_quota item.1 && throttle_holds item.2 scope && active_at item.2 now) (bt_iter throttles)).

Definition quota_lifted (scope : Scope) : op (gmap string dir_entry) HiveError () :=
  throttles ← read;
  if any (λ item, is_quota item.1 && throttle_holds item.2 scope) (bt_iter throttles) then
    change_quietly (retain (λ key v, negb (is_quota key && throttle_holds v scope)))
  else mret ().

Definition held_by_policy (scope : Scope) (key : string) : bool :=
  is_policy key && ends_with key (":" +:+ scope_str scope).
Definition passed (scope : Scope) : op (gmap string dir_entry) HiveError () :=
  throttles ← read;
  (if any (held_by_policy scope) (bt_keys throttles) then
     change_quietly (retain (λ key _, negb (held_by_policy scope key)))
   else mret ());;
  quota_lifted scope.

Definition plan_changed : op (gmap string dir_entry) HiveError () :=
  throttles ← read;
  if any is_quota (bt_keys throttles) then change_quietly (retain (λ key _, negb (is_quota key))) else mret ().

Definition clear_connect : op (gmap string dir_entry) HiveError () :=
  change_quietly (retain (λ _ v, negb (throttle_holds v ScopeConnect))).

Definition status_lines (now : Z) : op (gmap string dir_entry) HiveError (list string) :=
  throttles ← read;
  mret ((λ t, "Throttled:    " +:+ join ", " (th_scopes t) +:+ " until " +:+ th_until t +:+ ": " +:+ th_line t)
        <$> List.filter (λ t, active_at t now) (bt_values throttles)).

(** ** With the outbox *)
Record Data := MkData { da_files : gmap string dir_entry; da_outbox : gmap string (gmap string dir_entry) }.
Context (box : string → Io).

Definition policy_changed : op Data HiveError () := λ s,
  let '(d, _) := (throttles ← read;
                  if any is_policy (bt_keys throttles)
                  then change_quietly (retain (λ key _, negb (is_policy key)))
                  else mret ()) (da_files s) in
  (MkData d (release_policy_holds box (da_outbox s)).1, Ok ()).
End throttle.
