(* ===== verification/HiveThrottleFacts.v ===== *)
(** * What a throttle holds

    The file of throttles is read back as it was written; a path is held for
    the time its refusal sets, with one probe an hour, and freed by a call that
    passes. *)
From S2P Require Import Prelude BTree Text Json HiveError HiveErrorFacts.
From S2P Require Import HiveState HiveOutbox HiveThrottle.
#[local] Open Scope Z_scope.

(** ** The file's text *)
Lemma strings_value l : mapM as_str (VString <$> l) = Some l.
Proof. by apply mapM_fmap_Some. Qed.

Lemma throttle_of_value_value t : throttle_of_value (throttle_value t) = Some t.
Proof.
  destruct t as [scopes until line [probe|]]; unfold throttle_of_value.
  - change ((scopes' ← mapM as_str (VString <$> scopes); Some (MkThrottle scopes' until line (Some probe)))
            = Some (MkThrottle scopes until line (Some probe))). by rewrite strings_value.
  - change ((scopes' ← mapM as_str (VString <$> scopes); Some (MkThrottle scopes' until line None))
            = Some (MkThrottle scopes until line None)). by rewrite strings_value.
Qed.

Lemma throttle_value_plain t : json_plain (throttle_value t) = true ∧ (json_depth (throttle_value t) ≤ 2)%nat.
Proof.
  assert (forallb json_plain (VString <$> th_scopes t) = true) as Hs
    by (apply forallb_true; by intros v (s & -> & _)%list_elem_of_fmap).
  assert (foldr (λ v n, Nat.max (json_depth v) n) O (VString <$> th_scopes t) = O) as Hd
    by (induction (th_scopes t) as [|s l IH]; cbn in *; [done|by apply IH; inversion Hs]).
  destruct t as [scopes until line [probe|]]; cbn in *; rewrite Hs, Hd; by split; [|lia].
Qed.

(** What is written of the throttles is read back. *)
Lemma throttles_of_value_value m : throttles_of_value (throttles_value m) = Some m.
Proof.
  change ((items ← mapM (λ item, t ← throttle_of_value item.2; Some (item.1, t))
                     ((λ item, (item.1, throttle_value item.2)) <$> bt_iter m);
           Some (foldl (λ m item, <[item.1 := item.2]> m) ∅ items)) = Some m).
  rewrite mapM_fmap_Some; [by cbn; rewrite foldl_bt_iter|].
  intros [k t]. cbn -[throttle_of_value throttle_value]. by rewrite throttle_of_value_value.
Qed.

Lemma throttles_value_plain m :
  json_plain (throttles_value m) = true ∧ (json_depth (throttles_value m) ≤ MAX_NESTING)%nat.
Proof.
  unfold throttles_value. set (l := (λ item, (item.1, throttle_value item.2)) <$> bt_iter m).
  assert (l.*1 = bt_keys m) as Hkeys by (subst l; rewrite <-list_fmap_compose; by apply list_fmap_ext).
  assert (∀ f, f ∈ l → json_plain f.2 = true ∧ (json_depth f.2 ≤ 2)%nat) as Hl.
  { intros f (item & -> & _)%list_elem_of_fmap. apply throttle_value_plain. }
  split.
  - cbn. rewrite bool_decide_eq_true_2 by (repeat constructor; set_solver). cbn.
    rewrite Hkeys, bool_decide_eq_true_2 by apply NoDup_bt_keys. cbn. rewrite andb_true_r.
    apply forallb_true. intros f Hf. apply Hl, Hf.
  - cbn. pose proof (depth_fields l 2 ltac:(intros f Hf; apply Hl, Hf)). unfold MAX_NESTING. cbn in *. lia.
Qed.

(** ** The file's state *)
Lemma retain_lookup {V} p (m : gmap string V) k v :
  retain p m !! k = Some v ↔ m !! k = Some v ∧ p k v = true.
Proof. apply map_lookup_filter_Some. Qed.

Lemma retain_all {V} p (m : gmap string V) : (∀ k v, m !! k = Some v → p k v = true) → retain p m = m.
Proof. intros Hp. apply map_filter_id. intros k v Hk. by apply Hp. Qed.

Lemma any_keys_false {V} (p : string → bool) (m : gmap string V) :
  any p (bt_keys m) = false → retain (λ k _, negb (p k)) m = m.
Proof.
  rewrite any_false. intros Hp. apply retain_all. intros k v Hk.
  rewrite Hp; [done|]. apply elem_of_bt_keys. by rewrite Hk.
Qed.
Lemma any_items_false {V} (p : string * V → bool) (m : gmap string V) :
  any p (bt_iter m) = false → retain (λ k v, negb (p (k, v))) m = m.
Proof.
  rewrite any_false. intros Hp. apply retain_all. intros k v Hk.
  rewrite Hp; [done|]. by apply elem_of_bt_iter.
Qed.

Section file.
Context `{JL : JsonTextLaws}.

(** The throttles the file holds; no file holds none. *)
Definition throttles_are (m : gmap string Throttle) (d : gmap string dir_entry) : Prop :=
  d !! THROTTLE_FILE = Some (Bytes (to_vec (throttles_value m))) ∨ d !! THROTTLE_FILE = None ∧ m = ∅.
(** The state lock is taken and the file is written. *)
Definition throttles_change (io : Io) : Prop :=
  io_lock io THROTTLE_FILE = None ∧ io_write io THROTTLE_FILE = None.

Lemma read_throttles io m d : throttles_are m d → read io d = (d, Ok m).
Proof.
  intros [Hd|[Hd ->]]; unfold read, load_or_quarantine.
  - rewrite (op_bind_run _ _ d d (Some (to_vec (throttles_value m)))) by (unfold read_optional; by rewrite Hd).
    destruct (throttles_value_plain m) as [Hp Hdep]. rewrite (from_slice_to_vec _ Hp Hdep). cbn -[throttles_of_value].
    by rewrite throttles_of_value_value.
  - by rewrite (op_bind_run _ _ d d None) by (unfold read_optional; by rewrite Hd).
Qed.

(** A change is made, or nothing is. *)
Lemma change_exact io edit m d : throttles_are m d →
  ∃ d', change_quietly io edit d = (d', Ok ())
        ∧ (throttles_change io ∧ throttles_are (edit m) d' ∨ d' = d ∧ ¬ throttles_change io).
Proof.
  intros Hm. unfold change_quietly, change, throttles_change.
  destruct (io_lock io THROTTLE_FILE) eqn:Hlock.
  - rewrite (op_bind_err _ _ d d (LocalError s)) by (unfold lock_state; by rewrite Hlock).
    exists d. split; [done|]. right. split; [done|]. by intros [? _].
  - rewrite (op_bind_run _ _ d d ()) by (unfold lock_state; by rewrite Hlock).
    rewrite (op_bind_run _ _ d d m) by by apply read_throttles.
    unfold write_private. destruct (io_write io THROTTLE_FILE) eqn:Hwrite.
    + exists d. split; [done|]. right. split; [done|]. by intros [_ ?].
    + eexists. split; [done|]. left. split; [done|]. left. apply lookup_insert_eq.
Qed.

Lemma change_throttles io edit m d : throttles_are m d →
  ∃ d', change_quietly io edit d = (d', Ok ())
        ∧ (throttles_are (edit m) d' ∨ d' = d ∧ ¬ throttles_change io).
Proof. intros Hm. destruct (change_exact io edit m d Hm) as (d' & ? & [[_ ?]|?]); eauto. Qed.

(** An edit made only when it would change something. *)
Lemma guarded_change io edit (b : bool) m d : throttles_are m d → (b = false → edit m = m) →
  ∃ d', (if b then change_quietly io edit else mret ()) d = (d', Ok ())
        ∧ (throttles_are (edit m) d' ∨ d' = d ∧ ¬ throttles_change io).
Proof.
  intros Hm Hb. destruct b; [by apply change_throttles|].
  exists d. split; [done|]. left. by rewrite Hb.
Qed.
End file.

(** ** How long a refusal holds *)
Lemma clamp_until_bounds now until :
  now + secs MIN_WAIT_S ≤ clamp_until now until < now + secs (MAX_WAIT_S + 1).
Proof.
  unfold clamp_until, clamp, secs, MIN_WAIT_S, MAX_WAIT_S, NANOS.
  set (wait := Z.quot (until - now) 1000000000).
  pose proof (Z.quot_rem' (until - now) 1000000000) as Hq. fold wait in Hq.
  pose proof (Z.rem_bound_abs (until - now) 1000000000 ltac:(lia)) as Hr.
  assert (0 ≤ until - now → 0 ≤ Z.rem (until - now) 1000000000) as Hs by (apply Z.rem_nonneg; lia).
  destruct (Z.leb_spec 60 wait), (Z.leb_spec wait (32 * 86400)); cbn [andb];
    repeat case_match; lia.
Qed.

Section refusals.
Context `{CL : HiveClockLaws}.

Lemma terms_bounds scope e now key scopes until : terms scope e now = Some (key, scopes, until) →
  now + secs MIN_WAIT_S ≤ until < now + secs (MAX_WAIT_S + 1).
Proof.
  intros Ht. destruct e; try discriminate Ht; cbn in Ht.
  - destruct (waits q); [by injection Ht as _ _ <-; apply clamp_until_bounds|].
    destruct (cooling_slot q); [|done]. destruct (qt_reset_at q) as [at_|]; [|done]. cbn in Ht.
    destruct (parse_rfc3339 at_); [|done]. cbn in Ht. injection Ht as _ _ <-. apply clamp_until_bounds.
  - destruct scope as [s|]; [|done]. cbn in Ht. injection Ht as _ _ <-.
    unfold secs, MIN_WAIT_S, POLICY_HOLD_S, MAX_WAIT_S, NANOS. lia.
Qed.

Lemma of_error_terms scope e now key t : of_error scope e now = Some (key, t) →
  ∃ scopes until, terms scope e now = Some (key, scopes, until) ∧ th_until t = stamp_secs until
    ∧ (∀ s, s ∈ th_scopes t ↔ s ∈ scope_str <$> option_list scope ++ scopes)
    ∧ (th_probe_at t = None ∨ th_probe_at t = Some (stamp_secs (now + secs QUOTA_PROBE_S))).
Proof.
  unfold of_error. destruct (terms scope e now) as [[[k scopes] until]|]; [|done]. cbn.
  case_bool_decide; [done|]. intros [= -> <-]. exists scopes, until. cbn.
  split; [done|]. split; [done|]. split; [apply elem_of_dedup_sort|].
  destruct (is_quota key && _); auto.
Qed.

(** The second an instant is in, which is what is written of it. *)
Definition whole_second (t : Z) : Z := t / NANOS * NANOS.
Lemma whole_second_bounds t : t - NANOS < whole_second t ≤ t.
Proof.
  unfold whole_second, NANOS. pose proof (Z.div_mod t 1000000000 ltac:(lia)).
  pose proof (Z.mod_pos_bound t 1000000000 ltac:(lia)). lia.
Qed.

Lemma active_until t until u : th_until t = stamp_secs until → 0 ≤ until < YEAR_10000 →
  active_at t u = (u <? whole_second until).
Proof. intros Hu Hr. unfold active_at. by rewrite Hu, parse_stamp_secs. Qed.

(** The calendar has room for the longest wait. *)
Definition in_calendar (now : Z) : Prop := 0 ≤ now ∧ now + secs (MAX_WAIT_S + 1) ≤ YEAR_10000.

Lemma set_throttle_active scope e now key t : in_calendar now → of_error scope e now = Some (key, t) →
  ∃ until, now + secs MIN_WAIT_S ≤ until < now + secs (MAX_WAIT_S + 1)
           ∧ ∀ u, active_at t u = (u <? whole_second until).
Proof.
  intros [Hn Hy] He. destruct (of_error_terms _ _ _ _ _ He) as (scopes & until & Ht & Hu & _ & _).
  pose proof (terms_bounds _ _ _ _ _ _ Ht) as Hb. exists until. split; [done|]. intros u.
  apply active_until; [done|]. unfold secs, MIN_WAIT_S, NANOS in *. lia.
Qed.

(** Whatever the service answers and whatever the error carries (a wait of
    [u64::MAX] seconds, a reset in the past, no reset at all), the throttle it
    sets holds for a minute at least and ends after 32 days and a second at
    most; a second is lost to the precision of what is written. *)
Theorem throttle_wait_bounded scope e now key t : in_calendar now → of_error scope e now = Some (key, t) →
  (∀ u, u ≤ now + secs (MIN_WAIT_S - 1) → active_at t u = true)
  ∧ (∀ u, now + secs (MAX_WAIT_S + 1) ≤ u → active_at t u = false).
Proof.
  intros Hc He. destruct (set_throttle_active _ _ _ _ _ Hc He) as (until & Hb & Ha).
  pose proof (whole_second_bounds until). unfold secs, NANOS, MIN_WAIT_S in *.
  split; intros u Hu; rewrite Ha; [apply Z.ltb_lt|apply Z.ltb_ge]; lia.
Qed.

End refusals.

(** ** What [check] answers *)
Lemma ends_last_spec l :
  match ends_last l with
  | Some t => t ∈ l ∧ ∀ u, u ∈ l → String.le (th_until u) (th_until t)
  | None => l = []
  end.
Proof.
  unfold ends_last. induction l as [|x l IH] using rev_ind; [done|]. rewrite foldl_snoc.
  destruct (foldl ends_later None l) as [b|]; cbn.
  - destruct IH as [Hb Hmax]. case_bool_decide as Hle; (split; [set_solver|]); intros u Hu;
      apply elem_of_app in Hu as [Hu|Hu%list_elem_of_singleton]; subst; auto.
    + by etrans; [apply Hmax|].
    + by destruct (String.le_total (th_until b) (th_until x)).
  - subst l. split; [by left|]. intros u ->%list_elem_of_singleton. reflexivity.
Qed.

Section checks.
Context `{HiveClock}.

(** The active throttles that hold a path are quotas whose probe is due. *)
Definition all_due (scope : Scope) (now : Z) (m : gmap string Throttle) : Prop :=
  ∀ key t, m !! key = Some t → throttle_holds t scope = true → active_at t now = true →
           is_quota key = true ∧ probe_due now t = true.
Definition path_held (scope : Scope) (now : Z) (m : gmap string Throttle) : Prop :=
  ∃ key t, m !! key = Some t ∧ throttle_holds t scope = true ∧ active_at t now = true.

Lemma elem_of_active_on scope now m key t :
  (key, t) ∈ active_on scope now m ↔ m !! key = Some t ∧ throttle_holds t scope = true ∧ active_at t now = true.
Proof.
  unfold active_on. rewrite elem_of_filter_list, elem_of_bt_iter, andb_true_iff. done.
Qed.

Context `{JL : JsonTextLaws}.

Lemma holding_throttles io scope now m d : throttles_are m d →
  holding io scope now d
  = (d, Ok (ends_last (List.filter (λ t, throttle_holds t scope && active_at t now) (bt_values m)))).
Proof. intros Hm. unfold holding. by rewrite (op_bind_run _ _ _ _ _ (read_throttles io m d Hm)). Qed.

Lemma holding_answers io scope now m d : throttles_are m d →
  ∃ h, holding io scope now d = (d, Ok h)
    ∧ match h with
      | Some t => (∃ key, m !! key = Some t) ∧ throttle_holds t scope = true ∧ active_at t now = true
                  ∧ ∀ key u, m !! key = Some u → throttle_holds u scope = true → active_at u now = true →
                             String.le (th_until u) (th_until t)
      | None => ¬ path_held scope now m
      end.
Proof.
  intros Hm. eexists. split; [by apply holding_throttles|].
  pose proof (ends_last_spec (List.filter (λ t, throttle_holds t scope && active_at t now) (bt_values m))) as Hl.
  destruct (ends_last _) as [t|].
  - destruct Hl as [[[key Hk]%elem_of_bt_values [Hh Ha]%andb_true_iff]%elem_of_filter_list Hmax].
    split; [by exists key|]. split; [done|]. split; [done|].
    intros k u Hu Hhu Hau. apply Hmax, elem_of_filter_list. rewrite Hhu, Hau.
    split; [apply elem_of_bt_values; by exists k|done].
  - intros (key & t & Hk & Hh & Ha). eapply (not_elem_of_nil t). rewrite <-Hl. apply elem_of_filter_list.
    rewrite Hh, Ha. split; [apply elem_of_bt_values; by exists key|done].
Qed.

Lemma all_due_later scope now u m : now ≤ u → all_due scope now m → all_due scope u m.
Proof.
  intros Hu Hall key t Hk Hh Ha. destruct (Hall key t Hk Hh) as [Hq Hp].
  - unfold active_at in *. destruct (parse_rfc3339 (th_until t)); [|done]. apply Z.ltb_lt in Ha.
    apply Z.ltb_lt. lia.
  - split; [done|]. unfold probe_due in *. destruct (th_probe_at t ≫= parse_rfc3339); [|done].
    apply Z.leb_le in Hp. apply Z.leb_le. lia.
Qed.

(** What a passing probe makes of the throttles. *)
Definition probed (scope : Scope) (now : Z) (m : gmap string Throttle) : gmap string Throttle :=
  foldl (λ t key, alter (set_probe (stamp_secs (now + secs QUOTA_PROBE_S))) key t) m (active_on scope now m).*1.

Lemma probed_lookup scope now m key :
  probed scope now m !! key
  = (λ t, if throttle_holds t scope && active_at t now then set_probe (stamp_secs (now + secs QUOTA_PROBE_S)) t else t)
      <$> m !! key.
Proof.
  unfold probed. set (f := set_probe _).
  assert (∀ l (m0 : gmap string Throttle),
            foldl (λ t key, alter f key t) m0 l !! key = if bool_decide (key ∈ l) then f <$> m0 !! key else m0 !! key)
    as Hfold.
  { induction l as [|k l IH]; intros m0; cbn [foldl]; [by rewrite bool_decide_eq_false_2 by apply not_elem_of_nil|].
    rewrite IH. destruct (decide (key = k)) as [->|Hne].
    - rewrite (bool_decide_eq_true_2 (k ∈ k :: l)) by by left. rewrite lookup_alter_eq.
      case_bool_decide; [|done]. by destruct (m0 !! k).
    - rewrite lookup_alter_ne by done. by rewrite (bool_decide_ext (key ∈ k :: l) (key ∈ l)) by set_solver. }
  rewrite Hfold. destruct (m !! key) as [t|] eqn:Ht; [|by case_bool_decide].
  cbn. case_bool_decide as Hin.
  - apply list_elem_of_fmap in Hin as ([k t'] & -> & Hin). apply elem_of_active_on in Hin as (Hk & Hh & Ha).
    cbn in Ht. rewrite Hk in Ht. injection Ht as ->. by rewrite Hh, Ha.
  - destruct (throttle_holds t scope && active_at t now) eqn:E; [|done]. apply andb_true_iff in E as [Hh Ha].
    destruct Hin. apply list_elem_of_fmap. exists (key, t). split; [done|]. by apply elem_of_active_on.
Qed.

Lemma check_cases io scope now m d : throttles_are m d →
  (¬ path_held scope now m ∧ check io scope now d = (d, Ok ()))
  ∨ (¬ all_due scope now m
     ∧ ∃ key h, m !! key = Some h ∧ throttle_holds h scope = true ∧ active_at h now = true
       ∧ (∀ key u, m !! key = Some u → throttle_holds u scope = true → active_at u now = true →
                   String.le (th_until u) (th_until h))
       ∧ check io scope now d = (d, Err (refusal h)))
  ∨ (path_held scope now m ∧ all_due scope now m
     ∧ ∃ d', check io scope now d = (d', Ok ())
       ∧ (throttles_change io ∧ throttles_are (probed scope now m) d' ∨ d' = d ∧ ¬ throttles_change io)).
Proof.
  intros Hm. unfold check. destruct (holding_answers io scope now m d Hm) as (h & Hh & Hspec).
  rewrite (op_bind_run _ _ _ _ _ Hh). destruct h as [h|]; [right|by left].
  destruct Hspec as ([key Hkey] & Hhold & Hact & Hmax). rewrite (op_bind_run _ _ _ _ _ (read_throttles io m d Hm)).
  destruct (forallb _ _) eqn:Hdue; cbn [negb]; [right|left].
  - split; [by exists key, h|]. split.
    + intros k t Hk Ht Hat. rewrite forallb_true in Hdue.
      specialize (Hdue (k, t) ltac:(by apply elem_of_active_on)). by apply andb_true_iff in Hdue.
    + apply (change_exact io (λ t, foldl _ t _) m d Hm).
  - split.
    + intros Hall. apply not_true_iff_false in Hdue. apply Hdue, forallb_true.
      intros [k t] (Hk & Ht & Hat)%elem_of_active_on. cbn. by destruct (Hall k t Hk Ht Hat) as [-> ->].
    + exists key, h. done.
Qed.

Lemma refused_until io scope m d key t u : throttles_are m d → m !! key = Some t → throttle_holds t scope = true →
  active_at t u = true → probe_due u t = false →
  ∃ h, check io scope u d = (d, Err (refusal h)) ∧ active_at h u = true ∧ throttle_holds h scope = true
       ∧ String.le (th_until t) (th_until h).
Proof.
  intros Hm Hk Hh Ha Hp. destruct (check_cases io scope u m d Hm) as [[Hnot _]|[[_ Hc]|(_ & Hall & _)]].
  - destruct Hnot. by exists key, t.
  - destruct Hc as (k & h & _ & Hhh & Hah & Hmax & Hc). exists h. repeat split; [done..|]. by eapply Hmax.
  - destruct (Hall key t Hk Hh Ha) as [_ ?]. congruence.
Qed.

End checks.

(** ** Held paths *)
Section held_paths.
Context `{CL : HiveClockLaws} `{JL : JsonTextLaws}.

Lemma probe_waits now t : in_calendar now → th_probe_at t = Some (stamp_secs (now + secs QUOTA_PROBE_S)) →
  ∀ u, u < now + secs (QUOTA_PROBE_S - 1) → probe_due u t = false.
Proof.
  intros [Hn Hy] Hp u Hu. unfold probe_due. rewrite Hp. cbn.
  rewrite parse_stamp_secs by (unfold secs, QUOTA_PROBE_S, MAX_WAIT_S, NANOS in *; lia).
  apply Z.leb_gt. pose proof (whole_second_bounds (now + secs QUOTA_PROBE_S)) as Hw.
  unfold whole_second in Hw. unfold secs, NANOS in *. lia.
Qed.

(** Once a refusal is recorded, every path it holds answers "waiting for
    Hive" instead of calling it, for the next minute (less the second lost to
    what is written), with a throttle that ends no earlier than the one set. *)
Theorem refused_path_waits io scope e now m d key t s u :
  throttles_are m d → throttles_change io → in_calendar now → of_error scope e now = Some (key, t) →
  throttle_holds t s = true → u ≤ now + secs (MIN_WAIT_S - 1) →
  let '(d', r) := note_on io scope e now d in
  r = Ok e ∧ ∃ h, check io s u d' = (d', Err (refusal h)) ∧ active_at h u = true ∧ throttle_holds h s = true
                  ∧ String.le (th_until t) (th_until h).
Proof.
  intros Hm Hio Hc He Hs Hu. unfold note_on. rewrite He.
  destruct (change_throttles io (λ m, <[key := t]> (retain (λ _ v, active_at v now) m)) m d Hm)
    as (d' & Hd' & [Hm'|[_ Hno]]); [|done].
  rewrite (op_bind_run _ _ _ _ _ Hd'). cbn. split; [done|].
  destruct (set_throttle_active _ _ _ _ _ Hc He) as (until & Hb & Ha).
  pose proof (whole_second_bounds until) as Hw.
  eapply (refused_until io s _ d' key t u Hm'); [apply lookup_insert_eq|done| |].
  - rewrite Ha. apply Z.ltb_lt. unfold secs, NANOS, MIN_WAIT_S in *. lia.
  - destruct (of_error_terms _ _ _ _ _ He) as (_ & _ & _ & _ & _ & [Hp|Hp]).
    + unfold probe_due. by rewrite Hp.
    + apply (probe_waits now t Hc Hp). unfold secs, NANOS, MIN_WAIT_S, QUOTA_PROBE_S in *. lia.
Qed.

(** C27: of the calls on a held path one an hour passes, if the passing check
    could record it.  On a [throttles.json] as the client writes it and with a
    clock before the year 10000, take a check that lets a call through a path held
    by a throttle.  Either the state lock was taken and the file written: then
    every check on the path before the next probe, an hour on (less the second
    lost to what is written), is refused while that throttle is still active.  Or
    one of the two failed, which the check does not report: then the recorded
    throttles are as before, and every later check on them passes as well. *)
Theorem one_probe_an_hour io scope now m d d' key t :
  throttles_are m d → in_calendar now →
  m !! key = Some t → throttle_holds t scope = true → active_at t now = true →
  check io scope now d = (d', Ok ()) →
  (throttles_change io
   ∧ ∀ io' u, u < now + secs (QUOTA_PROBE_S - 1) → active_at t u = true →
       ∃ h, check io' scope u d' = (d', Err (refusal h)) ∧ active_at h u = true)
  ∨ (¬ throttles_change io ∧ d' = d ∧ ∀ io' u, now ≤ u → (check io' scope u d').2 = Ok ()).
Proof.
  intros Hm Hc Hk Hh Ha Hcheck.
  destruct (check_cases io scope now m d Hm) as [[Hnot _]|[(_ & k & h & Hbad)|(_ & Hall & d1 & Hd1 & Hm')]].
  - destruct Hnot. by exists key, t.
  - destruct Hbad as (_ & _ & _ & _ & Hbad). rewrite Hbad in Hcheck. discriminate Hcheck.
  - rewrite Hcheck in Hd1. injection Hd1 as <-. destruct Hm' as [[Hio Hm']|[-> Hno]]; [left|right].
    + split; [done|]. intros io' u Hu Hau.
      set (next := stamp_secs (now + secs QUOTA_PROBE_S)).
      destruct (refused_until io' scope _ d' key (set_probe next t) u Hm') as (h & Hr & Hah & _).
      * rewrite probed_lookup, Hk. cbn. by rewrite Hh, Ha.
      * exact Hh.
      * exact Hau.
      * by apply (probe_waits now (set_probe next t) Hc eq_refl).
      * by exists h.
    + split; [done|]. split; [done|]. intros io' u Hu.
      destruct (check_cases io' scope u m d Hm) as [[_ ->]|[[Hnot _]|(_ & _ & d2 & -> & _)]]; [done| |done].
      destruct Hnot. by eapply all_due_later.
Qed.
End held_paths.

(** ** A used-up quota *)
Definition sample_now : Z := 1000 * NANOS.
Definition used_up : HiveError :=
  QuotaExceeded (MkQuota 429 "transfer_bytes" (Some 5) (Some 5) None (Some u64_max) None).

Lemma throttle_wait_bounded_witness :
  ∃ key t, of_error (H := sample_hive_clock) (Some ScopeBus) used_up sample_now = Some (key, t)
    ∧ active_at (H := sample_hive_clock) t (sample_now + secs 59) = true
    ∧ active_at (H := sample_hive_clock) t (sample_now + secs (32 * 86400 + 1)) = false.
Proof.
  destruct (of_error (H := sample_hive_clock) (Some ScopeBus) used_up sample_now) as [[key t]|] eqn:E;
    [|vm_compute in E; discriminate E].
  exists key, t. split; [done|].
  destruct (throttle_wait_bounded (CL := sample_hive_clock_laws) (Some ScopeBus) used_up sample_now key t) as [H1 H2].
  - by split; vm_compute.
  - exact E.
  - split; [apply H1|apply H2]; by vm_compute.
Defined.

Lemma refused_path_waits_witness :
  let '(d', r) := @note_on sample_hive_clock tree_json quiet_io (Some ScopeBus) used_up sample_now ∅ in
  r = Ok used_up
  ∧ ∃ h, @check sample_hive_clock tree_json quiet_io ScopeSync (sample_now + secs 30) d' = (d', Err (refusal h)).
Proof.
  destruct (of_error (H := sample_hive_clock) (Some ScopeBus) used_up sample_now) as [[key t]|] eqn:E;
    [|vm_compute in E; discriminate E].
  pose proof (refused_path_waits (CL := sample_hive_clock_laws) (JL := tree_json_laws) quiet_io (Some ScopeBus)
    used_up sample_now ∅ ∅ key t ScopeSync (sample_now + secs 30)) as Hr.
  destruct (@note_on sample_hive_clock tree_json quiet_io (Some ScopeBus) used_up sample_now ∅) as [d' r].
  destruct Hr as [Hok (h & Hh & _)].
  - by right.
  - done.
  - by split; vm_compute.
  - exact E.
  - destruct (of_error_terms _ _ _ _ _ E) as (scopes & until & Ht & _ & Hs & _).
    vm_compute in Ht. injection Ht as <- <- <-. apply bool_decide_eq_true, Hs. right. by left.
  - by vm_compute.
  - split; [exact Hok|]. by exists h.
Defined.

(** Its throttle, with the probe due. *)
Definition due_throttle : Throttle :=
  MkThrottle ["sync"] (stamp_secs (HiveClock := sample_hive_clock) (sample_now + secs 7200)) "used up"
    (Some (stamp_secs (HiveClock := sample_hive_clock) sample_now)).
Definition due_file : gmap string dir_entry :=
  {[THROTTLE_FILE := Bytes (to_vec (JsonText := tree_json) (throttles_value {["quota:transfer_bytes" := due_throttle]}))]}.

Lemma one_probe_an_hour_witness :
  ∃ d', @check sample_hive_clock tree_json quiet_io ScopeSync sample_now due_file = (d', Ok ())
        ∧ ∃ h, @check sample_hive_clock tree_json quiet_io ScopeSync (sample_now + secs 1800) d'
               = (d', Err (refusal h)).
Proof.
  set (m := {["quota:transfer_bytes" := due_throttle]} : gmap string Throttle).
  assert (@throttles_are tree_json m due_file) as Hm by (left; apply lookup_singleton_eq).
  destruct (check_cases (H := sample_hive_clock) (JL := tree_json_laws) quiet_io ScopeSync sample_now m due_file Hm)
    as [[Hnot _]|[[Hnot _]|(_ & _ & d' & Hd' & _)]].
  - destruct Hnot. exists "quota:transfer_bytes", due_throttle. split; [apply lookup_singleton_eq|].
    split; vm_compute; reflexivity.
  - destruct Hnot. intros key t [<- <-]%lookup_singleton_Some _ _. split; vm_compute; reflexivity.
  - exists d'. split; [exact Hd'|].
    destruct (one_probe_an_hour (CL := sample_hive_clock_laws) (JL := tree_json_laws) quiet_io ScopeSync sample_now
      m due_file d' "quota:transfer_bytes" due_throttle) as [[_ Hlater]|[Hno _]].
    + exact Hm.
    + split; vm_compute; discriminate.
    + apply lookup_singleton_eq.
    + vm_compute; reflexivity.
    + vm_compute; reflexivity.
    + exact Hd'.
    + destruct (Hlater quiet_io (sample_now + secs 1800)) as (h & Hh & _);
        [vm_compute; reflexivity|vm_compute; reflexivity|]. by exists h.
    + destruct Hno. split; reflexivity.
Defined.
