(* ===== verification/HiveThrottlePaths.v ===== *)
(** * Which throttle holds which path

    Every throttle the client ever records is a quota's, or the policy hold of
    one path; so a call that passes can tell its own from the others by the key. *)
From S2P Require Import Prelude BTree Text Json HiveError HiveErrorFacts.
From S2P Require Import HiveState HiveOutbox HiveThrottle HiveThrottleFacts.
#[local] Open Scope Z_scope.

(** ** Keys *)
Lemma string_length_app s t : String.length (s +:+ t) = (String.length s + String.length t)%nat.
Proof. pose proof (str_len_app s t). unfold str_len in *. lia. Qed.

Lemma ends_with_spec s t : ends_with s t = true ↔ ∃ r, s = r +:+ t.
Proof.
  unfold ends_with. rewrite andb_true_iff, Nat.leb_le, bool_decide_eq_true. split.
  - intros [Hl Hd]. exists (String.substring 0 (String.length s - String.length t) s).
    revert Hd. generalize (String.length s - String.length t)%nat as n. clear Hl. intros n <-.
    revert n. induction s as [|a s IH]; intros [|n]; [done..|].
    change (String a s = String a (String.substring 0 n s +:+ drop_bytes n s)). by rewrite <-IH.
  - intros [r ->]. rewrite string_length_app. split; [lia|].
    replace (_ - _)%nat with (String.length r) by lia. apply drop_bytes_app.
Qed.

(** Of two suffixes of a string one is a suffix of the other. *)
Lemma suffix_chain r s x t : r +:+ s = x +:+ t → (String.length t ≤ String.length s)%nat → ∃ y, s = y +:+ t.
Proof.
  revert x. induction r as [|a r IH]; intros x E Hl.
  - exists x. exact E.
  - destruct x as [|b x].
    + apply (f_equal String.length) in E. change ("" +:+ t) with t in E.
      change (String a r +:+ s) with (String a (r +:+ s)) in E. cbn in E. rewrite string_length_app in E. lia.
    + injection E as _ E. by eapply IH.
Qed.

Lemma scope_suffix_same member scope scope' :
  ends_with (member +:+ ":" +:+ scope_str scope) (":" +:+ scope_str scope') = true → scope = scope'.
Proof.
  intros [r E]%ends_with_spec.
  assert (∃ y, (":" +:+ scope_str scope = y +:+ ":" +:+ scope_str scope')
               ∨ (":" +:+ scope_str scope' = y +:+ ":" +:+ scope_str scope)) as [y Hy].
  { destruct (le_ge_dec (String.length (":" +:+ scope_str scope')) (String.length (":" +:+ scope_str scope))).
    - destruct (suffix_chain _ _ _ _ E ltac:(lia)) as [y Hy]. eauto.
    - symmetry in E. destruct (suffix_chain _ _ _ _ E ltac:(lia)) as [y Hy]. eauto. }
  destruct scope, scope'; try reflexivity; exfalso; destruct Hy as [Hy|Hy];
    repeat (destruct y as [|? y]; [discriminate Hy|]; injection Hy as _ Hy); destruct y; discriminate Hy.
Qed.

Lemma scope_str_inj scope scope' : scope_str scope = scope_str scope' → scope = scope'.
Proof. by destruct scope, scope'. Qed.

(** A throttle recorded by the client. *)
Definition policy_key (key : string) (t : Throttle) (scope : Scope) : Prop :=
  (∃ member, key = ("policy:" +:+ member) +:+ ":" +:+ scope_str scope) ∧ th_scopes t = [scope_str scope].
Definition known_scopes (l : list string) : Prop := l ≠ [] ∧ ∀ x, x ∈ l → ∃ scope, x = scope_str scope.
Definition quota_entry (key : string) (t : Throttle) : Prop :=
  (∃ r, key = "quota:" +:+ r) ∧ known_scopes (th_scopes t).
Definition keyed (m : gmap string Throttle) : Prop :=
  ∀ key t, m !! key = Some t → quota_entry key t ∨ ∃ scope, policy_key key t scope.

Lemma quota_key r : is_quota ("quota:" +:+ r) = true ∧ is_policy ("quota:" +:+ r) = false.
Proof. split; [apply starts_with_spec; by exists r|done]. Qed.
Lemma policy_not_quota key t scope : policy_key key t scope → is_quota key = false ∧ is_policy key = true.
Proof.
  intros [[member ->] _]. rewrite append_assoc. split; [done|]. apply starts_with_spec. by eexists.
Qed.

Lemma policy_key_scope key t scope scope' : policy_key key t scope →
  held_by_policy scope' key = bool_decide (scope = scope').
Proof.
  intros Hp. pose proof (policy_not_quota _ _ _ Hp) as [_ Hpol]. unfold held_by_policy. rewrite Hpol. cbn [andb].
  destruct Hp as [[member ->] _]. case_bool_decide as E.
  - subst. apply ends_with_spec. by eexists.
  - apply not_true_iff_false. by intros ?%scope_suffix_same.
Qed.

Section paths.
Context `{HiveClock}.

Lemma of_error_keyed scope e now key t : of_error scope e now = Some (key, t) →
  quota_entry key t ∨ ∃ scope, policy_key key t scope.
Proof.
  unfold of_error. destruct (terms scope e now) as [[[k scopes] until]|] eqn:Ht; [|done]. cbn.
  case_bool_decide as Hne; [done|]. intros [= <- <-]. destruct e; try discriminate Ht; cbn in Ht.
  - left. split.
    + destruct (waits q); [injection Ht as <- _ _; by eexists|].
      destruct (cooling_slot q); [|done]. destruct (qt_reset_at q) as [at_|]; [|done]. cbn in Ht.
      destruct (parse_rfc3339 at_); [|done]. cbn in Ht. injection Ht as <- _ _. by eexists.
    + split; [exact Hne|]. intros x (sc & -> & _)%elem_of_dedup_sort%list_elem_of_fmap. by exists sc.
  - right. destruct scope as [s|]; [|done]. cbn in Ht. injection Ht as <- <- _. exists s.
    split; [|done]. exists (default "unknown" (dn_member d)). by rewrite append_assoc.
Qed.

(** ** What an operation can do to the throttles *)
Definition keeps_keyed (edit : gmap string Throttle → gmap string Throttle) : Prop :=
  ∀ m, keyed m → keyed (edit m).

Lemma retain_keyed p : keeps_keyed (retain p).
Proof. intros m Hm key t [Hk _]%retain_lookup. by apply Hm. Qed.

Lemma keyed_same_scopes (f : Throttle → Throttle) key : (∀ t, th_scopes (f t) = th_scopes t) →
  keeps_keyed (alter f key).
Proof.
  intros Hf m Hm k t Hk. destruct (decide (k = key)) as [->|Hne].
  - rewrite lookup_alter_eq in Hk. destruct (m !! key) as [t'|] eqn:E; [|done]. injection Hk as <-.
    destruct (Hm _ _ E) as [[Hq Hs]|(scope & Hkey & Hs)]; [left; split; [done|by rewrite Hf]|right].
    exists scope. split; [done|]. by rewrite Hf.
  - rewrite lookup_alter_ne in Hk by done. by apply Hm.
Qed.

Context `{JL : JsonTextLaws}.

(** An operation that leaves the recorded throttles, or edits them as it should. *)
Definition tidy (d : gmap string dir_entry) : Prop := ∃ m, throttles_are m d ∧ keyed m.

Lemma change_tidy io edit d : keeps_keyed edit → tidy d → tidy (change_quietly io edit d).1.
Proof.
  intros He (m & Hm & Hk). destruct (change_throttles io edit m d Hm) as (d' & -> & [Hm'|[-> _]]).
  - exists (edit m). split; [done|]. by apply He.
  - by exists m.
Qed.

Lemma note_on_tidy io scope e now d : tidy d → tidy (note_on io scope e now d).1.
Proof.
  intros Hd. unfold note_on. destruct (of_error scope e now) as [[key t]|] eqn:E; [|done].
  set (edit := λ m : gmap string Throttle, <[key := t]> (retain (λ _ v, active_at v now) m)).
  assert (keeps_keyed edit) as He.
  { intros m Hm k t' Hk. unfold edit in Hk. apply lookup_insert_Some in Hk as [[<- <-]|[_ Hk]].
    - by eapply of_error_keyed.
    - by eapply retain_keyed. }
  pose proof (change_tidy io edit d He Hd) as Ht.
  destruct (change_quietly io edit d) as [d' r] eqn:Ec.
  assert (r = Ok ()) as -> by (unfold change_quietly in Ec; congruence).
  by rewrite (op_bind_run _ _ _ _ _ Ec).
Qed.

Lemma check_tidy io scope now d : tidy d → tidy (check io scope now d).1.
Proof.
  intros (m & Hm & Hk). unfold check.
  rewrite (op_bind_run _ _ _ _ _ (holding_throttles io scope now m d Hm)).
  destruct (ends_last _); [|by exists m]. rewrite (op_bind_run _ _ _ _ _ (read_throttles io m d Hm)).
  destruct (negb _); [by exists m|]. apply change_tidy; [|by exists m].
  intros m'. generalize (active_on scope now m).*1 as keys. intros keys. revert m'.
  induction keys as [|key keys IH]; intros m' Hm'; [done|]. apply IH. by apply keyed_same_scopes.
Qed.

(** ** A call that passed *)
Lemma quota_lifted_spec io scope m d : throttles_are m d →
  ∃ d', quota_lifted io scope d = (d', Ok ())
        ∧ (throttles_are (retain (λ key v, negb (is_quota key && throttle_holds v scope)) m) d'
           ∨ d' = d ∧ ¬ throttles_change io).
Proof.
  intros Hm. unfold quota_lifted. rewrite (op_bind_run _ _ _ _ _ (read_throttles io m d Hm)).
  apply (guarded_change io (retain (λ key v, negb (is_quota key && throttle_holds v scope)))); [done|].
  apply any_items_false.
Qed.

Lemma keys_dropped io (p : string → bool) m d : throttles_are m d →
  ∃ d', (if any p (bt_keys m) then change_quietly io (retain (λ key _, negb (p key))) else mret ()) d = (d', Ok ())
        ∧ (throttles_are (retain (λ key _, negb (p key)) m) d' ∨ d' = d ∧ ¬ throttles_change io).
Proof. intros Hm. apply (guarded_change io (retain (λ key _, negb (p key)))); [done|]. apply any_keys_false. Qed.

Lemma passed_spec io scope m d : throttles_are m d →
  ∃ d' m', passed io scope d = (d', Ok ()) ∧ throttles_are m' d'
    ∧ (∀ key t, m' !! key = Some t → m !! key = Some t)
    ∧ (∀ key t, m !! key = Some t → held_by_policy scope key = false → throttle_holds t scope = false →
       m' !! key = Some t)
    ∧ (throttles_change io →
       m' = retain (λ key v, negb (is_quota key && throttle_holds v scope))
              (retain (λ key _, negb (held_by_policy scope key)) m)).
Proof.
  intros Hm. unfold passed. rewrite (op_bind_run _ _ _ _ _ (read_throttles io m d Hm)).
  destruct (keys_dropped io (held_by_policy scope) m d Hm) as (d1 & Hd1 & H1).
  rewrite (op_bind_run _ _ _ _ _ Hd1).
  assert (∃ m1, throttles_are m1 d1 ∧ (∀ key t, m1 !! key = Some t → m !! key = Some t)
                ∧ (∀ key t, m !! key = Some t → held_by_policy scope key = false → m1 !! key = Some t)
                ∧ (throttles_change io → m1 = retain (λ key _, negb (held_by_policy scope key)) m))
    as (m1 & Hm1 & Hsub1 & Hkept1 & Heq1).
  { destruct H1 as [H1|[-> Hno]]; [|by exists m].
    eexists. split; [exact H1|]. split; [by intros key t [? _]%retain_lookup|]. split; [|done].
    intros key t Hk Hp. apply retain_lookup. by rewrite Hp. }
  destruct (quota_lifted_spec io scope m1 d1 Hm1) as (d' & Hd' & [H'|[-> Hno]]).
  - exists d'. eexists. split; [exact Hd'|]. split; [exact H'|]. split.
    + intros key t [? _]%retain_lookup. auto.
    + split; [intros key t Hk Hp Hh; apply retain_lookup; split; [auto|by rewrite Hh, andb_false_r]|].
      intros Hio. by rewrite (Heq1 Hio).
  - exists d1, m1. split; [done|]. split; [done|]. split; [done|]. split; [auto|done].
Qed.

Lemma sub_keyed (m m' : gmap string Throttle) :
  keyed m → (∀ key t, m' !! key = Some t → m !! key = Some t) → keyed m'.
Proof. intros Hm Hsub key t Hk. eapply Hm, Hsub, Hk. Qed.

Lemma passed_tidy io scope d : tidy d → tidy (passed io scope d).1.
Proof.
  intros (m & Hm & Hk). destruct (passed_spec io scope m d Hm) as (d' & m' & -> & Hm' & Hsub & _ & _).
  exists m'. split; [done|]. by eapply sub_keyed.
Qed.
End paths.

(** ** Every state the client can leave *)
Inductive hive_call :=
| CallNote (scope : option Scope) (e : HiveError) (now : Z)
| CallCheck (scope : Scope) (now : Z)
| CallPassed (scope : Scope)
| CallQuotaLifted (scope : Scope)
| CallPlanChanged
| CallPolicyChanged
| CallClearConnect.

Section reach.
Context `{HiveClock} `{JL : JsonTextLaws}.

Definition run (io : Io) (box : string → Io) (c : hive_call) (s : Data) : Data :=
  let files d := MkData d (da_outbox s) in
  match c with
  | CallNote scope e now => files (note_on io scope e now (da_files s)).1
  | CallCheck scope now => files (check io scope now (da_files s)).1
  | CallPassed scope => files (passed io scope (da_files s)).1
  | CallQuotaLifted scope => files (quota_lifted io scope (da_files s)).1
  | CallPlanChanged => files (plan_changed io (da_files s)).1
  | CallPolicyChanged => (policy_changed io box s).1
  | CallClearConnect => files (clear_connect io (da_files s)).1
  end.

(** A new data directory, and calls with any answers of the system. *)
Inductive hive_reachable : Data → Prop :=
| reach_new s : da_files s !! THROTTLE_FILE = None → hive_reachable s
| reach_call io box c s : hive_reachable s → hive_reachable (run io box c s).

Lemma plan_changed_tidy io d : tidy d → tidy (plan_changed io d).1.
Proof.
  intros (m & Hm & Hk). unfold plan_changed. rewrite (op_bind_run _ _ _ _ _ (read_throttles io m d Hm)).
  destruct (any is_quota (bt_keys m)); [|by exists m]. apply change_tidy; [apply retain_keyed|by exists m].
Qed.

Lemma policy_changed_tidy io box s : tidy (da_files s) → tidy (da_files (policy_changed io box s).1).
Proof.
  intros (m & Hm & Hk). unfold policy_changed. rewrite (op_bind_run _ _ _ _ _ (read_throttles io m _ Hm)).
  destruct (keys_dropped io is_policy m _ Hm) as (d' & -> & [Hm'|[-> _]]); cbn.
  - eexists. split; [exact Hm'|]. by apply retain_keyed.
  - by exists m.
Qed.

Lemma reachable_tidy s : hive_reachable s → tidy (da_files s).
Proof.
  induction 1 as [s Hs|io box c s _ IH].
  - exists ∅. split; [by right|]. intros key t Hk. by rewrite lookup_empty in Hk.
  - destruct c; cbn.
    + by apply note_on_tidy.
    + by apply check_tidy.
    + by apply passed_tidy.
    + destruct IH as (m & Hm & Hk).
      destruct (quota_lifted_spec io scope m _ Hm) as (d' & -> & [Hm'|[-> _]]); cbn; [|by exists m].
      eexists. split; [exact Hm'|]. by apply retain_keyed.
    + by apply plan_changed_tidy.
    + by apply policy_changed_tidy.
    + apply change_tidy; [apply retain_keyed|done].
Qed.

(** C36: after any calls, with whatever answers of the system, the file of
    throttles is absent or decodes as it was written, and every throttle in it
    is a quota's, on known paths and at least one, or the policy hold of the one
    path its key names; so reading never moves the file aside. *)
Theorem throttles_well_formed io s : hive_reachable s →
  ∃ m, read io (da_files s) = (da_files s, Ok m)
    ∧ ∀ key t, m !! key = Some t →
        (∃ r, key = "quota:" +:+ r) ∧ known_scopes (th_scopes t)
        ∨ ∃ scope member, key = "policy:" +:+ member +:+ ":" +:+ scope_str scope
                          ∧ th_scopes t = [scope_str scope].
Proof.
  intros (m & Hm & Hkeyed)%reachable_tidy. exists m. split; [by apply read_throttles|].
  intros key t [Hq|(scope & [member ->] & Hs)]%Hkeyed; [by left|right].
  exists scope, member. by rewrite append_assoc.
Qed.

Lemma kept_iff_not_held scope m key t : keyed m →
  retain (λ key v, negb (is_quota key && throttle_holds v scope))
    (retain (λ key _, negb (held_by_policy scope key)) m) !! key = Some t
  ↔ m !! key = Some t ∧ throttle_holds t scope = false.
Proof.
  intros Hm. rewrite !retain_lookup. split.
  - intros [[Hk Hp%negb_true_iff] Hq%negb_true_iff]. split; [done|].
    destruct (Hm _ _ Hk) as [[[r ->] _]|[scope' Hpk]]; [by rewrite (proj1 (quota_key r)) in Hq|].
    rewrite (policy_key_scope _ _ _ scope Hpk) in Hp. apply bool_decide_eq_false in Hp.
    unfold throttle_holds. destruct Hpk as [_ ->]. apply bool_decide_eq_false. intros Hin%list_elem_of_singleton.
    by apply Hp, scope_str_inj.
  - intros [Hk Hh]. rewrite Hh, andb_false_r. split; [split; [done|]|done].
    destruct (Hm _ _ Hk) as [[[r ->] _]|[scope' Hpk]].
    + unfold held_by_policy. by rewrite (proj2 (quota_key r)).
    + rewrite (policy_key_scope _ _ _ scope Hpk). apply negb_true_iff, bool_decide_eq_false. intros ->.
      unfold throttle_holds in Hh. destruct Hpk as [_ Hs]. rewrite Hs in Hh. apply bool_decide_eq_false in Hh.
      by apply Hh, list_elem_of_singleton.
Qed.

Lemma policy_held_holds scope m key t : keyed m → m !! key = Some t → throttle_holds t scope = false →
  held_by_policy scope key = false.
Proof.
  intros Hm Hk Hh. destruct (Hm _ _ Hk) as [[[r ->] _]|[scope' Hpk]].
  - unfold held_by_policy. by rewrite (proj2 (quota_key r)).
  - rewrite (policy_key_scope _ _ _ scope Hpk). apply bool_decide_eq_false. intros ->.
    unfold throttle_holds in Hh. destruct Hpk as [_ Hs]. rewrite Hs in Hh. apply bool_decide_eq_false in Hh.
    by apply Hh, list_elem_of_singleton.
Qed.

(** C29: whatever was refused before, and whichever earlier writes failed, after a
    call on a path that succeeded no throttle is recorded that was not before, and
    those that do not hold the path are all still there.  If the passing call's own
    writes went through (the state lock is taken and [throttles.json] written; it
    reports neither failure), the recorded throttles are exactly those that do not
    hold the path, and the next check lets it through at any time; if not, a
    throttle of the path may remain. *)
Theorem passed_frees_path io box scope s : hive_reachable s →
  let s' := run io box (CallPassed scope) s in
  ∃ m m', throttles_are m (da_files s) ∧ throttles_are m' (da_files s')
    ∧ (∀ key t, m' !! key = Some t → m !! key = Some t)
    ∧ (∀ key t, m !! key = Some t → throttle_holds t scope = false → m' !! key = Some t)
    ∧ (throttles_change io →
       (∀ key t, m' !! key = Some t ↔ m !! key = Some t ∧ throttle_holds t scope = false)
       ∧ ∀ io' now, check io' scope now (da_files s') = (da_files s', Ok ())).
Proof.
  intros (m & Hm & Hkeyed)%reachable_tidy. cbn.
  destruct (passed_spec io scope m _ Hm) as (d' & m' & Hp & Hm' & Hsub & Hkept & Heq). rewrite Hp. cbn.
  exists m, m'. split; [done|]. split; [done|]. split; [done|].
  split; [intros key t Hk Hh; apply Hkept; [done|by eapply policy_held_holds|done]|]. intros Hio.
  assert (∀ key t, m' !! key = Some t ↔ m !! key = Some t ∧ throttle_holds t scope = false) as Hiff
    by (intros key t; rewrite (Heq Hio); by apply kept_iff_not_held).
  split; [done|]. intros io' now.
  destruct (check_cases io' scope now m' d' Hm') as [[_ ?]|[(_ & key & h & Hk & Hh & _)|((key & h & Hk & Hh & _) & _)]];
    [done| |]; apply Hiff in Hk as [_ ?]; congruence.
Qed.
End reach.

(** A publish that met the used-up transfer quota, then one that passed. *)
Lemma passed_frees_path_witness :
  let s := @run sample_hive_clock tree_json quiet_io quiet_box (CallNote (Some ScopeBus) used_up sample_now)
             (MkData ∅ ∅) in
  let s' := @run sample_hive_clock tree_json quiet_io quiet_box (CallPassed ScopeBus) s in
  @check sample_hive_clock tree_json quiet_io ScopeBus (sample_now + secs 30) (da_files s') = (da_files s', Ok ()).
Proof.
  intros s s'. destruct (passed_frees_path (H := sample_hive_clock) (JL := tree_json_laws) quiet_io quiet_box
    ScopeBus s) as (m & m' & _ & _ & _ & _ & Hc).
  - apply reach_call, reach_new. done.
  - apply Hc. done.
Defined.

Lemma throttles_well_formed_witness :
  let s := @run sample_hive_clock tree_json quiet_io quiet_box (CallNote (Some ScopeBus) used_up sample_now)
             (MkData ∅ ∅) in
  ∃ m, @read tree_json quiet_io (da_files s) = (da_files s, Ok m).
Proof.
  intros s. destruct (throttles_well_formed (H := sample_hive_clock) (JL := tree_json_laws) quiet_io s)
    as (m & Hm & _); [by apply reach_call, reach_new|].
  by exists m.
Defined.
