(* ===== verification/HiveOutboxFacts.v ===== *)
(** * What the outbox keeps

    Queueing makes room only at the cost of metrics, and within the limits. *)
From S2P Require Import Prelude BTree Text Hex Json HiveError HiveErrorFacts.
From S2P Require Import HiveState HiveOutbox.
#[local] Open Scope Z_scope.

(** ** Items as text *)
Definition item_plain (i : OutboxItem) : Prop :=
  0 ≤ ob_attempts i ≤ u32_max ∧ json_plain (ob_payload i) = true
  ∧ (S (json_depth (ob_payload i)) ≤ MAX_NESTING)%nat.

Lemma value_u32_in_range n : 0 ≤ n ≤ u32_max → value_u32 (VNumber (JPosInt n)) = Some n.
Proof. intros Hn. cbn. by rewrite (proj2 (Z.leb_le _ _) (proj2 Hn)). Qed.

(** What is written of an item is read back. *)
Lemma item_of_value_value i : 0 ≤ ob_attempts i ≤ u32_max → item_of_value (item_value i) = Some i.
Proof.
  intros Hn. pose proof (value_u32_in_range _ Hn) as Hu. cbn [value_u32] in Hu.
  destruct i as [id channel created_at attempts [next|] [last|] [] payload];
    lazy -[Z.leb u32_max] in Hu |- *; rewrite Hu; reflexivity.
Qed.

Lemma item_value_plain i : item_plain i →
  json_plain (item_value i) = true ∧ (json_depth (item_value i) ≤ MAX_NESTING)%nat.
Proof.
  intros (Hn & Hp & Hd).
  destruct (Z.leb_spec 0 (ob_attempts i)); [|lia]. destruct (Z.leb_spec (ob_attempts i) u64_max);
    [|unfold u32_max, u64_max in *; lia].
  destruct i as [id channel created_at attempts [next|] [last|] [] payload]; cbn in *;
    rewrite Hp, !(proj2 (Z.leb_le _ _)) by done; (split; [reflexivity|lia]).
Qed.

(** ** Files of a directory *)
Lemma total_size_app l l' : total_size (l ++ l') = total_size l + total_size l'.
Proof. unfold total_size. induction l as [|p l IH]; cbn in *; lia. Qed.
#[export] Instance total_size_perm : Proper (Permutation ==> eq) total_size.
Proof. unfold total_size. intros l l' H. induction H; cbn in *; lia. Qed.

Section dirs.
Context (io : Io) (Hscan : io_scan io = None).

Lemma elem_of_files d name size :
  (name, size) ∈ files io d ↔ ∃ e, d !! name = Some e ∧ size = entry_size e ∧ ends_with name ".json" = true.
Proof.
  unfold files, scan. rewrite Hscan, list_elem_of_fmap. split.
  - intros ([n e] & [= -> ->] & [Hin Hj]%elem_of_filter_list). apply elem_of_bt_iter in Hin. eauto.
  - intros (e & He & -> & Hj). exists (name, e). split; [done|]. apply elem_of_filter_list.
    split; [by apply elem_of_bt_iter|done].
Qed.

Lemma files_insert d name e : d !! name = None → ends_with name ".json" = true →
  files io (<[name := e]> d) ≡ₚ (name, entry_size e) :: files io d.
Proof.
  intros Hn Hj. unfold files, scan. rewrite Hscan.
  change ((name, entry_size e) :: ?l) with ((λ p, (p.1, entry_size p.2)) (name, e) :: l).
  rewrite <-fmap_cons. apply Permutation_map.
  trans (List.filter (λ p, ends_with p.1 ".json") ((name, e) :: bt_iter d)); [|cbn; by rewrite Hj].
  apply filter_list_perm. rewrite !bt_iter_perm. by apply map_to_list_insert.
Qed.

Lemma files_delete d name e : d !! name = Some e → ends_with name ".json" = true →
  files io d ≡ₚ (name, entry_size e) :: files io (delete name d).
Proof.
  intros He Hj. rewrite <-(insert_delete_id d name e He) at 1. apply files_insert; [apply lookup_delete_eq|done].
Qed.

Lemma files_names d : NoDup (files io d).*1.
Proof.
  unfold files, scan. rewrite Hscan, <-list_fmap_compose.
  assert (∀ l : list (string * dir_entry), NoDup l.*1 →
            NoDup ((fst ∘ λ p, (p.1, entry_size p.2)) <$> List.filter (λ p, ends_with p.1 ".json") l)) as Hf.
  { induction l as [|p l IH]; [done|]. cbn. intros [Hp Hl]%NoDup_cons.
    destruct (ends_with p.1 ".json"); [|by apply IH]. cbn. constructor; [|by apply IH].
    intros (q & Hq & [Hin _]%elem_of_filter_list)%list_elem_of_fmap. apply Hp. cbn in Hq. rewrite Hq.
    by apply list_elem_of_fmap_2. }
  apply Hf, NoDup_bt_keys.
Qed.

Lemma files_sizes d : Forall (λ p, 0 ≤ p.2) (files io d).
Proof.
  apply Forall_forall. intros [name size] (e & _ & -> & _)%elem_of_files. cbn.
  destruct e; [apply str_len_nonneg|cbn; lia].
Qed.

Lemma total_size_nonneg l : Forall (λ p : string * Z, 0 ≤ p.2) l → 0 ≤ total_size l.
Proof. unfold total_size. induction 1; cbn; lia. Qed.
End dirs.

(** ** Making room *)
Lemma elem_of_metrics : CHANNEL_METRICS ∈ CHANNELS.
Proof. right. by left. Qed.

Section room.
Context (io : string → Io).
(** Directories are read and files are removed. *)
Definition files_go (c : string) : Prop := io_scan (io c) = None ∧ ∀ name, io_remove (io c) name = None.

Lemma files_after_removal c (d : gmap string dir_entry) ms k : files_go c → files (io c) d ≡ₚ ms → NoDup ms.*1 →
  files (io c) (foldl (remove_file (io c)) d (take k ms).*1) ≡ₚ drop k ms.
Proof.
  intros [Hscan Hrm]. revert k d. induction ms as [|[name size] ms IH]; intros k d Hms Hnd;
    [by rewrite take_nil, drop_nil|].
  destruct k as [|k]; [done|]. cbn. apply IH; [|by inversion Hnd].
  unfold remove_file. rewrite Hrm.
  assert ((name, size) ∈ files (io c) d) as Hin by (rewrite Hms; by left).
  apply (elem_of_files _ Hscan) in Hin as (e & He & -> & Hj).
  rewrite (files_delete _ Hscan d name e He Hj) in Hms. by apply Permutation_cons_inv in Hms.
Qed.

(** The loop stops as soon as the item fits, and is given the count and the
    bytes of what is left. *)
Lemma give_way_spec channel incoming ms d other others :
  files_go CHANNEL_METRICS → Forall (λ p, 0 ≤ p.2) ms → 0 ≤ others →
  ∃ k r, give_way io channel incoming ms (other + Z.of_nat (length ms)) (others + total_size ms) d
         = (foldl (remove_file (io CHANNEL_METRICS)) d (take k ms).*1, r)
    ∧ (r = Ok ()
       ∧ full (other + Z.of_nat (length (drop k ms))) (others + total_size (drop k ms)) incoming = false
       ∨ r = Err (outbox_full channel) ∧ (length ms ≤ k)%nat ∧ full other others incoming = true).
Proof.
  intros Hgo Hms Hothers. revert d. induction Hms as [|[name size] ms Hsize Hms IH]; intros d; cbn [give_way].
  - destruct (full (other + _) _ _) eqn:Hf.
    + exists 0%nat, (Err (outbox_full channel)). split; [done|]. right. cbn in Hf. rewrite !Z.add_0_r in Hf. done.
    + exists 0%nat, (Ok ()). split; [done|]. by left.
  - destruct (full (other + _) _ _) eqn:Hf; [|exists 0%nat, (Ok ()); split; [done|by left]].
    cbn in Hsize. pose proof (total_size_nonneg ms Hms) as Htot.
    destruct (IH (remove_file (io CHANNEL_METRICS) d name)) as (k & r & Hg & Hr).
    exists (S k), r. split.
    + etrans; [|exact Hg]. f_equal; [cbn; lia|]. unfold saturating_sub, total_size in *. cbn. lia.
    + destruct Hr as [?|(? & ? & ?)]; [by left|right]. split; [done|]. split; [cbn; lia|done].
Qed.

Lemma lookup_removed_all c (d : gmap string dir_entry) names k : files_go c →
  foldl (remove_file (io c)) d names !! k = if bool_decide (k ∈ names) then None else d !! k.
Proof.
  intros [_ Hrm]. revert d. induction names as [|name names IH]; intros d; cbn [foldl].
  - by rewrite bool_decide_eq_false_2 by apply not_elem_of_nil.
  - rewrite IH. unfold remove_file. rewrite Hrm. destruct (decide (k = name)) as [->|Hne].
    + rewrite lookup_delete_eq, (bool_decide_eq_true_2 (name ∈ name :: names)) by by left. by case_bool_decide.
    + rewrite lookup_delete_ne by done. by rewrite (bool_decide_ext (k ∈ name :: names) (k ∈ names)) by set_solver.
Qed.

Lemma dir_at_insert (b : gmap string (gmap string dir_entry)) path d path' :
  dir_at (<[path := d]> b) path' = if bool_decide (path = path') then d else dir_at b path'.
Proof.
  unfold dir_at. case_bool_decide as E; [subst; by rewrite lookup_insert_eq|by rewrite lookup_insert_ne].
Qed.

Lemma pending_files_all b : pending_files io b
  = files (io CHANNEL_KNOWLEDGE) (dir_at b CHANNEL_KNOWLEDGE) ++ files (io CHANNEL_METRICS) (dir_at b CHANNEL_METRICS)
    ++ files (io CHANNEL_RECEIPTS) (dir_at b CHANNEL_RECEIPTS) ++ files (io CHANNEL_TASKS) (dir_at b CHANNEL_TASKS).
Proof. unfold pending_files. cbn. by rewrite app_nil_r. Qed.

(** One more file of a channel is one more pending file. *)
Lemma pending_files_insert c b name e : c ∈ CHANNELS → io_scan (io c) = None →
  dir_at b c !! name = None → ends_with name ".json" = true →
  pending_files io (<[c := <[name := e]> (dir_at b c)]> b) ≡ₚ (name, entry_size e) :: pending_files io b.
Proof.
  intros Hc Hscan Hn Hj. pose proof (files_insert (io c) Hscan (dir_at b c) name e Hn Hj) as Hf.
  rewrite !pending_files_all, !dir_at_insert. unfold CHANNELS in Hc.
  repeat (apply elem_of_cons in Hc as [->|Hc]); [cbn; rewrite Hf; solve_Permutation..|by apply elem_of_nil in Hc].
Qed.

Context (Hgo : ∀ c, c ∈ CHANNELS → files_go c).

(** [make_room] takes the oldest metrics, as many as it must. *)
Lemma make_room_spec channel incoming b :
  ∃ k r b', make_room io channel incoming b = (b', r)
    ∧ b' = <[CHANNEL_METRICS := foldl (remove_file (io CHANNEL_METRICS)) (dir_at b CHANNEL_METRICS)
               (take k (files (io CHANNEL_METRICS) (dir_at b CHANNEL_METRICS))).*1]> b
    ∧ (r = Ok () ∧ full (Z.of_nat (length (pending_files io b'))) (total_size (pending_files io b')) incoming = false
       ∨ r = Err (outbox_full channel)
         ∧ (length (files (io CHANNEL_METRICS) (dir_at b CHANNEL_METRICS)) ≤ k)%nat).
Proof.
  unfold make_room, in_dir. set (ms := files (io CHANNEL_METRICS) (dir_at b CHANNEL_METRICS)).
  set (rest := files (io CHANNEL_KNOWLEDGE) (dir_at b CHANNEL_KNOWLEDGE)
               ++ files (io CHANNEL_RECEIPTS) (dir_at b CHANNEL_RECEIPTS)
               ++ files (io CHANNEL_TASKS) (dir_at b CHANNEL_TASKS)).
  pose proof (Hgo CHANNEL_METRICS ltac:(right; left)) as Hm.
  assert (∀ c, c ∈ CHANNELS → Forall (λ p, 0 ≤ p.2) (files (io c) (dir_at b c))) as Hsizes
    by (intros c Hc; apply files_sizes, Hgo, Hc).
  assert (0 ≤ total_size rest) as Hrest.
  { apply total_size_nonneg. unfold rest, CHANNELS in *.
    repeat apply Forall_app_2; apply Hsizes; repeat (by left) || right. }
  assert (pending_files io b ≡ₚ rest ++ ms) as Hp
    by (rewrite pending_files_all; subst rest ms; solve_Permutation).
  assert (Z.of_nat (length (pending_files io b)) = Z.of_nat (length rest) + Z.of_nat (length ms)) as ->
    by (rewrite Hp, length_app; lia).
  assert (total_size (pending_files io b) = total_size rest + total_size ms) as ->
    by (rewrite Hp; apply total_size_app).
  destruct (give_way_spec channel incoming ms (dir_at b CHANNEL_METRICS) (Z.of_nat (length rest)) (total_size rest)
    Hm ltac:(apply Hsizes; right; left) Hrest) as (k & r & Hg & Hr). rewrite Hg.
  exists k, r. eexists. split; [done|]. split; [done|]. destruct Hr as [[-> Hfit]|(-> & Hk & _)]; [left|by right].
  split; [done|].
  assert (pending_files io (<[CHANNEL_METRICS := foldl (remove_file (io CHANNEL_METRICS)) (dir_at b CHANNEL_METRICS)
            (take k ms).*1]> b) ≡ₚ rest ++ drop k ms) as Hp'.
  { rewrite pending_files_all, !dir_at_insert. cbn.
    rewrite (files_after_removal CHANNEL_METRICS (dir_at b CHANNEL_METRICS) ms k Hm); [|done|apply files_names, Hm].
    subst rest. solve_Permutation. }
  set (b' := <[CHANNEL_METRICS := _]> b) in *.
  assert (Z.of_nat (length (pending_files io b')) = Z.of_nat (length rest) + Z.of_nat (length (drop k ms))) as ->
    by (rewrite Hp', length_app; lia).
  by assert (total_size (pending_files io b') = total_size rest + total_size (drop k ms)) as ->
    by (rewrite Hp'; apply total_size_app).
Qed.
End room.

(** ** Queueing *)

Section queueing.
Context `{HiveClock} `{JsonText} (io : string → Io) (debug_str : string → string).

(** The text of a new item. *)
Definition new_text (channel : string) (payload : Value) (now : Z) (s : string) : string :=
  to_vec (item_value (new_item channel payload now s)).

(** An [enqueue] that got as far as its item. *)
Lemma enqueue_run channel payload s now b : channel ∈ CHANNELS →
  enqueue io debug_str channel payload (Ok s) now b
  = (make_room io channel (str_len (new_text channel payload now s));;
     in_dir channel (write_private (io channel) (item_file (item_id now s)) (new_text channel payload now s));;
     mret (item_id now s)) b.
Proof.
  intros Hc. unfold enqueue, valid_channel. by rewrite (bool_decide_eq_true_2 _ Hc).
Qed.

Lemma enqueue_refused channel payload random now b :
  channel ∉ CHANNELS ∨ (∀ s, random ≠ Ok s) → (enqueue io debug_str channel payload random now b).1 = b.
Proof.
  intros Hbad. unfold enqueue, valid_channel. case_bool_decide as Hc; [|done].
  destruct Hbad as [?|Hr]; [done|]. by destruct random; try (by destruct (Hr a)).
Qed.

Lemma give_way_only {A} (m : op (gmap string dir_entry) HiveError A) path (b : gmap string (gmap string dir_entry)) path' :
  path' ≠ path → dir_at (in_dir path m b).1 path' = dir_at b path'.
Proof.
  intros Hne. unfold in_dir. destruct (m (dir_at b path)) as [d r]. cbn. rewrite dir_at_insert.
  by rewrite bool_decide_eq_false_2.
Qed.

(** C28: whatever [enqueue] answers, and whatever the system refuses, no queued
    item of knowledge, receipts or tasks and no failed item is dropped or
    changed: only metrics give way. *)
Theorem enqueue_keeps_work channel payload random now b path name e :
  path ≠ CHANNEL_METRICS → dir_at b path !! name = Some e →
  (∀ s, random = Ok s → path = channel → name ≠ item_file (item_id now s)) →
  dir_at (enqueue io debug_str channel payload random now b).1 path !! name = Some e.
Proof.
  intros Hpath He Hnew. destruct (decide (channel ∈ CHANNELS)) as [Hc|Hc];
    [|by rewrite enqueue_refused by by left].
  destruct random as [s| | |]; [|by rewrite enqueue_refused by by right..].
  rewrite enqueue_run by done.
  destruct (make_room io channel (str_len (new_text channel payload now s)) b) as [b1 r1] eqn:Hroom.
  assert (dir_at b1 path !! name = Some e) as He1.
  { rewrite <-He. f_equal. replace b1 with (make_room io channel (str_len (new_text channel payload now s)) b).1
      by by rewrite Hroom. by apply give_way_only. }
  destruct r1 as [[]|why| |]; try (unfold mbind, op_mbind, op_bind; rewrite Hroom; exact He1).
  rewrite (op_bind_run _ _ _ _ _ Hroom).
  unfold in_dir, write_private, mbind, op_mbind, op_bind.
  destruct (io_write _ _); cbn; rewrite dir_at_insert; case_bool_decide as E; subst; try exact He1.
  rewrite lookup_insert_ne; [exact He1|]. intros <-. by apply (Hnew s).
Qed.

Lemma item_file_json id : ends_with (item_file id) ".json" = true.
Proof.
  unfold item_file, ends_with. pose proof (str_len_app id ".json") as Hl. unfold str_len in Hl.
  change (String.length ".json") with 5%nat in *.
  apply andb_true_iff. split; [apply Nat.leb_le; lia|].
  replace (String.length (id +:+ ".json") - 5)%nat with (String.length id) by lia.
  by rewrite drop_bytes_app, bool_decide_eq_true_2.
Qed.

Context (Hgo : ∀ c, c ∈ CHANNELS → files_go io c).

(** An item that was queued is in its channel's directory, and with it the
    outbox is within its 10000 items and 50 MiB, however full it was; of the
    metrics only the oldest are gone. *)
Theorem enqueue_fits channel payload s now b b' id :
  enqueue io debug_str channel payload (Ok s) now b = (b', Ok id) →
  dir_at b channel !! item_file (item_id now s) = None →
  id = item_id now s
  ∧ dir_at b' channel !! item_file id = Some (Bytes (new_text channel payload now s))
  ∧ Z.of_nat (length (pending_files io b')) ≤ MAX_ITEMS
  ∧ total_size (pending_files io b') ≤ MAX_BYTES
  ∧ ∃ k, ∀ name e, dir_at b CHANNEL_METRICS !! name = Some e →
         name ∉ (take k (files (io CHANNEL_METRICS) (dir_at b CHANNEL_METRICS))).*1 →
         dir_at b' CHANNEL_METRICS !! name = Some e.
Proof.
  intros Hq Hfresh. destruct (decide (channel ∈ CHANNELS)) as [Hc|Hc].
  2: { unfold enqueue, valid_channel in Hq. rewrite bool_decide_eq_false_2 in Hq by done. discriminate Hq. }
  rewrite enqueue_run in Hq by done.
  destruct (make_room_spec io Hgo channel (str_len (new_text channel payload now s)) b) as (k & r & b1 & Hroom & Hb1 & Hr).
  destruct Hr as [[-> Hfit]|[-> _]].
  2: { rewrite (op_bind_err _ _ _ _ _ Hroom) in Hq. discriminate Hq. }
  rewrite (op_bind_run _ _ _ _ _ Hroom) in Hq.
  unfold in_dir, write_private, mbind, op_mbind, op_bind in Hq.
  destruct (io_write _ _); [discriminate Hq|]. injection Hq as <- <-.
  assert (∀ name e, dir_at b CHANNEL_METRICS !! name = Some e →
            name ∉ (take k (files (io CHANNEL_METRICS) (dir_at b CHANNEL_METRICS))).*1 →
            dir_at b1 CHANNEL_METRICS !! name = Some e) as Hkept.
  { intros name e He Hk. rewrite Hb1, dir_at_insert, bool_decide_eq_true_2 by done.
    rewrite (lookup_removed_all io CHANNEL_METRICS) by apply (Hgo CHANNEL_METRICS), elem_of_metrics. by rewrite bool_decide_eq_false_2. }
  assert (dir_at b1 channel !! item_file (item_id now s) = None) as Hfresh1.
  { rewrite Hb1, dir_at_insert. case_bool_decide as E; [|done]. subst channel.
    rewrite (lookup_removed_all io CHANNEL_METRICS) by apply (Hgo CHANNEL_METRICS), elem_of_metrics. by case_bool_decide. }
  split; [done|]. split.
  { rewrite dir_at_insert, bool_decide_eq_true_2 by done. apply lookup_insert_eq. }
  unfold full in Hfit. apply orb_false_iff in Hfit as [Hn%Z.ltb_ge Hbytes%Z.ltb_ge].
  pose proof (pending_files_insert io channel b1 _ (Bytes (new_text channel payload now s)) Hc
    (proj1 (Hgo _ Hc)) Hfresh1 (item_file_json _)) as Hp.
  split; [|split].
  - rewrite Hp. cbn [length]. lia.
  - rewrite Hp. cbn in *. lia.
  - exists k. intros name e He Hk. rewrite dir_at_insert. case_bool_decide as E; [|by apply Hkept].
    subst channel. rewrite lookup_insert_ne; [by apply Hkept|]. intros <-. congruence.
Qed.

(** An item that fits in no outbox costs every queued metric before it is
    refused. *)
Lemma oversized_item_drops_metrics channel payload s now b :
  channel ∈ CHANNELS → MAX_BYTES < str_len (new_text channel payload now s) →
  ∃ b', enqueue io debug_str channel payload (Ok s) now b = (b', Err (outbox_full channel))
        ∧ files (io CHANNEL_METRICS) (dir_at b' CHANNEL_METRICS) = [].
Proof.
  intros Hc Hbig. rewrite enqueue_run by done.
  destruct (make_room_spec io Hgo channel (str_len (new_text channel payload now s)) b) as (k & r & b1 & Hroom & Hb1 & Hr).
  pose proof (Hgo _ elem_of_metrics) as Hm. destruct Hr as [[_ Hfit]|[-> Hk]].
  - unfold full in Hfit. apply orb_false_iff in Hfit as [_ Hfit%Z.ltb_ge].
    assert (0 ≤ total_size (pending_files io b1)) as Hpos; [|lia].
    apply total_size_nonneg. rewrite pending_files_all. unfold CHANNELS in Hgo.
    repeat apply Forall_app_2; apply files_sizes, Hgo; set_solver.
  - exists b1. split; [by rewrite (op_bind_err _ _ _ _ _ Hroom)|].
    rewrite Hb1, dir_at_insert, bool_decide_eq_true_2 by done. apply Permutation_nil_r.
    rewrite (files_after_removal io CHANNEL_METRICS _ _ k Hm (Permutation_refl _)) by apply files_names, Hm.
    by rewrite drop_ge.
Qed.
End queueing.

(** ** A first item of knowledge *)
Definition metric_box : gmap string (gmap string dir_entry) :=
  {[CHANNEL_METRICS := {["0000000000001aa.json" := Bytes "m"]};
    CHANNEL_TASKS := {["0000000000002bb.json" := Unreadable 7 "denied"]}]}.
Notation sample_enqueue :=
  (@enqueue sample_hive_clock tree_json quiet_box (λ s, s) CHANNEL_KNOWLEDGE VNull (Ok "r") 5 metric_box).

Lemma enqueue_keeps_work_witness :
  dir_at sample_enqueue.1 CHANNEL_TASKS !! "0000000000002bb.json" = Some (Unreadable 7 "denied").
Proof.
  apply (@enqueue_keeps_work sample_hive_clock tree_json quiet_box (λ s, s) CHANNEL_KNOWLEDGE VNull (Ok "r") 5
    metric_box CHANNEL_TASKS "0000000000002bb.json" (Unreadable 7 "denied")).
  - discriminate.
  - reflexivity.
  - intros s _. discriminate.
Defined.

Lemma enqueue_fits_witness :
  ∃ b' id, sample_enqueue = (b', Ok id)
    ∧ Z.of_nat (length (pending_files quiet_box b')) ≤ 10000
    ∧ total_size (pending_files quiet_box b') ≤ 52428800.
Proof.
  assert (∃ b', sample_enqueue = (b', Ok (@item_id 5 "r"))) as [b' Hq].
  { eexists. unfold enqueue. reflexivity. }
  exists b', (item_id 5 "r"). split; [exact Hq|].
  destruct (@enqueue_fits sample_hive_clock tree_json quiet_box (λ s, s)) with (2 := Hq) as (_ & _ & H1 & H2 & _).
  - intros c _. split; reflexivity.
  - reflexivity.
  - split; [exact H1|exact H2].
Defined.
