(* ===== verification/HiveWaitFacts.v ===== *)
(** * Waiting in the outbox

    How long a failed item waits, and that a newer policy frees those that wait
    for one. *)
From S2P Require Import Prelude BTree Text Hex Json HiveError HiveErrorFacts.
From S2P Require Import HiveState HiveOutbox HiveOutboxFacts.
From S2P Require Import HiveThrottle HiveThrottleFacts HiveThrottlePaths.
#[local] Open Scope Z_scope.

(** ** The length of a wait *)
Lemma backoff_cases attempts : 0 ≤ attempts →
  backoff attempts = 30 ∨ backoff attempts = 60 ∨ backoff attempts = 120 ∨ backoff attempts = 240
  ∨ backoff attempts = 480 ∨ backoff attempts = 960 ∨ backoff attempts = 1920 ∨ backoff attempts = 3600.
Proof.
  intros Ha. unfold backoff, saturating_sub, BACKOFF_START_SECONDS, BACKOFF_MAX_SECONDS.
  set (e := Z.min (Z.max 0 (attempts - 1)) 7).
  assert (e = 0 ∨ e = 1 ∨ e = 2 ∨ e = 3 ∨ e = 4 ∨ e = 5 ∨ e = 6 ∨ e = 7) as He by lia.
  destruct_or! He; rewrite He; vm_compute; tauto.
Qed.

Lemma backoff_grows a a' : 0 ≤ a ≤ a' → backoff a ≤ backoff a'.
Proof.
  intros Ha. unfold backoff, BACKOFF_START_SECONDS, BACKOFF_MAX_SECONDS, saturating_sub.
  rewrite !Z.shiftl_mul_pow2 by lia. apply Z.min_le_compat_r, Z.mul_le_mono_nonneg_l; [lia|].
  apply Z.pow_le_mono_r; lia.
Qed.

Lemma wait_seconds_bounds attempts jitter : 0 ≤ attempts → 0 ≤ jitter →
  backoff attempts ≤ wait_seconds attempts None jitter ≤ backoff attempts + backoff attempts / 4.
Proof.
  intros Ha Hj. unfold wait_seconds, clamp, RETRY_AFTER_MAX_SECONDS.
  pose proof (backoff_cases attempts Ha) as Hb.
  pose proof (Z.div_mod (backoff attempts) 4 ltac:(lia)).
  pose proof (Z.mod_pos_bound (backoff attempts) 4 ltac:(lia)).
  pose proof (Z.mod_pos_bound jitter (backoff attempts / 4 + 1) ltac:(lia)).
  repeat case_match; lia.
Qed.

Lemma wait_seconds_asked attempts s jitter : 0 ≤ s →
  wait_seconds attempts (Some s) jitter = Z.min s RETRY_AFTER_MAX_SECONDS.
Proof.
  intros Hs. unfold wait_seconds, clamp, RETRY_AFTER_MAX_SECONDS, i64_max. repeat case_match; lia.
Qed.

Definition MILLIS : Z := 1000000.

Section waits.
Context `{CL : HiveClockLaws}.

(** An item that failed is not due for its backoff (30 s, doubled with each
    attempt up to an hour) and is due a quarter of it later at most; a
    [Retry-After] is waited out instead, up to seven days whatever the service
    asked; both to the millisecond that is written. *)
Theorem wait_bounded i hold error retry_after jitter now :
  0 ≤ now → now + RETRY_AFTER_MAX_SECONDS * NANOS < YEAR_10000 → 0 ≤ ob_attempts i → 0 ≤ jitter →
  (∀ s, retry_after = Some s → 0 ≤ s) →
  let i' := item_waiting i hold error retry_after jitter now in
  let least := match retry_after with
               | Some s => Z.min s RETRY_AFTER_MAX_SECONDS
               | None => backoff (ob_attempts i')
               end in
  let most := match retry_after with Some _ => least | None => least + least / 4 end in
  (∀ u, u < now + least * NANOS - MILLIS → item_due i' u = false)
  ∧ (∀ u, now + most * NANOS ≤ u → item_due i' u = true)
  ∧ backoff (ob_attempts i) ≤ backoff (ob_attempts i') ≤ BACKOFF_MAX_SECONDS.
Proof.
  intros Hn Hy Ha Hj Hs i' least most.
  assert (0 ≤ ob_attempts i') as Ha' by (cbn; unfold saturating_add, u32_max; lia).
  pose proof (backoff_cases _ Ha') as Hb.
  set (w := wait_seconds (ob_attempts i') retry_after jitter).
  assert (least ≤ w ≤ most ∧ 0 ≤ w ≤ RETRY_AFTER_MAX_SECONDS) as (Hw & Hw7).
  { subst least most w. destruct retry_after as [s|].
    - rewrite wait_seconds_asked by auto. specialize (Hs s eq_refl). unfold RETRY_AFTER_MAX_SECONDS. lia.
    - pose proof (wait_seconds_bounds _ _ Ha' Hj). unfold RETRY_AFTER_MAX_SECONDS.
      pose proof (Z.div_mod (backoff (ob_attempts i')) 4 ltac:(lia)).
      pose proof (Z.mod_pos_bound (backoff (ob_attempts i')) 4 ltac:(lia)). lia. }
  assert (∀ u, item_due i' u = ((now + w * NANOS) / 1000000 * 1000000 <=? u)) as Hdue.
  { intros u. unfold item_due, i', item_waiting. cbn [ob_next_attempt_at mbind option_bind].
    change (saturating_add u32_max (ob_attempts i) 1) with (ob_attempts i'). fold w.
    rewrite parse_stamp_millis; [done|]. unfold NANOS in *. lia. }
  pose proof (Z.div_mod (now + w * NANOS) 1000000 ltac:(lia)).
  pose proof (Z.mod_pos_bound (now + w * NANOS) 1000000 ltac:(lia)).
  split; [|split].
  - intros u Hu. rewrite Hdue. apply Z.leb_gt. unfold MILLIS, NANOS in *. nia.
  - intros u Hu. rewrite Hdue. apply Z.leb_le. unfold NANOS in *. nia.
  - split; [|unfold BACKOFF_MAX_SECONDS; lia].
    unfold i', item_waiting, saturating_add. cbn. unfold backoff, saturating_sub.
    destruct (Z.le_gt_cases (ob_attempts i) u32_max) as [Hle|Hgt].
    + apply backoff_grows; lia.
    + unfold u32_max in *. rewrite !Z.shiftl_mul_pow2 by lia.
      replace (Z.min (Z.max 0 (ob_attempts i - 1)) 7) with 7 by lia.
      replace (Z.min (Z.max 0 (Z.min 4294967295 (ob_attempts i + 1) - 1)) 7) with 7 by lia. lia.
Qed.
End waits.

(** ** A newer policy *)
Lemma list_bind_ext_in {A B} (f g : A → list B) l : (∀ x, x ∈ l → f x = g x) → l ≫= f = l ≫= g.
Proof.
  induction l as [|x l IH]; intros H; [done|]. rewrite !bind_cons, (H x) by by left.
  f_equal. apply IH. intros y Hy. apply H. by right.
Qed.

Lemma item_file_inj id id' : item_file id = item_file id' → id = id'.
Proof.
  unfold item_file. revert id'. induction id as [|a s IH]; intros [|b t] E; [done| | |].
  - apply (f_equal str_len) in E. rewrite !str_len_app in E. pose proof (str_len_nonneg t).
    unfold str_len in *. cbn in E. lia.
  - apply (f_equal str_len) in E. rewrite !str_len_app in E. pose proof (str_len_nonneg s).
    unfold str_len in *. cbn in E. lia.
  - injection E as -> E. by rewrite (IH t E).
Qed.

Section release.
Context `{JL : JsonTextLaws} (io : string → Io).

(** The item a file holds. *)
Definition entry_item (e : dir_entry) : option OutboxItem :=
  match e with Bytes s => from_slice s ≫= item_of_value | Unreadable _ _ => None end.
Definition item_at (b : gmap string (gmap string dir_entry)) (c name : string) : option OutboxItem :=
  dir_at b c !! name ≫= entry_item.

(** Every queued file is an item of its channel under its id's name. *)
Definition channel_ok (b : gmap string (gmap string dir_entry)) (c : string) : Prop :=
  ∀ name e, dir_at b c !! name = Some e → ends_with name ".json" = true →
    ∃ i, entry_item e = Some i ∧ name = item_file (ob_id i) ∧ ob_channel i = c ∧ item_plain i.
Definition box_ok (b : gmap string (gmap string dir_entry)) : Prop := ∀ c, c ∈ CHANNELS → channel_ok b c.

(** Directories are read and files are written. *)
Definition writes_go (c : string) : Prop := io_scan (io c) = None ∧ ∀ name, io_write (io c) name = None.

Lemma read_items_all c (d : gmap string dir_entry) names :
  (∀ name, name ∈ names → is_Some (d !! name ≫= entry_item)) →
  read_items (io c) names d = (d, omap (λ name, d !! name ≫= entry_item) names).
Proof.
  induction names as [|name names IH]; intros Hall; [done|]. cbn [read_items].
  destruct (Hall name ltac:(by left)) as [i Hi].
  assert (read_item (io c) name d = (d, Some i)) as ->.
  { unfold read_item. destruct (d !! name) as [[s|]|]; [|done..].
    change (from_slice s ≫= item_of_value = Some i) in Hi. by rewrite Hi. }
  rewrite IH by (intros n Hn; apply Hall; by right). cbn -[from_slice item_of_value].
  change (match d !! name with Some a => entry_item a | None => None end) with (d !! name ≫= entry_item).
  by rewrite Hi.
Qed.

(** The items [list] gives. *)
Definition items_of (b : gmap string (gmap string dir_entry)) (c : string) : list OutboxItem :=
  omap (item_at b c) (files (io c) (dir_at b c)).*1.

Lemma elem_of_items b c i : channel_ok b c → io_scan (io c) = None →
  i ∈ items_of b c ↔ item_at b c (item_file (ob_id i)) = Some i ∧ ob_channel i = c ∧ item_plain i.
Proof.
  intros Hok Hscan. unfold items_of. rewrite list_elem_of_omap. split.
  - intros (name & ([n size] & -> & Hin)%list_elem_of_fmap & Hi).
    apply (elem_of_files _ Hscan) in Hin as (e & He & _ & Hj).
    destruct (Hok n e He Hj) as (i' & Hi' & -> & Hc & Hp). cbn in Hi. unfold item_at in *. rewrite He in *.
    cbn in Hi |- *. rewrite Hi' in Hi. injection Hi as <-. by rewrite He.
  - intros (Hi & Hc & Hp). exists (item_file (ob_id i)). split; [|done].
    unfold item_at in Hi. destruct (dir_at b c !! _) as [e|] eqn:He; [|done].
    apply list_elem_of_fmap. exists (item_file (ob_id i), entry_size e). split; [done|].
    apply (elem_of_files _ Hscan). exists e. split; [done|]. split; [done|apply item_file_json].
Qed.

Lemma list_items_ok b c : channel_ok b c → io_scan (io c) = None →
  ∃ b', list_items io c b = (b', Ok (items_of b c)) ∧ ∀ path, dir_at b' path = dir_at b path.
Proof.
  intros Hok Hscan. unfold list_items, in_dir. rewrite read_items_all.
  - eexists. split; [done|]. intros path. rewrite dir_at_insert. by case_bool_decide; subst.
  - intros name ([n size] & -> & Hin)%list_elem_of_fmap. apply (elem_of_files _ Hscan) in Hin as (e & He & _ & Hj).
    destruct (Hok n e He Hj) as (i & Hi & _). cbn. rewrite He. by exists i.
Qed.

(** The items of a channel, written back free of their hold. *)
Lemma release_items_ok c items b : writes_go c → (∀ i, i ∈ items → ob_channel i = c) →
  ∃ b', release_items io items b = (b', Ok (length items))
    ∧ (∀ path, path ≠ c → dir_at b' path = dir_at b path)
    ∧ (∀ name, (∀ i, i ∈ items → name ≠ item_file (ob_id i)) → dir_at b' c !! name = dir_at b c !! name)
    ∧ (∀ i, i ∈ items → ∃ i', i' ∈ items ∧ ob_id i' = ob_id i
         ∧ dir_at b' c !! item_file (ob_id i) = Some (Bytes (to_vec (item_value (released i'))))).
Proof.
  intros [_ Hw]. revert b. induction items as [|i items IH]; intros b Hc; cbn [release_items].
  - exists b. repeat split; [done..|]. by intros i ?%elem_of_nil.
  - assert (ob_channel i = c) as Hi by (apply Hc; by left).
    assert (update io (released i) b
            = (<[c := <[item_file (ob_id i) := Bytes (to_vec (item_value (released i)))]> (dir_at b c)]> b, Ok ())) as ->.
    { unfold update, in_dir, write_private. cbn [released ob_channel ob_id]. by rewrite Hi, Hw. }
    set (b1 := <[c := _]> b). destruct (IH b1) as (b' & -> & Hother & Hsame & Hrel); [intros j Hj; apply Hc; by right|].
    exists b'. split; [done|]. split; [|split].
    + intros path Hp. rewrite Hother by done. subst b1. rewrite dir_at_insert. by rewrite bool_decide_eq_false_2.
    + intros name Hn. rewrite Hsame by (intros j Hj; apply Hn; by right). subst b1.
      rewrite dir_at_insert, bool_decide_eq_true_2 by done. apply lookup_insert_ne.
      apply not_eq_sym, Hn. by left.
    + assert (∀ j, dir_at b' c !! item_file (ob_id j) = dir_at b1 c !! item_file (ob_id j)
                   ∨ ∃ k, k ∈ items ∧ ob_id k = ob_id j) as Hcase.
      { intros j. destruct (decide (Exists (λ k, ob_id k = ob_id j) items)) as [He|He].
        - right. by apply Exists_exists in He.
        - left. apply Hsame. intros k Hk E. apply He, Exists_exists. exists k. split; [done|].
          by apply item_file_inj in E. }
      intros j Hj. destruct (Hcase j) as [E|(k & Hk & Hid)].
      * apply elem_of_cons in Hj as [->|Hj].
        -- exists i. split; [by left|]. split; [done|]. rewrite E. subst b1.
           rewrite dir_at_insert, bool_decide_eq_true_2 by done. apply lookup_insert_eq.
        -- destruct (Hrel j Hj) as (j' & ? & ? & ?). exists j'. split; [by right|done].
      * destruct (Hrel k Hk) as (j' & Hj' & Hid' & Hd). exists j'. split; [by right|].
        rewrite Hid in Hid', Hd. done.
Qed.

Lemma released_plain i : item_plain i → item_plain (released i).
Proof. done. Qed.

Lemma read_back i : item_plain i → entry_item (Bytes (to_vec (item_value i))) = Some i.
Proof.
  intros Hi. destruct (item_value_plain i Hi) as [Hp Hd]. cbn. rewrite (from_slice_to_vec _ Hp Hd).
  apply item_of_value_value, Hi.
Qed.

Definition free (i : OutboxItem) : OutboxItem := if ob_policy_hold i then released i else i.

(** One channel: its items are free, every other directory is as before. *)
Lemma release_channel_ok c b : channel_ok b c → writes_go c →
  ∃ b' b1, list_items io c b = (b1, Ok (items_of b c))
    ∧ release_items io (List.filter ob_policy_hold (items_of b c)) b1
      = (b', Ok (length (List.filter ob_policy_hold (items_of b c))))
    ∧ channel_ok b' c
    ∧ (∀ name, ends_with name ".json" = true → item_at b' c name = free <$> item_at b c name)
    ∧ (∀ path, path ≠ c → dir_at b' path = dir_at b path).
Proof.
  intros Hok Hgo. pose proof Hgo as [Hscan _]. destruct (list_items_ok b c Hok Hscan) as (b1 & Hl & Hb1).
  set (path_held := List.filter ob_policy_hold (items_of b c)).
  assert (∀ i, i ∈ path_held ↔ item_at b c (item_file (ob_id i)) = Some i ∧ ob_channel i = c ∧ item_plain i
                          ∧ ob_policy_hold i = true) as Hheld.
  { intros i. unfold path_held. rewrite elem_of_filter_list, (elem_of_items b c i Hok Hscan). tauto. }
  destruct (release_items_ok c path_held b1 Hgo) as (b' & Hr & Hother & Hsame & Hrel); [intros i Hi; by apply Hheld in Hi as (_ & ? & _)|].
  assert (∀ name e i, dir_at b c !! name = Some e → entry_item e = Some i → name = item_file (ob_id i) →
            item_plain i → ob_channel i = c →
            if ob_policy_hold i then dir_at b' c !! name = Some (Bytes (to_vec (item_value (released i))))
            else dir_at b' c !! name = Some e) as Hafter.
  { intros name e i He Hi -> Hp Hc.
    assert (item_at b c (item_file (ob_id i)) = Some i) as Hat by (unfold item_at; by rewrite He).
    destruct (ob_policy_hold i) eqn:Hhold.
    - destruct (Hrel i) as (i' & Hi' & Hid & Hd); [by apply Hheld|]. apply Hheld in Hi' as (Hat' & _).
      rewrite Hid, Hat in Hat'. injection Hat' as <-. exact Hd.
    - rewrite Hsame, Hb1; [done|]. intros j Hj E. apply Hheld in Hj as (Hat' & _ & _ & Hj).
      rewrite <-E, Hat in Hat'. injection Hat' as <-. congruence. }
  exists b', b1. split; [done|]. split; [done|]. split; [|split].
  - intros name e' He' Hj. destruct (dir_at b c !! name) as [e|] eqn:He.
    + destruct (Hok name e He Hj) as (i & Hi & Hname & Hc & Hp).
      specialize (Hafter name e i He Hi Hname Hp Hc). destruct (ob_policy_hold i) eqn:Hhold.
      * rewrite He' in Hafter. injection Hafter as ->. exists (released i). split; [by apply read_back|done].
      * rewrite He' in Hafter. injection Hafter as ->. by exists i.
    + exfalso. rewrite Hsame, Hb1, He in He'; [done|]. intros j Hj' ->. apply Hheld in Hj' as (Hat & _).
      unfold item_at in Hat. by rewrite He in Hat.
  - intros name Hj. unfold item_at. destruct (dir_at b c !! name) as [e|] eqn:He.
    + destruct (Hok name e He Hj) as (i & Hi & Hname & Hc & Hp).
      specialize (Hafter name e i He Hi Hname Hp Hc). change (Some e ≫= entry_item) with (entry_item e).
      rewrite Hi. change (free <$> Some i) with (Some (free i)). unfold free.
      destruct (ob_policy_hold i); rewrite Hafter; [by apply (read_back (released i))|exact Hi].
    + rewrite Hsame, Hb1, He; [done|]. intros j Hj' ->. apply Hheld in Hj' as (Hat & _).
      unfold item_at in Hat. by rewrite He in Hat.
  - intros path Hp. by rewrite Hother, Hb1.
Qed.

Lemma release_channels_ok cs b : NoDup cs → (∀ c, c ∈ cs → channel_ok b c ∧ writes_go c) →
  ∃ b' n, release_channels io cs b = (b', Ok n)
    ∧ n = length (cs ≫= λ c, List.filter ob_policy_hold (items_of b c))
    ∧ (∀ c, c ∈ cs → channel_ok b' c
         ∧ ∀ name, ends_with name ".json" = true → item_at b' c name = free <$> item_at b c name)
    ∧ (∀ path, path ∉ cs → dir_at b' path = dir_at b path).
Proof.
  revert b. induction cs as [|c cs IH]; intros b Hnd Hok.
  - exists b, 0%nat. split; [done|]. split; [done|]. split; [by intros c ?%elem_of_nil|done].
  - apply NoDup_cons in Hnd as [Hnew Hnd]. destruct (Hok c ltac:(by left)) as [Hc Hgo].
    destruct (release_channel_ok c b Hc Hgo) as (b2 & b1 & Hl & Hr & Hok2 & Hitems & Hother).
    assert (∀ c', c' ∈ cs → dir_at b2 c' = dir_at b c') as Hsame by (intros c' Hc'; apply Hother; congruence).
    destruct (IH b2 Hnd) as (b' & n & Hrest & Hn & Hdone & Hleft).
    { intros c' Hc'. destruct (Hok c' ltac:(by right)) as [Hok' ?]. split; [|done].
      unfold channel_ok. rewrite (Hsame c' Hc'). exact Hok'. }
    assert (dir_at b' c = dir_at b2 c) as Hstay by by apply Hleft.
    eexists b', _. split; [|split; [|split]].
    + cbn [release_channels]. rewrite (op_bind_run _ _ _ _ _ Hl), (op_bind_run _ _ _ _ _ Hr).
      rewrite (op_bind_run _ _ _ _ _ Hrest). reflexivity.
    + cbn. rewrite length_app, Hn. f_equal. f_equal. apply list_bind_ext_in.
      intros c' Hc'. unfold items_of, item_at. by rewrite (Hsame c' Hc').
    + intros c' [->|Hc']%elem_of_cons.
      * unfold channel_ok, item_at. rewrite Hstay. split; [exact Hok2|exact Hitems].
      * destruct (Hdone c' Hc') as [? Hi]. split; [done|]. intros name Hj. rewrite Hi by done.
        unfold item_at. by rewrite (Hsame c' Hc').
    + intros path [Hne Hp]%not_elem_of_cons. rewrite Hleft by done. by apply Hother.
Qed.

Lemma NoDup_channels : NoDup CHANNELS.
Proof. apply (bool_decide_unpack _). vm_compute. exact I. Qed.

(** Every queued item that waited for a policy is free, on every channel, and
    counted; no other item changes. *)
Lemma policy_release_frees b : box_ok b → (∀ c, c ∈ CHANNELS → writes_go c) →
  ∃ b' n, release_policy_holds io b = (b', Ok n)
    ∧ n = length (CHANNELS ≫= λ c, List.filter ob_policy_hold (items_of b c))
    ∧ box_ok b'
    ∧ (∀ c name i, c ∈ CHANNELS → ends_with name ".json" = true → item_at b c name = Some i →
         if ob_policy_hold i
         then ∃ i', item_at b' c name = Some i' ∧ ob_policy_hold i' = false ∧ ob_payload i' = ob_payload i
                    ∧ ∀ `{HiveClock} now, item_due i' now = true
         else item_at b' c name = Some i)
    ∧ (∀ path, path ∉ CHANNELS → dir_at b' path = dir_at b path).
Proof.
  intros Hok Hgo. destruct (release_channels_ok CHANNELS b NoDup_channels) as (b' & n & Hr & Hn & Hdone & Hleft).
  { intros c Hc. split; [by apply Hok|by apply Hgo]. }
  exists b', n. split; [done|]. split; [done|]. split; [intros c Hc; by apply Hdone|]. split; [|done].
  intros c name i Hc Hj Hi. destruct (Hdone c Hc) as [_ Hfree]. specialize (Hfree name Hj). rewrite Hi in Hfree.
  cbn in Hfree. unfold free in Hfree. destruct (ob_policy_hold i); [|done].
  exists (released i). done.
Qed.
End release.

(** ** A refused draft *)
Definition sample_item (hold : bool) : OutboxItem :=
  MkItem "01" CHANNEL_KNOWLEDGE "then" 1 (Some "m9000000") None hold VNull.

Lemma wait_bounded_witness :
  let i' := item_waiting (H := sample_hive_clock) (sample_item false) true "refused" (Some u64_max) 0 0 in
  item_due (H := sample_hive_clock) i' (604799 * NANOS) = false ∧ item_due (H := sample_hive_clock) i' (604800 * NANOS) = true.
Proof.
  intros i'. destruct (wait_bounded (CL := sample_hive_clock_laws) (sample_item false) true "refused" (Some u64_max) 0 0)
    as (Hbefore & Hafter & _).
  - lia.
  - vm_compute; reflexivity.
  - vm_compute; discriminate.
  - lia.
  - intros s [= <-]. vm_compute; discriminate.
  - split; [apply Hbefore|apply Hafter]; [vm_compute; reflexivity|vm_compute; discriminate].
Defined.

(** An outbox that holds it. *)
Definition held_box : gmap string (gmap string dir_entry) :=
  {[CHANNEL_KNOWLEDGE :=
      {[item_file "01" := Bytes (to_vec (JsonText := tree_json) (item_value (sample_item true)))]}]}.

Lemma held_box_ok : @box_ok tree_json held_box.
Proof.
  intros c Hc name e He _. unfold dir_at, held_box in He. apply elem_of_cons in Hc as [->|Hc].
  - rewrite lookup_singleton_eq in He. unfold default, from_option, id in He. apply lookup_singleton_Some in He as [<- <-].
    assert (item_plain (sample_item true)) as Hp by (split; [by vm_compute|split; [done|vm_compute; lia]]).
    exists (sample_item true). split; [by apply (read_back (H := tree_json) (JL := tree_json_laws))|done].
  - rewrite lookup_singleton_ne in He; [done|]. intros <-. apply (bool_decide_eq_true_2 _) in Hc.
    vm_compute in Hc. discriminate Hc.
Qed.

(** ** With the throttles *)

Section policy.
Context `{HiveClock} `{JL : JsonTextLaws}.

(** What [policy_changed] drops of the throttles. *)
Lemma policy_dropped io m d : throttles_are m d → keyed m →
  ∃ d' m', (if any is_policy (bt_keys m) then change_quietly io (retain (λ key _, negb (is_policy key))) else mret ()) d
           = (d', Ok ())
    ∧ throttles_are m' d'
    ∧ (∀ key t, m' !! key = Some t → m !! key = Some t)
    ∧ (∀ key t, m !! key = Some t → is_quota key = true → m' !! key = Some t)
    ∧ (throttles_change io → m' = retain (λ key _, is_quota key) m).
Proof.
  intros Hm Hkeyed. destruct (keys_dropped io is_policy m _ Hm) as (d' & Hd' & [Hm'|[-> Hno]]).
  2: { by exists d, m. }
  assert (retain (λ key _, negb (is_policy key)) m = retain (λ key _, is_quota key) m) as E.
  { apply map_eq. intros key. apply option_eq. intros t. rewrite !retain_lookup.
    split; intros [Hk Hp]; (split; [done|]); destruct (Hkeyed _ _ Hk) as [[[r ->] _]|[scope Hpk]].
    - apply quota_key.
    - apply policy_not_quota in Hpk as [_ Hpol]. by rewrite Hpol in Hp.
    - by rewrite (proj2 (quota_key r)).
    - apply policy_not_quota in Hpk as [Hq _]. by rewrite Hq in Hp. }
  rewrite E in Hm'. exists d'. eexists. split; [exact Hd'|]. split; [exact Hm'|].
  split; [by intros key t [? _]%retain_lookup|]. split; [|done]. intros key t Hk Hq. by apply retain_lookup.
Qed.

Lemma policy_changed_run io box s d' m : throttles_are m (da_files s) →
  (if any is_policy (bt_keys m) then change_quietly io (retain (λ key _, negb (is_policy key))) else mret ())
    (da_files s) = (d', Ok ()) →
  policy_changed io box s = (MkData d' (release_policy_holds box (da_outbox s)).1, Ok ()).
Proof. intros Hm Hd'. unfold policy_changed. by rewrite (op_bind_run _ _ _ _ _ (read_throttles io m _ Hm)), Hd'. Qed.

(** C26: when a newer policy is in force, [policy_changed] succeeds whatever
    happened before; what it could write is freed, and a write that fails it does
    not report.  The throttles left are some of those before, all the quotas'
    among them, and exactly the quotas' if the state lock was taken and
    [throttles.json] written.  If the outbox holds only items under their own
    names, its directories are read and its files written, every queued item of
    any channel that waited for a policy is due at once with its payload, and no
    other item, and no file outside the channels, changes. *)
Theorem newer_policy_frees io box s : hive_reachable s →
  ∃ m m' s', throttles_are m (da_files s) ∧ policy_changed io box s = (s', Ok ())
    ∧ throttles_are m' (da_files s')
    ∧ (∀ key t, m' !! key = Some t → m !! key = Some t)
    ∧ (∀ key t, m !! key = Some t → is_quota key = true → m' !! key = Some t)
    ∧ (throttles_change io → m' = retain (λ key _, is_quota key) m)
    ∧ (box_ok (da_outbox s) → (∀ c, c ∈ CHANNELS → writes_go box c) →
       box_ok (da_outbox s')
       ∧ (∀ c name i, c ∈ CHANNELS → ends_with name ".json" = true → item_at (da_outbox s) c name = Some i →
            if ob_policy_hold i
            then ∃ i', item_at (da_outbox s') c name = Some i' ∧ ob_policy_hold i' = false
                       ∧ ob_payload i' = ob_payload i ∧ ∀ now, item_due i' now = true
            else item_at (da_outbox s') c name = Some i)
       ∧ ∀ path, path ∉ CHANNELS → dir_at (da_outbox s') path = dir_at (da_outbox s) path).
Proof.
  intros (m & Hm & Hkeyed)%reachable_tidy.
  destruct (policy_dropped io m _ Hm Hkeyed) as (d' & m' & Hd' & Hm' & Hsub & Hkept & Heq).
  exists m, m', (MkData d' (release_policy_holds box (da_outbox s)).1).
  split; [done|]. split; [by rewrite (policy_changed_run io box s d' m Hm Hd')|].
  do 4 (split; [done|]). intros Hbox Hgo.
  destruct (policy_release_frees box (da_outbox s) Hbox Hgo) as (b' & n & -> & _ & Hok & Hitems & Hleft). cbn.
  split; [done|]. split; [|done].
  intros c name i Hc Hj Hi. specialize (Hitems c name i Hc Hj Hi). destruct (ob_policy_hold i); [|done].
  destruct Hitems as (i' & ? & ? & ? & ?). exists i'. auto.
Qed.
End policy.

(** A data directory with a refused draft. *)
Lemma newer_policy_frees_witness :
  ∃ s' i', @policy_changed tree_json quiet_io quiet_box (MkData ∅ held_box) = (s', Ok ())
    ∧ @item_at tree_json (da_outbox s') CHANNEL_KNOWLEDGE "01.json" = Some i'
    ∧ item_due (H := sample_hive_clock) i' 0 = true.
Proof.
  destruct (@newer_policy_frees sample_hive_clock tree_json tree_json_laws quiet_io quiet_box (MkData ∅ held_box))
    as (m & m' & s' & _ & Hs' & _ & _ & _ & _ & Hbox).
  - apply reach_new. reflexivity.
  - destruct Hbox as (_ & Hitems & _); [exact held_box_ok|intros c _; split; reflexivity|].
    assert (@item_at tree_json held_box CHANNEL_KNOWLEDGE "01.json" = Some (sample_item true)) as Hi.
    { apply (read_back (H := tree_json) (JL := tree_json_laws) (sample_item true)).
      split; [by vm_compute|split; [done|vm_compute; lia]]. }
    destruct (Hitems CHANNEL_KNOWLEDGE "01.json" (sample_item true)) as (i' & Hi' & _ & _ & Hdue).
    + by left.
    + reflexivity.
    + exact Hi.
    + exists s', i'. split; [exact Hs'|]. split; [exact Hi'|apply Hdue].
Defined.
