(* ===== verification/AgentLease.v ===== *)
(** * Agent leases

    [rust/src/core/agent_lease.rs]: which agent may write a path or a symbol,
    for how long, who waits for it, and the two files that every process of the
    machine shares.  Times are milliseconds, given by the caller. *)
From stdpp Require Import sorting.
From S2P Require Import Prelude BTree Text Hashing Json GraphModel.
#[local] Open Scope Z_scope.

Definition AGENT_LEASE_SCHEMA_VERSION : Z := 1.
Definition DEFAULT_MAX_LEASES : Z := 1024.
Definition MAX_LEASE_DURATION_MS : Z := 60 * 60 * 1000.
Definition MAX_RESOURCE_REF_BYTES : Z := 256.
Definition PROJECT_PATH_SCHEME : string := "project-path:".
Definition HIERARCHICAL_PATH_SCHEMES : list string := [PROJECT_PATH_SCHEME; "path:"].
Definition WAITER_TTL_MS : Z := 2 * 60 * 1000.
Definition MAX_CONTENDED_HOLD_MS : Z := 60 * 60 * 1000.
Definition RESERVED_LEASE_REF : string := "reserved-for-waiter".

Inductive AgentLeaseResourceKindV1 := KindPath | KindSymbol | KindWorkGraphNode.
#[export] Instance kind_eq_dec : EqDecision AgentLeaseResourceKindV1.
Proof. solve_decision. Defined.
Definition kind_rank (k : AgentLeaseResourceKindV1) : nat :=
  match k with KindPath => 0 | KindSymbol => 1 | KindWorkGraphNode => 2 end.
#[export] Instance kind_countable : Countable AgentLeaseResourceKindV1.
Proof.
  refine (inj_countable' kind_rank
            (λ n, match n with O => KindPath | S O => KindSymbol | _ => KindWorkGraphNode end) _).
  by intros [].
Defined.

Record AgentLeaseRequestV1 := MkLeaseRequest {
  lr_schema_version : Z;
  lr_lease_request_ref : string;
  lr_resource_kind : AgentLeaseResourceKindV1;
  lr_resource_ref : string;
  lr_owner_agent_id : string;
  lr_duration_ms : Z;
}.
Record AgentLeaseV1 := MkLease {
  al_schema_version : Z;
  al_lease_ref : string;
  al_request : AgentLeaseRequestV1;
  al_expires_at_epoch_ms : Z;
}.
Inductive AgentLeaseAcquireV1 :=
| Granted (lease : AgentLeaseV1)
| HeldBy (owner_agent_id lease_ref : string) (expires_at_epoch_ms : Z).
Inductive AgentLeaseError :=
| LeaseUnsupportedVersion (version : Z)
| LeaseInvalid (why : string)
| LeaseCapacityExceeded (max : Z)
| LeaseNotOwner
| LeaseNotFound
| LeaseExpiredError
| LeaseSerialize (why : string)
| LeaseStoreError (why : string).

Record LeaseWaiterV1 := MkWaiter {
  lw_resource_kind : AgentLeaseResourceKindV1;
  lw_resource_ref : string;
  lw_owner_agent_id : string;
  lw_since_epoch_ms : Z;
  lw_seen_epoch_ms : Z;
}.
Record LeaseFairnessV1 := MkFairness {
  lf_waiters : list LeaseWaiterV1;
  lf_held_since : gmap string Z;
}.
Notation lease_key := (AgentLeaseResourceKindV1 * string)%type (only parsing).
Record AgentLeaseRegistryV1 := MkRegistry {
  rg_leases : gmap (AgentLeaseResourceKindV1 * string) AgentLeaseV1;
  rg_max_leases : Z;
  rg_fairness : LeaseFairnessV1;
}.

(** [leases.iter()]: in the order of kind, then reference. *)
Definition lease_le (p q : lease_key * AgentLeaseV1) : Prop :=
  (kind_rank p.1.1 < kind_rank q.1.1)%nat
  ∨ kind_rank p.1.1 = kind_rank q.1.1 ∧ String.le p.1.2 q.1.2.
#[export] Instance lease_le_dec : RelDecision lease_le.
Proof. intros p q. unfold lease_le. apply _. Defined.
Definition lease_iter (m : gmap (AgentLeaseResourceKindV1 * string) AgentLeaseV1) :
    list (lease_key * AgentLeaseV1) := merge_sort lease_le (map_to_list m).

(** [min_by_key]: the first of the least. *)
Fixpoint min_by {A : Type} (key : A → Z) (l : list A) : option A :=
  match l with
  | [] => None
  | x :: l => match min_by key l with
              | Some y => if key y <? key x then Some y else Some x
              | None => Some x
              end
  end.

(** ** Checks *)
Definition is_graphic (a : Ascii.ascii) : bool := byte_in 33 126 a.
Definition is_scheme_byte (a : Ascii.ascii) : bool := byte_in 97 122 a || byte_in 48 57 a || byte_in 45 45 a.

Definition opaque_ref (label value : string) : exec AgentLeaseError () :=
  '(scheme, identifier) ← ok_or (split_once ":" value)
     (LeaseInvalid (label +:+ " must use scheme:identifier form"));
  reject_if (negb (negb (str_is_empty scheme) && all_bytes is_scheme_byte scheme
                   && (negb (str_is_empty identifier) && (str_len value <=? MAX_RESOURCE_REF_BYTES)
                       && all_bytes is_graphic identifier)))
    (LeaseInvalid ("invalid " +:+ label)).
Definition check_agent_id (value : string) : exec AgentLeaseError () :=
  reject_if (negb (negb (str_is_empty value) && (str_len value <=? 256) && all_bytes is_graphic value))
    (LeaseInvalid "invalid owner_agent_id").
Definition check_duration (duration_ms : Z) : exec AgentLeaseError () :=
  reject_if ((duration_ms =? 0) || (MAX_LEASE_DURATION_MS <? duration_ms))
    (LeaseInvalid ("duration_ms must be between 1 and " +:+ pretty MAX_LEASE_DURATION_MS)).

(** [AgentLeaseRequestV1::validate] *)
Definition request_validate (r : AgentLeaseRequestV1) : exec AgentLeaseError () :=
  reject_if (negb (lr_schema_version r =? AGENT_LEASE_SCHEMA_VERSION))
    (LeaseUnsupportedVersion (lr_schema_version r)) ≫= λ _,
  opaque_ref "lease_request_ref" (lr_lease_request_ref r) ≫= λ _,
  opaque_ref "resource_ref" (lr_resource_ref r) ≫= λ _,
  check_agent_id (lr_owner_agent_id r) ≫= λ _,
  check_duration (lr_duration_ms r).

Definition is_active_at (l : AgentLeaseV1) (now : Z) : bool := now <? al_expires_at_epoch_ms l.

Definition resources_overlap (kind : AgentLeaseResourceKindV1) (held : string)
    (other_kind : AgentLeaseResourceKindV1) (other : string) : bool :=
  bool_decide (kind = other_kind)
  && (bool_decide (held = other)
      || (bool_decide (kind = KindPath)
          && any (λ scheme, starts_with held scheme && starts_with other scheme && path_claims_overlap held other)
               HIERARCHICAL_PATH_SCHEMES)).

(** ** Serialization *)
Definition kind_name (k : AgentLeaseResourceKindV1) : string :=
  match k with KindPath => "path" | KindSymbol => "symbol" | KindWorkGraphNode => "work_graph_node" end.
Definition kind_of_name (s : string) : option AgentLeaseResourceKindV1 :=
  find_first (λ k, bool_decide (kind_name k = s)) [KindPath; KindSymbol; KindWorkGraphNode].
Definition kind_of_value (v : Value) : option AgentLeaseResourceKindV1 := variant_name v ≫= kind_of_name.
Definition number (n : Z) : Value := VNumber (JPosInt n).

(** [#[serde(deny_unknown_fields)]] *)
Definition known_fields (names : list string) (v : Value) : option (list (string * Value)) :=
  f ← struct_fields names v;
  if forallb (λ field, bool_decide (field.1 ∈ names)) f then Some f else None.
Definition value_u16 (v : Value) : option Z :=
  match v with VNumber (JPosInt n) => if n <=? u16_max then Some n else None | _ => None end.

Definition request_names : list string :=
  ["schema_version"; "lease_request_ref"; "resource_kind"; "resource_ref"; "owner_agent_id"; "duration_ms"].
Definition request_value (r : AgentLeaseRequestV1) : Value :=
  VObject [("schema_version", number (lr_schema_version r));
           ("lease_request_ref", VString (lr_lease_request_ref r));
           ("resource_kind", VString (kind_name (lr_resource_kind r)));
           ("resource_ref", VString (lr_resource_ref r));
           ("owner_agent_id", VString (lr_owner_agent_id r));
           ("duration_ms", number (lr_duration_ms r))].
Definition request_of_value (v : Value) : option AgentLeaseRequestV1 :=
  f ← known_fields request_names v;
  schema_version ← assoc "schema_version" f ≫= value_u16;
  lease_request_ref ← assoc "lease_request_ref" f ≫= as_str;
  resource_kind ← assoc "resource_kind" f ≫= kind_of_value;
  resource_ref ← assoc "resource_ref" f ≫= as_str;
  owner_agent_id ← assoc "owner_agent_id" f ≫= as_str;
  duration_ms ← assoc "duration_ms" f ≫= value_u64;
  Some (MkLeaseRequest schema_version lease_request_ref resource_kind resource_ref owner_agent_id duration_ms).

Definition lease_names : list string := ["schema_version"; "lease_ref"; "request"; "expires_at_epoch_ms"].
Definition lease_value (l : AgentLeaseV1) : Value :=
  VObject [("schema_version", number (al_schema_version l)); ("lease_ref", VString (al_lease_ref l));
           ("request", request_value (al_request l)); ("expires_at_epoch_ms", number (al_expires_at_epoch_ms l))].
Definition lease_of_value (v : Value) : option AgentLeaseV1 :=
  f ← known_fields lease_names v;
  schema_version ← assoc "schema_version" f ≫= value_u16;
  lease_ref ← assoc "lease_ref" f ≫= as_str;
  request ← assoc "request" f ≫= request_of_value;
  expires ← assoc "expires_at_epoch_ms" f ≫= value_u64;
  Some (MkLease schema_version lease_ref request expires).

(** [AgentLeaseFileV1]: its version and its leases. *)
Definition as_array {A : Type} (read : Value → option A) (v : Value) : option (list A) :=
  match v with VArray l => mapM read l | _ => None end.
Definition lease_file_value (leases : list AgentLeaseV1) : Value :=
  VObject [("schema_version", number AGENT_LEASE_SCHEMA_VERSION); ("leases", VArray (lease_value <$> leases))].
Definition lease_file_of_value (v : Value) : option (Z * list AgentLeaseV1) :=
  f ← known_fields ["schema_version"; "leases"] v;
  schema_version ← assoc "schema_version" f ≫= value_u16;
  leases ← assoc "leases" f ≫= as_array lease_of_value;
  Some (schema_version, leases).

(** [LeaseWaiterV1] and [LeaseFairnessV1] *)
Definition waiter_names : list string :=
  ["resource_kind"; "resource_ref"; "owner_agent_id"; "since_epoch_ms"; "seen_epoch_ms"].
Definition waiter_value (w : LeaseWaiterV1) : Value :=
  VObject [("resource_kind", VString (kind_name (lw_resource_kind w)));
           ("resource_ref", VString (lw_resource_ref w)); ("owner_agent_id", VString (lw_owner_agent_id w));
           ("since_epoch_ms", number (lw_since_epoch_ms w)); ("seen_epoch_ms", number (lw_seen_epoch_ms w))].
Definition waiter_of_value (v : Value) : option LeaseWaiterV1 :=
  f ← struct_fields waiter_names v;
  resource_kind ← assoc "resource_kind" f ≫= kind_of_value;
  resource_ref ← assoc "resource_ref" f ≫= as_str;
  owner_agent_id ← assoc "owner_agent_id" f ≫= as_str;
  since ← assoc "since_epoch_ms" f ≫= value_u64;
  seen ← assoc "seen_epoch_ms" f ≫= value_u64;
  Some (MkWaiter resource_kind resource_ref owner_agent_id since seen).
Definition times_of_value (v : Value) : option (gmap string Z) :=
  match v with
  | VObject items =>
      items ← mapM (λ item, n ← value_u64 item.2; Some (item.1, n)) items;
      Some (foldl (λ m item, <[item.1 := item.2]> m) ∅ items)
  | _ => None
  end.
Definition fairness_value (f : LeaseFairnessV1) : Value :=
  VObject [("waiters", VArray (waiter_value <$> lf_waiters f));
           ("held_since", VObject ((λ item, (item.1, number item.2)) <$> bt_iter (lf_held_since f)))].
Definition fairness_of_value (v : Value) : option LeaseFairnessV1 :=
  f ← struct_fields ["waiters"; "held_since"] v;
  waiters ← default_field (as_array waiter_of_value) [] f "waiters";
  held_since ← default_field times_of_value ∅ f "held_since";
  Some (MkFairness waiters held_since).

(** ** The registry *)
Definition no_fairness : LeaseFairnessV1 := MkFairness [] ∅.
(** [AgentLeaseRegistryV1::new] and [default] *)
Definition registry_new (max_leases : Z) : AgentLeaseRegistryV1 := MkRegistry ∅ (Z.max max_leases 1) no_fairness.
Definition registry_default : AgentLeaseRegistryV1 := registry_new DEFAULT_MAX_LEASES.
Definition set_leases (m : gmap (AgentLeaseResourceKindV1 * string) AgentLeaseV1) (g : AgentLeaseRegistryV1) :
    AgentLeaseRegistryV1 := MkRegistry m (rg_max_leases g) (rg_fairness g).
Definition set_waiters (l : list LeaseWaiterV1) (g : AgentLeaseRegistryV1) : AgentLeaseRegistryV1 :=
  MkRegistry (rg_leases g) (rg_max_leases g) (MkFairness l (lf_held_since (rg_fairness g))).
Definition set_held_since (m : gmap string Z) (g : AgentLeaseRegistryV1) : AgentLeaseRegistryV1 :=
  MkRegistry (rg_leases g) (rg_max_leases g) (MkFairness (lf_waiters (rg_fairness g)) m).

Definition lease_key_of (r : AgentLeaseRequestV1) : AgentLeaseResourceKindV1 * string :=
  (lr_resource_kind r, lr_resource_ref r).
(** A waiter of this agent for exactly this resource. *)
Definition waits_for (r : AgentLeaseRequestV1) (w : LeaseWaiterV1) : bool :=
  bool_decide (lw_owner_agent_id w = lr_owner_agent_id r)
  && bool_decide (lw_resource_kind w = lr_resource_kind r)
  && bool_decide (lw_resource_ref w = lr_resource_ref r).

Definition waiter_live (now : Z) (w : LeaseWaiterV1) : bool :=
  now <? saturating_add u64_max (lw_seen_epoch_ms w) WAITER_TTL_MS.
Definition remove_expired (now : Z) (g : AgentLeaseRegistryV1) : AgentLeaseRegistryV1 :=
  let leases := filter (λ p, is_active_at p.2 now = true) (rg_leases g) in
  let held := al_lease_ref <$> (lease_iter leases).*2 in
  MkRegistry leases (rg_max_leases g)
    (MkFairness (List.filter (waiter_live now) (lf_waiters (rg_fairness g)))
       (filter (λ p, p.1 ∈ held) (lf_held_since (rg_fairness g)))).

(** [wait] *)
Definition saw (now : Z) (w : LeaseWaiterV1) : LeaseWaiterV1 :=
  MkWaiter (lw_resource_kind w) (lw_resource_ref w) (lw_owner_agent_id w) (lw_since_epoch_ms w) now.
Fixpoint see_first (r : AgentLeaseRequestV1) (now : Z) (l : list LeaseWaiterV1) : option (list LeaseWaiterV1) :=
  match l with
  | [] => None
  | w :: l => if waits_for r w then Some (saw now w :: l) else cons w <$> see_first r now l
  end.
Definition wait (r : AgentLeaseRequestV1) (now : Z) (g : AgentLeaseRegistryV1) : AgentLeaseRegistryV1 :=
  let waiters := lf_waiters (rg_fairness g) in
  match see_first r now waiters with
  | Some waiters => set_waiters waiters g
  | None =>
      if Z.of_nat (length waiters) <? rg_max_leases g then
        set_waiters (waiters ++ [MkWaiter (lr_resource_kind r) (lr_resource_ref r) (lr_owner_agent_id r) now now]) g
      else g
  end.

Definition own_since (r : AgentLeaseRequestV1) (g : AgentLeaseRegistryV1) : Z :=
  default u64_max
    (lw_since_epoch_ms <$> min_by lw_since_epoch_ms (List.filter (waits_for r) (lf_waiters (rg_fairness g)))).
(** Another agent, asked before [since] for what overlaps the request. *)
Definition ahead_of (r : AgentLeaseRequestV1) (since : Z) (w : LeaseWaiterV1) : bool :=
  negb (bool_decide (lw_owner_agent_id w = lr_owner_agent_id r)) && (lw_since_epoch_ms w <? since)
  && resources_overlap (lw_resource_kind w) (lw_resource_ref w) (lr_resource_kind r) (lr_resource_ref r).
Definition waiting_before (r : AgentLeaseRequestV1) (g : AgentLeaseRegistryV1) : option LeaseWaiterV1 :=
  min_by lw_since_epoch_ms (List.filter (ahead_of r (own_since r g)) (lf_waiters (rg_fairness g))).

Definition held_by (l : AgentLeaseV1) : AgentLeaseAcquireV1 :=
  HeldBy (lr_owner_agent_id (al_request l)) (al_lease_ref l) (al_expires_at_epoch_ms l).
(** The lease of another path of the request's namespace that overlaps it. *)
Definition path_conflict (r : AgentLeaseRequestV1) (g : AgentLeaseRegistryV1) : option AgentLeaseV1 :=
  if bool_decide (lr_resource_kind r = KindPath) then
    scheme ← find_first (starts_with (lr_resource_ref r)) HIERARCHICAL_PATH_SCHEMES;
    find_first (λ l, bool_decide (lr_resource_kind (al_request l) = KindPath)
                     && starts_with (lr_resource_ref (al_request l)) scheme
                     && path_claims_overlap (lr_resource_ref (al_request l)) (lr_resource_ref r))
      (lease_iter (rg_leases g)).*2
  else None.

Section registry.
Context `{Blake3} `{JsonText} `{PrettyText}.

(** [compute_lease_ref]: the request and its expiry, as a tuple. *)
Definition compute_lease_ref (r : AgentLeaseRequestV1) (expires : Z) : string :=
  "lease:" +:+ blake3_hex (to_vec (VArray [request_value r; number expires])).

Definition acquire_unfair (r : AgentLeaseRequestV1) (now : Z) :
    op AgentLeaseRegistryV1 AgentLeaseError AgentLeaseAcquireV1 := λ g,
  match rg_leases g !! lease_key_of r with
  | Some existing =>
      (g, Ok (if bool_decide (lr_owner_agent_id (al_request existing) = lr_owner_agent_id r)
                 && bool_decide (lr_lease_request_ref (al_request existing) = lr_lease_request_ref r)
              then Granted existing else held_by existing))
  | None =>
      match path_conflict r g with
      | Some existing => (g, Ok (held_by existing))
      | None =>
          match waiting_before r g with
          | Some w =>
              (g, Ok (HeldBy (lw_owner_agent_id w) RESERVED_LEASE_REF
                        (saturating_add u64_max (lw_seen_epoch_ms w) WAITER_TTL_MS)))
          | None =>
              if rg_max_leases g <=? Z.of_nat (size (rg_leases g)) then
                (g, Err (LeaseCapacityExceeded (rg_max_leases g)))
              else
                let expires := saturating_add u64_max now (lr_duration_ms r) in
                let lease := MkLease AGENT_LEASE_SCHEMA_VERSION (compute_lease_ref r expires) r expires in
                (set_leases (<[lease_key_of r := lease]> (rg_leases g)) g, Ok (Granted lease))
          end
      end
  end.

(** [AgentLeaseRegistryV1::acquire] *)
Definition lease_served (r : AgentLeaseRequestV1) (l : AgentLeaseV1) (now : Z) (g : AgentLeaseRegistryV1) :
    AgentLeaseRegistryV1 :=
  let f := rg_fairness g in
  MkRegistry (rg_leases g) (rg_max_leases g)
    (MkFairness (List.filter (λ w, negb (waits_for r w)) (lf_waiters f))
       (match lf_held_since f !! al_lease_ref l with
        | Some _ => lf_held_since f
        | None => <[al_lease_ref l := now]> (lf_held_since f)
        end)).
Definition acquire (r : AgentLeaseRequestV1) (now : Z) :
    op AgentLeaseRegistryV1 AgentLeaseError AgentLeaseAcquireV1 :=
  lift (request_validate r);;
  modify (remove_expired now);;
  acquired ← acquire_unfair r now;
  match acquired with
  | Granted l => modify (lease_served r l now);; mret acquired
  | HeldBy _ _ _ => modify (wait r now);; mret acquired
  end.

(** [AgentLeaseRegistryV1::release] *)
Definition release (kind : AgentLeaseResourceKindV1) (resource_ref owner lease_ref : string) (now : Z) :
    op AgentLeaseRegistryV1 AgentLeaseError bool :=
  lift (opaque_ref "resource_ref" resource_ref);;
  lift (check_agent_id owner);;
  modify (remove_expired now);;
  g ← get;
  match rg_leases g !! (kind, resource_ref) with
  | None => mret false
  | Some existing =>
      if negb (bool_decide (lr_owner_agent_id (al_request existing) = owner))
         || negb (bool_decide (al_lease_ref existing = lease_ref))
      then lift (Err LeaseNotOwner)
      else modify (λ g, set_leases (delete (kind, resource_ref) (rg_leases g)) g);; mret true
  end.

(** [AgentLeaseRegistryV1::release_fence] *)
Definition of_fence (owner fence : string) (l : AgentLeaseV1) : bool :=
  let r := al_request l in
  bool_decide (lr_owner_agent_id r = owner)
  && (bool_decide (lr_lease_request_ref r = fence) || starts_with (lr_lease_request_ref r) (fence +:+ ":")).
Definition release_fence (owner fence : string) (now : Z) : op AgentLeaseRegistryV1 AgentLeaseError nat :=
  lift (opaque_ref "lease_request_ref" fence);;
  lift (check_agent_id owner);;
  modify (remove_expired now);;
  g ← get;
  let leases := filter (λ p, of_fence owner fence p.2 = false) (rg_leases g) in
  modify (set_leases leases);;
  mret (size (rg_leases g) - size leases)%nat.

(** [AgentLeaseRegistryV1::renew] *)
Definition RENEW_REFUSED : string :=
  "another agent is waiting and this lease reached its maximum hold; it is not renewed and goes to the waiter when it runs out".
Definition renewed (duration_ms now : Z) (l : AgentLeaseV1) : AgentLeaseV1 :=
  let r := al_request l in
  MkLease (al_schema_version l) (al_lease_ref l)
    (MkLeaseRequest (lr_schema_version r) (lr_lease_request_ref r) (lr_resource_kind r) (lr_resource_ref r)
       (lr_owner_agent_id r) duration_ms)
    (saturating_add u64_max now duration_ms).
Definition held_too_long (lease_ref : string) (now : Z) (g : AgentLeaseRegistryV1) : bool :=
  match lf_held_since (rg_fairness g) !! lease_ref with
  | Some since => MAX_CONTENDED_HOLD_MS <=? saturating_sub now since
  | None => false
  end.
Definition renew (kind : AgentLeaseResourceKindV1) (resource_ref owner lease_ref : string) (duration_ms now : Z) :
    op AgentLeaseRegistryV1 AgentLeaseError AgentLeaseV1 :=
  lift (opaque_ref "resource_ref" resource_ref);;
  lift (check_agent_id owner);;
  lift (check_duration duration_ms);;
  g ← get;
  existing ← lift (ok_or (rg_leases g !! (kind, resource_ref)) LeaseNotFound);
  if negb (is_active_at existing now) then
    modify (λ g, set_leases (delete (kind, resource_ref) (rg_leases g)) g);; lift (Err LeaseExpiredError)
  else if negb (bool_decide (lr_owner_agent_id (al_request existing) = owner))
          || negb (bool_decide (al_lease_ref existing = lease_ref))
  then lift (Err LeaseNotOwner)
  else
    modify (remove_expired now);;
    g ← get;
    existing ← lift (expect (rg_leases g !! (kind, resource_ref)));
    lift (reject_if (held_too_long lease_ref now g
                     && bool_decide (is_Some (waiting_before (al_request existing) g)))
            (LeaseInvalid RENEW_REFUSED));;
    modify (λ g, set_leases (<[(kind, resource_ref) := renewed duration_ms now existing]> (rg_leases g)) g);;
    mret (renewed duration_ms now existing).

Definition active_lease_count (now : Z) (g : AgentLeaseRegistryV1) : nat :=
  length (List.filter (λ l, is_active_at l now) (lease_iter (rg_leases g)).*2).

(** The edit of [revoke_shared]. *)
Definition revoke (lease_ref : string) : op AgentLeaseRegistryV1 AgentLeaseError (option AgentLeaseV1) := λ g,
  match find_first (λ p, bool_decide (al_lease_ref p.2 = lease_ref)) (lease_iter (rg_leases g)) with
  | Some (key, _) => (set_leases (delete key (rg_leases g)) g, Ok (rg_leases g !! key))
  | None => (g, Ok None)
  end.

(** ** The files all processes share *)
Record LeaseFiles := MkLeaseFiles { fl_leases : option dir_entry; fl_waiters : option dir_entry }.
(** What the system answers to one call: the error of a step, if it fails. *)
Record LeaseIo := MkLeaseIo {
  li_path : string;                  (* the path of [leases.json] *)
  li_waiters_path : string;          (* [fairness_path] of it *)
  li_dir : option string;            (* [shared_dir], [create_dir_all] *)
  li_lock : option string;           (* [FileLock::acquire] *)
  li_write_leases : option string;   (* [write_atomic] of [leases.json] *)
  li_write_waiters : option string;  (* [write_atomic] of [lease-waiters.json] *)
}.
Definition fail_if (o : option string) : exec AgentLeaseError () :=
  match o with Some why => Err (LeaseStoreError why) | None => Ok () end.

Definition load_fairness (file : option dir_entry) : LeaseFairnessV1 :=
  match file with
  | Some (Bytes s) => default no_fairness (from_slice s ≫= fairness_of_value)
  | _ => no_fairness
  end.
Definition load_registry (path : string) (files : LeaseFiles) : exec AgentLeaseError AgentLeaseRegistryV1 :=
  match fl_leases files with
  | None => Ok registry_default
  | Some (Unreadable _ why) => Err (LeaseStoreError ("read " +:+ path +:+ ": " +:+ why))
  | Some (Bytes s) =>
      '(version, leases) ← ok_or (from_slice s ≫= lease_file_of_value)
         (LeaseStoreError ("lease store is corrupt at " +:+ path +:+ ": " +:+ json_error s));
      reject_if (negb (version =? AGENT_LEASE_SCHEMA_VERSION)) (LeaseUnsupportedVersion version) ≫= λ _,
      Ok (MkRegistry (foldl (λ m l, <[lease_key_of (al_request l) := l]> m) ∅ leases) DEFAULT_MAX_LEASES
            (load_fairness (fl_waiters files)))
  end.

Definition leases_text (g : AgentLeaseRegistryV1) : string := to_string_pretty (lease_file_value (lease_iter (rg_leases g)).*2).
Definition waiters_text (g : AgentLeaseRegistryV1) : string := to_vec (fairness_value (rg_fairness g)).
Definition save_registry (io : LeaseIo) (g : AgentLeaseRegistryV1) : op LeaseFiles AgentLeaseError () :=
  lift (fail_if (String.append ("persist " +:+ li_path io +:+ ": ") <$> li_write_leases io));;
  modify (λ files, MkLeaseFiles (Some (Bytes (leases_text g))) (fl_waiters files));;
  lift (fail_if (String.append ("persist " +:+ li_waiters_path io +:+ ": ") <$> li_write_waiters io));;
  modify (λ files, MkLeaseFiles (fl_leases files) (Some (Bytes (waiters_text g)))).

(** [with_shared_registry]: one call, under the lock of the store. *)
Definition with_shared_registry {T : Type} (io : LeaseIo) (mutate : op AgentLeaseRegistryV1 AgentLeaseError T) :
    op LeaseFiles AgentLeaseError T :=
  lift (fail_if (li_dir io));;
  lift (fail_if (li_lock io));;
  files ← get;
  registry ← lift (load_registry (li_path io) files);
  let '(registry, result) := mutate registry in
  result ← lift result;
  save_registry io registry;;
  mret result.

Definition acquire_shared (io : LeaseIo) (r : AgentLeaseRequestV1) (now : Z) :=
  with_shared_registry io (acquire r now).
Definition release_shared (io : LeaseIo) (kind : AgentLeaseResourceKindV1) (resource_ref owner lease_ref : string)
    (now : Z) := with_shared_registry io (release kind resource_ref owner lease_ref now).
Definition revoke_shared (io : LeaseIo) (lease_ref : string) := with_shared_registry io (revoke lease_ref).
Definition release_fence_shared (io : LeaseIo) (owner fence : string) (now : Z) :=
  with_shared_registry io (release_fence owner fence now).
Definition renew_shared (io : LeaseIo) (kind : AgentLeaseResourceKindV1) (resource_ref owner lease_ref : string)
    (duration_ms now : Z) := with_shared_registry io (renew kind resource_ref owner lease_ref duration_ms now).
End registry.
