(* ===== verification/AgentLeaseFacts.v ===== *)
(** * What a lease excludes

    The store of leases never holds two that overlap, and a lease is its
    holder's until it ends. *)
From stdpp Require Import sorting.
From S2P Require Import Prelude BTree Text Hashing Json GraphModel.
From S2P Require Import AgentLease.
#[local] Open Scope Z_scope.

(** ** Orders *)
#[export] Instance lease_le_total : Total lease_le.
Proof.
  intros p q. unfold lease_le.
  destruct (lt_eq_lt_dec (kind_rank p.1.1) (kind_rank q.1.1)) as [[?|E]|?]; [by left; left| |by right; left].
  destruct (String.le_total p.1.2 q.1.2); [left|right]; by right.
Qed.
#[export] Instance lease_le_trans : Transitive lease_le.
Proof.
  intros p q r. unfold lease_le. intros [?|[? ?]] [?|[? ?]]; try (left; lia).
  right. split; [congruence|]. by etrans.
Qed.

Lemma lease_iter_perm m : lease_iter m ≡ₚ map_to_list m.
Proof. apply merge_sort_Permutation. Qed.
Lemma elem_of_lease_iter m k l : (k, l) ∈ lease_iter m ↔ m !! k = Some l.
Proof. rewrite lease_iter_perm. apply elem_of_map_to_list. Qed.
Lemma elem_of_leases m l : l ∈ (lease_iter m).*2 ↔ ∃ k, m !! k = Some l.
Proof.
  rewrite list_elem_of_fmap. split.
  - intros ([k l'] & -> & Hk%elem_of_lease_iter). by exists k.
  - intros [k Hk%elem_of_lease_iter]. by exists (k, l).
Qed.

Lemma min_by_spec {A} (key : A → Z) l :
  match min_by key l with
  | Some x => x ∈ l ∧ ∀ y, y ∈ l → key x ≤ key y
  | None => l = []
  end.
Proof.
  induction l as [|x l IH]; [done|]. cbn. destruct (min_by key l) as [y|].
  - destruct IH as [Hy Hmin]. destruct (Z.ltb_spec (key y) (key x)).
    + split; [by right|]. intros z [->|Hz]%elem_of_cons; [lia|auto].
    + split; [by left|]. intros z [->|Hz]%elem_of_cons; [lia|]. specialize (Hmin z Hz). lia.
  - subst l. split; [by left|]. intros z ->%list_elem_of_singleton. lia.
Qed.

(** ** Overlap *)
Notation overlap r r' :=
  (resources_overlap (lr_resource_kind r) (lr_resource_ref r) (lr_resource_kind r') (lr_resource_ref r')).

Lemma resources_overlap_spec k s k' s' : resources_overlap k s k' s' = true ↔
  k = k' ∧ (s = s' ∨ k = KindPath ∧ path_claims_overlap s s' = true
            ∧ ∃ scheme, scheme ∈ HIERARCHICAL_PATH_SCHEMES ∧ starts_with s scheme = true ∧ starts_with s' scheme = true).
Proof.
  unfold resources_overlap. rewrite andb_true_iff, orb_true_iff, andb_true_iff, !bool_decide_eq_true, any_true.
  setoid_rewrite andb_true_iff. setoid_rewrite andb_true_iff. naive_solver.
Qed.

Lemma path_claims_overlap_sym s s' : path_claims_overlap s s' = path_claims_overlap s' s.
Proof. apply eq_true_iff_eq. rewrite !path_claims_overlap_spec. tauto. Qed.

Lemma resources_overlap_sym k s k' s' : resources_overlap k s k' s' = resources_overlap k' s' k s.
Proof.
  apply eq_true_iff_eq. rewrite !resources_overlap_spec, (path_claims_overlap_sym s' s). naive_solver.
Qed.

(** A reference is in one namespace at most. *)
Lemma one_scheme s scheme scheme' : scheme ∈ HIERARCHICAL_PATH_SCHEMES → scheme' ∈ HIERARCHICAL_PATH_SCHEMES →
  starts_with s scheme = true → starts_with s scheme' = true → scheme = scheme'.
Proof.
  intros Hs Hs' [r ->]%starts_with_spec H%starts_with_spec. destruct H as [r' E].
  unfold HIERARCHICAL_PATH_SCHEMES, PROJECT_PATH_SCHEME in *. set_unfold.
  destruct Hs as [->|[->|[]]], Hs' as [->|[->|[]]]; done.
Qed.

(** Where no other path conflicts, an overlap is a lease of the same reference. *)
Lemma no_conflict_same r g k l : path_conflict r g = None → rg_leases g !! k = Some l →
  overlap (al_request l) r = true → lease_key_of (al_request l) = lease_key_of r.
Proof.
  intros Hnone Hk [Hkind [Href|(Hpath & Ho & scheme & Hscheme & Hs & Hs')]]%resources_overlap_spec;
    unfold lease_key_of; [by rewrite Hkind, Href|exfalso].
  unfold path_conflict in Hnone. rewrite bool_decide_eq_true_2 in Hnone by congruence.
  destruct (find_first (starts_with (lr_resource_ref r)) HIERARCHICAL_PATH_SCHEMES) as [scheme'|] eqn:Hf.
  - apply find_first_Some in Hf as [Hin Hst].
    rewrite (one_scheme _ _ _ Hscheme Hin Hs' Hst) in Hs.
    change (find_first (λ l, bool_decide (lr_resource_kind (al_request l) = KindPath)
                     && starts_with (lr_resource_ref (al_request l)) scheme'
                     && path_claims_overlap (lr_resource_ref (al_request l)) (lr_resource_ref r))
      (lease_iter (rg_leases g)).*2 = None) in Hnone.
    rewrite find_first_None in Hnone. specialize (Hnone l).
    rewrite (bool_decide_eq_true_2 _ Hpath), Hs, Ho in Hnone. discriminate Hnone.
    apply elem_of_leases. by exists k.
  - rewrite find_first_None in Hf. by rewrite (Hf scheme Hscheme) in Hs'.
Qed.

(** ** Leases that exclude each other *)
Notation leases := (gmap (AgentLeaseResourceKindV1 * string) AgentLeaseV1) (only parsing).

(** Integers of the widths of the fields. *)
Definition request_typed (r : AgentLeaseRequestV1) : Prop :=
  0 ≤ lr_schema_version r ≤ u16_max ∧ 0 ≤ lr_duration_ms r ≤ u64_max.
Definition lease_typed (l : AgentLeaseV1) : Prop :=
  0 ≤ al_schema_version l ≤ u16_max ∧ request_typed (al_request l) ∧ 0 ≤ al_expires_at_epoch_ms l ≤ u64_max.

Record leases_ok (m : leases) : Prop := {
  ok_keys k l : m !! k = Some l → k = lease_key_of (al_request l);
  ok_typed k l : m !! k = Some l → lease_typed l;
  ok_exclusive k l k' l' :
    m !! k = Some l → m !! k' = Some l' → overlap (al_request l) (al_request l') = true → k = k';
}.

Lemma leases_ok_empty : leases_ok ∅.
Proof. split; intros *; rewrite ?lookup_empty; naive_solver. Qed.

Lemma leases_ok_sub (m m' : leases) : leases_ok m → m' ⊆ m → leases_ok m'.
Proof.
  intros [Hk Ht He] Hsub. split.
  - intros k l Hl. eapply Hk, lookup_weaken; eassumption.
  - intros k l Hl. eapply Ht, lookup_weaken; eassumption.
  - intros k l k' l' Hl Hl'. eapply He; eapply lookup_weaken; eassumption.
Qed.

(** A lease over nothing else's resource. *)
Lemma leases_ok_insert (m : leases) l : leases_ok m → lease_typed l →
  (∀ k l', m !! k = Some l' → overlap (al_request l') (al_request l) = true → k = lease_key_of (al_request l)) →
  leases_ok (<[lease_key_of (al_request l) := l]> m).
Proof.
  intros [Hk Ht He] Hl Hfree. split.
  - intros k l' [[<- <-]|[_ ?]]%lookup_insert_Some; [done|by apply Hk].
  - intros k l' [[_ <-]|[_ ?]]%lookup_insert_Some; [done|by eapply Ht].
  - intros k l1 k' l2 [[<- <-]|[Hne H1]]%lookup_insert_Some [[<- <-]|[Hne' H2]]%lookup_insert_Some Ho;
      [done| | |by eapply He].
    + rewrite resources_overlap_sym in Ho. symmetry. by eapply Hfree.
    + by eapply Hfree.
Qed.

Lemma renewed_key d now l : lease_key_of (al_request (renewed d now l)) = lease_key_of (al_request l).
Proof. done. Qed.

Lemma saturating_in_range x y : 0 ≤ x → 0 ≤ y → 0 ≤ saturating_add u64_max x y ≤ u64_max.
Proof. unfold saturating_add, u64_max. lia. Qed.

(** ** What the operations do to the leases *)
Lemma remove_expired_leases now g k l :
  rg_leases (remove_expired now g) !! k = Some l ↔ rg_leases g !! k = Some l ∧ is_active_at l now = true.
Proof. apply map_lookup_filter_Some. Qed.
Lemma remove_expired_sub now g : rg_leases (remove_expired now g) ⊆ rg_leases g.
Proof. apply map_filter_subseteq. Qed.

Section operations.
Context `{Blake3} `{JsonText}.

Lemma request_validate_Ok r u : request_validate r = Ok u →
  lr_schema_version r = 1 ∧ lr_duration_ms r ≠ 0 ∧ lr_duration_ms r ≤ MAX_LEASE_DURATION_MS.
Proof.
  unfold request_validate, check_duration. intros Hr. inv_op Hr.
  apply negb_false_iff, Z.eqb_eq in Hrun. apply orb_false_iff in Hrun4 as [Hd%Z.eqb_neq Hm%Z.ltb_ge]. done.
Qed.

(** [acquire] on registries: what it answers, and the registry it leaves. *)
Inductive acquired (r : AgentLeaseRequestV1) (now : Z) (g : AgentLeaseRegistryV1) :
    AgentLeaseRegistryV1 → AgentLeaseAcquireV1 → Prop :=
| acquired_again l :
    rg_leases g !! lease_key_of r = Some l →
    lr_owner_agent_id (al_request l) = lr_owner_agent_id r →
    lr_lease_request_ref (al_request l) = lr_lease_request_ref r →
    acquired r now g (lease_served r l now g) (Granted l)
| acquired_new :
    rg_leases g !! lease_key_of r = None → path_conflict r g = None → waiting_before r g = None →
    Z.of_nat (size (rg_leases g)) < rg_max_leases g →
    let expires := saturating_add u64_max now (lr_duration_ms r) in
    let l := MkLease AGENT_LEASE_SCHEMA_VERSION (compute_lease_ref r expires) r expires in
    acquired r now g (lease_served r l now (set_leases (<[lease_key_of r := l]> (rg_leases g)) g)) (Granted l)
| acquired_held owner lease_ref expires :
    (∃ l, l ∈ (lease_iter (rg_leases g)).*2 ∧ overlap (al_request l) r = true
          ∧ HeldBy owner lease_ref expires = held_by l)
    ∨ rg_leases g !! lease_key_of r = None ∧ path_conflict r g = None
      ∧ (∃ w, waiting_before r g = Some w ∧ owner = lw_owner_agent_id w ∧ lease_ref = RESERVED_LEASE_REF) →
    acquired r now g (wait r now g) (HeldBy owner lease_ref expires).

Lemma path_conflict_overlaps r g l : path_conflict r g = Some l →
  l ∈ (lease_iter (rg_leases g)).*2 ∧ overlap (al_request l) r = true.
Proof.
  unfold path_conflict. case_bool_decide as Hkind; [|done].
  destruct (find_first (starts_with _) _) as [scheme|] eqn:Hs; [|done]. cbn [mbind option_bind].
  intros [Hin [[Hk%bool_decide_eq_true Hst]%andb_true_iff Ho]%andb_true_iff]%find_first_Some.
  split; [done|]. apply find_first_Some in Hs as [Hsin Hs]. apply resources_overlap_spec.
  split; [congruence|]. right. split; [done|]. split; [done|]. by exists scheme.
Qed.

Lemma overlap_same r r' : lease_key_of r = lease_key_of r' → overlap r r' = true.
Proof. intros [= Hk Hr]. apply resources_overlap_spec. by split; [|left]. Qed.

Lemma leases_ok_live now g : leases_ok (rg_leases g) → leases_ok (rg_leases (remove_expired now g)).
Proof. intros Hok. exact (leases_ok_sub _ _ Hok (remove_expired_sub now g)). Qed.

Lemma acquire_run r now g g' a : leases_ok (rg_leases g) → acquire r now g = (g', Ok a) →
  request_validate r = Ok () ∧ acquired r now (remove_expired now g) g' a.
Proof.
  intros Hok%(leases_ok_live now) Ha. unfold acquire in Ha.
  apply op_bind_Ok in Ha as (? & [] & [-> Hv]%lift_Ok & Ha). split; [done|].
  apply op_bind_Ok in Ha as (? & ? & ->%modify_Ok & Ha).
  apply op_bind_Ok in Ha as (g2 & a2 & Hu & Ha). set (g1 := remove_expired now g) in *.
  assert (g' = (match a2 with Granted l => lease_served r l now | _ => wait r now end) g2 ∧ a = a2) as [-> ->]
    by (destruct a2; inv_op Ha; done). clear Ha.
  unfold acquire_unfair in Hu. destruct (rg_leases g1 !! lease_key_of r) as [l|] eqn:Hl.
  - injection Hu as <- <-. case_bool_decide as Ho; [case_bool_decide as Hr|]; cbn;
      [by eapply acquired_again| |]; (apply acquired_held; left; exists l; split_and!;
      [by apply elem_of_leases; eexists|by apply overlap_same; symmetry; apply (ok_keys _ Hok)|done]).
  - destruct (path_conflict r g1) as [l|] eqn:Hc.
    { injection Hu as <- <-. apply path_conflict_overlaps in Hc as [Hin Ho].
      apply acquired_held. left. by exists l. }
    destruct (waiting_before r g1) as [w|] eqn:Hw.
    { injection Hu as <- <-. apply acquired_held. right. split; [done|]. split; [done|]. by exists w. }
    destruct (Z.leb_spec (rg_max_leases g1) (Z.of_nat (size (rg_leases g1)))); [done|].
    injection Hu as <- <-. by apply acquired_new.
Qed.

(** ** Every call keeps the leases apart *)
Record registry_ok (g : AgentLeaseRegistryV1) : Prop := {
  reg_leases : leases_ok (rg_leases g);
  reg_max : Z.of_nat (size (rg_leases g)) ≤ rg_max_leases g;
}.

Lemma registry_ok_sub g g' : registry_ok g → rg_leases g' ⊆ rg_leases g → rg_max_leases g' = rg_max_leases g →
  registry_ok g'.
Proof.
  intros [Hok Hmax] Hsub Hm. split; [by eapply leases_ok_sub|]. rewrite Hm.
  pose proof (map_subseteq_size (rg_leases g') (rg_leases g) Hsub). lia.
Qed.
Lemma registry_ok_live now g : registry_ok g → registry_ok (remove_expired now g).
Proof. intros Hg. by eapply registry_ok_sub; [exact Hg|apply remove_expired_sub|]. Qed.

(** A method that leaves such a registry when it succeeds. *)
Definition keeps_registry {T : Type} (m : op AgentLeaseRegistryV1 AgentLeaseError T) : Prop :=
  ∀ g g' a, registry_ok g → m g = (g', Ok a) → registry_ok g' ∧ rg_max_leases g' = rg_max_leases g.

Lemma wait_leases r now g :
  rg_leases (wait r now g) = rg_leases g ∧ rg_max_leases (wait r now g) = rg_max_leases g.
Proof. unfold wait. destruct (see_first r now _); [done|]. by destruct (Z.of_nat _ <? _). Qed.

Definition new_lease (r : AgentLeaseRequestV1) (now : Z) : AgentLeaseV1 :=
  let expires := saturating_add u64_max now (lr_duration_ms r) in
  MkLease AGENT_LEASE_SCHEMA_VERSION (compute_lease_ref r expires) r expires.
Lemma new_lease_typed r now : request_typed r → 0 ≤ now → lease_typed (new_lease r now).
Proof. intros Hr Hnow. split; [done|]. split; [done|]. apply saturating_in_range; [done|apply Hr]. Qed.

Lemma acquire_keeps r now : request_typed r → 0 ≤ now → keeps_registry (acquire r now).
Proof.
  intros Hr Hnow g g' a Hg Ha. apply acquire_run in Ha as [_ Ha]; [|by destruct Hg].
  apply (registry_ok_live now) in Hg. change (rg_max_leases g) with (rg_max_leases (remove_expired now g)).
  revert Hg Ha. generalize (remove_expired now g) as g1. intros g1 Hg [l Hl Ho Hq|Hnone Hpc Hwb Hcap ? ?|o lr e _].
  - split; [|done]. by eapply registry_ok_sub.
  - split; [|done]. split; cbn [rg_leases lease_served set_leases rg_max_leases].
    + apply (leases_ok_insert _ (new_lease r now)); [by destruct Hg|by apply new_lease_typed|].
      intros k l' Hk Hov. rewrite (ok_keys _ (reg_leases _ Hg) _ _ Hk). by eapply no_conflict_same.
    + rewrite map_size_insert_None by done. lia.
  - destruct (wait_leases r now g1) as [Hw Hm]. split; [|done]. eapply registry_ok_sub; [done| |done]. by rewrite Hw.
Qed.

Lemma release_keeps kind resource owner lease_ref now : keeps_registry (release kind resource owner lease_ref now).
Proof.
  intros g g' a Hg Ha. apply (registry_ok_live now) in Hg. unfold release in Ha. inv_op Ha.
  destruct (rg_leases _ !! _); [destruct (_ || _)|]; inv_op Hrun2; [|done].
  split; [|done]. eapply registry_ok_sub; [done|apply delete_subseteq|done].
Qed.

Lemma release_fence_keeps owner fence now : keeps_registry (release_fence owner fence now).
Proof.
  intros g g' a Hg Ha. apply (registry_ok_live now) in Hg. unfold release_fence in Ha. inv_op Ha.
  split; [|done]. eapply registry_ok_sub; [done|apply map_filter_subseteq|done].
Qed.

Lemma revoke_keeps lease_ref : keeps_registry (revoke lease_ref).
Proof.
  intros g g' a Hg Ha. unfold revoke in Ha. destruct (find_first _ _) as [[k l]|]; injection Ha as <- <-; [|done].
  split; [|done]. eapply registry_ok_sub; [done|apply delete_subseteq|done].
Qed.

Lemma check_duration_Ok d u : check_duration d = Ok u → 0 ≤ d → 0 < d ≤ MAX_LEASE_DURATION_MS.
Proof.
  unfold check_duration. intros [Hd%Z.eqb_neq Hm%Z.ltb_ge]%reject_if_Ok%orb_false_iff. lia.
Qed.

(** [renew] when it succeeds. *)
Lemma renew_run kind resource owner lease_ref d now g g' l :
  renew kind resource owner lease_ref d now g = (g', Ok l) → ∃ e,
  let live := remove_expired now g in
  rg_leases g !! (kind, resource) = Some e ∧ is_active_at e now = true
  ∧ lr_owner_agent_id (al_request e) = owner ∧ al_lease_ref e = lease_ref
  ∧ check_duration d = Ok () ∧ l = renewed d now e
  ∧ (held_too_long lease_ref now live = true → waiting_before (al_request e) live = None)
  ∧ g' = set_leases (<[(kind, resource) := l]> (rg_leases live)) live.
Proof.
  unfold renew. intros Hr.
  apply op_bind_Ok in Hr as (? & [] & [-> _]%lift_Ok & Hr).
  apply op_bind_Ok in Hr as (? & [] & [-> _]%lift_Ok & Hr).
  apply op_bind_Ok in Hr as (? & [] & [-> Hd]%lift_Ok & Hr).
  apply op_bind_Ok in Hr as (? & ? & [-> ->]%get_Ok & Hr).
  apply op_bind_Ok in Hr as (? & e & [-> He%ok_or_Ok]%lift_Ok & Hr).
  destruct (is_active_at e now) eqn:Hact; cbn [negb] in Hr; [|by inv_op Hr].
  destruct (negb _ || negb _) eqn:Hown; [by inv_op Hr|].
  apply orb_false_iff in Hown as [Ho%negb_false_iff%bool_decide_eq_true Hf%negb_false_iff%bool_decide_eq_true].
  apply op_bind_Ok in Hr as (? & ? & ->%modify_Ok & Hr).
  apply op_bind_Ok in Hr as (? & ? & [-> ->]%get_Ok & Hr).
  apply op_bind_Ok in Hr as (? & e' & [-> He'%expect_Ok]%lift_Ok & Hr).
  apply remove_expired_leases in He' as [He' _]. rewrite He in He'. injection He' as <-.
  apply op_bind_Ok in Hr as (? & [] & [-> Hw%reject_if_Ok]%lift_Ok & Hr).
  apply op_bind_Ok in Hr as (? & ? & ->%modify_Ok & [-> ->]%mret_Ok).
  exists e. split_and!; try done. intros Hlong. rewrite Hlong in Hw. cbn [andb] in Hw.
  apply bool_decide_eq_false in Hw. by apply eq_None_not_Some.
Qed.

Lemma renew_keeps kind resource owner lease_ref d now : 0 ≤ d ≤ u64_max → 0 ≤ now →
  keeps_registry (renew kind resource owner lease_ref d now).
Proof.
  intros Hd Hnow g g' l Hg (e & He & Hact & _ & _ & _ & -> & _ & ->)%renew_run. split; [|done].
  assert (rg_leases (remove_expired now g) !! (kind, resource) = Some e) as He'
    by by apply remove_expired_leases.
  apply (registry_ok_live now) in Hg. revert Hg He'. generalize (remove_expired now g) as g1. intros g1 [Hok Hmax] Hk.
  pose proof (ok_keys _ Hok _ _ Hk) as Hkey. split; cbn [rg_leases set_leases rg_max_leases].
  - rewrite Hkey, <-(renewed_key d now e). apply leases_ok_insert; [done| |].
    + destruct (ok_typed _ Hok _ _ Hk) as (Hv & [Hrv _] & _). split; [done|]. split; [by split|].
      apply saturating_in_range; [done|apply Hd].
    + intros k' l' Hl' Ho. rewrite renewed_key, <-Hkey. exact (ok_exclusive _ Hok _ _ _ _ Hl' Hk Ho).
  - rewrite map_size_insert_Some; [done|by rewrite Hk].
Qed.
End operations.

(** ** The file of the leases *)
Lemma request_of_value_value r : request_typed r → request_of_value (request_value r) = Some r.
Proof.
  intros [[_ Hv%Z.leb_le] [_ Hd%Z.leb_le]]. destruct r as [v q [] ref o d];
    lazy -[Z.leb u16_max u64_max] in Hv, Hd |- *; rewrite Hv; lazy -[Z.leb u16_max u64_max];
    rewrite Hd; reflexivity.
Qed.

Lemma lease_of_value_value l : lease_typed l → lease_of_value (lease_value l) = Some l.
Proof.
  intros ([_ Hv%Z.leb_le] & Hr%request_of_value_value & [_ He%Z.leb_le]). destruct l as [v ref r e].
  unfold lease_of_value, lease_value. cbn [al_schema_version al_lease_ref al_request al_expires_at_epoch_ms] in *.
  revert Hr. generalize (request_value r) as req. intros req Hr.
  lazy -[Z.leb u16_max u64_max request_of_value] in Hv, He, Hr |- *.
  rewrite Hv; lazy -[Z.leb u16_max u64_max request_of_value]. rewrite Hr; lazy -[Z.leb u16_max u64_max].
  rewrite He; reflexivity.
Qed.

Lemma mapM_fmap_id {A B : Type} (read : B → option A) (write : A → B) l :
  (∀ a, a ∈ l → read (write a) = Some a) → mapM read (write <$> l) = Some l.
Proof.
  induction l as [|a l IH]; intros Hl; [done|]. cbn. rewrite Hl by by left. cbn.
  rewrite IH; [done|]. intros b Hb. apply Hl. by right.
Qed.

Lemma number_plain n : 0 ≤ n ≤ u64_max → json_plain (number n) = true.
Proof. intros [? ?]. cbn. by rewrite !(proj2 (Z.leb_le _ _)). Qed.
Lemma u16_in_u64 n : 0 ≤ n ≤ u16_max → 0 ≤ n ≤ u64_max.
Proof. unfold u16_max, u64_max. lia. Qed.

Lemma lease_value_plain l : lease_typed l →
  json_plain (lease_value l) = true ∧ (json_depth (lease_value l) ≤ 2)%nat.
Proof.
  intros (Hv%u16_in_u64%number_plain & [Hrv%u16_in_u64%number_plain Hd%number_plain] & He%number_plain).
  destruct l as [v ref [rv q k kref o d] e]. unfold lease_value, request_value.
  cbn [al_schema_version al_lease_ref al_request al_expires_at_epoch_ms
       lr_schema_version lr_lease_request_ref lr_resource_kind lr_resource_ref lr_owner_agent_id lr_duration_ms] in *.
  cbn [json_plain forallb snd]. rewrite Hv, Hrv, Hd, He. split; [reflexivity|cbn; lia].
Qed.

(** Inserting the leases that are iterated makes the registry's map again. *)
Lemma foldl_lease_iter m : leases_ok m →
  foldl (λ m l, <[lease_key_of (al_request l) := l]> m) ∅ (lease_iter m).*2 = m.
Proof.
  intros Hok.
  assert (∀ (l : list (lease_key * AgentLeaseV1)) (m0 : leases),
            NoDup l.*1 → (∀ p, p ∈ l → p.1 = lease_key_of (al_request p.2)) →
            foldl (λ m l, <[lease_key_of (al_request l) := l]> m) m0 l.*2 = list_to_map l ∪ m0) as Hfold.
  { induction l as [|[k v] l IH]; intros m0 Hl Hkey; cbn; [by rewrite (left_id_L ∅ (∪))|].
    apply NoDup_cons in Hl as [Hk Hl]. rewrite IH; [|done|intros p Hp; apply Hkey; by right].
    pose proof (Hkey (k, v) ltac:(by left)) as E. cbn in E. rewrite <-E.
    rewrite <-insert_union_r; [by rewrite insert_union_l|]. by apply not_elem_of_list_to_map. }
  assert (NoDup (lease_iter m).*1) as Hnd by (rewrite lease_iter_perm; apply NoDup_fst_map_to_list).
  rewrite Hfold; [|done|intros [k l] Hkl%elem_of_lease_iter; by apply (ok_keys _ Hok)].
  rewrite (right_id_L ∅ (∪)). rewrite <-(list_to_map_to_list m) at 2.
  apply list_to_map_proper; [done|]. apply lease_iter_perm.
Qed.

Section files.
Context `{PL : PrettyTextLaws}.

(** The file of these leases, and no file for none. *)
Definition stores (file : option dir_entry) (m : leases) : Prop :=
  match file with
  | None => m = ∅
  | Some (Bytes s) => s = to_string_pretty (lease_file_value (lease_iter m).*2)
  | Some (Unreadable _ _) => False
  end.

Lemma lease_file_read m : leases_ok m →
  from_slice (to_string_pretty (lease_file_value (lease_iter m).*2)) ≫= lease_file_of_value
  = Some (AGENT_LEASE_SCHEMA_VERSION, (lease_iter m).*2).
Proof.
  intros Hok. assert (∀ l, l ∈ (lease_iter m).*2 → lease_typed l) as Ht
    by (intros l [k Hk]%elem_of_leases; by eapply ok_typed).
  revert Ht. generalize (lease_iter m).*2 as l. intros l Ht.
  rewrite from_slice_pretty.
  - cbn [mbind option_bind]. unfold lease_file_of_value, lease_file_value.
    assert (mapM lease_of_value (lease_value <$> l) = Some l) as Hm
      by (apply mapM_fmap_id; intros a Ha; by apply lease_of_value_value, Ht).
    revert Hm. generalize (lease_value <$> l) as vs. intros vs Hm.
    transitivity (leases ← mapM lease_of_value vs; Some (AGENT_LEASE_SCHEMA_VERSION, leases)); [reflexivity|].
    by rewrite Hm.
  - change (true && (forallb json_plain (lease_value <$> l) && true) = true).
    rewrite andb_true_r, andb_true_l. apply forallb_true. intros v (a & -> & Ha)%list_elem_of_fmap.
    by apply lease_value_plain, Ht.
  - change (S (Nat.max 0 (Nat.max (S (foldr (λ v n, Nat.max (json_depth v) n) O (lease_value <$> l))) 0)) ≤ MAX_NESTING)%nat.
    assert (foldr (λ v n, Nat.max (json_depth v) n) O (lease_value <$> l) ≤ 2)%nat; [|unfold MAX_NESTING; lia].
    apply depth_items. intros v (a & -> & Ha)%list_elem_of_fmap. by apply lease_value_plain, Ht.
Qed.

Definition store_ok (files : LeaseFiles) (m : leases) : Prop :=
  stores (fl_leases files) m ∧ leases_ok m ∧ Z.of_nat (size m) ≤ DEFAULT_MAX_LEASES.

Lemma load_store path files m : store_ok files m →
  ∃ f, load_registry path files = Ok (MkRegistry m DEFAULT_MAX_LEASES f).
Proof.
  intros (Hs & Hok & Hsize). unfold load_registry, stores in *.
  destruct (fl_leases files) as [[s|]|]; [subst s|done|subst m; by eexists].
  rewrite lease_file_read by done. cbn [ok_or]. rewrite exec_bind_ret.
  rewrite reject_if_false by reflexivity. rewrite foldl_lease_iter by done. by eexists.
Qed.

Lemma store_ok_registry files m f : store_ok files m → registry_ok (MkRegistry m DEFAULT_MAX_LEASES f).
Proof. intros (_ & Hok & Hsize). by split. Qed.

Lemma save_leases io g files :
  (save_registry io g files).1 = files
  ∨ fl_leases (save_registry io g files).1 = Some (Bytes (leases_text g)).
Proof.
  unfold save_registry. destruct (li_write_leases io) as [why|]; [by left|right].
  by destruct (li_write_waiters io).
Qed.

Lemma store_ok_saved io g files m : store_ok files m → registry_ok g → rg_max_leases g = DEFAULT_MAX_LEASES →
  store_ok (save_registry io g files).1 m ∨ store_ok (save_registry io g files).1 (rg_leases g).
Proof.
  intros Hs [Hok Hsize] Hm. rewrite Hm in Hsize. destruct (save_leases io g files) as [->|E]; [by left|right].
  split; [|done]. by rewrite E.
Qed.

(** A call of the store either leaves the leases or does what its method does. *)
Lemma shared_leaves {T} io (mutate : op AgentLeaseRegistryV1 AgentLeaseError T) files m :
  store_ok files m → keeps_registry mutate →
  let files' := (with_shared_registry io mutate files).1 in
  store_ok files' m
  ∨ ∃ f g' a, mutate (MkRegistry m DEFAULT_MAX_LEASES f) = (g', Ok a) ∧ store_ok files' (rg_leases g').
Proof.
  intros Hs Hkeep. unfold with_shared_registry. destruct (li_dir io); [by left|]. destruct (li_lock io); [by left|].
  do 2 (rewrite (op_bind_run _ _ _ files ()) by done). rewrite (op_bind_run _ _ _ files files) by done.
  destruct (load_store (li_path io) files m Hs) as [f Hf]. rewrite Hf.
  rewrite (op_bind_run _ _ _ files _ eq_refl).
  destruct (mutate (MkRegistry m DEFAULT_MAX_LEASES f)) as [g' [a|e| |]] eqn:Hmut; [|by left..].
  rewrite (op_bind_run _ _ _ files a) by done.
  destruct (Hkeep _ _ _ (store_ok_registry _ _ f Hs) Hmut) as [Hg' Hmax].
  assert (((save_registry io g';; mret a) files).1 = (save_registry io g' files).1) as ->
    by (unfold mbind, op_mbind, op_bind; by destruct (save_registry io g' files) as [? []]).
  destruct (store_ok_saved io g' files m Hs Hg' Hmax) as [?|?]; [by left|right]. by exists f, g', a.
Qed.

Lemma shared_done {T} io (mutate : op AgentLeaseRegistryV1 AgentLeaseError T) files files' a m :
  store_ok files m → keeps_registry mutate → with_shared_registry io mutate files = (files', Ok a) →
  ∃ f g', mutate (MkRegistry m DEFAULT_MAX_LEASES f) = (g', Ok a) ∧ store_ok files' (rg_leases g')
          ∧ fl_waiters files' = Some (Bytes (waiters_text g')).
Proof.
  intros Hs Hkeep Hrun. unfold with_shared_registry in Hrun. inv_op Hrun.
  destruct (load_store (li_path io) files m Hs) as [f Hf]. rewrite Hf in Hrun3. injection Hrun3 as <-.
  destruct (mutate (MkRegistry m DEFAULT_MAX_LEASES f)) as [g' res] eqn:Hmut. inv_op Hrun2.
  destruct (Hkeep _ _ _ (store_ok_registry _ _ f Hs) Hmut) as [[Hok Hsize] Hmax]. rewrite Hmax in Hsize.
  exists f, g'. split; [done|].
  unfold save_registry in *. inv_op Hrun0. split; [|done]. by split.
Qed.
End files.

(** ** The calls of all processes

    Each runs under the lock of the store, whatever the system answers. *)
Inductive LeaseCall :=
| CallAcquire (r : AgentLeaseRequestV1)
| CallRelease (kind : AgentLeaseResourceKindV1) (resource owner lease_ref : string)
| CallReleaseFence (owner fence : string)
| CallRenew (kind : AgentLeaseResourceKindV1) (resource owner lease_ref : string) (duration_ms : Z)
| CallRevoke (lease_ref : string).
Definition call_typed (c : LeaseCall) : Prop :=
  match c with
  | CallAcquire r => request_typed r
  | CallRenew _ _ _ _ d => 0 ≤ d ≤ u64_max
  | _ => True
  end.
(** Whose leases the call is about. *)
Definition spares_lease (c : LeaseCall) (l : AgentLeaseV1) : Prop :=
  match c with
  | CallAcquire _ => True
  | CallRelease _ _ owner _ | CallReleaseFence owner _ | CallRenew _ _ owner _ _ =>
      owner ≠ lr_owner_agent_id (al_request l)
  | CallRevoke lease_ref => lease_ref ≠ al_lease_ref l
  end.

Section calls.
Context `{Blake3} `{PL : PrettyTextLaws}.

Definition shared_call (io : LeaseIo) (c : LeaseCall) (now : Z) (files : LeaseFiles) : LeaseFiles :=
  match c with
  | CallAcquire r => (acquire_shared io r now files).1
  | CallRelease kind resource owner lease_ref => (release_shared io kind resource owner lease_ref now files).1
  | CallReleaseFence owner fence => (release_fence_shared io owner fence now files).1
  | CallRenew kind resource owner lease_ref d => (renew_shared io kind resource owner lease_ref d now files).1
  | CallRevoke lease_ref => (revoke_shared io lease_ref files).1
  end.

(** The files after any calls, from none.  What becomes of the waiters' file
    does not matter. *)
Inductive lease_reachable : LeaseFiles → Prop :=
| reach_none waiters : lease_reachable (MkLeaseFiles None waiters)
| reach_waiters files waiters : lease_reachable files → lease_reachable (MkLeaseFiles (fl_leases files) waiters)
| reach_call files io c now : lease_reachable files → call_typed c → in_range u64_max now →
    lease_reachable (shared_call io c now files).

(** A method that leaves the active leases which [P] holds of. *)
Definition leaves {T} (P : AgentLeaseV1 → Prop) (now : Z) (m : op AgentLeaseRegistryV1 AgentLeaseError T) : Prop :=
  ∀ g g' a k l, leases_ok (rg_leases g) → m g = (g', Ok a) →
    rg_leases g !! k = Some l → is_active_at l now = true → P l → rg_leases g' !! k = Some l.

Lemma acquire_leaves r now : leaves (λ _, True) now (acquire r now).
Proof.
  intros g g' a k l Hok [_ Ha]%acquire_run Hk Hact _; [|done].
  pose proof (proj2 (remove_expired_leases now g k l) (conj Hk Hact)) as Hlive. revert Ha Hlive.
  generalize (remove_expired now g) as g1. intros g1 [|Hnone|] Hlive; [done| |by rewrite (proj1 (wait_leases _ _ _))].
  cbn. rewrite lookup_insert_ne; [done|]. intros <-. by rewrite Hnone in Hlive.
Qed.
Lemma release_leaves kind resource owner lease_ref now :
  leaves (λ l, owner ≠ lr_owner_agent_id (al_request l)) now (release kind resource owner lease_ref now).
Proof.
  intros g g' a k l _ Ha Hk Hact Hne.
  pose proof (proj2 (remove_expired_leases now g k l) (conj Hk Hact)) as Hlive.
  unfold release in Ha. inv_op Ha. destruct (rg_leases _ !! (kind, resource)) as [e|] eqn:He; [|by inv_op Hrun2].
  destruct (negb _ || negb _) eqn:Hown; inv_op Hrun2.
  cbn. rewrite lookup_delete_ne; [done|]. intros <-. rewrite Hlive in He. injection He as ->.
  apply orb_false_iff in Hown as [Ho%negb_false_iff%bool_decide_eq_true _]. by apply Hne.
Qed.
Lemma release_fence_leaves owner fence now :
  leaves (λ l, owner ≠ lr_owner_agent_id (al_request l)) now (release_fence owner fence now).
Proof.
  intros g g' a k l _ Ha Hk Hact Hne.
  pose proof (proj2 (remove_expired_leases now g k l) (conj Hk Hact)) as Hlive.
  unfold release_fence in Ha. inv_op Ha. cbn. apply map_lookup_filter_Some. split; [done|].
  cbn. unfold of_fence. by rewrite bool_decide_eq_false_2 by congruence.
Qed.
Lemma renew_leaves kind resource owner lease_ref d now :
  leaves (λ l, owner ≠ lr_owner_agent_id (al_request l)) now (renew kind resource owner lease_ref d now).
Proof.
  intros g g' a k l _ (e & He & _ & Ho & _ & _ & -> & _ & ->)%renew_run Hk Hact Hne.
  pose proof (proj2 (remove_expired_leases now g k l) (conj Hk Hact)) as Hlive.
  cbn [rg_leases set_leases]. rewrite lookup_insert_ne; [done|]. intros <-.
  rewrite Hk in He. injection He as ->. by apply Hne.
Qed.
Lemma revoke_leaves lease_ref now : leaves (λ l, lease_ref ≠ al_lease_ref l) now (revoke lease_ref).
Proof.
  intros g g' a k l _ Ha Hk _ Hne.
  unfold revoke in Ha. destruct (find_first _ _) as [[k' l']|] eqn:Hf; injection Ha as <- <-; [|done].
  apply find_first_Some in Hf as [Hin%elem_of_lease_iter Href%bool_decide_eq_true]. cbn in *.
  rewrite lookup_delete_ne; [done|]. intros <-. rewrite Hk in Hin. injection Hin as ->. by apply Hne.
Qed.

Lemma shared_leaves_leases {T} io P now (mutate : op AgentLeaseRegistryV1 AgentLeaseError T) files m :
  keeps_registry mutate → leaves P now mutate → store_ok files m →
  ∃ m', store_ok (with_shared_registry io mutate files).1 m'
        ∧ ∀ k l, m !! k = Some l → is_active_at l now = true → P l → m' !! k = Some l.
Proof.
  intros Hkeep Hleave Hs. destruct (shared_leaves io mutate files m Hs Hkeep) as [?|(f & g' & a & Ha & ?)];
    [by exists m|]. exists (rg_leases g'). split; [done|]. intros k l.
  exact (Hleave (MkRegistry m DEFAULT_MAX_LEASES f) g' a k l (proj1 (proj2 Hs)) Ha).
Qed.

(** What a call leaves of the leases [m]. *)
Lemma shared_call_leaves io c now files m : store_ok files m → call_typed c → in_range u64_max now →
  ∃ m', store_ok (shared_call io c now files) m'
        ∧ ∀ k l, m !! k = Some l → is_active_at l now = true → spares_lease c l → m' !! k = Some l.
Proof.
  intros Hs Hc [Hnow _]. destruct c as [r|kind resource owner ref|owner fence|kind resource owner ref d|ref];
    apply shared_leaves_leases; try done.
  - by apply acquire_keeps.
  - apply acquire_leaves.
  - apply release_keeps.
  - apply release_leaves.
  - apply release_fence_keeps.
  - apply release_fence_leaves.
  - by apply renew_keeps.
  - apply renew_leaves.
  - apply revoke_keeps.
  - apply revoke_leaves.
Qed.

Lemma reachable_store files : lease_reachable files → ∃ m, store_ok files m.
Proof.
  induction 1 as [w|files w _ [m IH]|files io c now _ [m IH] Hc Hnow].
  - exists ∅. split; [done|]. split; [apply leases_ok_empty|]. by rewrite map_size_empty.
  - by exists m.
  - destruct (shared_call_leaves io c now files m IH Hc Hnow) as (m' & Hm' & _). by exists m'.
Qed.

Lemma load_store_eq path files m g : store_ok files m → load_registry path files = Ok g → rg_leases g = m.
Proof. intros Hs Hg. destruct (load_store path files m Hs) as [f Hf]. rewrite Hf in Hg. by injection Hg as <-. Qed.

(** C11: After any calls of any processes, whatever failed in them, a lease that
    is granted is in the store for its time, and every lease of the store over
    a resource that overlaps it is that lease: no two agents hold what
    overlaps. *)
Theorem lease_excludes io path files files' r now l :
  lease_reachable files → request_typed r → 0 ≤ now < u64_max →
  acquire_shared io r now files = (files', Ok (Granted l)) →
  lease_key_of (al_request l) = lease_key_of r ∧ lr_owner_agent_id (al_request l) = lr_owner_agent_id r
  ∧ is_active_at l now = true
  ∧ ∃ g, load_registry path files' = Ok g ∧ rg_leases g !! lease_key_of r = Some l
    ∧ ∀ k l', rg_leases g !! k = Some l' → overlap (al_request l') (al_request l) = true → l' = l.
Proof.
  intros [m Hs]%reachable_store Hr [Hnow Hmax] Hrun.
  apply (shared_done io _ files files' _ m Hs (acquire_keeps r now Hr Hnow)) in Hrun as (f & g' & Ha & Hs' & _).
  destruct (load_store path files' _ Hs') as [f' Hload].
  assert (lease_key_of (al_request l) = lease_key_of r ∧ lr_owner_agent_id (al_request l) = lr_owner_agent_id r
          ∧ is_active_at l now = true ∧ rg_leases g' !! lease_key_of r = Some l) as (Hkey & Hown & Hact & Hl).
  { apply acquire_run in Ha as [Hv Ha]; [|apply Hs]. inversion Ha as [l0 Hl Ho _ Eg El|_ _ _ _ e l0 Eg El|]; subst.
    - apply remove_expired_leases in Hl as [Hl Hact]. split_and!; [|done..|].
      + symmetry. by apply (ok_keys m (proj1 (proj2 Hs))).
      + by apply remove_expired_leases.
    - split_and!; [done..| |by apply lookup_insert_eq].
      apply request_validate_Ok in Hv as (_ & Hd & _). destruct Hr as [_ [Hd' _]].
      apply Z.ltb_lt. cbn. unfold e, saturating_add. lia. }
  split_and!; [done..|]. eexists. split; [exact Hload|]. split; [done|]. cbn [rg_leases].
  intros k l' Hk Ho. assert (k = lease_key_of r) as ->; [|congruence].
  by eapply (ok_exclusive _ (proj1 (proj2 Hs'))).
Qed.

(** C20: Until it ends a lease is its holder's: no call of another agent
    changes it or takes it, unless it revokes exactly this lease. *)
Theorem lease_is_kept io path files g k l c now :
  lease_reachable files → load_registry path files = Ok g → rg_leases g !! k = Some l →
  is_active_at l now = true → spares_lease c l →
  call_typed c → in_range u64_max now →
  ∃ g', load_registry path (shared_call io c now files) = Ok g' ∧ rg_leases g' !! k = Some l.
Proof.
  intros [m Hs]%reachable_store Hload Hk Hact Hspare Hc Hnow.
  destruct (shared_call_leaves io c now files m Hs Hc Hnow) as (m' & Hs' & Hleave).
  destruct (load_store path _ m' Hs') as [f Hf]. eexists. split; [exact Hf|]. cbn [rg_leases].
  apply Hleave; [|done..]. by rewrite <-(load_store_eq path files m g Hs Hload).
Qed.
End calls.
