(* ===== verification/AgentLeaseWait.v ===== *)
(** * Waiting for a lease

    A waiter is passed only by those that asked no later, and is served when it
    is first; the files of the leases and of the waiters are the registry in
    memory.  Samples on which the statements about leases are evaluated. *)
From S2P Require Import Prelude BTree Text Hashing Json GraphModel.
From S2P Require Import AgentLease AgentLeaseFacts.
#[local] Open Scope Z_scope.

(** ** Waiting in turn *)
Lemma filter_filter_le {A} (p q : A → bool) l :
  (length (List.filter p (List.filter q l)) ≤ length (List.filter p l))%nat.
Proof.
  induction l as [|x l IH]; [done|]. cbn. destruct (q x); cbn; destruct (p x); cbn; lia.
Qed.
Lemma filter_filter_lt {A} (p q : A → bool) l x : x ∈ l → p x = true → q x = false →
  (length (List.filter p (List.filter q l)) < length (List.filter p l))%nat.
Proof.
  intros Hx Hp Hq. induction l as [|y l IH]; [by apply elem_of_nil in Hx|].
  apply elem_of_cons in Hx as [<-|Hx]; cbn.
  - rewrite Hq, Hp. cbn. pose proof (filter_filter_le p q l). lia.
  - specialize (IH Hx). destruct (q y); cbn; destruct (p y); cbn; lia.
Qed.

Section waiting.
Context `{Blake3} `{JsonText}.

(** A call on the registry; what a failed one did is not saved. *)
Definition saved {T} (m : op AgentLeaseRegistryV1 AgentLeaseError T) (g : AgentLeaseRegistryV1) : AgentLeaseRegistryV1 :=
  match m g with (g', Ok _) => g' | _ => g end.
Definition registry_call (c : LeaseCall) (now : Z) (g : AgentLeaseRegistryV1) : AgentLeaseRegistryV1 :=
  match c with
  | CallAcquire r => saved (acquire r now) g
  | CallRelease kind resource owner lease_ref => saved (release kind resource owner lease_ref now) g
  | CallReleaseFence owner fence => saved (release_fence owner fence now) g
  | CallRenew kind resource owner lease_ref d => saved (renew kind resource owner lease_ref d now) g
  | CallRevoke lease_ref => saved (revoke lease_ref) g
  end.

(** The call gives another agent a new lease over what [r] asks for. *)
Definition passes (r : AgentLeaseRequestV1) (c : LeaseCall) (now : Z) (g : AgentLeaseRegistryV1) : bool :=
  match c with
  | CallAcquire r' =>
      negb (bool_decide (lr_owner_agent_id r' = lr_owner_agent_id r)) && overlap r' r
      && bool_decide (rg_leases (remove_expired now g) !! lease_key_of r' = None)
      && match acquire r' now g with (_, Ok (Granted _)) => true | _ => false end
  | _ => false
  end.
(** Another agent that asked no later than [since] for what overlaps [r]. *)
Definition in_line (r : AgentLeaseRequestV1) (since : Z) (w : LeaseWaiterV1) : bool :=
  (lw_since_epoch_ms w <=? since) && negb (bool_decide (lw_owner_agent_id w = lr_owner_agent_id r))
  && resources_overlap (lw_resource_kind w) (lw_resource_ref w) (lr_resource_kind r) (lr_resource_ref r).
Definition line (r : AgentLeaseRequestV1) (since : Z) (g : AgentLeaseRegistryV1) : nat :=
  length (List.filter (in_line r since) (lf_waiters (rg_fairness g))).
(** The place of the agent of [r], which it still keeps. *)
Definition in_place (r : AgentLeaseRequestV1) (since now : Z) (g : AgentLeaseRegistryV1) : bool :=
  any (λ w, waits_for r w && (lw_since_epoch_ms w =? since) && waiter_live now w) (lf_waiters (rg_fairness g)).

(** Over a sequence of calls with their times: the place is kept before each,
    and how often another agent passed. *)
Fixpoint keeps_place (r : AgentLeaseRequestV1) (since : Z) (calls : list (Z * LeaseCall)) (g : AgentLeaseRegistryV1) : bool :=
  match calls with
  | [] => true
  | (now, c) :: calls => in_place r since now g && keeps_place r since calls (registry_call c now g)
  end.
Fixpoint times_passed (r : AgentLeaseRequestV1) (calls : list (Z * LeaseCall)) (g : AgentLeaseRegistryV1) : nat :=
  match calls with
  | [] => O
  | (now, c) :: calls => (Nat.b2n (passes r c now g) + times_passed r calls (registry_call c now g))%nat
  end.

Lemma line_live r since now g : (line r since (remove_expired now g) ≤ line r since g)%nat.
Proof. apply filter_filter_le. Qed.
Lemma line_served r since r' l now g : (line r since (lease_served r' l now g) ≤ line r since g)%nat.
Proof. apply filter_filter_le. Qed.

Lemma see_first_line r since r' now l l' : see_first r' now l = Some l' →
  length (List.filter (in_line r since) l') = length (List.filter (in_line r since) l).
Proof.
  revert l'. induction l as [|w l IH]; intros l' Hl; [done|]. cbn in Hl. destruct (waits_for r' w).
  - injection Hl as <-. cbn. change (in_line r since (saw now w)) with (in_line r since w). by destruct (in_line r since w).
  - destruct (see_first r' now l) as [l1|] eqn:E; [|done]. injection Hl as <-. cbn.
    destruct (in_line r since w); cbn; by rewrite (IH l1).
Qed.
(** One who comes now comes behind. *)
Lemma line_wait r since r' now g : since < now → line r since (wait r' now g) = line r since g.
Proof.
  intros Hnow. unfold wait, line. destruct (see_first r' now _) as [l|] eqn:E; [by eapply see_first_line|].
  destruct (Z.of_nat _ <? _); [|done]. cbn [set_waiters rg_fairness lf_waiters].
  rewrite List.filter_app, length_app. cbn [List.filter]. unfold in_line at 2. cbn [lw_since_epoch_ms].
  rewrite (proj2 (Z.leb_gt now since)) by done. cbn. lia.
Qed.

Lemma own_since_place r since now g : in_place r since now g = true → own_since r (remove_expired now g) ≤ since.
Proof.
  intros (w0 & Hw0 & [[Hwait Hs%Z.eqb_eq]%andb_true_iff Hlive]%andb_true_iff)%any_true. unfold own_since.
  pose proof (min_by_spec lw_since_epoch_ms (List.filter (waits_for r) (lf_waiters (rg_fairness (remove_expired now g))))) as Hmin.
  assert (w0 ∈ List.filter (waits_for r) (lf_waiters (rg_fairness (remove_expired now g)))) as Hin
    by (apply elem_of_filter_list; split; [by apply elem_of_filter_list|done]).
  destruct (min_by _ _) as [w|]; cbn.
  - destruct Hmin as [_ Hmin]. specialize (Hmin w0 Hin). lia.
  - rewrite Hmin in Hin. by apply elem_of_nil in Hin.
Qed.

(** A waiter that has its place is before all who came later. *)
Lemma own_since_before r since r' now g : in_place r since now g = true → since < u64_max →
  lr_owner_agent_id r' ≠ lr_owner_agent_id r → overlap r' r = true →
  waiting_before r' (remove_expired now g) = None →
  ∃ w, w ∈ lf_waiters (rg_fairness (remove_expired now g)) ∧ waits_for r' w = true ∧ lw_since_epoch_ms w ≤ since.
Proof.
  intros (w0 & Hw0 & [[Hwait Hs%Z.eqb_eq]%andb_true_iff Hlive]%andb_true_iff)%any_true Hmax Hne Ho Hnone.
  assert (w0 ∈ lf_waiters (rg_fairness (remove_expired now g))) as Hin by by apply elem_of_filter_list.
  revert Hnone Hin. generalize (remove_expired now g) as g1. intros g1 Hnone Hin.
  apply andb_true_iff in Hwait as [[Ho0%bool_decide_eq_true Hk0%bool_decide_eq_true]%andb_true_iff Hr0%bool_decide_eq_true].
  assert (own_since r' g1 ≤ since) as Hown.
  { unfold waiting_before in Hnone. pose proof (min_by_spec lw_since_epoch_ms (List.filter (ahead_of r' (own_since r' g1)) (lf_waiters (rg_fairness g1)))) as Hmin.
    rewrite Hnone in Hmin. destruct (Z.le_gt_cases (own_since r' g1) since) as [?|Hgt]; [done|exfalso].
    assert (w0 ∈ List.filter (ahead_of r' (own_since r' g1)) (lf_waiters (rg_fairness g1))) as Hf;
      [|rewrite Hmin in Hf; by apply elem_of_nil in Hf].
    apply elem_of_filter_list. split; [done|]. unfold ahead_of.
    rewrite bool_decide_eq_false_2 by congruence. rewrite Hs, (proj2 (Z.ltb_lt _ _)) by lia.
    by rewrite Hk0, Hr0, resources_overlap_sym. }
  unfold own_since in Hown.
  pose proof (min_by_spec lw_since_epoch_ms (List.filter (waits_for r') (lf_waiters (rg_fairness g1)))) as Hmin.
  destruct (min_by _ _) as [w|]; [|cbn in Hown; lia]. cbn in Hown.
  destruct Hmin as [[Hw Hf]%elem_of_filter_list _]. by exists w.
Qed.

(** Each grant that passes takes one waiter out of the line. *)
Lemma line_granted r since r' now g l : in_place r since now g = true → since < u64_max →
  lr_owner_agent_id r' ≠ lr_owner_agent_id r → overlap r' r = true →
  waiting_before r' (remove_expired now g) = None →
  (line r since (lease_served r' l now (remove_expired now g)) < line r since g)%nat.
Proof.
  intros Hp Hmax Hne Ho Hnone. eapply Nat.lt_le_trans; [|apply (line_live r since now)].
  destruct (own_since_before r since r' now g Hp Hmax Hne Ho Hnone) as (w & Hw & Hf & Hs).
  apply (filter_filter_lt _ _ _ w Hw); [|by rewrite Hf].
  apply andb_true_iff in Hf as [[Ho1%bool_decide_eq_true Hk1%bool_decide_eq_true]%andb_true_iff Hr1%bool_decide_eq_true].
  unfold in_line. rewrite (proj2 (Z.leb_le _ _) Hs), bool_decide_eq_false_2 by congruence. by rewrite Hk1, Hr1.
Qed.

Lemma line_acquire r since r' now g : leases_ok (rg_leases g) → in_place r since now g = true → since < now ≤ u64_max →
  (line r since (saved (acquire r' now) g) + Nat.b2n (passes r (CallAcquire r') now g) ≤ line r since g)%nat.
Proof.
  intros Hok Hp [Hnow Hmax]. unfold saved, passes. destruct (acquire r' now g) as [g' [a|e| |]] eqn:Ha;
    [|by rewrite andb_false_r, Nat.add_0_r..].
  apply acquire_run in Ha as [_ Ha]; [|done]. pose proof (line_live r since now g) as Hlive.
  inversion Ha as [l Hl _ _ Eg Ea|Hnone _ Hwb _ e l Eg Ea|]; subst.
  - rewrite (bool_decide_eq_false_2 (_ = None)) by congruence. rewrite andb_false_r. cbn [andb Nat.b2n].
    pose proof (line_served r since r' l now (remove_expired now g)). lia.
  - rewrite (bool_decide_eq_true_2 (_ = None)) by done. rewrite !andb_true_r.
    match goal with |- (line r since ?g' + _ ≤ _)%nat =>
      change (line r since g') with (line r since (lease_served r' l now (remove_expired now g))) end.
    case_bool_decide as Hne; cbn [negb andb Nat.b2n];
      [pose proof (line_served r since r' l now (remove_expired now g)); lia|].
    destruct (overlap r' r) eqn:Ho; cbn [Nat.b2n];
      [|pose proof (line_served r since r' l now (remove_expired now g)); lia].
    assert (since < u64_max) as Hs by lia.
    pose proof (line_granted r since r' now g l Hp Hs Hne Ho Hwb). lia.
  - rewrite andb_false_r. cbn [Nat.b2n]. rewrite line_wait by done. lia.
Qed.

(** Other calls do not touch the waiters but for those that are gone. *)
Lemma call_fairness c now g : (∀ r, c ≠ CallAcquire r) →
  rg_fairness (registry_call c now g) = rg_fairness g
  ∨ rg_fairness (registry_call c now g) = rg_fairness (remove_expired now g).
Proof.
  intros Hc. destruct c as [r'|kind resource owner ref|owner fence|kind resource owner ref d|ref]; cbn; unfold saved.
  - by destruct (Hc r').
  - destruct (release _ _ _ _ _ _) as [g' []] eqn:E; [right|by left..]. unfold release in E. inv_op E.
    destruct (rg_leases _ !! _); [destruct (_ || _)|]; by inv_op Hrun2.
  - destruct (release_fence _ _ _ _) as [g' []] eqn:E; [right|by left..]. unfold release_fence in E. by inv_op E.
  - destruct (renew _ _ _ _ _ _ _) as [g' []] eqn:E; [right|by left..].
    by apply renew_run in E as (e & _ & _ & _ & _ & _ & _ & _ & ->).
  - left. unfold revoke. by destruct (find_first _ _) as [[? ?]|].
Qed.
Lemma line_same r since c now g : (∀ r', c ≠ CallAcquire r') → (line r since (registry_call c now g) ≤ line r since g)%nat.
Proof.
  intros Hc. pose proof (line_live r since now g) as Hlive. unfold line in *.
  by destruct (call_fairness c now g Hc) as [-> | ->].
Qed.

Lemma registry_call_ok c now g : call_typed c → 0 ≤ now → registry_ok g → registry_ok (registry_call c now g).
Proof.
  intros Hc Hnow Hg. assert (∀ T (m : op AgentLeaseRegistryV1 AgentLeaseError T), keeps_registry m → registry_ok (saved m g)) as Hm.
  { intros T m Hm. unfold saved. destruct (m g) as [g' []] eqn:E; try done. by destruct (Hm _ _ _ Hg E). }
  destruct c; apply Hm; [by apply acquire_keeps|apply release_keeps|apply release_fence_keeps|by apply renew_keeps|
    apply revoke_keeps].
Qed.

(** C14: While an agent keeps its place in the line for a resource, asked for at
    [since], other agents are given new leases that overlap it, at later instants
    and in any sequence of calls, at most as often as there were waits of other
    agents in the line for overlapping resources that were asked for no later.
    A wait is one agent waiting for one resource: each passes at most once, and no
    wait that is put in the line later passes; an agent that waits for several
    resources that overlap can pass once for each of them. *)
Theorem bounded_bypass r since calls g :
  registry_ok g → Forall (λ p, call_typed p.2 ∧ 0 ≤ p.1 ∧ since < p.1 ≤ u64_max) calls →
  keeps_place r since calls g = true →
  (times_passed r calls g + line r since (foldl (λ g p, registry_call p.2 p.1 g) g calls) ≤ line r since g)%nat.
Proof.
  revert g. induction calls as [|[now c] calls IH]; intros g Hg Hcalls Hplace; [done|].
  apply Forall_cons in Hcalls as [(Hc & Hnow & Hrange) Hcalls]. cbn in *.
  apply andb_true_iff in Hplace as [Hin Hplace].
  specialize (IH (registry_call c now g) (registry_call_ok c now g Hc Hnow Hg) Hcalls Hplace).
  assert (line r since (registry_call c now g) + Nat.b2n (passes r c now g) ≤ line r since g)%nat; [|lia].
  destruct c as [r'| | | |]; [by apply line_acquire; [destruct Hg|..]|..]; rewrite Nat.add_0_r; by apply line_same.
Qed.

(** C22: The agent that asked first is served: when no lease in force overlaps
    what it waits for, no other agent asked for that earlier, and there is
    room, it is granted the lease, and leaves the line. *)
Theorem head_of_line_served r since now g :
  request_validate r = Ok () → since < u64_max →
  let live := remove_expired now g in
  in_place r since now g = true →
  (∀ w, w ∈ lf_waiters (rg_fairness live) → in_line r (since - 1) w = false) →
  (∀ k l, rg_leases live !! k = Some l → overlap (al_request l) r = false) → leases_ok (rg_leases live) →
  Z.of_nat (size (rg_leases live)) < rg_max_leases live →
  ∃ g', acquire r now g = (g', Ok (Granted (new_lease r now)))
        ∧ rg_leases g' !! lease_key_of r = Some (new_lease r now)
        ∧ ∀ w, w ∈ lf_waiters (rg_fairness g') → waits_for r w = false.
Proof.
  intros Hv Hmax live Hplace Hfirst Hfree Hok Hroom.
  assert (rg_leases live !! lease_key_of r = None) as Hnone.
  { destruct (rg_leases live !! lease_key_of r) as [l|] eqn:Hl; [|done].
    pose proof (Hfree _ _ Hl) as Ho. rewrite overlap_same in Ho; [done|]. symmetry. by apply (ok_keys _ Hok). }
  assert (path_conflict r live = None) as Hpc.
  { destruct (path_conflict r live) as [l|] eqn:Hc; [|done].
    apply path_conflict_overlaps in Hc as [[k Hk]%elem_of_leases Ho]. by rewrite (Hfree _ _ Hk) in Ho. }
  assert (waiting_before r live = None) as Hwb.
  { unfold waiting_before.
    pose proof (min_by_spec lw_since_epoch_ms (List.filter (ahead_of r (own_since r live)) (lf_waiters (rg_fairness live)))) as Hmin.
    destruct (min_by _ _) as [w|]; [exfalso|done]. destruct Hmin as [[Hw Ha]%elem_of_filter_list _].
    pose proof (own_since_place r since now g Hplace) as Hown. fold live in Hown.
    apply Hfirst in Hw. unfold in_line in Hw. unfold ahead_of in Ha.
    apply andb_true_iff in Ha as [[Ha Hlt%Z.ltb_lt]%andb_true_iff Ho].
    rewrite Ha, Ho, (proj2 (Z.leb_le _ _)) in Hw by lia. done. }
  unfold acquire. rewrite Hv. rewrite (op_bind_run _ _ _ g ()) by done.
  rewrite (op_bind_run _ _ _ live ()) by done.
  erewrite op_bind_run; [|unfold acquire_unfair; rewrite Hnone, Hpc, Hwb, (proj2 (Z.leb_gt _ _)) by done; reflexivity].
  eexists. split; [reflexivity|]. split; [apply lookup_insert_eq|].
  intros w [_ Hw%negb_true_iff]%elem_of_filter_list. done.
Qed.
End waiting.

(** ** The two files hold the registry *)
Definition waiter_typed (w : LeaseWaiterV1) : Prop :=
  0 ≤ lw_since_epoch_ms w ≤ u64_max ∧ 0 ≤ lw_seen_epoch_ms w ≤ u64_max.
Record fairness_typed (f : LeaseFairnessV1) : Prop := {
  typed_waiters w : w ∈ lf_waiters f → waiter_typed w;
  typed_held k n : lf_held_since f !! k = Some n → 0 ≤ n ≤ u64_max;
}.

Lemma waiter_of_value_value w : waiter_typed w → waiter_of_value (waiter_value w) = Some w.
Proof.
  intros [[_ Hs%Z.leb_le] [_ Hd%Z.leb_le]]. destruct w as [[] ref o s d];
    lazy -[Z.leb u64_max] in Hs, Hd |- *; rewrite Hs; lazy -[Z.leb u64_max]; rewrite Hd; reflexivity.
Qed.
Lemma waiter_value_plain w : waiter_typed w →
  json_plain (waiter_value w) = true ∧ (json_depth (waiter_value w) ≤ 1)%nat.
Proof.
  intros [Hs%number_plain Hd%number_plain]. destruct w as [k ref o s d]. unfold waiter_value.
  cbn [lw_resource_kind lw_resource_ref lw_owner_agent_id lw_since_epoch_ms lw_seen_epoch_ms] in *.
  cbn [json_plain forallb snd]. rewrite Hs, Hd. split; [reflexivity|cbn; lia].
Qed.

Lemma times_of_value_value (m : gmap string Z) : (∀ k n, m !! k = Some n → 0 ≤ n ≤ u64_max) →
  times_of_value (VObject ((λ item, (item.1, number item.2)) <$> bt_iter m)) = Some m.
Proof.
  intros Hm. unfold times_of_value. rewrite mapM_fmap_id.
  - cbn. f_equal. apply foldl_bt_iter.
  - intros [k n] [_ Hn%Z.leb_le]%elem_of_bt_iter%Hm. cbn. by rewrite Hn.
Qed.

Section refinement.
Context `{Blake3} `{JL : JsonTextLaws} `{PrettyText} `{PL : !PrettyTextLaws}.

Lemma fairness_read f : fairness_typed f → from_slice (to_vec (fairness_value f)) ≫= fairness_of_value = Some f.
Proof.
  intros [Hw Hh]. pose proof (times_of_value_value _ Hh) as Ht.
  assert (mapM waiter_of_value (waiter_value <$> lf_waiters f) = Some (lf_waiters f)) as Hm
    by (apply mapM_fmap_id; intros w Hin; by apply waiter_of_value_value, Hw).
  rewrite from_slice_to_vec.
  - cbn [mbind option_bind]. unfold fairness_of_value, fairness_value. revert Ht Hm.
    generalize (VObject ((λ item, (item.1, number item.2)) <$> bt_iter (lf_held_since f))) as held.
    generalize (waiter_value <$> lf_waiters f) as vs. intros vs held Ht Hm.
    transitivity (ws ← mapM waiter_of_value vs; hs ← times_of_value held; Some (MkFairness ws hs)); [reflexivity|].
    rewrite Hm. cbn [mbind option_bind]. rewrite Ht. by destruct f.
  - unfold fairness_value. cbn [json_plain forallb snd]. rewrite andb_true_r. apply andb_true_iff. split; [reflexivity|].
    apply andb_true_iff. split; [|apply andb_true_iff; split].
    + apply forallb_true. intros v (w & -> & Hin)%list_elem_of_fmap. by apply waiter_value_plain, Hw.
    + apply bool_decide_eq_true. rewrite <-list_fmap_compose. apply NoDup_bt_keys.
    + apply forallb_true. intros v ([k n] & -> & Hin%elem_of_bt_iter)%list_elem_of_fmap. by eapply number_plain, Hh.
  - unfold fairness_value. cbn [json_depth foldr snd].
    assert (foldr (λ v n, Nat.max (json_depth v) n) O (waiter_value <$> lf_waiters f) ≤ 1)%nat.
    { apply depth_items. intros v (w & -> & Hin)%list_elem_of_fmap. by apply waiter_value_plain, Hw. }
    assert (foldr (λ v n, Nat.max (json_depth v.2) n) O
              ((λ item : string * Z, (item.1, number item.2)) <$> bt_iter (lf_held_since f)) ≤ 1)%nat.
    { apply depth_fields. intros v ([k n] & -> & _)%list_elem_of_fmap. cbn. lia. }
    unfold MAX_NESTING. lia.
Qed.

(** The files load as [g]. *)
Definition files_hold (files : LeaseFiles) (g : AgentLeaseRegistryV1) : Prop :=
  (∀ path, load_registry path files = Ok g)
  ∧ registry_ok g ∧ rg_max_leases g = DEFAULT_MAX_LEASES ∧ fairness_typed (rg_fairness g).

Lemma represents_saved g : registry_ok g → rg_max_leases g = DEFAULT_MAX_LEASES → fairness_typed (rg_fairness g) →
  files_hold (MkLeaseFiles (Some (Bytes (leases_text g))) (Some (Bytes (waiters_text g)))) g.
Proof.
  intros Hg Hm Hf. split; [|done]. intros path. unfold load_registry, leases_text, waiters_text.
  cbn [fl_leases fl_waiters]. rewrite lease_file_read by apply Hg. cbn [ok_or]. rewrite exec_bind_ret.
  rewrite reject_if_false by reflexivity. rewrite foldl_lease_iter by apply Hg.
  unfold load_fairness. rewrite fairness_read by done. rewrite <-Hm. by destruct g.
Qed.

Lemma typed_live now g : fairness_typed (rg_fairness g) → fairness_typed (rg_fairness (remove_expired now g)).
Proof.
  intros [Hw Hh]. split; cbn.
  - intros w [Hin _]%elem_of_filter_list. by apply Hw.
  - intros k n [Hk _]%map_lookup_filter_Some. by eapply Hh.
Qed.
Lemma typed_served r l now g : 0 ≤ now ≤ u64_max → fairness_typed (rg_fairness g) →
  fairness_typed (rg_fairness (lease_served r l now g)).
Proof.
  intros Hnow [Hw Hh]. split; cbn.
  - intros w [Hin _]%elem_of_filter_list. by apply Hw.
  - destruct (lf_held_since (rg_fairness g) !! al_lease_ref l); [done|].
    intros k n [[_ <-]|[_ ?]]%lookup_insert_Some; [done|by eapply Hh].
Qed.
Lemma see_first_typed r now l l' : 0 ≤ now ≤ u64_max → see_first r now l = Some l' →
  (∀ w, w ∈ l → waiter_typed w) → ∀ w, w ∈ l' → waiter_typed w.
Proof.
  intros Hnow. revert l'. induction l as [|w0 l IH]; intros l' Hl Hw w Hin; [done|]. cbn in Hl.
  destruct (waits_for r w0).
  - injection Hl as <-. apply elem_of_cons in Hin as [->|Hin]; [|apply Hw; by right].
    split; [exact (proj1 (Hw w0 ltac:(by left)))|done].
  - destruct (see_first r now l) as [l1|] eqn:E; [|done]. injection Hl as <-.
    apply elem_of_cons in Hin as [->|Hin]; [apply Hw; by left|].
    eapply IH; [done|intros w1 Hw1; apply Hw; by right|done].
Qed.
Lemma typed_wait r now g : 0 ≤ now ≤ u64_max → fairness_typed (rg_fairness g) →
  fairness_typed (rg_fairness (wait r now g)).
Proof.
  intros Hnow [Hw Hh]. unfold wait. destruct (see_first r now _) as [l|] eqn:E.
  - split; [|done]. by eapply see_first_typed.
  - destruct (Z.of_nat _ <? _); [|done]. split; [|done]. cbn.
    intros w [Hin| ->%list_elem_of_singleton]%elem_of_app; [by apply Hw|done].
Qed.

Lemma registry_call_typed c now g : registry_ok g → in_range u64_max now → fairness_typed (rg_fairness g) →
  fairness_typed (rg_fairness (registry_call c now g)).
Proof.
  intros Hg Hnow Hf. pose proof (typed_live now g Hf) as Hlive.
  destruct c as [r'| | | |]; [|(by edestruct call_fairness as [-> | ->])..]. cbn. unfold saved.
  destruct (acquire r' now g) as [g' []] eqn:E; [|done..]. apply acquire_run in E as [_ E]; [|apply Hg].
  revert E Hlive. generalize (remove_expired now g) as g1.
  intros g1 [l| |o lr ex] Hlive; [by apply typed_served|by apply typed_served|by apply typed_wait].
Qed.

(** No step of the system fails. *)
Definition io_answers (io : LeaseIo) : Prop :=
  li_dir io = None ∧ li_lock io = None ∧ li_write_leases io = None ∧ li_write_waiters io = None.

Lemma shared_represents {T} io (mutate : op AgentLeaseRegistryV1 AgentLeaseError T) files g :
  io_answers io → keeps_registry mutate → files_hold files g → fairness_typed (rg_fairness (saved mutate g)) →
  files_hold (with_shared_registry io mutate files).1 (saved mutate g)
  ∧ (with_shared_registry io mutate files).2 = (mutate g).2.
Proof.
  intros (Hd & Hl & Hwl & Hww) Hkeep Hrep Hf. pose proof Hrep as (Hload & Hg & Hm & _). unfold with_shared_registry.
  rewrite Hd, Hl. do 2 (rewrite (op_bind_run _ _ _ files ()) by done).
  rewrite (op_bind_run _ _ _ files files) by done. rewrite Hload, (op_bind_run _ _ _ files _ eq_refl).
  unfold saved in *. destruct (mutate g) as [g' [a|e| |]] eqn:Hmut; [|done..].
  destruct (Hkeep _ _ _ Hg Hmut) as [Hg' Hm'].
  rewrite (op_bind_run _ _ _ files a) by done. unfold save_registry. rewrite Hwl, Hww. cbn.
  split; [|done]. apply represents_saved; [done|by rewrite Hm'|done].
Qed.

(** C21: The two files are the registry in memory: on files that load as a
    registry, a call that the system does not fail leaves files that load as
    what the method makes of that registry, or as the same when the method
    fails. *)
Theorem shared_refines io c now files g :
  io_answers io → call_typed c → in_range u64_max now → files_hold files g →
  files_hold (shared_call io c now files) (registry_call c now g).
Proof.
  intros Hio Hc Hnow Hrep. pose proof Hrep as (_ & Hg & _ & Hf).
  pose proof (registry_call_typed c now g Hg Hnow Hf) as Hf'. pose proof (proj1 Hnow) as Hnow'.
  destruct c; cbn [shared_call registry_call] in *; apply shared_represents; try done.
  - by apply acquire_keeps.
  - apply release_keeps.
  - apply release_fence_keeps.
  - by apply renew_keeps.
  - apply revoke_keeps.
Qed.
End refinement.

(** ** Samples *)
Module sample.
#[local] Existing Instances sample_blake3 pretty_json pretty_text pretty_json_laws pretty_text_laws.
Definition sample_io : LeaseIo := MkLeaseIo "leases.json" "lease-waiters.json" None None None None.
Definition request (owner ref resource : string) : AgentLeaseRequestV1 :=
  MkLeaseRequest 1 ref KindPath resource owner 3600000.
Definition holder : AgentLeaseRequestV1 := request "holder" "request:h" "path:src".
Definition first : AgentLeaseRequestV1 := request "first" "request:f" "path:src".
Definition second : AgentLeaseRequestV1 := request "second" "request:s" "path:src/core".
Definition late : AgentLeaseRequestV1 := request "late" "request:l" "path:src/core/a.rs".

Definition run_lease_calls (calls : list (Z * LeaseCall)) (g : AgentLeaseRegistryV1) : AgentLeaseRegistryV1 :=
  foldl (λ g p, registry_call p.2 p.1 g) g calls.
Lemma default_ok : registry_ok registry_default.
Proof. split; [apply leases_ok_empty|done]. Qed.
Lemma run_calls_ok calls g : Forall (λ p, call_typed p.2 ∧ 0 ≤ p.1) calls → registry_ok g → registry_ok (run_lease_calls calls g).
Proof.
  revert g. induction calls as [|[now c] calls IH]; intros g; [done|]. intros [[Hc Hn] Hcalls]%Forall_cons Hg.
  by apply IH, registry_call_ok.
Qed.
Definition is_granted (a : exec AgentLeaseError AgentLeaseAcquireV1) : bool :=
  match a with Ok (Granted _) => true | _ => false end.

Definition queue : AgentLeaseRegistryV1 :=
  run_lease_calls [(5, CallAcquire holder); (10, CallAcquire first); (20, CallAcquire second)] registry_default.
Definition events : list (Z * LeaseCall) :=
  [(30, CallReleaseFence "holder" "request:h"); (31, CallAcquire late); (32, CallAcquire first)].
Definition some_files : LeaseFiles :=
  shared_call sample_io (CallAcquire (request "other" "request:o" "path:docs")) 5 (MkLeaseFiles None None).
Definition held_files : LeaseFiles := shared_call sample_io (CallAcquire holder) 6 some_files.
(** Leases that are renewed when each has been held for an hour. *)
Definition renewal (calls : list (Z * LeaseCall)) : exec AgentLeaseError Z :=
  (renew KindPath "path:src" "holder" (al_lease_ref (new_lease holder 0)) 3600000 3600001
     (run_lease_calls calls registry_default)).2 ≫= λ l, Ok (al_expires_at_epoch_ms l).
Definition renewed_once : list (Z * LeaseCall) :=
  [(0, CallAcquire holder);
   (3590000, CallRenew KindPath "path:src" "holder" (al_lease_ref (new_lease holder 0)) 3600000)].

Lemma request_is_typed owner ref resource : request_typed (request owner ref resource).
Proof. done. Qed.
Lemma files_reachable : lease_reachable some_files.
Proof. apply reach_call; [apply reach_none|apply request_is_typed|done]. Qed.
Lemma held_files_reachable : lease_reachable held_files.
Proof. apply reach_call; [exact files_reachable|apply request_is_typed|done]. Qed.
Lemma ten_in_time : 0 ≤ 10 < u64_max.
Proof. done. Qed.
#[local] Opaque some_files held_files.

Lemma lease_excludes_witness : ∃ files' l,
  acquire_shared sample_io second 10 some_files = (files', Ok (Granted l)) ∧ is_active_at l 10 = true
  ∧ ∃ g, load_registry "leases.json" files' = Ok g ∧ rg_leases g !! (KindPath, "path:src/core") = Some l
    ∧ ∀ k l', rg_leases g !! k = Some l' → overlap (al_request l') (al_request l) = true → l' = l.
Proof.
  assert (is_granted (acquire_shared sample_io second 10 some_files).2 = true) as Hg by (vm_compute; reflexivity).
  destruct (acquire_shared sample_io second 10 some_files) as [files' [[l|o f e]|e| |]] eqn:E; try discriminate Hg.
  exists files', l. split; [reflexivity|].
  destruct (lease_excludes sample_io "leases.json" some_files files' second 10 l files_reachable
              (request_is_typed _ _ _) ten_in_time E) as (_ & _ & Hact & Hl).
  split; [exact Hact|exact Hl].
Defined.

Lemma lease_is_kept_witness : ∃ g,
  load_registry "leases.json" (shared_call sample_io (CallAcquire second) 10 held_files) = Ok g
  ∧ rg_leases g !! (KindPath, "path:src") = Some (new_lease holder 6).
Proof.
  pose proof held_files_reachable as Hr. destruct (reachable_store held_files Hr) as [m Hs]. destruct (load_store "leases.json" held_files m Hs) as [f Hf].
  refine (lease_is_kept sample_io "leases.json" held_files (MkRegistry m DEFAULT_MAX_LEASES f) (KindPath, "path:src")
            (new_lease holder 6) (CallAcquire second) 10 Hr Hf _ eq_refl I (request_is_typed _ _ _) ltac:(split; discriminate)).
  assert ((λ x, match x with Ok g => rg_leases g !! (KindPath, "path:src") | _ => None end)
            (load_registry "leases.json" held_files) = Some (new_lease holder 6)) as H by (vm_compute; reflexivity).
  rewrite Hf in H. exact H.
Defined.

Lemma bounded_bypass_witness :
  times_passed second events queue = 1%nat ∧ line second 20 queue = 1%nat
  ∧ (times_passed second events queue + line second 20 (foldl (λ g p, registry_call p.2 p.1 g) queue events)
     ≤ line second 20 queue)%nat.
Proof.
  split; [vm_compute; reflexivity|]. split; [vm_compute; reflexivity|].
  apply (bounded_bypass second 20 events queue).
  - apply run_calls_ok; [repeat constructor; done|exact default_ok].
  - repeat constructor; done.
  - vm_compute; reflexivity.
Defined.

(** Its holder is gone and the one before it was served and is gone. *)
Definition free_registry : AgentLeaseRegistryV1 := run_lease_calls (events ++ [(33, CallReleaseFence "first" "request:f")]) queue.
Lemma head_of_line_served_witness : ∃ g', acquire second 40 free_registry = (g', Ok (Granted (new_lease second 40)))
  ∧ rg_leases g' !! (KindPath, "path:src/core") = Some (new_lease second 40)
  ∧ ∀ w, w ∈ lf_waiters (rg_fairness g') → waits_for second w = false.
Proof.
  assert (lease_iter (rg_leases (remove_expired 40 free_registry)) = []) as Hnone by (vm_compute; reflexivity).
  apply (head_of_line_served second 20 40 free_registry).
  - vm_compute; reflexivity.
  - reflexivity.
  - vm_compute; reflexivity.
  - assert (forallb (λ w, negb (in_line second 19 w)) (lf_waiters (rg_fairness (remove_expired 40 free_registry))) = true) as Hw
      by (vm_compute; reflexivity).
    rewrite forallb_true in Hw. intros w Hin. apply negb_true_iff. exact (Hw w Hin).
  - intros k l Hk%elem_of_lease_iter. rewrite Hnone in Hk. exact (False_ind _ (proj1 (elem_of_nil _) Hk)).
  - assert (registry_ok (remove_expired 40 free_registry)) as [Hok _]; [|exact Hok].
    apply registry_ok_live, run_calls_ok; [repeat constructor; done|]. apply run_calls_ok; [repeat constructor; done|exact default_ok].
  - vm_compute; reflexivity.
Defined.

Lemma shared_refines_witness :
  files_hold (shared_call sample_io (CallAcquire second) 10 (MkLeaseFiles None None))
             (registry_call (CallAcquire second) 10 registry_default).
Proof.
  apply (shared_refines sample_io (CallAcquire second) 10 (MkLeaseFiles None None) registry_default);
    [repeat split|apply request_is_typed|split; discriminate|].
  split; [reflexivity|]. split; [exact default_ok|]. split; [reflexivity|].
  split; [intros w Hw; exact (False_ind _ (proj1 (elem_of_nil _) Hw))|intros k n Hk; discriminate Hk].
Defined.

(** A holder that others wait for is not renewed past the hour, but it is when
    it asks, under another request, for what it holds before they do. *)
Example contended_holder_is_refused :
  renewal (renewed_once ++ [(3592000, CallAcquire second)]) = Err (LeaseInvalid RENEW_REFUSED).
Proof. vm_compute. reflexivity. Qed.
Example waiting_holder_is_renewed :
  renewal (renewed_once ++ [(3591000, CallAcquire (request "holder" "request:h2" "path:src"));
                            (3592000, CallAcquire second)]) = Ok 7200001.
Proof. vm_compute. reflexivity. Qed.
End sample.
