(* ===== verification/AgentLeasePaths.v ===== *)
(** * Paths as resources of leases

    [project_path_resource] and [project_symbol_resource] of
    [rust/src/core/agent_lease.rs]: the reference under which a path or a symbol
    of a project is leased, and what two of them share. *)
From S2P Require Import Prelude BTree Text Hashing Hex GraphModel AgentLease.
#[local] Open Scope Z_scope.

(** [CASE_INSENSITIVE_PATHS] of the target, and [str::to_lowercase]. *)
Class Platform := {
  case_insensitive_paths : bool;
  to_lowercase : string → string;
}.
Definition is_slash (a : Ascii.ascii) : bool := byte_in 47 47 a.
Definition slashed (a : Ascii.ascii) : Ascii.ascii := if byte_in 92 92 a then Ascii.ascii_of_N 47 else a.
(** [is_ascii_alphanumeric], or one of [/.-_] *)
Definition path_byte (a : Ascii.ascii) : bool :=
  byte_in 48 57 a || byte_in 65 90 a || byte_in 97 122 a || byte_in 45 47 a || byte_in 95 95 a.
(** One digit of [{byte:02X}]. *)
Definition upper_hex_digit (d : Z) : Ascii.ascii :=
  Ascii.ascii_of_N (Z.to_N (if d <? 10 then 48 + d else 55 + d)).
Fixpoint escape (s : string) : string :=
  match s with
  | EmptyString => ""
  | String a s =>
      if path_byte a then String a (escape s)
      else "%" +:+ String (upper_hex_digit (byte_val a / 16)) (String (upper_hex_digit (byte_val a mod 16)) (escape s))
  end.

Section paths.
Context `{Blake3} `{Platform}.

Definition scoped_digest (scope value : string) : string := blake3_hex (scope +:+ NUL +:+ value).
(** The path as it is named: with slashes, and folded where names are. *)
Definition named (relative : string) : string :=
  let relative := map_bytes slashed relative in
  if case_insensitive_paths then to_lowercase relative else relative.
Definition path_resource (scope relative : string) : string :=
  PROJECT_PATH_SCHEME +:+ scope +:+ "/" +:+ escape relative.
Definition project_path_resource (scope relative : string) : exec AgentLeaseError string :=
  let relative := named relative in
  reject_if (str_is_empty relative || starts_with relative "/"
             || any (λ part, str_is_empty part || bool_decide (part = ".") || bool_decide (part = ".."))
                  (split_on is_slash relative)
             || has_control relative)
    (LeaseInvalid "lease path must be a normalized path inside the project");;
  if MAX_RESOURCE_REF_BYTES <? str_len (path_resource scope relative)
  then Ok ("project-pathref:" +:+ scoped_digest scope relative)
  else Ok (path_resource scope relative).
Definition project_symbol_resource (scope symbol : string) : string :=
  "project-symbolref:" +:+ scoped_digest scope symbol.
End paths.

(** ** What is escaped is read back *)
Lemma upper_hex_digit_val d : 0 ≤ d < 16 → byte_val (upper_hex_digit d) = if d <? 10 then 48 + d else 55 + d.
Proof. intros. unfold upper_hex_digit. apply byte_val_of_Z. destruct (Z.ltb_spec d 10); lia. Qed.
Lemma upper_hex_digit_inj d d' : 0 ≤ d < 16 → 0 ≤ d' < 16 → upper_hex_digit d = upper_hex_digit d' → d = d'.
Proof.
  intros Hd Hd' E%(f_equal byte_val). rewrite !upper_hex_digit_val in E by done.
  destruct (Z.ltb_spec d 10), (Z.ltb_spec d' 10); lia.
Qed.
Lemma byte_val_inj a b : byte_val a = byte_val b → a = b.
Proof. intros E. by rewrite <-(ascii_of_byte_val a), E, ascii_of_byte_val. Qed.

Definition PERCENT : Ascii.ascii := Ascii.ascii_of_N 37.
Definition SLASH : Ascii.ascii := Ascii.ascii_of_N 47.

Lemma escape_app s t : escape (s +:+ t) = escape s +:+ escape t.
Proof.
  induction s as [|a s IH]; [done|]. cbn [escape String.append].
  change (String a s +:+ t) with (String a (s +:+ t)). cbn [escape]. rewrite IH. by destruct (path_byte a).
Qed.

(** An escaped text that begins with another one is escaped from a text that
    begins with the other's. *)
Lemma escape_prefix p s t : escape s = escape p +:+ t → ∃ r, s = p +:+ r ∧ escape r = t.
Proof.
  revert s. induction p as [|a p IH]; intros s E; [by exists s|].
  destruct s as [|b s]; [cbn in E; by destruct (path_byte a)|]. cbn [escape] in E.
  destruct (path_byte a) eqn:Ha, (path_byte b) eqn:Hb.
  - injection E as -> E. apply IH in E as (r & -> & Hr). by exists r.
  - injection E as <- _. by vm_compute in Ha.
  - injection E as -> _. by vm_compute in Hb.
  - injection E as E1 E2 E. destruct (nibbles a) as (Ha1 & Ha2 & Ha3), (nibbles b) as (Hb1 & Hb2 & Hb3).
    apply upper_hex_digit_inj in E1; [|done..]. apply upper_hex_digit_inj in E2; [|done..].
    assert (b = a) as -> by (apply byte_val_inj; lia).
    apply IH in E as (r & -> & Hr). by exists r.
Qed.
Lemma escape_inj s t : escape s = escape t → s = t.
Proof.
  intros E. destruct (escape_prefix t s "") as (r & -> & Hr); [by rewrite append_empty|].
  destruct r as [|a r]; [by rewrite append_empty|]. cbn in Hr. by destruct (path_byte a).
Qed.

Lemma append_cancel s s' t t' : String.length s = String.length s' → s +:+ t = s' +:+ t' → s = s' ∧ t = t'.
Proof.
  revert s'. induction s as [|a s IH]; intros [|b s'] Hlen E; try done. injection Hlen as Hlen. injection E as -> E.
  by apply IH in E as [-> ->].
Qed.

Lemma escape_covers s t : covers (escape s) (escape t) ↔ covers s t.
Proof.
  split.
  - intros [E%escape_inj|[rest E]]; [by left|right].
    apply escape_prefix in E as (r & -> & Hr). destruct r as [|a r]; [done|]. cbn [escape] in Hr.
    destruct (path_byte a); [|done]. injection Hr as -> _. by exists r.
  - intros [->|[rest ->]]; [by left|right]. exists (escape rest). by rewrite !escape_app.
Qed.

Lemma path_resource_covers scope scope' s t : String.length scope = String.length scope' →
  covers (path_resource scope s) (path_resource scope' t) ↔ scope = scope' ∧ covers s t.
Proof.
  intros Hlen. unfold path_resource. rewrite <-(escape_covers s t). split.
  - intros [E|[rest E]]; rewrite ?append_assoc in E; apply append_cancel in E as [_ E]; try done;
      apply append_cancel in E as [-> E]; try done; injection E as E; (split; [done|]).
    + by left.
    + by right; exists rest.
  - intros [-> [E|[rest E]]]; [left; by rewrite E|right]. exists rest. by rewrite E, !append_assoc.
Qed.

Section resources.
Context `{Blake3} `{Platform}.

(** The scheme of the names of long paths. *)
Definition PATHREF : string := "project-pathref:".
(** The name is short enough to show the path. *)
Definition shown (scope relative : string) : Prop := str_len (path_resource scope (named relative)) ≤ MAX_RESOURCE_REF_BYTES.

Lemma project_path_resource_Ok scope relative s : project_path_resource scope relative = Ok s →
  shown scope relative → s = path_resource scope (named relative).
Proof.
  unfold project_path_resource, shown. intros Hr Hs. inv_op Hr.
  destruct (Z.ltb_spec MAX_RESOURCE_REF_BYTES (str_len (path_resource scope (named relative)))); [lia|].
  by injection Hrun0.
Qed.

Lemma project_path_resource_hashed scope relative s : project_path_resource scope relative = Ok s →
  ¬ shown scope relative → s = PATHREF +:+ scoped_digest scope (named relative).
Proof.
  unfold project_path_resource, shown. intros Hr Hs. inv_op Hr.
  destruct (Z.ltb_spec MAX_RESOURCE_REF_BYTES (str_len (path_resource scope (named relative)))); [|lia].
  by injection Hrun0.
Qed.

(** A hashed name is in no hierarchy: only itself overlaps it. *)
Lemma hashed_overlap digest s :
  resources_overlap KindPath (PATHREF +:+ digest) KindPath s = true
  ↔ s = PATHREF +:+ digest.
Proof.
  unfold resources_overlap. rewrite !(bool_decide_eq_true_2 (KindPath = KindPath)) by done. cbn [andb].
  rewrite orb_true_iff, bool_decide_eq_true. split; [intros [E|E]; [done|exfalso]|by left].
  apply any_true in E as (scheme & Hin & E). rewrite !andb_true_iff in E. destruct E as [[E _] _].
  unfold HIERARCHICAL_PATH_SCHEMES in Hin. rewrite !elem_of_cons in Hin.
  by destruct Hin as [->|[->|Hin%elem_of_nil]].
Qed.

Lemma shown_overlap scope scope' p p' :
  String.length scope = String.length scope' →
  resources_overlap KindPath (path_resource scope p) KindPath (path_resource scope' p') = true ↔
  scope = scope' ∧ (covers p p' ∨ covers p' p).
Proof.
  intros Hlen. unfold resources_overlap.
  rewrite !(bool_decide_eq_true_2 (KindPath = KindPath)) by done. cbn [andb].
  rewrite orb_true_iff, bool_decide_eq_true, any_true. repeat setoid_rewrite andb_true_iff.
  split.
  - intros [E|(scheme & _ & _ & Hc%path_claims_overlap_spec)].
    + assert (covers (path_resource scope p) (path_resource scope' p')) as Hc by by left.
      apply path_resource_covers in Hc; [|done]. naive_solver.
    + rewrite !path_resource_covers in Hc by done. naive_solver.
  - intros [-> Hc]. right. exists PROJECT_PATH_SCHEME. split; [by left|].
    split; [split; apply starts_with_spec; by eexists|].
    apply path_claims_overlap_spec. rewrite !path_resource_covers by done. naive_solver.
Qed.

(** C23: What two paths of projects exclude, for scopes of one length, as the
    code's hashes of project roots are.  A path whose name
    [project-path:<scope>/<escaped path>] fits the 256 bytes of a reference is
    shown: two of these exclude each other exactly when they are of one project
    and one is the other or lies below it, as their platform names them.  A
    longer name is replaced by a hash of project and path, which knows no nesting:
    two of those exclude each other exactly when their hashes are equal, and so
    when they are one path, but a long path does not exclude the directory it lies
    below, and never a path that is shown.  In each case a path has one resource
    however it is spelled. *)
Theorem project_paths_overlap scope scope' relative relative' s s' :
  project_path_resource scope relative = Ok s → project_path_resource scope' relative' = Ok s' →
  String.length scope = String.length scope' →
  (shown scope relative → shown scope' relative' →
   resources_overlap KindPath s KindPath s' = true ↔
   scope = scope' ∧ (covers (named relative) (named relative') ∨ covers (named relative') (named relative)))
  ∧ (¬ shown scope relative → ¬ shown scope' relative' →
     resources_overlap KindPath s KindPath s' = true ↔
     scoped_digest scope (named relative) = scoped_digest scope' (named relative'))
  ∧ (¬ shown scope relative → shown scope' relative' → resources_overlap KindPath s KindPath s' = false)
  ∧ (scope = scope' → named relative = named relative' → s = s').
Proof.
  intros Hs Hs' Hlen. split_and!.
  - intros Hshow Hshow'. apply project_path_resource_Ok in Hs as ->; [|done].
    apply project_path_resource_Ok in Hs' as ->; [|done]. by apply shown_overlap.
  - intros Hlong Hlong'. apply project_path_resource_hashed in Hs as ->; [|done].
    apply project_path_resource_hashed in Hs' as ->; [|done]. rewrite hashed_overlap. split.
    + intros E. by apply append_cancel in E as [_ E].
    + by intros ->.
  - intros Hlong Hshow'. apply project_path_resource_hashed in Hs as ->; [|done].
    apply project_path_resource_Ok in Hs' as ->; [|done]. apply not_true_iff_false.
    rewrite hashed_overlap. by intros E.
  - intros <- E. unfold project_path_resource in Hs, Hs'. rewrite E in Hs. congruence.
Qed.

Lemma path_byte_graphic a : path_byte a = true → is_graphic a = true.
Proof. unfold path_byte, is_graphic. rewrite !orb_true_iff, !byte_in_spec. lia. Qed.
Lemma upper_hex_graphic d : 0 ≤ d < 16 → is_graphic (upper_hex_digit d) = true.
Proof.
  intros Hd. apply byte_in_spec. rewrite upper_hex_digit_val by done. destruct (Z.ltb_spec d 10); lia.
Qed.
Lemma escape_graphic t : all_bytes is_graphic (escape t) = true.
Proof.
  induction t as [|a t IH]; [done|]. cbn [escape]. destruct (path_byte a) eqn:E; cbn [all_bytes].
  - by rewrite path_byte_graphic.
  - destruct (nibbles a) as (H1 & H2 & _). rewrite all_bytes_app. cbn [all_bytes].
    by rewrite !upper_hex_graphic, IH.
Qed.

(** What it makes is a reference that requests may name. *)
Lemma project_path_accepted scope relative s label : Blake3Hex → all_bytes is_graphic scope = true →
  project_path_resource scope relative = Ok s → opaque_ref label s = Ok ().
Proof.
  intros Hb Hscope Hr. unfold project_path_resource in Hr. inv_op Hr.
  destruct (Z.ltb_spec MAX_RESOURCE_REF_BYTES (str_len (path_resource scope (named relative)))) as [Hlong|Hshort];
    injection Hrun0 as <-; unfold opaque_ref.
  - unfold scoped_digest. generalize (scope +:+ NUL +:+ named relative). intros v.
    change (split_once ":" ("project-pathref:" +:+ blake3_hex v)) with (Some ("project-pathref", blake3_hex v)).
    cbn [ok_or]. rewrite exec_bind_ret.
    rewrite str_len_app, blake3_hex_len.
    assert (all_bytes is_graphic (blake3_hex v) = true) as ->.
    { eapply all_bytes_impl; [|apply blake3_hex_digits]. intros b. unfold is_lower_hex, is_graphic.
      rewrite orb_true_iff, !byte_in_spec. lia. }
    unfold str_is_empty at 2. by rewrite blake3_hex_len.
  - revert Hshort. unfold path_resource. generalize (escape_graphic (named relative)). generalize (escape (named relative)).
    intros t Ht Hshort.
    change (split_once ":" (PROJECT_PATH_SCHEME +:+ scope +:+ "/" +:+ t)) with (Some ("project-path", scope +:+ "/" +:+ t)).
    cbn [ok_or]. rewrite exec_bind_ret. rewrite (proj2 (Z.leb_le _ _) Hshort).
    rewrite !all_bytes_app, Hscope, Ht.
    assert (str_is_empty (scope +:+ "/" +:+ t) = false) as ->; [|reflexivity].
    apply str_is_empty_false. intros E. apply (f_equal str_len) in E. rewrite !str_len_app in E.
    pose proof (str_len_nonneg scope). pose proof (str_len_nonneg t). change (str_len "/") with 1 in E. change (str_len "") with 0 in E. lia.
Qed.
End resources.

(** ** On Linux *)
Definition linux : Platform := {| case_insensitive_paths := false; to_lowercase s := s |}.
Definition PROJECT : string := "00000000000000aa".
Fixpoint segment (n : nat) : string := match n with O => "" | S n => String (Ascii.ascii_of_N 97) (segment n) end.
(** A path below [src] whose name is too long, and the name it gets. *)
Definition long_path : string := "src/" +:+ segment 250.

Lemma project_paths_overlap_witness :
  (@resources_overlap KindPath "project-path:00000000000000aa/src/My%20dir" KindPath "project-path:00000000000000aa/src/My%20dir/a.rs" = true
   ↔ PROJECT = PROJECT ∧ (covers "src/My dir" "src/My dir/a.rs" ∨ covers "src/My dir/a.rs" "src/My dir"))
  ∧ ∃ s, @project_path_resource sample_blake3 linux PROJECT long_path = Ok s
      ∧ resources_overlap KindPath s KindPath "project-path:00000000000000aa/src" = false.
Proof.
  split.
  - refine (proj1 (@project_paths_overlap sample_blake3 linux PROJECT PROJECT "src\My dir" "src/My dir/a.rs" _ _ _ _ _) _ _);
      by vm_compute.
  - eexists. split; [reflexivity|].
    refine (proj1 (proj2 (proj2 (@project_paths_overlap sample_blake3 linux PROJECT PROJECT long_path "src" _ _ _ _ _))) _ _);
      by vm_compute.
Defined.
