(* ===== verification/AgentBudget.v ===== *)
(** * Budgets of agents

    [rust/src/core/agent_budget.rs]: how many tokens an agent may still be given,
    over its life and in its turn.  The two tables are behind one mutex each, so
    a function that takes both takes them one after the other; time is an
    argument. *)
From S2P Require Import Prelude BTree Text Float64.
#[local] Open Scope Z_scope.

(** [f32] *)
Notation f32 := spec_float.
Definition f32_of_uint (n : Z) : f32 := binary_normalize 24 128 n 0 false.
Definition f32_div (x y : f32) : f32 := SFdiv 24 128 x y.

Record AgentBudget := MkAgentBudget {
  bu_agent_id : string;
  bu_token_limit : Z;
  bu_tokens_consumed : Z;
  bu_reads_count : Z;
  bu_last_reset : string;
}.
Record TurnBudget := MkTurnBudget {
  tb_turn_id : Z;
  tb_tokens_delivered : Z;
  tb_limit : Z;
  tb_started_at : Z;
}.
Inductive TurnBudgetStatus := TurnOk | TurnWarning (remaining : Z) | TurnExceeded.
Inductive BudgetCheckResult :=
| BudgetAllowed (remaining : Z)
| BudgetOver (limit consumed : Z)
| BudgetWarning (remaining : Z) (percent_used : f32).
(** [0.80], the nearest [f32] *)
Definition WARNING_THRESHOLD : f32 := binary_normalize 24 128 13421773 (-24) false.
Definition usize_max : Z := u64_max.

Record TurnBudgetAssessment := MkAssessment {
  ta_status : TurnBudgetStatus;
  ta_consumed : Z;
  ta_projected : Z;
  ta_limit : Z;
}.
(** [BUDGETS] and [TURN_BUDGETS] *)
Record BudgetTables := MkTables {
  bt_budgets : gmap string AgentBudget;
  bt_turns : gmap string TurnBudget;
}.
Definition no_tables : BudgetTables := MkTables ∅ ∅.

Definition new_entry (clock agent_id : string) : AgentBudget := MkAgentBudget agent_id usize_max 0 0 clock.
Definition entry_of (clock agent_id : string) (m : gmap string AgentBudget) : AgentBudget :=
  default (new_entry clock agent_id) (m !! agent_id).
(** [ensure_entry], and what is then done to the entry. *)
Definition with_budget_entry (clock agent_id : string) (f : AgentBudget → AgentBudget) (s : BudgetTables) : BudgetTables :=
  MkTables (<[agent_id := f (entry_of clock agent_id (bt_budgets s))]> (bt_budgets s)) (bt_turns s).

Definition assess_turn_budget (b : TurnBudget) (additional_tokens : Z) : TurnBudgetAssessment :=
  let projected := saturating_add u64_max (tb_tokens_delivered b) additional_tokens in
  let status :=
    if (0 <? tb_limit b) && (tb_limit b <? projected) then TurnExceeded
    else if (0 <? tb_limit b) && (tb_limit b * 80 <=? projected * 100)
    then TurnWarning (saturating_sub (tb_limit b) projected)
    else TurnOk in
  MkAssessment status (tb_tokens_delivered b) projected (tb_limit b).
Definition projected_turn_budget_status (agent_id : string) (tokens_to_consume : Z) (s : BudgetTables) :
    option TurnBudgetAssessment := (λ b, assess_turn_budget b tokens_to_consume) <$> bt_turns s !! agent_id.
Definition budget_size (value : Z) : Z := if value <=? usize_max then value else usize_max.
Definition turn_budget_check_result (a : TurnBudgetAssessment) : BudgetCheckResult :=
  match ta_status a with
  | TurnOk => BudgetAllowed (budget_size (saturating_sub (ta_limit a) (ta_projected a)))
  | TurnWarning remaining =>
      BudgetWarning (budget_size remaining) (f32_div (f32_of_uint (ta_projected a)) (f32_of_uint (ta_limit a)))
  | TurnExceeded => BudgetOver (budget_size (ta_limit a)) (budget_size (ta_consumed a))
  end.

Definition start_new_turn (now : Z) (agent_id : string) (limit : Z) (s : BudgetTables) : BudgetTables :=
  let turn_id := match bt_turns s !! agent_id with
                 | Some b => saturating_add u64_max (tb_turn_id b) 1
                 | None => 1
                 end in
  MkTables (bt_budgets s) (<[agent_id := MkTurnBudget turn_id 0 limit now]> (bt_turns s)).
Definition deliver (tokens : Z) (b : TurnBudget) : TurnBudget :=
  MkTurnBudget (tb_turn_id b) (saturating_add u64_max (tb_tokens_delivered b) tokens) (tb_limit b) (tb_started_at b).
Definition record_turn_delivery (agent_id : string) (tokens : Z) (s : BudgetTables) : BudgetTables * TurnBudgetStatus :=
  match bt_turns s !! agent_id with
  | None => (s, TurnOk)
  | Some b => (MkTables (bt_budgets s) (<[agent_id := deliver tokens b]> (bt_turns s)),
               ta_status (assess_turn_budget (deliver tokens b) 0))
  end.
Definition turn_budget_remaining (agent_id : string) (s : BudgetTables) : option Z :=
  (λ b, saturating_sub (tb_limit b) (tb_tokens_delivered b)) <$> bt_turns s !! agent_id.

Definition unlimited (b : AgentBudget) : bool := (bu_token_limit b =? usize_max) || (bu_token_limit b =? 0).
Definition check_entry (b : AgentBudget) (turn : option TurnBudgetAssessment) (tokens_to_consume : Z) : BudgetCheckResult :=
  if unlimited b then
    match turn with Some a => turn_budget_check_result a | None => BudgetAllowed usize_max end
  else
    let projected := saturating_add usize_max (bu_tokens_consumed b) tokens_to_consume in
    if bu_token_limit b <? projected then BudgetOver (bu_token_limit b) (bu_tokens_consumed b)
    else
      let percent_used := f32_div (f32_of_uint projected) (f32_of_uint (bu_token_limit b)) in
      let remaining := saturating_sub (bu_token_limit b) projected in
      if f64_geb percent_used WARNING_THRESHOLD then BudgetWarning remaining percent_used
      else match turn with Some a => turn_budget_check_result a | None => BudgetAllowed remaining end.
Definition check_budget (clock agent_id : string) (tokens_to_consume : Z) (s : BudgetTables) :
    BudgetTables * BudgetCheckResult :=
  let turn := projected_turn_budget_status agent_id tokens_to_consume s in
  let entry := (with_budget_entry clock agent_id id s,
                check_entry (entry_of clock agent_id (bt_budgets s)) turn tokens_to_consume) in
  match turn with
  | Some a => match ta_status a with TurnExceeded => (s, turn_budget_check_result a) | _ => entry end
  | None => entry
  end.

Definition count_tokens (tokens : Z) (b : AgentBudget) : AgentBudget :=
  MkAgentBudget (bu_agent_id b) (bu_token_limit b) (saturating_add usize_max (bu_tokens_consumed b) tokens)
    (wrapping_add u32_max (bu_reads_count b) 1) (bu_last_reset b).
Definition record_consumption (clock agent_id : string) (tokens : Z) (s : BudgetTables) : BudgetTables :=
  (record_turn_delivery agent_id tokens (with_budget_entry clock agent_id (count_tokens tokens) s)).1.

Definition budget_status (clock agent_id : string) (s : BudgetTables) : BudgetTables * AgentBudget :=
  (with_budget_entry clock agent_id id s, entry_of clock agent_id (bt_budgets s)).
Definition budget_reset (clock agent_id : string) (s : BudgetTables) : BudgetTables :=
  with_budget_entry clock agent_id (λ b, MkAgentBudget (bu_agent_id b) (bu_token_limit b) 0 0 clock) s.
Definition budget_remove (agent_id : string) (s : BudgetTables) : BudgetTables :=
  MkTables (delete agent_id (bt_budgets s)) (delete agent_id (bt_turns s)).
Definition limited_to (limit : Z) (b : AgentBudget) : AgentBudget :=
  MkAgentBudget (bu_agent_id b) limit (bu_tokens_consumed b) (bu_reads_count b) (bu_last_reset b).
Definition set_limit (clock agent_id : string) (limit : Z) (s : BudgetTables) : BudgetTables :=
  with_budget_entry clock agent_id (limited_to (if limit =? 0 then usize_max else limit)) s.

(** The argument is [agent_token_budget] of the configuration. *)
Definition init_from_config (cfg_limit : Z) (s : BudgetTables) : BudgetTables :=
  if 0 <? cfg_limit then
    MkTables ((λ b, if bu_token_limit b =? usize_max then limited_to cfg_limit b else b) <$> bt_budgets s) (bt_turns s)
  else s.
Definition default_limit_from_config (cfg_limit : Z) : Z := if cfg_limit =? 0 then usize_max else cfg_limit.

(** ** What is admitted stays within the limits *)
Definition admits (r : BudgetCheckResult) : bool := match r with BudgetOver _ _ => false | _ => true end.
(** A caller that asks before it delivers. *)
Definition deliver_admitted (clock agent_id : string) (tokens : Z) (s : BudgetTables) : BudgetTables :=
  let '(s, r) := check_budget clock agent_id tokens s in
  if admits r then record_consumption clock agent_id tokens s else s.

Definition entry_within (b : AgentBudget) : Prop :=
  0 ≤ bu_tokens_consumed b ∧ bu_token_limit b ≤ usize_max
  ∧ (unlimited b = false → bu_tokens_consumed b ≤ bu_token_limit b).
Definition turn_within (b : TurnBudget) : Prop :=
  0 ≤ tb_tokens_delivered b ∧ tb_limit b ≤ u64_max ∧ (0 < tb_limit b < u64_max → tb_tokens_delivered b ≤ tb_limit b).
Record within_limits (s : BudgetTables) : Prop := {
  within_entries agent_id b : bt_budgets s !! agent_id = Some b → entry_within b;
  within_turns agent_id b : bt_turns s !! agent_id = Some b → turn_within b;
}.

Lemma new_entry_within clock agent_id : entry_within (new_entry clock agent_id).
Proof. split; [done|]. split; [done|]. discriminate. Qed.
Lemma entry_of_within clock agent_id s : within_limits s → entry_within (entry_of clock agent_id (bt_budgets s)).
Proof.
  intros [He _]. unfold entry_of. destruct (bt_budgets s !! agent_id) as [b|] eqn:Hb; [by apply (He agent_id)|].
  apply new_entry_within.
Qed.

Lemma turn_over b tokens : tb_limit b ≤ u64_max →
  ta_status (assess_turn_budget b tokens) = TurnExceeded ↔
  0 < tb_limit b < u64_max ∧ tb_limit b < tb_tokens_delivered b + tokens.
Proof.
  intros Hl. unfold assess_turn_budget, saturating_add. cbn [ta_status].
  destruct (Z.ltb_spec 0 (tb_limit b)), (Z.ltb_spec (tb_limit b) (Z.min u64_max (tb_tokens_delivered b + tokens)));
    cbn [andb]; try (destruct (_ * 80 <=? _)); split; try done; intros; lia.
Qed.

Lemma turn_result_admits a : ta_status a ≠ TurnExceeded → admits (turn_budget_check_result a) = true.
Proof. unfold turn_budget_check_result. by destruct (ta_status a). Qed.

Lemma check_entry_over b turn tokens : entry_within b → 0 ≤ tokens →
  (∀ a, turn = Some a → ta_status a ≠ TurnExceeded) →
  admits (check_entry b turn tokens) = false ↔ unlimited b = false ∧ bu_token_limit b < bu_tokens_consumed b + tokens.
Proof.
  intros (Hc & Hmax & _) Ht Hturn. unfold check_entry. destruct (unlimited b) eqn:Hu.
  - destruct turn as [a|]; [rewrite turn_result_admits by by apply Hturn|]; split; naive_solver.
  - apply orb_false_iff in Hu as [Hne%Z.eqb_neq _]. unfold saturating_add.
    destruct (Z.ltb_spec (bu_token_limit b) (Z.min usize_max (bu_tokens_consumed b + tokens))); [split; [|done]; split; [done|lia]|].
    destruct (f64_geb _ _); [|destruct turn as [a|]; [rewrite turn_result_admits by by apply Hturn|]];
      (split; [discriminate|intros [_ ?]; lia]).
Qed.

(** A read of [tokens] tokens is refused exactly when it would take the
    agent past the limit of its turn or, if it has one, of its life; a limit of
    zero or of the largest number is none. *)
Theorem check_budget_refuses clock agent_id tokens s :
  0 ≤ tokens → within_limits s →
  admits (check_budget clock agent_id tokens s).2 = false ↔
  (∃ b, bt_turns s !! agent_id = Some b ∧ 0 < tb_limit b < u64_max ∧ tb_limit b < tb_tokens_delivered b + tokens)
  ∨ (∃ b, bt_budgets s !! agent_id = Some b ∧ unlimited b = false ∧ bu_token_limit b < bu_tokens_consumed b + tokens).
Proof.
  intros Ht Hs. unfold check_budget, projected_turn_budget_status.
  pose proof (entry_of_within clock agent_id s Hs) as Hwithin.
  assert (∀ turn, (∀ a, turn = Some a → ta_status a ≠ TurnExceeded) →
    admits (check_entry (entry_of clock agent_id (bt_budgets s)) turn tokens) = false ↔
    (∃ b, bt_budgets s !! agent_id = Some b ∧ unlimited b = false ∧ bu_token_limit b < bu_tokens_consumed b + tokens))
    as Hentry.
  { intros turn Hturn. rewrite check_entry_over by done. unfold entry_of.
    destruct (bt_budgets s !! agent_id) as [b|]; cbn [default]; split.
    - intros [? ?]. by exists b.
    - by intros (? & [= <-] & ?).
    - by intros [? _].
    - by intros (? & ? & _). }
  destruct (bt_turns s !! agent_id) as [b|] eqn:Hb; cbn [fmap option_fmap option_map].
  - pose proof (within_turns s Hs _ _ Hb) as (_ & Hl & _). pose proof (turn_over b tokens Hl) as Hover.
    destruct (ta_status (assess_turn_budget b tokens)) eqn:Hst; cbn [snd].
    3: { unfold turn_budget_check_result. rewrite Hst. split; [|done]. intros _. left. exists b. split; [done|]. by apply Hover. }
    all: rewrite Hentry by congruence; assert (¬ (0 < tb_limit b < u64_max ∧ tb_limit b < tb_tokens_delivered b + tokens))
      as Hno by (intros Hx; by apply Hover in Hx);
      (split; [by right|intros [(b0 & [= <-] & Hx)|?]; [by destruct (Hno Hx)|done]]).
  - cbn [snd]. rewrite Hentry by done. split; [by right|]. by intros [(? & ? & _)|?].
Qed.

(** The two ways through [check_budget]. *)
Lemma check_budget_cases clock agent_id tokens s :
  let turn := projected_turn_budget_status agent_id tokens s in
  let entry := entry_of clock agent_id (bt_budgets s) in
  (∃ r, check_budget clock agent_id tokens s = (s, r) ∧ admits r = false)
  ∨ check_budget clock agent_id tokens s = (with_budget_entry clock agent_id id s, check_entry entry turn tokens)
    ∧ ∀ a, turn = Some a → ta_status a ≠ TurnExceeded.
Proof.
  cbn zeta. unfold check_budget. destruct (projected_turn_budget_status _ _ _) as [a|]; [|by right].
  destruct (ta_status a) eqn:Ha.
  - right. split; [done|]. intros ? [= <-]. congruence.
  - right. split; [done|]. intros ? [= <-]. congruence.
  - left. eexists. split; [done|]. unfold turn_budget_check_result. by rewrite Ha.
Qed.

Lemma deliver_within tokens b : 0 ≤ tokens → turn_within b →
  ta_status (assess_turn_budget b tokens) ≠ TurnExceeded → turn_within (deliver tokens b).
Proof.
  intros Ht (Hd & Hl & Hb) Hst. rewrite turn_over in Hst by done. unfold turn_within, deliver, saturating_add; cbn.
  split; [unfold u64_max; lia|]. split; [done|]. lia.
Qed.
Lemma count_within tokens b turn : 0 ≤ tokens → entry_within b → admits (check_entry b turn tokens) = true →
  (∀ a, turn = Some a → ta_status a ≠ TurnExceeded) → entry_within (count_tokens tokens b).
Proof.
  intros Ht Hb Hadm Hturn. pose proof (check_entry_over b turn tokens Hb Ht Hturn) as Hover.
  destruct Hb as (Hc & Hmax & Hlim). split; [cbn; unfold saturating_add, usize_max, u64_max; lia|]. split; [done|].
  intros Hu. change (unlimited (count_tokens tokens b)) with (unlimited b) in Hu. cbn. unfold saturating_add.
  rewrite Hadm in Hover. destruct (Z.le_gt_cases (bu_tokens_consumed b + tokens) (bu_token_limit b)) as [?|Hgt]; [lia|].
  exfalso. assert (true = false) by (apply Hover; split; [done|lia]). done.
Qed.

Lemma within_set_entry clock agent_id f s : within_limits s → entry_within (f (entry_of clock agent_id (bt_budgets s))) →
  within_limits (with_budget_entry clock agent_id f s).
Proof.
  intros Hs Hf. split; [|apply Hs]. intros k b Hk. cbn in Hk. apply lookup_insert_Some in Hk as [[_ <-]|[_ ?]];
    [done|by apply (within_entries s Hs k)].
Qed.
Lemma within_set_turn agent_id tokens s : within_limits s →
  (∀ b, bt_turns s !! agent_id = Some b → turn_within (deliver tokens b)) →
  within_limits (record_turn_delivery agent_id tokens s).1.
Proof.
  intros Hs Hb. unfold record_turn_delivery. destruct (bt_turns s !! agent_id) as [b|] eqn:E; [|done].
  split; [apply Hs|]. intros k b' Hk. cbn in Hk. apply lookup_insert_Some in Hk as [[_ <-]|[_ ?]];
    [by apply Hb|by apply (within_turns s Hs k)].
Qed.

Lemma deliver_admitted_within clock agent_id tokens s : 0 ≤ tokens → within_limits s →
  within_limits (deliver_admitted clock agent_id tokens s).
Proof.
  intros Ht Hs. pose proof (entry_of_within clock agent_id s Hs) as Hentry. unfold deliver_admitted.
  destruct (check_budget_cases clock agent_id tokens s) as [(r & -> & Hr)|[-> Hturn]]; [by rewrite Hr|].
  pose proof (within_set_entry clock agent_id id s Hs Hentry) as Hs1.
  destruct (admits _) eqn:Hadm; [|done].
  assert (entry_of clock agent_id (bt_budgets (with_budget_entry clock agent_id id s)) = entry_of clock agent_id (bt_budgets s))
    as E by (unfold entry_of at 1; cbn; by rewrite lookup_insert_eq).
  unfold record_consumption. apply within_set_turn.
  - apply within_set_entry; [done|]. rewrite E. by eapply count_within.
  - cbn. intros b Hb. apply deliver_within; [done|by apply (within_turns s Hs agent_id)|].
    apply Hturn. unfold projected_turn_budget_status. by rewrite Hb.
Qed.

(** Nothing of another agent. *)
Lemma deliver_admitted_other clock agent_id tokens s other : other ≠ agent_id →
  bt_budgets (deliver_admitted clock agent_id tokens s) !! other = bt_budgets s !! other
  ∧ bt_turns (deliver_admitted clock agent_id tokens s) !! other = bt_turns s !! other.
Proof.
  intros Hne. unfold deliver_admitted.
  destruct (check_budget_cases clock agent_id tokens s) as [(r & -> & Hr)|[-> Hturn]]; [by rewrite Hr|].
  destruct (admits _); cbn; [|by rewrite lookup_insert_ne].
  unfold record_consumption, record_turn_delivery. cbn. destruct (bt_turns s !! agent_id); cbn;
    by rewrite !lookup_insert_ne.
Qed.

(** What the agent was given over a run of reads: the tokens of its admitted ones. *)
Definition admitted (clock agent_id : string) (tokens : Z) (s : BudgetTables) : bool :=
  admits (check_budget clock agent_id tokens s).2.
Fixpoint given (agent_id : string) (reads : list (string * string * Z)) (s : BudgetTables) : Z :=
  match reads with
  | [] => 0
  | (clock, reader, tokens) :: reads =>
      (if bool_decide (reader = agent_id) && admitted clock reader tokens s then tokens else 0)
      + given agent_id reads (deliver_admitted clock reader tokens s)
  end.

Lemma recorded_life clock agent_id tokens s :
  bt_budgets (record_consumption clock agent_id tokens s) !! agent_id
  = Some (count_tokens tokens (entry_of clock agent_id (bt_budgets s))).
Proof.
  unfold record_consumption, record_turn_delivery, with_budget_entry. cbn [bt_turns].
  destruct (bt_turns s !! agent_id); cbn [fst bt_budgets]; apply lookup_insert_eq.
Qed.
Lemma recorded_turn clock agent_id tokens s b : bt_turns s !! agent_id = Some b →
  bt_turns (record_consumption clock agent_id tokens s) !! agent_id = Some (deliver tokens b).
Proof.
  intros Hb. unfold record_consumption, record_turn_delivery, with_budget_entry. cbn [bt_turns].
  rewrite Hb. apply lookup_insert_eq.
Qed.
Lemma ensured_entry clock agent_id s :
  entry_of clock agent_id (bt_budgets (with_budget_entry clock agent_id id s)) = entry_of clock agent_id (bt_budgets s).
Proof. unfold entry_of at 1. cbn. by rewrite lookup_insert_eq. Qed.

(** An admitted read is counted in full, and fits. *)
Lemma delivered_life clock agent_id tokens s b : 0 ≤ tokens → within_limits s →
  bt_budgets s !! agent_id = Some b → unlimited b = false →
  let n := if admitted clock agent_id tokens s then tokens else 0 in
  bu_tokens_consumed b + n ≤ bu_token_limit b
  ∧ ∃ b', bt_budgets (deliver_admitted clock agent_id tokens s) !! agent_id = Some b' ∧ unlimited b' = false
      ∧ bu_token_limit b' = bu_token_limit b ∧ bu_tokens_consumed b' = bu_tokens_consumed b + n.
Proof.
  intros Ht Hs Hb Hu. pose proof (within_entries s Hs _ _ Hb) as He. pose proof He as (Hc & Hmax & Hlim).
  specialize (Hlim Hu). unfold admitted, deliver_admitted.
  destruct (check_budget_cases clock agent_id tokens s) as [(r & -> & Hr)|[-> Hturn]]; cbn [snd].
  { rewrite Hr. cbn zeta. split; [lia|]. exists b. rewrite Z.add_0_r. done. }
  assert (entry_of clock agent_id (bt_budgets s) = b) as Hentry by (unfold entry_of; by rewrite Hb).
  rewrite Hentry. pose proof (check_entry_over b _ tokens He Ht Hturn) as Hover.
  destruct (admits _); cbn zeta.
  - assert (bu_tokens_consumed b + tokens ≤ bu_token_limit b) as Hfit.
    { destruct (Z.le_gt_cases (bu_tokens_consumed b + tokens) (bu_token_limit b)); [done|].
      exfalso. assert (true = false) by (apply Hover; split; [done|lia]). done. }
    split; [done|]. exists (count_tokens tokens b). split.
    + by rewrite recorded_life, ensured_entry, Hentry.
    + split; [done|]. split; [done|]. cbn. unfold saturating_add. lia.
  - split; [lia|]. exists b. cbn. by rewrite lookup_insert_eq, Hentry, Z.add_0_r.
Qed.

Lemma delivered_turn clock agent_id tokens s b : 0 ≤ tokens → within_limits s →
  bt_turns s !! agent_id = Some b → 0 < tb_limit b < u64_max →
  let n := if admitted clock agent_id tokens s then tokens else 0 in
  tb_tokens_delivered b + n ≤ tb_limit b
  ∧ ∃ b', bt_turns (deliver_admitted clock agent_id tokens s) !! agent_id = Some b'
      ∧ tb_limit b' = tb_limit b ∧ tb_tokens_delivered b' = tb_tokens_delivered b + n.
Proof.
  intros Ht Hs Hb Hl. pose proof (within_turns s Hs _ _ Hb) as (Hd & Hmax & Hlim). specialize (Hlim Hl).
  unfold admitted, deliver_admitted.
  destruct (check_budget_cases clock agent_id tokens s) as [(r & -> & Hr)|[-> Hturn]]; cbn [snd].
  { rewrite Hr. cbn zeta. split; [lia|]. exists b. rewrite Z.add_0_r. done. }
  assert (tb_tokens_delivered b + tokens ≤ tb_limit b) as Hfit.
  { destruct (Z.le_gt_cases (tb_tokens_delivered b + tokens) (tb_limit b)); [done|exfalso].
    unfold projected_turn_budget_status in Hturn. rewrite Hb in Hturn.
    apply (Hturn _ eq_refl), turn_over; [done|]. split; [done|lia]. }
  destruct (admits _); cbn zeta.
  - split; [done|]. exists (deliver tokens b). split.
    + by apply recorded_turn.
    + split; [done|]. cbn. unfold saturating_add. lia.
  - split; [lia|]. exists b. by rewrite Z.add_0_r.
Qed.

Lemma given_life reads s agent_id b : within_limits s → Forall (λ r, 0 ≤ r.2) reads →
  bt_budgets s !! agent_id = Some b → unlimited b = false →
  bu_tokens_consumed b + given agent_id reads s ≤ bu_token_limit b.
Proof.
  revert s b. induction reads as [|[[clock reader] tokens] reads IH]; intros s b Hs Hreads Hb Hu; cbn [given].
  - pose proof (within_entries s Hs _ _ Hb) as (_ & _ & Hlim). specialize (Hlim Hu). lia.
  - apply Forall_cons in Hreads as [Ht Hreads]. cbn in Ht.
    pose proof (deliver_admitted_within clock reader tokens s Ht Hs) as Hs'.
    destruct (decide (reader = agent_id)) as [->|Hne].
    + rewrite bool_decide_eq_true_2 by done. cbn [andb].
      destruct (delivered_life clock agent_id tokens s b Ht Hs Hb Hu) as (_ & b' & Hb' & Hu' & Hl & Hn).
      specialize (IH _ b' Hs' Hreads Hb' Hu'). lia.
    + rewrite bool_decide_eq_false_2 by done. cbn [andb].
      apply (IH _ b Hs' Hreads); [|done]. by rewrite (proj1 (deliver_admitted_other _ _ _ _ _ (not_eq_sym Hne))).
Qed.

Lemma given_turn reads s agent_id b : within_limits s → Forall (λ r, 0 ≤ r.2) reads →
  bt_turns s !! agent_id = Some b → 0 < tb_limit b < u64_max →
  tb_tokens_delivered b + given agent_id reads s ≤ tb_limit b.
Proof.
  revert s b. induction reads as [|[[clock reader] tokens] reads IH]; intros s b Hs Hreads Hb Hl; cbn [given].
  - pose proof (within_turns s Hs _ _ Hb) as (_ & _ & Hlim). specialize (Hlim Hl). lia.
  - apply Forall_cons in Hreads as [Ht Hreads]. cbn in Ht.
    pose proof (deliver_admitted_within clock reader tokens s Ht Hs) as Hs'.
    destruct (decide (reader = agent_id)) as [->|Hne].
    + rewrite bool_decide_eq_true_2 by done. cbn [andb].
      destruct (delivered_turn clock agent_id tokens s b Ht Hs Hb Hl) as (_ & b' & Hb' & Hl' & Hn).
      specialize (IH _ b' Hs' Hreads Hb' ltac:(lia)). lia.
    + rewrite bool_decide_eq_false_2 by done. cbn [andb].
      apply (IH _ b Hs' Hreads); [|done]. by rewrite (proj2 (deliver_admitted_other _ _ _ _ _ (not_eq_sym Hne))).
Qed.

(** C25: From tables whose counters are within their limits, whatever agents
    read, as long as each asks before and only for what it then takes, nobody is
    given more than its life and its turn allow: over any run of reads the tokens
    of an agent's admitted ones, together with what was counted for it before,
    stay within its limit, and within the limit of the turn it is in.  A limit of
    zero or of the largest number is none.  The counters stay within the limits
    too, and nobody's reads change what is counted for another. *)
Theorem budgets_respected reads s :
  within_limits s → Forall (λ r, 0 ≤ r.2) reads →
  let s' := foldl (λ s r, deliver_admitted r.1.1 r.1.2 r.2 s) s reads in
  (∀ agent_id b, bt_budgets s !! agent_id = Some b → unlimited b = false →
     bu_tokens_consumed b + given agent_id reads s ≤ bu_token_limit b)
  ∧ (∀ agent_id b, bt_turns s !! agent_id = Some b → 0 < tb_limit b < u64_max →
     tb_tokens_delivered b + given agent_id reads s ≤ tb_limit b)
  ∧ within_limits s'
  ∧ ∀ agent_id, agent_id ∉ (λ r, r.1.2) <$> reads →
      bt_budgets s' !! agent_id = bt_budgets s !! agent_id ∧ bt_turns s' !! agent_id = bt_turns s !! agent_id.
Proof.
  intros Hs Hreads s'. split; [intros; by apply given_life|]. split; [intros; by apply given_turn|].
  subst s'. revert s Hs. induction reads as [|[[clock agent] tokens] reads IH]; intros s Hs; [done|].
  apply Forall_cons in Hreads as [Ht Hreads]. cbn in Ht |- *.
  destruct (IH Hreads _ (deliver_admitted_within clock agent tokens s Ht Hs)) as [Hw Ho]. split; [done|].
  intros other [Hne Hnin]%not_elem_of_cons.
  destruct (deliver_admitted_other clock agent tokens s other Hne) as [<- <-]. by apply Ho.
Qed.

(** ** Samples *)
Module budget_sample.
Definition clock : string := "2026-01-01T00:00:00+00:00".
Definition tables : BudgetTables :=
  start_new_turn 0 "reader" 1000 (set_limit clock "reader" 1200 (set_limit clock "other" 500 no_tables)).
Definition reads : list (string * string * Z) :=
  [(clock, "reader", 700); (clock, "reader", 400); (clock, "other", 300); (clock, "reader", 200)].

Lemma tables_within : within_limits tables.
Proof.
  split; intros k b Hk; cbn in Hk.
  - apply lookup_insert_Some in Hk as [[_ <-]|[_ Hk]]; [by vm_compute|].
    apply lookup_insert_Some in Hk as [[_ <-]|[_ Hk]]; [by vm_compute|discriminate Hk].
  - apply lookup_insert_Some in Hk as [[_ <-]|[_ Hk]]; [by vm_compute|discriminate Hk].
Qed.
(** The reader asks for 1300 in three reads and is given 900: its turn allows
    1000. *)
Lemma budgets_respected_witness :
  given "reader" reads tables = 900 ∧ 0 + given "reader" reads tables ≤ 1000
  ∧ within_limits (foldl (λ s r, deliver_admitted r.1.1 r.1.2 r.2 s) tables reads).
Proof.
  assert (Forall (λ r, 0 ≤ r.2) reads) as Hreads by (repeat constructor; discriminate).
  pose proof (budgets_respected reads tables tables_within Hreads) as (_ & Hturn & Hw & _).
  split; [vm_compute; reflexivity|]. split; [|exact Hw].
  exact (Hturn "reader" (MkTurnBudget 1 0 1000 0) eq_refl (conj eq_refl eq_refl)).
Defined.
Lemma check_budget_refuses_witness :
  admits (check_budget clock "reader" 1100 tables).2 = false ↔
  (∃ b, bt_turns tables !! "reader" = Some b ∧ 0 < tb_limit b < u64_max ∧ tb_limit b < tb_tokens_delivered b + 1100)
  ∨ (∃ b, bt_budgets tables !! "reader" = Some b ∧ unlimited b = false ∧ bu_token_limit b < bu_tokens_consumed b + 1100).
Proof. apply (check_budget_refuses clock "reader" 1100 tables); [discriminate|exact tables_within]. Defined.

(** A delivery that is recorded and then recorded for the turn counts twice. *)
Example delivery_counted_twice :
  let s := record_consumption clock "reader" 400 tables in
  turn_budget_remaining "reader" s = Some 600
  ∧ turn_budget_remaining "reader" (record_turn_delivery "reader" 400 s).1 = Some 200.
Proof. split; vm_compute; reflexivity. Qed.
(** The configured limit reaches no agent that comes after it. *)
Example configured_limit_is_not_kept :
  bu_token_limit (budget_status clock "late" (init_from_config 500 tables)).2 = usize_max.
Proof. vm_compute. reflexivity. Qed.
End budget_sample.
