(* ===== verification/RateLimiter.v ===== *)
(** * Rate limits of agents and tools

    [rust/src/core/a2a/rate_limiter.rs]: token buckets in [f64].  The process has
    one limiter behind a mutex, so a call is one step; every reading of the
    monotonic clock in it, in nanoseconds, is an argument.

    A bucket admits no more than its limit for each minute and one bucket full,
    the time a refused caller is told is the time it has to wait, and dropping idle
    buckets changes no answer. *)
From Stdlib Require Import QArith Qpower Lqa.
From S2P Require Import Prelude BTree Text Float64.
Import Float64.Rounding.
#[local] Open Scope Z_scope.

Definition DEFAULT_GLOBAL_PER_MIN : Z := 3600.
Definition DEFAULT_AGENT_PER_MIN : Z := 1800.
Definition DEFAULT_TOOL_PER_MIN : Z := 1800.

Record RateBucket := MkBucket {
  rb_disabled : bool;
  rb_tokens : f64;
  rb_max_tokens : f64;
  rb_refill_rate : f64;
  rb_last_refill : Z;
}.
Inductive RateLimitResult := RateAllowed | RateLimited (retry_after_ms : Z).

(** [Duration::as_secs_f64] *)
Definition as_secs_f64 (ns : Z) : f64 :=
  f64_add (f64_of_uint (ns / 1000000000)) (f64_div (f64_of_uint (ns mod 1000000000)) (f64_of_uint 1000000000)).
(** [Instant::duration_since], and [elapsed] at a later reading. *)
Definition duration_since (now last : Z) : Z := Z.max 0 (now - last).

Definition RateBucket_new (max_per_minute now : Z) : RateBucket :=
  if max_per_minute =? 0 then MkBucket true (f64_of_uint 0) (f64_of_uint 0) (f64_of_uint 0) now
  else
    let max := f64_of_uint max_per_minute in
    MkBucket false max max (f64_div max (f64_of_uint 60)) now.
Definition refill (t1 t2 : Z) (b : RateBucket) : RateBucket :=
  if rb_disabled b then b
  else
    let elapsed := as_secs_f64 (duration_since t1 (rb_last_refill b)) in
    MkBucket false (f64_min (f64_add (rb_tokens b) (f64_mul elapsed (rb_refill_rate b))) (rb_max_tokens b))
      (rb_max_tokens b) (rb_refill_rate b) t2.
Definition set_tokens (tokens : f64) (b : RateBucket) : RateBucket :=
  MkBucket (rb_disabled b) tokens (rb_max_tokens b) (rb_refill_rate b) (rb_last_refill b).
Definition try_consume (t1 t2 : Z) (b : RateBucket) : RateLimitResult * RateBucket :=
  if rb_disabled b then (RateAllowed, b)
  else
    let b := refill t1 t2 b in
    if f64_geb (rb_tokens b) (f64_of_uint 1) then (RateAllowed, set_tokens (f64_sub (rb_tokens b) (f64_of_uint 1)) b)
    else
      let wait_secs := f64_div (f64_sub (f64_of_uint 1) (rb_tokens b)) (rb_refill_rate b) in
      (RateLimited (f64_to_uint u64_max (f64_mul wait_secs (f64_of_uint 1000))), b).

Record RateLimiter := MkLimiter {
  rl_agent_buckets : gmap string RateBucket;
  rl_tool_buckets : gmap string RateBucket;
  rl_global_bucket : RateBucket;
  rl_agent_limit : Z;
  rl_tool_limit : Z;
}.
(** The readings of the clock in a call, in their order; one that a call does not
    take is not used. *)
Record Readings := MkReadings {
  rd_init : Z;
  rd_cleanup : Z;
  rd_global : Z * Z;
  rd_agent_new : Z;
  rd_agent : Z * Z;
  rd_tool_new : Z;
  rd_tool : Z * Z;
}.
Definition RateLimiter_new (global_per_min agent_per_min tool_per_min now : Z) : RateLimiter :=
  MkLimiter ∅ ∅ (RateBucket_new global_per_min now) agent_per_min tool_per_min.

(** [entry(key).or_insert_with(..)], and [try_consume] on it. *)
Definition consume_entry (limit new : Z) (t : Z * Z) (key : string) (m : gmap string RateBucket) :
    RateLimitResult * gmap string RateBucket :=
  let '(answer, b) := try_consume t.1 t.2 (default (RateBucket_new limit new) (m !! key)) in
  (answer, <[key := b]> m).
Definition rate_check (r : Readings) (agent_id tool_name : string) (l : RateLimiter) : RateLimitResult * RateLimiter :=
  let '(global, g) := try_consume (rd_global r).1 (rd_global r).2 (rl_global_bucket l) in
  let l := MkLimiter (rl_agent_buckets l) (rl_tool_buckets l) g (rl_agent_limit l) (rl_tool_limit l) in
  match global with
  | RateLimited _ => (global, l)
  | RateAllowed =>
      let '(agent, agents) := consume_entry (rl_agent_limit l) (rd_agent_new r) (rd_agent r) agent_id (rl_agent_buckets l) in
      let l := MkLimiter agents (rl_tool_buckets l) (rl_global_bucket l) (rl_agent_limit l) (rl_tool_limit l) in
      match agent with
      | RateLimited _ => (agent, l)
      | RateAllowed =>
          let '(tool, tools) := consume_entry (rl_tool_limit l) (rd_tool_new r) (rd_tool r) tool_name (rl_tool_buckets l) in
          (tool, MkLimiter (rl_agent_buckets l) tools (rl_global_bucket l) (rl_agent_limit l) (rl_tool_limit l))
      end
  end.
Definition is_recent (now max_idle : Z) (b : RateBucket) : bool := duration_since now (rb_last_refill b) <? max_idle.
Definition cleanup_stale (now max_idle : Z) (l : RateLimiter) : RateLimiter :=
  let keep := filter (λ kb : string * RateBucket, is_recent now max_idle kb.2 = true) in
  MkLimiter (keep (rl_agent_buckets l)) (keep (rl_tool_buckets l)) (rl_global_bucket l) (rl_agent_limit l) (rl_tool_limit l).

(** [env_u32], of the variables that are set to text. *)
Definition parse_u32 (s : string) : option Z := n ← parse_u64 s; if n <=? u32_max then Some n else None.
Fixpoint env_u32 (var : string → option string) (keys : list string) : option Z :=
  match keys with
  | [] => None
  | k :: keys => match var k ≫= λ v, parse_u32 (trim v) with Some n => Some n | None => env_u32 var keys end
  end.
Definition limits_of_env (var : string → option string) : Z * Z * Z :=
  (default DEFAULT_GLOBAL_PER_MIN (env_u32 var ["LEAN_CTX_RATE_LIMIT_GLOBAL_PER_MIN"; "LCTX_RATE_LIMIT_GLOBAL_PER_MIN"]),
   default DEFAULT_AGENT_PER_MIN (env_u32 var ["LEAN_CTX_RATE_LIMIT_AGENT_PER_MIN"; "LCTX_RATE_LIMIT_AGENT_PER_MIN"]),
   default DEFAULT_TOOL_PER_MIN (env_u32 var ["LEAN_CTX_RATE_LIMIT_TOOL_PER_MIN"; "LCTX_RATE_LIMIT_TOOL_PER_MIN"])).
Definition limiter_of_env (var : string → option string) (now : Z) : RateLimiter :=
  let '(global, agent, tool) := limits_of_env var in RateLimiter_new global agent tool now.

(** [GLOBAL_LIMITER] *)
Definition init_rate_limiter (global_per_min agent_per_min tool_per_min now : Z) : option RateLimiter :=
  Some (RateLimiter_new global_per_min agent_per_min tool_per_min now).
(** [Duration::from_mins(15)] *)
Definition MAX_IDLE : Z := 15 * 60 * 1000000000.
Definition check_rate_limit (var : string → option string) (r : Readings) (agent_id tool_name : string)
    (guard : option RateLimiter) : RateLimitResult * option RateLimiter :=
  let limiter := default (limiter_of_env var (rd_init r)) guard in
  let '(answer, limiter) := rate_check r agent_id tool_name (cleanup_stale (rd_cleanup r) MAX_IDLE limiter) in
  (answer, Some limiter).

(** ** What a bucket promises *)
Notation limit_ok n := (0 ≤ n ≤ u32_max).
(** A bucket of the limit [n]. *)
Definition bucket_ok (n : Z) (b : RateBucket) : Prop :=
  if n =? 0 then rb_disabled b = true
  else rb_disabled b = false ∧ rb_max_tokens b = f64_of_uint n ∧ rb_refill_rate b = f64_div (f64_of_uint n) (f64_of_uint 60)
    ∧ nonneg (rb_tokens b) ∧ (value (rb_tokens b) <= inject_Z n)%Q.

Lemma new_ok n now : limit_ok n → bucket_ok n (RateBucket_new n now).
Proof.
  intros Hn. unfold bucket_ok, RateBucket_new. destruct (Z.eqb_spec n 0); [done|]. cbn.
  destruct (uint_exact n) as [H1 H2]; [unfold u32_max in Hn; lia|]. split_and!; [done..|]. rewrite H2. apply Qle_refl.
Qed.

(** Seconds *)
Definition seconds_of (ns : Z) : Q := (inject_Z ns * (1 # 1000000000))%Q.
Lemma div_nanos x : (x / inject_Z 1000000000 == x * (1 # 1000000000))%Q.
Proof. done. Qed.
Lemma secs_parts ns : (seconds_of ns == inject_Z (ns / 1000000000) + inject_Z (ns mod 1000000000) / inject_Z 1000000000)%Q.
Proof.
  unfold seconds_of. rewrite (Z.div_mod ns 1000000000) at 1 by done. rewrite inject_Z_plus, inject_Z_mult.
  rewrite div_nanos. change (inject_Z 1000000000) with 1000000000%Q. lra.
Qed.
Lemma nanos_spec n : 0 ≤ n < 1000000000 →
  rounded (inject_Z n / inject_Z 1000000000) (f64_div (f64_of_uint n) (f64_of_uint 1000000000)).
Proof.
  intros Hn. destruct (uint_exact n) as [H1 H2]; [lia|]. destruct (uint_exact 1000000000) as [H3 H4]; [lia|].
  destruct (decide (n = 0)) as [->|Hne]; [apply rounded_exact; by vm_compute|].
  assert (1 <= inject_Z n <= 1000000000)%Q as Hr by (change 1%Q with (inject_Z 1); change (1000000000)%Q with (inject_Z 1000000000); rewrite <-!Zle_Qle; lia).
  assert (pow2 (-1022) <= 1 # 1000000000)%Q as Hs by by vm_compute.
  assert (1 < pow2 1023)%Q as Hb by by vm_compute.
  rewrite <-H2, <-H4. apply div_spec; [done..| | | |]; rewrite ?H2, ?H4, ?div_nanos; first [lra|by vm_compute].
Qed.
Lemma as_secs_spec ns : 0 ≤ ns ≤ u64_max →
  nonneg (as_secs_f64 ns)
  ∧ (seconds_of ns * (1 - 3 * ulp) - 3 * tiny <= value (as_secs_f64 ns) <= seconds_of ns * (1 + 3 * ulp) + 3 * tiny)%Q.
Proof.
  intros Hns. unfold as_secs_f64. set (s := ns / 1000000000). set (r := ns mod 1000000000).
  assert (0 ≤ s ≤ 18446744074) as Hs.
  { split; [by apply Z.div_pos; lia|]. unfold s. pose proof (Z.div_le_mono ns u64_max 1000000000 ltac:(done) ltac:(lia)) as H. change (u64_max / 1000000000) with 18446744073 in H. lia. }
  pose proof (Z.mod_pos_bound ns 1000000000 ltac:(done)) as Hr. fold r in Hr.
  destruct (uint_exact s) as [Hs1 Hs2]; [lia|].
  pose proof (nanos_spec r Hr) as Hn. pose proof (secs_parts ns) as Hp. fold s r in Hp.
  assert (0 <= inject_Z r / inject_Z 1000000000 <= 1)%Q as Hr'.
  { assert (0 <= inject_Z r <= 1000000000)%Q as Hr' by (change 0%Q with (inject_Z 0); change (1000000000)%Q with (inject_Z 1000000000); rewrite <-!Zle_Qle; lia).
    rewrite div_nanos. lra. }
  destruct (rounded_near _ _ Hn ltac:(lra)) as [Hn1 Hn2]. pose proof (rounded_nonneg _ _ Hn) as Hn0.
  set (y := f64_div _ _) in *. pose proof (value_nonneg y) as Hy.
  assert (0 < ulp)%Q as Hu by by vm_compute. assert (ulp <= 1#1000)%Q as Hu' by by vm_compute.
  assert (0 < tiny)%Q as Ht by by vm_compute. assert (tiny <= 1#1000)%Q as Ht' by by vm_compute.
  assert (0 <= inject_Z s <= 18446744074)%Q as Hs' by (change 0%Q with (inject_Z 0); change 18446744074%Q with (inject_Z 18446744074); rewrite <-!Zle_Qle; lia).
  assert (value (f64_of_uint s) + value y < pow2 1023)%Q as Hmax.
  { rewrite Hs2. assert (18446744076 < pow2 1023)%Q by by vm_compute. nra. }
  pose proof (add_spec _ _ Hs1 Hn0 Hmax) as Ha. rewrite Hs2 in Ha.
  destruct (rounded_near _ _ Ha ltac:(lra)) as [Ha1 Ha2].
  split; [by apply Ha|]. rewrite Hp. set (f := (inject_Z r / inject_Z 1000000000)%Q) in *. set (S := inject_Z s) in *.
  set (v := value (f64_add _ _)) in *. set (w := value y) in *. clearbody v w f S.
  clear -Hn1 Hn2 Ha1 Ha2 Hr' Hs'. unfold ulp, tiny in *. split; lra.
Qed.

(** Tokens of a second *)
Definition per_second (n : Z) : Q := (inject_Z n * (1 # 60))%Q.
Lemma limit_range n : limit_ok n → n ≠ 0 → (1 <= inject_Z n <= 4294967295)%Q.
Proof.
  intros Hn H0. change 1%Q with (inject_Z 1). change 4294967295%Q with (inject_Z 4294967295). rewrite <-!Zle_Qle.
  unfold u32_max in Hn. lia.
Qed.
Lemma rate_spec n : limit_ok n → n ≠ 0 →
  let r := f64_div (f64_of_uint n) (f64_of_uint 60) in
  nonneg r ∧ (per_second n * (1 - ulp) - tiny <= value r <= per_second n * (1 + ulp) + tiny)%Q.
Proof.
  intros Hn H0 r. pose proof (limit_range n Hn H0) as HN.
  destruct (uint_exact n) as [H1 H2]; [unfold u32_max in Hn; lia|]. destruct (uint_exact 60) as [H3 H4]; [lia|].
  assert (inject_Z n / inject_Z 60 == per_second n)%Q as Hq by done. change (inject_Z 60) with 60%Q in *.
  assert (0 <= per_second n)%Q as Hp by (unfold per_second; lra).
  assert (pow2 (-1022) <= 1#60)%Q as Hs by by vm_compute.
  assert (100000000 < pow2 1023)%Q as Hb by by vm_compute.
  assert (rounded (per_second n) r) as Hr.
  { rewrite <-Hq, <-H2, <-H4. apply div_spec; [done..| | | |]; rewrite ?H2, ?H4, ?Hq; unfold per_second; lra. }
  split; [by apply Hr|]. by apply rounded_near.
Qed.

Definition slack : Q := 1 # 1000000.
Definition noise : Q := 1 # 1152921504606846976.
Lemma gain_spec n ns : limit_ok n → n ≠ 0 → 0 ≤ ns ≤ u64_max →
  let m := f64_mul (as_secs_f64 ns) (f64_div (f64_of_uint n) (f64_of_uint 60)) in
  nonneg m ∧ (seconds_of ns * per_second n * (1 - 8 * ulp) - noise <= value m <= seconds_of ns * per_second n * (1 + 8 * ulp) + noise)%Q.
Proof.
  intros Hn H0 Hns m. destruct (rate_spec n Hn H0) as [Hr0 Hr]. destruct (as_secs_spec ns Hns) as [Hs0 Hs].
  pose proof (limit_range n Hn H0) as HN.
  set (r := f64_div _ _) in *. set (c := per_second n) in *.
  assert (1#60 <= c <= 80000000)%Q as Hc by (unfold c, per_second; lra).
  assert (0 <= seconds_of ns <= 18446744074)%Q as Hsecs.
  { unfold seconds_of. assert (0 <= inject_Z ns <= inject_Z u64_max)%Q as H by (change 0%Q with (inject_Z 0); rewrite <-!Zle_Qle; lia).
    change (inject_Z u64_max) with 18446744073709551615%Q in H. lra. }
  pose proof (value_nonneg (as_secs_f64 ns)) as HS. pose proof (value_nonneg r) as HR.
  set (S := value (as_secs_f64 ns)) in *. set (R := value r) in *. set (s := seconds_of ns) in *.
  assert (S * R <= (s * (1 + 3 * ulp) + 3 * tiny) * (c * (1 + ulp) + tiny))%Q as Hup by (apply Qmult_le_compat_nonneg; split; apply HS || apply HR || apply Hs || apply Hr).
  assert (0 <= s * c)%Q as Hsc by (apply Qmult_le_0_compat; lra).
  assert (s * c <= 18446744074 * c)%Q as Hsc' by (apply Qmult_le_compat_r; lra).
  assert (S * R < pow2 1023)%Q as Hmax.
  { assert (10000000000000000000 < pow2 1023)%Q by by vm_compute. clear -Hup Hsc' Hsecs Hc H Hsc. unfold ulp, tiny in *. lra. }
  pose proof (mul_spec _ _ Hs0 Hr0 Hmax) as Hm. split; [by apply Hm|].
  destruct (rounded_near _ _ Hm ltac:(by apply Qmult_le_0_compat)) as [Hm1 Hm2].
  fold S R m in Hm1, Hm2. set (M := value m) in *.
  assert (s * (1 - 3 * ulp) * (c * (1 - ulp)) <= (S + 3 * tiny) * (R + tiny))%Q as Hlo.
  { apply Qmult_le_compat_nonneg; unfold ulp, tiny in *; split; lra. }
  assert (S * R <= 2000000000000000000)%Q as Hsr by (clear -Hup Hsc' Hsecs Hc Hsc; unfold ulp, tiny in *; lra).
  clearbody S R M s c. clear -Hup Hlo Hsecs Hc Hsc Hs Hr Hm1 Hm2 HS HR Hsr.
  unfold ulp, tiny, noise in *. split; lra.
Qed.

Ltac consts := change (inject_Z 1) with 1%Q in *; change (inject_Z 0) with 0%Q in *; unfold ulp, tiny, noise, slack in *.

Lemma bucket_ok_on n b : n ≠ 0 → bucket_ok n b →
  rb_disabled b = false ∧ rb_max_tokens b = f64_of_uint n ∧ rb_refill_rate b = f64_div (f64_of_uint n) (f64_of_uint 60)
  ∧ nonneg (rb_tokens b) ∧ (value (rb_tokens b) <= inject_Z n)%Q.
Proof. intros Hn. unfold bucket_ok. by destruct (Z.eqb_spec n 0). Qed.
Lemma bucket_ok_intro n b : n ≠ 0 → rb_disabled b = false → rb_max_tokens b = f64_of_uint n →
  rb_refill_rate b = f64_div (f64_of_uint n) (f64_of_uint 60) → nonneg (rb_tokens b) → (value (rb_tokens b) <= inject_Z n)%Q → bucket_ok n b.
Proof. intros Hn. unfold bucket_ok. by destruct (Z.eqb_spec n 0). Qed.

Section bucket.
Context (n : Z).
Context (Hn : limit_ok n) (H0 : n ≠ 0).

Lemma secs_range ns : 0 ≤ ns ≤ u64_max → (0 <= seconds_of ns <= 18446744074)%Q.
Proof.
  intros Hns. unfold seconds_of.
  assert (0 <= inject_Z ns <= inject_Z u64_max)%Q as H by (change 0%Q with (inject_Z 0); rewrite <-!Zle_Qle; lia).
  change (inject_Z u64_max) with 18446744073709551615%Q in H. lra.
Qed.
Lemma gain_nonneg ns : 0 ≤ ns ≤ u64_max → (0 <= seconds_of ns * per_second n <= 2000000000000000000)%Q.
Proof.
  intros Hns. pose proof (secs_range ns Hns) as Hs. pose proof (limit_range n Hn H0) as HN.
  assert (0 <= per_second n <= 80000000)%Q as Hp by (unfold per_second; lra). split; [apply Qmult_le_0_compat; lra|].
  trans (18446744074 * 80000000)%Q; [|by vm_compute]. apply Qmult_le_compat_nonneg; lra.
Qed.
Lemma refill_spec b t1 t2 : bucket_ok n b → let d := duration_since t1 (rb_last_refill b) in 0 ≤ d ≤ u64_max →
  let b' := refill t1 t2 b in
  bucket_ok n b' ∧ rb_last_refill b' = t2
  ∧ (value (rb_tokens b') <= (value (rb_tokens b) + seconds_of d * per_second n * (1 + 8 * ulp) + noise) * (1 + ulp) + tiny)%Q
  ∧ (∀ k, 0 ≤ k ≤ n →
       (inject_Z k <= value (rb_tokens b) ∨ inject_Z k <= value (rb_tokens b) + seconds_of d * per_second n * (1 - 8 * ulp) - noise)%Q →
       (inject_Z k <= value (rb_tokens b'))%Q).
Proof.
  intros Hb d Hd b'. destruct (bucket_ok_on n b H0 Hb) as (Hdis & Hmax & Hrate & Htok & Hle).
  pose proof (limit_range n Hn H0) as HN. destruct (uint_exact n) as [Hn1 Hn2]; [unfold u32_max in Hn; lia|].
  destruct (gain_spec n d Hn H0 Hd) as [Hm0 Hm]. pose proof (gain_nonneg d Hd) as Hg.
  assert (b' = MkBucket false (f64_min (f64_add (rb_tokens b) (f64_mul (as_secs_f64 d) (rb_refill_rate b))) (rb_max_tokens b))
    (rb_max_tokens b) (rb_refill_rate b) t2) as -> by (unfold b', refill; by rewrite Hdis).
  cbn [rb_tokens rb_last_refill]. rewrite Hmax, Hrate.
  set (m := f64_mul _ _) in *. pose proof (value_nonneg m) as HM. pose proof (value_nonneg (rb_tokens b)) as HT.
  assert (value (rb_tokens b) + value m < pow2 1023)%Q as Hlt.
  { assert (10000000000000000000 < pow2 1023)%Q by by vm_compute. clear -Hm Hg Hle HN H. consts. lra. }
  pose proof (add_spec _ _ Htok Hm0 Hlt) as Ha. set (a := f64_add _ _) in *.
  destruct (min_spec a (f64_of_uint n)) as (Hmin0 & Hmin1 & Hmin2 & Hmin3 & Hmin4); [apply Ha|done|].
  destruct (rounded_near _ _ Ha ltac:(lra)) as [_ Ha2].
  split; [|split; [done|split]].
  - apply bucket_ok_intro; try done. cbn [rb_tokens]. by rewrite <-Hn2.
  - etrans; [exact Hmin1|]. clear -Ha2 Hm. consts. lra.
  - intros k Hk Hle'. assert (inject_Z k <= value a)%Q as Hka.
    { apply Ha; [apply uint_representable; unfold u32_max in Hn; lia|]. destruct Hle'; lra. }
    assert (inject_Z k <= inject_Z n)%Q as Hkn by (rewrite <-Zle_Qle; lia).
    destruct (Qlt_le_dec (value a) (value (f64_of_uint n))); [rewrite Hmin4|rewrite Hmin3]; try lra; done.
Qed.

Lemma below_one x : nonneg x → (value x < 1)%Q → (value x <= 1 - ulp)%Q.
Proof.
  intros Hx Hlt. destruct (representable_cases (value x) (-53) ltac:(lia) (value_representable x Hx)) as [[k Hk]|[_ H]].
  - rewrite Hk in Hlt |- *. change (pow2 (-53)) with ulp in *.
    assert (k + 1 ≤ 2 ^ 53) as Hk'.
    { assert (inject_Z k < inject_Z (2 ^ 53))%Q as H.
      { apply (Qmult_lt_r _ _ ulp); [by vm_compute|]. eapply Qlt_le_trans; [exact Hlt|]. by vm_compute. }
      rewrite <-Zlt_Qlt in H. lia. }
    rewrite Zle_Qle, inject_Z_plus in Hk'. change (inject_Z (2 ^ 53)) with 9007199254740992%Q in Hk'. consts. lra.
  - change (pow2 (-53 + 52)) with (1#2)%Q in H. consts. lra.
Qed.
(** The wait that is reported, in tokens gained while waiting. *)
Lemma wait_spec v : nonneg v → (value v < 1)%Q →
  let ms := f64_to_uint u64_max (f64_mul (f64_div (f64_sub (f64_of_uint 1) v) (f64_div (f64_of_uint n) (f64_of_uint 60))) (f64_of_uint 1000)) in
  (inject_Z ms * (1 # 1000) * per_second n <= (1 - value v) * (1 + 16 * ulp) + noise
   ∧ (1 - value v) * (1 - 16 * ulp) - noise <= inject_Z (ms + 1) * (1 # 1000) * per_second n)%Q.
Proof.
  intros Hv Hlt. pose proof (below_one v Hv Hlt) as Hv1. pose proof (value_nonneg v) as Hv0.
  pose proof (limit_range n Hn H0) as HN. destruct (rate_spec n Hn H0) as [Hr0 Hr]. set (r := f64_div _ (f64_of_uint 60)) in *.
  destruct (uint_exact 1) as [H11 H12]; [lia|]. destruct (uint_exact 1000) as [H21 H22]; [lia|].
  change (inject_Z 1) with 1%Q in H12. change (inject_Z 1000) with 1000%Q in H22.
  assert (1000000000 < pow2 1023)%Q as Hbig by by vm_compute.
  assert (rounded (1 - value v) (f64_sub (f64_of_uint 1) v)) as Hs.
  { rewrite <-H12. apply sub_spec; [done..|lra|lra]. }
  set (s := f64_sub _ _) in *. destruct (rounded_near _ _ Hs ltac:(lra)) as [Hs1 Hs2].
  set (c := per_second n) in *. assert (1#60 <= c <= 80000000)%Q as Hc by (unfold c, per_second; lra).
  set (q := (value s / value r)%Q).
  assert (0 < value r)%Q as HR by (clear -Hr Hc; consts; lra).
  assert (q * value r == value s)%Q as Hq by (unfold q; field; lra).
  assert (1#10000000000000000000000000 <= q <= 61)%Q as Hqr.
  { clear -Hr Hc Hs1 Hs2 Hv1 Hv0 HR. split; [apply Qle_shift_div_l|apply Qle_shift_div_r]; try done; consts; lra. }
  assert (rounded q (f64_div s r)) as Hw.
  { apply div_spec; [by apply Hs|done| |done| |].
    - clear -Hs1 Hv1. consts. lra.
    - fold q. assert (pow2 (-1022) <= 1#10000000000000000000000000)%Q by by vm_compute. lra.
    - fold q. lra. }
  set (w := f64_div s r) in *. destruct (rounded_near _ _ Hw ltac:(lra)) as [Hw1 Hw2].
  assert (rounded (value w * 1000) (f64_mul w (f64_of_uint 1000))) as Hx.
  { rewrite <-H22. apply mul_spec; [by apply Hw|done|]. rewrite H22. clear -Hw2 Hqr Hbig. consts. lra. }
  set (x := f64_mul w _) in *. pose proof (value_nonneg w). destruct (rounded_near _ _ Hx ltac:(lra)) as [Hx1 Hx2].
  destruct (to_uint_spec u64_max x) as [Hms1 Hms2]; [by apply Hx|done| |].
  { change (inject_Z u64_max) with 18446744073709551615%Q. clear -Hx2 Hw2 Hqr. consts. lra. }
  set (X := value x) in *. set (W := value w) in *. set (S := value s) in *. set (R := value r) in *. set (V := value v) in *.
  set (ms := f64_to_uint u64_max x) in *. cbn zeta.
  assert (inject_Z ms * c <= X * c)%Q as H1 by (apply Qmult_le_compat_r; lra).
  assert (X * c <= inject_Z (ms + 1) * c)%Q as H2 by (apply Qmult_le_compat_r; lra).
  assert (X <= q * 1000 * (1 + 4 * ulp) + 3000 * tiny ∧ q * 1000 * (1 - 4 * ulp) - 3000 * tiny <= X)%Q as [H3 H4].
  { clear -Hx1 Hx2 Hw1 Hw2 Hqr. consts. split; lra. }
  assert (X * c <= (q * 1000 * (1 + 4 * ulp) + 3000 * tiny) * c)%Q as H5 by (apply Qmult_le_compat_r; lra).
  assert ((q * 1000 * (1 - 4 * ulp) - 3000 * tiny) * c <= X * c)%Q as H6 by (apply Qmult_le_compat_r; lra).
  assert (q * R <= q * (c * (1 + ulp) + tiny))%Q as H7 by (rewrite !(Qmult_comm q); apply Qmult_le_compat_r; lra).
  assert (q * (c * (1 - ulp) - tiny) <= q * R)%Q as H8 by (rewrite !(Qmult_comm q); apply Qmult_le_compat_r; lra).
  assert (0 <= q * c)%Q as H9 by (apply Qmult_le_0_compat; lra).
  clearbody X W S R V q c ms. clear -H1 H2 H5 H6 H7 H8 H9 Hq Hqr Hc Hs1 Hs2 Hv1 Hv0. consts. split; lra.
Qed.

Lemma try_consume_spec b t1 t2 : bucket_ok n b → let d := duration_since t1 (rb_last_refill b) in 0 ≤ d ≤ u64_max →
  let v := value (rb_tokens (refill t1 t2 b)) in
  bucket_ok n (try_consume t1 t2 b).2 ∧ rb_last_refill (try_consume t1 t2 b).2 = t2
  ∧ match (try_consume t1 t2 b).1 with
    | RateAllowed => (1 <= v ∧ value (rb_tokens (try_consume t1 t2 b).2) <= (v - 1) * (1 + ulp) + tiny)%Q
    | RateLimited ms => (v < 1)%Q ∧ (try_consume t1 t2 b).2 = refill t1 t2 b
        ∧ (inject_Z ms * (1 # 1000) * per_second n <= (1 - v) * (1 + 16 * ulp) + noise)%Q
        ∧ ((1 - v) * (1 - 16 * ulp) - noise <= inject_Z (ms + 1) * (1 # 1000) * per_second n)%Q
    end.
Proof.
  intros Hb d Hd v. destruct (refill_spec b t1 t2 Hb Hd) as (Hb' & Ht & _ & _).
  destruct (bucket_ok_on n b H0 Hb) as (Hdis & _). unfold try_consume. rewrite Hdis.
  set (b' := refill t1 t2 b) in *. destruct (bucket_ok_on n b' H0 Hb') as (Hdis' & Hmax' & Hrate' & Htok' & Hle').
  destruct (uint_exact 1) as [H11 H12]; [lia|]. change (inject_Z 1) with 1%Q in H12.
  pose proof (limit_range n Hn H0) as HN.
  pose proof (leb_spec (f64_of_uint 1) (rb_tokens b') H11 Htok') as Hcmp. rewrite H12 in Hcmp.
  change (f64_geb (rb_tokens b') (f64_of_uint 1)) with (f64_leb (f64_of_uint 1) (rb_tokens b')).
  destruct (f64_leb _ _).
  - apply proj1 in Hcmp. specialize (Hcmp eq_refl). fold v in Hcmp, Hle'.
    assert (v < pow2 1023)%Q as Hbig by (assert (4294967296 < pow2 1023)%Q by (by vm_compute); lra).
    assert (rounded (v - 1) (f64_sub (rb_tokens b') (f64_of_uint 1))) as Hs.
    { rewrite <-H12. apply sub_spec; [done..|by rewrite H12|done]. }
    cbn [fst snd set_tokens rb_tokens rb_last_refill]. split; [|split; [done|split; [done|]]].
    + apply bucket_ok_intro; try done; cbn [rb_tokens set_tokens]; [by apply Hs|].
      apply Hs; [apply uint_representable; unfold u32_max in Hn; lia|lra].
    + apply (rounded_near _ _ Hs). lra.
  - assert (v < 1)%Q as Hlt by (apply Qnot_le_lt; intros H%Hcmp; done).
    cbn [fst snd]. rewrite Hrate'. destruct (wait_spec (rb_tokens b') Htok' Hlt) as [Hw1 Hw2].
    split; [done|]. split; [done|]. split_and!; done.
Qed.
End bucket.

(** ** Runs *)
(** The readings of a clock that does not go back, from [a] to [b]. *)
Fixpoint from_to (a : Z) (times : list Z) (b : Z) : Prop :=
  match times with [] => a ≤ b | t :: times => a ≤ t ∧ from_to t times b end.
Lemma from_to_le a times b : from_to a times b → a ≤ b.
Proof. revert a. induction times as [|t times IH]; intros a; cbn; [done|]. intros [? ?%IH]. lia. Qed.
Lemma from_to_weaken a a' l b : a ≤ a' → from_to a' l b → from_to a l b.
Proof. destruct l; cbn; [lia|]. intros ? [? ?]. split; [lia|done]. Qed.
Lemma from_to_upto a l b b' : from_to a l b → b ≤ b' → from_to a l b'.
Proof. revert a. induction l as [|t l IH]; intros a; cbn; [lia|]. intros [? ?] ?. split; [done|]. by apply IH. Qed.
Lemma from_to_app a l1 l2 b : from_to a (l1 ++ l2) b ↔ ∃ m, from_to a l1 m ∧ from_to m l2 b.
Proof.
  revert a. induction l1 as [|t l1 IH]; intros a; cbn.
  - split; [intros H; by exists a|intros (m & H1 & H2)]. destruct l2; cbn in *; [lia|destruct H2; split; [lia|done]].
  - rewrite IH. naive_solver.
Qed.
Definition times (r : Readings) : list Z :=
  [rd_init r; rd_cleanup r; (rd_global r).1; (rd_global r).2; rd_agent_new r; (rd_agent r).1; (rd_agent r).2;
   rd_tool_new r; (rd_tool r).1; (rd_tool r).2].
Record RateCall := MkRateCall { ca_readings : Readings; ca_agent : string; ca_tool : string }.
Definition clock_of (calls : list RateCall) : list Z := calls ≫= λ c, times (ca_readings c).
(** The answers of the process to these calls, and of a limiter whose buckets are
    never dropped. *)
Fixpoint answers (var : string → option string) (guard : option RateLimiter) (calls : list RateCall) : list RateLimitResult :=
  match calls with
  | [] => []
  | c :: calls =>
      let '(answer, guard) := check_rate_limit var (ca_readings c) (ca_agent c) (ca_tool c) guard in
      answer :: answers var guard calls
  end.
Fixpoint kept_answers (l : RateLimiter) (calls : list RateCall) : list RateLimitResult :=
  match calls with
  | [] => []
  | c :: calls =>
      let '(answer, l) := rate_check (ca_readings c) (ca_agent c) (ca_tool c) l in answer :: kept_answers l calls
  end.

(** ** Dropping idle buckets *)
Definition entry_ok (n now : Z) (o : option RateBucket) : Prop :=
  ∀ b, o = Some b → bucket_ok n b ∧ 0 ≤ rb_last_refill b ≤ now.
Definition entry_rel (n now : Z) (o1 o2 : option RateBucket) : Prop :=
  entry_ok n now o1 ∧ entry_ok n now o2
  ∧ (n = 0 ∨ o1 = o2 ∨ o1 = None ∧ ∃ b, o2 = Some b ∧ rb_last_refill b + MAX_IDLE ≤ now).
Lemma entry_ok_mono n now later o : entry_ok n now o → now ≤ later → entry_ok n later o.
Proof. intros H Hl b Hb. destruct (H b Hb) as [? ?]. split; [done|lia]. Qed.
Lemma entry_rel_mono n now later o1 o2 : entry_rel n now o1 o2 → now ≤ later → entry_rel n later o1 o2.
Proof.
  intros (H1 & H2 & H3) Hl. split_and!; [by eapply entry_ok_mono|by eapply entry_ok_mono|].
  destruct H3 as [?|[?|(? & b & ? & ?)]]; [by left|by right; left|]. right. right. split; [done|]. exists b. split; [done|lia].
Qed.
Lemma bucket_default_ok n now new o : limit_ok n → entry_ok n now o → now ≤ new → 0 ≤ now →
  bucket_ok n (default (RateBucket_new n new) o) ∧ 0 ≤ rb_last_refill (default (RateBucket_new n new) o) ≤ new.
Proof.
  intros Hn Ho Hnew H0. destruct o as [b|]; cbn [default from_option].
  - destruct (Ho b eq_refl). split; [done|]. cbn. lia.
  - split; [by apply new_ok|]. unfold RateBucket_new. destruct (n =? 0); cbn; lia.
Qed.
Lemma consume_ok n b t1 t2 : limit_ok n → bucket_ok n b → 0 ≤ rb_last_refill b ≤ t1 → t1 ≤ t2 ≤ u64_max →
  entry_ok n t2 (Some (try_consume t1 t2 b).2).
Proof.
  intros Hn Hb Ht1 Ht2 b' [= <-]. destruct (decide (n = 0)) as [->|H0].
  - cbn in Hb. unfold try_consume. rewrite Hb. cbn. split; [done|lia].
  - destruct (try_consume_spec n Hn H0 b t1 t2 Hb) as (H1 & H2 & _); [unfold duration_since; lia|]. split; [done|lia].
Qed.
Lemma consume_disabled b t1 t2 : bucket_ok 0 b → try_consume t1 t2 b = (RateAllowed, b).
Proof. intros Hb. unfold try_consume. by rewrite (Hb : rb_disabled b = true). Qed.
(** A bucket full of tokens, whichever way it became full. *)
Lemma refill_full n b t1 t2 : limit_ok n → n ≠ 0 → bucket_ok n b → 0 ≤ rb_last_refill b ≤ t1 → t1 ≤ u64_max →
  rb_tokens b = f64_of_uint n ∨ rb_last_refill b + MAX_IDLE ≤ t1 →
  refill t1 t2 b = MkBucket false (f64_of_uint n) (f64_of_uint n) (f64_div (f64_of_uint n) (f64_of_uint 60)) t2.
Proof.
  intros Hn H0 Hb Ht1 Ht2 Hfull.
  assert (0 ≤ duration_since t1 (rb_last_refill b) ≤ u64_max) as Hd by (unfold duration_since; lia).
  destruct (refill_spec n Hn H0 b t1 t2 Hb Hd) as (Hb' & Ht & _ & Hk).
  destruct (bucket_ok_on n b H0 Hb) as (Hdis & Hmax & Hrate & Htok & Hle).
  destruct (bucket_ok_on n _ H0 Hb') as (_ & _ & _ & Htok' & Hle').
  destruct (uint_exact n) as [Hn1 Hn2]; [unfold u32_max in Hn; lia|]. pose proof (limit_range n Hn H0) as HN.
  assert (inject_Z n <= value (rb_tokens (refill t1 t2 b)))%Q as Hge.
  { apply Hk; [lia|]. destruct Hfull as [Hfull|Hidle]; [left; by rewrite Hfull, Hn2; apply Qle_refl|right].
    pose proof (value_nonneg (rb_tokens b)).
    assert (900 <= seconds_of (duration_since t1 (rb_last_refill b)))%Q as Hs.
    { unfold seconds_of. assert (inject_Z 900000000000 <= inject_Z (duration_since t1 (rb_last_refill b)))%Q as H1.
      { rewrite <-Zle_Qle. unfold duration_since, MAX_IDLE in *. lia. }
      change (inject_Z 900000000000) with 900000000000%Q in H1. lra. }
    assert (900 * per_second n <= seconds_of (duration_since t1 (rb_last_refill b)) * per_second n)%Q as Hg.
    { apply Qmult_le_compat_r; [done|]. unfold per_second. lra. }
    unfold per_second at 1 in Hg. consts. lra. }
  assert (rb_tokens (refill t1 t2 b) = f64_of_uint n) as Heq by (apply value_inj; rewrite ?Hn2; [done|done|lra|lra]).
  unfold refill in Heq |- *. rewrite Hdis in Heq |- *. cbn [rb_tokens] in Heq. by rewrite Heq, Hmax, Hrate.
Qed.
Lemma consume_rel n now new t1 t2 o1 o2 : limit_ok n → entry_rel n now o1 o2 → 0 ≤ now → from_to now [new; t1; t2] u64_max →
  let r1 := try_consume t1 t2 (default (RateBucket_new n new) o1) in
  let r2 := try_consume t1 t2 (default (RateBucket_new n new) o2) in
  r1.1 = r2.1 ∧ entry_rel n t2 (Some r1.2) (Some r2.2).
Proof.
  intros Hn (Ho1 & Ho2 & Hrel) Hnow (H1 & H2 & H3 & H4) r1 r2. cbn in H4.
  destruct (bucket_default_ok n now new o1 Hn Ho1 H1 Hnow) as [Hb1 Hl1].
  destruct (bucket_default_ok n now new o2 Hn Ho2 H1 Hnow) as [Hb2 Hl2].
  assert (entry_ok n t2 (Some r1.2)) as Hr1 by (apply consume_ok; [done|done|lia|lia]).
  assert (entry_ok n t2 (Some r2.2)) as Hr2 by (apply consume_ok; [done|done|lia|lia]).
  assert (n = 0 ∧ r1.1 = r2.1 ∨ r1 = r2) as [[-> Heq]|Heq].
  { destruct Hrel as [->|[->|(-> & b & -> & Hidle)]]; [left|by right|].
    - split; [done|]. unfold r1, r2. by rewrite !consume_disabled.
    - destruct (decide (n = 0)) as [->|H0]; [left|right].
      + split; [done|]. unfold r1, r2. by rewrite !consume_disabled.
      + cbn [default from_option id] in *. unfold r1, r2, try_consume.
        rewrite (refill_full n _ t1 t2 Hn H0 Hb1) by (lia || (left; unfold RateBucket_new; by destruct (Z.eqb_spec n 0))).
        rewrite (refill_full n _ t1 t2 Hn H0 Hb2) by (lia || (right; lia)).
        by rewrite (proj1 (bucket_ok_on n _ H0 Hb1)), (proj1 (bucket_ok_on n _ H0 Hb2)). }
  - split; [done|]. split_and!; [done|done|by left].
  - rewrite Heq in *. split; [done|]. split_and!; [done|done|by right; left].
Qed.
Lemma cleanup_rel n now o1 o2 (m : gmap string RateBucket) k : entry_rel n now (m !! k) o2 → o1 = m !! k →
  entry_rel n now (filter (λ kb : string * RateBucket, is_recent now MAX_IDLE kb.2 = true) m !! k) o2.
Proof.
  intros (H1 & H2 & H3) ->. destruct (m !! k) as [b|] eqn:Hk.
  - destruct (is_recent now MAX_IDLE b) eqn:Hr.
    + rewrite (proj2 (map_lookup_filter_Some _ m k b)) by done. done.
    + assert (filter (λ kb : string * RateBucket, is_recent now MAX_IDLE kb.2 = true) m !! k = None) as ->.
      { apply map_lookup_filter_None. right. intros b' Hb'. rewrite Hk in Hb'. injection Hb' as <-. cbn. by rewrite Hr. }
      split_and!; [done|done|]. destruct H3 as [?|[<-|[? _]]]; [by left| |done].
      right. right. split; [done|]. exists b. split; [done|].
      destruct (H1 b eq_refl) as [_ ?]. unfold is_recent, duration_since in Hr. apply Z.ltb_ge in Hr. lia.
  - assert (filter (λ kb : string * RateBucket, is_recent now MAX_IDLE kb.2 = true) m !! k = None) as ->.
    { apply map_lookup_filter_None. by left. }
    done.
Qed.
Definition map_rel (n now : Z) (m1 m2 : gmap string RateBucket) : Prop := ∀ k, entry_rel n now (m1 !! k) (m2 !! k).
Lemma map_rel_mono n now later m1 m2 : map_rel n now m1 m2 → now ≤ later → map_rel n later m1 m2.
Proof. intros H ? k. by eapply entry_rel_mono. Qed.
Lemma consume_entry_rel n now new t key m1 m2 : limit_ok n → map_rel n now m1 m2 → 0 ≤ now → from_to now [new; t.1; t.2] u64_max →
  (consume_entry n new t key m1).1 = (consume_entry n new t key m2).1
  ∧ map_rel n t.2 (consume_entry n new t key m1).2 (consume_entry n new t key m2).2.
Proof.
  intros Hn Hm Hnow Ht. pose proof (consume_rel n now new t.1 t.2 _ _ Hn (Hm key) Hnow Ht) as Hc. cbn zeta in Hc.
  destruct Ht as (? & ? & ? & ?). unfold consume_entry. destruct (try_consume _ _ (default _ (m1 !! key))) as [a1 b1], (try_consume _ _ (default _ (m2 !! key))) as [a2 b2].
  cbn in Hc |- *. destruct Hc as [Ha Hb]. split; [done|]. intros k. destruct (decide (k = key)) as [->|Hk].
  - by rewrite !lookup_insert_eq.
  - rewrite !lookup_insert_ne by done. eapply entry_rel_mono; [apply Hm|lia].
Qed.

Definition limits : Type := Z * Z * Z.
Definition rates_ok (lims : limits) : Prop := limit_ok lims.1.1 ∧ limit_ok lims.1.2 ∧ limit_ok lims.2.
Record limiter_rel (lims : limits) (now : Z) (l1 l2 : RateLimiter) : Prop := {
  lr_global : rl_global_bucket l1 = rl_global_bucket l2;
  lr_global_ok : entry_ok lims.1.1 now (Some (rl_global_bucket l2));
  lr_agent_limit : rl_agent_limit l1 = lims.1.2 ∧ rl_agent_limit l2 = lims.1.2;
  lr_tool_limit : rl_tool_limit l1 = lims.2 ∧ rl_tool_limit l2 = lims.2;
  lr_agents : map_rel lims.1.2 now (rl_agent_buckets l1) (rl_agent_buckets l2);
  lr_tools : map_rel lims.2 now (rl_tool_buckets l1) (rl_tool_buckets l2);
}.
Lemma new_limiter_rel lims now : rates_ok lims → 0 ≤ now →
  limiter_rel lims now (RateLimiter_new lims.1.1 lims.1.2 lims.2 now) (RateLimiter_new lims.1.1 lims.1.2 lims.2 now).
Proof.
  intros (H1 & H2 & H3) Hnow. split; try done.
  - intros b [= <-]. split; [by apply new_ok|]. unfold RateBucket_new. destruct (_ =? 0); cbn; lia.
  - intros k. cbn. rewrite lookup_empty. split_and!; [done|done|by right; left].
  - intros k. cbn. rewrite lookup_empty. split_and!; [done|done|by right; left].
Qed.
Lemma cleanup_stale_rel lims now later l1 l2 : limiter_rel lims now l1 l2 → now ≤ later →
  limiter_rel lims later (cleanup_stale later MAX_IDLE l1) l2.
Proof.
  intros [H1 H2 H3 H4 H5 H6] Hl. split; try done; [by eapply entry_ok_mono| |]; intros k; cbn; eapply cleanup_rel; try done.
  - by eapply entry_rel_mono.
  - by eapply entry_rel_mono.
Qed.
Lemma rate_check_rel lims now r agent tool l1 l2 : rates_ok lims → limiter_rel lims now l1 l2 → 0 ≤ now →
  from_to now (drop 2 (times r)) u64_max →
  (rate_check r agent tool l1).1 = (rate_check r agent tool l2).1
  ∧ limiter_rel lims (rd_tool r).2 (rate_check r agent tool l1).2 (rate_check r agent tool l2).2.
Proof.
  intros (Hg & Ha & Ht) [H1 H2 [H3 H3'] [H4 H4'] H5 H6] Hnow Htimes. cbn in Htimes. unfold rate_check.
  rewrite H1. destruct (H2 _ eq_refl) as [Hb Hlast].
  pose proof (consume_ok lims.1.1 _ (rd_global r).1 (rd_global r).2 Hg Hb ltac:(lia) ltac:(lia)) as Hgb.
  destruct (try_consume _ _ _) as [global g]. cbn [snd] in Hgb.
  destruct global; [|cbn; split; [done|]; split; cbn; try done; [eapply entry_ok_mono; [exact Hgb|lia]|eapply map_rel_mono; [done|lia]..]].
  cbn [rl_agent_limit rl_agent_buckets rl_tool_limit rl_tool_buckets]. rewrite H3, H3', H4, H4'.
  pose proof (consume_entry_rel _ now (rd_agent_new r) (rd_agent r) agent _ _ Ha H5 Hnow ltac:(cbn; lia)) as [Hagent Hagents].
  destruct (consume_entry _ _ _ _ (rl_agent_buckets l1)) as [a1 m1], (consume_entry _ _ _ _ (rl_agent_buckets l2)) as [a2 m2].
  cbn [fst snd] in Hagent, Hagents. subst a2.
  destruct a1; [|cbn; split; [done|]; split; cbn; try done; [eapply entry_ok_mono; [exact Hgb|lia]|eapply map_rel_mono; [done|lia]..]].
  pose proof (consume_entry_rel _ now (rd_tool_new r) (rd_tool r) tool _ _ Ht H6 Hnow ltac:(cbn; lia)) as [Htool Htools].
  destruct (consume_entry _ _ _ _ (rl_tool_buckets l1)) as [c1 n1], (consume_entry _ _ _ _ (rl_tool_buckets l2)) as [c2 n2].
  cbn [fst snd] in Htool, Htools. subst c2. cbn. split; [done|]. split; cbn; try done; [eapply entry_ok_mono; [exact Hgb|lia]|].
  eapply map_rel_mono; [done|lia].
Qed.

Lemma parse_digits_nonneg s acc n : 0 ≤ acc → parse_digits acc s = Some n → 0 ≤ n.
Proof.
  revert acc. induction s as [|a s IH]; intros acc Hacc; cbn; [by intros [= <-]|].
  unfold byte_in. destruct ((48 <=? byte_val a) && (byte_val a <=? 57)) eqn:E; [|done].
  destruct (_ <=? u64_max); [|done]. apply IH. lia.
Qed.
Lemma env_u32_range var keys n : env_u32 var keys = Some n → limit_ok n.
Proof.
  induction keys as [|k keys IH]; cbn [env_u32]; [done|].
  destruct (var k ≫= λ v, parse_u32 (trim v)) as [m|] eqn:E; [|done]. intros [= <-].
  destruct (var k) as [v|]; [|done]. cbn in E. unfold parse_u32 in E.
  destruct (parse_u64 (trim v)) as [p|] eqn:Hp; [|done]. cbn in E. destruct (Z.leb_spec p u32_max); [|done]. injection E as ->.
  split; [|done]. unfold parse_u64 in Hp. destruct (str_is_empty _); [done|]. by eapply parse_digits_nonneg.
Qed.
Lemma limits_of_env_ok var : rates_ok (limits_of_env var).
Proof.
  assert (∀ d keys, limit_ok d → limit_ok (default d (env_u32 var keys))) as H.
  { intros d keys Hd. destruct (env_u32 var keys) as [n|] eqn:E; [|done]. by apply env_u32_range in E. }
  unfold rates_ok, limits_of_env. cbn [fst snd]. split_and!; by apply H.
Qed.

Lemma answers_kept var lims calls l1 l2 now : rates_ok lims → limiter_rel lims now l1 l2 → 0 ≤ now →
  from_to now (clock_of calls) u64_max → answers var (Some l1) calls = kept_answers l2 calls.
Proof.
  intros Hlims. revert l1 l2 now. induction calls as [|c calls IH]; intros l1 l2 now Hrel Hnow Ht; [done|].
  unfold clock_of in Ht. cbn [mbind list_bind] in Ht. apply from_to_app in Ht as (m & Hc & Ht).
  pose proof Hc as Hc'. cbn in Hc'. pose proof (from_to_le _ _ _ Ht).
  cbn [answers kept_answers]. unfold check_rate_limit. cbn [default from_option id].
  destruct (rate_check_rel lims (rd_cleanup (ca_readings c)) (ca_readings c) (ca_agent c) (ca_tool c)
    (cleanup_stale (rd_cleanup (ca_readings c)) MAX_IDLE l1) l2) as [Ha Hl]; [done| |lia|cbn; lia|].
  { eapply cleanup_stale_rel; [done|lia]. }
  destruct (rate_check _ _ _ (cleanup_stale _ _ _)) as [a1 l1'], (rate_check _ _ _ l2) as [a2 l2'].
  cbn [fst snd] in Ha, Hl. subst a2. f_equal. eapply IH; [exact Hl|lia|].
  eapply from_to_weaken; [|exact Ht]. lia.
Qed.

(** The first call makes the limiter. *)
Lemma first_call var c calls : from_to 0 (clock_of (c :: calls)) u64_max →
  let l := limiter_of_env var (rd_init (ca_readings c)) in
  answers var None (c :: calls) = kept_answers l (c :: calls)
  ∧ limiter_rel (limits_of_env var) (rd_init (ca_readings c)) l l.
Proof.
  intros Ht l. pose proof (limits_of_env_ok var) as Hlims.
  assert (0 ≤ rd_init (ca_readings c)) as Hc by (cbn in Ht; lia).
  assert (limiter_rel (limits_of_env var) (rd_init (ca_readings c)) l l) as Hrel.
  { pose proof (new_limiter_rel _ _ Hlims Hc) as Hrel. unfold l, limiter_of_env. by destruct (limits_of_env var) as [[g a] t]. }
  split; [|done]. transitivity (answers var (Some l) (c :: calls)); [done|].
  eapply answers_kept; [exact Hlims|exact Hrel|done|]. cbn in Ht |- *. split; [lia|]. apply Ht.
Qed.

(** C13: Forgetting costs nothing: the limiter drops a bucket that was idle for
    fifteen minutes, and yet, whatever the limits and whoever called when, every
    call is answered as if no bucket were ever dropped, with the same time to
    wait. *)
Theorem forgetting_is_invisible var c calls : from_to 0 (clock_of (c :: calls)) u64_max →
  answers var None (c :: calls) = kept_answers (limiter_of_env var (rd_init (ca_readings c))) (c :: calls).
Proof. intros Ht. by apply first_call. Qed.

(** ** Counting *)
Inductive Counted := Everyone | OfAgent (id : string) | OfTool (name : string).
Definition concerns (c : Counted) (k : RateCall) : bool :=
  match c with
  | Everyone => true
  | OfAgent id => bool_decide (ca_agent k = id)
  | OfTool name => bool_decide (ca_tool k = name)
  end.
Definition is_allowed (a : RateLimitResult) : bool := match a with RateAllowed => true | RateLimited _ => false end.
(** How many of these calls were allowed. *)
Fixpoint admitted (c : Counted) (calls : list RateCall) (results : list RateLimitResult) : Z :=
  match calls, results with
  | k :: calls, a :: results => Z.b2z (concerns c k && is_allowed a) + admitted c calls results
  | _, _ => 0
  end.
Definition limit_for (lims : limits) (c : Counted) : Z :=
  match c with Everyone => lims.1.1 | OfAgent _ => lims.1.2 | OfTool _ => lims.2 end.
Definition bucket_of (c : Counted) (l : RateLimiter) : option RateBucket :=
  match c with
  | Everyone => Some (rl_global_bucket l)
  | OfAgent id => rl_agent_buckets l !! id
  | OfTool name => rl_tool_buckets l !! name
  end.
Lemma bucket_of_ok lims now l c : limiter_rel lims now l l → entry_ok (limit_for lims c) now (bucket_of c l).
Proof. intros [_ H1 _ _ H2 H3]. destruct c; cbn; [done|apply H2|apply H3]. Qed.
Lemma limit_for_ok lims c : rates_ok lims → limit_ok (limit_for lims c).
Proof. intros (? & ? & ?). by destruct c. Qed.

(** What a call does to one of the buckets. *)
Lemma rate_check_bucket lims now r agent tool l c : limiter_rel lims now l l → from_to now (drop 2 (times r)) u64_max →
  let res := rate_check r agent tool l in
  bucket_of c res.2 = bucket_of c l ∧ concerns c (MkRateCall r agent tool) && is_allowed res.1 = false
  ∨ ∃ new t1 t2, from_to now [new; t1; t2] (rd_tool r).2
      ∧ let used := try_consume t1 t2 (default (RateBucket_new (limit_for lims c) new) (bucket_of c l)) in
        bucket_of c res.2 = Some used.2 ∧ (is_allowed res.1 = true → is_allowed used.1 = true).
Proof.
  intros [_ _ [H3 _] [H4 _] _ _] Ht. cbn in Ht. unfold rate_check, consume_entry.
  destruct (try_consume (rd_global r).1 _ _) as [global g] eqn:Eg.
  destruct c as [|id|name]; cbn [bucket_of limit_for].
  - right. exists now, (rd_global r).1, (rd_global r).2. split; [cbn; lia|]. cbn [default from_option id]. rewrite Eg.
    destruct global; [|done]. cbn. by repeat (case_match; cbn).
  - destruct global; [|left; cbn; by rewrite andb_false_r]. cbn [rl_agent_limit rl_agent_buckets]. rewrite H3.
    destruct (decide (agent = id)) as [->|Hne]; [right|left].
    + exists (rd_agent_new r), (rd_agent r).1, (rd_agent r).2. split; [cbn; lia|].
      destruct (try_consume (rd_agent r).1 _ _) as [a b] eqn:Ea. cbn.
      destruct a; [|cbn; by rewrite lookup_insert_eq]. cbn.
      destruct (try_consume (rd_tool r).1 _ _) as [a' b'] eqn:Et. cbn. by rewrite lookup_insert_eq.
    + cbn [concerns ca_agent]. rewrite bool_decide_false by done. split; [|done].
      destruct (try_consume (rd_agent r).1 _ _) as [a b] eqn:Ea. cbn.
      destruct a; [|cbn; by rewrite lookup_insert_ne]. cbn.
      destruct (try_consume (rd_tool r).1 _ _) as [a' b'] eqn:Et. cbn. by rewrite lookup_insert_ne.
  - destruct global; [|left; cbn; by rewrite andb_false_r]. cbn [rl_agent_limit rl_agent_buckets rl_tool_limit rl_tool_buckets]. rewrite H4.
    destruct (try_consume (rd_agent r).1 _ _) as [a b] eqn:Ea. cbn.
    destruct a; [|left; cbn; by rewrite andb_false_r]. cbn.
    destruct (decide (tool = name)) as [->|Hne]; [right|left].
    + exists (rd_tool_new r), (rd_tool r).1, (rd_tool r).2. split; [cbn; lia|].
      destruct (try_consume (rd_tool r).1 _ _) as [a' b'] eqn:Et. cbn. by rewrite lookup_insert_eq.
    + rewrite bool_decide_false by done. split; [|done].
      destruct (try_consume (rd_tool r).1 _ _) as [a' b'] eqn:Et. cbn. by rewrite lookup_insert_ne.
Qed.

Section count.
Context (lims : limits) (c : Counted).
Notation n := (limit_for lims c).
Context (Hlims : rates_ok lims) (H0 : n ≠ 0).

(** What a bucket can gain in so many nanoseconds. *)
Definition gain (ns : Z) : Q := (seconds_of ns * per_second n * (1 + 16 * ulp))%Q.
Lemma gain_plus a b : (gain (a + b) == gain a + gain b)%Q.
Proof. unfold gain, seconds_of. rewrite inject_Z_plus. ring. Qed.
Lemma gain_split a b d : (gain (d - a) == gain (b - a) + gain (d - b))%Q.
Proof. rewrite <-gain_plus. by replace (b - a + (d - b)) with (d - a) by lia. Qed.
Lemma gain_pos ns : 0 ≤ ns → (0 <= gain ns)%Q.
Proof.
  intros Hns. unfold gain, seconds_of, per_second. pose proof (limit_range n (limit_for_ok _ _ Hlims) H0).
  repeat apply Qmult_le_0_compat; try lra; [|consts; lra]. change 0%Q with (inject_Z 0). by rewrite <-Zle_Qle.
Qed.
Lemma use_gain b t1 t2 : bucket_ok n b → 0 ≤ rb_last_refill b ≤ t1 → t1 ≤ t2 ≤ u64_max →
  let used := try_consume t1 t2 b in
  let taken := inject_Z (Z.b2z (is_allowed used.1)) in
  rb_last_refill used.2 = t2
  ∧ (value (rb_tokens used.2) + taken <= value (rb_tokens b) + gain (t1 - rb_last_refill b) + slack
     ∧ value (rb_tokens used.2) + taken <= inject_Z n + slack)%Q.
Proof.
  intros Hb Hl Ht used taken. pose proof (limit_for_ok _ c Hlims) as Hn. pose proof (limit_range n Hn H0) as HN.
  assert (duration_since t1 (rb_last_refill b) = t1 - rb_last_refill b) as Hd by (unfold duration_since; lia).
  assert (0 ≤ duration_since t1 (rb_last_refill b) ≤ u64_max) as Hd' by lia.
  destruct (try_consume_spec n Hn H0 b t1 t2 Hb Hd') as (_ & Hlast & Hres).
  destruct (refill_spec n Hn H0 b t1 t2 Hb Hd') as (Hb' & _ & Hup & _).
  pose proof (gain_nonneg n Hn H0 _ Hd') as Hg. rewrite Hd in Hup, Hg.
  destruct (bucket_ok_on n _ H0 Hb) as (_ & _ & _ & _ & HT). destruct (bucket_ok_on n _ H0 Hb') as (_ & _ & _ & _ & Hv).
  pose proof (value_nonneg (rb_tokens b)) as HT0. pose proof (value_nonneg (rb_tokens (refill t1 t2 b))) as Hv0.
  split; [done|]. unfold gain, taken, used. set (p := (seconds_of _ * per_second n)%Q) in *. fold used. fold used in Hres.
  destruct (used.1) as [|ms]; cbn [is_allowed Z.b2z]; [destruct Hres as [_ Hres]|destruct Hres as (_ & -> & _)];
    consts; split; lra.
Qed.

(** One call of a run: what it adds to the count, and what it does to the bucket. *)
Lemma count_step l now fin call calls : limiter_rel lims now l l → 0 ≤ now → from_to now (clock_of (call :: calls)) fin → fin ≤ u64_max →
  ∃ l' last x, now ≤ last ∧ limiter_rel lims last l' l' ∧ from_to last (clock_of calls) fin
    ∧ (inject_Z (admitted c (call :: calls) (kept_answers l (call :: calls)))
       == x + inject_Z (admitted c calls (kept_answers l' calls)))%Q
    ∧ (inject_Z (Z.of_nat (length (call :: calls))) * slack == inject_Z (Z.of_nat (length calls)) * slack + slack)%Q
    ∧ (x = 0%Q ∧ bucket_of c l' = bucket_of c l
       ∨ ∃ new t1 t2, from_to now [new; t1; t2] last
           ∧ let used := try_consume t1 t2 (default (RateBucket_new n new) (bucket_of c l)) in
             bucket_of c l' = Some used.2 ∧ (x <= inject_Z (Z.b2z (is_allowed used.1)))%Q).
Proof.
  intros Hrel Hnow Ht Hfin. destruct call as [r agent tool].
  unfold clock_of in Ht. cbn [mbind list_bind ca_readings] in Ht. apply from_to_app in Ht as (m & Hc & Ht).
  pose proof (from_to_le _ _ _ Ht) as Hm. cbn [kept_answers ca_readings ca_agent ca_tool]. cbn in Hc.
  assert (from_to now (drop 2 (times r)) u64_max) as Hc' by (cbn; lia).
  destruct (rate_check_rel lims now r agent tool l l Hlims Hrel Hnow Hc') as [_ Hrel'].
  pose proof (rate_check_bucket lims now r agent tool l c Hrel Hc') as Hstep. cbn zeta in Hstep.
  destruct (rate_check r agent tool l) as [a l']. cbn [fst snd] in Hrel', Hstep. cbn [admitted length].
  exists l', (rd_tool r).2, (inject_Z (Z.b2z (concerns c (MkRateCall r agent tool) && is_allowed a))).
  split; [lia|]. split; [done|]. split; [eapply from_to_weaken; [|exact Ht]; lia|].
  split; [by rewrite inject_Z_plus|]. split.
  { rewrite Nat2Z.inj_succ, <-Z.add_1_r, inject_Z_plus. change (inject_Z 1) with 1%Q. ring. }
  destruct Hstep as [[Hb Ha]|(new & t1 & t2 & Htimes & Hb & Ha)]; [left; by rewrite Ha|right].
  exists new, t1, t2. split; [done|]. split; [done|]. rewrite <-Zle_Qle.
  destruct (concerns _ _), (is_allowed a); cbn; try (destruct (is_allowed _); done). by rewrite Ha.
Qed.

(** The bucket after the last reading that is known. *)
Lemma count_from calls : ∀ l now fin b, limiter_rel lims now l l → 0 ≤ now → from_to now (clock_of calls) fin → fin ≤ u64_max →
  bucket_of c l = Some b →
  (inject_Z (admitted c calls (kept_answers l calls))
   <= value (rb_tokens b) + gain (fin - rb_last_refill b) + inject_Z (Z.of_nat (length calls)) * slack)%Q.
Proof.
  induction calls as [|call calls IH]; intros l now fin b Hrel Hnow Ht Hfin Hb; destruct (bucket_of_ok _ _ _ c Hrel b Hb) as [Hbok Hlast].
  - cbn [admitted kept_answers length]. cbn in Ht. pose proof (value_nonneg (rb_tokens b)).
    pose proof (gain_pos (fin - rb_last_refill b) ltac:(lia)). change (inject_Z (Z.of_nat 0)) with 0%Q. change (inject_Z 0) with 0%Q. lra.
  - destruct (count_step l now fin call calls Hrel Hnow Ht Hfin) as (l' & last & x & Hlast' & Hrel' & Ht' & Hsum & Hs & Hstep).
    pose proof (from_to_le _ _ _ Ht') as Hle. assert (0 < slack)%Q as Hslack by by vm_compute.
    destruct Hstep as [[-> Hb']|(new & t1 & t2 & Htimes & Hb' & Hx)].
    + rewrite Hb in Hb'. specialize (IH l' _ fin b Hrel' ltac:(lia) Ht' Hfin Hb'). lra.
    + cbn in Htimes. rewrite Hb in Hb', Hx. cbn [default from_option id] in Hb', Hx.
      destruct (use_gain b t1 t2 Hbok ltac:(lia) ltac:(lia)) as (Hlast2 & Hgain & _).
      specialize (IH l' _ fin _ Hrel' ltac:(lia) Ht' Hfin Hb'). rewrite Hlast2 in IH.
      rewrite (gain_split (rb_last_refill b) t1 fin), (gain_split t1 t2 fin). pose proof (gain_pos (t2 - t1) ltac:(lia)). lra.
Qed.
Lemma count_any calls : ∀ l now fin, limiter_rel lims now l l → 0 ≤ now → from_to now (clock_of calls) fin → fin ≤ u64_max →
  (inject_Z (admitted c calls (kept_answers l calls))
   <= inject_Z n + gain (fin - now) + inject_Z (Z.of_nat (length calls)) * slack)%Q.
Proof.
  pose proof (limit_for_ok _ c Hlims) as Hn. pose proof (limit_range n Hn H0) as HN.
  induction calls as [|call calls IH]; intros l now fin Hrel Hnow Ht Hfin.
  - cbn [admitted kept_answers length]. cbn in Ht. pose proof (gain_pos (fin - now) ltac:(lia)).
    change (inject_Z (Z.of_nat 0)) with 0%Q. change (inject_Z 0) with 0%Q. lra.
  - destruct (count_step l now fin call calls Hrel Hnow Ht Hfin) as (l' & last & x & Hlast & Hrel' & Ht' & Hsum & Hs & Hstep).
    pose proof (from_to_le _ _ _ Ht') as Hle. assert (0 < slack)%Q as Hslack by by vm_compute.
    destruct Hstep as [[-> _]|(new & t1 & t2 & Htimes & Hb' & Hx)].
    + specialize (IH l' _ fin Hrel' ltac:(lia) Ht' Hfin). rewrite (gain_split now last fin).
      pose proof (gain_pos (last - now) ltac:(lia)). lra.
    + cbn in Htimes. destruct (bucket_default_ok n now new (bucket_of c l) Hn (bucket_of_ok _ _ _ c Hrel) ltac:(lia) Hnow) as [Hbok Hlast'].
      set (b := default _ (bucket_of c l)) in *.
      destruct (use_gain b t1 t2 Hbok ltac:(lia) ltac:(lia)) as (Hlast2 & _ & Hfull).
      pose proof (count_from calls l' _ fin _ Hrel' ltac:(lia) Ht' Hfin Hb') as Hrest. rewrite Hlast2 in Hrest.
      rewrite (gain_split now t2 fin). pose proof (gain_pos (t2 - now) ltac:(lia)). lra.
Qed.
End count.

Fixpoint limiter_after (l : RateLimiter) (calls : list RateCall) : RateLimiter :=
  match calls with
  | [] => l
  | c :: calls => limiter_after (rate_check (ca_readings c) (ca_agent c) (ca_tool c) l).2 calls
  end.
Lemma kept_answers_app l before during :
  drop (length before) (kept_answers l (before ++ during)) = kept_answers (limiter_after l before) during.
Proof.
  revert l. induction before as [|c before IH]; intros l; [done|]. cbn.
  destruct (rate_check _ _ _ l) as [a l'] eqn:E. cbn. apply IH.
Qed.
Lemma limiter_after_rel lims before : rates_ok lims → ∀ l now m, limiter_rel lims now l l → 0 ≤ now →
  from_to now (clock_of before) m → m ≤ u64_max → ∃ last, now ≤ last ≤ m ∧ limiter_rel lims last (limiter_after l before) (limiter_after l before).
Proof.
  intros Hlims. induction before as [|c before IH]; intros l now m Hrel Hnow Ht Hm; [exists now; cbn in *; split; [lia|done]|].
  unfold clock_of in Ht. cbn [mbind list_bind] in Ht. apply from_to_app in Ht as (k & Hc & Ht). cbn in Hc.
  pose proof (from_to_le _ _ _ Ht).
  destruct (rate_check_rel lims now (ca_readings c) (ca_agent c) (ca_tool c) l l Hlims Hrel Hnow ltac:(cbn; lia)) as [_ Hrel'].
  destruct (IH _ _ m Hrel' ltac:(lia)) as (last & Hlast & Hr); [eapply from_to_weaken; [|exact Ht]; lia|done|].
  exists last. split; [lia|done].
Qed.
Lemma limiter_rel_mono lims now later l : limiter_rel lims now l l → now ≤ later → limiter_rel lims later l l.
Proof. intros [H1 H2 H3 H4 H5 H6] Hl. split; try done; [by eapply entry_ok_mono|by eapply map_rel_mono..]. Qed.

Definition DAY : Z := 24 * 60 * 60 * 1000000000.
(** From the bound in [Q] to one in [Z]. *)
Lemma count_bound n count ns calls : limit_ok n → 0 ≤ ns ≤ DAY → 0 ≤ calls ≤ 500000 →
  (inject_Z count <= inject_Z n + seconds_of ns * per_second n * (1 + 16 * ulp) + inject_Z calls * slack)%Q →
  count ≤ n + n * ns / 60000000000 + 1.
Proof.
  intros Hn Hns Hcalls H. set (q := n * ns / 60000000000).
  assert (n * ns < 60000000000 * (q + 1)) as Hq by (pose proof (Z.mul_succ_div_gt (n * ns) 60000000000 ltac:(lia)); lia).
  assert (seconds_of ns * per_second n == inject_Z (n * ns) * (1 # 60000000000))%Q as Hx.
  { unfold seconds_of, per_second. rewrite inject_Z_mult. ring. }
  assert (0 ≤ n * ns ≤ u32_max * DAY) as Hr by (split; [apply Z.mul_nonneg_nonneg; lia|apply Z.mul_le_mono_nonneg; lia]).
  rewrite Hx in H. set (x := n * ns) in *. clearbody q x.
  rewrite Zlt_Qlt, inject_Z_mult, inject_Z_plus in Hq. destruct Hr as [Hr0 Hr1]. destruct Hcalls as [_ Hc].
  rewrite Zle_Qle in Hr0, Hr1, Hc. change (inject_Z (u32_max * DAY)) with 371085174288000000000000%Q in Hr1.
  change (inject_Z 60000000000) with 60000000000%Q in Hq. change (inject_Z 500000) with 500000%Q in Hc. change (inject_Z 0) with 0%Q in Hr0.
  assert (inject_Z count < inject_Z (n + q + 2))%Q as Hlt; [|rewrite <-Zlt_Qlt in Hlt; lia].
  rewrite !inject_Z_plus. change (inject_Z 2) with 2%Q. consts. lra.
Qed.

(** C12: The limits hold: in any period of a day at most, with no more than
    500,000 calls and whatever was called before it, an agent, a tool, and all
    callers together are each allowed at most their limit, their limit for each
    minute of the period, and one call.  A limit of zero is no limit. *)
Theorem calls_stay_within_rate var before during start finish c :
  let n := limit_for (limits_of_env var) c in
  from_to 0 (clock_of before) start → from_to start (clock_of during) finish → finish ≤ u64_max →
  finish - start ≤ DAY → Z.of_nat (length during) ≤ 500000 → n ≠ 0 →
  admitted c during (drop (length before) (answers var None (before ++ during))) ≤ n + n * (finish - start) / 60000000000 + 1.
Proof.
  intros n Hbefore Hduring Hfin Hday Hlen H0. pose proof (limits_of_env_ok var) as Hlims.
  pose proof (limit_for_ok _ c Hlims) as Hn. fold n in Hn.
  pose proof (from_to_le _ _ _ Hbefore) as Hstart. pose proof (from_to_le _ _ _ Hduring) as Hperiod.
  destruct (before ++ during) as [|k calls] eqn:E.
  { apply app_nil in E as [-> ->]. cbn. pose proof (Z.div_pos (n * (finish - start)) 60000000000). nia. }
  assert (from_to 0 (clock_of (k :: calls)) finish) as Hall.
  { rewrite <-E. unfold clock_of. rewrite bind_app. apply from_to_app. by exists start. }
  assert (from_to 0 (clock_of (k :: calls)) u64_max) as Hall' by by eapply from_to_upto.
  destruct (first_call var k calls Hall') as [-> Hrel]. rewrite <-E, kept_answers_app.
  set (l := limiter_of_env var _) in *.
  assert (∃ from, start ≤ from ≤ finish ∧ limiter_rel (limits_of_env var) from (limiter_after l before) (limiter_after l before)
    ∧ from_to from (clock_of during) finish) as (from & Hfrom & Hrel' & Hduring').
  { destruct before as [|k' before]; cbn [app] in E.
    - subst during. exists (rd_init (ca_readings k)). pose proof Hduring as [Hk Hrest]. split_and!; [done| |done|by split].
      by apply from_to_le in Hrest.
    - injection E as -> <-. exists start. pose proof Hbefore as [Hk Hrest]. split; [lia|]. split; [|done].
      destruct (limiter_after_rel _ (k :: before) Hlims l (rd_init (ca_readings k)) start Hrel Hk) as (last & Hlast & Hr); [by split|lia|].
      eapply limiter_rel_mono; [exact Hr|lia]. }
  apply (count_bound n _ (finish - start) (Z.of_nat (length during))); [done|lia|lia|].
  pose proof (count_any _ c Hlims H0 during _ from finish Hrel' ltac:(lia) Hduring' Hfin) as Hcount.
  pose proof (gain_split (limits_of_env var) c start from finish) as Hg.
  pose proof (gain_pos _ c Hlims H0 (from - start) ltac:(lia)). unfold gain in *. fold n in Hcount, Hg, H |- *.
  set (a := admitted _ _ _) in *. clearbody a. lra.
Qed.

(** ** The time to wait *)
Fixpoint used_at (uses : list (Z * Z)) (b : RateBucket) : RateBucket :=
  match uses with [] => b | t :: uses => used_at uses (try_consume t.1 t.2 b).2 end.
Lemma used_at_ok n uses : limit_ok n → ∀ b m, bucket_ok n b → 0 ≤ rb_last_refill b →
  from_to (rb_last_refill b) (uses ≫= λ t, [t.1; t.2]) m → m ≤ u64_max →
  bucket_ok n (used_at uses b) ∧ 0 ≤ rb_last_refill (used_at uses b) ≤ m.
Proof.
  intros Hn. induction uses as [|[t1 t2] uses IH]; intros b m Hb Hl Ht Hm; [cbn in *; split; [done|lia]|].
  cbn [mbind list_bind] in Ht. apply from_to_app in Ht as (k & Hc & Ht). cbn in Hc. pose proof (from_to_le _ _ _ Ht).
  destruct (consume_ok n b t1 t2 Hn Hb ltac:(lia) ltac:(lia) _ eq_refl) as [Hb' Hl'].
  apply IH; [done|cbn; lia| |done]. eapply from_to_weaken; [|exact Ht]. cbn. lia.
Qed.
Lemma secs_le a b : a ≤ b → (seconds_of a <= seconds_of b)%Q.
Proof. intros H. unfold seconds_of. apply Qmult_le_compat_r; [|done]. by rewrite <-Zle_Qle. Qed.
Lemma secs_ms ms : (seconds_of (ms * 1000000) == inject_Z ms * (1 # 1000))%Q.
Proof. unfold seconds_of. rewrite inject_Z_mult. change (inject_Z 1000000) with 1000000%Q. ring. Qed.

(** C24: The time to wait is right to the millisecond: whatever was taken from a
    bucket before, a caller that is refused and told to wait so many milliseconds
    is refused again before them, and is served when more than one millisecond
    beyond them has passed, if nothing else is taken meanwhile. *)
Theorem wait_is_as_told n made uses t1 t2 t3 t4 ms :
  let b := used_at uses (RateBucket_new n made) in
  limit_ok n → 0 ≤ made → from_to made (uses ≫= λ t, [t.1; t.2]) t1 → from_to t1 [t2; t3; t4] u64_max →
  (try_consume t1 t2 b).1 = RateLimited ms →
  let again := (try_consume t3 t4 (try_consume t1 t2 b).2).1 in
  (t3 - t2 < ms * 1000000 → is_allowed again = false) ∧ ((ms + 1) * 1000000 < t3 - t2 → again = RateAllowed).
Proof.
  intros b Hn Hmade Huses (H12 & H23 & H34 & H4) Hms again. cbn in H4.
  destruct (used_at_ok n uses Hn (RateBucket_new n made) t1) as [Hb Hl]; [by apply new_ok| | |lia|].
  { unfold RateBucket_new. by destruct (n =? 0). }
  { unfold RateBucket_new. by destruct (n =? 0). }
  fold b in Hb, Hl. destruct (decide (n = 0)) as [->|H0].
  { rewrite consume_disabled in Hms by done. done. }
  pose proof (limit_range n Hn H0) as HN.
  destruct (try_consume_spec n Hn H0 b t1 t2 Hb ltac:(unfold duration_since; lia)) as (Hb' & Hl' & Hres).
  rewrite Hms in Hres. destruct Hres as (Hv & Hb'' & Hlow & Hhigh). rewrite <-Hb'' in Hv, Hlow, Hhigh.
  set (b' := (try_consume t1 t2 b).2) in *. pose proof (value_nonneg (rb_tokens b')) as Hv0.
  assert (duration_since t3 (rb_last_refill b') = t3 - t2) as Hd by (unfold duration_since; lia).
  assert (0 ≤ duration_since t3 (rb_last_refill b') ≤ u64_max) as Hd' by lia.
  destruct (try_consume_spec n Hn H0 b' t3 t4 Hb' Hd') as (_ & _ & Hagain).
  destruct (refill_spec n Hn H0 b' t3 t4 Hb' Hd') as (_ & _ & Hup & Hdown). rewrite Hd in Hup, Hdown.
  fold again in Hagain. set (v := value (rb_tokens b')) in *. set (v' := value (rb_tokens (refill t3 t4 b'))) in *.
  set (c := per_second n) in *. assert (1#60 <= c)%Q as Hc by (unfold c, per_second; lra).
  split; intros Hwait.
  - destruct again; [exfalso|done]. destruct Hagain as [Hagain _].
    assert (seconds_of (t3 - t2) <= inject_Z ms * (1 # 1000) - (1 # 1000000000))%Q as Hs.
    { trans (seconds_of (ms * 1000000 + -1)); [apply secs_le; lia|]. rewrite <-secs_ms. unfold seconds_of.
      rewrite inject_Z_plus. change (inject_Z (-1)) with (-1)%Q. lra. }
    assert (seconds_of (t3 - t2) * c <= (inject_Z ms * (1 # 1000) - (1 # 1000000000)) * c)%Q as Hsc by (apply Qmult_le_compat_r; lra).
    clearbody v v' c. set (p := (seconds_of (t3 - t2) * c)%Q) in *. clearbody p. clear -Hsc Hc Hagain Hup Hlow Hv0 Hv. consts. lra.
  - destruct again; [done|exfalso]. destruct Hagain as [Hagain _].
    assert (inject_Z (ms + 1) * (1 # 1000) + (1 # 1000000000) <= seconds_of (t3 - t2))%Q as Hs.
    { trans (seconds_of ((ms + 1) * 1000000 + 1)); [|apply secs_le; lia]. rewrite <-secs_ms. unfold seconds_of.
      rewrite (inject_Z_plus (_ * _)). change (inject_Z 1) with 1%Q. lra. }
    assert ((inject_Z (ms + 1) * (1 # 1000) + (1 # 1000000000)) * c <= seconds_of (t3 - t2) * c)%Q as Hsc by (apply Qmult_le_compat_r; lra).
    assert (1 <= v')%Q; [|lra]. apply (Hdown 1 ltac:(lia)). right. change (inject_Z 1) with 1%Q.
    clearbody v v' c. set (p := (seconds_of (t3 - t2) * c)%Q) in *. clearbody p. clear -Hsc Hc Hhigh Hv0 Hv. consts. lra.
Qed.

(** ** Concrete runs *)
Definition at_once (t : Z) : Readings := MkReadings t t (t, t) t (t, t) t (t, t).
Definition unset (key : string) : option string := None.
Definition per_minute (limit : string) (key : string) : option string := Some limit.
Definition call_at (agent : string) (seconds : Z) : RateCall := MkRateCall (at_once (seconds * 1000000000)) agent "ctx_read".

Lemma forgetting_is_invisible_witness :
  from_to 0 (clock_of [call_at "a" 0; call_at "a" 1; call_at "b" 2000; call_at "a" 2001]) u64_max
  ∧ answers (per_minute "1") None [call_at "a" 0; call_at "a" 1; call_at "b" 2000; call_at "a" 2001]
    = kept_answers (limiter_of_env (per_minute "1") 0) [call_at "a" 0; call_at "a" 1; call_at "b" 2000; call_at "a" 2001]
  ∧ kept_answers (limiter_of_env (per_minute "1") 0) [call_at "a" 0; call_at "a" 1; call_at "b" 2000; call_at "a" 2001]
    = [RateAllowed; RateLimited 59000; RateAllowed; RateLimited 59000].
Proof.
  assert (from_to 0 (clock_of [call_at "a" 0; call_at "a" 1; call_at "b" 2000; call_at "a" 2001]) u64_max) as H
    by (cbv; repeat split; discriminate).
  split; [exact H|]. split; [|vm_compute; reflexivity].
  exact (forgetting_is_invisible (per_minute "1") (call_at "a" 0) [call_at "a" 1; call_at "b" 2000; call_at "a" 2001] H).
Defined.

Lemma calls_stay_within_rate_witness :
  limit_for (limits_of_env unset) (OfAgent "a") = 1800
  ∧ admitted (OfAgent "a") [call_at "a" 60; call_at "b" 61]
      (drop (length [call_at "a" 0]) (answers unset None ([call_at "a" 0] ++ [call_at "a" 60; call_at "b" 61])))
    ≤ limit_for (limits_of_env unset) (OfAgent "a") + limit_for (limits_of_env unset) (OfAgent "a") * (61000000000 - 60000000000) / 60000000000 + 1.
Proof.
  split; [reflexivity|].
  apply (calls_stay_within_rate unset [call_at "a" 0] [call_at "a" 60; call_at "b" 61] 60000000000 61000000000 (OfAgent "a"));
    cbv; first [discriminate|repeat split; discriminate].
Defined.

Lemma wait_is_as_told_witness :
  let b := used_at [(0, 0); (0, 0)] (RateBucket_new 2 0) in
  (try_consume 0 0 b).1 = RateLimited 30000
  ∧ is_allowed (try_consume 29999999999 29999999999 (try_consume 0 0 b).2).1 = false
  ∧ (try_consume 30001000001 30001000001 (try_consume 0 0 b).2).1 = RateAllowed.
Proof.
  split; [vm_compute; reflexivity|]. split.
  - apply (wait_is_as_told 2 0 [(0, 0); (0, 0)] 0 0 29999999999 29999999999 30000);
      first [vm_compute; reflexivity|cbv; first [discriminate|repeat split; discriminate]].
  - apply (wait_is_as_told 2 0 [(0, 0); (0, 0)] 0 0 30001000001 30001000001 30000);
      first [vm_compute; reflexivity|cbv; first [discriminate|repeat split; discriminate]].
Defined.

(** The milliseconds told are rounded down: a caller that waits exactly as told is
    refused again, and told to wait no time at all. *)
Example waiting_as_told_is_not_enough :
  let b := used_at [(0, 0); (0, 0); (0, 0); (0, 0); (0, 0); (0, 0); (0, 0)] (RateBucket_new 7 0) in
  (try_consume 0 0 b).1 = RateLimited 8571
  ∧ (try_consume 8571000000 8571000000 (try_consume 0 0 b).2).1 = RateLimited 0.
Proof. vm_compute. split; reflexivity. Qed.
(** The limit of all is taken from before the limit of the agent is asked: calls
    of an agent that are refused for its own limit exhaust the limit of all. *)
Example refused_calls_use_up_the_global_limit :
  kept_answers (RateLimiter_new 5 2 100 0)
    [call_at "a" 0; call_at "a" 0; call_at "a" 0; call_at "a" 0; call_at "a" 0; call_at "b" 0]
  = [RateAllowed; RateAllowed; RateLimited 30000; RateLimited 30000; RateLimited 30000; RateLimited 12000].
Proof. vm_compute. reflexivity. Qed.
