(* ===== verification/ShellLexer.v ===== *)
(** * The lexer of the shell gate

    [rust/src/core/shell_allowlist/lexer.rs], from which the gate learns what of
    a command line the shell runs, and what is derived from it:
    [heredoc.rs], [balanced_paren_at] of [compound.rs], and the line breaks and
    limits of [enforcement.rs] and [substitution.rs].  A command is the bytes of
    a Rust string; taking a part of it panics where Rust does. *)
From Stdlib Require Import Ascii.
From stdpp Require Import sorting.
From S2P Require Import Prelude BTree Text.

Definition DOUBLE_QUOTE : ascii := ascii_of_N 34.
Definition LINE_FEED : ascii := ascii_of_N 10.
Definition TAB : ascii := ascii_of_N 9.
Definition RETURN : ascii := ascii_of_N 13.
Definition SINGLE_QUOTE : ascii := ascii_of_N 39.
Definition BACKTICK : ascii := ascii_of_N 96.
Definition BACKSLASH : ascii := ascii_of_N 92.
Definition byte_is (a b : ascii) : bool := bool_decide (a = b).

Notation range := (nat * nat)%type (only parsing).
Record Expansion := MkExpansion { xp_body : string; xp_arithmetic : bool }.
Record Heredoc := MkHeredoc { hd_delim : string; hd_quoted : bool; hd_body : nat * nat }.
Record Lexed := MkLexed {
  lx_expansions : list Expansion;
  lx_comments : list (nat * nat);
  lx_heredocs : list Heredoc;
  lx_continuations : list (nat * nat);
  lx_problem : option string;
  lx_too_deep : bool;
}.
Definition MAX_SHELL_NESTING : nat := 64.

Definition UNTERMINATED_HEREDOC : string := "a here-document whose terminator line never follows".
Definition NESTED_HEREDOC : string := "here-documents queued across a substitution boundary".
Definition ANSI_C_ESCAPED_QUOTE : string :=
  "a `$'…'` string with an escaped quote, which bash/zsh and dash end at different quotes".
Definition QUOTE_IN_QUOTED_PARAM : string :=
  "a `'` inside a double-quoted `${…}`, which bash and dash/zsh end differently".
Definition BRACE_IN_PARAM : string := "a `{` inside `${…}`, which bash/dash and zsh end differently".
Definition SHIFT_IN_ARITHMETIC_COMMAND : string :=
  "`<<` inside an arithmetic command `(( … ))`, which dash reads as a here-document".
Definition LEGACY_ARITHMETIC : string :=
  "legacy `$[ … ]` arithmetic, which dash reads as shell syntax (use `$(( … ))`)".
Definition ZSH_PARAM_FLAGS : string :=
  "zsh parameter flags `${(…)…}`, which can evaluate a value as code (`(e)`)".
Definition PROMPT_TRANSFORM : string :=
  "a `${…@P}` prompt expansion, which runs the substitutions in the value".
Definition ATTACHED_PAREN : string :=
  "a `(` attached to a word, which zsh reads as glob qualifiers that can run code (`*(e:…:)`, `*(+cmd)`) and bash as an extended glob".
Definition TOO_DEEP : string := "substitutions, backticks or `${…}` nested more than 64 levels deep".

Inductive Mode := ModeShell | ModeHeredocBody | ModeParam (quoted : bool).
Inductive Close := CloseEof | CloseParen | CloseBrace.
#[export] Instance mode_eq_dec : EqDecision Mode.
Proof. solve_decision. Defined.
#[export] Instance close_eq_dec : EqDecision Close.
Proof. solve_decision. Defined.
Record PendingHeredoc := MkPending { pd_delim : string; pd_quoted : bool; pd_strip_tabs : bool }.
Record Lexer := MkLexer { lx_out : Lexed; lx_pending : list PendingHeredoc; lx_nesting : nat }.
(** Nothing the lexer does returns an error. *)
Notation lexing := (op Lexer Empty_set).

Definition no_lexed : Lexed := MkLexed [] [] [] [] None false.
Definition edit_out (f : Lexed → Lexed) (l : Lexer) : Lexer := MkLexer (f (lx_out l)) (lx_pending l) (lx_nesting l).
Definition set_pending (p : list PendingHeredoc) (l : Lexer) : Lexer := MkLexer (lx_out l) p (lx_nesting l).
Definition set_nesting (n : nat) (l : Lexer) : Lexer := MkLexer (lx_out l) (lx_pending l) n.
Definition flag (problem : string) : lexing () :=
  modify (edit_out (λ o, MkLexed (lx_expansions o) (lx_comments o) (lx_heredocs o) (lx_continuations o)
    (match lx_problem o with Some p => Some p | None => Some problem end) (lx_too_deep o))).
Definition push (collect : bool) (body : string) (arithmetic : bool) : lexing () :=
  if collect then
    modify (edit_out (λ o, MkLexed (lx_expansions o ++ [MkExpansion body arithmetic]) (lx_comments o) (lx_heredocs o)
      (lx_continuations o) (lx_problem o) (lx_too_deep o)))
  else mret ().
Definition push_comment (r : nat * nat) : lexing () :=
  modify (edit_out (λ o, MkLexed (lx_expansions o) (lx_comments o ++ [r]) (lx_heredocs o) (lx_continuations o)
    (lx_problem o) (lx_too_deep o))).
Definition push_heredoc (h : Heredoc) : lexing () :=
  modify (edit_out (λ o, MkLexed (lx_expansions o) (lx_comments o) (lx_heredocs o ++ [h]) (lx_continuations o)
    (lx_problem o) (lx_too_deep o))).
Definition push_continuation (r : nat * nat) : lexing () :=
  modify (edit_out (λ o, MkLexed (lx_expansions o) (lx_comments o) (lx_heredocs o) (lx_continuations o ++ [r])
    (lx_problem o) (lx_too_deep o))).
Definition set_too_deep : lexing () :=
  modify (edit_out (λ o, MkLexed (lx_expansions o) (lx_comments o) (lx_heredocs o) (lx_continuations o)
    (lx_problem o) true)).

(** Where [balanced_paren_at] is. *)
Inductive Quoting := Unquoted | InSingle | InDouble.
(** The variables of the loop of [scan_level]. *)
Record Cursor := MkCursor {
  cu_i : nat;
  cu_in_double : bool;
  cu_depth : Z;
  cu_arithmetic_until : nat;
  cu_bare_close_at : option nat;
}.
Definition set_i (i : nat) (c : Cursor) : Cursor :=
  MkCursor i (cu_in_double c) (cu_depth c) (cu_arithmetic_until c) (cu_bare_close_at c).
Definition set_in_double (b : bool) (c : Cursor) : Cursor :=
  MkCursor (cu_i c) b (cu_depth c) (cu_arithmetic_until c) (cu_bare_close_at c).

Section text.
Context (s : string).
Notation len := (String.length s).

(** [bytes.get(i)] and whether it is this byte, of the first [e] bytes. *)
Definition byte_at (e i : nat) : option ascii := if (i <? e)%nat then String.get i s else None.
Definition at_is (e i : nat) (b : ascii) : bool :=
  match byte_at e i with Some a => byte_is a b | None => false end.
(** [s.is_char_boundary(i)] *)
Definition is_boundary (i : nat) : bool :=
  match String.get i s with Some a => negb (is_continuation_byte a) | None => (i =? len)%nat end.
(** [&s[a..b]] *)
Definition slice (a b : nat) : exec Empty_set string :=
  if (a <=? b)%nat && (b <=? len)%nat && is_boundary a && is_boundary b
  then Ok (String.substring a (b - a) s) else Panic.
(** The first byte from [i] on, before [e], that [p] holds of. *)
Fixpoint find_at (p : ascii → bool) (n i : nat) : option nat :=
  match n with
  | O => None
  | S n => match String.get i s with
           | Some a => if p a then Some i else find_at p n (S i)
           | None => None
           end
  end.
Definition find_byte (b : ascii) (i e : nat) : option nat := find_at (byte_is b) (e - i) i.

(** [balanced_paren_at(&s[..e], open)] *)
Fixpoint paren_walk (fuel e open i : nat) (depth : Z) (q : Quoting) : exec Empty_set (option (string * nat)) :=
  if (i <? e)%nat then
    match fuel with
    | O => Hang
    | S fuel =>
        ch ← expect (byte_at e i);
        match q with
        | InSingle => paren_walk fuel e open (S i) depth (if byte_is ch SINGLE_QUOTE then Unquoted else InSingle)
        | InDouble =>
            if byte_is ch BACKSLASH then paren_walk fuel e open (Nat.min (i + 2) e) depth InDouble
            else paren_walk fuel e open (S i) depth (if byte_is ch DOUBLE_QUOTE then Unquoted else InDouble)
        | Unquoted =>
            if byte_is ch BACKSLASH then paren_walk fuel e open (Nat.min (i + 2) e) depth Unquoted
            else if byte_is ch SINGLE_QUOTE then paren_walk fuel e open (S i) depth InSingle
            else if byte_is ch DOUBLE_QUOTE then paren_walk fuel e open (S i) depth InDouble
            else if byte_is ch "("%char then paren_walk fuel e open (S i) (depth + 1) Unquoted
            else if byte_is ch ")"%char then
              if (depth - 1 =? 0)%Z then body ← slice (open + 1) i; Ok (Some (body, S i))
              else paren_walk fuel e open (S i) (depth - 1) Unquoted
            else paren_walk fuel e open (S i) depth Unquoted
        end
    end
  else Ok None.
Definition balanced_paren_at (e open : nat) : exec Empty_set (option (string * nat)) :=
  paren_walk (e - open) e open open 0 Unquoted.

(** [starts_word] *)
Definition is_word_break (a : ascii) : bool :=
  byte_is a " "%char || byte_is a TAB || byte_is a LINE_FEED || byte_is a ";"%char || byte_is a "&"%char || byte_is a "|"%char || byte_is a "("%char.
Definition starts_word (e i start : nat) (bare_close_at : option nat) : exec Empty_set bool :=
  if (i =? start)%nat then Ok true
  else match i with
       | O => Panic
       | S before =>
           a ← expect (byte_at e before);
           if is_word_break a then Ok true
           else if byte_is a ")"%char then Ok (bool_decide (bare_close_at = Some before))
           else Ok false
       end.

(** [closing_backtick] *)
Fixpoint backtick_walk (fuel e j : nat) : exec Empty_set (option nat) :=
  if (j <? e)%nat then
    match fuel with
    | O => Hang
    | S fuel =>
        ch ← expect (byte_at e j);
        if byte_is ch BACKSLASH then backtick_walk fuel e (j + 2)
        else if byte_is ch BACKTICK then Ok (Some j)
        else backtick_walk fuel e (S j)
    end
  else Ok None.
Definition closing_backtick (e from : nat) : exec Empty_set (option nat) := backtick_walk (e - from) e from.

(** [ansi_c_end] *)
Fixpoint ansi_c_walk (fuel e j : nat) : lexing (option nat) :=
  if (j <? e)%nat then
    match fuel with
    | O => lift Hang
    | S fuel =>
        ch ← lift (expect (byte_at e j));
        if byte_is ch BACKSLASH then
          (if at_is e (j + 1) SINGLE_QUOTE then flag ANSI_C_ESCAPED_QUOTE else mret ());;
          ansi_c_walk fuel e (j + 2)
        else if byte_is ch SINGLE_QUOTE then mret (Some j)
        else ansi_c_walk fuel e (S j)
    end
  else mret None.
Definition ansi_c_end (e from : nat) : lexing (option nat) := ansi_c_walk (e - from) e from.

(** [read_heredoc_delim] of the first [e] bytes.  The bytes of a name are whole
    characters, so [from_utf8_lossy] keeps them. *)
Definition ends_delim (a : ascii) : bool :=
  byte_is a " "%char || byte_is a TAB || byte_is a "<"%char || byte_is a ">"%char || byte_is a "|"%char
  || byte_is a "&"%char || byte_is a ";"%char.
Fixpoint delim_walk (fuel e i : nat) (name : string) (quoted : bool) (inside : option ascii) :
    exec Empty_set (string * bool * nat) :=
  if (i <? e)%nat then
    match fuel with
    | O => Hang
    | S fuel =>
        ch ← expect (byte_at e i);
        match inside with
        | Some quote =>
            if byte_is ch quote then delim_walk fuel e (S i) name quoted None
            else delim_walk fuel e (S i) (name +:+ String ch "") quoted inside
        | None =>
            if byte_is ch SINGLE_QUOTE || byte_is ch DOUBLE_QUOTE then delim_walk fuel e (S i) name true (Some ch)
            else if byte_is ch BACKSLASH then
              match byte_at e (S i) with
              | Some next => delim_walk fuel e (i + 2) (name +:+ String next "") true None
              | None => Ok (name, true, S i)
              end
            else if ends_delim ch then Ok (name, quoted, i)
            else delim_walk fuel e (S i) (name +:+ String ch "") quoted None
        end
    end
  else Ok (name, quoted, i).
Definition read_heredoc_delim (e start : nat) : exec Empty_set (option (string * bool * nat)) :=
  '(name, quoted, i) ← delim_walk (e - start) e start "" false None;
  Ok (if str_is_empty name then None else Some (name, quoted, i)).

(** [heredoc_operator] *)
Fixpoint skip_blanks (n e j : nat) : nat :=
  match n with
  | O => j
  | S n => if at_is e j " "%char || at_is e j TAB then skip_blanks n e (S j) else j
  end.
Definition heredoc_operator (e from : nat) : lexing nat :=
  let strip_tabs := at_is e from "-"%char in
  let j := if strip_tabs then S from else from in
  let j := skip_blanks (e - j) e j in
  lift (if (j <=? e)%nat then Ok () else Panic);;
  let word_limit := default e (find_at (λ a, byte_is a LINE_FEED || byte_is a "("%char || byte_is a ")"%char) (e - j) j) in
  word ← lift (read_heredoc_delim word_limit j);
  match word with
  | Some (delim, quoted, next) =>
      modify (λ l, set_pending (lx_pending l ++ [MkPending delim quoted strip_tabs]) l);;
      mret next
  | None => mret j
  end.

(** The line of a terminator, from [pos] on: where the body ends, where its
    range ends, and where the next line begins. *)
Fixpoint trailing_backslashes (line : string) (n : nat) : nat :=
  match line with
  | EmptyString => n
  | String a line => trailing_backslashes line (if byte_is a BACKSLASH then S n else 0)
  end.
Fixpoint trim_tabs (line : string) : string :=
  match line with
  | String a rest => if byte_is a TAB then trim_tabs rest else line
  | EmptyString => ""
  end.
Fixpoint terminator (fuel e pos : nat) (h : PendingHeredoc) (continued : bool) :
    exec Empty_set (option (nat * nat * nat)) :=
  if (pos <? e)%nat then
    match fuel with
    | O => Hang
    | S fuel =>
        _ ← slice pos e;
        let line_end := default e (find_byte LINE_FEED pos e) in
        line ← slice pos line_end;
        let joined := continued in
        let continued := negb (pd_quoted h) && Nat.odd (trailing_backslashes line 0) in
        let line := if pd_strip_tabs h then trim_tabs line else line in
        if negb joined && bool_decide (line = pd_delim h) then Ok (Some (pos, line_end, S line_end))
        else terminator fuel e (S line_end) h continued
    end
  else Ok None.

Section level.
(** The scan of a nested level. *)
Context (scan : nat → nat → Mode → Close → bool → lexing (option nat)).
Context (e : nat).

(** [substitution] *)
Definition substitution (open : nat) (collect : bool) : lexing (option nat) :=
  after ← scan e (S open) ModeShell CloseParen false;
  body ← lift (slice (S open) (match after with Some after => after - 1 | None => e end));
  push collect body false;;
  mret after.

(** [heredoc_bodies] *)
Fixpoint bodies (pending : list PendingHeredoc) (pos range_start : nat) (collect : bool) : lexing nat :=
  match pending with
  | [] => mret (Nat.min pos e)
  | h :: pending =>
      let body_start := pos in
      found ← lift (terminator (e - pos) e pos h false);
      (match found with Some _ => mret () | None => flag UNTERMINATED_HEREDOC end);;
      let '(body_end, range_end, pos) := match found with Some ends => ends | None => (e, e, e) end in
      (if pd_quoted h then mret None else scan body_end body_start ModeHeredocBody CloseEof collect);;
      push_heredoc (MkHeredoc (pd_delim h) (pd_quoted h) (range_start, range_end));;
      bodies pending pos range_end collect
  end.
Definition heredoc_bodies (pos : nat) (collect : bool) : lexing nat :=
  l ← get;
  modify (set_pending []);;
  bodies (lx_pending l) pos (pos - 1) collect.

Context (start : nat) (mode : Mode) (close : Close) (collect : bool) (pending_base : nat).
Definition unterminated : option nat := match close with CloseEof => Some e | _ => None end.
Definition is_param : bool := match mode with ModeParam _ => true | _ => false end.
(** [continue] at [i], or [return]. *)
Notation outcome := (Cursor + option nat)%type (only parsing).
Definition continue_at (i : nat) (c : Cursor) : lexing outcome := mret (inl (set_i i c)).
(** [match scanned { Some(after) => i = after, None => return unterminated }] *)
Definition continue_after (scanned : option nat) (c : Cursor) : lexing outcome :=
  match scanned with Some after => continue_at after c | None => mret (inr unterminated) end.
(** An arithmetic expression whose inner [(] is at [open]. *)
Definition arithmetic_at (open : nat) : exec Empty_set (option (string * nat)) :=
  if at_is e open "("%char then
    _ ← slice 0 e;
    group ← balanced_paren_at e open;
    Ok (match group with
        | Some (expr, after) => if at_is e after ")"%char then Some (expr, after) else None
        | None => None
        end)
  else Ok None.

(** [ch == b'$']; what it does not handle is left to [otherwise]. *)
Definition dollar (c : Cursor) (otherwise : lexing outcome) : lexing outcome :=
  let i := cu_i c in
  if at_is e (i + 1) "("%char then
    arithmetic ← lift (arithmetic_at (i + 2));
    match arithmetic with
    | Some (expr, after) => push collect expr true;; continue_at (S after) c
    | None => scanned ← substitution (i + 1) collect; continue_after scanned c
    end
  else if at_is e (i + 1) "{"%char && negb (bool_decide (mode = ModeHeredocBody)) then
    (if at_is e (i + 2) "("%char then flag ZSH_PARAM_FLAGS else mret ());;
    let quoted := cu_in_double c || bool_decide (mode = ModeParam true) in
    scanned ← scan e (i + 2) (ModeParam quoted) CloseBrace collect;
    continue_after scanned c
  else if at_is e (i + 1) "["%char then flag LEGACY_ARITHMETIC;; continue_at (i + 2) c
  else otherwise.

Definition backtick (c : Cursor) : lexing outcome :=
  let i := cu_i c in
  close_at ← lift (closing_backtick e (i + 1));
  let body_end := default e close_at in
  body ← lift (slice (i + 1) body_end);
  push collect body false;;
  scan body_end (i + 1) ModeShell CloseEof false;;
  match close_at with Some close_at => continue_at (S close_at) c | None => mret (inr unterminated) end.

(** An opening parenthesis. *)
Definition open_paren (c : Cursor) : lexing outcome :=
  let i := cu_i c in
  word ← lift (if negb is_param && (cu_arithmetic_until c <=? i)%nat then starts_word e i start (cu_bare_close_at c) else Ok true);
  before ← lift (if (word : bool) then Ok true
                 else match i with O => Panic | S b => a ← expect (byte_at e b); Ok (byte_is a "="%char) end);
  (if negb word && negb (before : bool) && negb (at_is e (i + 1) ")"%char) then flag ATTACHED_PAREN else mret ());;
  arithmetic ← lift (if is_param then Ok None else arithmetic_at (i + 1));
  until ← (match arithmetic with
           | Some (expr, after) => push collect expr true;; mret (S after)
           | None => mret (cu_arithmetic_until c)
           end);
  mret (inl (MkCursor (S i) (cu_in_double c) (wrapping_add u32_max (cu_depth c) 1) until (cu_bare_close_at c))).

(** The [match ch] for text outside double quotes. *)
Definition unquoted (ch : ascii) (c : Cursor) : lexing outcome :=
  let i := cu_i c in
  let next := continue_at (S i) c in
  if byte_is ch DOUBLE_QUOTE then mret (inl (set_in_double true (set_i (S i) c)))
  else if byte_is ch SINGLE_QUOTE then
    if bool_decide (mode = ModeParam true) then flag QUOTE_IN_QUOTED_PARAM;; next
    else
      lift (slice (i + 1) e);;
      match find_byte SINGLE_QUOTE (i + 1) e with
      | Some close_at => continue_at (S close_at) c
      | None => mret (inr unterminated)
      end
  else if byte_is ch "$"%char && at_is e (i + 1) SINGLE_QUOTE then
    close_at ← ansi_c_end e (i + 2);
    match close_at with Some close_at => continue_at (S close_at) c | None => mret (inr unterminated) end
  else
  comment ← lift (if byte_is ch "#"%char && negb is_param then starts_word e i start (cu_bare_close_at c) else Ok false);
  if (comment : bool) then
    lift (slice i e);;
    let line_end := default e (find_byte LINE_FEED i e) in
    push_comment (i, line_end);; continue_at line_end c
  else if byte_is ch "<"%char && negb is_param && at_is e (i + 1) "<"%char then
    if at_is e (i + 2) "<"%char then continue_at (i + 3) c
    else if (i <? cu_arithmetic_until c)%nat then flag SHIFT_IN_ARITHMETIC_COMMAND;; continue_at (i + 2) c
    else after ← heredoc_operator e (i + 2); continue_at after c
  else if (byte_is ch "<"%char || byte_is ch ">"%char) && at_is e (i + 1) "("%char then
    scanned ← substitution (i + 1) collect; continue_after scanned c
  else if byte_is ch "{"%char && is_param then flag BRACE_IN_PARAM;; next
  else if byte_is ch "}"%char && bool_decide (close = CloseBrace) then
    before ← lift (slice 0 i);
    (if bool_decide (String.substring (i - 2) 2 before = "@P") && (2 <=? i)%nat then flag PROMPT_TRANSFORM else mret ());;
    mret (inr (Some (S i)))
  else
  process ← lift (if byte_is ch "="%char && negb is_param && at_is e (i + 1) "("%char
                  then starts_word e i start (cu_bare_close_at c) else Ok false);
  if (process : bool) then scanned ← substitution (i + 1) collect; continue_after scanned c
  else if byte_is ch "("%char then open_paren c
  else if byte_is ch ")"%char then
    if bool_decide (close = CloseParen) && (cu_depth c =? 0)%Z then mret (inr (Some (S i)))
    else mret (inl (MkCursor (S i) (cu_in_double c) (saturating_sub (cu_depth c) 1) (cu_arithmetic_until c) (Some i)))
  else
  l ← get;
  if byte_is ch LINE_FEED && negb is_param && negb (bool_decide (lx_pending l = [])) then
    (if (0 <? pending_base)%nat then flag NESTED_HEREDOC else mret ());;
    after ← heredoc_bodies (S i) collect;
    continue_at after c
  else next.

(** One turn of the loop. *)
Definition step (c : Cursor) : lexing outcome :=
  let i := cu_i c in
  ch ← lift (expect (byte_at e i));
  if byte_is ch BACKSLASH then
    (if at_is e (i + 1) LINE_FEED then push_continuation (i, i + 2) else mret ());;
    continue_at (i + 2) c
  else
  let otherwise :=
    if byte_is ch BACKTICK then backtick c
    else if bool_decide (mode = ModeHeredocBody) then continue_at (S i) c
    else if cu_in_double c then mret (inl (set_in_double (negb (byte_is ch DOUBLE_QUOTE)) (set_i (S i) c)))
    else unquoted ch c in
  if byte_is ch "$"%char then dollar c otherwise else otherwise.

Fixpoint scan_loop (fuel : nat) (c : Cursor) : lexing (option nat) :=
  if (cu_i c <? e)%nat then
    match fuel with
    | O => lift Hang
    | S fuel => turn ← step c; match turn with inl c => scan_loop fuel c | inr after => mret after end
    end
  else mret unterminated.
End level.

Definition scan_level (scan : nat → nat → Mode → Close → bool → lexing (option nat))
    (e start : nat) (mode : Mode) (close : Close) (collect : bool) : lexing (option nat) :=
  lift (if (e <=? len)%nat then Ok () else Panic);;
  l ← get;
  scan_loop scan e start mode close collect (length (lx_pending l)) (e - start) (MkCursor start false 0 0 None).

(** [scan]: as deep as [fuel], which is what [MAX_SHELL_NESTING] leaves. *)
Fixpoint shell_scan (fuel e start : nat) (mode : Mode) (close : Close) (collect : bool) : lexing (option nat) :=
  l ← get;
  if (MAX_SHELL_NESTING <=? lx_nesting l)%nat then set_too_deep;; flag TOO_DEEP;; mret None
  else match fuel with
       | O => lift Hang
       | S fuel =>
           modify (λ l, set_nesting (S (lx_nesting l)) l);;
           after ← scan_level (shell_scan fuel) e start mode close collect;
           modify (λ l, set_nesting (lx_nesting l - 1) l);;
           mret after
       end.
End text.

Definition lex (command : string) : exec Empty_set Lexed :=
  let len := String.length command in
  let '(l, scanned) := shell_scan command MAX_SHELL_NESTING len 0 ModeShell CloseEof true (MkLexer no_lexed [] 0) in
  let o := lx_out l in
  scanned ≫= λ _, Ok (MkLexed (lx_expansions o) (lx_comments o)
        (lx_heredocs o ++ ((λ h, MkHeredoc (pd_delim h) (pd_quoted h) (len, len)) <$> lx_pending l))
        (lx_continuations o) (lx_problem o) (lx_too_deep o)).

(** ** What the gate takes from it *)
Definition range_le (p q : nat * nat) : Prop := (p.1 ≤ q.1)%nat.
#[export] Instance range_le_dec : RelDecision range_le.
Proof. intros p q. unfold range_le. apply _. Defined.
Fixpoint keep_between (command : string) (ranges : list (nat * nat)) (at_ : nat) (out : string) :
    exec Empty_set (string * nat) :=
  match ranges with
  | [] => Ok (out, at_)
  | (from, to) :: ranges =>
      kept ← (if (at_ <? from)%nat then slice command at_ from else Ok "");
      keep_between command ranges (Nat.max at_ to) (out +:+ kept)
  end.
Definition remove_ranges (command : string) (ranges : list (nat * nat)) : exec Empty_set string :=
  match ranges with
  | [] => Ok command
  | _ =>
      let len := String.length command in
      '(out, at_) ← keep_between command (merge_sort range_le ranges) 0 "";
      rest ← slice command (Nat.min at_ len) len;
      Ok (out +:+ rest)
  end.

Definition contains (part s : string) : bool := match split_once part s with Some _ => true | None => false end.
Definition strip_for_analysis (command : string) (quoted_only comments : bool) : exec Empty_set string :=
  if negb (contains "<<" command) && (negb comments || negb (contains "#" command)) then Ok command
  else
    lexed ← lex command;
    let ranges := hd_body <$> List.filter (λ h, negb quoted_only || hd_quoted h) (lx_heredocs lexed) in
    remove_ranges command (ranges ++ (if comments then lx_comments lexed else [])).
Definition strip_all_heredoc_bodies (command : string) : exec Empty_set string := strip_for_analysis command false false.
Definition heredoc_delims (line : string) (quoted_only : bool) : exec Empty_set (list string) :=
  if negb (contains "<<" line) then Ok []
  else
    lexed ← lex line;
    Ok (hd_delim <$> List.filter (λ h, negb quoted_only || hd_quoted h) (lx_heredocs lexed)).
Definition has_expanding_substitution_in_args (command : string) : exec Empty_set bool :=
  lexed ← lex command;
  Ok (negb (bool_decide (lx_expansions lexed = []))).

Definition MAX_VALIDATED_COMMAND_BYTES : Z := 64 * 1024.
Definition exceeds_validation_limits (command : string) : exec Empty_set bool :=
  if (MAX_VALIDATED_COMMAND_BYTES <? str_len command)%Z then Ok true
  else lexed ← lex command; Ok (lx_too_deep lexed).

(** [joined.replace(['\u{2028}', '\u{2029}'], "\n")]: the bytes E2 80 A8 and
    E2 80 A9. *)
Definition is_separator_at (s : string) : bool :=
  match s with
  | String a (String b (String c _)) => byte_in 226 226 a && byte_in 128 128 b && byte_in 168 169 c
  | _ => false
  end.
Fixpoint replace_separators (s : string) : string :=
  match s with
  | String a (String b (String c tl) as tl2) =>
      if is_separator_at (String a tl2) then String LINE_FEED (replace_separators tl) else String a (replace_separators tl2)
  | String a tl => String a (replace_separators tl)
  | EmptyString => ""
  end.
Fixpoint has_separator (s : string) : bool :=
  match s with
  | EmptyString => false
  | String _ tl => is_separator_at s || has_separator tl
  end.
Definition normalize_line_continuations (command : string) : exec Empty_set string :=
  joined ← (if contains (String BACKSLASH (String LINE_FEED "")) command
            then lexed ← lex command; remove_ranges command (lx_continuations lexed)
            else Ok command);
  Ok (replace_separators joined).
Fixpoint bare_return (s : string) : bool :=
  match s with
  | EmptyString => false
  | String a tl =>
      byte_is a RETURN && negb (match tl with String b _ => byte_is b LINE_FEED | EmptyString => false end)
      || bare_return tl
  end.
Definition unvalidatable_line_break (command : string) : option string :=
  if bare_return command then Some "a carriage return not followed by a line feed"
  else if has_separator command then Some "a Unicode line or paragraph separator"
  else None.
