(* ===== verification/ShellLexerFacts.v ===== *)
(** * The lexer of the shell gate always answers

    On every text, whatever it holds, [lex] ends without a panic, and the ranges
    it reports are parts of the text: what is derived from it ends as well. *)
From Stdlib Require Import Ascii.
From stdpp Require Import sorting.
From S2P Require Import Prelude Wp BTree Text ShellLexer.
#[local] Open Scope nat_scope.

Notation is_ascii a := (byte_val a < 128)%Z.
(** In UTF-8, no byte that continues a character follows a one-byte character
    or comes first. *)
Definition well_formed_text (s : string) : Prop :=
  ∀ i a, String.get i s = Some a → is_continuation_byte a = true →
    ∃ j b, i = S j ∧ String.get j s = Some b ∧ ¬ is_ascii b.

Lemma get_Some_lt s i a : String.get i s = Some a → i < String.length s.
Proof. revert i. induction s as [|b s IH]; intros [|i]; cbn; try done; [lia|]. intros H%IH. lia. Qed.
Lemma get_None_ge s i : String.get i s = None → String.length s ≤ i.
Proof. revert i. induction s as [|b s IH]; intros [|i]; cbn; try done; [lia..|]. intros H%IH. lia. Qed.

Lemma byte_is_eq a b : byte_is a b = true ↔ a = b.
Proof. apply bool_decide_eq_true. Qed.

(** A text of one-byte characters is well formed. *)
Lemma ascii_text s : all_bytes (byte_in 0 127) s = true → well_formed_text s.
Proof.
  intros Hs i a Ha Hc. exfalso. revert i Ha. induction s as [|b s IH]; intros [|i] Ha; try done; cbn in Ha, Hs;
    apply andb_true_iff in Hs as [Hb Hs]; [|by eapply IH].
  injection Ha as ->. apply byte_in_spec in Hb, Hc. lia.
Qed.

Section text.
Context (s : string) (Htext : well_formed_text s).
Notation len := (String.length s).

Lemma byte_at_Some e i a : byte_at s e i = Some a ↔ i < e ∧ String.get i s = Some a.
Proof. unfold byte_at. destruct (Nat.ltb_spec i e); naive_solver lia. Qed.
Lemma byte_at_lt e i : i < e → e ≤ len → ∃ a, byte_at s e i = Some a.
Proof.
  intros Hi He. destruct (String.get i s) as [a|] eqn:Ha.
  - exists a. by apply byte_at_Some.
  - apply get_None_ge in Ha. lia.
Qed.
Lemma at_is_true e i b : at_is s e i b = true ↔ i < e ∧ String.get i s = Some b.
Proof.
  unfold at_is. destruct (byte_at s e i) as [a|] eqn:Ha.
  - apply byte_at_Some in Ha as [Hi Ha]. rewrite byte_is_eq, Ha. naive_solver.
  - split; [done|]. intros H. apply byte_at_Some in H. congruence.
Qed.

Lemma boundary_at i a : String.get i s = Some a → is_ascii a → is_boundary s i = true.
Proof.
  intros Ha Hlow. unfold is_boundary. rewrite Ha. apply negb_true_iff, byte_in_false. lia.
Qed.
Lemma boundary_after i a : String.get i s = Some a → is_ascii a → is_boundary s (S i) = true.
Proof.
  intros Ha Hlow. unfold is_boundary. destruct (String.get (S i) s) as [b|] eqn:Hb.
  - destruct (is_continuation_byte b) eqn:Hc; [|done].
    destruct (Htext _ _ Hb Hc) as (j & a' & [= <-] & Ha' & Hhigh). congruence.
  - apply get_None_ge in Hb. apply get_Some_lt in Ha. apply Nat.eqb_eq. lia.
Qed.
Lemma boundary_start : is_boundary s 0 = true.
Proof.
  unfold is_boundary. destruct (String.get 0 s) as [a|] eqn:Ha.
  - destruct (is_continuation_byte a) eqn:Hc; [|done]. by destruct (Htext _ _ Ha Hc) as (j & b & ? & _).
  - apply get_None_ge in Ha. apply Nat.eqb_eq. lia.
Qed.
Lemma boundary_end : is_boundary s len = true.
Proof.
  unfold is_boundary. destruct (String.get len s) as [a|] eqn:Ha; [|by apply Nat.eqb_eq].
  apply get_Some_lt in Ha. lia.
Qed.

Lemma slice_total a b (Q : string → Prop) : a ≤ b → b ≤ len → is_boundary s a = true → is_boundary s b = true →
  (∀ t, Q t) → ewp (slice s a b) Q.
Proof.
  intros Hab Hb Ha Hb' HQ. unfold slice. rewrite (proj2 (Nat.leb_le _ _) Hab), (proj2 (Nat.leb_le _ _) Hb), Ha, Hb'.
  apply HQ.
Qed.

Lemma find_at_Some p n i k : find_at s p n i = Some k → i ≤ k < i + n ∧ ∃ a, String.get k s = Some a ∧ p a = true.
Proof.
  revert i. induction n as [|n IH]; intros i; [done|]. cbn. destruct (String.get i s) as [a|] eqn:Ha; [|done].
  destruct (p a) eqn:Hp.
  - intros [= <-]. split; [lia|]. by exists a.
  - intros [Hk He]%IH. split; [lia|done].
Qed.
Lemma find_byte_Some b i e k : find_byte s b i e = Some k → i ≤ k < e ∧ String.get k s = Some b.
Proof. intros [Hk (a & Ha & ->%byte_is_eq)]%find_at_Some. split; [lia|done]. Qed.
(** The end of the line, or of the text that is looked at. *)
Lemma line_end_ok b i e : is_ascii b → i ≤ e → is_boundary s e = true →
  let k := default e (find_byte s b i e) in i ≤ k ≤ e ∧ is_boundary s k = true ∧ (k = e ∨ String.get k s = Some b).
Proof.
  intros Hb Hi He. destruct (find_byte s b i e) as [k|] eqn:Hk; cbn; [|auto].
  apply find_byte_Some in Hk as [Hk Hget]. split; [lia|]. split; [by eapply boundary_at|auto].
Qed.

(** ** Walks *)
Lemma ewp_byte e i {B} (f : ascii → exec Empty_set B) Q : i < e → e ≤ len →
  (∀ a, String.get i s = Some a → ewp (f a) Q) → ewp (expect (byte_at s e i) ≫= f) Q.
Proof.
  intros Hi He Hf. destruct (byte_at_lt e i Hi He) as [a Ha]. rewrite Ha. apply byte_at_Some in Ha as [_ Ha].
  by apply Hf.
Qed.

Lemma paren_walk_total fuel e open i depth q : e ≤ len → String.get open s = Some "("%char → open ≤ i → e ≤ fuel + i →
  ewp (paren_walk s fuel e open i depth q) (λ r, ∀ body after, r = Some (body, after) → open < after ≤ e).
Proof.
  intros He Hopen. revert i depth q. induction fuel as [|fuel IH]; intros i depth q Hi Hfuel; cbn [paren_walk];
    destruct (Nat.ltb_spec i e) as [Hlt|Hge]; try done; [lia|].
  apply ewp_byte; [done..|]. intros ch Hch.
  assert (∀ j depth q, i < j → ewp (paren_walk s fuel e open j depth q) (λ r, ∀ body after, r = Some (body, after) → open < after ≤ e))
    as Hgo by (intros; apply IH; lia).
  destruct q; repeat (case_match; try (apply Hgo; lia)).
  match goal with H : byte_is ch ")"%char = true |- _ => apply byte_is_eq in H as -> end.
  assert (open < i) as Hlt' by (destruct (Nat.eq_dec open i) as [->|]; [congruence|lia]).
  apply get_Some_lt in Hopen as Hopen'. apply get_Some_lt in Hch as Hch'.
  apply ewp_bind, slice_total; [lia|lia| |by eapply boundary_at|].
  - replace (open + 1) with (S open) by lia. by eapply boundary_after.
  - intros t. apply ewp_ok. intros ? ? [= _ <-]. lia.
Qed.
Lemma balanced_paren_total e open : e ≤ len → String.get open s = Some "("%char →
  ewp (balanced_paren_at s e open) (λ r, ∀ body after, r = Some (body, after) → open < after ≤ e).
Proof. intros. apply paren_walk_total; [done|done|lia|lia]. Qed.

Lemma backtick_walk_total fuel e j : e ≤ len → e ≤ fuel + j →
  ewp (backtick_walk s fuel e j) (λ r, ∀ k, r = Some k → j ≤ k < e ∧ String.get k s = Some BACKTICK).
Proof.
  intros He. revert j. induction fuel as [|fuel IH]; intros j Hfuel; cbn [backtick_walk];
    destruct (Nat.ltb_spec j e) as [Hlt|Hge]; try done; [lia|].
  apply ewp_byte; [done..|]. intros ch Hch.
  assert (∀ i, j < i → ewp (backtick_walk s fuel e i) (λ r, ∀ k, r = Some k → j ≤ k < e ∧ String.get k s = Some BACKTICK))
    as Hgo by (intros i Hi; eapply ewp_mono; [|apply IH; lia]; intros r Hr k Hk; specialize (Hr k Hk); split; [lia|by apply Hr]).
  destruct (byte_is ch BACKSLASH); [apply Hgo; lia|]. destruct (byte_is ch BACKTICK) eqn:Hb; [|apply Hgo; lia].
  apply ewp_ok. intros k [= <-]. apply byte_is_eq in Hb as ->. split; [lia|done].
Qed.

Lemma delim_walk_total fuel e i name quoted inside : e ≤ len → i ≤ e → e ≤ fuel + i →
  ewp (delim_walk s fuel e i name quoted inside) (λ r, i ≤ r.2 ≤ e).
Proof.
  intros He. revert i name quoted inside.
  induction fuel as [|fuel IH]; intros i name quoted inside Hi Hfuel; cbn [delim_walk];
    destruct (Nat.ltb_spec i e) as [Hlt|Hge]; [lia|apply ewp_ok; cbn; lia| |apply ewp_ok; cbn; lia].
  apply ewp_byte; [done..|]. intros ch Hch.
  assert (∀ j name quoted inside, i < j → j ≤ e → ewp (delim_walk s fuel e j name quoted inside) (λ r, i ≤ r.2 ≤ e))
    as Hgo by (intros j ? ? ? Hij Hj; eapply ewp_mono; [|apply IH; lia]; cbn; intros; lia).
  destruct inside as [quote|]; [destruct (byte_is ch quote); apply Hgo; lia|].
  destruct (_ || _); [apply Hgo; lia|]. destruct (byte_is ch BACKSLASH).
  - destruct (byte_at s e (S i)) as [next|] eqn:Hn; [|apply ewp_ok; cbn; lia].
    apply byte_at_Some in Hn as [Hn _]. apply Hgo; lia.
  - destruct (ends_delim ch); [apply ewp_ok; cbn; lia|apply Hgo; lia].
Qed.
Lemma read_heredoc_delim_total e start : e ≤ len → start ≤ e →
  ewp (read_heredoc_delim s e start) (λ r, ∀ delim quoted next, r = Some (delim, quoted, next) → start ≤ next ≤ e).
Proof.
  intros He Hs. unfold read_heredoc_delim. apply ewp_bind. eapply ewp_mono; [|apply delim_walk_total; lia].
  intros [[name quoted] next] Hnext. apply ewp_ok. destruct (str_is_empty name); [done|]. by intros ? ? ? [= _ _ <-].
Qed.

Lemma skip_blanks_range n e j : j ≤ skip_blanks s n e j ≤ Nat.max j e.
Proof.
  revert j. induction n as [|n IH]; intros j; cbn [skip_blanks]; [lia|].
  destruct (at_is s e j " "%char || at_is s e j TAB) eqn:Hb; [|lia]. specialize (IH (S j)).
  apply orb_true_iff in Hb as [[Hb _]%at_is_true|[Hb _]%at_is_true]; lia.
Qed.

Lemma terminator_total fuel e pos h continued : e ≤ len → is_boundary s e = true → is_boundary s pos = true ∨ e ≤ pos →
  e ≤ fuel + pos →
  ewp (terminator s fuel e pos h continued) (λ r, ∀ body_end range_end next, r = Some (body_end, range_end, next) →
    pos ≤ body_end ≤ range_end ∧ range_end ≤ e ∧ next = S range_end
    ∧ is_boundary s body_end = true ∧ is_boundary s range_end = true ∧ (is_boundary s next = true ∨ e ≤ next)).
Proof.
  intros He Hbe. revert pos continued. induction fuel as [|fuel IH]; intros pos continued Hpos Hfuel; cbn [terminator];
    destruct (Nat.ltb_spec pos e) as [Hlt|Hge]; try done; [lia|].
  destruct Hpos as [Hpos|]; [|lia].
  apply ewp_bind, slice_total; [lia|lia|done|done|]. intros _.
  pose proof (line_end_ok LINE_FEED pos e ltac:(done) ltac:(lia) Hbe) as (Hk & Hkb & Hke).
  set (line_end := default e (find_byte s LINE_FEED pos e)) in *. cbn zeta.
  apply ewp_bind, slice_total; [lia|lia|done|done|]. intros line.
  assert (is_boundary s (S line_end) = true ∨ e ≤ S line_end) as Hnext
    by (destruct Hke as [->|Hnl]; [right; lia|left; by eapply boundary_after]).
  destruct (negb continued && _).
  - apply ewp_ok. intros ? ? ? [= <- <- <-]. split_and!; try done; lia.
  - eapply ewp_mono; [|apply IH; [done|lia]]. intros r Hr ? ? ? E. destruct (Hr _ _ _ E) as (H1 & H2 & H3 & H4 & H5 & H6).
    split_and!; try done; lia.
Qed.

Lemma starts_word_total e i start bare : e ≤ len → i ≤ e → start ≤ i → ewp (starts_word s e i start bare) (λ _, True).
Proof.
  intros He Hi Hs. unfold starts_word. destruct (Nat.eqb_spec i start) as [|Hne]; [done|].
  destruct i as [|before]; [lia|]. apply ewp_byte; [lia|done|]. intros a _. destruct (is_word_break a); [done|].
  by destruct (byte_is a ")"%char).
Qed.

(** ** What a step keeps *)
Definition range_ok (r : nat * nat) : Prop :=
  r.1 ≤ r.2 ≤ len ∧ is_boundary s r.1 = true ∧ is_boundary s r.2 = true.
Definition out_ok (o : Lexed) : Prop :=
  Forall range_ok (lx_comments o) ∧ Forall (λ h, range_ok (hd_body h)) (lx_heredocs o)
  ∧ Forall range_ok (lx_continuations o).
(** At this depth of nesting. *)
Definition good (n : nat) (l : Lexer) : Prop := out_ok (lx_out l) ∧ lx_nesting l = n.
(** From there [m] ends there, without a panic, with a value that [P] holds of. *)
Definition does {A} (n : nat) (m : lexing A) (P : A → Prop) : Prop :=
  ∀ l, good n l → wp m (λ a l', good n l' ∧ P a) (λ _, True) l.

Lemma does_bind {A B} n (m : lexing A) (f : A → lexing B) (P : A → Prop) Q :
  does n m P → (∀ a, P a → does n (f a) Q) → does n (m ≫= f) Q.
Proof. intros Hm Hf l Hl. apply wp_bind. eapply wp_mono; [by apply Hm| |done]. intros a l' [Hl' Ha]. by apply Hf. Qed.
Lemma does_mono {A} n (m : lexing A) (P Q : A → Prop) : does n m P → (∀ a, P a → Q a) → does n m Q.
Proof. intros Hm HPQ l Hl. eapply wp_mono; [by apply Hm| |done]. naive_solver. Qed.
Lemma does_ret {A} n (a : A) (P : A → Prop) : P a → does n (mret a) P.
Proof. intros Ha l Hl. by apply wp_ret. Qed.
Lemma does_lift {A} n (x : exec Empty_set A) (P : A → Prop) : ewp x P → does n (lift x) P.
Proof. intros Hx l Hl. apply wp_lift; [done|]. eapply ewp_mono; [|exact Hx]. done. Qed.
Lemma does_get {A} n (f : Lexer → lexing A) P : (∀ l, does n (f l) P) → does n (get ≫= f) P.
Proof. intros Hf l Hl. apply wp_bind, wp_get. by apply Hf. Qed.
Lemma does_edit n f : (∀ o, out_ok o → out_ok (f o)) → does n (modify (edit_out f)) (λ _, True).
Proof. intros Hf l [Ho Hn]. apply wp_modify. split; [|done]. split; [by apply Hf|done]. Qed.
Lemma does_pending n f : does n (modify (λ l, set_pending (f l) l)) (λ _, True).
Proof. intros l Hl. apply wp_modify. by split. Qed.

Lemma does_flag n problem : does n (flag problem) (λ _, True).
Proof. by apply does_edit. Qed.
Lemma does_too_deep n : does n set_too_deep (λ _, True).
Proof. by apply does_edit. Qed.
Lemma does_push n collect body arithmetic : does n (push collect body arithmetic) (λ _, True).
Proof. destruct collect; [by apply does_edit|by apply does_ret]. Qed.
Lemma does_push_comment n r : range_ok r → does n (push_comment r) (λ _, True).
Proof. intros Hr. apply does_edit. intros o (Hc & Hh & Hk). split_and!; try done. by apply Forall_app; split; [|constructor]. Qed.
Lemma does_push_heredoc n h : range_ok (hd_body h) → does n (push_heredoc h) (λ _, True).
Proof. intros Hr. apply does_edit. intros o (Hc & Hh & Hk). split_and!; try done. by apply Forall_app; split; [|constructor]. Qed.
Lemma does_push_continuation n r : range_ok r → does n (push_continuation r) (λ _, True).
Proof. intros Hr. apply does_edit. intros o (Hc & Hh & Hk). split_and!; try done. by apply Forall_app; split; [|constructor]. Qed.
(** A statement run only under a condition. *)
Lemma does_when n (b : bool) (m : lexing ()) : (b = true → does n m (λ _, True)) →
  does n (if b then m else mret ()) (λ _, True).
Proof. destruct b; [auto|intros _; by apply does_ret]. Qed.
Lemma does_then {A B} n (m : lexing B) (k : lexing A) P : does n m (λ _, True) → does n k P → does n (m ≫= λ _, k) P.
Proof. intros Hm Hk. eapply does_bind; [exact Hm|done]. Qed.

Lemma ansi_c_walk_total n fuel e j : e ≤ len → e ≤ fuel + j →
  does n (ansi_c_walk s fuel e j) (λ r, ∀ k, r = Some k → j ≤ k < e).
Proof.
  intros He. revert j. induction fuel as [|fuel IH]; intros j Hfuel; cbn [ansi_c_walk];
    destruct (Nat.ltb_spec j e) as [Hlt|Hge]; [lia|by apply does_ret| |by apply does_ret].
  eapply does_bind; [apply does_lift; destruct (byte_at_lt e j Hlt He) as [a Ha]; rewrite Ha; by apply (ewp_ok a (λ _, True))|].
  intros ch _.
  assert (∀ i, j < i → does n (ansi_c_walk s fuel e i) (λ r, ∀ k, r = Some k → j ≤ k < e)) as Hgo.
  { intros i Hi. eapply does_mono; [apply IH; lia|]. intros r Hr k Hk. specialize (Hr k Hk). lia. }
  destruct (byte_is ch BACKSLASH).
  - apply does_then; [|apply Hgo; lia]. apply does_when. intros _. apply does_flag.
  - destruct (byte_is ch SINGLE_QUOTE); [|apply Hgo; lia]. apply does_ret. intros k [= <-]. lia.
Qed.

Lemma heredoc_operator_total n e from : e ≤ len → from ≤ e →
  does n (heredoc_operator s e from) (λ after, from ≤ after ≤ e).
Proof.
  intros He Hf. unfold heredoc_operator.
  set (j0 := if at_is s e from "-"%char then S from else from).
  assert (from ≤ j0 ≤ e) as Hj0.
  { subst j0. destruct (at_is s e from "-"%char) eqn:Hm; [|lia]. apply at_is_true in Hm as [Hm _]. lia. }
  pose proof (skip_blanks_range (e - j0) e j0) as Hj. set (j := skip_blanks s (e - j0) e j0) in *.
  apply does_then.
  { apply does_lift. destruct (Nat.leb_spec j e); [done|lia]. }
  set (limit := default e _).
  assert (j ≤ limit ≤ e) as Hlimit.
  { subst limit. destruct (find_at s _ (e - j) j) as [k|] eqn:Hk; cbn; [|lia]. apply find_at_Some in Hk as [Hk _]. lia. }
  eapply does_bind; [apply does_lift, read_heredoc_delim_total; lia|].
  intros [[[delim quoted] next]|] Hnext; cbn beta iota.
  - specialize (Hnext _ _ _ eq_refl). eapply does_bind; [apply does_pending|]. intros _ _. apply does_ret. lia.
  - apply does_ret. lia.
Qed.

(** ** A level, when the levels below keep to this *)
Definition after_ok (e start : nat) (close : Close) (after : option nat) : Prop :=
  ∀ a, after = Some a →
  match close with
  | CloseEof => a = e
  | CloseParen => start < a ≤ e ∧ String.get (a - 1) s = Some ")"%char
  | CloseBrace => start < a ≤ e
  end.
Definition scans (n : nat) (scan : nat → nat → Mode → Close → bool → lexing (option nat)) : Prop :=
  ∀ e start mode close collect, e ≤ len → is_boundary s e = true →
    does n (scan e start mode close collect) (after_ok e start close).

Section level.
Context (n : nat) (scan : nat → nat → Mode → Close → bool → lexing (option nat)) (Hscan : scans n scan).
Context (e : nat) (He : e ≤ len) (Hbe : is_boundary s e = true).

Lemma substitution_total open collect : open < e → String.get open s = Some "("%char →
  does n (substitution s scan e open collect) (λ r, ∀ a, r = Some a → open < a ≤ e).
Proof.
  intros Hopen Hget. unfold substitution. eapply does_bind; [by apply Hscan|]. intros after Hafter.
  eapply does_bind; [apply (does_lift n _ (λ _, True))|].
  - destruct after as [a|]; cbn in *.
    + destruct (Hafter a eq_refl) as [Ha Hp]. apply slice_total; [lia|lia|by eapply boundary_after|by eapply boundary_at|done].
    + apply slice_total; [lia|lia|by eapply boundary_after|done|done].
  - intros body _. apply does_then; [apply does_push|]. apply does_ret. intros a Ha. destruct (Hafter a Ha). lia.
Qed.

Lemma bodies_total pending pos range_start collect :
  (is_boundary s pos = true ∨ e ≤ pos) → range_start ≤ pos → range_start ≤ e → is_boundary s range_start = true →
  does n (bodies s scan e pending pos range_start collect) (λ after, Nat.min pos e ≤ after).
Proof.
  revert pos range_start. induction pending as [|h pending IH]; intros pos range_start Hpos Hrs Hrse Hrb; cbn [bodies].
  { by apply does_ret. }
  eapply does_bind; [apply does_lift; apply (terminator_total (e - pos) e pos h false He Hbe Hpos); lia|].
  intros found Hfound.
  apply does_then. { destruct found; [by apply does_ret|apply does_flag]. }
  destruct found as [[[body_end range_end] next]|].
  - destruct (Hfound _ _ _ eq_refl) as (H1 & H2 & -> & H4 & H5 & H6).
    eapply does_bind with (P := λ _, True).
    { destruct (pd_quoted h); [by apply does_ret|]. eapply does_mono; [apply Hscan; [lia|done]|done]. }
    intros _ _. apply does_then; [by apply does_push_heredoc; split; [cbn; lia|]|].
    eapply does_mono; [apply IH; [done|lia|lia|done]|]. intros after Ha. cbv beta in *. lia.
  - eapply does_bind with (P := λ _, True).
    { destruct (pd_quoted h); [by apply does_ret|]. eapply does_mono; [by apply Hscan|done]. }
    intros _ _. apply does_then; [by apply does_push_heredoc; split; [cbn; lia|]|].
    eapply does_mono; [apply IH; [by left|lia|lia|done]|]. intros after Ha. cbv beta in *. lia.
Qed.

Lemma heredoc_bodies_total i collect : i < e → String.get i s = Some LINE_FEED →
  does n (heredoc_bodies s scan e (S i) collect) (λ after, i < after).
Proof.
  intros Hi Hnl. unfold heredoc_bodies. apply does_get. intros l. apply does_then; [apply does_pending|].
  replace (S i - 1) with i by lia.
  eapply does_mono; [apply bodies_total; [left; by eapply boundary_after|lia|lia|by eapply boundary_at]|].
  intros after Ha. cbv beta in *. lia.
Qed.

Lemma arithmetic_at_total open : ewp (arithmetic_at s e open) (λ r, ∀ expr after, r = Some (expr, after) → open < after ≤ e).
Proof.
  unfold arithmetic_at. destruct (at_is s e open "("%char) eqn:Hp; [|done]. apply at_is_true in Hp as [Hlt Hget].
  apply ewp_bind, slice_total; [lia|done|apply boundary_start|done|]. intros _.
  apply ewp_bind. eapply ewp_mono; [|by apply balanced_paren_total]. intros [[expr after]|] Ha; apply ewp_ok; [|done].
  intros ? ? E. destruct (at_is s e after ")"%char); [|done]. injection E as -> ->. by eapply Ha.
Qed.

Context (start : nat) (mode : Mode) (close : Close) (collect : bool) (pending_base : nat).
Notation turn_ok i r :=
  (match r with inl c => i < cu_i c | inr after => after_ok e start close after end).

Lemma unterminated_ok : after_ok e start close (unterminated e close).
Proof. unfold after_ok, unterminated. destruct close; intros a [=]. done. Qed.
Lemma continue_at_total i j c : i < j → does n (continue_at j c) (λ r, turn_ok i r).
Proof. intros. by apply does_ret. Qed.
Lemma continue_after_total i scanned c : (∀ a, scanned = Some a → i < a) →
  does n (continue_after e close scanned c) (λ r, turn_ok i r).
Proof.
  intros Ha. destruct scanned as [a|]; cbn; [by apply continue_at_total, Ha|]. apply does_ret, unterminated_ok.
Qed.

Lemma dollar_total c otherwise : cu_i c < e →
  does n otherwise (λ r, turn_ok (cu_i c) r) →
  does n (dollar s scan e mode close collect c otherwise) (λ r, turn_ok (cu_i c) r).
Proof.
  intros Hi Ho. unfold dollar. destruct (at_is s e (cu_i c + 1) "("%char) eqn:Hp.
  { apply at_is_true in Hp as [Hlt Hget].
    eapply does_bind; [apply does_lift, arithmetic_at_total|]. intros [[expr after]|] Ha.
    - specialize (Ha _ _ eq_refl). apply does_then; [apply does_push|]. apply continue_at_total. lia.
    - eapply does_bind; [by apply substitution_total|]. intros scanned Hs. apply continue_after_total.
      intros a E. specialize (Hs a E). lia. }
  destruct (_ && _).
  { apply does_then; [apply does_when; intros _; apply does_flag|].
    eapply does_bind; [by apply Hscan|]. intros scanned Hs. apply continue_after_total.
    intros a E. specialize (Hs a E). cbn in Hs. lia. }
  destruct (at_is s e (cu_i c + 1) "["%char); [|done].
  apply does_then; [apply does_flag|]. apply continue_at_total. lia.
Qed.

Lemma backtick_total c : cu_i c < e → String.get (cu_i c) s = Some BACKTICK →
  does n (backtick s scan e close collect c) (λ r, turn_ok (cu_i c) r).
Proof.
  intros Hi Hget. unfold backtick.
  eapply does_bind; [apply does_lift, backtick_walk_total; [done|lia]|]. intros close_at Hclose.
  assert (cu_i c + 1 ≤ default e close_at ≤ e ∧ is_boundary s (default e close_at) = true) as [Hbody Hbb].
  { destruct close_at as [k|]; cbn; [|split; [lia|done]]. destruct (Hclose k eq_refl) as [Hk Hg]. split; [lia|].
    by eapply boundary_at. }
  eapply does_bind; [apply (does_lift n _ (λ _, True)), slice_total; [lia|lia| |done|done]|].
  { replace (cu_i c + 1) with (S (cu_i c)) by lia. by eapply boundary_after. }
  intros body _. apply does_then; [apply does_push|].
  eapply does_bind; [apply Hscan; [lia|done]|]. intros _ _.
  destruct close_at as [k|]; [|apply does_ret, unterminated_ok].
  apply continue_at_total. destruct (Hclose k eq_refl). lia.
Qed.

Lemma open_paren_total c : start ≤ cu_i c → cu_i c < e →
  (cu_i c ≠ start → 0 < cu_i c) →
  does n (open_paren s e start mode collect c) (λ r, turn_ok (cu_i c) r).
Proof.
  intros Hs Hi H0. unfold open_paren.
  eapply does_bind with (P := λ word : bool, word = false → 0 < cu_i c).
  { apply does_lift. destruct (_ && _); [|done]. unfold starts_word.
    destruct (Nat.eqb_spec (cu_i c) start) as [|Hne]; [done|]. specialize (H0 Hne).
    destruct (cu_i c) as [|b] eqn:Eb; [lia|]. apply ewp_byte; [lia|done|]. intros a _.
    destruct (is_word_break a); [done|]. destruct (byte_is a ")"%char); intros _; lia. }
  intros word Hword. eapply does_bind with (P := λ _, True).
  { apply does_lift. destruct word; [done|]. specialize (Hword eq_refl). destruct (cu_i c) as [|b] eqn:Eb; [lia|].
    apply ewp_byte; [lia|done|]. done. }
  intros before _. apply does_then; [apply does_when; intros _; apply does_flag|].
  eapply does_bind with (P := λ _, True).
  { apply does_lift. destruct (is_param mode); [done|]. eapply ewp_mono; [|apply arithmetic_at_total]. done. }
  intros arithmetic _. eapply does_bind with (P := λ _, True).
  { destruct arithmetic as [[expr after]|]; [apply does_then; [apply does_push|]|]; by apply does_ret. }
  intros end_ _. apply does_ret. cbn. lia.
Qed.

(** A part of the text from a one-byte character on. *)
Lemma slice_from_total i j a (P : string → Prop) : String.get i s = Some a → is_ascii a → j = i ∨ j = S i → j ≤ e →
  (∀ t, P t) → does n (lift (slice s j e)) P.
Proof.
  intros Hget Ha Hj Hje HP. apply does_lift, slice_total; [done|done| |done|done].
  destruct Hj as [-> | ->]; [by eapply boundary_at|by eapply boundary_after].
Qed.

Lemma unquoted_total ch c : start ≤ cu_i c → cu_i c < e → String.get (cu_i c) s = Some ch →
  does n (unquoted s scan e start mode close collect pending_base ch c) (λ r, turn_ok (cu_i c) r).
Proof.
  intros Hs Hi Hget. unfold unquoted.
  assert (does n (continue_at (S (cu_i c)) c) (λ r, turn_ok (cu_i c) r)) as Hnext by (apply continue_at_total; lia).
  assert (∀ b : bool, does n (lift (if b then starts_word s e (cu_i c) start (cu_bare_close_at c) else Ok false)) (λ _, True)) as Hword.
  { intros b. apply does_lift. destruct b; [|done]. apply starts_word_total; [done|lia|done]. }
  assert (∀ b, byte_is ch b = true → String.get (cu_i c) s = Some b) as Hch by (intros b ->%byte_is_eq; done).
  destruct (byte_is ch DOUBLE_QUOTE); [apply does_ret; cbn; lia|].
  destruct (byte_is ch SINGLE_QUOTE) eqn:Hq.
  { destruct (bool_decide _); [apply does_then; [apply does_flag|done]|].
    apply does_then. { by eapply slice_from_total; [apply Hch, Hq|done|right; lia|lia|]. }
    destruct (find_byte s SINGLE_QUOTE (cu_i c + 1) e) as [k|] eqn:Hk; [|apply does_ret, unterminated_ok].
    apply find_byte_Some in Hk as [Hk _]. apply continue_at_total. lia. }
  destruct (byte_is ch "$"%char && _).
  { eapply does_bind; [apply ansi_c_walk_total; [done|lia]|]. intros close_at Hk.
    destruct close_at as [k|]; [|apply does_ret, unterminated_ok]. apply continue_at_total. specialize (Hk k eq_refl). lia. }
  eapply does_bind with (P := λ comment : bool, comment = true → byte_is ch "#"%char = true).
  { destruct (byte_is ch "#"%char) eqn:Hh; [|by apply does_lift]. eapply does_mono; [apply Hword|done]. }
  intros comment Hcomment. destruct comment.
  { specialize (Hcomment eq_refl). apply Hch in Hcomment.
    apply does_then. { by eapply slice_from_total; [exact Hcomment|done|left|lia|]. }
    pose proof (line_end_ok LINE_FEED (cu_i c) e ltac:(done) ltac:(lia) Hbe) as (Hk & Hkb & Hke).
    set (line_end := default e _) in *. cbn zeta.
    apply does_then. { apply does_push_comment. split; [cbn; lia|]. split; [by eapply boundary_at|done]. }
    apply continue_at_total. destruct Hke as [->|Hnl]; [lia|].
    destruct (Nat.eq_dec line_end (cu_i c)) as [E|]; [|lia]. rewrite E, Hcomment in Hnl. discriminate Hnl. }
  destruct (byte_is ch "<"%char && negb (is_param mode) && at_is s e (cu_i c + 1) "<"%char) eqn:Hlt.
  { apply andb_true_iff in Hlt as [_ [Hlt _]%at_is_true].
    destruct (at_is s e (cu_i c + 2) "<"%char); [apply continue_at_total; lia|].
    destruct (cu_i c <? cu_arithmetic_until c); [apply does_then; [apply does_flag|apply continue_at_total; lia]|].
    eapply does_bind; [apply heredoc_operator_total; [done|lia]|]. intros after [Ha _]. apply continue_at_total. lia. }
  assert (∀ b : bool, b && at_is s e (cu_i c + 1) "("%char = true →
    does n (scanned ← substitution s scan e (cu_i c + 1) collect; continue_after e close scanned c) (λ r, turn_ok (cu_i c) r)) as Hsub.
  { intros b [_ [Hp Hg]%at_is_true]%andb_true_iff. eapply does_bind; [by apply substitution_total|].
    intros scanned Ha. apply continue_after_total. intros a E. specialize (Ha a E). lia. }
  destruct ((byte_is ch "<"%char || byte_is ch ">"%char) && _) eqn:Hps; [by eapply Hsub|].
  destruct (byte_is ch "{"%char && _); [apply does_then; [apply does_flag|done]|].
  destruct (byte_is ch "}"%char && _) eqn:Hbrace.
  { apply andb_true_iff in Hbrace as [Hbrace%Hch Hclose%bool_decide_eq_true].
    eapply does_bind with (P := λ _, True).
    { apply does_lift, slice_total; [lia|lia|apply boundary_start|by eapply boundary_at|done]. }
    intros before _. apply does_then; [apply does_when; intros _; apply does_flag|].
    apply does_ret. intros a [= <-]. rewrite Hclose. lia. }
  eapply does_bind with (P := λ process : bool, process = true → at_is s e (cu_i c + 1) "("%char = true).
  { destruct (at_is s e (cu_i c + 1) "("%char); [|rewrite andb_false_r; by apply does_lift].
    eapply does_mono; [apply Hword|done]. }
  intros process Hprocess. destruct process; [by apply (Hsub true), Hprocess|].
  destruct (byte_is ch "("%char); [by apply open_paren_total; [..|lia]|].
  destruct (byte_is ch ")"%char) eqn:Hclose_paren.
  { destruct (bool_decide (close = CloseParen) && _) eqn:Hc; [|apply does_ret; cbn; lia].
    apply andb_true_iff in Hc as [Hc%bool_decide_eq_true _]. apply does_ret. intros a [= <-]. rewrite Hc.
    split; [lia|]. replace (S (cu_i c) - 1) with (cu_i c) by lia. by apply Hch. }
  apply does_get. intros l. destruct (byte_is ch LINE_FEED && _ && _) eqn:Hnl; [|done].
  apply andb_true_iff in Hnl as [[Hnl%Hch _]%andb_true_iff _].
  apply does_then; [apply does_when; intros _; apply does_flag|].
  eapply does_bind; [by apply heredoc_bodies_total|]. intros after Ha. by apply continue_at_total.
Qed.

Lemma step_total c : start ≤ cu_i c → cu_i c < e →
  does n (step s scan e start mode close collect pending_base c) (λ r, turn_ok (cu_i c) r).
Proof.
  intros Hs Hi. unfold step.
  eapply does_bind with (P := λ ch, String.get (cu_i c) s = Some ch).
  { apply does_lift. destruct (byte_at_lt e (cu_i c) Hi He) as [a Ha]. rewrite Ha. by apply byte_at_Some in Ha as [_ Ha]. }
  intros ch Hget. destruct (byte_is ch BACKSLASH) eqn:Hb.
  { apply does_then; [apply does_when|apply continue_at_total; lia].
    intros [Hlt Hnl]%at_is_true. apply does_push_continuation. apply byte_is_eq in Hb as ->.
    split; [cbn; lia|]. split; [by eapply boundary_at|]. cbn.
    replace (cu_i c + 2) with (S (cu_i c + 1)) by lia. by eapply boundary_after. }
  cbn zeta. set (otherwise := if byte_is ch BACKTICK then _ else _).
  assert (does n otherwise (λ r, turn_ok (cu_i c) r)) as Ho.
  { subst otherwise. destruct (byte_is ch BACKTICK) eqn:Hbt; [apply byte_is_eq in Hbt as ->; by apply backtick_total|].
    destruct (bool_decide _); [apply continue_at_total; lia|].
    destruct (cu_in_double c); [apply does_ret; cbn; lia|]. by apply unquoted_total. }
  destruct (byte_is ch "$"%char); [by apply dollar_total|done].
Qed.

Lemma scan_loop_total fuel c : start ≤ cu_i c → e ≤ fuel + cu_i c →
  does n (scan_loop s scan e start mode close collect pending_base fuel c) (after_ok e start close).
Proof.
  revert c. induction fuel as [|fuel IH]; intros c Hs Hfuel; cbn [scan_loop];
    destruct (Nat.ltb_spec (cu_i c) e) as [Hlt|Hge]; [lia|apply does_ret, unterminated_ok| |apply does_ret, unterminated_ok].
  eapply does_bind; [by apply step_total|]. intros [c'|after] Hturn; cbn in Hturn; [|by apply does_ret].
  apply IH; lia.
Qed.
End level.

Lemma scan_level_total n scan : scans n scan → scans n (scan_level s scan).
Proof.
  intros Hscan e start mode close collect He Hbe. unfold scan_level.
  apply does_then. { apply does_lift. by rewrite (proj2 (Nat.leb_le _ _) He). }
  apply does_get. intros l. apply scan_loop_total; [done..|cbn; lia|cbn; lia].
Qed.

(** As deep as nesting goes, the fuel is enough. *)
Lemma scan_total fuel n : MAX_SHELL_NESTING ≤ fuel + n → scans n (shell_scan s fuel).
Proof.
  revert n. induction fuel as [|fuel IH]; intros n Hn e start mode close collect He Hbe l Hl; cbn [shell_scan];
    apply wp_bind, wp_get; destruct Hl as [Ho Hln]; rewrite Hln;
    destruct (Nat.leb_spec MAX_SHELL_NESTING n) as [Hdeep|Hdeep]; [|lia| |].
  1-2: apply (does_then n); [apply does_too_deep|apply does_then; [apply does_flag|by apply does_ret]|done].
  apply wp_bind, wp_modify. apply wp_bind.
  eapply wp_mono; [apply (scan_level_total (S n) _ (IH (S n) ltac:(lia))); [done|done|split; [done|cbn; lia]]| |done].
  intros after l' [[Ho' Hn'] Ha]. apply wp_bind, wp_modify, wp_ret. split; [|done]. split; [done|]. cbn. rewrite Hn'. lia.
Qed.

Lemma lex_total : ∃ o, lex s = Ok o ∧ out_ok o.
Proof.
  pose proof (scan_total MAX_SHELL_NESTING 0 ltac:(lia) len 0 ModeShell CloseEof true ltac:(lia) boundary_end
                (MkLexer no_lexed [] 0)) as Hw.
  unfold lex. destruct (shell_scan _ _ _ _ _ _ _ _) as [l r] eqn:E. unfold wp in Hw. rewrite E in Hw.
  destruct r as [after|[]| |]; [|destruct Hw; by repeat constructor..].
  destruct Hw as [[(Hc & Hh & Hk) _] _]; [by repeat constructor|].
  eexists. split; [reflexivity|]. split_and!; cbn; [done| |done].
  apply Forall_app. split; [done|]. apply Forall_fmap, Forall_true. intros h. split; [cbn; lia|]. cbn. by rewrite boundary_end.
Qed.

Lemma keep_between_total ranges at_ out : Forall range_ok ranges → at_ ≤ len → is_boundary s at_ = true →
  ewp (keep_between s ranges at_ out) (λ r, r.2 ≤ len ∧ is_boundary s r.2 = true).
Proof.
  revert at_ out. induction ranges as [|[from to] ranges IH]; intros at_ out Hr Hat Hb; [done|]. cbn [keep_between].
  apply Forall_cons in Hr as [(Hft & Hbf & Hbt) Hr]. cbn [fst snd] in *. apply ewp_bind.
  eapply ewp_mono with (P := λ _, True).
  - intros kept _. apply IH; [done|lia|]. destruct (Nat.max_spec at_ to) as [[_ ->]|[_ ->]]; done.
  - destruct (Nat.ltb_spec at_ from); [|done].
    apply slice_total; [lia|lia|done|done|done].
Qed.
Lemma remove_ranges_total ranges : Forall range_ok ranges → ewp (remove_ranges s ranges) (λ _, True).
Proof.
  intros Hr. unfold remove_ranges. destruct ranges as [|r ranges]; [done|]. cbn zeta. apply ewp_bind.
  eapply ewp_mono; [|apply keep_between_total; [|lia|apply boundary_start]].
  - intros [out at_] [Hat Hb]. cbn in *. apply ewp_bind, slice_total; [lia|lia|by rewrite Nat.min_l by lia|apply boundary_end|done].
  - by rewrite merge_sort_Permutation.
Qed.
End text.

(** C10: Every text is lexed: [lex] neither panics nor runs on, each range it
    reports is a part of the text between characters, and so the gate can
    always strip comments and here-documents from it, list its here-documents
    and join its lines. *)
Theorem every_text_is_lexed s quoted_only comments : well_formed_text s →
  ∃ o stripped delims joined,
    lex s = Ok o ∧ Forall (range_ok s) (lx_comments o ++ (hd_body <$> lx_heredocs o) ++ lx_continuations o)
    ∧ strip_for_analysis s quoted_only comments = Ok stripped ∧ heredoc_delims s quoted_only = Ok delims
    ∧ normalize_line_continuations s = Ok joined.
Proof.
  intros Hs. destruct (lex_total s Hs) as (o & Ho & Hc & Hh & Hk).
  assert (∀ ranges, Forall (range_ok s) ranges → ∃ t, remove_ranges s ranges = Ok t) as Hremove.
  { intros ranges Hr. pose proof (remove_ranges_total s Hs ranges Hr) as Ht.
    destruct (remove_ranges s ranges) as [t|[]| |]; [by exists t|done..]. }
  assert (∃ stripped, strip_for_analysis s quoted_only comments = Ok stripped) as [stripped Hstrip].
  { unfold strip_for_analysis. destruct (_ && _); [by eexists|]. rewrite Ho, exec_bind_ret. apply Hremove.
    apply Forall_app. split; [|by destruct comments].
    apply Forall_fmap, Forall_forall. intros h [Hin _]%elem_of_filter_list. by apply (proj1 (Forall_forall _ _) Hh). }
  assert (∃ delims, heredoc_delims s quoted_only = Ok delims) as [delims Hdelims].
  { unfold heredoc_delims. destruct (negb _); [by eexists|]. rewrite Ho, exec_bind_ret. by eexists. }
  assert (∃ joined, normalize_line_continuations s = Ok joined) as [joined Hjoined].
  { unfold normalize_line_continuations. destruct (contains _ _); [|by eexists].
    rewrite Ho, exec_bind_ret. destruct (Hremove _ Hk) as [t ->]. by eexists. }
  exists o, stripped, delims, joined. split_and!; try done.
  apply Forall_app. split; [done|]. apply Forall_app. split; [by apply Forall_fmap|done].
Qed.
