(* ===== verification/ShellScripts.v ===== *)
(** * What the lexer finds in a command

    Commands made of words, quotes and substitutions nested in each other: the
    lexer finds exactly the substitutions the shell expands. *)
From Stdlib Require Import Ascii.
From stdpp Require Import sorting.
From S2P Require Import Prelude Wp BTree Text ShellLexer ShellLexerFacts.
#[local] Open Scope nat_scope.

(** A command as a sequence of bytes, quoted texts and substitutions. *)
Inductive script :=
| Done
| Byte (a : ascii) (rest : script)
| Single (t : string) (rest : script)
| Double (inner rest : script)
| Subst (inner rest : script)
| Ticks (inner rest : script).
Fixpoint text_of (p : script) : string :=
  match p with
  | Done => ""
  | Byte a rest => String a (text_of rest)
  | Single t rest => String SINGLE_QUOTE (t +:+ String SINGLE_QUOTE (text_of rest))
  | Double inner rest => String DOUBLE_QUOTE (text_of inner +:+ String DOUBLE_QUOTE (text_of rest))
  | Subst inner rest => String "$"%char (String "("%char (text_of inner +:+ String ")"%char (text_of rest)))
  | Ticks inner rest => String BACKTICK (text_of inner +:+ String BACKTICK (text_of rest))
  end.

(** Bytes without a meaning outside and inside double quotes. *)
Definition special_quoted (a : ascii) : bool :=
  byte_is a BACKSLASH || byte_is a "$"%char || byte_is a BACKTICK || byte_is a DOUBLE_QUOTE.
Definition special (a : ascii) : bool :=
  special_quoted a || byte_is a SINGLE_QUOTE || byte_is a "#"%char || byte_is a "<"%char || byte_is a ">"%char
  || byte_is a "("%char || byte_is a ")"%char || byte_is a "="%char || byte_is a LINE_FEED.
Definition no_tick (a : ascii) : bool := negb (byte_is a BACKTICK || byte_is a BACKSLASH).
Fixpoint well_quoted (quoted : bool) (p : script) : bool :=
  match p with
  | Done => true
  | Byte a rest => negb (if quoted then special_quoted a else special a) && well_quoted quoted rest
  | Single t rest => negb quoted && all_bytes (λ a, negb (byte_is SINGLE_QUOTE a)) t && well_quoted quoted rest
  | Double inner rest => negb quoted && well_quoted true inner && well_quoted quoted rest
  | Subst inner rest => well_quoted false inner && well_quoted quoted rest
  | Ticks inner rest => well_quoted false inner && all_bytes no_tick (text_of inner) && well_quoted quoted rest
  end.
(** What the shell expands at the top, in order. *)
Fixpoint substitutions (p : script) : list Expansion :=
  match p with
  | Done => []
  | Byte _ rest | Single _ rest => substitutions rest
  | Double inner rest => substitutions inner ++ substitutions rest
  | Subst inner rest | Ticks inner rest => MkExpansion (text_of inner) false :: substitutions rest
  end.
Fixpoint nesting_of (p : script) : nat :=
  match p with
  | Done => 0
  | Byte _ rest | Single _ rest => nesting_of rest
  | Double inner rest => Nat.max (nesting_of inner) (nesting_of rest)
  | Subst inner rest | Ticks inner rest => Nat.max (S (nesting_of inner)) (nesting_of rest)
  end.

(** ** Parts of a text *)
Definition part_at (s : string) (i : nat) (t : string) : Prop := ∃ pre post, s = pre +:+ t +:+ post ∧ String.length pre = i.

Lemma length_app' t u : String.length (t +:+ u) = String.length t + String.length u.
Proof. pose proof (str_len_app t u). unfold str_len in *. lia. Qed.
Lemma get_app t u i : String.get (String.length t + i) (t +:+ u) = String.get i u.
Proof. induction t as [|a t IH]; [done|]. exact IH. Qed.
Lemma substring_prefix t u : String.substring 0 (String.length t) (t +:+ u) = t.
Proof. induction t as [|a t IH]; [by destruct u|].
  change (String a t +:+ u) with (String a (t +:+ u)). cbn. by rewrite IH. Qed.
Lemma substring_app t u n : String.substring (String.length t) n (t +:+ u) = String.substring 0 n u.
Proof. induction t as [|a t IH]; [done|]. exact IH. Qed.

Lemma part_app s i t u : part_at s i (t +:+ u) → part_at s i t ∧ part_at s (i + String.length t) u.
Proof.
  intros (pre & post & -> & <-). split.
  - exists pre, (u +:+ post). by rewrite append_assoc.
  - exists (pre +:+ t), post. by rewrite length_app', !append_assoc.
Qed.
Lemma part_cons s i a t : part_at s i (String a t) → String.get i s = Some a ∧ part_at s (S i) t.
Proof.
  intros (pre & post & -> & <-). split.
  - rewrite <-(Nat.add_0_r (String.length pre)) at 1. by rewrite get_app.
  - exists (pre +:+ String a ""), post. rewrite append_assoc, length_app'. split; [done|]. cbn. lia.
Qed.
Lemma part_end s i t : part_at s i t → i + String.length t ≤ String.length s.
Proof. intros (pre & post & -> & <-). rewrite !length_app'. lia. Qed.
Lemma part_slice s i t : part_at s i t → is_boundary s i = true → is_boundary s (i + String.length t) = true →
  slice s i (i + String.length t) = Ok t.
Proof.
  intros Hp Hb Hb'. unfold slice. pose proof (part_end _ i t Hp).
  rewrite (proj2 (Nat.leb_le _ _)), (proj2 (Nat.leb_le _ _)), Hb, Hb' by lia. f_equal.
  destruct Hp as (pre & post & -> & <-). replace (String.length pre + String.length t - String.length pre) with (String.length t) by lia.
  by rewrite substring_app, substring_prefix.
Qed.

Section text.
Context (s : string) (Htext : well_formed_text s).
Notation len := (String.length s).

Lemma find_after p n i t b : part_at s i t → all_bytes (λ a, negb (p a)) t = true →
  String.get (i + String.length t) s = Some b → p b = true → String.length t < n →
  find_at s p n i = Some (i + String.length t).
Proof.
  revert n i. induction t as [|a t IH]; intros n i Ht Hno Hb Hp Hn; (destruct n as [|n]; [cbn in Hn; lia|]).
  - cbn [String.length] in *. rewrite Nat.add_0_r in *. cbn. by rewrite Hb, Hp.
  - apply part_cons in Ht as [Ha Ht]. cbn [all_bytes String.length] in *. apply andb_true_iff in Hno as [Hna%negb_true_iff Hno].
    cbn. rewrite Ha, Hna, Nat.add_succ_r in *. rewrite <-Nat.add_succ_l in *. apply IH; [done..|lia].
Qed.

Lemma backtick_after fuel e i t : part_at s i t → all_bytes no_tick t = true →
  String.get (i + String.length t) s = Some BACKTICK → i + String.length t < e → e ≤ fuel + i →
  backtick_walk s fuel e i = Ok (Some (i + String.length t)).
Proof.
  revert fuel i. induction t as [|a t IH]; intros fuel i Ht Hno Hb He Hfuel; (destruct fuel as [|fuel]; [cbn in *; lia|]);
    cbn [String.length backtick_walk] in *.
  - rewrite Nat.add_0_r in *. rewrite (proj2 (Nat.ltb_lt _ _)) by lia. unfold byte_at.
    rewrite (proj2 (Nat.ltb_lt _ _)), Hb by lia. done.
  - apply part_cons in Ht as [Ha Ht]. cbn [all_bytes] in Hno.
    apply andb_true_iff in Hno as [[Hn1 Hn2]%negb_true_iff%orb_false_iff Hno].
    rewrite (proj2 (Nat.ltb_lt _ _)) by lia. unfold byte_at at 1. rewrite (proj2 (Nat.ltb_lt _ _)), Ha by lia.
    cbn [expect]. rewrite exec_bind_ret, Hn2, Hn1, Nat.add_succ_r in *. rewrite <-Nat.add_succ_l in *. apply IH; [done..|lia|lia].
Qed.

(** What a level that collects adds to the lexer. *)
Definition found (collect : bool) (l : list Expansion) (x : Lexer) : Lexer :=
  if collect then
    edit_out (λ o, MkLexed (lx_expansions o ++ l) (lx_comments o) (lx_heredocs o) (lx_continuations o)
      (lx_problem o) (lx_too_deep o)) x
  else x.
Lemma found_nil collect x : found collect [] x = x.
Proof. destruct collect, x as [[] ? ?]; [|done]. unfold found, edit_out; cbn. by rewrite app_nil_r. Qed.
Lemma found_app collect l l' x : found collect (l ++ l') x = found collect l' (found collect l x).
Proof. destruct collect, x as [[] ? ?]; [|done]. unfold found, edit_out; cbn. by rewrite app_assoc. Qed.
Lemma push_found collect body x : push collect body false x = (found collect [MkExpansion body false] x, Ok ()).
Proof. by destruct collect. Qed.
Lemma found_nesting collect l x : lx_nesting (found collect l x) = lx_nesting x.
Proof. by destruct collect. Qed.
Lemma found_pending collect l x : lx_pending (found collect l x) = lx_pending x.
Proof. by destruct collect. Qed.

Section level.
Context (d e start : nat) (close : Close) (collect : bool) (base : nat).
Notation loop := (scan_loop s (shell_scan s d) e start ModeShell close collect base).
Notation turn := (step s (shell_scan s d) e start ModeShell close collect base).

(** The loop goes on from there. *)
Definition reaches (c : Cursor) (l : Lexer) (c' : Cursor) (l' : Lexer) : Prop :=
  ∀ fuel, e ≤ fuel + cu_i c → ∃ fuel', e ≤ fuel' + cu_i c' ∧ loop fuel c l = loop fuel' c' l'.

Lemma reaches_refl c l : reaches c l c l.
Proof. intros fuel Hf. by exists fuel. Qed.
Lemma reaches_trans c l c1 l1 c2 l2 : reaches c l c1 l1 → reaches c1 l1 c2 l2 → reaches c l c2 l2.
Proof.
  intros H1 H2 fuel Hf. destruct (H1 fuel Hf) as (f1 & Hf1 & ->). destruct (H2 f1 Hf1) as (f2 & Hf2 & ->). by exists f2.
Qed.
Lemma loop_turn fuel c l : cu_i c < e → e ≤ fuel + cu_i c → ∃ fuel', fuel = S fuel'
  ∧ loop fuel c l = (turn c ≫= λ r, match r with inl c => loop fuel' c | inr after => mret after end) l.
Proof.
  intros Hi Hf. destruct fuel as [|fuel]; [lia|]. exists fuel. split; [done|]. cbn [scan_loop].
  by rewrite (proj2 (Nat.ltb_lt _ _) Hi).
Qed.
Lemma reaches_turn c l c' l' : cu_i c < e → turn c l = (l', Ok (inl c')) → cu_i c < cu_i c' → reaches c l c' l'.
Proof.
  intros Hi Ht Hlt fuel Hf. destruct (loop_turn fuel c l Hi Hf) as (fuel' & -> & ->). exists fuel'. split; [lia|].
  by rewrite (op_bind_run _ _ _ _ _ Ht).
Qed.

Context (He : e ≤ len) (Hbe : is_boundary s e = true) (Hclose : close ≠ CloseBrace).

Lemma turn_byte c l a : cu_i c < e → String.get (cu_i c) s = Some a →
  turn c l = (if byte_is a BACKSLASH then
                ((if at_is s e (cu_i c + 1) LINE_FEED then push_continuation (cu_i c, cu_i c + 2) else mret ());;
                 continue_at (cu_i c + 2) c)
              else
              let otherwise :=
                if byte_is a BACKTICK then backtick s (shell_scan s d) e close collect c
                else if cu_in_double c then mret (inl (set_in_double (negb (byte_is a DOUBLE_QUOTE)) (set_i (S (cu_i c)) c)))
                else unquoted s (shell_scan s d) e start ModeShell close collect base a c in
              if byte_is a "$"%char then dollar s (shell_scan s d) e ModeShell close collect c otherwise else otherwise) l.
Proof.
  intros Hi Ha. unfold step. rewrite (op_bind_run _ _ _ l a); [done|].
  assert (byte_at s e (cu_i c) = Some a) as -> by by apply byte_at_Some. done.
Qed.

Lemma turn_plain c l a : cu_i c < e → String.get (cu_i c) s = Some a →
  (if cu_in_double c then special_quoted a else special a) = false →
  turn c l = (l, Ok (inl (set_i (S (cu_i c)) c))).
Proof.
  intros Hi Ha Hs. rewrite (turn_byte c l a Hi Ha). destruct (cu_in_double c) eqn:Hd.
  - unfold special_quoted in Hs. apply orb_false_iff in Hs as [[[-> ->]%orb_false_iff ->]%orb_false_iff ->].
    cbn zeta iota. destruct c. cbn in Hd. by subst.
  - unfold special, special_quoted in Hs. rewrite !orb_false_iff in Hs.
    destruct Hs as (((((((((((-> & E1) & ->) & E2) & E3) & E4) & E5) & E6) & E7) & E8) & E9) & E10).
    cbn zeta iota. rewrite E1. unfold unquoted. cbn zeta. rewrite E2, E3, E1. cbn [andb]. rewrite E4. cbn [andb].
    rewrite (op_bind_run _ _ _ l false) by done. rewrite E5, E6. cbn [andb orb is_param]. rewrite andb_false_r.
    rewrite (bool_decide_eq_false_2 _ Hclose), andb_false_r, E9. cbn [andb].
    rewrite (op_bind_run _ _ _ l false) by done. rewrite E7, E8.
    rewrite (op_bind_run _ _ _ l l) by done. by rewrite E10.
Qed.

(** A part in single quotes. *)
Lemma turn_single c l t : cu_in_double c = false → part_at s (cu_i c) (String SINGLE_QUOTE (t +:+ String SINGLE_QUOTE "")) →
  all_bytes (λ a, negb (byte_is SINGLE_QUOTE a)) t = true → cu_i c + 2 + String.length t ≤ e →
  turn c l = (l, Ok (inl (set_i (cu_i c + 2 + String.length t) c))).
Proof.
  intros Hd Hp Ht Hlen. apply part_cons in Hp as [Hq Hp]. apply part_app in Hp as [Hp [Hq' _]%part_cons].
  rewrite (turn_byte c l SINGLE_QUOTE) by (lia || done). rewrite Hd. unfold unquoted.
  change (byte_is SINGLE_QUOTE BACKSLASH) with false. change (byte_is SINGLE_QUOTE BACKTICK) with false.
  change (byte_is SINGLE_QUOTE "$"%char) with false. change (byte_is SINGLE_QUOTE DOUBLE_QUOTE) with false.
  change (byte_is SINGLE_QUOTE SINGLE_QUOTE) with true. change (bool_decide (ModeShell = ModeParam true)) with false. cbn iota zeta.
  rewrite Nat.add_1_r.
  assert (∃ t, slice s (S (cu_i c)) e = Ok t) as [rest Hrest].
  { pose proof (slice_total s (S (cu_i c)) e (λ _, True) ltac:(lia) He ltac:(by eapply boundary_after) Hbe ltac:(done)) as Hsl.
    destruct (slice s (S (cu_i c)) e) as [r|[]| |]; [by exists r|done..]. }
  rewrite (op_bind_run _ _ _ l rest) by (unfold lift; by rewrite Hrest).
  unfold find_byte.
  rewrite (find_after _ _ _ t SINGLE_QUOTE) by (done || lia).
  replace (cu_i c + 2 + String.length t) with (S (S (cu_i c) + String.length t)) by lia. done.
Qed.
Lemma turn_quote c l : cu_i c < e → String.get (cu_i c) s = Some DOUBLE_QUOTE →
  turn c l = (l, Ok (inl (set_in_double (negb (cu_in_double c)) (set_i (S (cu_i c)) c)))).
Proof.
  intros Hi Hq. rewrite (turn_byte c l DOUBLE_QUOTE) by done.
  change (byte_is DOUBLE_QUOTE BACKSLASH) with false. change (byte_is DOUBLE_QUOTE BACKTICK) with false.
  change (byte_is DOUBLE_QUOTE "$"%char) with false. cbn iota zeta. by destruct (cu_in_double c).
Qed.
(** The end of a substitution. *)
Lemma turn_close c l : cu_i c < e → String.get (cu_i c) s = Some ")"%char → cu_in_double c = false →
  close = CloseParen → cu_depth c = 0%Z → turn c l = (l, Ok (inr (Some (S (cu_i c))))).
Proof.
  intros Hi Hp Hd Hc Hdepth. rewrite (turn_byte c l ")"%char) by done. rewrite Hd. unfold unquoted.
  rewrite Hdepth, (bool_decide_eq_true_2 _ Hc), (bool_decide_eq_false_2 _ Hclose). reflexivity.
Qed.
End level.

(** The loop gets past [p]. *)
Definition gets_past (p : script) : Prop :=
  ∀ quoted d e start close collect base l c, well_quoted quoted p = true → e ≤ len → is_boundary s e = true →
    close ≠ CloseBrace → part_at s (cu_i c) (text_of p) → cu_i c + String.length (text_of p) ≤ e →
    lx_nesting l + nesting_of p ≤ MAX_SHELL_NESTING → MAX_SHELL_NESTING ≤ d + lx_nesting l → cu_in_double c = quoted →
    reaches d e start close collect base c l
      (set_i (cu_i c + String.length (text_of p)) c) (found collect (substitutions p) l).

(** The scan of a level of its own. *)
Lemma scan_runs d e i close l r : e ≤ len → S (lx_nesting l) ≤ MAX_SHELL_NESTING → MAX_SHELL_NESTING ≤ d + lx_nesting l →
  (∀ d' base, d = S d' → scan_loop s (shell_scan s d') e i ModeShell close false base (e - i) (MkCursor i false 0 0 None)
     (set_nesting (S (lx_nesting l)) l) = (set_nesting (S (lx_nesting l)) l, Ok r)) →
  shell_scan s d e i ModeShell close false l = (l, Ok r).
Proof.
  intros He Hn Hd Hloop. destruct d as [|d]; [lia|]. cbn [shell_scan].
  rewrite (op_bind_run _ _ _ l l) by done. rewrite (proj2 (Nat.leb_gt _ _)) by lia.
  rewrite (op_bind_run _ _ _ (set_nesting (S (lx_nesting l)) l) ()) by done.
  assert (scan_level s (shell_scan s d) e i ModeShell close false (set_nesting (S (lx_nesting l)) l)
          = (set_nesting (S (lx_nesting l)) l, Ok r)) as Hl.
  { unfold scan_level. rewrite (op_bind_run _ _ _ (set_nesting (S (lx_nesting l)) l) ())
      by by rewrite (proj2 (Nat.leb_le _ _) He).
    rewrite (op_bind_run _ _ _ (set_nesting (S (lx_nesting l)) l) (set_nesting (S (lx_nesting l)) l)) by done.
    by apply Hloop. }
  rewrite (op_bind_run _ _ _ _ _ Hl). rewrite (op_bind_run _ _ _ l ()); [done|].
  unfold modify, set_nesting; cbn. rewrite Nat.sub_0_r. by destruct l.
Qed.

Lemma scan_paren p d e i l : gets_past p → well_quoted false p = true → e ≤ len → is_boundary s e = true →
  part_at s i (text_of p) → String.get (i + String.length (text_of p)) s = Some ")"%char →
  i + String.length (text_of p) < e →
  S (lx_nesting l) + nesting_of p ≤ MAX_SHELL_NESTING → MAX_SHELL_NESTING ≤ d + lx_nesting l →
  shell_scan s d e i ModeShell CloseParen false l = (l, Ok (Some (S (i + String.length (text_of p))))).
Proof.
  intros Hp Hw He Hbe Hpart Hparen Hlt Hn Hd. apply scan_runs; [done|lia|done|]. intros d' base ->.
  set (l1 := set_nesting (S (lx_nesting l)) l).
  destruct (Hp false d' e i CloseParen false base l1 (MkCursor i false 0 0 None) Hw He Hbe ltac:(done) Hpart
              ltac:(cbn; lia) ltac:(cbn; lia) ltac:(cbn; lia) eq_refl (e - i) ltac:(cbn; lia)) as (fuel & Hfuel & ->).
  cbn [cu_i set_i found] in *.
  destruct (loop_turn d' e i CloseParen false base fuel (set_i (i + String.length (text_of p)) (MkCursor i false 0 0 None)) l1
              Hlt Hfuel) as (fuel' & -> & ->).
  erewrite op_bind_run; [|by apply turn_close]. done.
Qed.

Lemma scan_ticks p d i l : gets_past p → well_quoted false p = true →
  part_at s i (text_of p) → is_boundary s (i + String.length (text_of p)) = true →
  S (lx_nesting l) + nesting_of p ≤ MAX_SHELL_NESTING → MAX_SHELL_NESTING ≤ d + lx_nesting l →
  shell_scan s d (i + String.length (text_of p)) i ModeShell CloseEof false l = (l, Ok (Some (i + String.length (text_of p)))).
Proof.
  intros Hp Hw Hpart Hb Hn Hd. pose proof (part_end s i _ Hpart) as Hle. apply scan_runs; [done|lia|done|]. intros d' base ->.
  set (l1 := set_nesting (S (lx_nesting l)) l). set (e := i + String.length (text_of p)) in *.
  destruct (Hp false d' e i CloseEof false base l1 (MkCursor i false 0 0 None) Hw Hle Hb ltac:(done) Hpart
              ltac:(cbn; lia) ltac:(cbn; lia) ltac:(cbn; lia) eq_refl (e - i) ltac:(cbn; lia)) as (fuel & Hfuel & ->).
  cbn [cu_i set_i found] in *. destruct fuel; cbn [scan_loop cu_i]; by rewrite Nat.ltb_irrefl.
Qed.

Lemma set_i_set_i i j c : set_i i (set_i j c) = set_i i c.
Proof. done. Qed.
Lemma set_i_id c : set_i (cu_i c) c = c.
Proof. by destruct c. Qed.

(** Past one part, and then past the rest. *)
Lemma past_rest rest d e start close collect base l c k l1 exs : gets_past rest →
  well_quoted (cu_in_double c) rest = true → e ≤ len → is_boundary s e = true → close ≠ CloseBrace →
  part_at s (cu_i c + k) (text_of rest) → cu_i c + k + String.length (text_of rest) ≤ e →
  lx_nesting l + nesting_of rest ≤ MAX_SHELL_NESTING → MAX_SHELL_NESTING ≤ d + lx_nesting l →
  l1 = found collect exs l →
  reaches d e start close collect base c l (set_i (cu_i c + k) c) l1 →
  reaches d e start close collect base c l (set_i (cu_i c + (k + String.length (text_of rest))) c)
    (found collect (exs ++ substitutions rest) l).
Proof.
  intros Hrest Hw He Hbe Hclose Hpart Hle Hn Hd -> Hfirst. eapply reaches_trans; [exact Hfirst|].
  rewrite found_app, Nat.add_assoc. rewrite <-(set_i_set_i _ (cu_i c + k) c).
  apply (Hrest _ d e start close collect base _ (set_i (cu_i c + k) c) Hw); cbn [cu_i set_i cu_in_double]; try done;
    by rewrite found_nesting.
Qed.

Lemma past_byte a rest : gets_past rest → gets_past (Byte a rest).
Proof.
  intros Hrest quoted d e start close collect base l c Hw He Hbe Hclose Hpart Hle Hn Hd <-. cbn in Hw, Hpart, Hle, Hn |- *.
  apply andb_true_iff in Hw as [Hs%negb_true_iff Hw]. apply part_cons in Hpart as [Ha Hpart].
  apply (past_rest rest d e start close collect base l c 1 l []); try done; rewrite ?Nat.add_1_r; try done; try lia.
  - by rewrite found_nil.
  - apply reaches_turn; [lia|by eapply turn_plain; [..|lia|exact Ha|]|cbn; lia].
Qed.

Lemma past_single t rest : gets_past rest → gets_past (Single t rest).
Proof.
  intros Hrest quoted d e start close collect base l c Hw He Hbe Hclose Hpart Hle Hn Hd <-.
  cbn [well_quoted text_of substitutions nesting_of] in *.
  apply andb_true_iff in Hw as [[Hq%negb_true_iff Ht]%andb_true_iff Hw].
  assert (String.length (String SINGLE_QUOTE (t +:+ String SINGLE_QUOTE (text_of rest))) = 2 + String.length t + String.length (text_of rest))
    as Hlen by (cbn; rewrite length_app'; cbn; lia). rewrite Hlen in *.
  assert (String SINGLE_QUOTE (t +:+ String SINGLE_QUOTE (text_of rest)) = String SINGLE_QUOTE (t +:+ String SINGLE_QUOTE "") +:+ text_of rest) as E
    by (change (String SINGLE_QUOTE (t +:+ String SINGLE_QUOTE "") +:+ text_of rest)
          with (String SINGLE_QUOTE ((t +:+ String SINGLE_QUOTE "") +:+ text_of rest)); by rewrite append_assoc).
  rewrite E in Hpart. apply part_app in Hpart as [Hhead Hpart].
  assert (String.length (String SINGLE_QUOTE (t +:+ String SINGLE_QUOTE "")) = 2 + String.length t) as Hl
    by (cbn; rewrite length_app'; cbn; lia). rewrite Hl in Hpart.
  apply (past_rest rest d e start close collect base l c (2 + String.length t) l []); try done; try lia.
  - by rewrite found_nil.
  - apply reaches_turn; [lia| |cbn; lia].
    rewrite (turn_single d e start close collect base) with (t := t); try done; try lia.
    do 3 f_equal. f_equal. lia.
Qed.

(** A part between two delimiters, and what follows it. *)
Lemma between i a t b rest : part_at s i (String a (t +:+ String b rest)) →
  String.get i s = Some a ∧ part_at s (S i) t ∧ String.get (S i + String.length t) s = Some b
  ∧ part_at s (i + (2 + String.length t)) rest.
Proof.
  intros [Ha Hp]%part_cons. apply part_app in Hp as [Ht [Hb Hr]%part_cons]. split_and!; try done.
  by replace (i + (2 + String.length t)) with (S (S i + String.length t)) by lia.
Qed.
Lemma between_length a t b rest :
  String.length (String a (t +:+ String b rest)) = 2 + String.length t + String.length rest.
Proof. cbn. rewrite length_app'. cbn. lia. Qed.

Lemma past_double inner rest : gets_past inner → gets_past rest → gets_past (Double inner rest).
Proof.
  intros Hinner Hrest quoted d e start close collect base l c Hw He Hbe Hclose Hpart Hle Hn Hd <-.
  cbn [well_quoted text_of substitutions nesting_of] in *. rewrite between_length in *.
  apply andb_true_iff in Hw as [[Hq%negb_true_iff Hwi]%andb_true_iff Hw].
  apply between in Hpart as (Hopen & Hin & Hend & Hpart).
  apply (past_rest rest d e start close collect base l c (2 + String.length (text_of inner))
           (found collect (substitutions inner) l) (substitutions inner)); try done; try lia.
  set (c1 := set_in_double true (set_i (S (cu_i c)) c)).
  eapply reaches_trans.
  { apply reaches_turn; [lia|rewrite turn_quote by (done || lia); by rewrite Hq|cbn; lia]. }
  change (set_in_double (negb false) (set_i (S (cu_i c)) c)) with c1.
  eapply reaches_trans.
  { apply (Hinner true d e start close collect base l c1); try done; cbn; lia. }
  apply reaches_turn; cbn [cu_i set_i c1 set_in_double]; [lia| |lia].
  rewrite turn_quote by (done || (cbn; lia)).
  replace (cu_i c + (2 + String.length (text_of inner))) with (S (S (cu_i c) + String.length (text_of inner))) by lia.
  destruct c; cbn in Hq; by subst.
Qed.

Lemma not_paren p i e rest b : well_quoted false p = true → byte_is b "("%char = false →
  part_at s i (text_of p +:+ String b rest) → at_is s e i "("%char = false.
Proof.
  intros Hw Hb Hp. destruct (at_is s e i "("%char) eqn:E; [|done]. apply at_is_true in E as [_ E].
  assert (∀ a t, part_at s i (String a t) → a = "("%char) as Hfirst by (intros a t [Ha _]%part_cons; congruence).
  destruct p; apply Hfirst in Hp; subst; done.
Qed.

Lemma past_subst inner rest : gets_past inner → gets_past rest → gets_past (Subst inner rest).
Proof.
  intros Hinner Hrest quoted d e start close collect base l c Hw He Hbe Hclose Hpart Hle Hn Hd <-.
  cbn [well_quoted text_of substitutions nesting_of] in *. set (t := text_of inner) in *.
  assert (String.length (String "$"%char (String "("%char (t +:+ String ")"%char (text_of rest)))) =
          3 + String.length t + String.length (text_of rest)) as Hlen by (cbn; rewrite length_app'; cbn; lia).
  rewrite Hlen in *. apply andb_true_iff in Hw as [Hwi Hw].
  apply part_cons in Hpart as [Hdollar Hpart]. pose proof Hpart as [_ Htail]%part_cons.
  apply between in Hpart as (Hopen & Hin & Hend & Hpart).
  apply (past_rest rest d e start close collect base l c (3 + String.length t)
           (found collect [MkExpansion t false] l) [MkExpansion t false]); try done; try lia.
  { by replace (cu_i c + (3 + String.length t)) with (S (cu_i c) + (2 + String.length t)) by lia. }
  apply reaches_turn; [lia| |cbn; lia].
  rewrite (turn_byte d e start close collect base c l "$"%char) by (done || lia).
  change (byte_is "$"%char BACKSLASH) with false. change (byte_is "$"%char "$"%char) with true. cbn zeta iota.
  unfold dollar. cbn zeta. replace (cu_i c + 1) with (S (cu_i c)) by lia. replace (cu_i c + 2) with (S (S (cu_i c))) by lia.
  rewrite (proj2 (at_is_true _ _ _ _)) by (split; [lia|done]).
  rewrite (op_bind_run _ _ _ l None).
  2: { unfold arithmetic_at. by rewrite (not_paren inner (S (S (cu_i c))) e (text_of rest) ")"%char Hwi eq_refl Htail). }
  unfold substitution.
  rewrite (op_bind_run _ _ _ (found collect [MkExpansion t false] l) (Some (S (cu_i c) + (2 + String.length t)))).
  2: { erewrite op_bind_run; [|apply (scan_paren inner d e (S (S (cu_i c))) l); try done; fold t; lia]. fold t.
       rewrite (op_bind_run _ _ _ l t).
       2: { unfold lift. rewrite Nat.sub_succ, Nat.sub_0_r, part_slice; [done|done|by eapply boundary_after|by eapply boundary_at]. }
       rewrite (op_bind_run _ _ _ _ _ (push_found _ _ _)).
       replace (S (cu_i c) + (2 + String.length t)) with (S (S (S (cu_i c)) + String.length t)) by lia. reflexivity. }
  unfold continue_after, continue_at. by replace (S (cu_i c) + (2 + String.length t)) with (cu_i c + (3 + String.length t)) by lia.
Qed.

Lemma past_ticks inner rest : gets_past inner → gets_past rest → gets_past (Ticks inner rest).
Proof.
  intros Hinner Hrest quoted d e start close collect base l c Hw He Hbe Hclose Hpart Hle Hn Hd <-.
  cbn [well_quoted text_of substitutions nesting_of] in *. rewrite between_length in *.
  apply andb_true_iff in Hw as [[Hwi Hticks]%andb_true_iff Hw].
  apply between in Hpart as (Hopen & Hin & Hend & Hpart). set (t := text_of inner) in *.
  apply (past_rest rest d e start close collect base l c (2 + String.length t)
           (found collect [MkExpansion t false] l) [MkExpansion t false]); try done; try lia.
  apply reaches_turn; [lia| |cbn; lia].
  rewrite (turn_byte d e start close collect base c l BACKTICK) by (done || lia).
  change (byte_is BACKTICK BACKSLASH) with false. change (byte_is BACKTICK "$"%char) with false.
  change (byte_is BACKTICK BACKTICK) with true. cbn zeta iota.
  assert (is_boundary s (S (cu_i c) + String.length t) = true) as Hb by by eapply boundary_at.
  unfold backtick. cbn zeta. rewrite Nat.add_1_r. unfold closing_backtick.
  rewrite (op_bind_run _ _ _ l (Some (S (cu_i c) + String.length t)))
    by (unfold lift; by rewrite (backtick_after _ _ _ t) by (done || lia)).
  change (default e (Some (S (cu_i c) + String.length t))) with (S (cu_i c) + String.length t).
  rewrite (op_bind_run _ _ _ l t) by (unfold lift; rewrite part_slice; [done|done|by eapply boundary_after|done]).
  rewrite (op_bind_run _ _ _ _ _ (push_found _ _ _)).
  erewrite op_bind_run; [|apply (scan_ticks inner d (S (cu_i c))); try done; rewrite found_nesting; fold t; lia].
  unfold continue_at. by replace (cu_i c + (2 + String.length t)) with (S (S (cu_i c) + String.length t)) by lia.
Qed.

Lemma past_done : gets_past Done.
Proof.
  intros quoted d e start close collect base l c _ _ _ _ _ _ _ _ _. cbn. rewrite found_nil, Nat.add_0_r, set_i_id.
  apply reaches_refl.
Qed.
Lemma past_script p : gets_past p.
Proof.
  induction p; auto using past_done, past_byte, past_single, past_double, past_subst, past_ticks.
Qed.
End text.

(** C9: In a command made of words, quoted texts and substitutions nested in
    each other to the depth the lexer follows, the lexer finds exactly the
    substitutions the shell expands, in their order: those outside single
    quotes, also between double quotes, each with its whole text; and it finds
    no comment, no here-document, no continuation and nothing to refuse. *)
Theorem substitutions_are_found p : well_formed_text (text_of p) → well_quoted false p = true →
  nesting_of p < MAX_SHELL_NESTING →
  lex (text_of p) = Ok (MkLexed (substitutions p) [] [] [] None false).
Proof.
  intros Htext Hw Hl. set (s := text_of p) in *. set (len := String.length s).
  assert (part_at s 0 (text_of p)) as Hpart by (exists "", ""; split; [by rewrite append_empty|done]).
  set (l1 := set_nesting 1 (MkLexer no_lexed [] 0)).
  assert (scan_level s (shell_scan s 63) len 0 ModeShell CloseEof true l1 = (found true (substitutions p) l1, Ok (Some len))) as Hscan.
  { unfold scan_level. rewrite (op_bind_run _ _ _ l1 ()) by by rewrite Nat.leb_refl.
    rewrite (op_bind_run _ _ _ l1 l1) by done.
    destruct (past_script s Htext p false 63 len 0 CloseEof true (length (lx_pending l1)) l1 (MkCursor 0 false 0 0 None) Hw
                ltac:(done) ltac:(by apply boundary_end) ltac:(done) Hpart ltac:(done)
                ltac:(cbn; unfold MAX_SHELL_NESTING in *; lia) ltac:(cbn; unfold MAX_SHELL_NESTING; lia)
                eq_refl (len - 0) ltac:(cbn; lia)) as (fuel & Hfuel & ->).
    cbn [cu_i set_i] in *. fold s len. destruct fuel; cbn [scan_loop cu_i]; by rewrite Nat.ltb_irrefl. }
  assert (shell_scan s MAX_SHELL_NESTING len 0 ModeShell CloseEof true (MkLexer no_lexed [] 0)
          = (MkLexer (MkLexed (substitutions p) [] [] [] None false) [] 0, Ok (Some len))) as E.
  { change MAX_SHELL_NESTING with (S 63). cbn [shell_scan].
    rewrite (op_bind_run _ _ _ (MkLexer no_lexed [] 0) (MkLexer no_lexed [] 0)) by done.
    change (MAX_SHELL_NESTING <=? lx_nesting (MkLexer no_lexed [] 0)) with false. cbn iota.
    rewrite (op_bind_run _ _ _ l1 ()) by done. by rewrite (op_bind_run _ _ _ _ _ Hscan). }
  unfold lex. fold len. by rewrite E.
Qed.

(** [echo $(a $(b)) 'x $(y)' `c`], then in double quotes [z $(w)]. *)
Fixpoint word (t : string) (rest : script) : script :=
  match t with EmptyString => rest | String a t => Byte a (word t rest) end.
Definition sample_script : script :=
  word "echo " (Subst (word "a " (Subst (word "b" Done) Done)) (word " " (Single "x $(y)" (word " " (Ticks (word "c" Done)
    (word " " (Double (word "z " (Subst (word "w" Done) Done)) Done))))))).
Lemma substitutions_are_found_witness :
  lex (text_of sample_script) = Ok (MkLexed
    [MkExpansion "a $(b)" false; MkExpansion "c" false; MkExpansion "w" false] [] [] [] None false).
Proof.
  apply (substitutions_are_found sample_script); [by apply ascii_text|reflexivity|].
  apply Nat.ltb_lt. reflexivity.
Defined.

Definition NL : string := String LINE_FEED "".
Lemma every_text_is_lexed_witness : ∃ o stripped delims joined,
  lex ("cat <<EOF # x" +:+ NL +:+ "$(b)" +:+ NL +:+ "EOF") = Ok o
  ∧ Forall (range_ok ("cat <<EOF # x" +:+ NL +:+ "$(b)" +:+ NL +:+ "EOF"))
      (lx_comments o ++ (hd_body <$> lx_heredocs o) ++ lx_continuations o)
  ∧ strip_for_analysis ("cat <<EOF # x" +:+ NL +:+ "$(b)" +:+ NL +:+ "EOF") false true = Ok stripped
  ∧ heredoc_delims ("cat <<EOF # x" +:+ NL +:+ "$(b)" +:+ NL +:+ "EOF") false = Ok delims
  ∧ normalize_line_continuations ("cat <<EOF # x" +:+ NL +:+ "$(b)" +:+ NL +:+ "EOF") = Ok joined.
Proof. apply (every_text_is_lexed _ false true), ascii_text. reflexivity. Defined.

(** A here-document that is queued inside backticks and still without a body at
    the closing one takes the lines that follow, which shells run. *)
Example line_after_backticks_is_hidden :
  let command := "echo `cat <<EOF`" +:+ NL +:+ "touch hidden" +:+ NL +:+ "EOF" in
  (lexed ← lex command; Ok (lx_problem lexed)) = Ok None
  ∧ strip_for_analysis command false true = Ok "echo `cat <<EOF`".
Proof. split; vm_compute; reflexivity. Qed.
Example line_after_substitution_is_hidden :
  let command := "echo $(cat <<EOF)" +:+ NL +:+ "touch hidden" +:+ NL +:+ "EOF" in
  (lexed ← lex command; Ok (lx_problem lexed)) = Ok None
  ∧ strip_for_analysis command false true = Ok "echo $(cat <<EOF)".
Proof. split; vm_compute; reflexivity. Qed.
